(* ===== verification/_CoqProject ===== *)
-Q . S2P
Prelude.v
JsBits.v
JsNum.v
JsText.v
JsValue.v
JsonText.v
JsPath.v
JsOps.v
JsUtf8.v
RewardTree.v
RewardTreeFacts.v
RewardInput.v
RewardInputFacts.v
RewardScanFacts.v
Attestation.v
HexFacts.v
Evm.v
Distributor.v
DistributorFacts.v
RewardPayoutFacts.v
AttestationRegistry.v
AttestationRegistryFacts.v
AttestationFacts.v
JsRegex.v
SdkValue.v
SdkErrors.v
SdkErrorFacts.v
SdkExecution.v
SdkExecutionFacts.v
SdkContracts.v
Bech32.v
SdkChains.v
SdkUtils.v
SdkClients.v
SdkWallet.v
SdkRewards.v
SdkAttestations.v
SdkContractsFacts.v
Bech32Facts.v
Bech32Account.v
SdkChainsFacts.v
SdkUtilsFacts.v
SdkClientsFacts.v
SdkWalletFacts.v
SdkSendFacts.v
SdkViem.v
SdkRewardsFacts.v
SdkAttestationsFacts.v
SignerGuard.v
SignerGuardFacts.v
Health.v
HealthExporter.v
HealthFacts.v
HealthProps.v
Deploy.v
DeployFacts.v
JsPattern.v
SecretScan.v
SecretScanFacts.v
JsFixed.v
SampleSummary.v
SampleSummaryFacts.v
GeneratedFiles.v
GeneratedFilesFacts.v
TestnetRegistry.v
TestnetRegistryFacts.v
LocalnetRegistry.v
LocalnetRegistryFacts.v
GenerateArtifacts.v
GenerateArtifactsFacts.v
GenerateSamples.v
NetworkArtifacts.v
NetworkArtifactsFacts.v
NetworkSamples.v
UpgradeBinary.v
UpgradeBinaryFacts.v
Toolchain.v
ToolchainFacts.v
AuditBundle.v
AuditBundleFacts.v
