(* ===== verification/Prelude.v ===== *)
(** * Torium: a verification library

    Torium is an EVM chain with its operator tooling, contract tooling and a
    TypeScript SDK.  This library models the parts whose own logic decides
    something: what is paid out, what is attested, which signer state may be
    restored, what is reported as healthy, and what the SDK retries, reports and
    lets through to a contract.  The models are shallow: a function of the
    source is a function here, with its guards in the source's order; an
    exception is a value of [JsValue.result], [SdkValue.outcome] or a contract
    [call]; files, clocks, sockets and endpoints are explicit state or
    parameters.

    ** The JavaScript base

    - [Prelude]: notations, tactics, hints and the lemmas on lists, options and
      integers that the other files share.
    - [JsNum]: numbers as doubles (exact rationals, rounded where the code
      computes), comparison, [Number(string)], printing.
    - [JsText], [JsUtf8]: strings as UTF-16 code units, decimal and hexadecimal
      text, UTF-8.
    - [JsValue], [JsOps]: JSON values, property access, the errors that are
      thrown, and the assertions of the scripts.
    - [JsonText]: [JSON.parse] and [JSON.stringify], with the round trip.
    - [JsPath]: node:path on POSIX, and which joined paths are different files.
    - [JsRegex]: the regular expressions of the SDK as backtracking matchers;
      [JsPattern] reads pattern text for [new RegExp] and matches it.
    - [JsBits]: the 32-bit operators.  [JsFixed]: more arithmetic on doubles and
      [toFixed], with rounding monotone.

    ** Rewards (contracts/scripts/generate-reward-fixture.mjs and
       contracts/src/rewards/ToriumRewardDistributor.sol)

    [RewardTree] has the claims, the Merkle-sum tree and its proofs; [RewardInput]
    has the command line, the CSV and JSON readers, the duplicate-key scanner,
    the fixture file and the atomic write, as a trace of disk states.  [Evm] has
    what the contracts share: words, addresses, calls that return or revert.
    [Distributor] is the contract: storage, roles, pause and guard, publication,
    claims against a proof, clawback and the accounting views, with executions as
    a step relation in which the receiver of a payment may call back.
    [RewardTreeFacts] shows that every generated proof is accepted by the
    contract and that the root sum is the sum of the claims; [RewardInputFacts]
    and [RewardScanFacts] that input is read exactly and that a failing write
    leaves the output as it was; [DistributorFacts] that the contract stays
    solvent and pays a claim once, reentrant calls included; [RewardPayoutFacts]
    composes both: a published fixture pays out, in any order, exactly what it
    was funded with.

    ** Attestations (contracts/scripts/validate-attestation-vectors.mjs and
       contracts/src/attestations/ToriumAttestationRegistry.sol)

    [Attestation] is the validator of the published vectors,
    [HexFacts] the text of bytes, [AttestationRegistry] the contract's storage
    and calls with [reachable] storages as a step relation.  [AttestationRegistryFacts] proves the
    invariant of reachable storages, the life cycle of a record (a record only
    leaves [Active], once) and replay protection; [AttestationFacts]
    characterises the accepted vectors and states exactly when the contract
    attests the payload of an accepted vector under the vector's id; a vector
    with nonce 0, which the validator accepts, is never attested.

    ** Signer restore (chain/operator/signer-state-guard.mjs)

    [SignerGuard]: reading a signer home, comparing positions, deciding a
    restore, the command line.  [SignerGuardFacts]: an accepted restore never
    goes behind or conflicts with the current signer, and the decision is
    exactly the listed conditions.

    ** Localnet health (chain/localnet/scripts/health.mjs and
       chain/observability/health-exporter.mjs)

    [Health]: sampling, the aggregate state, the readiness wait and the report.
    [HealthExporter]: validation of reports and the Prometheus page.
    [HealthFacts] and [HealthProps]: what readiness and the states mean, that
    the wait ends, and that the exporter publishes exactly the reports whose
    numbers reconcile.

    ** The SDK (packages/torium-sdk/src)

    [SdkValue], [SdkErrors] (errors.ts) and [SdkExecution]
    (internal/execution.ts): foreign errors and their normalisation, and the
    loop that runs an action with timeout, cancellation, retries and
    diagnostics over an abstract world.  [SdkErrorFacts]: what an error may
    carry out; [SdkExecutionFacts]: reads are bounded, writes run once, a read
    recovers from passing failures, and the backoff that a missing Retry-After
    header switches off.

    [Bech32] and [SdkUtils] are utils.ts: accounts, amounts, hashes, chain ids and
    tagged JSON.  [Bech32Facts] and [Bech32Account] show that account texts and
    addresses correspond one to one and that three wrong characters are always
    noticed; [SdkUtilsFacts] the other round trips.  [SdkChains] is chains.ts,
    with a node as a function of requests and a world; [SdkChainsFacts]: an
    accepted endpoint answered with the chain's identity, and a truthful node
    gets the verdict that its state deserves.  [SdkClients] is clients.ts;
    [SdkClientsFacts]: log ranges tile a block range.  [SdkWallet] is wallet.ts;
    [SdkWalletFacts]: the normal form of a request is well typed;
    [SdkSendFacts]: a transaction is submitted at most once, after the user
    granted the preflight that it carries out.

    [SdkContracts] is the part of contracts.ts that its contracts share: typed
    errors, deployments, verification of deployed bytecode, revert data,
    simulation, and the readers of what an endpoint answers; [SdkRewards] and
    [SdkAttestations] are its two halves: hashes and proofs as the contracts
    compute them, reads, preflights and prepared requests.  An action runs
    through [SdkExecution]; an endpoint is a function of a request and a world.
    [SdkContractsFacts]: 32-byte text and its order, and what a verified
    deployment means.  [SdkViem] is the interface on which the helpers rely for
    viem (a class with an instance).  [SdkRewardsFacts] and
    [SdkAttestationsFacts] put the helpers against [Distributor] and
    [AttestationRegistry]: the SDK rebuilds the contract's root, predicts the
    contract's ids, and a preflight reports exactly what it looks at; with the
    cases in which the contract decides otherwise: a zero account or amount, which
    only the contract refuses, and a superseding schema or subject in upper case,
    which only the preflight refuses.

    ** Deployment and generated artifacts (contracts/script/deploy-testnet.mjs
       and contracts/scripts/)

    [Deploy] is the deployment script over an abstract chain, with a log of what
    it sends, writes and prints; [DeployFacts]: it sends only the configured
    plan, records only verified code, and a rerun sends nothing.
    [GeneratedFiles] is what the scripts share: JSON in key order, checksums, and
    text that must not be generated.  [GenerateArtifacts] is
    generate-artifacts.mjs: the checks of the Foundry output, the artifacts, the
    localnet registry, the SDK modules, the documentation manifest, the checksum
    file, and the disk they are written to, where any operation may fail.
    [LocalnetRegistry] and [TestnetRegistry] are the two registry validators; the
    JSON schema of the testnet registry is a decision on documents, which Ajv, a
    parameter, is assumed to follow where a theorem says so.
    [GeneratedFilesFacts]: the text of a document is canonical.
    [GenerateArtifactsFacts]: files are replaced as a whole whatever fails, a
    check after a run finds no drift, and what was written passes the checksum
    check of the validator and the artifact checks of the deployment.
    [LocalnetRegistryFacts] and [TestnetRegistryFacts]: an accepted localnet
    registry can be deployed, its checksum file is determined by the files, and
    an accepted testnet registry names the addresses that every completed run of
    the deployment records.  [GenerateSamples] runs generator, check, validator
    and deployment on one small repository.

    ** Releases and operators (chain/releases/generate-network-artifacts-v0.mjs,
       chain/operator/verify-upgrade-binary.mjs, chain/scripts/check-toolchain.mjs)

    [NetworkArtifacts] is the bundle of network metadata: its sources, the four
    environments, the semantic checks and the write and check runs.
    [NetworkArtifactsFacts]: the contract addresses it publishes are those that
    the deployment recorded if no id occurs twice; a registry with a copy of an
    entry in front is validated all the same and the copy's address published;
    and a check after a write succeeds.  [NetworkSamples]: a bundle, and the
    registry of the repository, as it is and doubled.  [UpgradeBinary] is the preflight
    of an upgrade, with what a process prints as a parameter;
    [UpgradeBinaryFacts]: which runs verify a binary, and how every other ends.
    [Toolchain] is the toolchain check; [ToolchainFacts]: versions compare as
    numbers, and all that a successful check found, in the manifest, the packages,
    the lock file, on the host and in the images.

    ** Audit bundle (contracts/scripts/generate-audit-bundle.mjs)

    [AuditBundle]: the configuration, the scope (files and trees), the commit, the
    settings, coverage and dependencies, the manifest and its checksum file, over
    what the file system, git and the environment answer.  [AuditBundleFacts]: the
    manifest lists exactly the scope with the digests of the bytes, the scope
    digest determines the list, and the walk has enough fuel.

    ** Secret scan (chain/scripts/scan-prohibited-secrets.mjs)

    [SecretScan]: the rules, the files, the findings and the allowlist of exact
    counts; [SecretScanFacts]: what a clean scan means, findings line by line,
    and the second secret on a line, which a count of one covers.
    [JsPattern]: the matcher and the reader of patterns have enough fuel.

    ** Sample summary (chain/performance/summarize-samples.mjs)

    [SampleSummary]: counts by outcome, throughput, percentiles and gas;
    [SampleSummaryFacts]: exact counts and ordered percentiles.


    ** Bounds and fuel

    Recursion that is not structural takes fuel, and each is shown to suffice or
    is bounded by the code itself: the JSON parser and the duplicate-key scanner
    run on twice the length of the text and one more ([scanner_total]); a proof
    walk on its tree index, which halves; the readiness wait takes any fuel and
    [wait_terminates] gives the amount after which the clock has passed the
    deadline; the retry loop takes [maxAttempts], at most 3, and never runs out
    ([read_action_bounded]); error chains stop at 8 and causes at 5 levels, as
    in the code; matchers repeat at most once per code unit of the text.  The
    pattern reader takes three times the length of the pattern and three more
    and a match one more than the length of the text, shown enough in
    [JsPattern]; the walk of a directory any amount above the height of the
    tree ([collect_total], [walkFiles_fuel]); log ranges one step per range; the
    regrouping of bits one step per bit; equality of JSON values their depth.  The
    other scripts of contracts/scripts/ need no fuel of their own: their loops run
    over lists.

    ** Parameters

    Code that is not in the repository is a parameter: viem (keccak256, ABI
    encoding, addresses), node:crypto, the file system, fetch, clocks and timers,
    the URL parser, Unicode case tables, Ajv, Prettier and module resolution,
    the collation of [localeCompare], started processes (git, docker, the binary of
    an upgrade) and what they print, and the base-16 text of numbers beyond 2^53.  The hypotheses on
    them are named where they are used (injective hashes on the values compared,
    ABI encodings of 32-byte words, digests of 64 hexadecimal digits, a total
    and transitive collation that separates the keys of the documents, clocks
    that advance) and have concrete instances in the witnesses.

    ** Not modelled

    Of the contracts: events (their arithmetic is checked), gas, and the delayed
    transfer of the default administrator, which is one step that may set the
    roles arbitrarily.  Of the scripts: the runners of resilience and performance
    scenarios, which start containers and sample live networks; the validators
    of resilience, performance, node profiles, policies and configuration, which
    are lists of equalities on the repository's own files; the release
    scripts for provenance, SBOM and signatures, which drive git, syft and openssl;
    the package scripts and entry points of the SDK; generated tables;
    tests, probes, the documentation site and examples; the Go chain.  Of the
    modelled parts: HTTP servers and process signals, getters and proxies on
    foreign values, cyclic values, scheduling finer than the points where the
    code looks at its signal, and, where files are read in parallel, which of
    several failures is reported: the model reports the first in source order. *)

From Stdlib Require Export ZArith NArith Lia Ascii String.
From stdpp Require Export prelude gmap list sorting.

Open Scope Z_scope.

(** * Strings *)

(** A JavaScript string is a sequence of UTF-16 code units. *)
Definition jstr : Type := list N.

(** The code units of an ASCII source literal. *)
Fixpoint js (s : string) : jstr :=
  match s with
  | EmptyString => []
  | String c s' => N_of_ascii c :: js s'
  end.

Coercion js : string >-> jstr.

#[export] Instance jstr_eq_dec : EqDecision jstr := list_eq_dec.
#[export] Instance jstr_countable : Countable jstr := list_countable.
#[export] Instance jstr_inhabited : Inhabited jstr := populate [].

Declare Scope js_scope.
Delimit Scope js_scope with js.
Open Scope js_scope.

(** String concatenation, as a template literal or [+] does it. *)
Definition jcat (a b : jstr) : jstr := app a b.
Infix "+++" := jcat (at level 60, right associativity) : js_scope.

(** [a === b] on strings. *)
Definition jeq (a b : jstr) : bool := bool_decide (a = b).
Infix "=s?" := jeq (at level 70, no associativity) : js_scope.

Lemma jeq_spec a b : (a =s? b) = true ↔ a = b.
Proof. apply bool_decide_eq_true. Qed.

Lemma jeq_refl a : (a =s? a) = true.
Proof. by apply jeq_spec. Qed.

Lemma jeq_neq a b : (a =s? b) = false ↔ a ≠ b.
Proof. apply bool_decide_eq_false. Qed.

(** [a.length]: the number of code units. *)
Definition jlen (a : jstr) : Z := Z.of_nat (length a).

(** [Array.prototype.includes] on an array of strings. *)
Definition jmem (a : jstr) (l : list jstr) : bool := existsb (jeq a) l.

Lemma jmem_spec a l : jmem a l = true ↔ a ∈ l.
Proof.
  unfold jmem. rewrite existsb_exists. setoid_rewrite jeq_spec.
  setoid_rewrite <- list_elem_of_In. naive_solver.
Qed.

Lemma jmem_false a l : jmem a l = false ↔ a ∉ l.
Proof. rewrite <- jmem_spec. by destruct (jmem a l). Qed.

(** [a.startsWith(p)], [a.endsWith(p)] and [a.includes(p)]. *)
Fixpoint starts_with (p a : jstr) : bool :=
  match p, a with
  | [], _ => true
  | c :: p', d :: a' => (c =? d)%N && starts_with p' a'
  | _ :: _, [] => false
  end.

Definition ends_with (p a : jstr) : bool := starts_with (reverse p) (reverse a).

Fixpoint includes (p a : jstr) : bool :=
  starts_with p a ||
  match a with
  | [] => false
  | _ :: a' => includes p a'
  end.

Lemma starts_with_spec p a : starts_with p a = true ↔ ∃ r, a = p ++ r.
Proof.
  revert a. induction p as [|c p IH]; intros a; simpl.
  { split; [eauto|done]. }
  destruct a as [|d a]; simpl.
  { split; [done|]. intros [r Hr]. done. }
  rewrite andb_true_iff, N.eqb_eq, IH. split.
  - intros [-> [r ->]]. eauto.
  - intros [r Hr]. simplify_eq. eauto.
Qed.

Lemma ends_with_spec p a : ends_with p a = true ↔ ∃ r, a = r ++ p.
Proof.
  unfold ends_with. rewrite starts_with_spec. split; intros [r Hr].
  - exists (reverse r). apply (f_equal reverse) in Hr.
    by rewrite reverse_app, !reverse_involutive in Hr.
  - exists (reverse r). by rewrite Hr, reverse_app.
Qed.

Lemma includes_spec p a : includes p a = true ↔ ∃ l r, a = l ++ p ++ r.
Proof.
  induction a as [|c a IH]; cbn [includes]; rewrite orb_true_iff, starts_with_spec.
  - split.
    + intros [[r ->]|?]; [by exists [], r|done].
    + intros (l & r & Hl). left. destruct l; [by exists r|done].
  - rewrite IH. split.
    + intros [[r ->]|(l & r & ->)]; [by exists [], r|by exists (c :: l), r].
    + intros (l & r & Hl). destruct l as [|d l]; simplify_eq/=; eauto.
Qed.

(** [Array.prototype.join]. *)
Fixpoint join (sep : jstr) (l : list jstr) : jstr :=
  match l with
  | [] => []
  | [x] => x
  | x :: l' => x +++ sep +++ join sep l'
  end.

(** [s.split(sep)] for a one-unit separator. *)
Fixpoint split_on (sep : N) (s : jstr) : list jstr :=
  match s with
  | [] => [[]]
  | c :: s' =>
      if (c =? sep)%N then [] :: split_on sep s'
      else match split_on sep s' with
           | [] => [[c]]
           | w :: ws => (c :: w) :: ws
           end
  end.

(** * Character classes of the regular expressions in the sources *)

Definition in_range (lo hi c : N) : bool := (lo <=? c)%N && (c <=? hi)%N.
Definition is_digit (c : N) : bool := in_range 48 57 c.
Definition is_lower (c : N) : bool := in_range 97 122 c.
Definition is_upper (c : N) : bool := in_range 65 90 c.
Definition is_lower_hex (c : N) : bool := is_digit c || in_range 97 102 c.
Definition is_upper_hex (c : N) : bool := is_digit c || in_range 65 70 c.
Definition is_hex (c : N) : bool := is_lower_hex c || in_range 65 70 c.

Lemma in_range_spec lo hi c : in_range lo hi c = true ↔ (lo <= c <= hi)%N.
Proof. unfold in_range. rewrite andb_true_iff, !N.leb_le. done. Qed.

(** ECMAScript WhiteSpace and LineTerminator, what [\s] matches. *)
Definition is_space (c : N) : bool :=
  in_range 9 13 c || (c =? 32)%N || (c =? 160)%N || (c =? 5760)%N
  || in_range 8192 8202 c || (c =? 8232)%N || (c =? 8233)%N
  || (c =? 8239)%N || (c =? 8287)%N || (c =? 12288)%N || (c =? 65279)%N.

(** ASCII part of [toLowerCase] and [toUpperCase]; the sources apply them to
    hexadecimal text, file names and CLI values. *)
Definition lower_char (c : N) : N := if is_upper c then (c + 32)%N else c.
Definition upper_char (c : N) : N := if is_lower c then (c - 32)%N else c.
Definition to_lower (s : jstr) : jstr := map lower_char s.
Definition to_upper (s : jstr) : jstr := map upper_char s.

Lemma to_lower_length s : length (to_lower s) = length s.
Proof. apply length_map. Qed.

Lemma lower_char_upper_free c : is_upper (lower_char c) = false.
Proof.
  unfold lower_char, is_upper. destruct (in_range 65 90 c) eqn:E; [|done].
  apply in_range_spec in E. apply not_true_iff_false. rewrite in_range_spec. lia.
Qed.

Lemma to_lower_idemp s : to_lower (to_lower s) = to_lower s.
Proof.
  unfold to_lower. rewrite map_map. apply map_ext. intros c.
  unfold lower_char at 1. by rewrite lower_char_upper_free.
Qed.

(** * Exceptions and the result monad *)

(** The classes of exceptions the sources throw. *)
Inductive exn_kind := EError | ETypeError | ERangeError | ESyntaxError | EAssertion.

Record exn := Exn { exn_class : exn_kind; exn_message : jstr }.

Inductive result (A : Type) : Type :=
  | Ok (a : A)
  | Throw (e : exn).
Arguments Ok {A} a.
Arguments Throw {A} e.

#[export] Instance exn_kind_eq_dec : EqDecision exn_kind.
Proof. solve_decision. Defined.
#[export] Instance exn_eq_dec : EqDecision exn.
Proof. solve_decision. Defined.
#[export] Instance result_eq_dec `{EqDecision A} : EqDecision (result A).
Proof. solve_decision. Defined.

#[export] Instance result_ret : MRet result := λ A a, Ok a.
#[export] Instance result_bind : MBind result := λ A B f m,
  match m with Ok a => f a | Throw e => Throw e end.

(** [throw new Error(msg)] and the other classes. *)
Definition error {A} (msg : jstr) : result A := Throw (Exn EError msg).
Definition type_error {A} (msg : jstr) : result A := Throw (Exn ETypeError msg).
Definition range_error {A} (msg : jstr) : result A := Throw (Exn ERangeError msg).

(** [if (b) throw new Error(msg);] *)
Definition throw_if (b : bool) (msg : jstr) : result unit :=
  if b then error msg else Ok ().

(** [assert.equal(b, true, msg)] and [assert.ok(b, msg)] of node:assert. *)
Definition assert (b : bool) (msg : jstr) : result unit :=
  if b then Ok () else Throw (Exn EAssertion msg).

Definition is_ok {A} (r : result A) : bool :=
  match r with Ok _ => true | Throw _ => false end.

(** [try { r } catch { h }]. *)
Definition catch {A} (r : result A) (h : exn → result A) : result A :=
  match r with Ok a => Ok a | Throw e => h e end.

(** [for (const x of l) f(x)] where the body may throw. *)
Fixpoint for_each {A} (f : A → result unit) (l : list A) : result unit :=
  match l with
  | [] => Ok ()
  | x :: l' => f x ;; for_each f l'
  end.

(** [for (const x of l)] with loop-carried variables [s]. *)
Fixpoint fold_res {A S} (f : S → A → result S) (s : S) (l : list A) : result S :=
  match l with
  | [] => Ok s
  | x :: l' => s' ← f s x; fold_res f s' l'
  end.

(** [l.map(f)] where [f] may throw. *)
Fixpoint map_res {A B} (f : A → result B) (l : list A) : result (list B) :=
  match l with
  | [] => Ok []
  | x :: l' => y ← f x; ys ← map_res f l'; Ok (y :: ys)
  end.

(** [l.map((x, i) => f(i, x))] where [f] may throw. *)
Fixpoint imap_res_from {A B} (f : nat → A → result B) (i : nat) (l : list A)
    : result (list B) :=
  match l with
  | [] => Ok []
  | x :: l' => y ← f i x; ys ← imap_res_from f (S i) l'; Ok (y :: ys)
  end.

Create HintDb js.

Lemma Ok_inj {A} (a b : A) : Ok a = Ok b → a = b.
Proof. by intros [= ->]. Qed.

Lemma bind_Ok {A B} (m : result A) (f : A → result B) b :
  (m ≫= f) = Ok b ↔ ∃ a, m = Ok a ∧ f a = Ok b.
Proof. destruct m; naive_solver. Qed.

Lemma seq_Ok {B} (m : result unit) (k : result B) b :
  (m ;; k) = Ok b ↔ m = Ok () ∧ k = Ok b.
Proof. rewrite bind_Ok. split; [intros ([] & ?)|]; naive_solver. Qed.

Lemma bind_Throw {A B} (m : result A) (f : A → result B) e :
  (m ≫= f) = Throw e ↔ m = Throw e ∨ ∃ a, m = Ok a ∧ f a = Throw e.
Proof. destruct m; naive_solver. Qed.

Lemma throw_if_Ok b msg u : throw_if b msg = Ok u ↔ b = false.
Proof. unfold throw_if, error. destruct b, u; naive_solver. Qed.

Lemma throw_if_Throw b msg e :
  throw_if b msg = Throw e ↔ b = true ∧ e = Exn EError msg.
Proof. unfold throw_if, error. destruct b; naive_solver. Qed.

Lemma assert_Ok b msg u : assert b msg = Ok u ↔ b = true.
Proof. unfold assert. destruct b, u; naive_solver. Qed.

Lemma for_each_Ok {A} (f : A → result unit) l u :
  for_each f l = Ok u ↔ Forall (λ x, f x = Ok ()) l.
Proof.
  destruct u. induction l as [|x l IH]; simpl; [by split|].
  rewrite Forall_cons, <- IH. destruct (f x) as [[]|] eqn:E; naive_solver.
Qed.

Lemma map_res_Ok {A B} (f : A → result B) l k :
  map_res f l = Ok k ↔ Forall2 (λ x y, f x = Ok y) l k.
Proof.
  revert k. induction l as [|x l IH]; intros k; simpl.
  { split; [intros [= <-]; constructor|by inversion 1]. }
  destruct (f x) as [y|e] eqn:E; simpl.
  - destruct (map_res f l) as [ys|e'] eqn:E'; simpl.
    + split.
      * intros [= <-]. constructor; [done|]. by apply IH.
      * inversion 1 as [|? ? ? ? Hy Hk]; subst. apply IH in Hk. congruence.
    + split; [done|]. inversion 1 as [|? ? ? ? Hy Hk]; subst.
      apply IH in Hk. congruence.
  - split; [done|]. inversion 1; congruence.
Qed.

Lemma imap_res_from_Ok {A B} (f : nat → A → result B) i l k :
  imap_res_from f i l = Ok k →
  length k = length l ∧
  ∀ j x, l !! j = Some x → ∃ y, k !! j = Some y ∧ f (i + j)%nat x = Ok y.
Proof.
  revert i k. induction l as [|x l IH]; intros i k; simpl.
  { intros [= <-]. split; [done|]. intros j x Hx. done. }
  rewrite bind_Ok. intros (y & Hy & Hk). rewrite bind_Ok in Hk.
  destruct Hk as (ys & Hys & [= <-]). apply IH in Hys as [Hlen Hys].
  split; [simpl; lia|]. intros [|j] z Hz; simplify_eq/=.
  - exists y. by rewrite Nat.add_0_r.
  - destruct (Hys j z Hz) as (w & Hw & Hf). exists w.
    split; [done|]. by replace (i + S j)%nat with (S i + j)%nat by lia.
Qed.

(** A loop invariant of [fold_res] holds after a loop that does not throw. *)
Lemma fold_res_invariant {A S} (I : list A → S → Prop) (f : S → A → result S) s0 l s :
  I [] s0 →
  (∀ done x s s', I done s → f s x = Ok s' → I (done ++ [x]) s') →
  fold_res f s0 l = Ok s → I l s.
Proof.
  intros H0 Hstep.
  cut (∀ done s1, I done s1 → fold_res f s1 l = Ok s → I (done ++ l) s).
  { intros Hc. apply (Hc [] s0 H0). }
  induction l as [|x l IH]; intros done s1 Hi; simpl.
  - intros [= <-]. by rewrite app_nil_r.
  - rewrite bind_Ok. intros (s2 & Hf & Hl).
    rewrite (cons_middle x done l), app_assoc.
    eapply IH; eauto.
Qed.

Lemma fold_res_app {A S} (f : S → A → result S) s l1 l2 :
  fold_res f s (l1 ++ l2) = (s' ← fold_res f s l1; fold_res f s' l2).
Proof.
  revert s. induction l1 as [|x l1 IH]; intros s; simpl; [done|].
  destruct (f s x); simpl; [apply IH|done].
Qed.

(** Strip the binds and guards from a hypothesis [_ = Ok _]. *)
Ltac inv_result :=
  repeat match goal with
  | H : Ok ?a = Ok ?b |- _ =>
      apply Ok_inj in H;
      first [subst a | subst b | injection H; clear H; intros; subst | idtac]
  | H : Throw _ = Throw _ |- _ => injection H; clear H; intros; subst
  | H : Ok _ = Throw _ |- _ => discriminate H
  | H : Throw _ = Ok _ |- _ => discriminate H
  | H : error _ = Ok _ |- _ => discriminate H
  | H : type_error _ = Ok _ |- _ => discriminate H
  | H : range_error _ = Ok _ |- _ => discriminate H
  | H : mret _ = Ok _ |- _ => unfold mret, result_ret in H
  | H : throw_if _ _ = Ok _ |- _ => apply throw_if_Ok in H
  | H : assert _ _ = Ok _ |- _ => apply assert_Ok in H
  | H : mbind _ _ = Ok _ |- _ =>
      let a := fresh "a" in
      apply bind_Ok in H; destruct H as (a & ? & H);
      match type of a with unit => destruct a | _ => idtac end
  | H : for_each _ _ = Ok _ |- _ => apply for_each_Ok in H
  end.

(** One statement of a hypothesis [_ = Ok _] at a time: [take H as x Hx] names
    the value bound first and its equation, [passed H as Hg] names the guard
    that did not throw. *)
Tactic Notation "take" hyp(H) "as" ident(x) ident(Hx) :=
  apply bind_Ok in H; destruct H as (x & Hx & H).
Tactic Notation "passed" hyp(H) "as" ident(Hg) :=
  let u := fresh in
  apply bind_Ok in H; destruct H as (u & Hg & H); destruct u;
  lazymatch type of Hg with
  | throw_if _ _ = _ => apply throw_if_Ok in Hg
  | assert _ _ = _ => apply assert_Ok in Hg
  | for_each _ _ = _ => apply for_each_Ok in Hg
  | _ => idtac
  end.

(** Split conjunctions of booleans in the hypotheses. *)
Ltac inv_bool :=
  repeat match goal with
  | H : (_ && _) = true |- _ => apply andb_true_iff in H; destruct H
  | H : (_ || _) = false |- _ => apply orb_false_iff in H; destruct H
  | H : negb _ = true |- _ => apply negb_true_iff in H
  | H : negb _ = false |- _ => apply negb_false_iff in H
  | H : (_ =s? _) = true |- _ => apply jeq_spec in H
  | H : (_ =s? _) = false |- _ => apply jeq_neq in H
  | H : (_ =? _)%Z = true |- _ => apply Z.eqb_eq in H
  | H : (_ =? _)%Z = false |- _ => apply Z.eqb_neq in H
  | H : (_ <? _)%Z = true |- _ => apply Z.ltb_lt in H
  | H : (_ <? _)%Z = false |- _ => apply Z.ltb_ge in H
  | H : (_ <=? _)%Z = true |- _ => apply Z.leb_le in H
  | H : (_ <=? _)%Z = false |- _ => apply Z.leb_gt in H
  end.

#[export] Hint Resolve jeq_refl to_lower_idemp : js.

(** * Sets of strings *)

(** [new Set(l).size === l.length]. *)
Fixpoint all_distinct {A} `{EqDecision A} (l : list A) : bool :=
  match l with
  | [] => true
  | x :: l' => negb (bool_decide (x ∈ l')) && all_distinct l'
  end.

Lemma all_distinct_spec {A} `{EqDecision A} (l : list A) :
  all_distinct l = true ↔ NoDup l.
Proof.
  induction l as [|x l IH]; simpl.
  { split; [constructor|done]. }
  rewrite andb_true_iff, negb_true_iff, bool_decide_eq_false, IH, NoDup_cons. done.
Qed.

#[export] Hint Resolve -> all_distinct_spec : js.

(** A loop [for (const x of l) { if (seen.has(x)) throw; seen.add(x); }]
    that ends without throwing has met no element twice. *)
Lemma NoDup_snoc {A} (l : list A) x : NoDup l → x ∉ l → NoDup (l ++ [x]).
Proof.
  intros Hl Hx. apply NoDup_app. split; [done|]. split.
  - intros y Hy Hy'. apply list_elem_of_singleton in Hy'. by subst.
  - apply NoDup_singleton.
Qed.

(** The sources' [map] is stdpp's [<$>]. *)
Lemma map_fmap {A B} (f : A → B) (l : list A) : map f l = f <$> l.
Proof. induction l as [|x l IH]; [done|]. simpl. by rewrite IH. Qed.

Lemma elem_of_map {A B} (f : A → B) (l : list A) y : y ∈ map f l ↔ ∃ x, y = f x ∧ x ∈ l.
Proof. rewrite map_fmap. apply list_elem_of_fmap. Qed.

Lemma forallb_spec {A} (f : A → bool) l : forallb f l = true ↔ Forall (λ x, f x = true) l.
Proof. rewrite forallb_forall, Forall_forall. setoid_rewrite list_elem_of_In. done. Qed.

(** ** Splitting and joining *)

Lemma split_on_cons sep s : ∃ w ws, split_on sep s = w :: ws.
Proof.
  induction s as [|c s (w & ws & IH)]; cbn [split_on]; [by eexists _, _|].
  destruct (c =? sep)%N; [by eexists _, _|]. rewrite IH. by eexists _, _.
Qed.

Lemma join_split sep s : join [sep] (split_on sep s) = s.
Proof.
  induction s as [|c s IH]; [done|]. cbn [split_on]. destruct (split_on_cons sep s) as (w & ws & E). rewrite E in *.
  destruct (N.eqb_spec c sep) as [->|Hc].
  - change (join [sep] ([] :: w :: ws)) with (sep :: join [sep] (w :: ws)). by rewrite IH.
  - destruct ws as [|w' ws]; [cbn [join] in *; by rewrite IH|].
    change (join [sep] ((c :: w) :: w' :: ws)) with (c :: join [sep] (w :: w' :: ws)). by rewrite IH.
Qed.

Lemma split_on_line sep l : sep ∉ l → split_on sep l = [l].
Proof.
  induction l as [|c l IH]; [done|]. rewrite not_elem_of_cons. intros [Hc Hl]. cbn [split_on].
  rewrite (proj2 (N.eqb_neq c sep)) by done. by rewrite IH.
Qed.

Lemma split_on_app sep l s : sep ∉ l → split_on sep (l ++ sep :: s) = l :: split_on sep s.
Proof.
  induction l as [|c l IH]; cbn [app split_on]; [by rewrite N.eqb_refl|].
  rewrite not_elem_of_cons. intros [Hc Hl]. rewrite (proj2 (N.eqb_neq c sep)) by done. by rewrite IH.
Qed.

Lemma split_join sep l : l ≠ [] → Forall (λ x, sep ∉ x) l → split_on sep (join [sep] l) = l.
Proof.
  intros Hne Hl. induction Hl as [|x l Hx Hl IH]; [done|]. destruct l as [|y l]; [by apply split_on_line|].
  change (join [sep] (x :: y :: l)) with (x ++ sep :: join [sep] (y :: l)).
  by rewrite split_on_app, IH.
Qed.
