(* ===== verification/JsBits.v ===== *)
(** The bitwise operators of JavaScript on integers: operands are taken modulo
    2^32, results are signed, except for [>>>]; and when they are the plain
    operations. *)

From S2P Require Import Prelude.

Open Scope Z_scope.

Definition uint32 (z : Z) : Z := z mod 2 ^ 32.
Definition int32 (z : Z) : Z := (z + 2 ^ 31) mod 2 ^ 32 - 2 ^ 31.

Definition bit_and (a b : Z) : Z := Z.land (int32 a) (int32 b).
Definition bit_or (a b : Z) : Z := Z.lor (int32 a) (int32 b).
Definition bit_xor (a b : Z) : Z := Z.lxor (int32 a) (int32 b).
(** [a << n], [a >> n] and [a >>> n]. *)
Definition shift_left (a n : Z) : Z := int32 (Z.shiftl (int32 a) (n mod 32)).
Definition shift_right (a n : Z) : Z := Z.shiftr (int32 a) (n mod 32).
Definition shift_right_u (a n : Z) : Z := Z.shiftr (uint32 a) (n mod 32).

(** The values on which the operators do not wrap. *)
Definition word31 (z : Z) : Prop := 0 ≤ z < 2 ^ 31.

Lemma int32_id z : word31 z → int32 z = z.
Proof. unfold word31, int32. intros H. rewrite Z.mod_small by lia. lia. Qed.

Lemma uint32_id z : word31 z → uint32 z = z.
Proof. unfold word31, uint32. intros H. apply Z.mod_small. lia. Qed.

Lemma bit_and_id a b : word31 a → word31 b → bit_and a b = Z.land a b.
Proof. intros. unfold bit_and. by rewrite !int32_id. Qed.

Lemma bit_or_id a b : word31 a → word31 b → bit_or a b = Z.lor a b.
Proof. intros. unfold bit_or. by rewrite !int32_id. Qed.

Lemma bit_xor_id a b : word31 a → word31 b → bit_xor a b = Z.lxor a b.
Proof. intros. unfold bit_xor. by rewrite !int32_id. Qed.

Lemma shift_left_id a n : word31 a → 0 ≤ n < 32 → a * 2 ^ n < 2 ^ 31 → shift_left a n = a * 2 ^ n.
Proof.
  intros Ha Hn H. unfold shift_left. rewrite (int32_id a), (Z.mod_small n), Z.shiftl_mul_pow2 by (done || lia).
  apply int32_id. split; [|done]. destruct Ha. apply Z.mul_nonneg_nonneg; [done|apply Z.pow_nonneg; lia].
Qed.

Lemma shift_right_id a n : word31 a → 0 ≤ n < 32 → shift_right a n = a / 2 ^ n.
Proof.
  intros Ha Hn. unfold shift_right. rewrite int32_id, Z.mod_small by done. apply Z.shiftr_div_pow2. lia.
Qed.

Lemma shift_right_u_id a n : word31 a → 0 ≤ n < 32 → shift_right_u a n = a / 2 ^ n.
Proof.
  intros Ha Hn. unfold shift_right_u. rewrite uint32_id, Z.mod_small by done. apply Z.shiftr_div_pow2. lia.
Qed.

(** A number below a power of two, by its bits. *)
Lemma below_pow2 z n : 0 ≤ n → 0 ≤ z → (∀ i, n ≤ i → Z.testbit z i = false) → z < 2 ^ n.
Proof.
  intros Hn Hz Hb. destruct (Z.eq_dec z 0) as [->|Hne]; [apply Z.pow_pos_nonneg; lia|].
  apply Z.log2_lt_pow2; [lia|]. apply Z.nle_gt. intros Hle.
  pose proof (Z.bit_log2 z ltac:(lia)) as H. rewrite Hb in H; [done|lia].
Qed.

Lemma testbit_above z n i : 0 ≤ z < 2 ^ n → n ≤ i → Z.testbit z i = false.
Proof.
  intros Hz Hi. assert (0 ≤ n) as Hn by (destruct (Z.neg_nonneg_cases n); [rewrite Z.pow_neg_r in Hz by lia; lia|done]).
  destruct (Z.eq_dec z 0) as [->|Hne]; [apply Z.testbit_0_l|].
  apply Z.bits_above_log2; [lia|]. eapply Z.lt_le_trans; [|exact Hi]. apply Z.log2_lt_pow2; lia.
Qed.

Lemma lxor_range a b n : 0 ≤ a < 2 ^ n → 0 ≤ b < 2 ^ n → 0 ≤ Z.lxor a b < 2 ^ n.
Proof.
  intros Ha Hb. assert (0 ≤ n) as Hn by (destruct (Z.neg_nonneg_cases n); [rewrite Z.pow_neg_r in Ha by lia; lia|done]).
  assert (0 ≤ Z.lxor a b) as H0 by (apply Z.lxor_nonneg; lia).
  split; [done|]. apply below_pow2; [done|done|]. intros i Hi.
  by rewrite Z.lxor_spec, (testbit_above a n), (testbit_above b n).
Qed.

Lemma lor_range a b n : 0 ≤ a < 2 ^ n → 0 ≤ b < 2 ^ n → 0 ≤ Z.lor a b < 2 ^ n.
Proof.
  intros Ha Hb. assert (0 ≤ n) as Hn by (destruct (Z.neg_nonneg_cases n); [rewrite Z.pow_neg_r in Ha by lia; lia|done]).
  assert (0 ≤ Z.lor a b) as H0 by (apply Z.lor_nonneg; lia).
  split; [done|]. apply below_pow2; [done|done|]. intros i Hi.
  by rewrite Z.lor_spec, (testbit_above a n), (testbit_above b n).
Qed.

Lemma land_range a n : 0 ≤ n → 0 ≤ Z.land a (Z.ones n) < 2 ^ n.
Proof. intros Hn. rewrite Z.land_ones by done. apply Z.mod_pos_bound. apply Z.pow_pos_nonneg; lia. Qed.

(** Disjoint bits: [or] and [xor] are sums. *)
Lemma lor_sum a b n : 0 ≤ n → 0 ≤ b < 2 ^ n → Z.lor (a * 2 ^ n) b = a * 2 ^ n + b.
Proof.
  intros Hn Hb. symmetry. apply Z.add_nocarry_lor. apply Z.bits_inj'. intros i Hi.
  rewrite Z.land_spec, Z.bits_0. destruct (Z.lt_ge_cases i n).
  - by rewrite Z.mul_pow2_bits_low.
  - by rewrite (testbit_above b n), andb_false_r.
Qed.
