(* ===== verification/JsNum.v ===== *)
(** Number values: IEEE-754 doubles as exact rationals with correct rounding,
    decimal conversion in both directions, and the facts about integers the
    components rely on ([Number.isSafeInteger], exact sums). *)

From Stdlib Require Import QArith Qreduction.
From S2P Require Import Prelude.

Open Scope Z_scope.

(** A Number value.  A finite value other than -0 is an exact rational in
    lowest terms; arithmetic rounds to the nearest double, ties to even. *)
Inductive num :=
  | NaN
  | Infinity (negative : bool)
  | NegZero
  | Fin (q : Q).

#[export] Instance Q_eq_dec : EqDecision Q.
Proof. solve_decision. Defined.
#[export] Instance num_eq_dec : EqDecision num.
Proof. solve_decision. Defined.

(** An integer literal. *)
Definition NInt (z : Z) : num := Fin (z # 1).

(** ** Rounding *)

(** [n / d] rounded to an integer, ties to even ([d > 0]). *)
Definition round_half_even (n d : Z) : Z :=
  let k := n / d in
  let r := n mod d in
  match 2 * r ?= d with
  | Lt => k
  | Gt => k + 1
  | Eq => if Z.even k then k else k + 1
  end.

(** floor (log2 (n / d)) for [n, d > 0]. *)
Definition ratio_log2 (n d : Z) : Z :=
  let e := Z.log2 n - Z.log2 d in
  if n * 2 ^ Z.max 0 (- e) <? d * 2 ^ Z.max 0 e then e - 1 else e.

(** [m * 2 ^ u] in lowest terms. *)
Definition scale (m u : Z) : Q :=
  if 0 <=? u then (m * 2 ^ u) # 1 else Qred (m # Z.to_pos (2 ^ (- u))).

(** The magnitude [n / d] rounded to 53 significant bits, exponents from
    -1074 up; [None] on overflow. *)
Definition round_magnitude (n d : Z) : option Q :=
  let u := Z.max (ratio_log2 n d - 52) (-1074) in
  let m := round_half_even (n * 2 ^ Z.max 0 (- u)) (d * 2 ^ Z.max 0 u) in
  if (0 <=? u) && (2 ^ 1024 <=? m * 2 ^ u) then None else Some (scale m u).

Definition num_of_Q (q : Q) : num :=
  let n := Qnum q in
  let d := Zpos (Qden q) in
  if n =? 0 then NInt 0
  else match round_magnitude (Z.abs n) d with
       | None => Infinity (n <? 0)
       | Some r =>
           if Qnum r =? 0 then (if n <? 0 then NegZero else NInt 0)
           else Fin (if n <? 0 then Qopp r else r)
       end.

(** ** Operators *)

Definition num_add (a b : num) : num :=
  match a, b with
  | NaN, _ | _, NaN => NaN
  | Infinity s, Infinity t => if Bool.eqb s t then Infinity s else NaN
  | Infinity s, _ | _, Infinity s => Infinity s
  | NegZero, x | x, NegZero => x
  | Fin p, Fin q => num_of_Q (p + q)
  end.

(** [a < b] and [a <= b]: false when an operand is NaN. *)
Definition num_ltb (a b : num) : bool :=
  match a, b with
  | NaN, _ | _, NaN => false
  | Infinity s, Infinity t => s && negb t
  | Infinity s, _ => s
  | _, Infinity t => negb t
  | NegZero, NegZero => false
  | NegZero, Fin q => 0 <? Qnum q
  | Fin q, NegZero => Qnum q <? 0
  | Fin p, Fin q => match Qcompare p q with Lt => true | _ => false end
  end.

(** [a === b]. *)
Definition num_eqb (a b : num) : bool :=
  match a, b with
  | Infinity s, Infinity t => Bool.eqb s t
  | NegZero, NegZero => true
  | NegZero, Fin q | Fin q, NegZero => Qnum q =? 0
  | Fin p, Fin q => match Qcompare p q with Eq => true | _ => false end
  | _, _ => false
  end.

Definition num_leb (a b : num) : bool := num_ltb a b || num_eqb a b.

(** [Object.is(a, b)], what node:assert/strict compares with. *)
Definition num_is (a b : num) : bool := bool_decide (a = b).

(** [Number.isFinite]. *)
Definition is_finite (a : num) : bool :=
  match a with NegZero | Fin _ => true | _ => false end.

(** The mathematical integer a Number denotes, if it is one. *)
Definition num_int (a : num) : option Z :=
  match a with
  | NegZero => Some 0
  | Fin (z # 1) => Some z
  | _ => None
  end.

Definition max_safe : Z := 2 ^ 53 - 1.

(** [Number.isSafeInteger] and [Number.isInteger]. *)
Definition is_safe_integer (a : num) : bool :=
  match num_int a with
  | Some z => Z.abs z <=? max_safe
  | None => false
  end.

Definition is_integer (a : num) : bool :=
  match num_int a with Some _ => true | None => false end.

(** The value of a number known to be an integer. *)
Definition num_Z (a : num) : Z := default 0 (num_int a).

(** ** Integers behave as integers *)

Lemma num_int_cases a z :
  num_int a = Some z → a = NInt z ∨ (a = NegZero ∧ z = 0).
Proof.
  destruct a as [| | |[n [d|d|]]]; simpl; intros; simplify_eq; auto.
Qed.

Lemma num_ltb_int a b x y :
  num_int a = Some x → num_int b = Some y → num_ltb a b = (x <? y).
Proof.
  intros [->|[-> ->]]%num_int_cases [->|[-> ->]]%num_int_cases; simpl; auto.
  unfold Qcompare; simpl. rewrite !Z.mul_1_r. unfold Z.ltb. by destruct (x ?= y).
Qed.

Lemma num_eqb_int a b x y :
  num_int a = Some x → num_int b = Some y → num_eqb a b = (x =? y).
Proof.
  intros [->|[-> ->]]%num_int_cases [->|[-> ->]]%num_int_cases; simpl; auto.
  - unfold Qcompare; simpl. rewrite !Z.mul_1_r, Z.eqb_compare. by destruct (x ?= y).
Qed.

Lemma num_leb_int a b x y :
  num_int a = Some x → num_int b = Some y → num_leb a b = (x <=? y).
Proof.
  intros Ha Hb. unfold num_leb.
  rewrite (num_ltb_int a b x y), (num_eqb_int a b x y) by done. lia.
Qed.

Lemma is_safe_integer_spec a :
  is_safe_integer a = true ↔ ∃ z, num_int a = Some z ∧ Z.abs z ≤ max_safe.
Proof.
  unfold is_safe_integer. destruct (num_int a) as [z|]; [|naive_solver].
  rewrite Z.leb_le. naive_solver.
Qed.

(** ** Sums of integers are exact below 2^53 and never come back from above *)

Lemma ratio_log2_int z : 0 < z → ratio_log2 z 1 = Z.log2 z.
Proof.
  intros Hz. unfold ratio_log2. rewrite Z.sub_0_r.
  pose proof (Z.log2_nonneg z). pose proof (Z.log2_spec z Hz).
  rewrite (Z.max_l 0 (- _)) by lia. rewrite (Z.max_r 0 (Z.log2 z)) by lia.
  change (2 ^ 0) with 1. rewrite Z.mul_1_r, Z.mul_1_l.
  destruct (z <? 2 ^ Z.log2 z) eqn:E; [|done]. apply Z.ltb_lt in E. lia.
Qed.

Lemma round_half_even_exact n : round_half_even n 1 = n.
Proof. unfold round_half_even. by rewrite Z.mod_1_r, Z.div_1_r. Qed.

Lemma scale_mul z k : 0 ≤ k → scale (z * 2 ^ k) (- k) = z # 1.
Proof.
  intros Hk. unfold scale. destruct (0 <=? - k) eqn:E.
  - apply Z.leb_le in E. assert (k = 0) as -> by lia. by rewrite !Z.mul_1_r.
  - rewrite Z.opp_involutive. pose proof (Z.pow_pos_nonneg 2 k ltac:(lia) Hk).
    rewrite (Qred_complete _ (z # 1)).
    + unfold Qred. simpl. pose proof (Z.ggcd_gcd z 1) as Hg.
      pose proof (Z.ggcd_correct_divisors z 1) as Hd.
      rewrite Z.gcd_1_r in Hg. destruct (Z.ggcd z 1) as [g [aa bb]].
      simpl in *. subst g. destruct Hd as [-> Hb].
      rewrite !Z.mul_1_l in *. by subst bb.
    + unfold Qeq. simpl. rewrite Z2Pos.id by lia. lia.
Qed.

Lemma round_magnitude_exact z :
  0 < z < 2 ^ 53 → round_magnitude z 1 = Some (z # 1).
Proof.
  intros Hz. unfold round_magnitude. rewrite ratio_log2_int by lia.
  assert (0 ≤ Z.log2 z < 53).
  { split; [apply Z.log2_nonneg|]. apply Z.log2_lt_pow2; lia. }
  rewrite (Z.max_l (Z.log2 z - 52)) by lia.
  set (k := 52 - Z.log2 z). replace (Z.log2 z - 52) with (- k) by lia.
  rewrite (Z.max_r 0 (- - k)), (Z.max_l 0 (- k)), Z.opp_involutive by lia.
  change (1 * 2 ^ 0) with 1. rewrite round_half_even_exact.
  rewrite scale_mul by lia.
  replace ((0 <=? - k) && (2 ^ 1024 <=? z * 2 ^ k * 2 ^ (- k))) with false; [done|].
  symmetry. apply andb_false_iff. destruct (Z.eq_dec k 0) as [->|Hk].
  - right. apply Z.leb_gt. change (2 ^ 0) with 1. change (2 ^ (- 0)) with 1.
    rewrite !Z.mul_1_r. eapply Z.lt_trans; [apply Hz|]. by apply Z.pow_lt_mono_r.
  - left. apply Z.leb_gt. lia.
Qed.

Lemma num_of_Q_int z : Z.abs z < 2 ^ 53 → num_of_Q (z # 1) = NInt z.
Proof.
  intros Hz. unfold num_of_Q. simpl. destruct (z =? 0) eqn:E.
  { apply Z.eqb_eq in E. by subst. }
  apply Z.eqb_neq in E. rewrite round_magnitude_exact by lia. simpl.
  replace (Z.abs z =? 0) with false by lia.
  destruct (z <? 0) eqn:E'; unfold NInt, Qopp; simpl; do 2 f_equal; lia.
Qed.

(** The sum of two integers below 2^53 in magnitude is exact. *)
Lemma num_add_int a b x y :
  num_int a = Some x → num_int b = Some y → Z.abs (x + y) < 2 ^ 53 →
  num_int (num_add a b) = Some (x + y).
Proof.
  intros [->|[-> ->]]%num_int_cases [->|[-> ->]]%num_int_cases H;
    unfold num_add, NInt; cbn -[num_of_Q].
  - change ((x # 1) + (y # 1))%Q with ((x * 1 + y * 1) # 1)%Q.
    rewrite !Z.mul_1_r, num_of_Q_int by done. done.
  - f_equal. lia.
  - done.
  - done.
Qed.

(** A number that is at least 2^53, so not a safe integer. *)
Definition num_big (a : num) : Prop :=
  match a with
  | Infinity false => True
  | Fin q => 2 ^ 53 * Zpos (Qden q) ≤ Qnum q
  | _ => False
  end.

Lemma ratio_log2_lower n d :
  0 < n → 0 < d →
  d * 2 ^ Z.max 0 (ratio_log2 n d) ≤ n * 2 ^ Z.max 0 (- ratio_log2 n d).
Proof.
  intros Hn Hd. unfold ratio_log2. set (e := Z.log2 n - Z.log2 d).
  destruct (_ <? _) eqn:E; [|by apply Z.ltb_ge in E].
  pose proof (Z.log2_spec n Hn) as [Hn1 _]. pose proof (Z.log2_spec d Hd) as [_ Hd2].
  pose proof (Z.log2_nonneg n). pose proof (Z.log2_nonneg d).
  assert (d * 2 ^ Z.max 0 (e - 1) * 2 ^ Z.log2 n
          ≤ n * 2 ^ Z.max 0 (- (e - 1)) * 2 ^ Z.log2 n) as Hgoal;
    [|eapply Z.mul_le_mono_pos_r; [|exact Hgoal]; by apply Z.pow_pos_nonneg].
  transitivity (2 ^ Z.succ (Z.log2 d) * 2 ^ Z.max 0 (e - 1) * 2 ^ Z.log2 n).
  { repeat apply Z.mul_le_mono_nonneg_r; try lia. }
  transitivity (2 ^ Z.log2 n * 2 ^ Z.max 0 (- (e - 1)) * 2 ^ Z.log2 n).
  2:{ repeat apply Z.mul_le_mono_nonneg_r; try lia. }
  rewrite <- !Z.pow_add_r by lia. apply Z.pow_le_mono_r; lia.
Qed.

Lemma round_half_even_lower n d k : 0 < d → k * d ≤ n → k ≤ round_half_even n d.
Proof.
  intros Hd Hk. unfold round_half_even.
  pose proof (Z.div_le_lower_bound n d k Hd ltac:(lia)).
  destruct (2 * (n mod d) ?= d); [destruct (Z.even _)|..]; lia.
Qed.

Lemma ratio_log2_ge n d : 0 < d → 2 ^ 53 * d ≤ n → 53 ≤ ratio_log2 n d.
Proof.
  intros Hd H. assert (Hn : 0 < n) by lia. unfold ratio_log2.
  pose proof (Z.log2_spec n Hn) as [_ Hn2]. pose proof (Z.log2_spec d Hd) as [Hd1 _].
  pose proof (Z.log2_nonneg n). pose proof (Z.log2_nonneg d).
  assert (53 + Z.log2 d < Z.succ (Z.log2 n)) as He.
  { apply (Z.pow_lt_mono_r_iff 2); [lia..|]. rewrite Z.pow_add_r by lia. nia. }
  destruct (_ <? _) eqn:E; [|lia]. apply Z.ltb_lt in E.
  rewrite (Z.max_l 0 (- _)), (Z.max_r 0 (_ - _)) in E by lia.
  change (2 ^ 0) with 1 in E. rewrite Z.mul_1_r in E.
  destruct (Z.eq_dec (Z.log2 n - Z.log2 d) 53) as [Heq|]; [|lia].
  rewrite Heq in E. lia.
Qed.

Lemma num_of_Q_big q : 2 ^ 53 * Zpos (Qden q) ≤ Qnum q → num_big (num_of_Q q).
Proof.
  intros Hq. destruct q as [n d]; simpl in Hq. unfold num_of_Q. simpl.
  replace (n =? 0) with false by lia. replace (n <? 0) with false by lia.
  rewrite Z.abs_eq by lia. unfold round_magnitude.
  pose proof (ratio_log2_ge n (Zpos d) ltac:(lia) Hq) as He.
  pose proof (ratio_log2_lower n (Zpos d) ltac:(lia) ltac:(lia)) as Hl.
  set (e := ratio_log2 n (Zpos d)) in *.
  rewrite (Z.max_l (e - 52)) by lia.
  rewrite (Z.max_l 0 (- (e - 52))), (Z.max_r 0 (e - 52)) by lia.
  rewrite (Z.max_l 0 (- e)), (Z.max_r 0 e) in Hl by lia.
  change (2 ^ 0) with 1 in *. rewrite !Z.mul_1_r in *.
  assert (2 ^ 52 ≤ round_half_even n (Zpos d * 2 ^ (e - 52))) as Hm.
  { apply round_half_even_lower; [apply Z.mul_pos_pos; lia|].
    replace (2 ^ 52 * (Zpos d * 2 ^ (e - 52))) with (Zpos d * (2 ^ 52 * 2 ^ (e - 52))) by lia.
    rewrite <- Z.pow_add_r by lia. by replace (52 + (e - 52)) with e by lia. }
  destruct ((0 <=? e - 52) && _) eqn:E; [done|].
  unfold scale. replace (0 <=? e - 52) with true by lia. simpl.
  assert (2 ^ 53 ≤ round_half_even n (Zpos d * 2 ^ (e - 52)) * 2 ^ (e - 52)) as Hb.
  { transitivity (2 ^ 52 * 2 ^ (e - 52)).
    - rewrite <- Z.pow_add_r by lia. apply Z.pow_le_mono_r; lia.
    - apply Z.mul_le_mono_nonneg_r; lia. }
  replace (_ =? 0) with false by lia. simpl. lia.
Qed.

Lemma num_add_big_l a b y :
  num_big a → num_int b = Some y → 0 ≤ y → num_big (num_add a b).
Proof.
  intros Ha [->|[-> ->]]%num_int_cases Hy; destruct a as [|[]| |q]; try done.
  apply num_of_Q_big. simpl in *. unfold NInt; simpl.
  rewrite Pos.mul_1_r. nia.
Qed.

Lemma num_add_big a b x y :
  num_int a = Some x → num_int b = Some y → 2 ^ 53 ≤ x + y → 0 ≤ x → 0 ≤ y →
  num_big (num_add a b) ∨ (num_int (num_add a b) = Some (x + y)).
Proof.
  intros [->|[-> ->]]%num_int_cases [->|[-> ->]]%num_int_cases H Hx Hy;
    unfold num_add, NInt; cbn -[num_of_Q].
  - left. apply num_of_Q_big. simpl. lia.
  - right. f_equal; lia.
  - right. done.
  - done.
Qed.

Lemma num_big_not_safe a : num_big a → is_safe_integer a = false.
Proof.
  intros Ha. destruct (is_safe_integer a) eqn:E; [|done].
  apply is_safe_integer_spec in E as (z & Hz & Hb). unfold max_safe in Hb.
  apply num_int_cases in Hz as [->|[-> ->]]; simpl in Ha; lia.
Qed.

Lemma num_big_neq a b : num_big a → is_safe_integer b = true → num_eqb a b = false.
Proof.
  intros Ha Hb. apply is_safe_integer_spec in Hb as (z & Hz & Hs).
  unfold max_safe in Hs. apply num_int_cases in Hz as [->|[-> ->]];
    destruct a as [|[]| |q]; try done; simpl in *.
  - unfold Qcompare; simpl. rewrite Z.mul_1_r.
    destruct (Z.compare_spec (Qnum q) (z * Zpos (Qden q))); nia.
  - lia.
Qed.
