(* ===== verification/JsText.v ===== *)
(** Decimal and hexadecimal text: [BigInt.prototype.toString], the canonical
    decimal pattern (0, or a nonzero digit and digits), [Number::toString], the
    string-to-number conversions behind [Number(s)] and [BigInt(s)], and
    [Buffer] hexadecimal text. *)

From Stdlib Require Import QArith.
From S2P Require Import Prelude JsNum.

Open Scope Z_scope.

(** ** Decimal *)

Definition digit_value (c : N) : Z := Z.of_N c - 48.

(** The value of a string of decimal digits. *)
Definition Z_of_dec (s : jstr) : Z :=
  fold_left (λ a c, 10 * a + digit_value c) s 0.

Fixpoint dec_digits (fuel : nat) (z : Z) : jstr :=
  match fuel with
  | O => []
  | S f =>
      if z <? 10 then [Z.to_N (48 + z)]
      else dec_digits f (z / 10) ++ [Z.to_N (48 + z mod 10)]
  end.

(** [z.toString()] of a BigInt; the bit length bounds the number of digits. *)
Definition dec_of_Z (z : Z) : jstr :=
  if z <? 0 then js "-" +++ dec_digits (S (Z.to_nat (Z.log2 (- z)))) (- z)
  else dec_digits (S (Z.to_nat (Z.log2 z))) z.

(** The test of the canonical-decimal pattern: "0", or a digit 1-9 followed by
    digits. *)
Definition is_canonical_dec (s : jstr) : bool :=
  match s with
  | [] => false
  | c :: s' => if (c =? 48)%N then bool_decide (s' = [])
               else in_range 49 57 c && forallb is_digit s'
  end.

Lemma Z_of_dec_snoc s c : Z_of_dec (s ++ [c]) = 10 * Z_of_dec s + digit_value c.
Proof. unfold Z_of_dec. by rewrite fold_left_app. Qed.

Lemma digit_value_enc z : 0 ≤ z → digit_value (Z.to_N (48 + z)) = z.
Proof. intros. unfold digit_value. rewrite Z2N.id by lia. lia. Qed.

Lemma dec_digits_value fuel z :
  0 ≤ z < 2 ^ Z.of_nat fuel → Z_of_dec (dec_digits fuel z) = z.
Proof.
  revert z. induction fuel as [|f IH]; intros z Hz.
  { simpl in *. change (2 ^ Z.of_nat 0) with 1 in Hz. unfold Z_of_dec; simpl. lia. }
  cbn [dec_digits]. destruct (z <? 10) eqn:E.
  - unfold Z_of_dec; simpl. rewrite digit_value_enc; lia.
  - apply Z.ltb_ge in E. rewrite Z_of_dec_snoc, digit_value_enc by (apply Z.mod_pos_bound; lia).
    rewrite IH.
    + pose proof (Z.div_mod z 10 ltac:(lia)). lia.
    + rewrite Nat2Z.inj_succ, Z.pow_succ_r in Hz by lia.
      split; [apply Z.div_pos; lia|]. apply Z.div_lt_upper_bound; lia.
Qed.

Lemma log2_fuel z : 0 ≤ z → z < 2 ^ Z.of_nat (S (Z.to_nat (Z.log2 z))).
Proof.
  intros Hz. destruct (Z.eq_dec z 0) as [->|]; [done|].
  rewrite Nat2Z.inj_succ, Z2Nat.id by apply Z.log2_nonneg.
  apply Z.log2_spec. lia.
Qed.

Lemma Z_of_dec_of_Z z : 0 ≤ z → Z_of_dec (dec_of_Z z) = z.
Proof.
  intros Hz. unfold dec_of_Z. replace (z <? 0) with false by lia.
  apply dec_digits_value. split; [done|by apply log2_fuel].
Qed.

Lemma dec_of_Z_inj x y : 0 ≤ x → 0 ≤ y → dec_of_Z x = dec_of_Z y → x = y.
Proof.
  intros Hx Hy H. apply (f_equal Z_of_dec) in H.
  by rewrite !Z_of_dec_of_Z in H.
Qed.

Lemma is_digit_spec c : is_digit c = true ↔ (48 <= c <= 57)%N.
Proof. apply in_range_spec. Qed.

Lemma digit_cases c :
  is_digit c = true → c ∈ [48; 49; 50; 51; 52; 53; 54; 55; 56; 57]%N.
Proof. rewrite is_digit_spec. repeat rewrite elem_of_cons. lia. Qed.

(** Case analysis on a decimal digit. *)
Ltac case_digit H :=
  apply digit_cases in H;
  repeat (apply elem_of_cons in H as [->|H]); [..|by apply elem_of_nil in H].

Lemma canonical_digits s :
  is_canonical_dec s = true → Forall (λ c, is_digit c = true) s ∧ s ≠ [].
Proof.
  destruct s as [|c s]; simpl; [done|]. destruct (N.eqb_spec c 48) as [->|Hc].
  - intros ->%bool_decide_eq_true. split; [by repeat constructor|done].
  - intros H. inv_bool. split; [|done]. constructor.
    + apply is_digit_spec. apply in_range_spec in H. lia.
    + apply Forall_forall. intros x Hx. rewrite forallb_forall in H0.
      apply H0. by apply list_elem_of_In.
Qed.

Lemma Z_of_dec_nonneg s :
  Forall (λ c, is_digit c = true) s → 0 ≤ Z_of_dec s.
Proof.
  induction s as [|c s IH] using rev_ind; intros Hs; [done|].
  apply Forall_app in Hs as [Hs Hc]. rewrite Z_of_dec_snoc.
  apply Forall_singleton, is_digit_spec in Hc. unfold digit_value.
  specialize (IH Hs). lia.
Qed.

Lemma dec_digits_big fuel z :
  10 ≤ z → dec_digits (S fuel) z = dec_digits fuel (z / 10) ++ [Z.to_N (48 + z mod 10)].
Proof. intros Hz. cbn [dec_digits]. by replace (z <? 10) with false by lia. Qed.

Lemma dec_digits_fuel f1 f2 z :
  0 ≤ z < 2 ^ Z.of_nat f1 → z < 2 ^ Z.of_nat f2 → (0 < f1)%nat → (0 < f2)%nat →
  dec_digits f1 z = dec_digits f2 z.
Proof.
  revert f2 z. induction f1 as [|f1 IH]; intros f2 z H1 H2 H3 H4; [lia|].
  destruct f2 as [|f2]; [lia|]. destruct (Z_lt_le_dec z 10) as [Hz|Hz].
  { cbn [dec_digits]. by replace (z <? 10) with true by lia. }
  rewrite !dec_digits_big by done. f_equal.
  rewrite Nat2Z.inj_succ, Z.pow_succ_r in H1, H2 by lia.
  assert (0 ≤ z / 10) by (apply Z.div_pos; lia).
  assert (z / 10 < 2 ^ Z.of_nat f1) by (apply Z.div_lt_upper_bound; lia).
  assert (z / 10 < 2 ^ Z.of_nat f2) by (apply Z.div_lt_upper_bound; lia).
  assert (1 ≤ z / 10) by (apply Z.div_le_lower_bound; lia).
  apply IH; try lia.
  - destruct f1; [|lia]. change (2 ^ Z.of_nat 0) with 1 in *. lia.
  - destruct f2; [|lia]. change (2 ^ Z.of_nat 0) with 1 in *. lia.
Qed.

Lemma dec_of_Z_step z :
  10 ≤ z → dec_of_Z z = dec_of_Z (z / 10) ++ [Z.to_N (48 + z mod 10)].
Proof.
  intros Hz. assert (1 ≤ z / 10) by (apply Z.div_le_lower_bound; lia).
  unfold dec_of_Z. replace (z <? 0) with false by lia.
  replace (z / 10 <? 0) with false by lia.
  rewrite dec_digits_big by done. f_equal.
  pose proof (log2_fuel (z / 10) ltac:(lia)). pose proof (log2_fuel z ltac:(lia)) as Hf.
  assert (1 ≤ Z.log2 z) by (apply Z.log2_le_pow2; lia).
  apply dec_digits_fuel; try lia.
  rewrite Nat2Z.inj_succ, Z.pow_succ_r in Hf by lia.
  split; [lia|]. apply Z.div_lt_upper_bound; lia.
Qed.

(** A canonical decimal string is what its value prints as. *)
Lemma dec_of_Z_of_dec s : is_canonical_dec s = true → dec_of_Z (Z_of_dec s) = s.
Proof.
  induction s as [|c s IH] using rev_ind; intros Hs; [done|].
  pose proof (canonical_digits _ Hs) as [Hd _]. apply Forall_app in Hd as [Hd Hc].
  rewrite Forall_singleton in Hc.
  destruct s as [|d s]; [by case_digit Hc|]. apply is_digit_spec in Hc.
  assert (is_canonical_dec (d :: s) = true ∧ (49 <= d)%N) as [Hcan Hd49].
  { simpl in Hs |- *. destruct (N.eqb_spec d 48).
    - apply bool_decide_eq_true in Hs. by destruct s.
    - inv_bool. rewrite forallb_app in H0. inv_bool. rewrite H, H0.
      apply in_range_spec in H. split; [done|lia]. }
  rewrite Z_of_dec_snoc.
  assert (1 ≤ Z_of_dec (d :: s)) as H1.
  { destruct (Z_lt_le_dec (Z_of_dec (d :: s)) 1); [|done]. exfalso.
    pose proof (Z_of_dec_nonneg _ Hd). specialize (IH Hcan).
    replace (Z_of_dec (d :: s)) with 0 in IH by lia.
    change (dec_of_Z 0) with [48%N] in IH. by simplify_eq. }
  rewrite dec_of_Z_step by (unfold digit_value; lia).
  assert (digit_value c = Z.of_N c - 48 ∧ 0 ≤ digit_value c < 10) as [Hv Hr]
    by (unfold digit_value; lia).
  replace ((10 * Z_of_dec (d :: s) + digit_value c) / 10) with (Z_of_dec (d :: s)).
  2:{ apply (Z.div_unique _ _ _ (digit_value c)); lia. }
  replace ((10 * Z_of_dec (d :: s) + digit_value c) mod 10) with (digit_value c).
  2:{ apply (Z.mod_unique _ _ (Z_of_dec (d :: s))); lia. }
  rewrite IH by done. do 2 f_equal. lia.
Qed.


Lemma dec_of_Z_small z : 0 ≤ z < 10 → dec_of_Z z = [Z.to_N (48 + z)].
Proof.
  intros Hz. unfold dec_of_Z. replace (z <? 0) with false by lia. cbn [dec_digits].
  by replace (z <? 10) with true by lia.
Qed.

Lemma dec_of_Z_pos z :
  0 ≤ z → 0 < z →
  ∃ c s, dec_of_Z z = c :: s ∧ in_range 49 57 c = true ∧ forallb is_digit s = true.
Proof.
  intros Hz. pattern z. apply Z_lt_induction; [|done]. clear z Hz. intros z IH Hz.
  destruct (Z_lt_le_dec z 10) as [Hlt|Hge].
  - rewrite dec_of_Z_small by lia. eexists _, []. split_and!; [done| |done].
    apply in_range_spec. lia.
  - assert (1 ≤ z / 10) by (apply Z.div_le_lower_bound; lia).
    assert (z / 10 < z) by (apply Z.div_lt; lia).
    destruct (IH (z / 10)) as (c & s & Hs & Hc & Hf); [lia..|].
    rewrite dec_of_Z_step, Hs by done. exists c, (s ++ [Z.to_N (48 + z mod 10)]).
    split_and!; [done..|]. rewrite forallb_app, Hf. simpl. rewrite andb_true_r.
    pose proof (Z.mod_pos_bound z 10 ltac:(lia)). apply is_digit_spec. lia.
Qed.

Lemma dec_of_Z_canonical z : 0 ≤ z → is_canonical_dec (dec_of_Z z) = true.
Proof.
  intros Hz. destruct (Z.eq_dec z 0) as [->|Hne]; [done|].
  destruct (dec_of_Z_pos z) as (c & s & -> & Hc & Hf); [lia..|]. simpl.
  rewrite Hc, Hf. apply in_range_spec in Hc. destruct (N.eqb_spec c 48); [lia|done].
Qed.

(** ** Number to string *)

Fixpoint zeros (n : nat) : jstr :=
  match n with O => [] | S n' => 48%N :: zeros n' end.

(** Decimal exponent [n] of [q > 0]: 10^(n-1) <= q < 10^n; searched upwards
    from a lower bound given by the binary exponent. *)
Fixpoint dec_exponent (fuel : nat) (p d : Z) (n : Z) : Z :=
  match fuel with
  | O => n
  | S f =>
      if p * 10 ^ Z.max 0 (- n) <? d * 10 ^ Z.max 0 n then n
      else dec_exponent f p d (n + 1)
  end.

(** The shortest digit string that reads back as the double [p / d]. *)
Fixpoint shortest_digits (fuel : nat) (p d n k : Z) : Z * Z :=
  match fuel with
  | O => (0, k)
  | S f =>
      let e := n - k in
      let s := round_half_even (p * 10 ^ Z.max 0 (- e)) (d * 10 ^ Z.max 0 e) in
      let q := if 0 <=? e then ((s * 10 ^ e) # 1)%Q else (s # Z.to_pos (10 ^ (- e)))%Q in
      if bool_decide (num_of_Q q = num_of_Q (p # Z.to_pos d)) then (s, k)
      else shortest_digits f p d n (k + 1)
  end.

(** Number::toString of a positive double that is not a safe integer. *)
Definition show_positive (p d : Z) : jstr :=
  let n0 := (Z.log2 p - Z.log2 d - 1) * 3 / 10 - 1 in
  let n := dec_exponent 400 p d n0 in
  let '(s, k) := shortest_digits 18 p d n 1 in
  let ds := dec_of_Z s in
  let k := jlen ds in
  if (k <=? n) && (n <=? 21) then ds +++ zeros (Z.to_nat (n - k))
  else if (0 <? n) && (n <=? 21) then
    take (Z.to_nat n) ds +++ js "." +++ drop (Z.to_nat n) ds
  else if (-6 <? n) && (n <=? 0) then js "0." +++ zeros (Z.to_nat (- n)) +++ ds
  else
    let e := n - 1 in
    let sign := if e <? 0 then js "-" else js "+" in
    let mantissa := match ds with
                    | c :: (_ :: _) as r => [c] +++ js "." +++ drop 1 ds
                    | _ => ds
                    end in
    mantissa +++ js "e" +++ sign +++ dec_of_Z (Z.abs e).

(** [String(n)].  For a safe integer the shortest digit string that reads back
    as the value, padded with zeros, is its decimal expansion. *)
Definition num_to_string (a : num) : jstr :=
  match a with
  | NaN => js "NaN"
  | Infinity s => if s then js "-Infinity" else js "Infinity"
  | NegZero => js "0"
  | Fin q =>
      if is_safe_integer a then dec_of_Z (Qnum q)
      else if Qnum q <? 0 then js "-" +++ show_positive (- Qnum q) (Zpos (Qden q))
      else show_positive (Qnum q) (Zpos (Qden q))
  end.

Lemma num_to_string_int z :
  Z.abs z ≤ max_safe → num_to_string (NInt z) = dec_of_Z z.
Proof.
  intros Hz. unfold num_to_string, NInt, is_safe_integer. simpl.
  by replace (Z.abs z <=? max_safe) with true by lia.
Qed.

(** ** String to number *)

Fixpoint span (p : N → bool) (s : jstr) : jstr * jstr :=
  match s with
  | c :: s' => if p c then let '(a, b) := span p s' in (c :: a, b) else ([], s)
  | [] => ([], [])
  end.

Definition trim_start (s : jstr) : jstr := snd (span is_space s).
(** [s.trim()]. *)
Definition trim (s : jstr) : jstr := reverse (trim_start (reverse (trim_start s))).

(** The double nearest to (-1)^neg * digits * 10^e. *)
Definition num_of_decimal (neg : bool) (digits : jstr) (e : Z) : num :=
  let z := Z_of_dec digits in
  if z =? 0 then (if neg then NegZero else NInt 0)
  else
    let v := if neg then - z else z in
    num_of_Q (if 0 <=? e then ((v * 10 ^ e) # 1)%Q else (v # Z.to_pos (10 ^ (- e)))%Q).

(** The optional exponent part: its value and the rest. *)
Definition exponent_part (s : jstr) : option (Z * jstr) :=
  match s with
  | c :: r =>
      if (c =? 101)%N || (c =? 69)%N then
        let '(neg, r) := match r with
                         | 43%N :: r' => (false, r')
                         | 45%N :: r' => (true, r')
                         | _ => (false, r)
                         end in
        match span is_digit r with
        | ([], _) => None
        | (ds, rest) => Some (if neg then - Z_of_dec ds else Z_of_dec ds, rest)
        end
      else Some (0, s)
  | [] => Some (0, [])
  end.

(** StrUnsignedDecimalLiteral, all of [s]. *)
Definition unsigned_decimal (neg : bool) (s : jstr) : option num :=
  if s =s? js "Infinity" then Some (Infinity neg)
  else
    let '(ip, r) := span is_digit s in
    let '(fp, r) := match r with
                    | 46%N :: r' => span is_digit r'
                    | _ => ([], r)
                    end in
    if bool_decide (ip ++ fp = []) then None
    else match exponent_part r with
         | Some (e, []) => Some (num_of_decimal neg (ip ++ fp) (e - jlen fp))
         | _ => None
         end.

Definition hex_value (c : N) : Z :=
  if is_digit c then Z.of_N c - 48
  else if in_range 97 102 c then Z.of_N c - 87
  else Z.of_N c - 55.

Definition radix_value (radix : Z) (s : jstr) : Z :=
  fold_left (λ a c, radix * a + hex_value c) s 0.

(** "0x", "0o" and "0b" literals. *)
Definition radix_literal (s : jstr) : option Z :=
  match s with
  | 48%N :: c :: ds =>
      let '(radix, ok) :=
        if (c =? 120)%N || (c =? 88)%N then (16, forallb is_hex ds)
        else if (c =? 111)%N || (c =? 79)%N then (8, forallb (in_range 48 55) ds)
        else if (c =? 98)%N || (c =? 66)%N then (2, forallb (in_range 48 49) ds)
        else (10, false) in
      if ok && negb (bool_decide (ds = [])) then Some (radix_value radix ds) else None
  | _ => None
  end.

(** [Number(s)] for a string. *)
Definition num_of_string (s : jstr) : num :=
  let s := trim s in
  match s with
  | [] => NInt 0
  | _ =>
      match radix_literal s with
      | Some z => num_of_Q (z # 1)%Q
      | None =>
          default NaN
            match s with
            | 43%N :: r => unsigned_decimal false r
            | 45%N :: r => unsigned_decimal true r
            | _ => unsigned_decimal false s
            end
      end
  end.

(** [BigInt(s)] for a string; [None] is a SyntaxError. *)
Definition bigint_of_string (s : jstr) : option Z :=
  let s := trim s in
  let dec r := if forallb is_digit r && negb (bool_decide (r = [])) then Some (Z_of_dec r) else None in
  match s with
  | [] => Some 0
  | _ =>
      match radix_literal s with
      | Some z => Some z
      | None =>
          match s with
          | 43%N :: r => dec r
          | 45%N :: r => Z.opp <$> dec r
          | _ => dec s
          end
      end
  end.

Lemma span_all p s : Forall (λ c, p c = true) s → span p s = (s, []).
Proof. induction 1 as [|c s Hc Hs IH]; simpl; [done|]. by rewrite Hc, IH. Qed.

Lemma trim_digits s : Forall (λ c, is_digit c = true) s → trim s = s.
Proof.
  assert (∀ s, Forall (λ c, is_digit c = true) s → trim_start s = s) as H.
  { intros t Ht. destruct Ht as [|c t Hc Ht]; [done|]. unfold trim_start. simpl.
    by case_digit Hc. }
  intros Hs. unfold trim. rewrite (H s), H by (done || by apply Forall_reverse).
  apply reverse_involutive.
Qed.

(** [BigInt(s)] of a canonical decimal string is its value. *)
Lemma bigint_of_canonical s :
  is_canonical_dec s = true → bigint_of_string s = Some (Z_of_dec s).
Proof.
  intros Hs. pose proof (canonical_digits s Hs) as [Hd Hne].
  unfold bigint_of_string. rewrite trim_digits by done.
  assert (forallb is_digit s = true) as Hf.
  { apply forallb_forall. intros c Hc. rewrite Forall_forall in Hd.
    apply Hd. by apply list_elem_of_In. }
  assert (radix_literal s = None) as Hr.
  { destruct s as [|c s]; [done|]. simpl in Hs. destruct (N.eqb_spec c 48) as [->|Hc].
    - apply bool_decide_eq_true in Hs. by subst.
    - apply Forall_cons in Hd as [Hc' _]. case_digit Hc'; done. }
  rewrite Hr. destruct s as [|c s]; [done|].
  apply Forall_cons in Hd as [Hc _].
  rewrite bool_decide_eq_false_2 by done. rewrite Hf. by case_digit Hc.
Qed.

Lemma bigint_of_dec z : 0 ≤ z → bigint_of_string (dec_of_Z z) = Some z.
Proof.
  intros Hz. rewrite bigint_of_canonical by by apply dec_of_Z_canonical.
  by rewrite Z_of_dec_of_Z.
Qed.

(** ** Hexadecimal *)

Definition hex_digit (z : Z) : N := Z.to_N (if z <? 10 then 48 + z else 87 + z).

(** [buffer.toString("hex")]. *)
Definition hex_of_bytes (b : list Z) : jstr :=
  b ≫= λ x, [hex_digit (x / 16); hex_digit (x mod 16)].

(** [Buffer.from(s, "hex")]: stops at the first pair that is not hexadecimal. *)
Fixpoint bytes_of_hex (s : jstr) : list Z :=
  match s with
  | a :: b :: s' =>
      if is_hex a && is_hex b then (16 * hex_value a + hex_value b) :: bytes_of_hex s' else []
  | _ => []
  end.

(** Lexicographic [Buffer.compare]. *)
Fixpoint compare_bytes (a b : list Z) : Z :=
  match a, b with
  | [], [] => 0
  | [], _ :: _ => -1
  | _ :: _, [] => 1
  | x :: a', y :: b' => if x <? y then -1 else if y <? x then 1 else compare_bytes a' b'
  end.

(** [z.toString(16)]. *)
Fixpoint hex_digits (fuel : nat) (z : Z) : jstr :=
  match fuel with
  | O => []
  | S f => if z <? 16 then [hex_digit z] else hex_digits f (z / 16) ++ [hex_digit (z mod 16)]
  end.

Definition hex_of_Z (z : Z) : jstr := hex_digits (S (Z.to_nat (Z.log2 z))) z.

Lemma compare_bytes_refl a : compare_bytes a a = 0.
Proof. induction a as [|x a IH]; simpl; [done|]. by rewrite Z.ltb_irrefl. Qed.

Lemma compare_bytes_eq a b : compare_bytes a b = 0 ↔ a = b.
Proof.
  split; [|intros ->; apply compare_bytes_refl]. revert b.
  induction a as [|x a IH]; intros [|y b]; simpl; try done.
  destruct (x <? y) eqn:E; [done|]. destruct (y <? x) eqn:E'; [done|].
  inv_bool. intros H. f_equal; [lia|eauto].
Qed.

Lemma compare_bytes_antisym a b : compare_bytes b a = - compare_bytes a b.
Proof.
  revert b. induction a as [|x a IH]; intros [|y b]; simpl; try done.
  destruct (x <? y) eqn:E, (y <? x) eqn:E'; inv_bool; try lia; auto.
Qed.

Lemma compare_bytes_range a b : compare_bytes a b ∈ [-1; 0; 1].
Proof.
  revert b. induction a as [|x a IH]; intros [|y b]; simpl; try set_solver.
  destruct (x <? y); [set_solver|]. destruct (y <? x); [set_solver|auto].
Qed.

Lemma compare_bytes_trans a b c :
  compare_bytes a b ≤ 0 → compare_bytes b c ≤ 0 → compare_bytes a c ≤ 0.
Proof.
  revert b c. induction a as [|x a IH]; intros [|y b] [|z c]; simpl; try lia.
  destruct (x <? y) eqn:E1, (y <? z) eqn:E2; inv_bool.
  - replace (x <? z) with true by lia. lia.
  - destruct (z <? y) eqn:E3; [lia|]. inv_bool. replace (x <? z) with true by lia. lia.
  - destruct (y <? x) eqn:E3; [lia|]. inv_bool. replace (x <? z) with true by lia. lia.
  - destruct (y <? x) eqn:E3; [lia|]. destruct (z <? y) eqn:E4; [lia|]. inv_bool.
    replace (x <? z) with false by lia. replace (z <? x) with false by lia. apply IH.
Qed.

Definition byte (x : Z) : Prop := 0 ≤ x < 256.

Lemma hex_digit_hex z : 0 ≤ z < 16 → is_hex (hex_digit z) = true ∧ hex_value (hex_digit z) = z.
Proof.
  intros Hz.
  assert (z ∈ [0; 1; 2; 3; 4; 5; 6; 7; 8; 9; 10; 11; 12; 13; 14; 15]) as Hin.
  { repeat rewrite elem_of_cons. lia. }
  repeat (apply elem_of_cons in Hin as [->|Hin]; [by vm_compute|]).
  by apply elem_of_nil in Hin.
Qed.

(** Hexadecimal text reads back as the bytes it was printed from. *)
Lemma bytes_of_hex_of_bytes b : Forall byte b → bytes_of_hex (hex_of_bytes b) = b.
Proof.
  induction 1 as [|x b Hx Hb IH]; [done|]. unfold byte in Hx.
  change (hex_of_bytes (x :: b))
    with (hex_digit (x / 16) :: hex_digit (x mod 16) :: hex_of_bytes b).
  cbn [bytes_of_hex].
  destruct (hex_digit_hex (x / 16)) as [H1 H2].
  { split; [apply Z.div_pos; lia|]. apply Z.div_lt_upper_bound; lia. }
  destruct (hex_digit_hex (x mod 16)) as [H3 H4]; [apply Z.mod_pos_bound; lia|].
  rewrite H1, H3, H2, H4, IH. simpl. f_equal.
  pose proof (Z.div_mod x 16 ltac:(lia)). lia.
Qed.

Lemma hex_value_range c : is_hex c = true → 0 ≤ hex_value c < 16.
Proof.
  unfold is_hex, is_lower_hex, hex_value, is_digit. intros H.
  destruct (in_range 48 57 c) eqn:E1; [apply in_range_spec in E1; lia|].
  destruct (in_range 97 102 c) eqn:E2; [apply in_range_spec in E2; lia|].
  simpl in H. apply in_range_spec in H. lia.
Qed.

Lemma bytes_of_hex_bytes s : Forall byte (bytes_of_hex s).
Proof.
  revert s. fix IH 1. intros [|a [|b s]]; try constructor. cbn [bytes_of_hex].
  destruct (is_hex a && is_hex b) eqn:E; [|constructor]. inv_bool.
  pose proof (hex_value_range a ltac:(done)). pose proof (hex_value_range b ltac:(done)).
  constructor; [unfold byte; lia|apply IH].
Qed.
