(* ===== verification/JsValue.v ===== *)
(** JSON-shaped JavaScript values and the operators the sources apply to
    them: property access (with and without optional chaining), [typeof],
    truthiness, [===], [assert.deepEqual], key lists, string order, and the
    [Number] / [BigInt] / [String] conversions. *)

From Stdlib Require Import QArith.
From S2P Require Import Prelude JsNum JsText.

Open Scope Z_scope.

(** Values that come out of [JSON.parse] or an object literal, plus
    [undefined].  An object lists its own enumerable properties in creation
    order; every object is a plain object. *)
Inductive value :=
  | VUndef
  | VNull
  | VBool (b : bool)
  | VNum (n : num)
  | VStr (s : jstr)
  | VArr (l : list value)
  | VObj (fields : list (jstr * value)).

(** ** Own properties *)

Fixpoint assoc {A} (k : jstr) (l : list (jstr * A)) : option A :=
  match l with
  | [] => None
  | (k', v) :: l' => if k =s? k' then Some v else assoc k l'
  end.

(** [Object.hasOwn(v, k)]. *)
Definition has_own (v : value) (k : jstr) : bool :=
  match v with
  | VObj fs => match assoc k fs with Some _ => true | None => false end
  | _ => false
  end.

(** [Object.keys(v)] of an object. *)
Definition keys (v : value) : list jstr :=
  match v with VObj fs => map fst fs | _ => [] end.

(** The value of [v.k] when [v] is neither undefined nor null; the names read
    by the sources are not properties of [Object.prototype]. *)
Definition field (v : value) (k : jstr) : value :=
  match v with
  | VObj fs => default VUndef (assoc k fs)
  | VArr l => if k =s? js "length" then VNum (NInt (Z.of_nat (length l))) else VUndef
  | VStr s => if k =s? js "length" then VNum (NInt (jlen s)) else VUndef
  | _ => VUndef
  end.

Definition is_nullish (v : value) : bool :=
  match v with VUndef | VNull => true | _ => false end.

(** [v.k]: reading a property of undefined or null throws. *)
Definition get (v : value) (k : jstr) : result value :=
  if is_nullish v then type_error (js "Cannot read properties of " +++ k)
  else Ok (field v k).

(** [v?.k]. *)
Definition oget (v : value) (k : jstr) : value := field v k.

(** [v ?? d]. *)
Definition nullish (v d : value) : value := if is_nullish v then d else v.

(** ** Type tests *)

Definition is_string (v : value) : bool := match v with VStr _ => true | _ => false end.
Definition is_boolean (v : value) : bool := match v with VBool _ => true | _ => false end.
Definition is_number (v : value) : bool := match v with VNum _ => true | _ => false end.
Definition is_array (v : value) : bool := match v with VArr _ => true | _ => false end.
Definition is_undefined (v : value) : bool := match v with VUndef => true | _ => false end.
Definition is_null (v : value) : bool := match v with VNull => true | _ => false end.
(** [v && typeof v === "object" && !Array.isArray(v)]. *)
Definition is_object (v : value) : bool := match v with VObj _ => true | _ => false end.

(** ToBoolean. *)
Definition truthy (v : value) : bool :=
  match v with
  | VUndef | VNull => false
  | VBool b => b
  | VNum NaN | VNum NegZero => false
  | VNum (Fin q) => negb (Qnum q =? 0)
  | VNum (Infinity _) => true
  | VStr s => negb (bool_decide (s = []))
  | VArr _ | VObj _ => true
  end.

(** [a === b].  Two arrays or objects are never the same reference here: the
    sources compare them only with primitives or across documents. *)
Definition strict_eq (a b : value) : bool :=
  match a, b with
  | VUndef, VUndef | VNull, VNull => true
  | VBool x, VBool y => Bool.eqb x y
  | VNum x, VNum y => num_eqb x y
  | VStr x, VStr y => x =s? y
  | _, _ => false
  end.

(** [Number.isSafeInteger(v)], [Number.isInteger(v)], [Number.isFinite(v)]. *)
Definition v_safe_integer (v : value) : bool :=
  match v with VNum n => is_safe_integer n | _ => false end.
Definition v_integer (v : value) : bool :=
  match v with VNum n => is_integer n | _ => false end.
Definition v_finite (v : value) : bool :=
  match v with VNum n => is_finite n | _ => false end.

(** The number in a value that has passed one of the tests above. *)
Definition v_num (v : value) : num := match v with VNum n => n | _ => NaN end.
Definition v_str (v : value) : jstr := match v with VStr s => s | _ => [] end.
Definition v_list (v : value) : list value := match v with VArr l => l | _ => [] end.
Definition v_Z (v : value) : Z := num_Z (v_num v).

(** ** node:assert/strict *)

(** [assert.deepEqual]: numbers by [Object.is], objects by their own
    properties in any order. *)
Fixpoint deep_equal (a b : value) : bool :=
  match a, b with
  | VUndef, VUndef | VNull, VNull => true
  | VBool x, VBool y => Bool.eqb x y
  | VNum x, VNum y => num_is x y
  | VStr x, VStr y => x =s? y
  | VArr l, VArr k =>
      (fix go (l k : list value) : bool :=
         match l, k with
         | [], [] => true
         | x :: l', y :: k' => deep_equal x y && go l' k'
         | _, _ => false
         end) l k
  | VObj fs, VObj gs =>
      Nat.eqb (length fs) (length gs) &&
      (fix go (fs : list (jstr * value)) : bool :=
         match fs with
         | [] => true
         | (k, x) :: fs' =>
             match assoc k gs with Some y => deep_equal x y | None => false end && go fs'
         end) fs
  | _, _ => false
  end.

(** [assert.equal(a, b)] of node:assert/strict on primitives: [Object.is]. *)
Definition same_value (a b : value) : bool :=
  match a, b with
  | VNum x, VNum y => num_is x y
  | _, _ => strict_eq a b
  end.

(** ** Conversions *)

Fixpoint to_string (v : value) : jstr :=
  match v with
  | VUndef => js "undefined"
  | VNull => js "null"
  | VBool b => if b then js "true" else js "false"
  | VNum n => num_to_string n
  | VStr s => s
  | VArr l =>
      (fix go (l : list value) : jstr :=
         match l with
         | [] => []
         | [x] => if is_nullish x then [] else to_string x
         | x :: l' => (if is_nullish x then [] else to_string x) +++ js "," +++ go l'
         end) l
  | VObj _ => js "[object Object]"
  end.

(** [Number(v)]. *)
Definition to_number (v : value) : num :=
  match v with
  | VUndef => NaN
  | VNull => NInt 0
  | VBool b => NInt (if b then 1 else 0)
  | VNum n => n
  | VStr s => num_of_string s
  | VArr _ | VObj _ => num_of_string (to_string v)
  end.

(** [BigInt(v)]. *)
Definition to_bigint (v : value) : result Z :=
  let of_string s := match bigint_of_string s with
                     | Some z => Ok z
                     | None => Throw (Exn ESyntaxError (js "Cannot convert to a BigInt"))
                     end in
  match v with
  | VUndef | VNull => type_error (js "Cannot convert to a BigInt")
  | VBool b => Ok (if b then 1 else 0)
  | VNum n => match num_int n with
              | Some z => Ok z
              | None => range_error (js "Not an integer")
              end
  | VStr s => of_string s
  | VArr _ | VObj _ => of_string (to_string v)
  end.

(** [Number(b)] of a BigInt. *)
Definition num_of_bigint (z : Z) : num := num_of_Q (z # 1)%Q.

(** ** String order *)

(** Code-unit order, what [sort()] without a comparator uses. *)
Fixpoint jstr_leb (a b : jstr) : bool :=
  match a, b with
  | [], _ => true
  | _ :: _, [] => false
  | x :: a', y :: b' => if (x <? y)%N then true else if (y <? x)%N then false else jstr_leb a' b'
  end.

Definition jstr_le (a b : jstr) : Prop := jstr_leb a b = true.

#[export] Instance jstr_le_dec : RelDecision jstr_le.
Proof. intros a b. unfold jstr_le. apply _. Defined.

#[export] Instance jstr_le_total : Total jstr_le.
Proof.
  intros a. induction a as [|x a IH]; intros [|y b]; unfold jstr_le in *; simpl; auto.
  destruct (N.ltb_spec x y), (N.ltb_spec y x); auto; lia.
Qed.

#[export] Instance jstr_le_antisymm : AntiSymm (=) jstr_le.
Proof.
  intros a. induction a as [|x a IH]; intros [|y b]; unfold jstr_le in *; simpl; try done.
  destruct (N.ltb_spec x y), (N.ltb_spec y x); try done; try lia.
  intros H1 H2. f_equal; [lia|auto].
Qed.

#[export] Instance jstr_le_trans : Transitive jstr_le.
Proof.
  intros a. induction a as [|x a IH]; intros [|y b] [|z c]; unfold jstr_le in *; simpl; try done.
  destruct (N.ltb_spec x y), (N.ltb_spec y x), (N.ltb_spec y z), (N.ltb_spec z y),
    (N.ltb_spec x z), (N.ltb_spec z x); try done; try lia; eauto.
Qed.

(** [[...l].sort()]. *)
Definition sort_strings (l : list jstr) : list jstr := merge_sort jstr_le l.

Lemma sort_strings_perm l : sort_strings l ≡ₚ l.
Proof. apply merge_sort_Permutation. Qed.

Lemma sort_strings_eq l k : sort_strings l = sort_strings k ↔ l ≡ₚ k.
Proof.
  split.
  - intros H. by rewrite <- (sort_strings_perm l), H, sort_strings_perm.
  - intros H. apply (StronglySorted_unique jstr_le).
    + apply (StronglySorted_merge_sort jstr_le).
    + apply (StronglySorted_merge_sort jstr_le).
    + by rewrite !sort_strings_perm.
Qed.

(** ** Facts used by the components *)

Lemma assoc_elem {A} k (l : list (jstr * A)) v : assoc k l = Some v → (k, v) ∈ l.
Proof.
  induction l as [|[k' v'] l IH]; simpl; [done|].
  destruct (k =s? k') eqn:E; intros H; inv_bool; simplify_eq.
  - apply list_elem_of_here.
  - apply list_elem_of_further. auto.
Qed.

Lemma assoc_is_Some {A} k (l : list (jstr * A)) : is_Some (assoc k l) ↔ k ∈ map fst l.
Proof.
  induction l as [|[k' v'] l IH]; simpl.
  { rewrite elem_of_nil. split; [by intros [? ?]|done]. }
  rewrite elem_of_cons. destruct (k =s? k') eqn:E; inv_bool.
  - subst. split; eauto.
  - rewrite IH. naive_solver.
Qed.

Lemma has_own_keys v k : has_own v k = true ↔ is_object v = true ∧ k ∈ keys v.
Proof.
  destruct v; simpl; try naive_solver. rewrite <- assoc_is_Some.
  destruct (assoc k fields); naive_solver.
Qed.

Lemma get_Ok v k w : get v k = Ok w → is_nullish v = false ∧ w = field v k.
Proof. unfold get. destruct (is_nullish v); intros; inv_result; auto. Qed.

Lemma strict_eq_str v s : strict_eq v (VStr s) = true ↔ v = VStr s.
Proof. destruct v; simpl; try naive_solver. rewrite jeq_spec. naive_solver. Qed.

Lemma strict_eq_bool v b : strict_eq v (VBool b) = true ↔ v = VBool b.
Proof. destruct v; simpl; try naive_solver. rewrite Bool.eqb_true_iff. naive_solver. Qed.

Lemma strict_eq_null v : strict_eq v VNull = true ↔ v = VNull.
Proof. destruct v; naive_solver. Qed.

Lemma v_safe_integer_spec v :
  v_safe_integer v = true ↔ ∃ n z, v = VNum n ∧ num_int n = Some z ∧ Z.abs z ≤ max_safe.
Proof.
  unfold v_safe_integer. destruct v; try naive_solver.
  rewrite is_safe_integer_spec. naive_solver.
Qed.

Lemma v_safe_integer_Z v :
  v_safe_integer v = true → num_int (v_num v) = Some (v_Z v) ∧ Z.abs (v_Z v) ≤ max_safe.
Proof.
  intros (n & z & -> & Hn & Hz)%v_safe_integer_spec.
  unfold v_Z, num_Z. simpl. rewrite Hn. auto.
Qed.

(** [!value || typeof value !== "object" || Array.isArray(value)]. *)
Definition not_plain_object (v : value) : bool := negb (is_object v).

#[export] Hint Resolve sort_strings_perm : js.
