(* ===== verification/JsonText.v ===== *)
(** [JSON.parse] and [JSON.stringify] over the values of JsValue: the RFC 8259
    grammar on code units, objects with ECMAScript's own-property order, and
    the compact and indented printers. *)

From S2P Require Import Prelude JsNum JsText JsValue.

Open Scope Z_scope.

(** ** Objects *)

(** Keys that are array indices come first, in increasing order. *)
Definition array_index (k : jstr) : option Z :=
  if is_canonical_dec k && (Z_of_dec k <? 2 ^ 32 - 1) then Some (Z_of_dec k) else None.

Definition index_before (k k' : jstr) : bool :=
  match array_index k, array_index k' with
  | Some i, Some j => i <? j
  | Some _, None => true
  | None, _ => false
  end.

(** [o[k] = v] on an own-property list. *)
Fixpoint set_own {A} (k : jstr) (v : A) (fs : list (jstr * A)) : list (jstr * A) :=
  match fs with
  | [] => [(k, v)]
  | (k', v') :: r =>
      if k =s? k' then (k, v) :: r
      else if index_before k k' then (k, v) :: fs
      else (k', v') :: set_own k v r
  end.

(** ** Parsing *)

Definition json_ws (c : N) : bool := (c =? 9)%N || (c =? 10)%N || (c =? 13)%N || (c =? 32)%N.
Definition skip_ws (s : jstr) : jstr := snd (span json_ws s).

Definition unescape (c : N) : option N :=
  match c with
  | 34 => Some 34 | 92 => Some 92 | 47 => Some 47
  | 98 => Some 8 | 102 => Some 12 | 110 => Some 10 | 114 => Some 13 | 116 => Some 9
  | _ => None
  end%N.

(** The rest of a string literal after its opening quote: the text and what
    follows the closing quote. *)
Fixpoint string_body (s : jstr) : option (jstr * jstr) :=
  match s with
  | [] => None
  | 34%N :: r => Some ([], r)
  | 92%N :: 117%N :: a :: b :: c :: d :: r =>
      if is_hex a && is_hex b && is_hex c && is_hex d then
        '(t, q) ← string_body r; Some (Z.to_N (radix_value 16 [a; b; c; d]) :: t, q)
      else None
  | 92%N :: e :: r =>
      u ← unescape e; '(t, q) ← string_body r; Some (u :: t, q)
  | c :: r => if (c <? 32)%N || (c =? 92)%N then None else '(t, q) ← string_body r; Some (c :: t, q)
  end.

(** A number token, the sign already consumed. *)
Definition parse_number (neg : bool) (s : jstr) : option (num * jstr) :=
  let '(ip, r) := span is_digit s in
  if negb (is_canonical_dec ip) then None
  else
    match match r with
          | 46%N :: r' => match span is_digit r' with
                          | ([], _) => None
                          | (fp, r'') => Some (fp, r'')
                          end
          | _ => Some ([], r)
          end with
    | None => None
    | Some (fp, r) =>
        '(e, q) ← exponent_part r;
        Some (num_of_decimal neg (ip ++ fp) (e - jlen fp), q)
    end.

(** What follows the closing bracket [c], when it comes next. *)
Definition close_after (c : N) (s : jstr) : option jstr :=
  match skip_ws s with
  | x :: q => if (x =? c)%N then Some q else None
  | [] => None
  end.

(** A value; members and elements are read after the opening bracket or a
    comma. *)
Fixpoint parse_value (fuel : nat) (s : jstr) : option (value * jstr) :=
  match fuel with
  | O => None
  | S f =>
      match skip_ws s with
      | 34%N :: r => '(t, q) ← string_body r; Some (VStr t, q)
      | 45%N :: r => '(n, q) ← parse_number true r; Some (VNum n, q)
      | 123%N :: r =>
          match close_after 125 r with
          | Some q => Some (VObj [], q)
          | None => parse_members f [] r
          end
      | 91%N :: r =>
          match close_after 93 r with
          | Some q => Some (VArr [], q)
          | None => parse_elements f [] r
          end
      | 116%N :: 114%N :: 117%N :: 101%N :: q => Some (VBool true, q)
      | 102%N :: 97%N :: 108%N :: 115%N :: 101%N :: q => Some (VBool false, q)
      | 110%N :: 117%N :: 108%N :: 108%N :: q => Some (VNull, q)
      | r => '(n, q) ← parse_number false r; Some (VNum n, q)
      end
  end
with parse_members (fuel : nat) (fs : list (jstr * value)) (s : jstr) : option (value * jstr) :=
  match fuel with
  | O => None
  | S f =>
      match skip_ws s with
      | 34%N :: r =>
          '(k, r) ← string_body r;
          match skip_ws r with
          | 58%N :: r =>
              '(v, r) ← parse_value f r;
              let fs' := set_own k v fs in
              match skip_ws r with
              | 44%N :: r => parse_members f fs' r
              | 125%N :: q => Some (VObj fs', q)
              | _ => None
              end
          | _ => None
          end
      | _ => None
      end
  end
with parse_elements (fuel : nat) (l : list value) (s : jstr) : option (value * jstr) :=
  match fuel with
  | O => None
  | S f =>
      '(v, r) ← parse_value f s;
      match skip_ws r with
      | 44%N :: r => parse_elements f (l ++ [v]) r
      | 93%N :: q => Some (VArr (l ++ [v]), q)
      | _ => None
      end
  end.

(** [JSON.parse(s)].  Every call consumes a unit of input before a nested
    call, so twice the length of the input bounds the depth of calls. *)
Definition json_parse (s : jstr) : result value :=
  match parse_value (S (2 * length s)) s with
  | Some (v, q) =>
      match skip_ws q with
      | [] => Ok v
      | _ => Throw (Exn ESyntaxError (js "Unexpected token in JSON"))
      end
  | None => Throw (Exn ESyntaxError (js "Unexpected token in JSON"))
  end.

(** ** Printing *)

Definition hex4 (c : N) : jstr :=
  let z := Z.of_N c in
  [hex_digit (z / 4096 mod 16); hex_digit (z / 256 mod 16);
   hex_digit (z / 16 mod 16); hex_digit (z mod 16)].

Definition unicode_escape (c : N) : jstr := 92%N :: 117%N :: hex4 c.

Definition is_high (c : N) : bool := in_range 55296 56319 c.
Definition is_low (c : N) : bool := in_range 56320 57343 c.

Definition quote_char (c : N) : jstr :=
  match c with
  | 34 => [92; 34] | 92 => [92; 92] | 8 => [92; 98] | 12 => [92; 102]
  | 10 => [92; 110] | 13 => [92; 114] | 9 => [92; 116]
  | _ => if (c <? 32)%N || is_high c || is_low c then unicode_escape c else [c]
  end%N.

(** The body of QuoteJSONString: surrogate pairs are kept, lone surrogates
    and control characters are escaped. *)
Fixpoint quote_body (s : jstr) : jstr :=
  match s with
  | [] => []
  | h :: ((l :: s') as r) =>
      if is_high h && is_low l then h :: l :: quote_body s' else quote_char h ++ quote_body r
  | [h] => quote_char h
  end.

Definition quote (s : jstr) : jstr := 34%N :: quote_body s ++ [34%N].

(** The line break before an item at the given depth, and the separator after
    a key. *)
Definition line_break (gap : nat) (depth : nat) : jstr :=
  match gap with O => [] | _ => 10%N :: repeat 32%N (gap * depth) end.
Definition colon (gap : nat) : jstr :=
  match gap with O => [58%N] | _ => [58; 32]%N end.

Fixpoint wrap_items (sep : jstr) (items : list jstr) : jstr :=
  match items with
  | [] => []
  | [x] => x
  | x :: items' => x ++ 44%N :: sep ++ wrap_items sep items'
  end.

(** Brackets around the items, one per line when there is a gap. *)
Definition bracket (gap depth : nat) (o c : N) (items : list jstr) : jstr :=
  match items with
  | [] => [o; c]
  | _ => o :: line_break gap (S depth) ++ wrap_items (line_break gap (S depth)) items
           ++ line_break gap depth ++ [c]
  end.

Definition print_num (n : num) : jstr :=
  match n with
  | NaN | Infinity _ => js "null"
  | _ => num_to_string n
  end.

(** [JSON.stringify(v, null, gap)] of a value other than undefined; undefined
    members are left out and undefined elements print as null. *)
Fixpoint stringify (gap depth : nat) (v : value) : jstr :=
  match v with
  | VUndef | VNull => js "null"
  | VBool b => if b then js "true" else js "false"
  | VNum n => print_num n
  | VStr s => quote s
  | VArr l =>
      bracket gap depth 91 93
        ((fix go (l : list value) : list jstr :=
            match l with
            | [] => []
            | x :: l' => stringify gap (S depth) x :: go l'
            end) l)
  | VObj fs =>
      bracket gap depth 123 125
        ((fix go (fs : list (jstr * value)) : list jstr :=
            match fs with
            | [] => []
            | (k, x) :: fs' =>
                if is_undefined x then go fs'
                else (quote k ++ colon gap ++ stringify gap (S depth) x) :: go fs'
            end) fs)
  end.

(** ** Reading back what was printed *)

(** Induction on values with the hypothesis for every element and member. *)
Section value_induction.
Context (P : value → Prop).
Context (H_undef : P VUndef) (H_null : P VNull) (H_bool : ∀ b, P (VBool b)).
Context (H_num : ∀ n, P (VNum n)) (H_str : ∀ s, P (VStr s)).
Context (H_arr : ∀ l, Forall P l → P (VArr l)).
Context (H_obj : ∀ fs, Forall (λ kv, P (snd kv)) fs → P (VObj fs)).

Fixpoint value_induct (v : value) : P v :=
  match v with
  | VUndef => H_undef
  | VNull => H_null
  | VBool b => H_bool b
  | VNum n => H_num n
  | VStr s => H_str s
  | VArr l =>
      H_arr l ((fix go (l : list value) : Forall P l :=
                  match l with
                  | [] => Forall_nil_2 P
                  | x :: l' => Forall_cons_2 P x l' (value_induct x) (go l')
                  end) l)
  | VObj fs =>
      H_obj fs ((fix go (fs : list (jstr * value)) : Forall (λ kv, P (snd kv)) fs :=
                   match fs with
                   | [] => Forall_nil_2 _
                   | kv :: fs' => Forall_cons_2 _ kv fs' (value_induct (snd kv)) (go fs')
                   end) fs)
  end.
End value_induction.

(** Values that print without loss: no undefined, numbers that are safe
    integers, distinct keys none of which is an array index. *)
Fixpoint json_data (v : value) : bool :=
  match v with
  | VUndef => false
  | VNull | VBool _ | VStr _ => true
  | VNum n => match num_int n with
              | Some z => bool_decide (n = NInt z) && (Z.abs z <=? max_safe)
              | None => false
              end
  | VArr l =>
      (fix go (l : list value) : bool :=
         match l with [] => true | x :: l' => json_data x && go l' end) l
  | VObj fs =>
      all_distinct (map fst fs) &&
      (fix go (fs : list (jstr * value)) : bool :=
         match fs with
         | [] => true
         | (k, x) :: fs' => bool_decide (array_index k = None) && json_data x && go fs'
         end) fs
  end.

Lemma json_data_arr l : json_data (VArr l) = true ↔ Forall (λ x, json_data x = true) l.
Proof.
  induction l as [|x l IH]; [by split|]. rewrite Forall_cons, <- IH. simpl.
  by rewrite andb_true_iff.
Qed.

Definition plain_member (kv : jstr * value) : Prop :=
  array_index (fst kv) = None ∧ json_data (snd kv) = true.

Lemma json_data_obj fs :
  json_data (VObj fs) = true ↔ NoDup (map fst fs) ∧ Forall plain_member fs.
Proof.
  simpl. rewrite andb_true_iff, all_distinct_spec. apply and_iff_compat_l.
  induction fs as [|[k x] fs IH]; [by split|]. rewrite Forall_cons, <- IH.
  unfold plain_member. simpl. rewrite !andb_true_iff, bool_decide_eq_true. done.
Qed.

Lemma stringify_arr gap d l :
  stringify gap d (VArr l) = bracket gap d 91 93 (map (stringify gap (S d)) l).
Proof. reflexivity. Qed.

Definition print_member (gap d : nat) (kv : jstr * value) : jstr :=
  quote (fst kv) ++ colon gap ++ stringify gap (S d) (snd kv).

Lemma stringify_obj gap d fs :
  Forall plain_member fs →
  stringify gap d (VObj fs) = bracket gap d 123 125 (map (print_member gap d) fs).
Proof.
  intros Hfs. simpl. f_equal. induction Hfs as [|[k x] fs [_ Hx] Hfs IH]; [done|].
  simpl in *. destruct x; try done; simpl; by f_equal.
Qed.

(** *** Strings *)

Lemma string_body_plain c r :
  c ≠ 34%N → c ≠ 92%N → (32 ≤ c)%N →
  string_body (c :: r) = '(t, q) ← string_body r; Some (c :: t, q).
Proof.
  intros H1 H2 H3. cbn [string_body].
  replace ((c <? 32)%N || (c =? 92)%N) with false.
  2:{ symmetry. rewrite orb_false_iff, N.ltb_ge, N.eqb_neq. done. }
  destruct c as [|p]; [done|].
  do 7 try (destruct p as [p|p|]; try reflexivity); congruence.
Qed.

Lemma string_body_escape c r :
  (c < 65536)%N →
  string_body (unicode_escape c ++ r) = '(t, q) ← string_body r; Some (c :: t, q).
Proof.
  intros Hc. unfold unicode_escape, hex4. set (z := Z.of_N c).
  assert (∀ x, 0 ≤ x mod 16 < 16) as Hm by (intros; apply Z.mod_pos_bound; lia).
  destruct (hex_digit_hex _ (Hm (z / 4096))) as [Ha Va],
    (hex_digit_hex _ (Hm (z / 256))) as [Hb Vb],
    (hex_digit_hex _ (Hm (z / 16))) as [Hc' Vc], (hex_digit_hex _ (Hm z)) as [Hd Vd].
  cbn [app string_body]. rewrite Ha, Hb, Hc', Hd. cbn [andb].
  replace (Z.to_N (radix_value 16 _)) with c; [done|].
  unfold radix_value. cbn [fold_left]. rewrite Va, Vb, Vc, Vd.
  assert (0 ≤ z < 65536) as Hz by lia.
  transitivity (Z.to_N z); [lia|]. f_equal.
  replace (z / 4096) with (z / 16 / 16 / 16) by (rewrite !Z.div_div by lia; done).
  replace (z / 256) with (z / 16 / 16) by (rewrite !Z.div_div by lia; done).
  pose proof (Z.div_mod z 16 ltac:(lia)).
  pose proof (Z.div_mod (z / 16) 16 ltac:(lia)).
  pose proof (Z.div_mod (z / 16 / 16) 16 ltac:(lia)).
  pose proof (Z.div_mod (z / 16 / 16 / 16) 16 ltac:(lia)).
  assert (z / 16 / 16 / 16 / 16 = 0) by (rewrite !Z.div_div by lia; apply Z.div_small; lia).
  lia.
Qed.

Lemma string_body_quote_char c r :
  string_body (quote_char c ++ r) = '(t, q) ← string_body r; Some (c :: t, q).
Proof.
  destruct (decide (c ∈ [34; 92; 8; 12; 10; 13; 9]%N)) as [Hin|Hout].
  { repeat (apply elem_of_cons in Hin as [->|Hin]; [done|]). by apply elem_of_nil in Hin. }
  assert (quote_char c = if (c <? 32)%N || is_high c || is_low c then unicode_escape c else [c]) as ->.
  { unfold quote_char. destruct c as [|p]; [done|].
    do 7 try (destruct p as [p|p|]; try reflexivity); set_solver. }
  destruct ((c <? 32)%N || is_high c || is_low c) eqn:E.
  - apply string_body_escape. rewrite !orb_true_iff in E. unfold is_high, is_low in E.
    rewrite !in_range_spec, N.ltb_lt in E. lia.
  - apply string_body_plain; inv_bool; [set_solver..|]. by apply N.ltb_ge.
Qed.

Lemma quote_body_pair h l s :
  quote_body (h :: l :: s) =
  if is_high h && is_low l then h :: l :: quote_body s else quote_char h ++ quote_body (l :: s).
Proof. reflexivity. Qed.

Lemma string_body_quote s r : string_body (quote_body s ++ 34%N :: r) = Some (s, r).
Proof.
  remember (length s) as n eqn:Hn. revert s Hn.
  induction (lt_wf n) as [n _ IH]; intros s Hn. destruct s as [|h [|l s]]; [done| |].
  - cbn [quote_body]. by rewrite string_body_quote_char.
  - rewrite quote_body_pair. destruct (is_high h && is_low l) eqn:E; inv_bool.
    + unfold is_high, is_low in *. rewrite in_range_spec in *. cbn [app].
      rewrite !string_body_plain by lia. rewrite (IH (length s)) by (simpl in Hn; lia). done.
    + rewrite <- app_assoc, string_body_quote_char.
      by rewrite (IH (length (l :: s))) by (simpl in *; lia).
Qed.

(** *** Whitespace and the characters that end a token *)

Definition blank (w : jstr) : Prop := Forall (λ c, json_ws c = true) w.

Definition starts_token (s : jstr) : Prop :=
  match s with [] => False | c :: _ => json_ws c = false end.

Lemma skip_ws_blank w s : blank w → starts_token s → skip_ws (w ++ s) = s.
Proof.
  intros Hw Hs. unfold skip_ws. induction Hw as [|c w Hc Hw IH]; simpl.
  - destruct s as [|c s]; [done|]. simpl in *. by rewrite Hs.
  - rewrite Hc. by destruct (span json_ws (w ++ s)).
Qed.

Lemma skip_ws_token s : starts_token s → skip_ws s = s.
Proof. intros Hs. by apply (skip_ws_blank [] s (Forall_nil_2 _)). Qed.

Lemma blank_line_break gap d : blank (line_break gap d).
Proof.
  unfold line_break. destruct gap; [constructor|]. constructor; [done|].
  apply Forall_forall. intros c Hc.
  apply list_elem_of_In, repeat_spec in Hc. by subst.
Qed.

(** What follows a value in printed text never continues a number. *)
Definition ends_number (s : jstr) : Prop :=
  match s with
  | [] => True
  | c :: _ => is_digit c = false ∧ c ≠ 46%N ∧ c ≠ 101%N ∧ c ≠ 69%N
  end.

Lemma ends_number_blank w s : blank w → ends_number s → ends_number (w ++ s).
Proof.
  intros [|c w' Hc _] Hs; [done|]. simpl. unfold json_ws in Hc.
  rewrite !orb_true_iff, !N.eqb_eq in Hc. destruct Hc as [[[->| ->]| ->]| ->]; done.
Qed.

Lemma span_digits ds r :
  Forall (λ c, is_digit c = true) ds → ends_number r → span is_digit (ds ++ r) = (ds, r).
Proof.
  intros Hds Hr. induction Hds as [|c ds Hc Hds IH]; simpl.
  - destruct r as [|c r]; [done|]. simpl in *. by destruct Hr as [-> _].
  - by rewrite Hc, IH.
Qed.

Lemma parse_number_canonical neg ds r :
  is_canonical_dec ds = true → ends_number r →
  parse_number neg (ds ++ r) = Some (num_of_decimal neg ds 0, r).
Proof.
  intros Hds Hr. destruct (canonical_digits ds Hds) as [Hd _]. unfold parse_number.
  rewrite span_digits by done. rewrite Hds. cbn [negb].
  assert (exponent_part r = Some (0, r)) as He.
  { destruct r as [|c r]; [done|]. destruct Hr as (_ & _ & H1 & H2). cbn [exponent_part].
    by rewrite !(proj2 (N.eqb_neq _ _)) by done. }
  assert (ds ++ [] = ds) as Happ by apply app_nil_r.
  destruct r as [|c r]; [by rewrite He; simpl; rewrite Happ|].
  destruct Hr as (_ & H1 & _). destruct c as [|p]; [by rewrite He; simpl; rewrite Happ|].
  do 6 try (destruct p as [p|p|]; try (rewrite He; simpl; rewrite Happ; reflexivity)).
  congruence.
Qed.

Lemma print_num_parse z r :
  Z.abs z ≤ max_safe → ends_number r →
  ∃ c t, print_num (NInt z) = c :: t ∧ (c = 45%N ∨ is_digit c = true) ∧
  (if (c =? 45)%N then parse_number true (t ++ r) else parse_number false ((c :: t) ++ r))
  = Some (NInt z, r).
Proof.
  intros Hz Hr. unfold print_num. cbn [NInt]. rewrite num_to_string_int by done.
  unfold dec_of_Z. destruct (Z.ltb_spec z 0) as [Hneg|Hpos].
  - exists 45%N, (dec_of_Z (- z)). unfold dec_of_Z. replace (- z <? 0) with false by lia.
    split_and!; [done|by left|]. change (45 =? 45)%N with true. cbn iota.
    pose proof (dec_of_Z_canonical (- z) ltac:(lia)) as Hcan.
    pose proof (Z_of_dec_of_Z (- z) ltac:(lia)) as Hval. unfold dec_of_Z in Hcan, Hval.
    replace (- z <? 0) with false in * by lia.
    rewrite parse_number_canonical by done. unfold num_of_decimal. rewrite Hval.
    replace (- z =? 0) with false by lia. change (0 <=? 0) with true; cbn iota. rewrite Z.opp_involutive, Z.mul_1_r.
    rewrite num_of_Q_int by (unfold max_safe in Hz; lia). done.
  - pose proof (dec_of_Z_canonical z ltac:(lia)) as Hcan.
    pose proof (Z_of_dec_of_Z z ltac:(lia)) as Hval. unfold dec_of_Z in Hcan, Hval.
    replace (z <? 0) with false in * by lia.
    destruct (canonical_digits _ Hcan) as [Hd Hne].
    destruct (dec_digits _ z) as [|c t] eqn:E; [done|]. exists c, t.
    apply Forall_cons in Hd as [Hc _]. split_and!; [done|by right|].
    assert ((c =? 45)%N = false) as -> by (apply is_digit_spec in Hc; apply N.eqb_neq; lia).
    rewrite parse_number_canonical by done. unfold num_of_decimal. rewrite Hval.
    destruct (Z.eqb_spec z 0) as [->|Hnz]; [done|]. change (0 <=? 0) with true; cbn iota. rewrite Z.mul_1_r.
    by rewrite num_of_Q_int by (unfold max_safe in Hz; lia).
Qed.

(** *** Values *)

Lemma set_own_fresh {A} k (v : A) fs :
  array_index k = None → k ∉ map fst fs → set_own k v fs = fs ++ [(k, v)].
Proof.
  intros Hk. induction fs as [|[k' v'] fs IH]; simpl; [done|].
  rewrite not_elem_of_cons. intros [Hne Hfs].
  assert ((k =s? k') = false) as -> by by apply jeq_neq.
  unfold index_before. rewrite Hk. by rewrite IH.
Qed.

(** The first character of a printed value. *)
Definition opens_value (c : N) : bool :=
  (c =? 34)%N || (c =? 45)%N || (c =? 91)%N || (c =? 123)%N || (c =? 102)%N
  || (c =? 110)%N || (c =? 116)%N || is_digit c.

Lemma opens_value_token c :
  opens_value c = true → json_ws c = false ∧ c ≠ 93%N ∧ c ≠ 125%N.
Proof.
  unfold opens_value. rewrite !orb_true_iff, !N.eqb_eq.
  intros [[[[[[[->| ->]| ->]| ->]| ->]| ->]| ->]|H]; try done. by case_digit H.
Qed.

Lemma json_data_num n : json_data (VNum n) = true → ∃ z, n = NInt z ∧ Z.abs z ≤ max_safe.
Proof.
  simpl. destruct (num_int n) as [z|]; [|done]. intros H. inv_bool.
  exists z. split; [by apply bool_decide_eq_true in H|done].
Qed.

Lemma stringify_opens gap d v :
  json_data v = true → ∃ c t, stringify gap d v = c :: t ∧ opens_value c = true.
Proof.
  destruct v as [| |[]|n|s|l|fs]; intros Hv; try discriminate Hv; try (by eexists _, _).
  - destruct (json_data_num n Hv) as (z & -> & Hz).
    destruct (print_num_parse z [] Hz I) as (c & t & Hp & Hc & _).
    exists c, t. split; [done|]. destruct Hc as [->|Hc]; [done|].
    unfold opens_value. rewrite Hc. apply orb_true_r.
  - rewrite stringify_arr. destruct l; by eexists _, _.
  - rewrite stringify_obj by by apply json_data_obj in Hv as [_ ?].
    destruct fs; by eexists _, _.
Qed.

(** The value printed at depth [d] is read back, whatever precedes and
    follows it. *)
Definition reads (gap : nat) (v : value) : Prop := ∀ d fuel w rest,
  blank w → ends_number rest → (2 * length (stringify gap d v) ≤ fuel)%nat →
  parse_value fuel (w ++ stringify gap d v ++ rest) = Some (v, rest).

Lemma skip_ws_value gap d v w rest :
  json_data v = true → blank w →
  ∃ c t, skip_ws (w ++ stringify gap d v ++ rest) = c :: t ∧ c ≠ 93%N ∧ c ≠ 125%N.
Proof.
  intros Hv Hw. destruct (stringify_opens gap d v Hv) as (c & t & -> & Hc).
  apply opens_value_token in Hc as (H1 & H2 & H3).
  exists c, (t ++ rest). by rewrite skip_ws_blank.
Qed.

Lemma parse_elements_print gap d w2 rest l : ∀ acc fuel w,
  blank w → blank w2 → l ≠ [] → Forall (reads gap) l →
  (2 * length (wrap_items (line_break gap d) (map (stringify gap d) l)) + 1 ≤ fuel)%nat →
  parse_elements fuel acc
    (w ++ wrap_items (line_break gap d) (map (stringify gap d) l) ++ w2 ++ 93%N :: rest)
  = Some (VArr (acc ++ l), rest).
Proof.
  induction l as [|x [|y l] IH]; intros acc fuel w Hw Hw2 Hne Hl Hf; [done| |].
  - apply Forall_cons in Hl as [Hx _]. cbn [map wrap_items] in *.
    destruct fuel as [|fuel]; [lia|]. cbn [parse_elements].
    rewrite (Hx d fuel w (w2 ++ 93%N :: rest)); [|done|by apply ends_number_blank|lia].
    cbn. by rewrite skip_ws_blank.
  - apply Forall_cons in Hl as [Hx Hl].
    set (items := map (stringify gap d) (y :: l)) in *.
    assert (wrap_items (line_break gap d) (map (stringify gap d) (x :: y :: l))
      = stringify gap d x ++ 44%N :: line_break gap d ++ wrap_items (line_break gap d) items)
      as Hwrap by done.
    rewrite Hwrap in *. rewrite !length_app in Hf. cbn [length] in Hf. rewrite length_app in Hf.
    destruct fuel as [|fuel]; [lia|]. cbn [parse_elements].
    rewrite <- !app_assoc, (Hx d fuel w); [|done|done|lia].
    cbn [mbind option_bind app]. rewrite skip_ws_token by done.
    rewrite <- !app_assoc, IH; [|by apply blank_line_break|done|done|done|subst items; lia].
    by rewrite <- app_assoc.
Qed.

Lemma NoDup_snoc_fresh {A} (acc fs : list (jstr * A)) k x :
  NoDup (map fst (acc ++ (k, x) :: fs)) → k ∉ map fst acc.
Proof.
  rewrite map_app, NoDup_app. intros (_ & Hdis & _) Hin. apply (Hdis k Hin).
  simpl. apply list_elem_of_here.
Qed.

Lemma parse_members_print gap d w2 rest fs : ∀ acc fuel w,
  blank w → blank w2 → fs ≠ [] → Forall (λ kv, reads gap (snd kv)) fs →
  Forall plain_member fs → NoDup (map fst (acc ++ fs)) →
  (2 * length (wrap_items (line_break gap (S d)) (map (print_member gap d) fs)) + 1 ≤ fuel)%nat →
  parse_members fuel acc
    (w ++ wrap_items (line_break gap (S d)) (map (print_member gap d) fs) ++ w2 ++ 125%N :: rest)
  = Some (VObj (acc ++ fs), rest).
Proof.
  assert (∀ acc k x r fuel w q,
    blank w → reads gap x → array_index k = None → k ∉ map fst acc → ends_number q →
    (2 * length (print_member gap d (k, x)) ≤ S fuel)%nat →
    skip_ws q = r → starts_token r →
    parse_members (S fuel) acc (w ++ print_member gap d (k, x) ++ q) =
    match r with
    | 44%N :: r => parse_members fuel (acc ++ [(k, x)]) r
    | 125%N :: q => Some (VObj (acc ++ [(k, x)]), q)
    | _ => None
    end) as Hone.
  { intros acc k x r fuel w q Hw Hx Hk Hfresh Hq Hf Hr Ht. subst r.
    unfold print_member, quote in *. cbn [fst snd] in *.
    rewrite !length_app in Hf. cbn [length] in Hf. rewrite !length_app in Hf. cbn [length] in Hf.
    cbn [parse_members]. rewrite <- !app_assoc. cbn [app].
    rewrite skip_ws_blank by done. cbn iota. rewrite <- !app_assoc. cbn [app].
    rewrite string_body_quote. cbn [mbind option_bind].
    assert (∃ u, blank u ∧ colon gap = 58%N :: u) as (u & Hu & ->).
    { destruct gap; [exists []|exists [32%N]]; (split; [by repeat constructor|done]). }
    cbn [app]. rewrite skip_ws_token by done. cbn iota.
    rewrite Hx by (done || lia). cbn [mbind option_bind].
    by rewrite set_own_fresh. }
  induction fs as [|[k x] [|kv fs] IH]; intros acc fuel w Hw Hw2 Hne Hl Hp Hnd Hf; [done| |].
  - apply Forall_cons in Hl as [Hx _]. apply Forall_cons in Hp as [[Hk _] _].
    cbn [map wrap_items fst snd] in *. destruct fuel as [|fuel]; [lia|].
    apply NoDup_snoc_fresh in Hnd.
    rewrite (Hone _ _ _ (125%N :: rest)); try done; [by apply ends_number_blank|lia|by rewrite skip_ws_blank].
  - apply Forall_cons in Hl as [Hx Hl]. apply Forall_cons in Hp as [[Hk _] Hp].
    set (items := map (print_member gap d) (kv :: fs)) in *.
    assert (wrap_items (line_break gap (S d)) (map (print_member gap d) ((k, x) :: kv :: fs))
      = print_member gap d (k, x) ++ 44%N :: line_break gap (S d)
        ++ wrap_items (line_break gap (S d)) items) as Hwrap by done.
    rewrite Hwrap in *. rewrite !length_app in Hf. cbn [length] in Hf. rewrite length_app in Hf.
    destruct fuel as [|fuel]; [lia|]. rewrite <- !app_assoc.
    pose proof (NoDup_snoc_fresh _ _ _ _ Hnd) as Hfresh.
    cbn [app]. erewrite (Hone acc k x); [|done|done|done|done| |lia|by apply skip_ws_token|];
      [|done..].
    cbn iota. rewrite <- !app_assoc, IH; try done; [by rewrite <- app_assoc|
      by apply blank_line_break|by rewrite <- app_assoc|subst items; lia].
Qed.

Lemma close_after_opens c w x q :
  blank w → json_ws x = false → x ≠ c → close_after c (w ++ x :: q) = None.
Proof.
  intros Hw Hx Hc. unfold close_after. rewrite skip_ws_blank by done.
  by rewrite (proj2 (N.eqb_neq x c)).
Qed.

Lemma wrap_items_head {A} (f : A → jstr) sep x l q :
  ∃ q', wrap_items sep (map f (x :: l)) ++ q = f x ++ q'.
Proof.
  destruct l as [|y l]; [by exists q|]. eexists.
  change (wrap_items sep (map f (x :: y :: l)))
    with (f x ++ 44%N :: sep ++ wrap_items sep (map f (y :: l))).
  by rewrite <- app_assoc.
Qed.

Lemma stringify_reads gap v : json_data v = true → reads gap v.
Proof.
  induction v as [| |b|n|s|l IHl|fs IHfs] using value_induct;
    intros Hv d fuel w rest Hw Hr Hf; (destruct fuel as [|fuel]; [|cbn [parse_value]]).
  all: try (destruct (stringify_opens gap d _ Hv) as (c & t & E & Hc); rewrite E in Hf;
            simpl in Hf; lia).
  - done.
  - by rewrite skip_ws_blank.
  - destruct b; by rewrite skip_ws_blank.
  - destruct (json_data_num n Hv) as (z & -> & Hz). cbn [stringify].
    destruct (print_num_parse z rest Hz Hr) as (c & t & -> & Hc & Hp).
    cbn [app] in *. destruct Hc as [->|Hc].
    + rewrite skip_ws_blank by done. simpl in Hp. by rewrite Hp.
    + case_digit Hc; rewrite skip_ws_blank by done; simpl in Hp; by rewrite Hp.
  - cbn [stringify]. unfold quote. cbn [app]. rewrite skip_ws_blank by done.
    cbn iota. rewrite <- app_assoc. cbn [app]. by rewrite string_body_quote.
  - rewrite stringify_arr in *. apply json_data_arr in Hv. destruct l as [|x l].
    { cbn. by rewrite skip_ws_blank. }
    set (l' := x :: l) in *. change (bracket gap d 91 93 (map (stringify gap (S d)) l')) with
      (91%N :: line_break gap (S d) ++ wrap_items (line_break gap (S d)) (map (stringify gap (S d)) l')
        ++ line_break gap d ++ [93%N]) in *.
    cbn [length] in Hf. rewrite !length_app in Hf. cbn [length] in Hf.
    cbn [app]. rewrite skip_ws_blank by done. cbn iota. rewrite <- !app_assoc. cbn [app].
    assert (close_after 93 (line_break gap (S d) ++ wrap_items (line_break gap (S d))
      (map (stringify gap (S d)) l') ++ line_break gap d ++ 93%N :: rest) = None) as ->.
    { subst l'. destruct (wrap_items_head (stringify gap (S d)) (line_break gap (S d)) x l
        (line_break gap d ++ 93%N :: rest)) as [q' ->].
      apply Forall_cons in Hv as [Hx _].
      destruct (stringify_opens gap (S d) x Hx) as (c & t & -> & Hc%opens_value_token).
      apply close_after_opens; [apply blank_line_break|naive_solver..]. }
    apply parse_elements_print; [apply blank_line_break..|done| |lia].
    apply Forall_forall. intros y Hy. rewrite Forall_forall in IHl, Hv. by apply IHl, Hv.
  - pose proof Hv as [Hnd Hp]%json_data_obj. rewrite stringify_obj in * by done.
    destruct fs as [|kv fs].
    { cbn. by rewrite skip_ws_blank. }
    set (fs' := kv :: fs) in *.
    change (bracket gap d 123 125 (map (print_member gap d) fs')) with
      (123%N :: line_break gap (S d) ++ wrap_items (line_break gap (S d)) (map (print_member gap d) fs')
        ++ line_break gap d ++ [125%N]) in *.
    cbn [length] in Hf. rewrite !length_app in Hf. cbn [length] in Hf.
    cbn [app]. rewrite skip_ws_blank by done. cbn iota. rewrite <- !app_assoc. cbn [app].
    assert (close_after 125 (line_break gap (S d) ++ wrap_items (line_break gap (S d))
      (map (print_member gap d) fs') ++ line_break gap d ++ 125%N :: rest) = None) as ->.
    { subst fs'. destruct (wrap_items_head (print_member gap d) (line_break gap (S d)) kv fs
        (line_break gap d ++ 125%N :: rest)) as [q' ->].
      by apply close_after_opens; [apply blank_line_break|..]. }
    apply parse_members_print; [apply blank_line_break..|done| |done|done|lia].
    apply Forall_forall. intros y Hy. rewrite Forall_forall in IHfs, Hp. by apply IHfs, Hp.
Qed.

(** [JSON.parse(JSON.stringify(v, null, gap))] is [v]. *)
Lemma json_parse_stringify gap v : json_data v = true → json_parse (stringify gap 0 v) = Ok v.
Proof.
  intros Hv. unfold json_parse.
  pose proof (stringify_reads gap v Hv 0%nat (S (2 * length (stringify gap 0 v))) [] []
    (Forall_nil_2 _) I ltac:(lia)) as H.
  rewrite app_nil_r in H. cbn [app] in H. by rewrite H.
Qed.

(** A trailing line feed, as the sources write it, is skipped. *)
Lemma json_parse_line gap v :
  json_data v = true → json_parse (stringify gap 0 v +++ [10%N]) = Ok v.
Proof.
  intros Hv. unfold json_parse, jcat.
  rewrite (stringify_reads gap v Hv 0%nat _ [] [10%N] (Forall_nil_2 _)); [done|done|].
  rewrite length_app. simpl. lia.
Qed.
