(* ===== verification/JsPath.v ===== *)
(** The parts of node:path (POSIX) and of Buffer's base64 and hexadecimal
    codecs that the operator tools use. *)

From S2P Require Import Prelude JsText.

Open Scope Z_scope.

(** ** node:path *)

Definition slash : N := 47%N.

Definition is_absolute (p : jstr) : bool :=
  match p with c :: _ => (c =? slash)%N | [] => false end.

(** normalizeString on the list of segments, the result reversed. *)
Fixpoint normalize_segments (above : bool) (acc : list jstr) (segs : list jstr) : list jstr :=
  match segs with
  | [] => acc
  | s :: segs' =>
      if bool_decide (s = []) || (s =s? js ".") then normalize_segments above acc segs'
      else if s =s? js ".." then
        match acc with
        | t :: acc' =>
            if t =s? js ".." then normalize_segments above (if above then s :: acc else acc) segs'
            else normalize_segments above acc' segs'
        | [] => normalize_segments above (if above then [s] else []) segs'
        end
      else normalize_segments above (s :: acc) segs'
  end.

Definition normalize_string (above : bool) (p : jstr) : jstr :=
  join [slash] (reverse (normalize_segments above [] (split_on slash p))).

(** [path.normalize(p)]. *)
Definition path_normalize (p : jstr) : jstr :=
  if bool_decide (p = []) then js "."
  else
    let abs := is_absolute p in
    let trailing := ends_with [slash] p in
    let q := normalize_string (negb abs) p in
    if bool_decide (q = []) then (if abs then js "/" else if trailing then js "./" else js ".")
    else
      let q := if trailing then q +++ [slash] else q in
      if abs then slash :: q else q.

(** [path.join(...parts)]. *)
Definition path_join (parts : list jstr) : jstr :=
  match List.filter (λ p, negb (bool_decide (p = []))) parts with
  | [] => js "."
  | ps => path_normalize (join [slash] ps)
  end.

(** [path.resolve(p)] with the given (absolute) working directory. *)
Definition path_resolve (cwd p : jstr) : jstr :=
  let full := if is_absolute p then p else cwd +++ [slash] +++ p in
  slash :: normalize_string false full.

(** [path.relative(from, to)] with the given working directory: up to what the
    resolved paths share, then down. *)
Definition path_segments (p : jstr) : list jstr :=
  List.filter (λ s, negb (bool_decide (s = []))) (split_on slash p).

Fixpoint relative_segments (from to : list jstr) : list jstr :=
  match from, to with
  | a :: from', b :: to' => if a =s? b then relative_segments from' to' else map (λ _, js "..") from ++ to
  | _, _ => map (λ _, js "..") from ++ to
  end.

Definition path_relative (cwd from to : jstr) : jstr :=
  join [slash] (relative_segments (path_segments (path_resolve cwd from)) (path_segments (path_resolve cwd to))).

(** [path.basename] and [path.extname] of a resolved path: the extension starts
    at the last dot of the base name, unless that is its first character. *)
Definition path_basename (p : jstr) : jstr := List.last (split_on slash p) [].

Definition path_extname (p : jstr) : jstr :=
  let base := path_basename p in
  match split_on 46%N base with
  | first :: (_ :: _) as parts =>
      if bool_decide (length parts = 2%nat ∧ first = []) then []
      else 46%N :: List.last parts []
  | _ => []
  end.

(** ** Base64 *)

Definition is_base64_char (c : N) : bool :=
  is_upper c || is_lower c || is_digit c || (c =? 43)%N || (c =? 47)%N.

Definition base64_value (c : N) : Z :=
  if is_upper c then Z.of_N c - 65
  else if is_lower c then Z.of_N c - 71
  else if is_digit c then Z.of_N c + 4
  else if (c =? 43)%N then 62 else 63.

Definition base64_char (z : Z) : N :=
  Z.to_N (if z <? 26 then 65 + z else if z <? 52 then 71 + z
          else if z <? 62 then z - 4 else if z =? 62 then 43 else 47).

(** The test of the padded base64 pattern. *)
Fixpoint is_base64_text (s : jstr) : bool :=
  match s with
  | [] => true
  | a :: b :: c :: d :: r =>
      is_base64_char a && is_base64_char b &&
      (if (d =? 61)%N then
         bool_decide (r = []) && (is_base64_char c || (c =? 61)%N)
       else is_base64_char c && is_base64_char d && is_base64_text r)
  | _ => false
  end.

(** [Buffer.from(s, "base64")] on text of that pattern. *)
Fixpoint base64_decode (s : jstr) : list Z :=
  match s with
  | a :: b :: c :: d :: r =>
      let x := base64_value a * 4 + base64_value b / 16 in
      if (c =? 61)%N then [x]
      else
        let y := (base64_value b mod 16) * 16 + base64_value c / 4 in
        if (d =? 61)%N then [x; y]
        else x :: y :: (base64_value c mod 4) * 64 + base64_value d :: base64_decode r
  | _ => []
  end.

(** [buffer.toString("base64")]. *)
Fixpoint base64_encode (l : list Z) : jstr :=
  match l with
  | [] => []
  | [x] => [base64_char (x / 4); base64_char (x mod 4 * 16); 61%N; 61%N]
  | [x; y] => [base64_char (x / 4); base64_char (x mod 4 * 16 + y / 16);
               base64_char (y mod 16 * 4); 61%N]
  | x :: y :: z :: r =>
      base64_char (x / 4) :: base64_char (x mod 4 * 16 + y / 16)
      :: base64_char (y mod 16 * 4 + z / 64) :: base64_char (z mod 64) :: base64_encode r
  end.

Lemma base64_char_ok z :
  0 ≤ z < 64 →
  is_base64_char (base64_char z) = true ∧ base64_value (base64_char z) = z
  ∧ (base64_char z =? 61)%N = false.
Proof.
  intros Hz.
  assert (forallb (λ n, let c := base64_char (Z.of_nat n) in
    is_base64_char c && (base64_value c =? Z.of_nat n) && negb (c =? 61)%N) (seq 0 64) = true)
    as Hall by by vm_compute.
  rewrite forallb_forall in Hall. specialize (Hall (Z.to_nat z)).
  rewrite Z2Nat.id in Hall by lia.
  assert (In (Z.to_nat z) (seq 0 64)) as Hin by (apply in_seq; lia).
  specialize (Hall Hin). cbv zeta in Hall. inv_bool. auto.
Qed.

(** Groups of three bytes. *)
Lemma bytes_induct (P : list Z → Prop) :
  P [] → (∀ x, P [x]) → (∀ x y, P [x; y]) → (∀ x y z l, P l → P (x :: y :: z :: l)) → ∀ l, P l.
Proof.
  intros H0 H1 H2 H3. fix IH 1. intros [|x [|y [|z l]]]; [done|apply H1|apply H2|].
  apply H3, IH.
Qed.

(** Collect and use the facts about every base64 character of the goal. *)
Ltac base64_facts :=
  unfold byte in *;
  repeat match goal with
  | |- context [base64_char ?z] =>
      lazymatch goal with
      | _ : is_base64_char (base64_char z) = true |- _ => fail
      | _ => destruct (base64_char_ok z) as (? & ? & ?); [Z.div_mod_to_equations; lia|]
      end
  end;
  repeat match goal with
  | H : is_base64_char (base64_char _) = true |- _ => try rewrite !H; clear H
  | H : base64_value (base64_char _) = _ |- _ => try rewrite !H; clear H
  | H : (base64_char _ =? 61)%N = false |- _ => try rewrite !H; clear H
  end.

Lemma base64_text_encode l : Forall byte l → is_base64_text (base64_encode l) = true.
Proof.
  induction l as [|x|x y|x y z l IH] using bytes_induct; intros Hl; [done|..];
    repeat (apply Forall_cons in Hl as [? Hl]); cbn [base64_encode is_base64_text];
    base64_facts; simpl; auto.
Qed.

Lemma base64_decode_encode l : Forall byte l → base64_decode (base64_encode l) = l.
Proof.
  induction l as [|x|x y|x y z l IH] using bytes_induct; intros Hl; [done|..];
    repeat (apply Forall_cons in Hl as [? Hl]); cbn [base64_encode base64_decode];
    base64_facts; simpl; rewrite ?(IH Hl); repeat f_equal; Z.div_mod_to_equations; lia.
Qed.

Lemma base64_value_range c : is_base64_char c = true → 0 ≤ base64_value c < 64.
Proof.
  unfold is_base64_char, base64_value, is_upper, is_lower, is_digit. intros H.
  destruct (in_range 65 90 c) eqn:E1; [apply in_range_spec in E1; lia|].
  destruct (in_range 97 122 c) eqn:E2; [apply in_range_spec in E2; lia|].
  destruct (in_range 48 57 c) eqn:E3; [apply in_range_spec in E3; lia|].
  destruct (c =? 43)%N; lia.
Qed.

Lemma base64_decode_bytes s : is_base64_text s = true → Forall byte (base64_decode s).
Proof.
  revert s. fix IH 1. intros [|a [|b [|c [|d s]]]]; try done. cbn [is_base64_text base64_decode].
  intros H. inv_bool.
  pose proof (base64_value_range a) as Ha. pose proof (base64_value_range b) as Hb.
  pose proof (base64_value_range c) as Hc. pose proof (base64_value_range d) as Hd.
  destruct (d =? 61)%N eqn:Ed; inv_bool.
  - destruct (c =? 61)%N eqn:Ec.
    + constructor; [|constructor]. unfold byte. Z.div_mod_to_equations. lia.
    + rewrite orb_false_r in *.
      repeat constructor; unfold byte; Z.div_mod_to_equations; lia.
  - assert ((c =? 61)%N = false) as ->.
    { destruct (N.eqb_spec c 61) as [->|]; [done|done]. }
    repeat (constructor; [unfold byte; Z.div_mod_to_equations; lia|]). by apply IH.
Qed.

Lemma base64_encode_length l :
  jlen (base64_encode l) = 4 * ((Z.of_nat (length l) + 2) / 3).
Proof.
  unfold jlen.
  induction l as [|x|x y|x y z l IH] using bytes_induct; [done..|].
  cbn [base64_encode length]. rewrite !Nat2Z.inj_succ.
  replace (Z.succ (Z.succ (Z.succ (Z.of_nat (length l)))) + 2)
    with (Z.of_nat (length l) + 2 + 1 * 3) by lia.
  rewrite Z.div_add by lia. lia.
Qed.

(** ** Upper-case hexadecimal *)

(** [buffer.toString("hex").toUpperCase()]. *)
Definition upper_hex (b : list Z) : jstr := to_upper (hex_of_bytes b).

Lemma upper_hex_digit z :
  0 ≤ z < 16 →
  is_upper_hex (upper_char (hex_digit z)) = true ∧ is_hex (upper_char (hex_digit z)) = true
  ∧ hex_value (upper_char (hex_digit z)) = z.
Proof.
  intros Hz.
  assert (z ∈ [0; 1; 2; 3; 4; 5; 6; 7; 8; 9; 10; 11; 12; 13; 14; 15]) as Hin.
  { repeat rewrite elem_of_cons. lia. }
  repeat (apply elem_of_cons in Hin as [->|Hin]; [by vm_compute|]).
  by apply elem_of_nil in Hin.
Qed.

Lemma bytes_of_upper_hex b :
  Forall byte b →
  bytes_of_hex (upper_hex b) = b ∧ forallb is_upper_hex (upper_hex b) = true
  ∧ length (upper_hex b) = (2 * length b)%nat.
Proof.
  induction 1 as [|x b Hx Hb IH]; [done|]. unfold byte in Hx.
  change (upper_hex (x :: b)) with
    (upper_char (hex_digit (x / 16)) :: upper_char (hex_digit (x mod 16)) :: upper_hex b).
  destruct IH as (IH1 & IH2 & IH3).
  destruct (upper_hex_digit (x / 16)) as (H1 & H2 & H3); [Z.div_mod_to_equations; lia|].
  destruct (upper_hex_digit (x mod 16)) as (H4 & H5 & H6); [Z.div_mod_to_equations; lia|].
  cbn [bytes_of_hex forallb length]. rewrite H1, H2, H3, H4, H5, H6, IH1, IH2, IH3.
  split_and!; [|done|lia]. simpl. f_equal. pose proof (Z.div_mod x 16 ltac:(lia)). lia.
Qed.

(** ** Joined paths

    Joined paths under an absolute directory keep their last two segments, which
    is enough to tell most files of a repository apart. *)

Lemma split_on_sep sep x y : split_on sep (x ++ sep :: y) = split_on sep x ++ split_on sep y.
Proof.
  induction x as [|c x IH]; cbn [app split_on]; [by rewrite N.eqb_refl|].
  destruct (c =? sep)%N; [by rewrite IH|]. rewrite IH.
  destruct (split_on_cons sep x) as (w & ws & ->). done.
Qed.

Lemma split_on_free sep s : Forall (λ x, sep ∉ x) (split_on sep s).
Proof.
  induction s as [|c s IH]; cbn [split_on]; [constructor; [by intros ?%elem_of_nil|constructor]|].
  destruct (N.eqb_spec c sep) as [->|Hc]; [constructor; [by intros ?%elem_of_nil|done]|].
  destruct (split_on_cons sep s) as (w & ws & E). rewrite E in *. apply Forall_cons in IH as [Hw Hws].
  constructor; [|done]. rewrite not_elem_of_cons. done.
Qed.

(** A segment that [path.normalize] keeps. *)
Definition clean (s : jstr) : bool :=
  negb (bool_decide (s = [])) && negb (s =s? js ".") && negb (s =s? js "..") && forallb (λ c, negb (c =? slash)%N) s.

Lemma clean_free s : clean s = true → slash ∉ s.
Proof.
  unfold clean. intros H Hin. inv_bool. match goal with H : forallb _ _ = true |- _ => apply forallb_spec in H;
    rewrite Forall_forall in H; by apply H in Hin end.
Qed.

Lemma normalize_segments_app above acc l k :
  normalize_segments above acc (l ++ k) = normalize_segments above (normalize_segments above acc l) k.
Proof.
  revert acc. induction l as [|s l IH]; intros acc; [done|]. cbn [app normalize_segments].
  destruct (bool_decide (s = []) || (s =s? js ".")); [done|]. destruct (s =s? js ".."); [|done].
  destruct acc as [|t acc]; [done|]. by destruct (t =s? js "..").
Qed.

Lemma normalize_segments_clean above acc s l :
  clean s = true → normalize_segments above acc (s :: l) = normalize_segments above (s :: acc) l.
Proof.
  unfold clean. rewrite !andb_true_iff, !negb_true_iff. intros [[[E1 E2] E3] _].
  cbn [normalize_segments]. by rewrite E1, E2, E3.
Qed.

Lemma normalize_segments_free above acc l :
  Forall (λ x, slash ∉ x) l → Forall (λ x, slash ∉ x) acc → Forall (λ x, slash ∉ x) (normalize_segments above acc l).
Proof.
  intros Hl. revert acc. induction Hl as [|s l Hs Hl IH]; intros acc Ha; [done|]. cbn [normalize_segments].
  destruct (bool_decide (s = []) || (s =s? js ".")); [auto|]. destruct (s =s? js "..").
  - destruct acc as [|t acc]; [destruct above; auto|]. apply Forall_cons in Ha as [Ht Ha].
    destruct (t =s? js ".."); [destruct above; auto|auto].
  - auto.
Qed.

(** The path has these two segments at its end. *)
Definition tail_of (p a b : jstr) : Prop :=
  ∃ segs, p = slash :: join [slash] (segs ++ [a; b]) ∧ Forall (λ x, slash ∉ x) (segs ++ [a; b]).

Lemma tail_of_inj p a b a' b' : tail_of p a b → tail_of p a' b' → a = a' ∧ b = b'.
Proof.
  intros (s & -> & Hs) (s' & [= H] & Hs').
  assert (s ++ [a; b] = s' ++ [a'; b']) as E.
  { rewrite <- (split_join slash (s ++ [a; b])), H, split_join; [done| |done| |done]; by destruct s, s' || destruct s. }
  by apply app_inj_2 in E as [_ [= -> ->]].
Qed.

Lemma join_snoc sep l x t : join [sep] (l ++ [x]) ++ t = join [sep] (l ++ [x ++ t]).
Proof.
  induction l as [|y l IH]; [done|]. destruct l as [|z l]; [cbn [app join]; unfold jcat; by rewrite <- !app_assoc|].
  change (join [sep] ((y :: z :: l) ++ [x])) with (y ++ [sep] ++ join [sep] ((z :: l) ++ [x])).
  change (join [sep] ((y :: z :: l) ++ [x ++ t])) with (y ++ [sep] ++ join [sep] ((z :: l) ++ [x ++ t])).
  by rewrite <- IH, <- !app_assoc.
Qed.

Lemma tail_of_append p a b t : slash ∉ t → tail_of p a b → tail_of (p ++ t) a (b ++ t).
Proof.
  intros Ht (s & -> & Hs). exists s. split.
  - cbn [app]. f_equal. change [a; b] with ([a] ++ [b]). change [a; b ++ t] with ([a] ++ [b ++ t]).
    by rewrite !app_assoc, join_snoc.
  - apply Forall_app in Hs as [Hs Hab]. apply Forall_app. split; [done|].
    apply Forall_cons in Hab as [Ha Hb]. apply Forall_cons in Hb as [Hb _].
    repeat constructor; [done|]. rewrite elem_of_app. naive_solver.
Qed.

Lemma last_clean_no_slash y a b : clean b = true → ends_with [slash] (y ++ slash :: a ++ slash :: b) = false.
Proof.
  intros Hb. apply not_true_iff_false. rewrite ends_with_spec. intros [r Hr].
  pose proof (clean_free b Hb) as Hf. assert (b ≠ []) as Hne by (intros ->; done).
  apply (f_equal reverse) in Hr. rewrite reverse_snoc in Hr. rewrite reverse_app, reverse_cons, reverse_app, reverse_cons in Hr.
  assert (∀ c, c ∈ reverse b → c ≠ slash) as Hc.
  { intros c Hin ->. rewrite elem_of_reverse in Hin. exact (Hf Hin). }
  destruct (reverse b) as [|c rb] eqn:E.
  { apply (f_equal reverse) in E. rewrite reverse_involutive in E. destruct (Hne E). }
  simplify_eq/=.
  by apply (Hc slash); [apply list_elem_of_here|].
Qed.

(** [path.join(root, rel)] under an absolute root. *)
Lemma path_join_tail root rel y a b :
  is_absolute root = true → rel ≠ [] → root ++ slash :: rel = y ++ slash :: a ++ slash :: b →
  clean a = true → clean b = true → tail_of (path_join [root; rel]) a b.
Proof.
  intros Hr Hrel Heq Ha Hb. assert (root ≠ []) as Hne by (by intros ->).
  assert (path_join [root; rel] = path_normalize (y ++ slash :: a ++ slash :: b)) as ->.
  { rewrite <- Heq. unfold path_join. cbn [List.filter]. by rewrite !bool_decide_eq_false_2. }
  assert (is_absolute (y ++ slash :: a ++ slash :: b) = true) as Habs by (rewrite <- Heq; by destruct root).
  unfold path_normalize. rewrite bool_decide_eq_false_2 by by destruct y. rewrite Habs.
  rewrite last_clean_no_slash by done. unfold normalize_string. cbn [negb].
  rewrite split_on_sep, split_on_sep, normalize_segments_app.
  rewrite (split_on_line slash a), (split_on_line slash b) by by apply clean_free.
  cbn [app]. rewrite !normalize_segments_clean by done. cbn [normalize_segments].
  set (acc := normalize_segments false [] (split_on slash y)).
  assert (Forall (λ x, slash ∉ x) acc) as Hacc by (apply normalize_segments_free; [apply split_on_free|constructor]).
  rewrite !reverse_cons, <- app_assoc. cbn [app].
  rewrite bool_decide_eq_false_2.
  - exists (reverse acc). split; [done|]. apply Forall_app. split; [by apply Forall_reverse|].
    repeat constructor; by apply clean_free.
  - intros E. apply (f_equal (split_on slash)) in E. rewrite split_join in E; [|by destruct (reverse acc)|].
    + apply (f_equal length) in E. rewrite length_app in E. simpl in E. lia.
    + apply Forall_app. split; [by apply Forall_reverse|]. repeat constructor; by apply clean_free.
Qed.
