(* ===== verification/JsOps.v ===== *)
(** Operators and built-ins shared by the services: [+] and [>=] on values,
    [Math.max], object literals and spread, [padEnd], [replaceAll] on one
    character, and [toUpperCase] in reports. *)

From S2P Require Import Prelude JsNum JsText JsValue JsonText.

Open Scope Z_scope.

(** A property of an object literal. *)
Definition prop_ (k : string) (v : value) : jstr * value := (js k, v).
Infix ":=:" := prop_ (at level 68, no associativity) : js_scope.

(** Text and number literals as values. *)
Definition vs (s : string) : value := VStr (js s).
Definition vi (z : Z) : value := VNum (NInt z).

Definition is_text_like (v : value) : bool :=
  match v with VStr _ | VArr _ | VObj _ => true | _ => false end.

(** [a + b]: concatenation when an operand is a string or an object. *)
Definition js_add (a b : value) : value :=
  if is_text_like a || is_text_like b then VStr (to_string a +++ to_string b)
  else VNum (num_add (to_number a) (to_number b)).

(** [a >= b] and [a > b]: by code units when both operands are strings or
    objects, numerically otherwise. *)
Definition js_ge (a b : value) : bool :=
  if is_text_like a && is_text_like b then jstr_leb (to_string b) (to_string a)
  else num_leb (to_number b) (to_number a).
Definition js_gt (a b : value) : bool :=
  if is_text_like a && is_text_like b then negb (jstr_leb (to_string a) (to_string b))
  else num_ltb (to_number b) (to_number a).

(** [Math.max] of two numbers, the first of which is not -0. *)
Definition num_max (a b : num) : num :=
  match a, b with
  | NaN, _ | _, NaN => NaN
  | _, _ => if num_ltb a b then b else a
  end.

(** [{ ...v, k: w }]. *)
Definition with_field (v : value) (k : jstr) (w : value) : value :=
  match v with VObj fs => VObj (set_own k w fs) | _ => VObj [(k, w)] end.

(** [s.padEnd(n)]. *)
Definition pad_end (n : nat) (s : jstr) : jstr := s ++ repeat 32%N (n - length s).

(** [s.replaceAll(c, r)] for a one-unit [c]. *)
Definition replace_char (c : N) (r s : jstr) : jstr := s ≫= λ x, if (x =? c)%N then r else [x].

(** [cond ? a : b] on strings, and [v ?? "unavailable"] in a template. *)
Definition or_unavailable (v : value) : jstr :=
  if is_nullish v then js "unavailable" else to_string v.

(** [v.map(f)] and the other array methods throw on anything but an array. *)
Definition as_array (v : value) : result (list value) :=
  match v with VArr l => Ok l | _ => type_error (js "not an array") end.

(** The first element for which the (throwing) test is truthy. *)
Fixpoint find_res (f : value → result bool) (l : list value) : result value :=
  match l with
  | [] => Ok VUndef
  | x :: l' => b ← f x; if b : bool then Ok x else find_res f l'
  end.

(** Standard output, standard error and exit code of the process. *)
Record process_outcome := Process { stdout : jstr; stderr : jstr; exitCode : Z }.

Lemma js_add_int a b x y :
  num_int a = Some x → num_int b = Some y → Z.abs (x + y) ≤ max_safe →
  ∃ n, js_add (VNum a) (VNum b) = VNum n ∧ num_int n = Some (x + y).
Proof.
  intros Ha Hb Hs. unfold js_add. simpl. eexists. split; [done|].
  eapply num_add_int; try done. unfold max_safe in Hs. lia.
Qed.
