(* ===== verification/JsUtf8.v ===== *)
(** Buffer's UTF-8 codec: [Buffer.from(s, "utf8")] and [buffer.toString("utf8")]
    with replacement characters for malformed input. *)

From S2P Require Import Prelude JsText JsonText.

Open Scope Z_scope.

(** The bytes of a code point. *)
Definition utf8_point (c : Z) : list Z :=
  if c <? 128 then [c]
  else if c <? 2048 then [192 + c / 64; 128 + c mod 64]
  else if c <? 65536 then [224 + c / 4096; 128 + c / 64 mod 64; 128 + c mod 64]
  else [240 + c / 262144; 128 + c / 4096 mod 64; 128 + c / 64 mod 64; 128 + c mod 64].

Definition replacement : Z := 65533.

Definition surrogate_point (h l : N) : Z := 65536 + (Z.of_N h - 55296) * 1024 + (Z.of_N l - 56320).

Definition lone_point (c : N) : Z :=
  if is_high c || is_low c then replacement else Z.of_N c.

(** [Buffer.from(s, "utf8")]: lone surrogates become U+FFFD. *)
Fixpoint utf8_encode (s : jstr) : list Z :=
  match s with
  | [] => []
  | h :: ((l :: s') as r) =>
      if is_high h && is_low l then utf8_point (surrogate_point h l) ++ utf8_encode s'
      else utf8_point (lone_point h) ++ utf8_encode r
  | [h] => utf8_point (lone_point h)
  end.

(** The UTF-16 code units of a code point. *)
Definition units_of (c : Z) : jstr :=
  if c <? 65536 then [Z.to_N c]
  else [Z.to_N (55296 + (c - 65536) / 1024); Z.to_N (56320 + (c - 65536) mod 1024)].

(** A started sequence: continuation bytes needed, the bits so far, and the
    range of the next byte. *)
Record pending := Pending { needed : nat; bits : Z; lower : Z; upper : Z }.

(** The first byte of a sequence: what it emits and what it starts. *)
Definition first_byte (b : Z) : jstr * option pending :=
  if b <? 128 then ([Z.to_N b], None)
  else if (194 <=? b) && (b <=? 223) then ([], Some (Pending 1 (b - 192) 128 191))
  else if (224 <=? b) && (b <=? 239) then
    ([], Some (Pending 2 (b - 224) (if b =? 224 then 160 else 128) (if b =? 237 then 159 else 191)))
  else if (240 <=? b) && (b <=? 244) then
    ([], Some (Pending 3 (b - 240) (if b =? 240 then 144 else 128) (if b =? 244 then 143 else 191)))
  else ([Z.to_N replacement], None).

Fixpoint utf8_run (state : option pending) (l : list Z) : jstr :=
  match l with
  | [] => match state with None => [] | Some _ => [Z.to_N replacement] end
  | b :: l' =>
      match state with
      | None => let '(out, next) := first_byte b in out ++ utf8_run next l'
      | Some p =>
          if (lower p <=? b) && (b <=? upper p) then
            let c := bits p * 64 + (b - 128) in
            match needed p with
            | S (S n) => utf8_run (Some (Pending (S n) c 128 191)) l'
            | _ => units_of c ++ utf8_run None l'
            end
          else
            let '(out, next) := first_byte b in Z.to_N replacement :: out ++ utf8_run next l'
      end
  end.

(** [buffer.toString("utf8")]. *)
Definition utf8_decode (l : list Z) : jstr := utf8_run None l.

(** ** Decoding what was encoded *)

(** A Unicode scalar value. *)
Definition scalar (c : Z) : Prop := 0 ≤ c < 55296 ∨ 57344 ≤ c < 1114112.

Lemma utf8_run_point c r : scalar c → utf8_run None (utf8_point c ++ r) = units_of c ++ utf8_run None r.
Proof.
  unfold scalar. intros Hc. unfold utf8_point.
  destruct (Z.ltb_spec c 128) as [H1|H1].
  { cbn [app utf8_run]. unfold first_byte. replace (c <? 128) with true by lia.
    unfold units_of. by replace (c <? 65536) with true by lia. }
  destruct (Z.ltb_spec c 2048) as [H2|H2].
  { pose proof (Z.div_mod c 64 ltac:(lia)). pose proof (Z.mod_pos_bound c 64 ltac:(lia)).
    assert (2 ≤ c / 64 < 32) by lia. cbn [app utf8_run]. unfold first_byte.
    replace (192 + c / 64 <? 128) with false by lia.
    replace ((194 <=? 192 + c / 64) && (192 + c / 64 <=? 223)) with true by lia.
    cbn [app utf8_run lower upper bits needed].
    replace ((128 <=? 128 + c mod 64) && (128 + c mod 64 <=? 191)) with true by lia.
    do 2 f_equal. lia. }
  destruct (Z.ltb_spec c 65536) as [H3|H3].
  { pose proof (Z.div_mod c 64 ltac:(lia)). pose proof (Z.mod_pos_bound c 64 ltac:(lia)).
    assert (c / 4096 = c / 64 / 64) as -> by (rewrite Z.div_div by lia; done).
    pose proof (Z.div_mod (c / 64) 64 ltac:(lia)). pose proof (Z.mod_pos_bound (c / 64) 64 ltac:(lia)).
    set (x := c / 64 / 64) in *. set (y := c / 64 mod 64) in *. set (z := c mod 64) in *.
    assert (0 ≤ x < 16) by lia. cbn [app utf8_run]. unfold first_byte.
    replace (224 + x <? 128) with false by lia.
    replace ((194 <=? 224 + x) && (224 + x <=? 223)) with false by lia.
    replace ((224 <=? 224 + x) && (224 + x <=? 239)) with true by lia.
    cbn [app utf8_run lower upper bits needed].
    replace (((if 224 + x =? 224 then 160 else 128) <=? 128 + y)
      && (128 + y <=? (if 224 + x =? 237 then 159 else 191))) with true.
    2:{ symmetry. destruct (Z.eqb_spec (224 + x) 224), (Z.eqb_spec (224 + x) 237); lia. }
    cbn [utf8_run lower upper bits needed].
    replace ((128 <=? 128 + z) && (128 + z <=? 191)) with true by lia.
    do 2 f_equal. lia. }
  pose proof (Z.div_mod c 64 ltac:(lia)). pose proof (Z.mod_pos_bound c 64 ltac:(lia)).
  assert (c / 4096 = c / 64 / 64) as -> by (rewrite Z.div_div by lia; done).
  assert (c / 262144 = c / 64 / 64 / 64) as -> by (rewrite !Z.div_div by lia; done).
  pose proof (Z.div_mod (c / 64) 64 ltac:(lia)). pose proof (Z.mod_pos_bound (c / 64) 64 ltac:(lia)).
  pose proof (Z.div_mod (c / 64 / 64) 64 ltac:(lia)).
  pose proof (Z.mod_pos_bound (c / 64 / 64) 64 ltac:(lia)).
  set (w := c / 64 / 64 / 64) in *. set (x := c / 64 / 64 mod 64) in *.
  set (y := c / 64 mod 64) in *. set (z := c mod 64) in *.
  assert (0 ≤ w < 5) by lia. cbn [app utf8_run]. unfold first_byte.
  replace (240 + w <? 128) with false by lia.
  replace ((194 <=? 240 + w) && (240 + w <=? 223)) with false by lia.
  replace ((224 <=? 240 + w) && (240 + w <=? 239)) with false by lia.
  replace ((240 <=? 240 + w) && (240 + w <=? 244)) with true by lia.
  cbn [app utf8_run lower upper bits needed].
  replace (((if 240 + w =? 240 then 144 else 128) <=? 128 + x)
    && (128 + x <=? (if 240 + w =? 244 then 143 else 191))) with true.
  2:{ symmetry. destruct (Z.eqb_spec (240 + w) 240), (Z.eqb_spec (240 + w) 244); lia. }
  cbn [utf8_run lower upper bits needed].
  replace ((128 <=? 128 + y) && (128 + y <=? 191)) with true by lia.
  cbn [utf8_run lower upper bits needed].
  replace ((128 <=? 128 + z) && (128 + z <=? 191)) with true by lia.
  do 2 f_equal. lia.
Qed.

(** Well-formed UTF-16 text. *)
Fixpoint well_formed (s : jstr) : bool :=
  match s with
  | [] => true
  | h :: ((l :: s') as r) =>
      if is_high h && is_low l then well_formed s'
      else negb (is_high h || is_low h) && (h <? 65536)%N && well_formed r
  | [h] => negb (is_high h || is_low h) && (h <? 65536)%N
  end.

Lemma units_of_surrogates h l :
  is_high h = true → is_low l = true →
  scalar (surrogate_point h l) ∧ units_of (surrogate_point h l) = [h; l].
Proof.
  unfold is_high, is_low, surrogate_point, units_of, scalar. rewrite !in_range_spec. intros Hh Hl.
  set (x := Z.of_N h - 55296). set (y := Z.of_N l - 56320).
  assert (0 ≤ x < 1024 ∧ 0 ≤ y < 1024) as [Hx Hy] by lia. split; [lia|].
  replace (65536 + x * 1024 + y <? 65536) with false by lia.
  replace (65536 + x * 1024 + y - 65536) with (y + x * 1024) by lia.
  rewrite Z.div_add, Z.mod_add, Z.div_small, Z.mod_small by lia.
  repeat f_equal; lia.
Qed.

Lemma units_of_lone c :
  negb (is_high c || is_low c) && (c <? 65536)%N = true →
  scalar (lone_point c) ∧ units_of (lone_point c) = [c].
Proof.
  intros H. apply andb_true_iff in H as [Hs Hc]. apply negb_true_iff in Hs.
  apply N.ltb_lt in Hc. unfold lone_point. rewrite Hs. apply orb_false_iff in Hs as [Hh Hl].
  unfold is_high, is_low in *. apply not_true_iff_false in Hh, Hl.
  rewrite in_range_spec in Hh, Hl. unfold scalar, units_of. split; [lia|].
  replace (Z.of_N c <? 65536) with true by lia. by rewrite N2Z.id.
Qed.

(** Encoding then decoding well-formed text returns it. *)
Lemma utf8_decode_encode s : well_formed s = true → utf8_decode (utf8_encode s) = s.
Proof.
  unfold utf8_decode. remember (length s) as n eqn:Hn. revert s Hn.
  induction (lt_wf n) as [n _ IH]; intros s Hn Hs. destruct s as [|h [|l s]]; [done| |].
  - destruct (units_of_lone h Hs) as [Hc Hu]. cbn [utf8_encode].
    rewrite <- (app_nil_r (utf8_point _)), utf8_run_point, Hu by done. done.
  - change (utf8_encode (h :: l :: s)) with (if is_high h && is_low l
      then utf8_point (surrogate_point h l) ++ utf8_encode s
      else utf8_point (lone_point h) ++ utf8_encode (l :: s)).
    change (well_formed (h :: l :: s)) with (if is_high h && is_low l then well_formed s
      else negb (is_high h || is_low h) && (h <? 65536)%N && well_formed (l :: s)) in Hs.
    destruct (is_high h && is_low l) eqn:E.
    + apply andb_true_iff in E as [Hh Hl]. destruct (units_of_surrogates h l Hh Hl) as [Hc Hu].
      rewrite utf8_run_point, Hu, (IH (length s)) by (simpl in *; done || lia). done.
    + apply andb_true_iff in Hs as [Hh Hs]. destruct (units_of_lone h Hh) as [Hc Hu].
      rewrite utf8_run_point, Hu, (IH (length (l :: s))) by (simpl in *; done || lia). done.
Qed.
