(* ===== verification/RewardTree.v ===== *)
(** The Merkle-sum tree of contracts/scripts/generate-reward-fixture.mjs:
    claim parsing and normalisation, the complete 2n-1 array tree with its
    proofs, the fixture record, and the on-chain verifier of
    contracts/src/rewards/ToriumRewardDistributor.sol that consumes them. *)

From S2P Require Import Prelude JsNum JsText JsValue.

Open Scope Z_scope.

(** ** Data *)

Definition UINT256_MAX : Z := Z.shiftl 1 256 - 1.
Definition CLAIM_KEYS : list jstr := [js "index"; js "account"; js "amount"].

(** A normalised claim ([{ index, account, amount }]). *)
Record claim := Claim { index : Z; account : jstr; amount : Z }.

(** A tree node: its hash as "0x" hexadecimal text and its sum. *)
Record node := Node { hash : jstr; sum : Z }.

Record leaf := Leaf { leaf_claim : claim; leaf_node : node }.

(** Static ABI types and values as they are handed to viem. *)
Inductive abi_type := TUint256 | TAddress | TBytes32 | TUint32.
Inductive abi_value := AUint (z : Z) | AAddress (s : jstr) | ABytes32 (s : jstr).
Record abi_parameter := AbiParameter { abi_name : jstr; abi_ty : abi_type }.

Definition LEAF_PARAMETERS : list abi_parameter :=
  [ AbiParameter (js "epochId") TUint256; AbiParameter (js "index") TUint256;
    AbiParameter (js "account") TAddress; AbiParameter (js "amount") TUint256 ].

Definition NODE_PARAMETERS : list abi_parameter :=
  [ AbiParameter (js "leftHash") TBytes32; AbiParameter (js "leftSum") TUint256;
    AbiParameter (js "rightHash") TBytes32; AbiParameter (js "rightSum") TUint256 ].

(** ** Claim parsing *)

Definition parseUint256 (v : value) (label : jstr) (positive : bool) : result Z :=
  decimal ← match v with
            | VNum n =>
                if negb (is_safe_integer n) || num_ltb n (NInt 0) then
                  error (label +++ js " must be a safe nonnegative integer or canonical decimal string")
                else Ok (num_to_string n)
            | VStr s =>
                if is_canonical_dec s then Ok s
                else error (label +++ js " must be a canonical nonnegative decimal uint256")
            | _ => error (label +++ js " must be a canonical nonnegative decimal uint256")
            end;
  parsed ← to_bigint (VStr decimal);
  throw_if (UINT256_MAX <? parsed) (label +++ js " exceeds uint256");;
  throw_if (positive && (parsed =? 0)) (label +++ js " must be positive");;
  Ok parsed.

(** The pattern of an address: "0x" and forty hexadecimal digits. *)
Definition is_address_text (s : jstr) : bool :=
  match s with
  | 48%N :: 120%N :: ds => Nat.eqb (length ds) 40 && forallb is_hex ds
  | _ => false
  end.

(** The pattern of the zero address, in either letter case of the prefix when
    [ignore_case] is set. *)
Definition is_zero_address_text (ignore_case : bool) (s : jstr) : bool :=
  match s with
  | 48%N :: x :: ds =>
      ((x =? 120)%N || (ignore_case && (x =? 88)%N))
      && Nat.eqb (length ds) 40 && forallb (λ c, (c =? 48)%N) ds
  | _ => false
  end.

(** [isPlainObject]: every object value here is a plain object. *)
Definition isPlainObject (v : value) : bool := is_object v.

Definition validateExactKeys (v : value) (allowed : list jstr) (label : jstr) : result unit :=
  for_each (λ key, throw_if (negb (jmem key allowed)) (label +++ js "." +++ key +++ js " is not allowed"))
           (keys v);;
  for_each (λ key, throw_if (negb (has_own v key)) (label +++ js "." +++ key +++ js " is required"))
           allowed.

Section viem.
(** viem, which is not under src/: [keccak256], [encodeAbiParameters], and
    the address helpers ([getAddress] returns [None] where it throws). *)
Context (keccak256 : jstr → jstr).
Context (encodeAbiParameters : list abi_parameter → list abi_value → jstr).
Context (isAddress : jstr → bool).
Context (getAddress : jstr → option jstr).

Definition parseAddress (v : value) (label : jstr) (nonzero : bool) : result jstr :=
  throw_if (negb (is_string v) || negb (is_address_text (v_str v)))
           (label +++ js " must be a valid EVM address");;
  let s := v_str v in
  throw_if (negb (isAddress s)) (label +++ js " has an invalid EIP-55 checksum");;
  let zero_message := label +++ js " must not be the zero address" in
  catch
    (address ← match getAddress s with
               | Some a => Ok a
               | None => error (js "InvalidAddressError")
               end;
     throw_if (nonzero && is_zero_address_text false address) zero_message;;
     Ok address)
    (λ e,
      throw_if (nonzero && is_zero_address_text true s) zero_message;;
      if exn_message e =s? zero_message then Throw e
      else error (label +++ js " has an invalid EIP-55 checksum")).

(** One claim of the input array, with the sets of keys seen so far. *)
Definition normalizeClaim (seen : list jstr * list jstr) (position : nat) (v : value)
    : result ((list jstr * list jstr) * claim) :=
  let '(indexes, accounts) := seen in
  let label := js "claim[" +++ dec_of_Z (Z.of_nat position) +++ js "]" in
  throw_if (negb (isPlainObject v)) (label +++ js " must be an object");;
  validateExactKeys v CLAIM_KEYS label;;
  index ← parseUint256 (field v (js "index")) (label +++ js ".index") false;
  account ← parseAddress (field v (js "account")) (label +++ js ".account") true;
  amount ← parseUint256 (field v (js "amount")) (label +++ js ".amount") true;
  let indexKey := dec_of_Z index in
  let accountKey := to_lower account in
  throw_if (jmem indexKey indexes) (label +++ js ".index duplicates index " +++ indexKey);;
  throw_if (jmem accountKey accounts) (label +++ js ".account duplicates account " +++ account);;
  Ok ((indexKey :: indexes, accountKey :: accounts), Claim index account amount).

Fixpoint normalizeFrom (seen : list jstr * list jstr) (position : nat) (l : list value)
    : result (list claim) :=
  match l with
  | [] => Ok []
  | v :: l' =>
      '(seen', c) ← normalizeClaim seen position v;
      cs ← normalizeFrom seen' (S position) l';
      Ok (c :: cs)
  end.

Definition index_le (a b : claim) : Prop := index a ≤ index b.
#[global] Instance index_le_dec : RelDecision index_le.
Proof. intros a b. unfold index_le. apply _. Defined.

(** [normalizeClaims]: the indices are distinct, so the stable sort by index
    is the sort by index. *)
Definition normalizeClaims (claims : list value) : result (list claim) :=
  throw_if (Nat.eqb (length claims) 0) (js "input must contain at least one claim");;
  normalized ← normalizeFrom ([], []) 0 claims;
  Ok (merge_sort index_le normalized).

(** ** Hashing *)

Definition leafHash (epochId : Z) (c : claim) : jstr :=
  keccak256 (encodeAbiParameters LEAF_PARAMETERS
               [AUint epochId; AUint (index c); AAddress (account c); AUint (amount c)]).

(** [Buffer.from(value.slice(2), "hex")]. *)
Definition hexBytes (s : jstr) : list Z := bytes_of_hex (drop 2 s).

Definition compareHash (left right : jstr) : Z := compare_bytes (hexBytes left) (hexBytes right).

Definition checkedAdd (left right : Z) (label : jstr) : result Z :=
  let value := left + right in
  throw_if (UINT256_MAX <? value) (label +++ js " exceeds uint256");;
  Ok value.

Definition combine (first second : node) : result node :=
  let order := compareHash (hash first) (hash second) in
  throw_if ((order =? 0) && negb (sum first =? sum second))
           (js "ambiguous equal node hashes carry different sums");;
  let '(l, r) := if order <=? 0 then (first, second) else (second, first) in
  total ← checkedAdd (sum l) (sum r) (js "Merkle parent sum");
  Ok (Node (keccak256 (encodeAbiParameters NODE_PARAMETERS
                         [ABytes32 (hash l); AUint (sum l);
                          ABytes32 (hash r); AUint (sum r)])) total).

(** ** The tree *)

Definition hash_le (a b : leaf) : Prop :=
  compareHash (hash (leaf_node a)) (hash (leaf_node b)) ≤ 0.
#[global] Instance hash_le_dec : RelDecision hash_le.
Proof. intros a b. unfold hash_le. apply _. Defined.

(** The scan for equal neighbours after sorting. *)
Fixpoint adjacent_distinct (l : list leaf) : bool :=
  match l with
  | a :: (b :: _) as l' =>
      negb (hash (leaf_node a) =s? hash (leaf_node b)) && adjacent_distinct l'
  | _ => true
  end.

(** The JavaScript array under construction: [None] is a hole. *)
Abbreviation array := (list (option node)).

Definition at_ (tree : array) (i : nat) : option node := mjoin (tree !! i).

(** [combine(tree[2i+1], tree[2i+2])]; a hole is [undefined], whose [hash]
    cannot be read. *)
Definition combine_at (tree : array) (i : nat) : result node :=
  match at_ tree (2 * i + 1), at_ tree (2 * i + 2) with
  | Some a, Some b => combine a b
  | _, _ => type_error (js "Cannot read properties of undefined")
  end.

(** [for (const [position, leaf] of sorted.entries())]: leaves fill the
    array from its end; the map sends a claim index to its tree index. *)
Fixpoint place_leaves (position : nat) (l : list leaf) (tree : array) (indexes : gmap jstr nat)
    : array * gmap jstr nat :=
  match l with
  | [] => (tree, indexes)
  | x :: l' =>
      let treeIndex := (length tree - 1 - position)%nat in
      place_leaves (S position) l' (<[treeIndex := Some (leaf_node x)]> tree)
                   (<[dec_of_Z (index (leaf_claim x)) := treeIndex]> indexes)
  end.

(** [for (let index = k - 1; index >= 0; index -= 1)]. *)
Fixpoint fill_parents (k : nat) (tree : array) : result array :=
  match k with
  | O => Ok tree
  | S i =>
      parent ← combine_at tree i;
      fill_parents i (<[i := Some parent]> tree)
  end.

Definition sibling_index (i : nat) : nat := if Nat.even i then (i - 1)%nat else (i + 1)%nat.
Definition parent_index (i : nat) : nat := ((i - 1) / 2)%nat.

(** [while (index > 0)]: the siblings from a tree index up to the root.  The
    index strictly decreases, so the index itself is enough fuel. *)
Fixpoint proof_from (fuel : nat) (tree : array) (i : nat) : list (option node) :=
  match fuel with
  | O => []
  | S f =>
      match i with
      | O => []
      | S _ => at_ tree (sibling_index i) :: proof_from f tree (parent_index i)
      end
  end.

Record sum_tree := SumTree { root : option node; proofs : gmap jstr (list (option node)) }.

Fixpoint collect_proofs (tree : array) (indexes : gmap jstr nat) (l : list leaf)
    (acc : gmap jstr (list (option node))) : gmap jstr (list (option node)) :=
  match l with
  | [] => acc
  | x :: l' =>
      let key := dec_of_Z (index (leaf_claim x)) in
      let i := default 0%nat (indexes !! key) in
      collect_proofs tree indexes l' (<[key := proof_from i tree i]> acc)
  end.

Definition buildMerkleSumTree (leaves : list leaf) : result sum_tree :=
  let sorted := merge_sort hash_le leaves in
  throw_if (negb (adjacent_distinct sorted))
           (js "distinct claims produced an ambiguous duplicate leaf hash");;
  match length sorted with
  | O => range_error (js "Invalid array length")
  | S m =>
      let '(tree, indexes) := place_leaves 0 sorted (replicate (2 * S m - 1) None) ∅ in
      tree ← fill_parents m tree;
      Ok (SumTree (at_ tree 0) (collect_proofs tree indexes leaves ∅))
  end.

(** ** The fixture *)

Definition make_leaves (epochId : Z) (claims : list claim) : list leaf :=
  map (λ c, Leaf c (Node (leafHash epochId c) (amount c))) claims.

Definition proof_entry (sibling : option node) : result value :=
  match sibling with
  | Some n => Ok (VObj [(js "hash", VStr (hash n)); (js "sum", VStr (dec_of_Z (sum n)))])
  | None => type_error (js "Cannot read properties of undefined")
  end.

Definition claim_entry (t : sum_tree) (x : leaf) : result value :=
  let c := leaf_claim x in
  match proofs t !! dec_of_Z (index c) with
  | None => type_error (js "Cannot read properties of undefined")
  | Some p =>
      entries ← map_res proof_entry p;
      Ok (VObj [ (js "index", VStr (dec_of_Z (index c)));
                 (js "account", VStr (account c));
                 (js "amount", VStr (dec_of_Z (amount c)));
                 (js "leafHash", VStr (hash (leaf_node x)));
                 (js "leafSum", VStr (dec_of_Z (sum (leaf_node x))));
                 (js "proof", VArr entries) ])
  end.

Definition strs (l : list jstr) : value := VArr (map VStr l).

Definition treeFormat : value :=
  VObj [ (js "id", VStr (js "torium-merkle-sum-v1"));
         (js "leafFields", strs [js "epochId"; js "index"; js "account"; js "amount"]);
         (js "leafTypes", strs [js "uint256"; js "uint256"; js "address"; js "uint256"]);
         (js "leafHash", VStr (js "keccak256(abi.encode(uint256 epochId,uint256 index,address account,uint256 amount))"));
         (js "leafSum", VStr (js "amount"));
         (js "leafOrdering", VStr (js "hash-ascending"));
         (js "pairOrdering", VStr (js "hash-ascending"));
         (js "parentFields", strs [js "leftHash"; js "leftSum"; js "rightHash"; js "rightSum"]);
         (js "parentTypes", strs [js "bytes32"; js "uint256"; js "bytes32"; js "uint256"]);
         (js "parentHash", VStr (js "keccak256(abi.encode(bytes32 leftHash,uint256 leftSum,bytes32 rightHash,uint256 rightSum))"));
         (js "parentSum", VStr (js "checked-leftSum-plus-rightSum"));
         (js "treeLayout", VStr (js "complete-2n-minus-1")) ].

Definition buildFixture (epochId : Z) (claims : list claim) : result value :=
  let leaves := make_leaves epochId claims in
  t ← buildMerkleSumTree leaves;
  match root t with
  | None => type_error (js "Cannot read properties of undefined")
  | Some r =>
      entries ← map_res (claim_entry t) leaves;
      Ok (VObj [ (js "schemaVersion", VNum (NInt 1));
                 (js "generatedBy", VStr (js "contracts/scripts/generate-reward-fixture.mjs"));
                 (js "treeFormat", treeFormat);
                 (js "epochId", VStr (dec_of_Z epochId));
                 (js "merkleRoot", VStr (hash r));
                 (js "rootSum", VStr (dec_of_Z (sum r)));
                 (js "claimCount", VNum (NInt (Z.of_nat (length claims))));
                 (js "claims", VArr entries) ])
  end.
End viem.

(** ** The verifier of ToriumRewardDistributor.sol *)

(** A 32-byte big-endian word. *)
Fixpoint be_word (n : nat) (z : Z) : list Z :=
  match n with
  | O => []
  | S n' => be_word n' (z / 256) ++ [z mod 256]
  end.

(** [abi.encode] of static values: one word each. *)
Definition abi_word (v : abi_value) : list Z :=
  match v with
  | AUint z => be_word 32 z
  | AAddress s => replicate 12 0 ++ hexBytes s
  | ABytes32 s => hexBytes s
  end.

(** The value of a bytes32 as an unsigned integer, what Solidity's [<]
    compares. *)
Definition be_value (b : list Z) : Z := fold_left (λ a x, 256 * a + x) b 0.

Record ProofNode := MkProofNode { nodeHash : list Z; node_sum : Z }.

Section contract.
(** The EVM's keccak256 over bytes. *)
Context (evm_keccak256 : list Z → list Z).

(** [leafHash] of the contract; [None] is a revert. *)
Definition sol_leafHash (epochId index : Z) (account : jstr) (amount : Z) : list Z :=
  evm_keccak256 (be_word 32 epochId ++ be_word 32 index ++
                 (replicate 12 0 ++ hexBytes account) ++ be_word 32 amount).

(** Checked uint256 addition reverts on overflow. *)
Definition hashNode (firstHash : list Z) (firstSum : Z) (secondHash : list Z) (secondSum : Z)
    : option (list Z * Z) :=
  let parentSum := firstSum + secondSum in
  if UINT256_MAX <? parentSum then None
  else if (be_value firstHash <? be_value secondHash) || bool_decide (firstHash = secondHash) then
    Some (evm_keccak256 (firstHash ++ be_word 32 firstSum ++ secondHash ++ be_word 32 secondSum),
          parentSum)
  else
    Some (evm_keccak256 (secondHash ++ be_word 32 secondSum ++ firstHash ++ be_word 32 firstSum),
          parentSum).

Fixpoint processProof_loop (h : list Z) (s : Z) (proof : list ProofNode) : option (list Z * Z) :=
  match proof with
  | [] => Some (h, s)
  | sibling :: rest =>
      if bool_decide (nodeHash sibling = replicate 32 0) || (node_sum sibling =? 0) then None
      else match hashNode h s (nodeHash sibling) (node_sum sibling) with
           | None => None
           | Some (h', s') => processProof_loop h' s' rest
           end
  end.

Definition processProof (epochId index : Z) (account : jstr) (amount : Z) (proof : list ProofNode)
    : option (list Z * Z) :=
  processProof_loop (sol_leafHash epochId index account amount) amount proof.
End contract.
