(* ===== verification/RewardTreeFacts.v ===== *)
(** Theorems about the Merkle-sum tree: the array is fully built, the root
    sum is the sum of the claims, every generated proof is accepted by the
    contract's [processProof], proofs are logarithmic, and normalisation
    yields sorted, distinct, in-range claims. *)

From S2P Require Import Prelude JsNum JsText JsValue RewardTree.

Open Scope Z_scope.

Definition uint256 (z : Z) : Prop := 0 ≤ z ≤ UINT256_MAX.

(** ** Sums over index ranges *)

(** f a + f (a+1) + ... over [n] indices. *)
Fixpoint sum_range (f : nat → Z) (a n : nat) : Z :=
  match n with
  | O => 0
  | S n' => f a + sum_range f (S a) n'
  end.

Lemma sum_range_split f a n k :
  sum_range f a (n + k) = sum_range f a n + sum_range f (a + n) k.
Proof.
  revert a. induction n as [|n IH]; intros a; simpl.
  - by rewrite Nat.add_0_r.
  - rewrite IH. replace (S a + n)%nat with (a + S n)%nat by lia. lia.
Qed.

Lemma sum_range_snoc f a n : sum_range f a (S n) = sum_range f a n + f (a + n)%nat.
Proof.
  replace (S n) with (n + 1)%nat by lia. rewrite sum_range_split. simpl. lia.
Qed.

Lemma sum_range_ext f g a n :
  (∀ i, (a <= i < a + n)%nat → f i = g i) → sum_range f a n = sum_range g a n.
Proof.
  revert a. induction n as [|n IH]; intros a H; simpl; [done|].
  rewrite H by lia. f_equal. apply IH. intros i Hi. apply H. lia.
Qed.

Lemma sum_range_nonneg f a n :
  (∀ i, (a <= i < a + n)%nat → 0 ≤ f i) → 0 ≤ sum_range f a n.
Proof.
  revert a. induction n as [|n IH]; intros a H; simpl; [done|].
  pose proof (H a ltac:(lia)). pose proof (IH (S a) ltac:(intros; apply H; lia)). lia.
Qed.

(** The total of a list. *)
Definition total (l : list Z) : Z := foldr Z.add 0 l.

Lemma total_perm l k : l ≡ₚ k → total l = total k.
Proof. induction 1; simpl in *; unfold total in *; simpl; lia. Qed.

Lemma total_app l k : total (l ++ k) = total l + total k.
Proof. unfold total. induction l as [|x l IH]; simpl; lia. Qed.

(** ** The combine step *)

Section tree.
Context (keccak256 : jstr → jstr).
Context (encodeAbiParameters : list abi_parameter → list abi_value → jstr).
Abbreviation array := (list (option node)).
Abbreviation combine := (combine keccak256 encodeAbiParameters).
Abbreviation combine_at := (combine_at keccak256 encodeAbiParameters).
Abbreviation fill_parents := (fill_parents keccak256 encodeAbiParameters).
Abbreviation buildMerkleSumTree := (buildMerkleSumTree keccak256 encodeAbiParameters).
Abbreviation make_leaves := (make_leaves keccak256 encodeAbiParameters).

Lemma combine_sum a b c : combine a b = Ok c → sum c = sum a + sum b ∧ sum c ≤ UINT256_MAX.
Proof.
  unfold RewardTree.combine, checkedAdd. intros H. inv_result.
  destruct (compareHash (hash a) (hash b) <=? 0); inv_result; inv_bool; simpl in *; lia.
Qed.

Lemma combine_total a b :
  sum a + sum b ≤ UINT256_MAX →
  (compareHash (hash a) (hash b) = 0 → sum a = sum b) →
  ∃ c, combine a b = Ok c.
Proof.
  intros Hs Hh. unfold RewardTree.combine, checkedAdd.
  destruct (compareHash (hash a) (hash b) =? 0) eqn:E; simpl.
  - apply Z.eqb_eq in E. rewrite E, (Hh E), Z.eqb_refl. simpl.
    rewrite Hh in Hs by done. replace (UINT256_MAX <? _) with false by lia. eauto.
  - destruct (compareHash (hash a) (hash b) <=? 0); simpl.
    + replace (UINT256_MAX <? _) with false by lia. eauto.
    + replace (UINT256_MAX <? _) with false by lia. eauto.
Qed.

Lemma combine_error a b e :
  combine a b = Throw e →
  (e = Exn EError (js "ambiguous equal node hashes carry different sums")
    ∧ compareHash (hash a) (hash b) = 0 ∧ sum a ≠ sum b)
  ∨ (e = Exn EError (js "Merkle parent sum exceeds uint256") ∧ UINT256_MAX < sum a + sum b).
Proof.
  unfold RewardTree.combine, checkedAdd. rewrite bind_Throw, throw_if_Throw.
  intros [[H ->]|([] & _ & H)]; [left; inv_bool; auto|right].
  destruct (compareHash (hash a) (hash b) <=? 0);
    rewrite !bind_Throw, throw_if_Throw in H;
    destruct H as [[[H ->]|([] & _ & H)]|(z & _ & H)]; inv_bool; simplify_eq/=;
    (split; [done|lia]).
Qed.

(** ** Filling the array *)

Lemma at_insert_ne (t : array) i j x : i ≠ j → at_ (<[i := x]> t) j = at_ t j.
Proof. intros. unfold at_. by rewrite list_lookup_insert_ne. Qed.

Lemma at_insert_eq (t : array) i x : (i < length t)%nat → at_ (<[i := Some x]> t) i = Some x.
Proof. intros. unfold at_. by rewrite list_lookup_insert_eq. Qed.

(** Every inner entry is the combination of its children. *)
Definition well_built (m : nat) (t : array) : Prop :=
  ∀ i, (i < m)%nat → ∃ a b c,
    at_ t (2 * i + 1) = Some a ∧ at_ t (2 * i + 2) = Some b ∧
    combine a b = Ok c ∧ at_ t i = Some c.

Lemma fill_parents_spec k t t' :
  (k <= length t)%nat → fill_parents k t = Ok t' →
  length t' = length t ∧ (∀ j, (k <= j)%nat → at_ t' j = at_ t j) ∧ well_built k t'.
Proof.
  revert t. induction k as [|i IH]; intros t Hlen; simpl.
  { intros [= <-]. split_and!; [done..|]. intros i Hi. lia. }
  rewrite bind_Ok. intros (c & Hc & Ht'). unfold RewardTree.combine_at in Hc.
  destruct (at_ t (2 * i + 1)) as [a|] eqn:Ha; [|done].
  destruct (at_ t (2 * i + 2)) as [b|] eqn:Hb; [|done].
  apply IH in Ht' as (Hl & Hout & Hin); [|rewrite length_insert; lia].
  rewrite length_insert in Hl. split_and!; [done|..].
  - intros j Hj. rewrite Hout by lia. apply at_insert_ne. lia.
  - intros j Hj. destruct (Nat.eq_dec j i) as [->|Hne]; [|apply Hin; lia].
    exists a, b, c. rewrite !Hout, !at_insert_ne, at_insert_eq by lia. auto.
Qed.

(** The frontier k..2k of a complete tree has the same sum for every k. *)
Definition sum_at (t : array) (i : nat) : Z := default 0 (sum <$> at_ t i).

Lemma frontier_step t m k :
  well_built m t → (k < m)%nat →
  sum_range (sum_at t) k (k + 1) = sum_range (sum_at t) (k + 1) (k + 2).
Proof.
  intros Hw Hk. destruct (Hw k Hk) as (a & b & c & Ha & Hb & Hc & Hi).
  apply combine_sum in Hc as [Hc _].
  replace (k + 1)%nat with (S k) by lia. replace (k + 2)%nat with (S (S k)) by lia.
  rewrite !(sum_range_snoc _ (S k)). cbn [sum_range].
  replace (S k + k)%nat with (2 * k + 1)%nat by lia.
  replace (S k + S k)%nat with (2 * k + 2)%nat by lia.
  assert (sum_at t k = sum c ∧ sum_at t (2 * k + 1) = sum a ∧ sum_at t (2 * k + 2) = sum b)
    as (-> & -> & ->) by (unfold sum_at; by rewrite Ha, Hb, Hi). lia.
Qed.

Lemma frontier_sum t m :
  well_built m t → sum_at t 0 = sum_range (sum_at t) m (m + 1).
Proof.
  intros Hw. cut (∀ k, (k <= m)%nat → sum_at t 0 = sum_range (sum_at t) k (k + 1)).
  { intros H. by apply H. }
  induction k as [|k IH]; intros Hk; [simpl; lia|].
  rewrite IH, (frontier_step t m) by (done || lia).
  by replace (k + 1)%nat with (S k) by lia; replace (k + 2)%nat with (S k + 1)%nat by lia.
Qed.

(** ** Placing the leaves *)

Lemma place_leaves_spec p l t ix t' ix' :
  place_leaves p l t ix = (t', ix') → (p + length l <= length t)%nat →
  length t' = length t ∧
  (∀ j x, l !! j = Some x → at_ t' (length t - 1 - (p + j)) = Some (leaf_node x)) ∧
  (∀ i, (length t - p <= i)%nat → at_ t' i = at_ t i).
Proof.
  revert p t ix. induction l as [|x l IH]; intros p t ix; simpl.
  { intros [= -> ->] _. done. }
  intros H Hlen. apply IH in H as (H1 & H2 & H3); [|rewrite length_insert; lia].
  rewrite length_insert in *. split_and!; [done|..].
  - intros [|j] y Hy; simplify_eq/=.
    + rewrite Nat.add_0_r, H3 by lia. apply at_insert_eq. lia.
    + replace (p + S j)%nat with (S p + j)%nat by lia. eauto.
  - intros i Hi. rewrite H3 by lia. apply at_insert_ne. lia.
Qed.

Definition leaf_key (x : leaf) : jstr := dec_of_Z (index (leaf_claim x)).

Lemma place_leaves_indexes p l t ix t' ix' :
  place_leaves p l t ix = (t', ix') → NoDup (map leaf_key l) →
  (∀ j x, l !! j = Some x → ix' !! leaf_key x = Some (length t - 1 - (p + j))%nat) ∧
  (∀ k, k ∉ map leaf_key l → ix' !! k = ix !! k).
Proof.
  revert p t ix. induction l as [|x l IH]; intros p t ix; simpl.
  { intros [= -> ->] _. done. }
  intros H [Hx Hl]%NoDup_cons. apply IH in H as [H1 H2]; [|done].
  rewrite length_insert in *. split.
  - intros [|j] y Hy; simplify_eq/=.
    + rewrite H2 by done. rewrite Nat.add_0_r. apply lookup_insert_eq.
    + replace (p + S j)%nat with (S p + j)%nat by lia. eauto.
  - intros k Hk. rewrite elem_of_cons in Hk. rewrite H2 by tauto.
    apply lookup_insert_ne. unfold leaf_key in Hk. naive_solver.
Qed.

(** What a successful build consists of. *)
Record built (leaves sorted : list leaf) (m : nat) (t : array) (st : sum_tree) : Prop := {
  built_perm : sorted ≡ₚ leaves;
  built_size : length leaves = S m;
  built_length : length t = (2 * m + 1)%nat;
  built_parents : well_built m t;
  built_leaves : ∀ j x, sorted !! j = Some x → at_ t (2 * m - j) = Some (leaf_node x);
  built_root : root st = at_ t 0;
  built_proofs : NoDup (map leaf_key leaves) → ∀ j x, sorted !! j = Some x →
    proofs st !! leaf_key x = Some (proof_from (2 * m - j) t (2 * m - j))
}.

Lemma collect_proofs_lookup t ix l acc k :
  collect_proofs t ix l acc !! k =
    if bool_decide (k ∈ map leaf_key l)
    then Some (proof_from (default 0%nat (ix !! k)) t (default 0%nat (ix !! k)))
    else acc !! k.
Proof.
  revert acc. induction l as [|x l IH]; intros acc; simpl; [done|].
  rewrite IH. unfold leaf_key at 2.
  destruct (decide (k ∈ map leaf_key l)) as [Hk|Hk].
  - rewrite !bool_decide_eq_true_2; [done| |done]. by apply list_elem_of_further.
  - rewrite (bool_decide_eq_false_2 (k ∈ map leaf_key l)) by done.
    destruct (decide (leaf_key x = k)) as [<-|E].
    + rewrite bool_decide_eq_true_2 by apply list_elem_of_here. apply lookup_insert_eq.
    + rewrite lookup_insert_ne by done. rewrite bool_decide_eq_false_2; [done|]. rewrite elem_of_cons. naive_solver.
Qed.

Lemma build_structure leaves st :
  buildMerkleSumTree leaves = Ok st → ∃ sorted m t, built leaves sorted m t st.
Proof.
  unfold RewardTree.buildMerkleSumTree. set (sorted := merge_sort _ leaves).
  assert (sorted ≡ₚ leaves) as Hperm by apply merge_sort_Permutation.
  intros H. inv_result. destruct (length sorted) as [|m] eqn:Hlen; [done|].
  destruct (place_leaves _ _ _ _) as [t0 ix] eqn:Hp. inv_result.
  pose proof (place_leaves_spec _ _ _ _ _ _ Hp) as Hspec.
  rewrite length_replicate in Hspec. destruct Hspec as (Hl & Hleaf & _); [lia|].
  match goal with H : RewardTree.fill_parents _ _ _ _ = Ok ?t1 |- _ =>
    apply fill_parents_spec in H as (Hl' & Hout & Hw); [exists sorted, m, t1|lia] end.
  constructor; try done.
  - by rewrite <- Hlen, Hperm.
  - rewrite Hl', Hl. lia.
  - intros j x Hx. pose proof (lookup_lt_Some _ _ _ Hx).
    rewrite Hout by lia. erewrite <- Hleaf by done. f_equal. lia.
  - intros Hnd j x Hx. pose proof (lookup_lt_Some _ _ _ Hx). simpl.
    rewrite collect_proofs_lookup, bool_decide_eq_true_2.
    2:{ apply elem_of_map. exists x. split; [done|]. rewrite <- Hperm.
        by eapply list_elem_of_lookup_2. }
    eapply place_leaves_indexes in Hp as [Hix _]; [|by rewrite Hperm].
    rewrite (Hix j x Hx), length_replicate. cbn [from_option id].
    by replace (2 * S m - 1 - 1 - (0 + j))%nat with (2 * m - j)%nat by lia.
Qed.

Lemma sum_range_leaves f a l :
  (∀ j z, l !! j = Some z → f (a + (length l - 1 - j))%nat = z) →
  sum_range f a (length l) = total l.
Proof.
  revert f. induction l as [|z l IH]; intros f H; [done|].
  cbn [length]. rewrite sum_range_snoc.
  rewrite (IH f).
  - specialize (H 0%nat z eq_refl). simpl in H. rewrite Nat.sub_0_r, Nat.sub_0_r in H.
    rewrite H. unfold total. simpl. lia.
  - intros j y Hy. specialize (H (S j) y Hy). simpl in H.
    by replace (length l - 1 - j)%nat with (length l - 0 - S j)%nat by lia.
Qed.

Lemma built_root_sum leaves sorted m t st :
  built leaves sorted m t st →
  ∃ r, root st = Some r ∧ sum r = total (map (sum ∘ leaf_node) leaves).
Proof.
  intros [Hperm Hsize Hlen Hw Hleaf Hroot _].
  assert (Hlen' : length sorted = S m) by by rewrite Hperm.
  assert (is_Some (at_ t 0)) as [r Hr].
  { destruct m as [|m].
    - destruct sorted as [|x [|]]; simplify_eq/=. exists (leaf_node x). by apply (Hleaf 0%nat).
    - destruct (Hw 0%nat ltac:(lia)) as (? & ? & c & _ & _ & _ & Hc). eauto. }
  exists r. split; [by rewrite Hroot|].
  assert (sum r = sum_at t 0) as -> by (unfold sum_at; by rewrite Hr).
  rewrite (frontier_sum t m Hw). replace (m + 1)%nat with (S m) by lia.
  rewrite map_fmap, <- (total_perm _ _ (fmap_Permutation (sum ∘ leaf_node) _ _ Hperm)).
  rewrite <- Hlen', <- (length_fmap (sum ∘ leaf_node) sorted).
  apply sum_range_leaves. intros j z Hz. rewrite length_fmap, Hlen'.
  apply list_lookup_fmap_Some in Hz as (x & -> & Hx).
  pose proof (lookup_lt_Some _ _ _ Hx). unfold sum_at.
  replace (m + (S m - 1 - j))%nat with (2 * m - j)%nat by lia. by rewrite (Hleaf _ _ Hx).
Qed.

(** ** Proof paths *)

Lemma parent_index_lt i : (0 < i)%nat → (parent_index i < i)%nat.
Proof. intros. unfold parent_index. apply Nat.Div0.div_lt_upper_bound. lia. Qed.

Lemma parent_children i :
  (0 < i)%nat →
  (i = 2 * parent_index i + 1 ∧ sibling_index i = 2 * parent_index i + 2)%nat ∨
  (i = 2 * parent_index i + 2 ∧ sibling_index i = 2 * parent_index i + 1)%nat.
Proof.
  intros Hi. unfold parent_index, sibling_index.
  pose proof (Nat.div_mod_eq (i - 1) 2) as Hd.
  pose proof (Nat.mod_upper_bound (i - 1) 2 ltac:(lia)) as Hm.
  destruct (Nat.even i) eqn:E.
  - apply Nat.even_spec in E as [k Hk]. lia.
  - assert (Nat.odd i = true) as [k Hk]%Nat.odd_spec by (unfold Nat.odd; by rewrite E). lia.
Qed.

Lemma proof_from_step f t i :
  (0 < i)%nat →
  proof_from (S f) t i = at_ t (sibling_index i) :: proof_from f t (parent_index i).
Proof. intros. destruct i; [lia|done]. Qed.

(** A proof has one sibling per level: floor(log2(i + 1)). *)
Lemma proof_from_length f t i :
  (i <= f)%nat → length (proof_from f t i) = Nat.log2 (i + 1).
Proof.
  revert i. induction f as [|f IH]; intros i Hi.
  { by replace i with 0%nat by lia. }
  destruct (Nat.eq_dec i 0%nat) as [->|Hne]; [done|].
  rewrite proof_from_step by lia. simpl.
  pose proof (parent_index_lt i ltac:(lia)). rewrite IH by lia.
  destruct (parent_children i ltac:(lia)) as [[E _]|[E _]].
  - replace (i + 1)%nat with (2 * (parent_index i + 1))%nat by lia.
    by rewrite Nat.log2_double by lia.
  - replace (i + 1)%nat with (2 * (parent_index i + 1) + 1)%nat by lia.
    by rewrite Nat.log2_succ_double by lia.
Qed.
End tree.

(** ** Big-endian order is byte order *)

Lemma be_value_app a b : be_value (a ++ b) = be_value a * 256 ^ Z.of_nat (length b) + be_value b.
Proof.
  unfold be_value. rewrite fold_left_app. generalize (fold_left (λ a x, 256 * a + x) a 0).
  induction b as [|x b IH] using rev_ind; intros z; simpl; [lia|].
  rewrite !fold_left_app, IH. simpl. rewrite length_app, Nat.add_1_r, Nat2Z.inj_succ.
  rewrite Z.pow_succ_r by lia. lia.
Qed.

Lemma be_value_bound b : Forall byte b → 0 ≤ be_value b < 256 ^ Z.of_nat (length b).
Proof.
  induction b as [|x b IH] using rev_ind; [done|]. intros [Hb Hx]%Forall_app.
  rewrite Forall_singleton in Hx. specialize (IH Hb). unfold byte in Hx.
  rewrite be_value_app, length_app, Nat.add_1_r, Nat2Z.inj_succ, Z.pow_succ_r by lia.
  change (be_value [x]) with x. simpl length. change (256 ^ Z.of_nat 1) with 256. lia.
Qed.

Lemma compare_bytes_be a b :
  length a = length b → Forall byte a → Forall byte b →
  (compare_bytes a b < 0 ↔ be_value a < be_value b).
Proof.
  revert b. induction a as [|x a IH]; intros [|y b] Hl Ha Hb; try done.
  apply Forall_cons in Ha as [Hx Ha]. apply Forall_cons in Hb as [Hy Hb].
  simpl in Hl. injection Hl as Hl. specialize (IH b Hl Ha Hb).
  pose proof (be_value_bound a Ha). pose proof (be_value_bound b Hb).
  assert (be_value (x :: a) = x * 256 ^ Z.of_nat (length a) + be_value a) as ->
    by apply (be_value_app [x] a).
  assert (be_value (y :: b) = y * 256 ^ Z.of_nat (length b) + be_value b) as ->
    by apply (be_value_app [y] b).
  rewrite <- Hl in *. cbn [compare_bytes].
  unfold byte in *. destruct (x <? y) eqn:E1; [|destruct (y <? x) eqn:E2]; inv_bool.
  - nia.
  - nia.
  - assert (x = y) as -> by lia. lia.
Qed.

Lemma be_word_length n z : length (be_word n z) = n.
Proof. revert z. induction n as [|n IH]; intros z; simpl; [done|]. rewrite length_app, IH. simpl. lia. Qed.

Lemma be_word_bytes n z : Forall byte (be_word n z).
Proof.
  revert z. induction n as [|n IH]; intros z; simpl; [constructor|].
  apply Forall_app_2; [done|]. apply Forall_singleton. apply Z.mod_pos_bound. lia.
Qed.

(** ** Agreement with the contract *)

Definition to_proof_node (n : node) : ProofNode := MkProofNode (hexBytes (hash n)) (sum n).

(** A claim as [normalizeClaims] returns it. *)
Definition wf_claim (c : claim) : Prop :=
  uint256 (index c) ∧ uint256 (amount c) ∧ 0 < amount c.

Section contract.
Context (keccak256 : jstr → jstr).
Context (encodeAbiParameters : list abi_parameter → list abi_value → jstr).
Context (evm_keccak256 : list Z → list Z).
Abbreviation combine := (combine keccak256 encodeAbiParameters).
Abbreviation buildMerkleSumTree := (buildMerkleSumTree keccak256 encodeAbiParameters).
Abbreviation make_leaves := (make_leaves keccak256 encodeAbiParameters).
Abbreviation hashNode := (hashNode evm_keccak256).
Abbreviation array := (list (option node)).

(** What the script relies on viem and the EVM for. *)
Record viem_agrees : Prop := {
  (** viem's keccak256 is the EVM's, on hexadecimal text. *)
  keccak_agrees s : hexBytes (keccak256 s) = evm_keccak256 (hexBytes s);
  (** A digest is 32 bytes. *)
  keccak_length b : length (evm_keccak256 b) = 32%nat ∧ Forall byte (evm_keccak256 b);
  (** Static parameters are encoded as one word each. *)
  encode_leaf epochId index account amount :
    uint256 epochId → uint256 index → uint256 amount →
    hexBytes (encodeAbiParameters LEAF_PARAMETERS
                [AUint epochId; AUint index; AAddress account; AUint amount])
    = abi_word (AUint epochId) ++ abi_word (AUint index) ++ abi_word (AAddress account)
      ++ abi_word (AUint amount);
  encode_node h1 s1 h2 s2 :
    uint256 s1 → uint256 s2 →
    hexBytes (encodeAbiParameters NODE_PARAMETERS
                [ABytes32 h1; AUint s1; ABytes32 h2; AUint s2])
    = abi_word (ABytes32 h1) ++ abi_word (AUint s1) ++ abi_word (ABytes32 h2)
      ++ abi_word (AUint s2)
}.

Context (Hviem : viem_agrees).

(** A node whose hash is a digest and whose sum is a positive uint256. *)
Definition good_node (n : node) : Prop :=
  length (hexBytes (hash n)) = 32%nat ∧ Forall byte (hexBytes (hash n)) ∧
  0 < sum n ≤ UINT256_MAX.

Lemma compareHash_lt a b :
  good_node a → good_node b →
  (compareHash (hash a) (hash b) < 0 ↔ be_value (hexBytes (hash a)) < be_value (hexBytes (hash b))).
Proof. intros (Ha & Hb & _) (Hc & Hd & _). apply compare_bytes_be; congruence || done. Qed.

Lemma hashNode_comm h1 s1 h2 s2 :
  length h1 = length h2 → Forall byte h1 → Forall byte h2 → (h1 = h2 → s1 = s2) →
  hashNode h1 s1 h2 s2 = hashNode h2 s2 h1 s1.
Proof.
  intros Hl H1 H2 Hs. unfold RewardTree.hashNode. rewrite (Z.add_comm s2 s1).
  destruct (UINT256_MAX <? s1 + s2); [done|].
  destruct (decide (h1 = h2)) as [->|Hne]; [by rewrite Hs|].
  rewrite !bool_decide_eq_false_2 by done. rewrite !orb_false_r.
  pose proof (compare_bytes_be h1 h2 Hl H1 H2) as Hlt.
  pose proof (compare_bytes_be h2 h1 (eq_sym Hl) H2 H1) as Hgt.
  rewrite compare_bytes_antisym in Hgt. pose proof (compare_bytes_eq h1 h2) as He.
  destruct (be_value h1 <? be_value h2) eqn:E1, (be_value h2 <? be_value h1) eqn:E2;
    inv_bool; try done; exfalso; [lia|].
  apply Hne, He. destruct (Z.lt_trichotomy (compare_bytes h1 h2) 0) as [?|[?|?]]; lia.
Qed.

(** The parent the script computes is the one the contract computes. *)
Lemma combine_hashNode a b c :
  good_node a → good_node b → combine a b = Ok c →
  good_node c ∧
  hashNode (hexBytes (hash a)) (sum a) (hexBytes (hash b)) (sum b)
    = Some (hexBytes (hash c), sum c).
Proof.
  intros Ha Hb Hc. pose proof (combine_sum _ _ _ _ _ Hc) as [Hsum Hmax].
  pose proof Ha as (Hla & Hba & Hsa). pose proof Hb as (Hlb & Hbb & Hsb).
  pose proof (compareHash_lt a b Ha Hb) as Hlt.
  unfold RewardTree.combine, checkedAdd in Hc. inv_result.
  assert (Hord : compareHash (hash a) (hash b) = 0 ↔ hexBytes (hash a) = hexBytes (hash b))
    by apply compare_bytes_eq.
  unfold RewardTree.hashNode. rewrite <- Hsum. replace (UINT256_MAX <? sum c) with false by lia.
  destruct (compareHash (hash a) (hash b) <=? 0) eqn:E; inv_result; inv_bool;
    (split; [split_and!; simpl in *;
             [rewrite keccak_agrees by done; apply keccak_length; done..|lia|lia]|]).
  - assert ((be_value (hexBytes (hash a)) <? be_value (hexBytes (hash b)))
            || bool_decide (hexBytes (hash a) = hexBytes (hash b)) = true) as ->.
    { rewrite orb_true_iff, Z.ltb_lt, bool_decide_eq_true. rewrite <- Hlt, <- Hord. lia. }
    simpl. rewrite keccak_agrees, encode_node by (done || (unfold uint256; lia)). done.
  - assert ((be_value (hexBytes (hash a)) <? be_value (hexBytes (hash b)))
            || bool_decide (hexBytes (hash a) = hexBytes (hash b)) = false) as ->.
    { rewrite orb_false_iff, Z.ltb_ge, bool_decide_eq_false. rewrite <- Hord. lia. }
    simpl. rewrite keccak_agrees, encode_node by (done || (unfold uint256; lia)). done.
Qed.

Lemma combine_equal_sums a b c :
  combine a b = Ok c → hexBytes (hash a) = hexBytes (hash b) → sum a = sum b.
Proof.
  unfold RewardTree.combine. intros H E. inv_result.
  unfold compareHash in *. rewrite E, compare_bytes_refl in *. simpl in *.
  inv_bool. done.
Qed.

(** Every entry of a built tree over good leaves is a good node. *)
Lemma well_built_good m (t : array) :
  well_built keccak256 encodeAbiParameters m t →
  (∀ i, (m <= i < 2 * m + 1)%nat → ∃ x, at_ t i = Some x ∧ good_node x) →
  ∀ i, (i < 2 * m + 1)%nat → ∃ x, at_ t i = Some x ∧ good_node x.
Proof.
  intros Hw Hleaf.
  assert (∀ d i, (2 * m - i < d)%nat → (i < 2 * m + 1)%nat → ∃ x, at_ t i = Some x ∧ good_node x)
    as H; [|intros i Hi; by apply (H (S (2 * m - i))); lia].
  induction d as [|d IH]; intros i Hd Hi; [lia|].
  destruct (le_lt_dec m i) as [Hm|Hm]; [apply Hleaf; lia|].
  destruct (Hw i Hm) as (a & b & c & Ha & Hb & Hc & Hi').
  destruct (IH (2 * i + 1)%nat) as (a' & Ha' & Hga); [lia..|].
  destruct (IH (2 * i + 2)%nat) as (b' & Hb' & Hgb); [lia..|].
  simplify_eq. exists c. split; [done|].
  eapply proj1, combine_hashNode; [exact Hga|exact Hgb|exact Hc].
Qed.

(** Climbing from a tree index with the generated siblings reaches the root. *)
Lemma proof_climbs m (t : array) :
  well_built keccak256 encodeAbiParameters m t →
  (∀ i, (i < 2 * m + 1)%nat → ∃ x, at_ t i = Some x ∧ good_node x) →
  ∀ f i x r, (i <= f)%nat → (i < 2 * m + 1)%nat → at_ t i = Some x → at_ t 0 = Some r →
  (∀ n, Some n ∈ proof_from f t i → hexBytes (hash n) ≠ replicate 32 0) →
  ∃ p, proof_from f t i = map Some p ∧
       processProof_loop evm_keccak256 (hexBytes (hash x)) (sum x) (map to_proof_node p)
         = Some (hexBytes (hash r), sum r).
Proof.
  intros Hw Hgood f. induction f as [|f IH]; intros i x r Hf Hi Hx Hr Hz.
  { assert (i = 0%nat) as -> by lia. simplify_eq. by exists []. }
  destruct (Nat.eq_dec i 0%nat) as [->|Hne]; [simplify_eq; by exists []|].
  pose proof (parent_index_lt i ltac:(lia)) as Hp.
  pose proof (parent_children i ltac:(lia)) as Hch.
  destruct (Hw (parent_index i) ltac:(lia)) as (a & b & c & Ha & Hb & Hc & Hpi).
  assert (∃ s, at_ t (sibling_index i) = Some s ∧ good_node s ∧
               hashNode (hexBytes (hash x)) (sum x) (hexBytes (hash s)) (sum s)
                 = Some (hexBytes (hash c), sum c)) as (s & Hs & (Hs1 & Hs2 & Hs3) & Hn).
  { destruct (Hgood (2 * parent_index i + 1)%nat) as (a' & ? & Hga); [lia|].
    destruct (Hgood (2 * parent_index i + 2)%nat) as (b' & ? & Hgb); [lia|]. simplify_eq.
    pose proof (combine_hashNode a b c Hga Hgb Hc) as [_ Hab].
    destruct Hch as [[Ei Es]|[Ei Es]]; rewrite Es; rewrite Ei in Hx; simplify_eq.
    - eauto.
    - exists a. split_and!; [done|apply Hga..|].
      rewrite hashNode_comm; [done|..]; destruct Hga as (? & ? & _), Hgb as (? & ? & _);
        [congruence|done..|]. intros E. symmetry. by eapply combine_equal_sums. }
  rewrite proof_from_step, Hs in Hz |- * by lia.
  destruct (IH (parent_index i) c r) as (p & Hpf & Hpp); [lia..|done|done| |].
  { intros n Hn'. apply Hz. by apply list_elem_of_further. }
  exists (s :: p). rewrite Hpf. split; [done|].
  simpl. rewrite bool_decide_eq_false_2 by (apply Hz, list_elem_of_here). simpl.
  replace (sum s =? 0) with false by lia. by rewrite Hn.
Qed.
End contract.

(** ** Claim parsing *)

Lemma safe_nonneg_decimal n :
  negb (is_safe_integer n) || num_ltb n (NInt 0) = false →
  ∃ w, 0 ≤ w ∧ num_to_string n = dec_of_Z w.
Proof.
  intros [Hs Hn]%orb_false_iff. apply negb_false_iff in Hs.
  apply is_safe_integer_spec in Hs as (w & Hw & Hs). exists w.
  rewrite (num_ltb_int n (NInt 0) w 0) in Hn by done. inv_bool. split; [done|].
  destruct (num_int_cases n w Hw) as [->|[-> ->]]; [|done].
  by rewrite num_to_string_int.
Qed.

Lemma parseUint256_range v label positive z :
  parseUint256 v label positive = Ok z →
  uint256 z ∧ (positive = true → 0 < z).
Proof.
  unfold parseUint256. rewrite bind_Ok. intros (dec & Hdec & H).
  assert (∃ w, 0 ≤ w ∧ dec = dec_of_Z w) as (w & Hw & ->).
  { destruct v; try done.
    - destruct (negb (is_safe_integer n) || num_ltb n (NInt 0)) eqn:E; inv_result.
      by apply safe_nonneg_decimal.
    - destruct (is_canonical_dec s) eqn:E; inv_result. exists (Z_of_dec dec).
      rewrite dec_of_Z_of_dec by done. split; [|done].
      apply Z_of_dec_nonneg, canonical_digits, E. }
  simpl in H. rewrite bigint_of_dec in H by done. inv_result. inv_bool.
  split; [split; lia|]. intros ->. simpl in *. inv_bool. lia.
Qed.

Lemma parseUint256_dec z label positive :
  uint256 z → (positive = true → 0 < z) →
  parseUint256 (VStr (dec_of_Z z)) label positive = Ok z.
Proof.
  intros [Hz Hm] Hp. unfold parseUint256. rewrite dec_of_Z_canonical by done. simpl.
  rewrite bigint_of_dec by done. simpl. replace (UINT256_MAX <? z) with false by lia. simpl.
  destruct positive; simpl; [|done]. specialize (Hp eq_refl).
  by replace (z =? 0) with false by lia.
Qed.

Lemma parseUint256_number z label positive :
  0 ≤ z ≤ max_safe → (positive = true → 0 < z) →
  parseUint256 (VNum (NInt z)) label positive = Ok z.
Proof.
  intros Hz Hp. assert (uint256 z) as Hu.
  { split; [lia|]. transitivity max_safe; [lia|]. by vm_compute. }
  rewrite <- (parseUint256_dec z label positive Hu Hp). unfold parseUint256.
  assert (is_safe_integer (NInt z) = true) as ->.
  { apply is_safe_integer_spec. exists z. split; [done|lia]. }
  rewrite (num_ltb_int _ _ z 0) by done. replace (z <? 0) with false by lia.
  cbn [negb orb]. rewrite num_to_string_int by lia. by rewrite dec_of_Z_canonical by lia.
Qed.

Section normalize.
Context (isAddress : jstr → bool) (getAddress : jstr → option jstr).
Abbreviation normalizeFrom := (normalizeFrom isAddress getAddress).
Abbreviation normalizeClaims := (normalizeClaims isAddress getAddress).

Definition index_key (c : claim) : jstr := dec_of_Z (index c).
Definition account_key (c : claim) : jstr := to_lower (account c).

Lemma normalizeFrom_spec seen p l cs :
  normalizeFrom seen p l = Ok cs →
  length cs = length l ∧ Forall wf_claim cs ∧
  NoDup (map index_key cs) ∧ NoDup (map account_key cs) ∧
  (∀ k, k ∈ map index_key cs → k ∉ seen.1) ∧
  (∀ k, k ∈ map account_key cs → k ∉ seen.2).
Proof.
  revert seen p cs. induction l as [|v l IH]; intros [ix ac] p cs; simpl.
  { intros [= <-]. split_and!; try constructor; intros ? ?%elem_of_nil; done. }
  rewrite bind_Ok. intros ([seen' c] & Hc & H). unfold normalizeClaim in Hc. inv_result.
  match goal with H : RewardTree.normalizeFrom _ _ _ _ _ = Ok _ |- _ =>
    apply IH in H as (Hlen & Hwf & Hi & Ha & Hix & Hac) end.
  repeat match goal with H : parseUint256 _ _ _ = Ok _ |- _ =>
    apply parseUint256_range in H as [? ?] end.
  repeat match goal with H : jmem _ _ = false |- _ => apply jmem_false in H end.
  cbn [fst snd] in *.
  unfold index_key, account_key in *. simpl.
  split_and!.
  - lia.
  - constructor; [|done]. split_and!; simpl; auto.
  - constructor; [|done]. intros Hin. apply Hix in Hin. set_solver.
  - constructor; [|done]. intros Hin. apply Hac in Hin. set_solver.
  - intros k. rewrite elem_of_cons. intros [->|Hk]; [done|]. apply Hix in Hk. set_solver.
  - intros k. rewrite elem_of_cons. intros [->|Hk]; [done|]. apply Hac in Hk. set_solver.
Qed.
End normalize.

(** ** Outcomes of the build *)

Definition duplicate_leaf : exn :=
  Exn EError (js "distinct claims produced an ambiguous duplicate leaf hash").
Definition ambiguous_nodes : exn :=
  Exn EError (js "ambiguous equal node hashes carry different sums").

Section outcome.
Context (keccak256 : jstr → jstr).
Context (encodeAbiParameters : list abi_parameter → list abi_value → jstr).
Abbreviation array := (list (option node)).
Abbreviation fill_parents := (fill_parents keccak256 encodeAbiParameters).
Abbreviation buildMerkleSumTree := (buildMerkleSumTree keccak256 encodeAbiParameters).

(** With the frontier k..2k present and its sum within range, filling the
    k inner entries succeeds or meets an ambiguous pair. *)
Lemma fill_parents_outcome k (t : array) :
  (k <= length t)%nat →
  (∀ j, (k <= j <= 2 * k)%nat → ∃ x, at_ t j = Some x ∧ 0 ≤ sum x) →
  sum_range (sum_at t) k (k + 1) ≤ UINT256_MAX →
  (∃ t', fill_parents k t = Ok t') ∨ fill_parents k t = Throw ambiguous_nodes.
Proof.
  revert t. induction k as [|i IH]; intros t Hlen Hfr Hmax; simpl; [eauto|].
  unfold combine_at.
  destruct (Hfr (2 * i + 1)%nat ltac:(lia)) as (a & Ha & Hsa).
  destruct (Hfr (2 * i + 2)%nat ltac:(lia)) as (b & Hb & Hsb). rewrite Ha, Hb.
  replace (S i + 1)%nat with (S (S i)) in Hmax by lia. rewrite !sum_range_snoc in Hmax.
  replace (S i + i)%nat with (2 * i + 1)%nat in Hmax by lia.
  replace (S i + S i)%nat with (2 * i + 2)%nat in Hmax by lia.
  assert (sum_at t (2 * i + 1) = sum a ∧ sum_at t (2 * i + 2) = sum b) as [Ea Eb]
    by (unfold sum_at; by rewrite Ha, Hb).
  assert (0 ≤ sum_range (sum_at t) (S i) i) as Hrest.
  { apply sum_range_nonneg. intros j Hj.
    destruct (Hfr j ltac:(lia)) as (x & Hx & ?). unfold sum_at. by rewrite Hx. }
  destruct (combine keccak256 encodeAbiParameters a b) as [c|e] eqn:Hc; simpl.
  - apply combine_sum in Hc as [Hc _]. apply IH.
    + rewrite length_insert. lia.
    + intros j Hj. destruct (Nat.eq_dec j i) as [->|Hne].
      * exists c. rewrite at_insert_eq by lia. split; [done|lia].
      * rewrite at_insert_ne by lia. apply Hfr. lia.
    + replace (i + 1)%nat with (S i) by lia. cbn [sum_range].
      rewrite (sum_range_ext _ (sum_at t)).
      2:{ intros j Hj. unfold sum_at. by rewrite at_insert_ne by lia. }
      unfold sum_at at 1. rewrite at_insert_eq by lia. simpl. lia.
  - apply combine_error in Hc as [[-> _]|[_ ?]]; [by right|lia].
Qed.
End outcome.

(** ** Headline theorems *)

Section headline.
Context (keccak256 : jstr → jstr).
Context (encodeAbiParameters : list abi_parameter → list abi_value → jstr).
Context (evm_keccak256 : list Z → list Z).
Abbreviation buildMerkleSumTree := (buildMerkleSumTree keccak256 encodeAbiParameters).
Abbreviation make_leaves := (make_leaves keccak256 encodeAbiParameters).

Lemma make_leaves_keys epochId claims :
  map leaf_key (make_leaves epochId claims) = map index_key claims.
Proof. unfold RewardTree.make_leaves. by rewrite map_map. Qed.

Lemma NoDup_index_keys claims :
  Forall wf_claim claims → NoDup (map index claims) → NoDup (map index_key claims).
Proof.
  intros Hwf Hnd. rewrite map_fmap in *. unfold index_key.
  induction claims as [|c cs IH]; simpl in *; [constructor|].
  apply NoDup_cons in Hnd as [Hc Hnd]. apply Forall_cons in Hwf as [Hw Hwf].
  constructor; [|auto]. intros (d & Hd & Hin)%list_elem_of_fmap. apply Hc.
  apply list_elem_of_fmap. exists d. split; [|done].
  rewrite Forall_forall in Hwf. destruct (Hwf d Hin) as ([? _] & _), Hw as ([? _] & _).
  by apply dec_of_Z_inj.
Qed.

Lemma make_leaves_elem epochId claims c :
  c ∈ claims →
  Leaf c (Node (leafHash keccak256 encodeAbiParameters epochId c) (amount c))
    ∈ make_leaves epochId claims.
Proof. intros Hc. apply elem_of_map. eauto. Qed.

Lemma leafHash_agrees epochId c :
  viem_agrees keccak256 encodeAbiParameters evm_keccak256 → uint256 epochId → wf_claim c →
  hexBytes (leafHash keccak256 encodeAbiParameters epochId c)
    = sol_leafHash evm_keccak256 epochId (index c) (account c) (amount c).
Proof.
  intros Hv He (Hi & Ha & _). unfold leafHash. rewrite (keccak_agrees _ _ _ Hv).
  by rewrite (encode_leaf _ _ _ Hv).
Qed.

(** The proofs of a generated fixture, as the contract runs them. *)
Lemma generated_proofs_run epochId claims st :
  viem_agrees keccak256 encodeAbiParameters evm_keccak256 →
  uint256 epochId → Forall wf_claim claims → NoDup (map index claims) →
  buildMerkleSumTree (make_leaves epochId claims) = Ok st →
  (∀ key p n, proofs st !! key = Some p → Some n ∈ p → hexBytes (hash n) ≠ replicate 32 0) →
  ∃ r, root st = Some r ∧
    ∀ c, c ∈ claims → ∃ p : list node,
      proofs st !! dec_of_Z (index c) = Some (map Some p) ∧
      processProof evm_keccak256 epochId (index c) (account c) (amount c)
        (map to_proof_node p) = Some (hexBytes (hash r), sum r).
Proof.
  intros Hv He Hwf Hnd Hb Hz.
  apply build_structure in Hb as (sorted & m & t & Hb).
  pose proof (built_root_sum _ _ _ _ _ _ _ Hb) as (r & Hr & _). exists r. split; [done|].
  destruct Hb as [Hperm Hsize Hlen Hw Hleaf Hroot Hpf].
  rewrite make_leaves_keys in Hpf. specialize (Hpf (NoDup_index_keys _ Hwf Hnd)).
  assert (Hgood : ∀ i, (i < 2 * m + 1)%nat → ∃ x, at_ t i = Some x ∧ good_node x).
  { apply (well_built_good keccak256 encodeAbiParameters evm_keccak256 Hv); [done|].
    intros i Hi. assert (is_Some (sorted !! (2 * m - i)%nat)) as [x Hx].
    { apply lookup_lt_is_Some. rewrite Hperm, Hsize. lia. }
    exists (leaf_node x). split; [by rewrite <- (Hleaf _ _ Hx); f_equal; lia|].
    assert (x ∈ make_leaves epochId claims) as (c & -> & Hc)%elem_of_map
      by (rewrite <- Hperm; by eapply list_elem_of_lookup_2).
    rewrite Forall_forall in Hwf. destruct (Hwf c Hc) as (? & [? ?] & ?).
    unfold good_node. simpl. rewrite leafHash_agrees by auto.
    split_and!; [apply (keccak_length _ _ _ Hv)..|done|done]. }
  intros c Hc. pose proof (make_leaves_elem epochId claims c Hc) as Hin.
  rewrite <- Hperm in Hin. apply list_elem_of_lookup in Hin as [j Hj].
  pose proof (lookup_lt_Some _ _ _ Hj) as Hj'. rewrite Hperm, Hsize in Hj'.
  pose proof (Hpf _ _ Hj) as Hpc. pose proof (Hleaf _ _ Hj) as Hl.
  destruct (proof_climbs _ _ _ Hv m t Hw Hgood (2 * m - j) (2 * m - j) _ r
              ltac:(lia) ltac:(lia) Hl ltac:(congruence) ltac:(eauto)) as (p & Hp & Hrun).
  exists p. split; [by rewrite <- Hp|]. unfold processProof. rewrite <- Hrun.
  rewrite Forall_forall in Hwf. by rewrite <- leafHash_agrees by auto.
Qed.

(** C5. Every proof in a generated fixture is accepted by the contract:
    running [processProof] of ToriumRewardDistributor.sol on a claim and its
    siblings returns the fixture's root hash and root sum. *)
Theorem generated_proofs_verify epochId claims st :
  viem_agrees keccak256 encodeAbiParameters evm_keccak256 →
  uint256 epochId → Forall wf_claim claims → NoDup (map index claims) →
  buildMerkleSumTree (make_leaves epochId claims) = Ok st →
  (∀ key p n, proofs st !! key = Some p → Some n ∈ p → hexBytes (hash n) ≠ replicate 32 0) →
  ∃ r, root st = Some r ∧
    ∀ c, c ∈ claims → ∃ p : list node,
      proofs st !! dec_of_Z (index c) = Some (map Some p) ∧
      processProof evm_keccak256 epochId (index c) (account c) (amount c)
        (map to_proof_node p) = Some (hexBytes (hash r), sum r).
Proof. apply generated_proofs_run. Qed.

(** The root sum committed by a fixture is exactly the sum of the claim
    amounts, and no claim is dropped or counted twice. *)
Theorem root_sum_is_total epochId claims st :
  buildMerkleSumTree (make_leaves epochId claims) = Ok st →
  ∃ r, root st = Some r ∧ sum r = total (map amount claims).
Proof.
  intros (sorted & m & t & Hb)%build_structure. apply built_root_sum in Hb as (r & Hr & Hs).
  exists r. split; [done|]. rewrite Hs. unfold RewardTree.make_leaves. by rewrite map_map.
Qed.

(** A tree over n claims has, for every claim, a proof of at most
    floor(log2(2n - 1)) siblings. *)
Theorem proof_length_bound epochId claims st c p :
  Forall wf_claim claims → NoDup (map index claims) →
  buildMerkleSumTree (make_leaves epochId claims) = Ok st →
  c ∈ claims → proofs st !! dec_of_Z (index c) = Some p →
  (length p <= Nat.log2 (2 * length claims - 1))%nat.
Proof.
  intros Hwf Hnd (sorted & m & t & Hb)%build_structure Hc Hp.
  destruct Hb as [Hperm Hsize _ _ _ _ Hpf].
  rewrite make_leaves_keys in Hpf. specialize (Hpf (NoDup_index_keys _ Hwf Hnd)).
  pose proof (make_leaves_elem epochId claims c Hc) as Hin.
  rewrite <- Hperm in Hin. apply list_elem_of_lookup in Hin as [j Hj].
  specialize (Hpf _ _ Hj). change (leaf_key _) with (dec_of_Z (index c)) in Hpf.
  simplify_eq. rewrite proof_from_length by lia.
  apply Nat.log2_le_mono. unfold RewardTree.make_leaves in Hsize.
  rewrite length_map in Hsize. lia.
Qed.

(** A build over at least one claim whose amounts sum to a uint256
    returns a tree, unless two leaves or two nodes hash alike, in which case
    it throws the corresponding error; no other exception is possible. *)
Theorem build_outcome epochId claims :
  claims ≠ [] → Forall wf_claim claims → total (map amount claims) ≤ UINT256_MAX →
  (∃ st, buildMerkleSumTree (make_leaves epochId claims) = Ok st) ∨
  buildMerkleSumTree (make_leaves epochId claims) = Throw duplicate_leaf ∨
  buildMerkleSumTree (make_leaves epochId claims) = Throw ambiguous_nodes.
Proof.
  intros Hne Hwf Hmax. unfold RewardTree.buildMerkleSumTree.
  set (leaves := make_leaves epochId claims). set (sorted := merge_sort _ leaves).
  assert (sorted ≡ₚ leaves) as Hperm by apply merge_sort_Permutation.
  destruct (adjacent_distinct sorted); [|by right; left]. simpl.
  destruct (length sorted) as [|m] eqn:Hlen.
  { rewrite Hperm in Hlen. unfold leaves, RewardTree.make_leaves in Hlen.
    rewrite length_map in Hlen. by destruct claims. }
  destruct (place_leaves _ _ _ _) as [t ix] eqn:Hp.
  apply place_leaves_spec in Hp as (Hl & Hleaf & _); rewrite length_replicate in *; [|lia].
  assert (∀ j x, sorted !! j = Some x → at_ t (2 * m - j) = Some (leaf_node x)) as Hleaf'.
  { intros j x Hx. rewrite <- (Hleaf _ _ Hx). f_equal. lia. }
  destruct (fill_parents_outcome keccak256 encodeAbiParameters m t) as [[t' ->]| ->]; simpl;
    [lia| | |eauto|auto].
  - intros j Hj. assert (is_Some (sorted !! (2 * m - j)%nat)) as [x Hx]
      by (apply lookup_lt_is_Some; lia).
    exists (leaf_node x). rewrite <- (Hleaf' _ _ Hx). split; [f_equal; lia|].
    assert (x ∈ leaves) as (c & -> & Hc)%elem_of_map
      by (rewrite <- Hperm; by eapply list_elem_of_lookup_2).
    rewrite Forall_forall in Hwf. destruct (Hwf c Hc) as (_ & [? _] & _). done.
  - replace (m + 1)%nat with (S m) by lia.
    rewrite <- Hlen, <- (length_fmap (sum ∘ leaf_node) sorted), sum_range_leaves.
    + rewrite (total_perm _ (map amount claims)); [done|].
      rewrite (fmap_Permutation _ _ _ Hperm). unfold leaves, RewardTree.make_leaves.
      by rewrite <- map_fmap, map_map.
    + intros j z Hz. rewrite length_fmap, Hlen.
      apply list_lookup_fmap_Some in Hz as (x & -> & Hx).
      pose proof (lookup_lt_Some _ _ _ Hx). unfold sum_at.
      replace (m + (S m - 1 - j))%nat with (2 * m - j)%nat by lia. by rewrite (Hleaf' _ _ Hx).
Qed.
End headline.

Section normalize_headline.
Context (isAddress : jstr → bool) (getAddress : jstr → option jstr).

(** Accepted claims come out one per input entry, in strictly increasing
    index order, with uint256 indices, positive uint256 amounts, and no
    account twice (case-insensitively). *)
Theorem normalizeClaims_correct claims cs :
  normalizeClaims isAddress getAddress claims = Ok cs →
  length cs = length claims ∧ cs ≠ [] ∧ Forall wf_claim cs ∧
  StronglySorted (λ a b, index a < index b) cs ∧ NoDup (map account_key cs).
Proof.
  unfold RewardTree.normalizeClaims. intros H. inv_result.
  match goal with H : RewardTree.normalizeFrom _ _ _ _ _ = Ok ?l |- _ =>
    apply normalizeFrom_spec in H as (Hlen & Hwf & Hi & Ha & _ & _); rename l into raw end.
  pose proof (merge_sort_Permutation index_le raw) as Hperm.
  rewrite !map_fmap in *.
  split_and!; [by rewrite Hperm| |by rewrite Hperm| |by rewrite Hperm].
  { intros E. rewrite E in Hperm. apply Permutation_nil_l in Hperm. subst raw.
    simpl in Hlen. by rewrite <- Hlen in *. }
  assert (NoDup (index_key <$> merge_sort index_le raw)) as Hnd by by rewrite Hperm.
  assert (StronglySorted index_le (merge_sort index_le raw)) as Hs.
  { apply StronglySorted_merge_sort.
    - intros a b c. unfold index_le. lia.
    - intros a b. unfold index_le. lia. }
  clear -Hs Hnd. induction Hs as [|c l Hs IH Hc]; [constructor|].
  apply NoDup_cons in Hnd as [Hn Hnd]. constructor; [auto|].
  rewrite Forall_forall in Hc |- *. intros d Hd.
  specialize (Hc d Hd). unfold index_le in Hc.
  assert (index c ≠ index d); [|lia]. intros E. apply Hn, list_elem_of_fmap.
  exists d. unfold index_key. by rewrite E.
Qed.
End normalize_headline.

(** ** A concrete hash, to run the definitions *)

(** A polynomial digest standing in for keccak256: 32 bytes. *)
Definition sample_evm_keccak256 (b : list Z) : list Z :=
  be_word 32 (fold_left (λ a x, (257 * a + x + 1) mod 1000003) b 1).

Definition sample_hex (b : list Z) : jstr := js "0x" +++ hex_of_bytes b.
Definition sample_keccak256 (s : jstr) : jstr := sample_hex (sample_evm_keccak256 (hexBytes s)).
Definition sample_encode (ps : list abi_parameter) (vs : list abi_value) : jstr :=
  sample_hex (concat (map (λ v, map (λ x, x mod 256) (abi_word v)) vs)).

Lemma hexBytes_sample b : Forall byte b → hexBytes (sample_hex b) = b.
Proof. intros. unfold hexBytes, sample_hex. simpl. by apply bytes_of_hex_of_bytes. Qed.

Lemma map_mod_bytes b : Forall byte b → map (λ x, x mod 256) b = b.
Proof.
  induction 1 as [|x b Hx Hb IH]; [done|]. simpl. rewrite IH, Z.mod_small; done.
Qed.

Lemma abi_word_bytes v : Forall byte (abi_word v).
Proof.
  destruct v; cbn [abi_word]; [apply be_word_bytes| |apply bytes_of_hex_bytes].
  apply Forall_app_2; [by apply Forall_replicate; unfold byte|apply bytes_of_hex_bytes].
Qed.

Lemma sample_encode_words ps vs : hexBytes (sample_encode ps vs) = concat (map abi_word vs).
Proof.
  unfold sample_encode.
  assert (map (λ v, map (λ x, x mod 256) (abi_word v)) vs = map abi_word vs) as ->.
  { apply map_ext. intros v. apply map_mod_bytes, abi_word_bytes. }
  apply hexBytes_sample. induction vs as [|v vs IH]; simpl; [constructor|].
  apply Forall_app_2; [apply abi_word_bytes|done].
Qed.

(** The assumptions on viem and the EVM are satisfiable. *)
Lemma sample_viem_agrees : viem_agrees sample_keccak256 sample_encode sample_evm_keccak256.
Proof.
  constructor.
  - intros s. apply hexBytes_sample, be_word_bytes.
  - intros b. split; [apply be_word_length|apply be_word_bytes].
  - intros. by rewrite sample_encode_words.
  - intros. by rewrite sample_encode_words.
Defined.

Definition sample_claims : list claim :=
  [ Claim 0 (js "0x1111111111111111111111111111111111111111") 100;
    Claim 7 (js "0x2222222222222222222222222222222222222222") 250;
    Claim 9 (js "0x3333333333333333333333333333333333333333") 50 ].

Abbreviation sample_tree :=
  (buildMerkleSumTree sample_keccak256 sample_encode
     (make_leaves sample_keccak256 sample_encode 5 sample_claims)).

Lemma sample_claims_wf : Forall wf_claim sample_claims.
Proof. repeat constructor; by vm_compute. Qed.

Lemma sample_claims_nodup : NoDup (map index sample_claims).
Proof. apply all_distinct_spec. by vm_compute. Qed.

(** The bytes of a proof, for evaluation. *)
Definition proof_hashes (st : sum_tree) : list (list Z) :=
  map_to_list (proofs st) ≫= λ kp, omap (λ o, (λ n, hexBytes (hash n)) <$> o) kp.2.

Lemma proof_hashes_elem st key p n :
  proofs st !! key = Some p → Some n ∈ p → hexBytes (hash n) ∈ proof_hashes st.
Proof.
  intros Hp Hn. unfold proof_hashes. apply list_elem_of_bind. exists (key, p).
  split; [|by apply elem_of_map_to_list]. apply list_elem_of_omap. by exists (Some n).
Qed.

(** A property of a successful result, checked by evaluation. *)
Definition check_ok {A} (r : result A) (f : A → bool) : bool :=
  match r with Ok a => f a | Throw _ => false end.

Lemma check_ok_Ok {A} (r : result A) f a : check_ok r f = true → r = Ok a → f a = true.
Proof. intros H ->. exact H. Qed.

Lemma check_ok_exists {A} (r : result A) f : check_ok r f = true → ∃ a, r = Ok a.
Proof. destruct r as [a|]; [by exists a|done]. Qed.

Lemma sample_tree_nonzero :
  check_ok sample_tree (λ st, forallb (λ h, negb (bool_decide (h = replicate 32 0)))
                                (proof_hashes st)) = true.
Proof. vm_compute. reflexivity. Qed.

Lemma sample_tree_has_proof :
  check_ok sample_tree (λ st, bool_decide (is_Some (proofs st !! dec_of_Z 7))) = true.
Proof. vm_compute. reflexivity. Qed.

Lemma sample_tree_built : ∃ st, sample_tree = Ok st.
Proof. exact (check_ok_exists _ _ sample_tree_nonzero). Qed.

Lemma generated_proofs_verify_witness :
  ∃ st r, sample_tree = Ok st ∧ root st = Some r ∧
    ∀ c, c ∈ sample_claims → ∃ p : list node,
      proofs st !! dec_of_Z (index c) = Some (map Some p) ∧
      processProof sample_evm_keccak256 5 (index c) (account c) (amount c)
        (map to_proof_node p) = Some (hexBytes (hash r), sum r).
Proof.
  destruct sample_tree_built as [st E]. exists st.
  destruct (generated_proofs_verify sample_keccak256 sample_encode sample_evm_keccak256
              5 sample_claims st sample_viem_agrees) as (r & Hr & Hall).
  - split; by vm_compute.
  - apply sample_claims_wf.
  - apply sample_claims_nodup.
  - exact E.
  - intros key p n Hp Hn Hzero.
    pose proof (check_ok_Ok _ _ st sample_tree_nonzero E) as Hz. cbv beta in Hz.
    rewrite forallb_forall in Hz.
    pose proof (proof_hashes_elem st key p n Hp Hn) as Hin.
    apply list_elem_of_In in Hin. specialize (Hz _ Hin).
    by rewrite bool_decide_eq_true_2 in Hz.
  - exact (ex_intro _ r (conj E (conj Hr Hall))).
Defined.

Lemma root_sum_is_total_witness :
  ∃ st, sample_tree = Ok st ∧ ∃ r, root st = Some r ∧ sum r = total (map amount sample_claims).
Proof.
  destruct sample_tree_built as [st E]. exists st. split; [exact E|].
  exact (root_sum_is_total _ _ 5 sample_claims st E).
Defined.

Lemma proof_length_bound_witness :
  ∃ st p, sample_tree = Ok st ∧ proofs st !! dec_of_Z 7 = Some p ∧ (length p <= 2)%nat.
Proof.
  destruct sample_tree_built as [st E].
  pose proof (check_ok_Ok _ _ st sample_tree_has_proof E) as H. cbv beta in H.
  apply bool_decide_eq_true in H as [p Hp]. exists st, p. split; [exact E|]. split; [exact Hp|].
  apply (proof_length_bound _ _ 5 sample_claims st
           (Claim 7 (js "0x2222222222222222222222222222222222222222") 250) p
           sample_claims_wf sample_claims_nodup E); [|exact Hp].
  apply list_elem_of_further, list_elem_of_here.
Defined.

Lemma build_outcome_witness :
  (∃ st, sample_tree = Ok st) ∨ sample_tree = Throw duplicate_leaf ∨
  sample_tree = Throw ambiguous_nodes.
Proof.
  apply (build_outcome sample_keccak256 sample_encode 5 sample_claims);
    [done|apply sample_claims_wf|by vm_compute].
Defined.

(** Input entries with an unsorted index order and both number encodings. *)
Definition sample_input : list value :=
  [ VObj [(js "index", VNum (NInt 9)); (js "account", VStr (js "0x3333333333333333333333333333333333333333"));
          (js "amount", VStr (js "50"))];
    VObj [(js "index", VStr (js "7")); (js "account", VStr (js "0x2222222222222222222222222222222222222222"));
          (js "amount", VStr (js "250"))] ].

Lemma normalizeClaims_correct_witness :
  ∃ cs, normalizeClaims (λ _, true) Some sample_input = Ok cs ∧ map index cs = [7; 9] ∧
    StronglySorted (λ a b, index a < index b) cs.
Proof.
  eexists. split; [by vm_compute|]. split; [done|].
  apply (normalizeClaims_correct (λ _, true) Some sample_input). by vm_compute.
Defined.
