(* ===== verification/RewardInput.v ===== *)
(** The input and output side of contracts/scripts/generate-reward-fixture.mjs:
    arguments, CSV and JSON claim files, the duplicate-key scanner that runs
    before [JSON.parse], the atomic write, and the whole generator. *)

From S2P Require Import Prelude JsNum JsText JsValue JsonText JsPath JsUtf8 JsOps RewardTree.

Open Scope Z_scope.

Definition REQUIRED_FLAGS : list jstr := [js "--input"; js "--output"; js "--epoch-id"].

(** ** Arguments *)

(** [--help] prints the usage and exits; otherwise the map of the flags. *)
Inductive arguments := Help | Flags (values : gmap jstr jstr).

Fixpoint parseFlags (values : gmap jstr jstr) (argv : list jstr) : result (gmap jstr jstr) :=
  match argv with
  | flag :: v :: rest =>
      throw_if (negb (jmem flag REQUIRED_FLAGS)) (js "unknown flag: " +++ flag);;
      throw_if (bool_decide (is_Some (values !! flag))) (js "duplicate flag: " +++ flag);;
      throw_if (bool_decide (v = []) || starts_with (js "--") v) (flag +++ js " requires a value");;
      parseFlags (<[flag := v]> values) rest
  | _ => Ok values
  end.

Definition parseArguments (argv : list jstr) : result arguments :=
  if bool_decide (argv = [js "--help"]) then Ok Help
  else
    throw_if (negb (Nat.even (length argv)))
      (js "usage: --input <claims.csv|claims.json> --output <fixture.json> --epoch-id <uint256>");;
    values ← parseFlags ∅ argv;
    for_each (λ flag, throw_if (bool_decide (values !! flag = None))
                        (js "missing required flag: " +++ flag)) REQUIRED_FLAGS;;
    Ok (Flags values).

(** ** CSV *)

(** The variables of the loop of csvRows; [rows] and [row] are in order. *)
Record csv := Csv {
  rows : list (list jstr);
  row : list jstr;
  csv_field : jstr;
  quoted : bool;
  closedQuote : bool;
}.

Definition finishField (c : csv) : csv :=
  Csv (rows c) (row c ++ [csv_field c]) [] (quoted c) false.

Definition blank_row (r : list jstr) : bool := forallb (λ v, bool_decide (v = [])) r.

Definition finishRow (c : csv) : result csv :=
  let c := finishField c in
  throw_if (blank_row (row c))
    (js "CSV row " +++ dec_of_Z (Z.of_nat (length (rows c)) + 1) +++ js " must not be blank");;
  Ok (Csv (rows c ++ [row c]) [] (csv_field c) (quoted c) (closedQuote c)).

Definition add_char (c : csv) (x : N) : csv :=
  Csv (rows c) (row c) (csv_field c ++ [x]) (quoted c) (closedQuote c).

(** One character outside quotes; [next] is the rest of the text. *)
Definition csv_unquoted (c : csv) (x : N) (next : jstr) : result csv :=
  throw_if (closedQuote c && negb ((x =? 44)%N || (x =? 10)%N || (x =? 13)%N))
    (js "CSV contains characters after a closing quote");;
  if (x =? 34)%N then
    throw_if (negb (bool_decide (csv_field c = []))) (js "CSV quote must begin at the start of a field");;
    Ok (Csv (rows c) (row c) (csv_field c) true (closedQuote c))
  else if (x =? 44)%N then Ok (finishField c)
  else if (x =? 10)%N then finishRow c
  else if (x =? 13)%N then
    throw_if (negb (starts_with [10%N] next)) (js "CSV carriage returns must be followed by a newline");;
    Ok c
  else Ok (add_char c x).

(** The loop over the characters; a doubled quote inside quotes consumes two. *)
Fixpoint csv_scan (c : csv) (text : jstr) : result csv :=
  match text with
  | [] => Ok c
  | x :: next =>
      if quoted c then
        if (x =? 34)%N then
          match next with
          | 34%N :: next' => csv_scan (add_char c 34) next'
          | _ => csv_scan (Csv (rows c) (row c) (csv_field c) false true) next
          end
        else csv_scan (add_char c x) next
      else c' ← csv_unquoted c x next; csv_scan c' next
  end.

Definition csvRows (text : jstr) : result (list (list jstr)) :=
  throw_if (starts_with [65279%N] text) (js "CSV input must not contain a UTF-8 BOM");;
  throw_if (includes [0%N] text) (js "CSV input must not contain NUL bytes");;
  c ← csv_scan (Csv [] [] [] false false) text;
  throw_if (quoted c) (js "CSV contains an unterminated quoted field");;
  if negb (bool_decide (row c = [])) || negb (bool_decide (csv_field c = [])) || closedQuote c
  then c' ← finishRow c; Ok (rows c')
  else Ok (rows c).

(** [Object.fromEntries] of a row; the header fields are distinct. *)
Definition csv_object (header : list jstr) (r : list jstr) : value :=
  VObj (fold_left (λ fs kv, set_own (fst kv) (VStr (snd kv)) fs) (zip header r) []).

Definition csv_claim (header : list jstr) (rowIndex : nat) (r : list jstr) : result value :=
  throw_if (negb (Nat.eqb (length r) (length header)))
    (js "CSV row " +++ dec_of_Z (Z.of_nat rowIndex + 2) +++ js " has " +++ dec_of_Z (Z.of_nat (length r))
     +++ js " fields; expected " +++ dec_of_Z (Z.of_nat (length header)));;
  Ok (csv_object header r).

Definition checkHeader (header : list jstr) : result unit :=
  for_each (λ f, throw_if (negb (jmem f CLAIM_KEYS)) (js "CSV header contains unknown field: " +++ f))
    header;;
  throw_if (negb (Nat.eqb (length header) (length CLAIM_KEYS)) || negb (all_distinct header))
    (js "CSV header must contain each of index,account,amount exactly once");;
  for_each (λ f, throw_if (negb (jmem f header)) (js "CSV header is missing field: " +++ f)) CLAIM_KEYS.

Definition parseCsv (text : jstr) : result (list value) :=
  rows ← csvRows text;
  match rows with
  | header :: (_ :: _) as body =>
      checkHeader header;;
      imap_res_from (csv_claim header) 0 (tail rows)
  | _ => error (js "CSV input must contain a header and at least one claim")
  end.

(** ** The duplicate-key scanner *)

(** The scanner keeps an offset into the text; here it is the length of the
    text less that of the suffix still to read. *)
Definition offset (total : Z) (s : jstr) : jstr := dec_of_Z (total - jlen s).

Definition skipWhitespace (s : jstr) : jstr := snd (span is_space s).

Definition expect (total : Z) (c : N) (s : jstr) : result jstr :=
  match s with
  | x :: r => if (x =? c)%N then Ok r
              else error (js "expected " +++ [c] +++ js " at byte " +++ offset total s)
  | [] => error (js "expected " +++ [c] +++ js " at byte " +++ offset total s)
  end.

(** The characters up to the closing quote, and the rest. *)
Fixpoint string_end (s : jstr) : option (jstr * jstr) :=
  match s with
  | [] => None
  | c :: r =>
      if (c =? 34)%N then Some ([c], r)
      else if (c =? 92)%N then
        match r with
        | [] => None
        | e :: r' => '(a, q) ← string_end r'; Some (c :: e :: a, q)
        end
      else '(a, q) ← string_end r; Some (c :: a, q)
  end.

Definition parseString (total : Z) (s : jstr) : result (value * jstr) :=
  r ← expect total 34 s;
  match string_end r with
  | Some (body, rest) => key ← json_parse (34%N :: body); Ok (key, rest)
  | None => error (js "unterminated JSON string")
  end.

(** The longest match of the optional fraction and exponent. *)
Definition fraction_end (s : jstr) : jstr :=
  match s with
  | 46%N :: r => match span is_digit r with ([], _) => s | (_, q) => q end
  | _ => s
  end.

Definition exponent_end (s : jstr) : jstr :=
  match s with
  | c :: r =>
      if (c =? 101)%N || (c =? 69)%N then
        let r' := match r with 43%N :: t => t | 45%N :: t => t | _ => r end in
        match span is_digit r' with ([], _) => s | (_, q) => q end
      else s
  | [] => s
  end.

(** The integer part: a zero, or digits that do not start with one. *)
Definition integer_end (s : jstr) : option jstr :=
  match s with
  | 48%N :: r => Some r
  | c :: _ => if in_range 49 57 c then Some (snd (span is_digit s)) else None
  | [] => None
  end.

Definition parseNumber (total : Z) (s : jstr) : result jstr :=
  let t := match s with 45%N :: r => r | _ => s end in
  match integer_end t with
  | Some r => Ok (exponent_end (fraction_end r))
  | None => error (js "unexpected JSON token at byte " +++ offset total s)
  end.

Definition consumeLiteral (total : Z) (literal s : jstr) : result jstr :=
  if starts_with literal s then Ok (drop (length literal) s)
  else error (js "unexpected JSON token at byte " +++ offset total s).

(** The recursion depth ran out; see [scan_total]. *)
Definition out_of_fuel : exn := Exn EAssertion (js "out of fuel").

Fixpoint scanValue (fuel : nat) (total : Z) (s : jstr) : result jstr :=
  match fuel with
  | O => Throw out_of_fuel
  | S f =>
      let s := skipWhitespace s in
      match s with
      | 123%N :: r =>
          match skipWhitespace r with
          | 125%N :: q => Ok q
          | r => scanMembers f total [] r
          end
      | 91%N :: r =>
          match skipWhitespace r with
          | 93%N :: q => Ok q
          | r => scanElements f total r
          end
      | 34%N :: _ => '(_, q) ← parseString total s; Ok q
      | 116%N :: _ => consumeLiteral total (js "true") s
      | 102%N :: _ => consumeLiteral total (js "false") s
      | 110%N :: _ => consumeLiteral total (js "null") s
      | _ => parseNumber total s
      end
  end
with scanMembers (fuel : nat) (total : Z) (keys : list value) (s : jstr) : result jstr :=
  match fuel with
  | O => Throw out_of_fuel
  | S f =>
      match s with
      | [] => Ok []
      | _ =>
          '(key, r) ← parseString total (skipWhitespace s);
          throw_if (existsb (strict_eq key) keys)
            (js "duplicate JSON object key: " +++ to_string key);;
          r ← expect total 58 (skipWhitespace r);
          r ← scanValue f total r;
          match skipWhitespace r with
          | 125%N :: q => Ok q
          | r => r ← expect total 44 r; scanMembers f total (key :: keys) r
          end
      end
  end
with scanElements (fuel : nat) (total : Z) (s : jstr) : result jstr :=
  match fuel with
  | O => Throw out_of_fuel
  | S f =>
      match s with
      | [] => Ok []
      | _ =>
          r ← scanValue f total s;
          match skipWhitespace r with
          | 93%N :: q => Ok q
          | r => r ← expect total 44 r; scanElements f total r
          end
      end
  end.

Definition assertNoDuplicateJsonKeys (text : jstr) : result unit :=
  r ← scanValue (S (2 * length text)) (jlen text) text;
  let r := skipWhitespace r in
  throw_if (negb (bool_decide (r = [])))
    (js "unexpected JSON token at byte " +++ offset (jlen text) r).

(** ** Claims *)

Definition parseClaims (inputBytes : list Z) (inputPath : jstr) : result (list value) :=
  let extension := to_lower (path_extname inputPath) in
  let text := utf8_decode inputBytes in
  throw_if (negb (compare_bytes (utf8_encode text) inputBytes =? 0)) (js "input must be valid UTF-8");;
  if extension =s? js ".json" then
    v ← catch (assertNoDuplicateJsonKeys text ;; json_parse text)
          (λ e, error (js "invalid JSON input: " +++ exn_message e));
    match v with
    | VArr l => Ok l
    | _ => error (js "JSON input must be an array of claim objects")
    end
  else if extension =s? js ".csv" then parseCsv text
  else error (js "--input must use the .csv or .json extension").

(** ** Writing the fixture *)

(** File contents by path. *)
Abbreviation disk := (gmap jstr (list Z)).

(** What fails: opening, writing (after a prefix has been written), syncing,
    closing, renaming, and removing the temporary file. *)
Record faults := Faults {
  open_fault : option exn;
  write_fault : option (exn * nat);
  sync_fault : option exn;
  close_fault : option exn;
  rename_fault : option exn;
  rm_fault : bool;
}.

Section write.
Context (f : faults) (temporaryPath outputPath : jstr) (bytes : list Z).

(** An operation on the disk and the error it raised. *)
Abbreviation operation := (disk → disk * option exn).

(** [open(temporaryPath, "wx")] fails when the file exists. *)
Definition op_open : operation := λ d,
  match open_fault f with
  | Some e => (d, Some e)
  | None =>
      match d !! temporaryPath with
      | Some _ => (d, Some (Exn EError (js "EEXIST")))
      | None => (<[temporaryPath := []]> d, None)
      end
  end.

Definition op_write : operation := λ d,
  match write_fault f with
  | Some (e, n) => (<[temporaryPath := take n bytes]> d, Some e)
  | None => (<[temporaryPath := bytes]> d, None)
  end.

Definition op_sync : operation := λ d, (d, sync_fault f).
Definition op_close : operation := λ d, (d, close_fault f).

Definition op_rename : operation := λ d,
  match rename_fault f with
  | Some e => (d, Some e)
  | None =>
      match d !! temporaryPath with
      | Some b => (<[outputPath := b]> (delete temporaryPath d), None)
      | None => (d, Some (Exn EError (js "ENOENT")))
      end
  end.

(** [rm(temporaryPath, { force: true }).catch(() => {})]. *)
Definition op_rm (d : disk) : disk := if rm_fault f then d else delete temporaryPath d.

(** The disks after each operation, up to the first error. *)
Fixpoint run_operations (ops : list operation) (d : disk) : list disk * option exn :=
  match ops with
  | [] => ([], None)
  | op :: ops' =>
      let '(d', e) := op d in
      match e with
      | Some e => ([d'], Some e)
      | None => let '(ds, e) := run_operations ops' d' in (d' :: ds, e)
      end
  end.

(** The outcome and every disk state the write goes through. *)
Definition atomicWrite (d : disk) : result unit * list disk :=
  let '(ds, e) := run_operations [op_open; op_write; op_sync; op_close; op_rename] d in
  match e with
  | None => (Ok (), ds)
  | Some e => (Throw e, ds ++ [op_rm (List.last ds d)])
  end.
End write.

(** ** The generator *)

Definition serialize (v : value) : list Z := utf8_encode (stringify 2 0 v +++ [10%N]).

Section generator.
Context (keccak256 : jstr → jstr) (encodeAbiParameters : list abi_parameter → list abi_value → jstr).
Context (isAddress : jstr → bool) (getAddress : jstr → option jstr).
(** The SHA-256 digest, the working directory, the process ID and the random
    suffix of the temporary file. *)
Context (sha256_digest : list Z → list Z) (cwd pid random : jstr).

Definition sha256 (bytes : list Z) : jstr := hex_of_bytes (sha256_digest bytes).

Definition integrity (inputBytes payloadBytes : list Z) : value :=
  VObj ["algorithm" :=: vs "sha256";
        "inputSha256" :=: VStr (sha256 inputBytes);
        "outputPayloadSha256" :=: VStr (sha256 payloadBytes);
        "outputPayloadSerialization" :=: vs "json-stringify-2-space-utf8-lf-v1";
        "outputPayloadScope" :=:
          vs "byte-exact generator serialization of all top-level fields except integrity"].

(** The paths and epoch of the command line, checked. *)
Definition resolveArguments (values : gmap jstr jstr) : result (jstr * jstr * Z) :=
  let inputPath := path_resolve cwd (default [] (values !! js "--input")) in
  let outputPath := path_resolve cwd (default [] (values !! js "--output")) in
  throw_if (inputPath =s? outputPath) (js "--input and --output must be different files");;
  throw_if (negb (to_lower (path_extname outputPath) =s? js ".json"))
    (js "--output must use the .json extension");;
  epochId ← parseUint256 (VStr (default [] (values !! js "--epoch-id"))) (js "--epoch-id") false;
  Ok (inputPath, outputPath, epochId).

(** The fixture, its bytes and the number of claims, from the input bytes. *)
Definition makeFixture (epochId : Z) (inputBytes : list Z) (inputPath : jstr)
    : result (value * list Z * nat) :=
  parsed ← parseClaims inputBytes inputPath;
  claims ← normalizeClaims isAddress getAddress parsed;
  payload ← buildFixture keccak256 encodeAbiParameters epochId claims;
  let fixture := with_field payload (js "integrity") (integrity inputBytes (serialize payload)) in
  Ok (fixture, serialize fixture, length claims).

Definition temporaryPath (outputPath : jstr) : jstr :=
  outputPath +++ js "." +++ pid +++ js "." +++ random +++ js ".tmp".

Definition summary (fixture : value) (claims : nat) (outputBytes : list Z) : jstr :=
  js "reward fixture generated: " +++ dec_of_Z (Z.of_nat claims) +++ js " claims, root "
  +++ to_string (field fixture (js "merkleRoot")) +++ js ", sum "
  +++ to_string (field fixture (js "rootSum")) +++ js ", output sha256 " +++ sha256 outputBytes.

(** The run: console output and exit code, and the disks it goes through. *)
Definition main (f : faults) (d : disk) (argv : list jstr) : process_outcome * list disk :=
  let fail e := Process [] (js "reward fixture generation failed: " +++ exn_message e +++ [10%N]) 1 in
  match parseArguments argv with
  | Throw e => (fail e, [])
  | Ok Help =>
      (Process (js "usage: node contracts/scripts/generate-reward-fixture.mjs --input <claims.csv|claims.json> --output <fixture.json> --epoch-id <uint256>" +++ [10%N]) [] 0, [])
  | Ok (Flags values) =>
      match
        '(inputPath, outputPath, epochId) ← resolveArguments values;
        inputBytes ← match d !! inputPath with
                     | Some b => Ok b
                     | None => error (js "ENOENT")
                     end;
        '(fixture, outputBytes, n) ← makeFixture epochId inputBytes inputPath;
        Ok (outputPath, fixture, outputBytes, n)
      with
      | Throw e => (fail e, [])
      | Ok (outputPath, fixture, outputBytes, n) =>
          let '(written, ds) := atomicWrite f (temporaryPath outputPath) outputPath outputBytes d in
          match written with
          | Ok _ => (Process (summary fixture n outputBytes +++ [10%N]) [] 0, ds)
          | Throw e => (fail e, ds)
          end
      end
  end.
End generator.
