(* ===== verification/RewardInputFacts.v ===== *)
(** Properties of the reward generator's input and output: CSV and JSON claim
    files round-trip, the scanner lets through exactly the documents without
    duplicate keys, and the output file is written atomically. *)

From S2P Require Import Prelude JsNum JsText JsValue JsonText JsPath JsUtf8 JsOps RewardTree RewardInput.

Open Scope Z_scope.

(** ** CSV *)

(** A field in quotes, its quotes doubled. *)
Definition double_quotes (s : jstr) : jstr := s ≫= λ c, if (c =? 34)%N then [34; 34]%N else [c].
Definition render_field (s : jstr) : jstr := 34%N :: double_quotes s ++ [34%N].
Definition render_row (r : list jstr) : jstr := join (js ",") (map render_field r) ++ [10%N].
Definition render_csv (rows : list (list jstr)) : jstr := concat (map render_row rows).

Lemma double_quotes_cons c s :
  double_quotes (c :: s) = (if (c =? 34)%N then [34; 34]%N else [c]) ++ double_quotes s.
Proof. reflexivity. Qed.

Lemma scan_quoted R r f s next :
  starts_with [34%N] next = false →
  csv_scan (Csv R r f true false) (double_quotes s ++ 34%N :: next)
  = csv_scan (Csv R r (f ++ s) false true) next.
Proof.
  intros Hn. revert f. induction s as [|c s IH]; intros f.
  - cbn [double_quotes]. change (double_quotes [] ++ 34%N :: next) with (34%N :: next).
    rewrite app_nil_r. cbn [csv_scan quoted]. change (34 =? 34)%N with true. cbn iota.
    destruct next as [|x next]; [done|]. destruct x as [|p]; [done|].
    do 6 try (destruct p as [p|p|]; try reflexivity). done.
  - rewrite double_quotes_cons, <- app_assoc. destruct (N.eqb_spec c 34) as [->|Hc].
    + cbn [app csv_scan quoted]. change (34 =? 34)%N with true. cbn iota.
      unfold add_char. cbn [rows row csv_field quoted closedQuote]. rewrite IH.
      by rewrite <- app_assoc.
    + cbn [app csv_scan quoted]. rewrite (proj2 (N.eqb_neq c 34)) by done. cbn iota.
      unfold add_char. cbn [rows row csv_field quoted closedQuote]. rewrite IH.
      by rewrite <- app_assoc.
Qed.

(** A rendered field followed by a separator. *)
Lemma scan_field R r s sep next :
  sep = 44%N ∨ sep = 10%N →
  csv_scan (Csv R r [] false false) (render_field s ++ sep :: next)
  = (c ← csv_unquoted (Csv R r s false true) sep next; csv_scan c next).
Proof.
  intros Hsep. unfold render_field. cbn [app csv_scan quoted].
  unfold csv_unquoted at 1. cbn [closedQuote andb throw_if mbind result_bind csv_field].
  change (34 =? 34)%N with true. rewrite bool_decide_eq_true_2 by done.
  cbn [negb throw_if mbind result_bind rows row csv_field closedQuote].
  rewrite <- app_assoc. cbn [app]. rewrite scan_quoted by by destruct Hsep as [-> | ->].
  by destruct Hsep as [-> | ->].
Qed.

Lemma scan_row R r done_ next :
  r ≠ [] → blank_row (done_ ++ r) = false →
  csv_scan (Csv R done_ [] false false) (render_row r ++ next)
  = csv_scan (Csv (R ++ [done_ ++ r]) [] [] false false) next.
Proof.
  intros Hne. unfold render_row. revert done_.
  induction r as [|s [|t r] IH]; intros done_ Hb; [done| |].
  - cbn [map join]. rewrite <- app_assoc. cbn [app]. rewrite scan_field by by right.
    unfold csv_unquoted, finishRow, finishField. cbn [rows row csv_field quoted closedQuote].
    rewrite Hb. done.
  - change (join (js ",") (map render_field (s :: t :: r)))
      with (render_field s ++ 44%N :: join (js ",") (map render_field (t :: r))).
    rewrite <- !app_assoc. cbn [app]. rewrite scan_field by by left.
    unfold csv_unquoted, finishField. cbn [rows row csv_field quoted closedQuote].
    change (44 =? 44)%N with true. change (44 =? 34)%N with false.
    cbn [orb negb andb throw_if mbind result_bind].
    rewrite (app_assoc _ [10%N] next), IH; [|done|by rewrite <- app_assoc].
    by rewrite <- app_assoc.
Qed.

Lemma scan_rows rs : ∀ R,
  Forall (λ r, r ≠ [] ∧ blank_row r = false) rs →
  csv_scan (Csv R [] [] false false) (render_csv rs) = Ok (Csv (R ++ rs) [] [] false false).
Proof.
  induction rs as [|r rs IH]; intros R Hrs; [by rewrite app_nil_r|].
  apply Forall_cons in Hrs as [[Hne Hb] Hrs]. unfold render_csv. cbn [map concat].
  rewrite scan_row by done. rewrite IH by done. by rewrite <- app_assoc.
Qed.

Lemma not_in_includes (x : N) s : x ∉ s → includes [x] s = false.
Proof.
  intros Hx. apply not_true_iff_false. intros (l & r & ->)%includes_spec. apply Hx.
  rewrite elem_of_app, elem_of_app, list_elem_of_singleton. auto.
Qed.

Lemma render_no_nul rs :
  Forall (Forall (λ s, (0%N : N) ∉ s)) rs → 0%N ∉ render_csv rs.
Proof.
  assert (∀ s, (0%N : N) ∉ s → 0%N ∉ render_field s) as Hfield.
  { intros s Hs. unfold render_field, double_quotes. rewrite elem_of_cons, elem_of_app, list_elem_of_singleton.
    intros [?|[(c & Hin & Hc)%list_elem_of_bind|?]]; [done| |done].
    destruct (N.eqb_spec c 34); [set_solver|]. apply list_elem_of_singleton in Hin. by subst. }
  assert (∀ r, Forall (λ s, (0%N : N) ∉ s) r → 0%N ∉ join (js ",") (map render_field r)) as Hjoin.
  { induction 1 as [|s r Hs Hr IH]; [apply not_elem_of_nil|]. destruct r as [|t r]; [by apply Hfield|].
    change (0%N ∉ render_field s ++ 44%N :: join (js ",") (map render_field (t :: r))).
    rewrite elem_of_app, elem_of_cons. intros [?|[?|?]]; [by apply (Hfield s Hs)|done|done]. }
  induction 1 as [|r rs Hr Hrs IH]; [apply not_elem_of_nil|]. unfold render_csv. cbn [map concat].
  unfold render_row at 1. rewrite !elem_of_app, list_elem_of_singleton.
  intros [[?|?]|?]; [by apply (Hjoin r Hr)|done|done].
Qed.

Lemma csvRows_render rs :
  Forall (λ r, r ≠ [] ∧ blank_row r = false) rs →
  Forall (Forall (λ s, (0%N : N) ∉ s)) rs →
  csvRows (render_csv rs) = Ok rs.
Proof.
  intros Hrs Hnul. unfold csvRows.
  assert (starts_with [65279%N] (render_csv rs) = false) as ->.
  { destruct Hrs as [|r rs [Hne _] _]; [done|]. destruct r as [|s [|t r]]; done. }
  rewrite not_in_includes by by apply render_no_nul.
  cbn [throw_if mbind result_bind]. by rewrite scan_rows.
Qed.

(** Well-formed text is closed under concatenation and quoting. *)
Lemma well_formed_pair h l s :
  well_formed (h :: l :: s) =
  if is_high h && is_low l then well_formed s
  else negb (is_high h || is_low h) && (h <? 65536)%N && well_formed (l :: s).
Proof. reflexivity. Qed.

Lemma well_formed_plain c s :
  is_high c = false → is_low c = false → (c <? 65536)%N = true →
  well_formed (c :: s) = well_formed s.
Proof.
  intros Hh Hl Hc. destruct s as [|d s].
  - simpl. by rewrite Hh, Hl, Hc.
  - rewrite well_formed_pair, Hh, Hl, Hc. done.
Qed.

(** Induction on well-formed text by code points. *)
Lemma well_formed_induct (P : jstr → Prop) :
  P [] →
  (∀ c s, is_high c = false → is_low c = false → (c <? 65536)%N = true →
     well_formed s = true → P s → P (c :: s)) →
  (∀ h l s, is_high h = true → is_low l = true → well_formed s = true → P s → P (h :: l :: s)) →
  ∀ s, well_formed s = true → P s.
Proof.
  intros H0 H1 H2 s. remember (length s) as n eqn:Hn. revert s Hn.
  induction (lt_wf n) as [n _ IH]; intros s Hn Hs. destruct s as [|h [|l s]]; [done| |].
  - simpl in Hs. inv_bool. by apply H1.
  - rewrite well_formed_pair in Hs. destruct (is_high h && is_low l) eqn:E; inv_bool.
    + apply H2; try done. apply (IH (length s)); [simpl in Hn; lia|done|done].
    + apply H1; try done. apply (IH (length (l :: s))); [simpl in *; lia|done|done].
Qed.

Lemma well_formed_app a b : well_formed a = true → well_formed b = true → well_formed (a ++ b) = true.
Proof.
  intros Ha Hb. revert a Ha. apply well_formed_induct; [done| |].
  - intros c s Hh Hl Hc _ IH. cbn [app]. by rewrite well_formed_plain.
  - intros h l s Hh Hl _ IH. cbn [app]. by rewrite well_formed_pair, Hh, Hl.
Qed.

Lemma well_formed_double_quotes s : well_formed s = true → well_formed (double_quotes s) = true.
Proof.
  revert s. apply well_formed_induct; [done| |].
  - intros c s Hh Hl Hc _ IH. rewrite double_quotes_cons. destruct (c =? 34)%N.
    + cbn [app]. by rewrite !well_formed_plain.
    + cbn [app]. by rewrite well_formed_plain.
  - intros h l s Hh Hl _ IH. rewrite !double_quotes_cons. unfold is_high, is_low in *.
    pose proof Hh as Hh'. pose proof Hl as Hl'. apply in_range_spec in Hh', Hl'.
    rewrite !(proj2 (N.eqb_neq _ 34)) by lia. cbn [app]. rewrite well_formed_pair.
    unfold is_high, is_low. by rewrite Hh, Hl.
Qed.

Lemma well_formed_field s : well_formed s = true → well_formed (render_field s) = true.
Proof.
  intros Hs. unfold render_field. rewrite well_formed_plain by done.
  apply well_formed_app; [by apply well_formed_double_quotes|done].
Qed.

Lemma well_formed_render rs :
  Forall (Forall (λ s, well_formed s = true)) rs → well_formed (render_csv rs) = true.
Proof.
  assert (∀ r, Forall (λ s, well_formed s = true) r →
    well_formed (join (js ",") (map render_field r)) = true) as Hjoin.
  { induction 1 as [|s r Hs Hr IH]; [done|]. destruct r as [|t r]; [by apply well_formed_field|].
    change (well_formed (render_field s ++ 44%N :: join (js ",") (map render_field (t :: r))) = true).
    apply well_formed_app; [by apply well_formed_field|]. by rewrite well_formed_plain. }
  induction 1 as [|r rs Hr Hrs IH]; [done|]. unfold render_csv. cbn [map concat].
  unfold render_row at 1. apply well_formed_app; [|done]. apply well_formed_app; [by apply Hjoin|done].
Qed.

Lemma parseClaims_text text path :
  well_formed text = true →
  parseClaims (utf8_encode text) path =
  (let extension := to_lower (path_extname path) in
   if extension =s? js ".json" then
     v ← catch (assertNoDuplicateJsonKeys text ;; json_parse text)
           (λ e, error (js "invalid JSON input: " +++ exn_message e));
     match v with
     | VArr l => Ok l
     | _ => error (js "JSON input must be an array of claim objects")
     end
   else if extension =s? js ".csv" then parseCsv text
   else error (js "--input must use the .csv or .json extension")).
Proof.
  intros Ht. unfold parseClaims. by rewrite utf8_decode_encode, compare_bytes_refl by done.
Qed.

(** The claim object of a CSV record. *)
Definition claim_object (r : jstr * jstr * jstr) : value :=
  let '(i, a, m) := r in
  VObj [(js "index", VStr i); (js "account", VStr a); (js "amount", VStr m)].

Definition record_row (r : jstr * jstr * jstr) : list jstr := let '(i, a, m) := r in [i; a; m].

Lemma csv_claims_body records k :
  imap_res_from (csv_claim CLAIM_KEYS) k (map record_row records) = Ok (map claim_object records).
Proof.
  revert k. induction records as [|[[i a] m] rs IH]; intros k; [done|].
  cbn [map imap_res_from record_row]. rewrite IH. done.
Qed.

(** CSV claim files round-trip: records written with quoted fields, whatever
    commas, quotes and line breaks they contain, are read back from the bytes of
    the file as claim objects with exactly those fields, in order. *)
Theorem csv_claims_roundtrip records path :
  to_lower (path_extname path) = js ".csv" → records ≠ [] →
  Forall (λ r, blank_row (record_row r) = false) records →
  Forall (λ r, Forall (λ s, (0%N : N) ∉ s ∧ well_formed s = true) (record_row r)) records →
  parseClaims (utf8_encode (render_csv (CLAIM_KEYS :: map record_row records))) path
  = Ok (map claim_object records).
Proof.
  intros Hext Hne Hblank Hfields.
  assert (∀ Q : jstr → Prop, Forall Q CLAIM_KEYS →
    (∀ s, (0%N : N) ∉ s ∧ well_formed s = true → Q s) →
    Forall (Forall Q) (CLAIM_KEYS :: map record_row records)) as Hall.
  { intros Q Hk HQ. constructor; [done|]. apply Forall_fmap. eapply Forall_impl; [exact Hfields|].
    intros r Hr. eapply Forall_impl; [exact Hr|exact HQ]. }
  rewrite parseClaims_text.
  2:{ apply well_formed_render, Hall; [by repeat constructor|]. by intros s [_ ?]. }
  cbv zeta. rewrite Hext. change (js ".csv" =s? js ".json") with false.
  rewrite jeq_refl. cbn iota. unfold parseCsv. rewrite csvRows_render.
  - cbn [mbind result_bind]. destruct records as [|r rs]; [done|].
    change (map record_row (r :: rs)) with (record_row r :: map record_row rs). cbn [tail].
    change (checkHeader CLAIM_KEYS) with (Ok ()). cbn [mbind result_bind].
    by rewrite <- (csv_claims_body (r :: rs) 0).
  - constructor; [done|]. apply Forall_fmap. eapply Forall_impl; [exact Hblank|].
    intros [[i a] m] Hr. done.
  - apply Hall; [apply (bool_decide_unpack _); by vm_compute|by intros s [? _]].
Qed.

Definition sample_records : list (jstr * jstr * jstr) :=
  [(js "0", js "0x00000000000000000000000000000000000000aa", js "5");
   (js "1", [34; 44; 10; 34]%N, js "")].

Lemma csv_claims_roundtrip_witness :
  parseClaims (utf8_encode (render_csv (CLAIM_KEYS :: map record_row sample_records))) (js "/c.csv")
  = Ok (map claim_object sample_records).
Proof.
  apply csv_claims_roundtrip.
  - vm_compute. reflexivity.
  - discriminate.
  - apply (bool_decide_unpack _). vm_compute. exact I.
  - apply (bool_decide_unpack _). vm_compute. exact I.
Defined.

(** ** Atomic output *)

Lemma last_snoc {A} (l : list A) x d : List.last (l ++ [x]) d = x.
Proof. apply last_last. Qed.

Lemma last_In {A} (l : list A) d : l ≠ [] → In (List.last l d) l.
Proof.
  induction l as [|x [|y l] IH]; intros Hne; [done|by left|]. right. by apply IH.
Qed.

Section atomic.
Context (f : faults) (temporaryPath outputPath : jstr) (bytes : list Z) (d : disk).
Context (Hne : temporaryPath ≠ outputPath).

(** Equal to the starting disk but for the temporary file. *)
Definition agrees (d' : disk) : Prop := ∀ p, p ≠ temporaryPath → d' !! p = d !! p.

Definition old_or_new (d' : disk) : Prop :=
  (d' !! outputPath = d !! outputPath ∨ d' !! outputPath = Some bytes) ∧
  ∀ p, p ≠ outputPath → p ≠ temporaryPath → d' !! p = d !! p.

Lemma agrees_old_or_new d' : agrees d' → old_or_new d'.
Proof. intros H. split; [left; by apply H|]. intros p _ Hp. by apply H. Qed.

Lemma agrees_insert d' b : agrees d' → agrees (<[temporaryPath := b]> d').
Proof. intros H p Hp. rewrite lookup_insert_ne by done. by apply H. Qed.

Lemma agrees_rm d' : agrees d' → agrees (op_rm f temporaryPath d').
Proof.
  intros H p Hp. unfold op_rm. destruct (rm_fault f); [by apply H|].
  rewrite lookup_delete_ne by done. by apply H.
Qed.

(** A trace that ends in the clean-up leaves the output path alone. *)
Lemma failed_trace ds d' :
  Forall agrees ds → agrees d' →
  Forall old_or_new (ds ++ [op_rm f temporaryPath d']) ∧
  List.last (ds ++ [op_rm f temporaryPath d']) d !! outputPath = d !! outputPath ∧
  (rm_fault f = false →
   List.last (ds ++ [op_rm f temporaryPath d']) d !! temporaryPath = None).
Proof.
  intros Hds Hd'. pose proof (agrees_rm d' Hd') as Hrm. rewrite last_snoc. split_and!.
  - apply Forall_app. split; [|constructor; [by apply agrees_old_or_new|constructor]].
    eapply Forall_impl; [exact Hds|]. apply agrees_old_or_new.
  - by apply Hrm.
  - intros Hf. unfold op_rm. rewrite Hf. apply lookup_delete_eq.
Qed.
End atomic.

(** In every state the disk goes through, the output path holds what it held
    before or the complete new bytes; success leaves the new bytes and no
    temporary file, and a failure leaves the output path as it was. *)
Lemma atomic_output f temporaryPath outputPath bytes (d : disk) r ds :
  temporaryPath ≠ outputPath →
  atomicWrite f temporaryPath outputPath bytes d = (r, ds) →
  Forall (old_or_new temporaryPath outputPath bytes d) ds ∧
  match r with
  | Ok _ => List.last ds d = <[outputPath := bytes]> (delete temporaryPath d)
  | Throw _ => List.last ds d !! outputPath = d !! outputPath ∧
               (rm_fault f = false → List.last ds d !! temporaryPath = None)
  end.
Proof.
  intros Hne Hw. unfold atomicWrite in Hw. cbn [run_operations] in Hw.
  assert (agrees temporaryPath d d) as Hd by done.
  pose proof (agrees_insert temporaryPath d d [] Hd) as H1.
  pose proof (agrees_insert temporaryPath d _ bytes H1) as H2.
  assert (∀ ds' d' e, Forall (agrees temporaryPath d) ds' → agrees temporaryPath d d' →
    (Throw e, ds' ++ [op_rm f temporaryPath d']) = (r, ds) →
    Forall (old_or_new temporaryPath outputPath bytes d) ds ∧
    match r with
    | Ok _ => List.last ds d = <[outputPath := bytes]> (delete temporaryPath d)
    | Throw _ => List.last ds d !! outputPath = d !! outputPath ∧
                 (rm_fault f = false → List.last ds d !! temporaryPath = None)
    end) as Hfail.
  { intros ds' d' e Hds Hd' [= <- <-]. by apply failed_trace. }
  unfold op_open at 1 in Hw.
  destruct (open_fault f); [eapply (Hfail [d]); [by repeat constructor|exact Hd|exact Hw]|].
  destruct (d !! temporaryPath) eqn:Et; [eapply (Hfail [d]); [by repeat constructor|exact Hd|exact Hw]|].
  unfold op_write at 1 in Hw. destruct (write_fault f) as [[e n]|].
  { eapply (Hfail [_; _]); [|exact (agrees_insert _ _ _ (take n bytes) H1)|exact Hw].
    repeat constructor; [exact H1|exact (agrees_insert _ _ _ (take n bytes) H1)]. }
  unfold op_sync in Hw. destruct (sync_fault f).
  { eapply (Hfail [_; _; _]); [|exact H2|exact Hw]. by repeat constructor. }
  unfold op_close in Hw. destruct (close_fault f).
  { eapply (Hfail [_; _; _; _]); [|exact H2|exact Hw]. by repeat constructor. }
  unfold op_rename in Hw. destruct (rename_fault f).
  { eapply (Hfail [_; _; _; _; _]); [|exact H2|exact Hw]. by repeat constructor. }
  rewrite lookup_insert_eq in Hw. injection Hw as <- <-. cbn [List.last].
  rewrite insert_insert_eq in *. rewrite delete_insert_eq. split; [|done].
  do 4 (apply Forall_cons_2; [by apply agrees_old_or_new|]). constructor; [|constructor].
  split; [right; apply lookup_insert_eq|]. intros p Hp Hp'.
  by rewrite lookup_insert_ne, lookup_delete_ne by done.
Qed.

(** ** The generator *)

Lemma temporaryPath_ne pid random outputPath : temporaryPath pid random outputPath ≠ outputPath.
Proof.
  intros E. apply (f_equal length) in E. unfold temporaryPath, jcat in E.
  rewrite !length_app in E. simpl in E. lia.
Qed.

(** A run of the generator is all or nothing, whatever file operation fails:
    in every state the disk goes through the output path holds its old contents
    or the complete fixture and no other file but the temporary one changes; exit
    code 0 means the output path holds the serialization of the fixture built
    from the input file, with no temporary file left; exit code 1 leaves the
    output path as it was. *)
Theorem generator_outcome keccak encode isAddr getAddr digest cwd pid random f (d : disk) argv values :
  parseArguments argv = Ok (Flags values) →
  let inputPath := path_resolve cwd (default [] (values !! js "--input")) in
  let outputPath := path_resolve cwd (default [] (values !! js "--output")) in
  let '(out, ds) := main keccak encode isAddr getAddr digest cwd pid random f d argv in
  ∃ bytes,
    Forall (old_or_new (temporaryPath pid random outputPath) outputPath bytes d) ds ∧
    (exitCode out = 0 ∧ inputPath ≠ outputPath ∧
     List.last ds d !! outputPath = Some bytes ∧
     List.last ds d !! temporaryPath pid random outputPath = None ∧
     (∃ epochId inputBytes fixture n,
        d !! inputPath = Some inputBytes ∧
        makeFixture keccak encode isAddr getAddr digest epochId inputBytes inputPath
        = Ok (fixture, bytes, n) ∧ bytes = serialize fixture)
     ∨ exitCode out = 1 ∧ List.last ds d !! outputPath = d !! outputPath).
Proof.
  intros Hargs inputPath outputPath. unfold main. rewrite Hargs.
  destruct (resolveArguments cwd values) as [[[ip op] epochId]|e] eqn:Hres; cbn [mbind result_bind].
  2:{ exists []. split; [constructor|by right]. }
  assert (ip = inputPath ∧ op = outputPath ∧ inputPath ≠ outputPath) as (-> & -> & Hne).
  { unfold resolveArguments in Hres. passed Hres as H1. passed Hres as H2. take Hres as z Hz.
    injection Hres as <- <- <-. by apply jeq_neq in H1. }
  destruct (d !! inputPath) as [inputBytes|] eqn:Hin; cbn [mbind result_bind].
  2:{ exists []. split; [constructor|by right]. }
  destruct (makeFixture keccak encode isAddr getAddr digest epochId inputBytes inputPath)
    as [[[fixture bytes] n]|e] eqn:Hfix; cbn [mbind result_bind].
  2:{ exists []. split; [constructor|by right]. }
  destruct (atomicWrite f (temporaryPath pid random outputPath) outputPath bytes d) as [r ds] eqn:Hw.
  pose proof (temporaryPath_ne pid random outputPath) as Htmp.
  destruct (atomic_output _ _ _ _ _ _ _ Htmp Hw) as [Hall Hres'].
  assert (bytes = serialize fixture) as Hser.
  { unfold makeFixture in Hfix. take Hfix as p1 H1. take Hfix as p2 H2. take Hfix as p3 H3.
    by injection Hfix as <- <- _. }
  destruct r as [[]|e]; exists bytes; (split; [exact Hall|]).
  - left. split; [reflexivity|]. split; [exact Hne|]. rewrite Hres'.
    split; [apply lookup_insert_eq|]. split.
    { rewrite lookup_insert_ne by done. apply lookup_delete_eq. }
    by exists epochId, inputBytes, fixture, n.
  - right. split; [reflexivity|]. by destruct Hres'.
Qed.

Definition sample_values : gmap jstr jstr :=
  {[js "--input" := js "c.csv"; js "--output" := js "o.json"; js "--epoch-id" := js "7"]}.

Definition sample_argv : list jstr :=
  [js "--input"; js "c.csv"; js "--output"; js "o.json"; js "--epoch-id"; js "7"].

Definition sample_disk : disk :=
  {[js "/w/c.csv" := utf8_encode (render_csv [CLAIM_KEYS;
      [js "0"; js "0x00000000000000000000000000000000000000aa"; js "5"]])]}.

Abbreviation sample_main := (main (λ s, js "0x" +++ s) (λ _ _, js "00") (λ _, true) Some (λ b, take 2 b)
  (js "/w") (js "1") (js "r") (Faults None None None None None false) sample_disk sample_argv).

Lemma sample_main_exit : exitCode (fst sample_main) = 0.
Proof. vm_compute. reflexivity. Qed.

Lemma generator_outcome_witness :
  exitCode (fst sample_main) = 0 ∧
  ∃ bytes, List.last (snd sample_main) sample_disk !! js "/w/o.json" = Some bytes.
Proof.
  split; [exact sample_main_exit|].
  pose proof (generator_outcome (λ s, js "0x" +++ s) (λ _ _, js "00") (λ _, true) Some (λ b, take 2 b)
    (js "/w") (js "1") (js "r") (Faults None None None None None false) sample_disk sample_argv
    sample_values ltac:(vm_compute; reflexivity)) as H.
  pose proof sample_main_exit as E. cbv zeta in H.
  destruct sample_main as [out ds]. cbn [fst snd] in *.
  destruct H as (bytes & _ & [(_ & _ & H & _)|[H _]]).
  - exists bytes. exact H.
  - rewrite E in H. discriminate H.
Defined.
