(* ===== verification/RewardScanFacts.v ===== *)
(** The duplicate-key scanner of the reward generator against [JSON.parse]: on
    text that parses, the scanner reads the same tokens, and it accepts exactly
    when no object of the document repeats a key. *)

From S2P Require Import Prelude JsNum JsText JsValue JsonText JsPath JsUtf8 JsOps RewardTree RewardInput RewardInputFacts.

Open Scope Z_scope.

(** ** Reading a document without duplicate keys *)

(** [parse_value] that also refuses an object with a repeated key. *)
Fixpoint strict_value (fuel : nat) (s : jstr) : option (value * jstr) :=
  match fuel with
  | O => None
  | S f =>
      match skip_ws s with
      | 123%N :: r =>
          match close_after 125 r with
          | Some q => Some (VObj [], q)
          | None => strict_members f [] r
          end
      | 91%N :: r =>
          match close_after 93 r with
          | Some q => Some (VArr [], q)
          | None => strict_elements f [] r
          end
      | _ => parse_value fuel s
      end
  end
with strict_members (fuel : nat) (fs : list (jstr * value)) (s : jstr) : option (value * jstr) :=
  match fuel with
  | O => None
  | S f =>
      match skip_ws s with
      | 34%N :: r =>
          '(k, r) ← string_body r;
          match skip_ws r with
          | 58%N :: r =>
              '(v, r) ← strict_value f r;
              if jmem k (map fst fs) then None
              else
                let fs' := set_own k v fs in
                match skip_ws r with
                | 44%N :: r => strict_members f fs' r
                | 125%N :: q => Some (VObj fs', q)
                | _ => None
                end
          | _ => None
          end
      | _ => None
      end
  end
with strict_elements (fuel : nat) (l : list value) (s : jstr) : option (value * jstr) :=
  match fuel with
  | O => None
  | S f =>
      '(v, r) ← strict_value f s;
      match skip_ws r with
      | 44%N :: r => strict_elements f (l ++ [v]) r
      | 93%N :: q => Some (VArr (l ++ [v]), q)
      | _ => None
      end
  end.

(** The value of a document without duplicate keys. *)
Definition strict_parse (s : jstr) : option value :=
  '(v, q) ← strict_value (S (2 * length s)) s;
  match skip_ws q with [] => Some v | _ => None end.

(** ** White space *)

Lemma json_ws_space c : json_ws c = true → is_space c = true.
Proof.
  unfold json_ws. rewrite !orb_true_iff, !N.eqb_eq.
  intros [[[->| ->]| ->]| ->]; reflexivity.
Qed.

Lemma span_cons p c s : p c = true → snd (span p (c :: s)) = snd (span p s).
Proof. intros Hc. simpl. rewrite Hc. by destruct (span p s). Qed.

Lemma skip_same s c r :
  skip_ws s = c :: r → is_space c = false → skipWhitespace s = c :: r.
Proof.
  intros Hs Hc. unfold skip_ws, skipWhitespace in *. induction s as [|x s IH]; [done|].
  destruct (json_ws x) eqn:Ex.
  - rewrite span_cons in Hs by done. rewrite span_cons by by apply json_ws_space. auto.
  - simpl in Hs. rewrite Ex in Hs. simpl in Hs. injection Hs as -> ->. simpl. by rewrite Hc.
Qed.

Lemma skip_nil s : skip_ws s = [] → skipWhitespace s = [].
Proof.
  unfold skip_ws, skipWhitespace. induction s as [|x s IH]; [done|]. intros Hs.
  destruct (json_ws x) eqn:Ex; [|simpl in Hs; by rewrite Ex in Hs].
  rewrite span_cons in Hs by done. rewrite span_cons by by apply json_ws_space. auto.
Qed.

(** ** Tokens *)

Lemma hex_plain c : is_hex c = true → (c =? 34)%N = false ∧ (c =? 92)%N = false.
Proof.
  unfold is_hex, is_lower_hex, is_digit. rewrite !orb_true_iff, !in_range_spec, !N.eqb_neq. lia.
Qed.

(** Text that reads as the string [t] up to its closing quote. *)
Lemma string_end_body r t q :
  string_body r = Some (t, q) → ∃ body, string_end r = Some (body, q) ∧ string_body body = Some (t, []).
Proof.
  remember (length r) as n eqn:Hn. revert r t Hn.
  induction (lt_wf n) as [n _ IH]; intros r t Hn H. destruct r as [|c r]; [done|].
  destruct (N.eqb_spec c 34) as [->|H34].
  { cbn in H. injection H as <- <-. exists [34%N]. done. }
  destruct (N.eqb_spec c 92) as [->|H92].
  - destruct r as [|e r]; [done|]. destruct (N.eqb_spec e 117) as [->|H117].
    + destruct r as [|x1 [|x2 [|x3 [|x4 r]]]]; try done. cbn [string_body] in H.
      destruct (is_hex x1 && is_hex x2 && is_hex x3 && is_hex x4) eqn:Hx; [|done].
      destruct (string_body r) as [[t' q']|] eqn:Hr; [|done]. cbn in H. injection H as <- <-.
      destruct (IH (length r) ltac:(simpl in Hn; lia) r t' eq_refl Hr) as (body & Hb & Hbody).
      exists (92 :: 117 :: x1 :: x2 :: x3 :: x4 :: body)%N. split.
      * inv_bool. cbn [string_end].
        change (92 =? 34)%N with false. change (92 =? 92)%N with true. cbn iota.
        repeat match goal with H : is_hex _ = true |- _ => apply hex_plain in H as [-> ->] end.
        by rewrite Hb.
      * cbn [string_body]. by rewrite Hx, Hbody.
    + assert (∀ s, string_body (92%N :: e :: s) = u ← unescape e; '(t, q) ← string_body s; Some (u :: t, q)) as Hesc.
      { intros s. destruct e as [|p]; [done|].
        do 7 try (destruct p as [p|p|]; try reflexivity); congruence. }
      rewrite Hesc in H. destruct (unescape e) as [u|] eqn:Hu; [|done]. cbn in H.
      destruct (string_body r) as [[t' q']|] eqn:Hr; [|done]. cbn in H. injection H as <- <-.
      destruct (IH (length r) ltac:(simpl in Hn; lia) r t' eq_refl Hr) as (body & Hb & Hbody).
      exists (92 :: e :: body)%N. split.
      * cbn [string_end]. change (92 =? 34)%N with false. change (92 =? 92)%N with true. cbn iota.
        by rewrite Hb.
      * by rewrite Hesc, Hbody.
  - assert (∀ s, string_body (c :: s) =
      if (c <? 32)%N then None else '(t, q) ← string_body s; Some (c :: t, q)) as Hplain.
    { intros s. destruct (N.ltb_spec c 32) as [Hlt|Hge]; [|by apply string_body_plain].
      destruct c as [|p]; [done|].
      do 7 try (destruct p as [p|p|]; try reflexivity); lia. }
    rewrite Hplain in H. destruct (c <? 32)%N eqn:E32; [done|].
    destruct (string_body r) as [[t' q']|] eqn:Hr; [|done]. cbn in H. injection H as <- <-.
    destruct (IH (length r) ltac:(simpl in Hn; lia) r t' eq_refl Hr) as (body & Hb & Hbody).
    exists (c :: body). split.
    + cbn [string_end]. rewrite (proj2 (N.eqb_neq c 34)), (proj2 (N.eqb_neq c 92)) by done.
      by rewrite Hb.
    + by rewrite Hplain, Hbody.
Qed.

Lemma parseString_body total r t q :
  string_body r = Some (t, q) → parseString total (34%N :: r) = Ok (VStr t, q).
Proof.
  intros H. destruct (string_end_body r t q H) as (body & Hend & Hbody).
  unfold parseString. cbn [expect]. change (34 =? 34)%N with true. cbn [mbind result_bind].
  rewrite Hend. unfold json_parse. cbn [parse_value].
  rewrite skip_ws_token by done. cbn iota. by rewrite Hbody.
Qed.

Lemma span_app (p : N → bool) s a b : span p s = (a, b) → s = a ++ b.
Proof.
  revert a b. induction s as [|c s IH]; intros a b H; simpl in H; [by simplify_eq|].
  destruct (p c); [|by simplify_eq]. destruct (span p s) as [a' b'].
  simplify_eq. simpl. f_equal. by apply IH.
Qed.

Lemma integer_end_span s ip r :
  span is_digit s = (ip, r) → is_canonical_dec ip = true → integer_end s = Some r.
Proof.
  intros Hs Hc. pose proof (span_app _ _ _ _ Hs) as ->. destruct ip as [|c ip]; [done|].
  cbn [app integer_end]. cbn [is_canonical_dec] in Hc. destruct (N.eqb_spec c 48) as [->|Hne].
  - apply bool_decide_eq_true in Hc as ->. done.
  - apply andb_true_iff in Hc as [Hr _]. cbn [app] in Hs. rewrite Hs.
    apply in_range_spec in Hr as Hr'. rewrite Hr. cbn [snd].
    destruct c as [|p]; [done|]. do 6 try (destruct p as [p|p|]; try reflexivity); congruence.
Qed.

Lemma exponent_end_part s e q : exponent_part s = Some (e, q) → exponent_end s = q.
Proof.
  destruct s as [|c r]; cbn [exponent_part exponent_end]; [by intros [= _ <-]|].
  destruct ((c =? 101)%N || (c =? 69)%N); [|by intros [= _ <-]].
  assert (∀ t neg, match span is_digit t with
    | ([], _) => None
    | (ds, rest) => Some (if neg : bool then - Z_of_dec ds else Z_of_dec ds, rest)
    end = Some (e, q) → (match span is_digit t with ([], _) => c :: r | (_, q') => q' end) = q) as Hd.
  { intros t neg. destruct (span is_digit t) as [[|d ds] rest]; [done|]. by intros [= _ <-]. }
  destruct r as [|x r]; [apply (Hd [] false)|].
  destruct (N.eqb_spec x 43) as [->|H1]; [apply (Hd r false)|].
  destruct (N.eqb_spec x 45) as [->|H2]; [apply (Hd r true)|].
  assert (∀ A (a b d : A), match x with 43%N => a | 45%N => b | _ => d end = d) as Hx.
  { intros A a b d. destruct x as [|p]; [done|].
    do 6 try (destruct p as [p|p|]; try reflexivity); congruence. }
  rewrite !Hx. apply (Hd (x :: r) false).
Qed.

Lemma number_end neg s n q :
  parse_number neg s = Some (n, q) →
  ∃ r, integer_end s = Some r ∧ exponent_end (fraction_end r) = q.
Proof.
  unfold parse_number. destruct (span is_digit s) as [ip r] eqn:Hs.
  destruct (is_canonical_dec ip) eqn:Hc; cbn [negb]; [|done]. intros H. exists r.
  split; [by eapply integer_end_span|].
  assert (∀ fp r' : jstr, ('(e, q) ← exponent_part r';
      Some (num_of_decimal neg (ip ++ fp) (e - jlen fp), q)) = Some (n, q) → exponent_end r' = q) as Hexp.
  { intros fp r' He. destruct (exponent_part r') as [[e q']|] eqn:Ee; [|done].
    cbn in He. injection He as _ <-. by eapply exponent_end_part. }
  destruct r as [|x r]; [by apply (Hexp [])|].
  destruct (N.eqb_spec x 46) as [->|Hx].
  - cbn [fraction_end]. destruct (span is_digit r) as [[|d ds] r'] eqn:Hf; [done|].
    by apply (Hexp (d :: ds)).
  - assert (∀ A (a b : A), match x with 46%N => a | _ => b end = b) as Hm.
    { intros A a b. destruct x as [|p]; [done|].
      do 6 try (destruct p as [p|p|]; try reflexivity); congruence. }
    unfold fraction_end. rewrite Hm in *. by apply (Hexp []).
Qed.

(** ** Heads *)

Lemma opens_not_space c : opens_value c = true → is_space c = false ∧ json_ws c = false.
Proof.
  unfold opens_value. rewrite !orb_true_iff, !N.eqb_eq.
  intros [[[[[[[->| ->]| ->]| ->]| ->]| ->]| ->]|H]; try done. by case_digit H.
Qed.

Lemma number_opens neg s x : parse_number neg s = Some x → ∃ c r, s = c :: r ∧ is_digit c = true.
Proof.
  destruct x as [n q]. intros H. destruct (number_end _ _ _ _ H) as (r & Hi & _).
  destruct s as [|c s]; [done|]. exists c, s. split; [done|]. apply is_digit_spec.
  destruct (N.eqb_spec c 48) as [->|Hne]; [lia|]. cbn [integer_end] in Hi.
  destruct (in_range 49 57 c) eqn:E; [apply in_range_spec in E; lia|].
  destruct c as [|p]; [done|]. by do 6 try (destruct p as [p|p|]; try done).
Qed.

Lemma value_head f s x :
  parse_value (S f) s = Some x → ∃ c r, skip_ws s = c :: r ∧ opens_value c = true.
Proof.
  cbn [parse_value]. destruct (skip_ws s) as [|c r]; [done|]. intros H. exists c, r. split; [done|].
  unfold opens_value.
  destruct (is_digit c) eqn:Ed; [by rewrite orb_true_r|].
  assert (∀ y, parse_number false (c :: r) ≠ Some y) as Hno.
  { intros y Hy. apply number_opens in Hy as (c' & r' & [= <- <-] & Hc). congruence. }
  destruct (parse_number false (c :: r)) as [y|]; [by destruct (Hno y)|].
  destruct c as [|p]; [done|]. by do 7 try (destruct p as [p|p|]; try done).
Qed.

(** Matches on literal characters as tests. *)
Ltac literal x :=
  destruct x as [|p]; [reflexivity|]; do 7 try (destruct p as [p|p|]; try reflexivity).

Lemma lit34 A (a b : A) x : match x with 34%N => a | _ => b end = if (x =? 34)%N then a else b.
Proof. literal x. Qed.
Lemma lit58 A (a b : A) x : match x with 58%N => a | _ => b end = if (x =? 58)%N then a else b.
Proof. literal x. Qed.
Lemma lit93 A (a b : A) x : match x with 93%N => a | _ => b end = if (x =? 93)%N then a else b.
Proof. literal x. Qed.
Lemma lit125 A (a b : A) x : match x with 125%N => a | _ => b end = if (x =? 125)%N then a else b.
Proof. literal x. Qed.
Lemma lit44_125 A (a b d : A) x :
  match x with 44%N => a | 125%N => b | _ => d end
  = if (x =? 44)%N then a else if (x =? 125)%N then b else d.
Proof. literal x. Qed.
Lemma lit44_93 A (a b d : A) x :
  match x with 44%N => a | 93%N => b | _ => d end
  = if (x =? 44)%N then a else if (x =? 93)%N then b else d.
Proof. literal x. Qed.

(** A member list that reads is a key, a value, and either a comma and more
    members, or the closing brace; likewise for elements. *)
Lemma parse_members_inv f fs s x :
  parse_members (S f) fs s = Some x →
  ∃ r1 k r2 r3 v r4,
    skip_ws s = 34%N :: r1 ∧ string_body r1 = Some (k, r2) ∧ skip_ws r2 = 58%N :: r3 ∧
    parse_value f r3 = Some (v, r4) ∧
    ((∃ r5, skip_ws r4 = 44%N :: r5 ∧ parse_members f (set_own k v fs) r5 = Some x) ∨
     (∃ q, skip_ws r4 = 125%N :: q ∧ x = (VObj (set_own k v fs), q))).
Proof.
  cbn [parse_members]. intros H. destruct (skip_ws s) as [|c r1] eqn:E1; [done|].
  rewrite lit34 in H. destruct (N.eqb_spec c 34) as [->|]; [|done].
  destruct (string_body r1) as [[k r2]|] eqn:E2; [|done]. cbn in H.
  destruct (skip_ws r2) as [|c2 r3] eqn:E3; [done|].
  rewrite lit58 in H. destruct (N.eqb_spec c2 58) as [->|]; [|done].
  destruct (parse_value f r3) as [[v r4]|] eqn:E4; [|done]. cbn in H.
  exists r1, k, r2, r3, v, r4. split_and!; [done..|].
  destruct (skip_ws r4) as [|c3 r5] eqn:E5; [done|].
  rewrite lit44_125 in H. destruct (N.eqb_spec c3 44) as [->|]; [left; by eexists|].
  destruct (N.eqb_spec c3 125) as [->|]; [|done]. right. injection H as <-. by eexists.
Qed.

Lemma strict_members_inv f fs s x :
  strict_members (S f) fs s = Some x →
  ∃ r1 k r2 r3 v r4,
    skip_ws s = 34%N :: r1 ∧ string_body r1 = Some (k, r2) ∧ skip_ws r2 = 58%N :: r3 ∧
    strict_value f r3 = Some (v, r4) ∧ jmem k (map fst fs) = false ∧
    ((∃ r5, skip_ws r4 = 44%N :: r5 ∧ strict_members f (set_own k v fs) r5 = Some x) ∨
     (∃ q, skip_ws r4 = 125%N :: q ∧ x = (VObj (set_own k v fs), q))).
Proof.
  cbn [strict_members]. intros H. destruct (skip_ws s) as [|c r1] eqn:E1; [done|].
  rewrite lit34 in H. destruct (N.eqb_spec c 34) as [->|]; [|done].
  destruct (string_body r1) as [[k r2]|] eqn:E2; [|done]. cbn -[jmem] in H.
  destruct (skip_ws r2) as [|c2 r3] eqn:E3; [done|].
  rewrite lit58 in H. destruct (N.eqb_spec c2 58) as [->|]; [|done].
  destruct (strict_value f r3) as [[v r4]|] eqn:E4; [|done]. cbn -[jmem] in H.
  destruct (jmem k (map fst fs)) eqn:Ej; [done|].
  exists r1, k, r2, r3, v, r4. split_and!; [done..|].
  destruct (skip_ws r4) as [|c3 r5] eqn:E5; [done|].
  rewrite lit44_125 in H. destruct (N.eqb_spec c3 44) as [->|]; [left; by eexists|].
  destruct (N.eqb_spec c3 125) as [->|]; [|done]. right. injection H as <-. by eexists.
Qed.

Lemma parse_elements_inv f l s x :
  parse_elements (S f) l s = Some x →
  ∃ v r, parse_value f s = Some (v, r) ∧
    ((∃ r5, skip_ws r = 44%N :: r5 ∧ parse_elements f (l ++ [v]) r5 = Some x) ∨
     (∃ q, skip_ws r = 93%N :: q ∧ x = (VArr (l ++ [v]), q))).
Proof.
  cbn [parse_elements]. intros H. destruct (parse_value f s) as [[v r]|] eqn:E; [|done].
  cbn in H. exists v, r. split; [done|]. destruct (skip_ws r) as [|c r5] eqn:E5; [done|].
  rewrite lit44_93 in H. destruct (N.eqb_spec c 44) as [->|]; [left; by eexists|].
  destruct (N.eqb_spec c 93) as [->|]; [|done]. right. injection H as <-. by eexists.
Qed.

Lemma strict_elements_inv f l s x :
  strict_elements (S f) l s = Some x →
  ∃ v r, strict_value f s = Some (v, r) ∧
    ((∃ r5, skip_ws r = 44%N :: r5 ∧ strict_elements f (l ++ [v]) r5 = Some x) ∨
     (∃ q, skip_ws r = 93%N :: q ∧ x = (VArr (l ++ [v]), q))).
Proof.
  cbn [strict_elements]. intros H. destruct (strict_value f s) as [[v r]|] eqn:E; [|done].
  cbn in H. exists v, r. split; [done|]. destruct (skip_ws r) as [|c r5] eqn:E5; [done|].
  rewrite lit44_93 in H. destruct (N.eqb_spec c 44) as [->|]; [left; by eexists|].
  destruct (N.eqb_spec c 93) as [->|]; [|done]. right. injection H as <-. by eexists.
Qed.

(** A strict value is a value. *)
Lemma strict_parses f :
  (∀ s x, strict_value f s = Some x → parse_value f s = Some x) ∧
  (∀ fs s x, strict_members f fs s = Some x → parse_members f fs s = Some x) ∧
  (∀ l s x, strict_elements f l s = Some x → parse_elements f l s = Some x).
Proof.
  induction f as [|f (IHv & IHm & IHe)]; [done|]. split_and!.
  - intros s x H. cbn [strict_value] in H. destruct (skip_ws s) as [|c r] eqn:Es; [done|].
    destruct (N.eqb_spec c 123) as [->|H1]; [|destruct (N.eqb_spec c 91) as [->|H2]].
    + cbn [parse_value]. rewrite Es. destruct (close_after 125 r); [done|auto].
    + cbn [parse_value]. rewrite Es. destruct (close_after 93 r); [done|auto].
    + rewrite <- H. destruct c as [|p]; [done|].
      do 7 try (destruct p as [p|p|]; try reflexivity); congruence.
  - intros fs s x H.
    apply strict_members_inv in H as (r1 & k & r2 & r3 & v & r4 & E1 & E2 & E3 & E4 & _ & H).
    cbn [parse_members]. rewrite E1, E2. cbn. rewrite E3, (IHv _ _ E4). cbn.
    destruct H as [(r5 & -> & H)|(q & -> & ->)]; [by apply IHm|done].
  - intros l s x H. apply strict_elements_inv in H as (v & r & E & H).
    cbn [parse_elements]. rewrite (IHv _ _ E). cbn.
    destruct H as [(r5 & -> & H)|(q & -> & ->)]; [by apply IHe|done].
Qed.

(** ** The scanner on text that reads *)

Lemma skip_head s c r :
  skip_ws s = c :: r → is_space c = false → s ≠ [] ∧ skipWhitespace s = c :: r.
Proof. intros H Hc. split; [by intros ->|by apply skip_same]. Qed.

Definition after_member (f : nat) (total : Z) (keys : list value) (r : jstr) : result jstr :=
  match skipWhitespace r with
  | 125%N :: q => Ok q
  | r => r ← expect total 44 r; scanMembers f total keys r
  end.

Definition after_element (f : nat) (total : Z) (r : jstr) : result jstr :=
  match skipWhitespace r with
  | 93%N :: q => Ok q
  | r => r ← expect total 44 r; scanElements f total r
  end.

Lemma scan_member f total keys s r1 k r2 r3 :
  skip_ws s = 34%N :: r1 → string_body r1 = Some (k, r2) → skip_ws r2 = 58%N :: r3 →
  scanMembers (S f) total keys s =
  (throw_if (existsb (strict_eq (VStr k)) keys) (js "duplicate JSON object key: " +++ k);;
   r ← scanValue f total r3; after_member f total (VStr k :: keys) r).
Proof.
  intros E1 E2 E3. destruct (skip_head s 34 r1 E1 eq_refl) as [Hne Hs].
  destruct (skip_head r2 58 r3 E3 eq_refl) as [_ Hr2].
  destruct s as [|x s]; [done|]. cbn [scanMembers]. rewrite Hs.
  rewrite (parseString_body total r1 k r2 E2). cbn [mbind result_bind].
  by rewrite Hr2.
Qed.

Lemma scan_element f total s c r :
  skip_ws s = c :: r →
  scanElements (S f) total s = (r ← scanValue f total s; after_element f total r).
Proof. by destruct s. Qed.

Lemma after_member_close f total keys r q :
  skip_ws r = 125%N :: q → after_member f total keys r = Ok q.
Proof.
  intros H. unfold after_member. by rewrite (skip_same r 125 q H eq_refl).
Qed.

Lemma after_member_comma f total keys r q :
  skip_ws r = 44%N :: q → after_member f total keys r = scanMembers f total keys q.
Proof.
  intros H. unfold after_member. by rewrite (skip_same r 44 q H eq_refl).
Qed.

Lemma after_element_close f total r q :
  skip_ws r = 93%N :: q → after_element f total r = Ok q.
Proof. intros H. unfold after_element. by rewrite (skip_same r 93 q H eq_refl). Qed.

Lemma after_element_comma f total r q :
  skip_ws r = 44%N :: q → after_element f total r = scanElements f total q.
Proof. intros H. unfold after_element. by rewrite (skip_same r 44 q H eq_refl). Qed.

Lemma close_after_same c r q :
  close_after c r = Some q → is_space c = false → skipWhitespace r = c :: q.
Proof.
  unfold close_after. destruct (skip_ws r) as [|x t] eqn:E; [done|].
  destruct (N.eqb_spec x c) as [->|]; [|done]. intros [= <-] Hc. by apply skip_same.
Qed.

(** The keys seen by the scanner are the keys of the members read so far. *)
Definition same_keys (keys : list value) (fs : list (jstr * value)) : Prop :=
  ∀ k, existsb (strict_eq (VStr k)) keys = jmem k (map fst fs).

Lemma set_own_keys {A} k (v : A) fs x : x ∈ map fst (set_own k v fs) ↔ x = k ∨ x ∈ map fst fs.
Proof.
  induction fs as [|[k' v'] fs IH]; cbn [set_own map fst].
  { rewrite list_elem_of_singleton, elem_of_nil. tauto. }
  destruct (jeq k k') eqn:E; [apply jeq_spec in E as ->|].
  { cbn [map fst]. rewrite !elem_of_cons. tauto. }
  destruct (index_before k k'); cbn [map fst]; rewrite !elem_of_cons, ?IH; tauto.
Qed.

Lemma same_keys_add keys fs k v :
  same_keys keys fs → same_keys (VStr k :: keys) (set_own k v fs).
Proof.
  intros H x. cbn [existsb strict_eq]. rewrite H. apply eq_true_iff_eq.
  rewrite orb_true_iff, jeq_spec, !jmem_spec, set_own_keys. tauto.
Qed.

(** A value that is not an array or object: the scanner reads the same token. *)
Lemma scan_scalar f total s c r v q :
  skip_ws s = c :: r → c ≠ 123%N → c ≠ 91%N →
  parse_value (S f) s = Some (v, q) → scanValue (S f) total s = Ok q.
Proof.
  intros Es H1 H2 Hp. destruct (value_head f s _ Hp) as (c' & r' & Es' & Hc).
  rewrite Es in Es'. injection Es' as <- <-.
  destruct (opens_not_space c Hc) as [Hsp _]. pose proof (skip_same s c r Es Hsp) as Hs.
  cbn [parse_value] in Hp. cbn [scanValue]. rewrite Es in Hp. rewrite Hs.
  unfold opens_value in Hc. rewrite !orb_true_iff, !N.eqb_eq in Hc.
  assert (∀ neg t n q, parse_number neg t = Some (n, q) → ∃ e, integer_end t = Some e ∧
    exponent_end (fraction_end e) = q) as Hnum by apply number_end.
  destruct Hc as [[[[[[[->| ->]| ->]| ->]| ->]| ->]| ->]|Hd]; try done.
  - destruct (string_body r) as [[t q']|] eqn:E; [|done]. cbn in Hp. injection Hp as <- <-.
    by rewrite (parseString_body total r t q' E).
  - destruct (parse_number true r) as [[n q']|] eqn:E; [|done]. cbn in Hp. injection Hp as <- <-.
    destruct (Hnum _ _ _ _ E) as (e & E1 & E2). unfold parseNumber. by rewrite E1, E2.
  - unfold consumeLiteral. destruct r as [|x1 [|x2 [|x3 [|x4 r]]]]; try done;
      revert Hp; repeat (case_match; try done); by intros [= <- <-].
  - unfold consumeLiteral. destruct r as [|x1 [|x2 [|x3 r]]]; try done;
      revert Hp; repeat (case_match; try done); by intros [= <- <-].
  - unfold consumeLiteral. destruct r as [|x1 [|x2 [|x3 r]]]; try done;
      revert Hp; repeat (case_match; try done); by intros [= <- <-].
  - assert (∃ n, parse_number false (c :: r) = Some (n, q)) as [n E].
    { case_digit Hd; (destruct (parse_number false _) as [[n q']|]; [|done]; cbn in Hp;
        injection Hp as <- <-; by eexists). }
    destruct (Hnum _ _ _ _ E) as (e & E1 & E2). unfold parseNumber.
    case_digit Hd; cbn iota; by rewrite E1, E2.
Qed.

Lemma strict_value_scalar f s c r :
  skip_ws s = c :: r → c ≠ 123%N → c ≠ 91%N → strict_value (S f) s = parse_value (S f) s.
Proof.
  intros Es H1 H2. cbn [strict_value]. rewrite Es. destruct c as [|p]; [done|].
  do 7 try (destruct p as [p|p|]; try reflexivity); congruence.
Qed.

(** Skipping white space first changes nothing. *)
Lemma skip_ws_idemp s : skip_ws (skip_ws s) = skip_ws s.
Proof.
  unfold skip_ws. induction s as [|c s IH]; [done|]. simpl. destruct (json_ws c) eqn:E.
  - by destruct (span json_ws s).
  - simpl. by rewrite E.
Qed.

Lemma strict_members_skip f fs s : strict_members f fs (skip_ws s) = strict_members f fs s.
Proof. destruct f; [done|]. cbn [strict_members]. by rewrite skip_ws_idemp. Qed.

Lemma strict_value_skip f s : strict_value f (skip_ws s) = strict_value f s.
Proof.
  destruct f; [done|]. cbn [strict_value parse_value]. by rewrite skip_ws_idemp.
Qed.

Lemma strict_elements_skip f l s : strict_elements f l (skip_ws s) = strict_elements f l s.
Proof. destruct f; [done|]. cbn [strict_elements]. by rewrite strict_value_skip. Qed.

Lemma parse_members_skip f fs s : parse_members f fs (skip_ws s) = parse_members f fs s.
Proof. destruct f; [done|]. cbn [parse_members]. by rewrite skip_ws_idemp. Qed.

Lemma parse_value_skip f s : parse_value f (skip_ws s) = parse_value f s.
Proof. destruct f; [done|]. cbn [parse_value]. by rewrite skip_ws_idemp. Qed.

Lemma parse_elements_skip f l s : parse_elements f l (skip_ws s) = parse_elements f l s.
Proof. destruct f; [done|]. cbn [parse_elements]. by rewrite parse_value_skip. Qed.

(** The scanner's choice after an opening bracket. *)
Lemma scan_open_object f total s r :
  skip_ws s = 123%N :: r →
  scanValue (S f) total s =
  match skipWhitespace r with 125%N :: q => Ok q | r => scanMembers f total [] r end.
Proof.
  intros Es. cbn [scanValue]. by rewrite (skip_same s 123 r Es eq_refl).
Qed.

Lemma scan_open_array f total s r :
  skip_ws s = 91%N :: r →
  scanValue (S f) total s =
  match skipWhitespace r with 93%N :: q => Ok q | r => scanElements f total r end.
Proof.
  intros Es. cbn [scanValue]. by rewrite (skip_same s 91 r Es eq_refl).
Qed.

Lemma scan_members_from f total r c r' :
  skip_ws r = c :: r' → is_space c = false → c ≠ 125%N →
  match skipWhitespace r with 125%N :: q => Ok q | r => scanMembers f total [] r end
  = scanMembers f total [] (skip_ws r).
Proof.
  intros E Hc Hne. rewrite (skip_same r c r' E Hc), E.
  destruct c as [|p]; [done|]. do 7 try (destruct p as [p|p|]; try reflexivity); congruence.
Qed.

Lemma scan_elements_from f total r c r' :
  skip_ws r = c :: r' → is_space c = false → c ≠ 93%N →
  match skipWhitespace r with 93%N :: q => Ok q | r => scanElements f total r end
  = scanElements f total (skip_ws r).
Proof.
  intros E Hc Hne. rewrite (skip_same r c r' E Hc), E.
  destruct c as [|p]; [done|]. do 7 try (destruct p as [p|p|]; try reflexivity); congruence.
Qed.

Lemma close_after_none c r x q : close_after c r = None → skip_ws r = x :: q → x ≠ c.
Proof. unfold close_after. intros H E. rewrite E in H. by destruct (N.eqb_spec x c). Qed.

(** A document without duplicate keys is accepted, and the scanner stops where
    the parser does. *)
Lemma scan_strict total f :
  (∀ s v q, strict_value f s = Some (v, q) → scanValue f total s = Ok q) ∧
  (∀ fs keys s v q, same_keys keys fs → strict_members f fs s = Some (v, q) →
     scanMembers f total keys s = Ok q) ∧
  (∀ l s v q, strict_elements f l s = Some (v, q) → scanElements f total s = Ok q).
Proof.
  induction f as [|f (IHv & IHm & IHe)]; [done|]. split_and!.
  - intros s v q H. destruct (value_head f s (v, q)) as (c & r & Es & Hc); [by apply strict_parses|].
    destruct (N.eqb_spec c 123) as [->|H1]; [|destruct (N.eqb_spec c 91) as [->|H2]].
    + cbn [strict_value] in H. rewrite Es in H. rewrite (scan_open_object _ _ _ _ Es).
      destruct (close_after 125 r) as [q'|] eqn:Ec.
      * injection H as <- <-. by rewrite (close_after_same _ _ _ Ec eq_refl).
      * destruct f as [|f]; [done|]. pose proof H as Hm.
        apply strict_members_inv in Hm as (r1 & k & r2 & r3 & v' & r4 & E1 & _).
        rewrite (scan_members_from _ _ _ _ _ E1 eq_refl ltac:(done)).
        apply (IHm [] [] _ v q); [by intros ?|]. by rewrite strict_members_skip.
    + cbn [strict_value] in H. rewrite Es in H. rewrite (scan_open_array _ _ _ _ Es).
      destruct (close_after 93 r) as [q'|] eqn:Ec.
      * injection H as <- <-. by rewrite (close_after_same _ _ _ Ec eq_refl).
      * destruct f as [|f]; [done|]. pose proof H as Hm.
        apply strict_elements_inv in Hm as (v' & r' & Ev & _). destruct f as [|f]; [done|].
        apply strict_parses in Ev. destruct (value_head _ _ _ Ev) as (c' & r1 & E1 & Hc').
        rewrite (scan_elements_from _ _ _ _ _ E1 (proj1 (opens_not_space _ Hc'))
          (close_after_none _ _ _ _ Ec E1)).
        apply (IHe [] _ v q). by rewrite strict_elements_skip.
    + rewrite (strict_value_scalar _ _ _ _ Es H1 H2) in H. by eapply scan_scalar.
  - intros fs keys s v q Hk H.
    apply strict_members_inv in H as (r1 & k & r2 & r3 & v' & r4 & E1 & E2 & E3 & E4 & Ek & H).
    rewrite (scan_member _ _ _ _ _ _ _ _ E1 E2 E3), Hk, Ek. cbn [throw_if mbind result_bind].
    rewrite (IHv _ _ _ E4). cbn [mbind result_bind].
    destruct H as [(r5 & E5 & H)|(q' & E5 & [= -> ->])].
    + rewrite (after_member_comma _ _ _ _ _ E5). eapply IHm; [by apply same_keys_add|exact H].
    + by rewrite (after_member_close _ _ _ _ _ E5).
  - intros l s v q H. apply strict_elements_inv in H as (v' & r & E & H).
    destruct f as [|f]; [done|].
    destruct (value_head f s (v', r)) as (c & r1 & Es & Hc); [by apply strict_parses|].
    rewrite (scan_element _ _ _ _ _ Es), (IHv _ _ _ E). cbn [mbind result_bind].
    destruct H as [(r5 & E5 & H)|(q' & E5 & [= -> ->])].
    + rewrite (after_element_comma _ _ _ _ E5). eapply IHe, H.
    + by rewrite (after_element_close _ _ _ _ E5).
Qed.

(** A document that parses and that the scanner accepts repeats no key. *)
Lemma scan_refuses total f :
  (∀ s v q q', parse_value f s = Some (v, q) → scanValue f total s = Ok q' →
     strict_value f s = Some (v, q)) ∧
  (∀ fs keys s v q q', same_keys keys fs → parse_members f fs s = Some (v, q) →
     scanMembers f total keys s = Ok q' → strict_members f fs s = Some (v, q)) ∧
  (∀ l s v q q', parse_elements f l s = Some (v, q) → scanElements f total s = Ok q' →
     strict_elements f l s = Some (v, q)).
Proof.
  induction f as [|f (IHv & IHm & IHe)]; [done|]. split_and!.
  - intros s v q q' Hp Hs. destruct (value_head f s (v, q) Hp) as (c & r & Es & Hc).
    destruct (N.eqb_spec c 123) as [->|H1]; [|destruct (N.eqb_spec c 91) as [->|H2]].
    + rewrite (scan_open_object _ _ _ _ Es) in Hs. cbn [parse_value] in Hp. rewrite Es in Hp.
      cbn [strict_value]. rewrite Es. destruct (close_after 125 r) as [q''|] eqn:Ec; [done|].
      destruct f as [|f]; [done|]. pose proof Hp as Hm.
      apply parse_members_inv in Hm as (r1 & k & r2 & r3 & v' & r4 & E1 & _).
      rewrite (scan_members_from _ _ _ _ _ E1 eq_refl ltac:(done)) in Hs.
      rewrite <- strict_members_skip. eapply (IHm [] []); [by intros ?| |exact Hs].
      by rewrite parse_members_skip.
    + rewrite (scan_open_array _ _ _ _ Es) in Hs. cbn [parse_value] in Hp. rewrite Es in Hp.
      cbn [strict_value]. rewrite Es. destruct (close_after 93 r) as [q''|] eqn:Ec; [done|].
      destruct f as [|f]; [done|]. pose proof Hp as Hm.
      apply parse_elements_inv in Hm as (v' & r' & Ev & _). destruct f as [|f]; [done|].
      destruct (value_head _ _ _ Ev) as (c' & r1 & E1 & Hc').
      rewrite (scan_elements_from _ _ _ _ _ E1 (proj1 (opens_not_space _ Hc'))
        (close_after_none _ _ _ _ Ec E1)) in Hs.
      rewrite <- strict_elements_skip. eapply (IHe []); [|exact Hs].
      by rewrite parse_elements_skip.
    + by rewrite (strict_value_scalar _ _ _ _ Es H1 H2).
  - intros fs keys s v q q' Hk Hp Hs.
    apply parse_members_inv in Hp as (r1 & k & r2 & r3 & v' & r4 & E1 & E2 & E3 & E4 & H).
    rewrite (scan_member _ _ _ _ _ _ _ _ E1 E2 E3), Hk in Hs. passed Hs as Ek. take Hs as r0 Hr0.
    pose proof (IHv _ _ _ _ E4 Hr0) as Ev. destruct (scan_strict total f) as (Hsv & _ & _).
    rewrite (Hsv _ _ _ Ev) in Hr0. injection Hr0 as <-.
    cbn [strict_members]. rewrite E1, E2. cbn -[jmem]. rewrite E3, Ev. cbn -[jmem]. rewrite Ek.
    destruct H as [(r5 & E5 & H)|(q0 & E5 & [= -> ->])]; rewrite E5; [|done].
    rewrite (after_member_comma _ _ _ _ _ E5) in Hs. eapply IHm; [by apply same_keys_add|done|done].
  - intros l s v q q' Hp Hs. apply parse_elements_inv in Hp as (v' & r & E & H).
    destruct f as [|f]; [done|]. destruct (value_head f s (v', r) E) as (c & r1 & Es & Hc).
    rewrite (scan_element _ _ _ _ _ Es) in Hs. take Hs as r0 Hr0.
    pose proof (IHv _ _ _ _ E Hr0) as Ev. destruct (scan_strict total (S f)) as (Hsv & _ & _).
    rewrite (Hsv _ _ _ Ev) in Hr0. injection Hr0 as <-.
    cbn [strict_elements]. rewrite Ev. cbn [mbind option_bind].
    destruct H as [(r5 & E5 & H)|(q0 & E5 & [= -> ->])]; rewrite E5; [|done].
    rewrite (after_element_comma _ _ _ _ E5) in Hs. by eapply IHe.
Qed.

(** ** The depth of the recursion *)

Lemma span_length p s : (length (snd (span p s)) <= length s)%nat.
Proof.
  induction s as [|c s IH]; simpl; [lia|]. destruct (p c); [|simpl; lia].
  destruct (span p s). simpl in *. lia.
Qed.

Lemma skipWhitespace_length s : (length (skipWhitespace s) <= length s)%nat.
Proof. apply span_length. Qed.

Lemma expect_length total c s r : expect total c s = Ok r → (length r < length s)%nat.
Proof.
  destruct s as [|x s]; [done|]. simpl. destruct (x =? c)%N; [|done]. intros [= <-]. lia.
Qed.

Lemma string_end_length s a q : string_end s = Some (a, q) → (length q < length s)%nat.
Proof.
  remember (length s) as n eqn:Hn. revert s a Hn.
  induction (lt_wf n) as [n _ IH]; intros s a Hn H. destruct s as [|c s]; [done|]. simpl in *.
  destruct (c =? 34)%N; [injection H as _ <-; lia|]. destruct (c =? 92)%N.
  - destruct s as [|e s]; [done|]. destruct (string_end s) as [[b r]|] eqn:E; [|done].
    simpl in *. injection H as _ <-. pose proof (IH (length s) ltac:(lia) s b eq_refl E). lia.
  - destruct (string_end s) as [[b r]|] eqn:E; [|done]. simpl in *. injection H as _ <-.
    pose proof (IH (length s) ltac:(lia) s b eq_refl E). lia.
Qed.

(** A step of the scanner ends with text shorter than it started with, and not
    because the recursion ran out. *)
Definition advances (r : result jstr) (s : jstr) : Prop :=
  match r with Ok q => (length q < length s)%nat | Throw e => e ≠ out_of_fuel end.

Lemma json_parse_error s e : json_parse s = Throw e → e ≠ out_of_fuel.
Proof.
  unfold json_parse. destruct (parse_value _ s) as [[v q]|]; [|by intros [= <-]].
  destruct (skip_ws q); [done|by intros [= <-]].
Qed.

Lemma expect_advances total c s : advances (expect total c s) s.
Proof.
  destruct (expect total c s) as [r|e] eqn:E; [by eapply expect_length|].
  destruct s as [|x s]; simpl in E; [by injection E as <-|].
  destruct (x =? c)%N; [done|]. by injection E as <-.
Qed.

Lemma parseString_advances total s :
  match parseString total s with
  | Ok (_, q) => (length q < length s)%nat
  | Throw e => e ≠ out_of_fuel
  end.
Proof.
  unfold parseString. pose proof (expect_advances total 34 s) as He.
  destruct (expect total 34 s) as [r|e]; cbn [mbind result_bind advances] in *; [|done].
  destruct (string_end r) as [[b q]|] eqn:E; [|done]. apply string_end_length in E.
  destruct (json_parse (34%N :: b)) as [v|e] eqn:Ej; cbn [mbind result_bind]; [lia|].
  by eapply json_parse_error.
Qed.

Lemma fraction_end_length s : (length (fraction_end s) <= length s)%nat.
Proof.
  destruct s as [|c s]; [done|]. unfold fraction_end.
  pose proof (span_length is_digit s) as Hs.
  assert (∀ t, (length t <= S (length s))%nat → (length (match c with
    | 46%N => t | _ => c :: s end) <= S (length s))%nat) as Hm.
  { intros t Ht. destruct c as [|p]; [simpl; lia|].
    do 6 try (destruct p as [p|p|]; try (simpl; lia)). }
  apply Hm. destruct (span is_digit s) as [[|d ds] q]; simpl in *; lia.
Qed.

Lemma exponent_end_length s : (length (exponent_end s) <= length s)%nat.
Proof.
  destruct s as [|c s]; [done|]. unfold exponent_end. destruct (_ || _); [|done].
  set (t := match s with 43%N :: t => t | 45%N :: t => t | _ => s end).
  assert (length t <= length s)%nat as Ht.
  { subst t. destruct s as [|x s]; [done|]. destruct x as [|p]; [done|].
    do 6 try (destruct p as [p|p|]; try (simpl; lia)). }
  pose proof (span_length is_digit t). destruct (span is_digit t) as [[|d ds] q]; simpl in *; lia.
Qed.

Lemma integer_end_length s r : integer_end s = Some r → (length r < length s)%nat.
Proof.
  destruct s as [|c s]; [done|]. unfold integer_end. intros H.
  assert (r = s ∨ in_range 49 57 c = true ∧ r = snd (span is_digit (c :: s))) as [->|[Hc ->]].
  { revert H. destruct c as [|p]; [done|].
    do 6 try (destruct p as [p|p|]; try (case_match; [intros [= <-]; by right|done]));
      intros [= <-]; by left. }
  - simpl. lia.
  - rewrite span_cons; [pose proof (span_length is_digit s); simpl; lia|].
    apply is_digit_spec. apply in_range_spec in Hc. lia.
Qed.

Lemma parseNumber_advances total s : advances (parseNumber total s) s.
Proof.
  unfold parseNumber. set (t := match s with 45%N :: r => r | _ => s end).
  assert (length t <= length s)%nat as Ht.
  { subst t. destruct s as [|x s]; [done|]. destruct x as [|p]; [done|].
    do 6 try (destruct p as [p|p|]; try (simpl; lia)). }
  destruct (integer_end t) as [r|] eqn:E; [|done]. apply integer_end_length in E. simpl.
  pose proof (exponent_end_length (fraction_end r)). pose proof (fraction_end_length r). lia.
Qed.

Lemma consumeLiteral_advances total lit s :
  lit ≠ [] → advances (consumeLiteral total lit s) s.
Proof.
  intros Hne. unfold consumeLiteral. destruct (starts_with lit s) eqn:E; [|done].
  apply starts_with_spec in E as [r ->]. simpl. rewrite drop_app_length, length_app.
  destruct lit; [done|]. simpl. lia.
Qed.

Lemma advances_shorter r s t : advances r s → (length s <= length t)%nat → advances r t.
Proof. destruct r; simpl; [lia|done]. Qed.

Definition ends (r : result jstr) (s : jstr) : Prop :=
  match r with Ok q => (length q <= length s)%nat | Throw e => e ≠ out_of_fuel end.

Lemma advances_ends r s t : advances r s → (length s <= length t)%nat → ends r t.
Proof. destruct r; simpl; [lia|done]. Qed.

Lemma ends_advances r s t : ends r s → (length s < length t)%nat → advances r t.
Proof. destruct r; simpl; [lia|done]. Qed.

(** The match on a closing bracket after skipping white space. *)
Lemma close_ends (c : N) total s k :
  (c = 125 ∨ c = 93)%N →
  (∀ r, expect total 44 (skipWhitespace s) = Ok r → ends (k r) r) →
  ends (match skipWhitespace s with
        | x :: q => if (x =? c)%N then Ok q else r ← expect total 44 (x :: q); k r
        | [] => r ← expect total 44 []; k r
        end) s.
Proof.
  intros _ Hk. pose proof (skipWhitespace_length s) as Hlen.
  assert (ends (r ← expect total 44 (skipWhitespace s); k r) s) as Hc.
  { pose proof (expect_advances total 44 (skipWhitespace s)) as He.
    destruct (expect total 44 (skipWhitespace s)) as [r|e] eqn:Ee; cbn [mbind result_bind]; [|done].
    specialize (Hk r eq_refl). simpl in He. destruct (k r); simpl in *; [lia|done]. }
  destruct (skipWhitespace s) as [|x q]; [done|]. destruct (x =? c)%N; [|done].
  simpl in *. lia.
Qed.

Lemma after_member_ends f total keys s :
  (∀ r, (length r < length s)%nat → ends (scanMembers f total keys r) r) →
  ends (after_member f total keys s) s.
Proof.
  intros H. unfold after_member. pose proof (skipWhitespace_length s) as Hlen.
  replace (match skipWhitespace s with 125%N :: q => Ok q | r => r ← expect total 44 r; scanMembers f total keys r end)
    with (match skipWhitespace s with
          | x :: q => if (x =? 125)%N then Ok q else r ← expect total 44 (x :: q); scanMembers f total keys r
          | [] => r ← expect total 44 []; scanMembers f total keys r
          end) by (destruct (skipWhitespace s) as [|x q]; [done|literal x]).
  apply close_ends; [by left|]. intros r Hr. apply H. apply expect_length in Hr. lia.
Qed.

Lemma after_element_ends f total s :
  (∀ r, (length r < length s)%nat → ends (scanElements f total r) r) →
  ends (after_element f total s) s.
Proof.
  intros H. unfold after_element. pose proof (skipWhitespace_length s) as Hlen.
  replace (match skipWhitespace s with 93%N :: q => Ok q | r => r ← expect total 44 r; scanElements f total r end)
    with (match skipWhitespace s with
          | x :: q => if (x =? 93)%N then Ok q else r ← expect total 44 (x :: q); scanElements f total r
          | [] => r ← expect total 44 []; scanElements f total r
          end) by (destruct (skipWhitespace s) as [|x q]; [done|literal x]).
  apply close_ends; [by right|]. intros r Hr. apply H. apply expect_length in Hr. lia.
Qed.

Lemma scanMembers_eq f total keys c s :
  scanMembers (S f) total keys (c :: s) =
  ('(key, r) ← parseString total (skipWhitespace (c :: s));
   throw_if (existsb (strict_eq key) keys) (js "duplicate JSON object key: " +++ to_string key);;
   r ← expect total 58 (skipWhitespace r);
   r ← scanValue f total r;
   after_member f total (key :: keys) r).
Proof. reflexivity. Qed.

Lemma scanElements_eq f total c s :
  scanElements (S f) total (c :: s) =
  (r ← scanValue f total (c :: s); after_element f total r).
Proof. reflexivity. Qed.

Definition opened (c : N) (scan : jstr → result jstr) (r : jstr) : result jstr :=
  match skipWhitespace r with
  | x :: q => if (x =? c)%N then Ok q else scan (x :: q)
  | [] => scan []
  end.

(** The branches of [scanValue], as tests. *)
Lemma scanValue_eq f total s :
  scanValue (S f) total s =
  (let s := skipWhitespace s in
   match s with
   | [] => parseNumber total s
   | c :: r =>
       if (c =? 123)%N then
         opened 125 (scanMembers f total []) r
       else if (c =? 91)%N then opened 93 (scanElements f total) r
       else if (c =? 34)%N then '(_, q) ← parseString total s; Ok q
       else if (c =? 116)%N then consumeLiteral total (js "true") s
       else if (c =? 102)%N then consumeLiteral total (js "false") s
       else if (c =? 110)%N then consumeLiteral total (js "null") s
       else parseNumber total s
   end).
Proof.
  cbn [scanValue]. cbv zeta. destruct (skipWhitespace s) as [|c r]; [done|].
  unfold opened. destruct (skipWhitespace r) as [|x q]; [literal c|].
  destruct (N.eqb_spec c 123) as [->|H1]; [literal x|].
  destruct (N.eqb_spec c 91) as [->|H2]; [literal x|].
  revert H1 H2. literal c; congruence.
Qed.

Lemma scan_advances total f :
  (∀ s, (2 * length s < f)%nat → advances (scanValue f total s) s) ∧
  (∀ keys s, (2 * length s < f)%nat → ends (scanMembers f total keys s) s) ∧
  (∀ s, (2 * length s + 1 < f)%nat → ends (scanElements f total s) s).
Proof.
  induction f as [|f (IHv & IHm & IHe)]; [split_and!; intros; lia|]. split_and!.
  - intros s Hf. rewrite scanValue_eq. cbv zeta.
    pose proof (skipWhitespace_length s) as Hlen. eapply advances_shorter; [|exact Hlen].
    destruct (skipWhitespace s) as [|c r] eqn:Es; [apply parseNumber_advances|].
    cbn [length] in Hlen. pose proof (skipWhitespace_length r) as Hr.
    destruct (c =? 123)%N.
    { unfold opened. destruct (skipWhitespace r) as [|x q]; [destruct f; [lia|]; simpl; lia|].
      destruct (x =? 125)%N; [simpl in *; lia|].
      eapply ends_advances; [apply IHm|]; simpl in *; lia. }
    destruct (c =? 91)%N.
    { unfold opened. destruct (skipWhitespace r) as [|x q]; [destruct f; [lia|]; simpl; lia|].
      destruct (x =? 93)%N; [simpl in *; lia|].
      eapply ends_advances; [apply IHe|]; simpl in *; lia. }
    destruct (c =? 34)%N.
    { pose proof (parseString_advances total (c :: r)) as Hp.
      destruct (parseString total (c :: r)) as [[k q]|e]; done. }
    destruct (c =? 116)%N; [by apply consumeLiteral_advances|].
    destruct (c =? 102)%N; [by apply consumeLiteral_advances|].
    destruct (c =? 110)%N; [by apply consumeLiteral_advances|]. apply parseNumber_advances.
  - intros keys s Hf. destruct s as [|c s]; [simpl; lia|]. rewrite scanMembers_eq.
    pose proof (skipWhitespace_length (c :: s)) as H1.
    pose proof (parseString_advances total (skipWhitespace (c :: s))) as Hp.
    destruct (parseString total _) as [[k r]|e]; cbn [mbind result_bind]; [|done].
    destruct (existsb _ _); cbn [throw_if error mbind result_bind]; [done|].
    pose proof (skipWhitespace_length r) as H2.
    pose proof (expect_advances total 58 (skipWhitespace r)) as He.
    destruct (expect total 58 _) as [r2|e]; cbn [mbind result_bind advances] in *; [|done].
    pose proof (IHv r2 ltac:(lia)) as Hv. destruct (scanValue f total r2) as [r3|e];
      cbn [mbind result_bind advances] in *; [|done].
    pose proof (after_member_ends f total (k :: keys) r3) as Ha.
    assert (ends (after_member f total (k :: keys) r3) r3) as Hend.
    { apply Ha. intros r4 Hr4. apply IHm. lia. }
    destruct (after_member f total (k :: keys) r3); simpl in *; [lia|done].
  - intros s Hf. destruct s as [|c s]; [simpl; lia|]. rewrite scanElements_eq.
    pose proof (IHv (c :: s) ltac:(lia)) as Hv. destruct (scanValue f total (c :: s)) as [r|e];
      cbn [mbind result_bind advances] in *; [|done].
    assert (ends (after_element f total r) r) as Hend.
    { apply after_element_ends. intros r4 Hr4. apply IHe. lia. }
    destruct (after_element f total r); simpl in *; [lia|done].
Qed.

(** On text that parses, the scanner accepts exactly the documents without
    duplicate keys. *)
Lemma scanner_exact text v :
  json_parse text = Ok v →
  assertNoDuplicateJsonKeys text = Ok () ↔ strict_parse text = Some v.
Proof.
  unfold json_parse, assertNoDuplicateJsonKeys, strict_parse. set (fuel := S (2 * length text)).
  destruct (parse_value fuel text) as [[v' q]|] eqn:Ep; [|done].
  destruct (skip_ws q) as [|x t] eqn:Eq; [|done]. intros [= ->].
  destruct (scan_strict (jlen text) fuel) as (Hs & _ & _).
  destruct (scan_refuses (jlen text) fuel) as (Hr & _ & _). split.
  - intros H. take H as r Hscan. cbv zeta in H.
    rewrite (Hr _ _ _ _ Ep Hscan). cbn. by rewrite Eq.
  - intros H. destruct (strict_value fuel text) as [[v'' q']|] eqn:Es; [|done].
    pose proof (proj1 (strict_parses fuel) _ _ Es) as Ep'. rewrite Ep in Ep'. injection Ep' as <- <-.
    rewrite (Hs _ _ _ Es). cbn [mbind result_bind]. by rewrite (skip_nil q Eq).
Qed.

Lemma strict_parse_parses text v : strict_parse text = Some v → json_parse text = Ok v.
Proof.
  unfold strict_parse, json_parse. set (fuel := S (2 * length text)). intros H.
  destruct (strict_value fuel text) as [[v' q]|] eqn:E; [|done]. cbn in H.
  rewrite (proj1 (strict_parses fuel) _ _ E). destruct (skip_ws q); [|done]. by injection H as ->.
Qed.

(** ** Headline properties *)

(** The scanner terminates on every text: its recursion, bounded by twice the
    length of the text, never runs out; it accepts or throws one of its errors. *)
Theorem scanner_total text : assertNoDuplicateJsonKeys text ≠ Throw out_of_fuel.
Proof.
  cut (∀ e, assertNoDuplicateJsonKeys text = Throw e → e ≠ out_of_fuel).
  { intros H E. by apply (H _ E). }
  intros e. unfold assertNoDuplicateJsonKeys.
  destruct (scan_advances (jlen text) (S (2 * length text))) as (Hv & _ & _).
  specialize (Hv text ltac:(lia)). destruct (scanValue _ _ text) as [r|e']; cbn [mbind result_bind].
  - cbv zeta. unfold throw_if. destruct (negb _); [|done]. by intros [= <-].
  - intros [= <-]. done.
Qed.

(** A JSON claim file is accepted exactly when it is valid UTF-8 of an array
    in which no object, at any depth, repeats a key (counting keys after their
    escapes are read); the claims are the elements of that array. *)
Theorem json_claims_exact inputBytes path l :
  to_lower (path_extname path) = js ".json" →
  parseClaims inputBytes path = Ok l ↔
  utf8_encode (utf8_decode inputBytes) = inputBytes ∧
  strict_parse (utf8_decode inputBytes) = Some (VArr l).
Proof.
  intros Hext. unfold parseClaims. rewrite Hext, jeq_refl. cbv zeta.
  set (text := utf8_decode inputBytes). split.
  - intros H. passed H as Hutf. take H as v Hv.
    apply negb_false_iff, Z.eqb_eq, compare_bytes_eq in Hutf. split; [done|].
    destruct (assertNoDuplicateJsonKeys text) as [[]|e] eqn:Ea; [|done].
    cbn [mbind result_bind] in Hv. destruct (json_parse text) as [w|e] eqn:Ej; [|done].
    cbn [catch] in Hv. injection Hv as ->. destruct v; try done. injection H as ->.
    by apply scanner_exact.
  - intros [Hutf Hs]. rewrite Hutf, compare_bytes_refl. cbn [negb Z.eqb throw_if mbind result_bind].
    pose proof (strict_parse_parses _ _ Hs) as Hj.
    rewrite (proj2 (scanner_exact text _ Hj) Hs), Hj. done.
Qed.

(** ** Concrete inputs *)

(** A claim array, and one whose object repeats a key through an escape. *)
Definition sample_json : jstr :=
  js "[{" +++ quote (js "index") +++ js ":1," +++ quote (js "account") +++ js ":2}]".
Definition ambiguous_json : jstr :=
  js "[{" +++ quote (js "index") +++ js ":1,"
  +++ [34; 92; 117; 48; 48; 54; 57]%N +++ js "ndex" +++ [34]%N +++ js ":2}]".

Lemma json_claims_exact_witness :
  parseClaims (utf8_encode sample_json) (js "/c.JSON")
  = Ok [VObj ["index" :=: vi 1; "account" :=: vi 2]] ∧
  is_ok (parseClaims (utf8_encode ambiguous_json) (js "/c.json")) = false.
Proof.
  split; [|vm_compute; reflexivity].
  apply json_claims_exact; [vm_compute; reflexivity|]. split; vm_compute; reflexivity.
Defined.
