(* ===== verification/Attestation.v ===== *)
(** contracts/scripts/validate-attestation-vectors.mjs: the offline check of the
    canonical-byte vectors from which attestation clients derive their hashes,
    commitments and attestation ids. *)

From S2P Require Import Prelude JsNum JsText JsValue JsonText JsPath JsUtf8 JsOps RewardTree RewardInput.

Open Scope Z_scope.

(** [v.k] for a property named in the source. *)
#[local] Notation "v .[ k ]" := (field v (js k)) (at level 1, left associativity, format "v .[ k ]").

(** ** Constants *)

Definition UINT32_MAX : Z := Z.shiftl 1 32 - 1.

Definition ZERO_BYTES32 : jstr := js "0x" +++ repeat 48%N 64.

Definition DEFAULT_FIXTURE : jstr := js "fixtures/attestations/canonical-hash-v1.json".

Definition COMMITMENT_PARAMETERS : list abi_parameter :=
  [ AbiParameter (js "schemaId") TBytes32; AbiParameter (js "schemaVersion") TUint32;
    AbiParameter (js "subject") TBytes32; AbiParameter (js "referenceHash") TBytes32;
    AbiParameter (js "contentHash") TBytes32; AbiParameter (js "metadataHash") TBytes32;
    AbiParameter (js "metadataUriHash") TBytes32; AbiParameter (js "supersedes") TBytes32 ].

Definition ATTESTATION_ID_PARAMETERS : list abi_parameter :=
  [ AbiParameter (js "chainId") TUint256; AbiParameter (js "registry") TAddress;
    AbiParameter (js "issuer") TAddress; AbiParameter (js "issuerNonce") TUint256;
    AbiParameter (js "commitment") TBytes32 ].

Definition ALGORITHM : value := VObj [
  "id" :=: vs "torium-attestation-canonical-bytes-v1";
  "digest" :=: vs "keccak256";
  "textEncoding" :=: vs "UTF-8";
  "byteDerivation" :=: vs "exact-decoded-string-to-utf8-without-transformation";
  "jsonCanonicalization" :=: vs "none";
  "unicodeNormalization" :=: vs "none-caller-responsibility";
  "uriCanonicalization" :=: vs "none-exact-utf8";
  "commitmentEncoding" :=: vs "abi.encode(bytes32 schemaId,uint32 schemaVersion,bytes32 subject,bytes32 referenceHash,bytes32 contentHash,bytes32 metadataHash,bytes32 metadataUriHash,bytes32 supersedes)";
  "attestationIdEncoding" :=: vs "abi.encode(uint256 chainId,address registry,address issuer,uint256 issuerNonce,bytes32 commitment)"].

Definition NON_CLAIMS : value := VArr [
  vs "no-rfc8785-jcs-json-canonicalization";
  vs "no-unicode-normalization";
  vs "no-uri-normalization";
  vs "hashes-do-not-prove-authenticity-truth-or-availability";
  vs "hashes-do-not-provide-confidentiality";
  vs "low-entropy-inputs-are-dictionary-attackable";
  vs "do-not-place-sensitive-large-or-personal-payloads-on-chain"].

Definition VECTOR_NAMES : list jstr :=
  [js "json-key-order-ab"; js "json-key-order-ba"; js "unicode-nfc"; js "unicode-nfd"].

(** ** Assertions *)

(** The message node:assert generates when none is given. *)
Definition generated : jstr := js "Expected values to be strictly equal".

Definition equal (a b : value) (message : jstr) : result unit := assert (same_value a b) message.
Definition notEqual (a b : value) : result unit := assert (negb (same_value a b)) generated.
Definition deepEqual (a b : value) (message : jstr) : result unit := assert (deep_equal a b) message.

Definition assertPlainObject (v : value) (label : jstr) : result unit :=
  assert (is_object v) (label +++ js " must be a plain object").

Definition assertExactKeys (v : value) (expected : list jstr) (label : jstr) : result unit :=
  assert (bool_decide (sort_strings (keys v) = sort_strings expected))
    (label +++ js " has missing or unknown fields").

(** The patterns of a vector name, a bytes32 and a hexadecimal byte string. *)
Definition is_name (s : jstr) : bool :=
  forallb (λ part, negb (bool_decide (part = [])) && forallb (λ c, is_lower c || is_digit c) part)
    (split_on 45 s).

Definition strip_0x (s : jstr) : option jstr :=
  match s with 48%N :: 120%N :: ds => Some ds | _ => None end.

Definition is_bytes32 (s : jstr) : bool :=
  match strip_0x s with
  | Some ds => Nat.eqb (length ds) 64 && forallb is_lower_hex ds
  | None => false
  end.

Definition is_hex_bytes (s : jstr) : bool :=
  match strip_0x s with
  | Some ds => Nat.even (length ds) && forallb is_lower_hex ds
  | None => false
  end.

Definition is_control (c : N) : bool := in_range 0 31 c || (c =? 127)%N.

Definition assertBytes32 (v : value) (label : jstr) (nonzero : bool) : result unit :=
  assert (is_string v && is_bytes32 (v_str v)) (label +++ js " is not canonical bytes32");;
  if nonzero then assert (negb (same_value v (VStr ZERO_BYTES32))) (label +++ js " must be nonzero")
  else Ok ().

Definition assertHexBytes (v : value) (label : jstr) : result unit :=
  assert (is_string v && is_hex_bytes (v_str v)) (label +++ js " is not canonical hex bytes").

Definition assertUtf8Input (v : value) (label : jstr) (maximumBytes : Z) : result unit :=
  assert (is_string v) (label +++ js " must be a string");;
  assert (0 <? jlen (v_str v)) (label +++ js " must not be empty");;
  assert (Z.of_nat (length (utf8_encode (v_str v))) <=? maximumBytes)
    (label +++ js " exceeds " +++ dec_of_Z maximumBytes +++ js " UTF-8 bytes").

Definition parseUint (v : value) (label : jstr) (maximum : Z) (positive : bool) : result Z :=
  decimal ←
    match v with
    | VNum n =>
        assert (is_safe_integer n && num_leb (NInt 0) n) (label +++ js " is invalid");;
        Ok (num_to_string n)
    | _ =>
        assert (is_string v && is_canonical_dec (v_str v)) (label +++ js " is not canonical");;
        Ok (v_str v)
    end;
  parsed ← to_bigint (VStr decimal);
  assert (parsed <=? maximum) (label +++ js " exceeds its ABI type");;
  (if positive then assert (negb (parsed =? 0)) (label +++ js " must be nonzero") else Ok ());;
  Ok parsed.

Section viem.
(** viem, and the Unicode tables behind [String.prototype.normalize]. *)
Context (keccak256 : jstr → jstr).
Context (encodeAbiParameters : list abi_parameter → list abi_value → jstr).
Context (isAddress : jstr → bool).
Context (getAddress : jstr → option jstr).
Context (stringToHex : jstr → jstr).
Context (normalizeNFC : jstr → jstr).

Definition assertChecksummedAddress (v : value) (label : jstr) (nonzero : bool) : result unit :=
  assert (is_string v && isAddress (v_str v)) (label +++ js " is not a valid EVM address");;
  address ← match getAddress (v_str v) with
            | Some a => Ok a
            | None => error (js "InvalidAddressError")
            end;
  equal v (VStr address) (label +++ js " is not EIP-55 checksummed");;
  if nonzero then
    assert (negb (same_value v (VStr (js "0x" +++ repeat 48%N 40)))) (label +++ js " must be nonzero")
  else Ok ().

(** ** One vector *)

Definition INPUT_KEYS : list jstr :=
  [js "chainId"; js "registry"; js "issuer"; js "issuerNonce"; js "schemaId"; js "schemaVersion";
   js "subject"; js "referenceHash"; js "contentUtf8"; js "metadataUtf8"; js "metadataUriUtf8";
   js "supersedes"].

Definition EXPECTED_KEYS : list jstr :=
  [js "contentBytesHex"; js "metadataBytesHex"; js "metadataUriBytesHex"; js "contentHash";
   js "metadataHash"; js "metadataUriHash"; js "commitmentAbiEncoded"; js "commitment";
   js "attestationIdAbiEncoded"; js "attestationId"].

(** The integers read from the inputs: chain id, issuer nonce and schema
    version. *)
Definition validateInputs (input : value) (label : jstr) : result (Z * Z * Z) :=
  let at_ k := label +++ js ".inputs." +++ k in
  chainId ← parseUint input.["chainId"] (at_ (js "chainId")) UINT256_MAX true;
  issuerNonce ← parseUint input.["issuerNonce"] (at_ (js "issuerNonce")) UINT256_MAX false;
  schemaVersion ← parseUint input.["schemaVersion"] (at_ (js "schemaVersion")) UINT32_MAX true;
  assertChecksummedAddress input.["registry"] (at_ (js "registry")) true;;
  assertChecksummedAddress input.["issuer"] (at_ (js "issuer")) true;;
  assertBytes32 input.["schemaId"] (at_ (js "schemaId")) true;;
  assertBytes32 input.["subject"] (at_ (js "subject")) true;;
  assertBytes32 input.["referenceHash"] (at_ (js "referenceHash")) false;;
  assertBytes32 input.["supersedes"] (at_ (js "supersedes")) false;;
  equal input.["supersedes"] (VStr ZERO_BYTES32)
    (at_ (js "supersedes") +++ js " must remain zero in the v1 reference set");;
  assertUtf8Input input.["contentUtf8"] (at_ (js "contentUtf8")) 4096;;
  assertUtf8Input input.["metadataUtf8"] (at_ (js "metadataUtf8")) 4096;;
  assertUtf8Input input.["metadataUriUtf8"] (at_ (js "metadataUriUtf8")) 2048;;
  assert (negb (existsb is_control (v_str input.["metadataUriUtf8"])))
    (at_ (js "metadataUriUtf8") +++ js " contains a control character");;
  Ok (chainId, issuerNonce, schemaVersion).

(** The ABI encodings that are hashed. *)
Definition encodeCommitment (input : value) (schemaVersion : Z)
    (contentHash metadataHash metadataUriHash : jstr) : jstr :=
  encodeAbiParameters COMMITMENT_PARAMETERS
    [ABytes32 (v_str input.["schemaId"]); AUint schemaVersion; ABytes32 (v_str input.["subject"]);
     ABytes32 (v_str input.["referenceHash"]); ABytes32 contentHash; ABytes32 metadataHash;
     ABytes32 metadataUriHash; ABytes32 (v_str input.["supersedes"])].

Definition encodeAttestationId (input : value) (chainId issuerNonce : Z) (commitment : jstr) : jstr :=
  encodeAbiParameters ATTESTATION_ID_PARAMETERS
    [AUint chainId; AAddress (v_str input.["registry"]); AAddress (v_str input.["issuer"]); AUint issuerNonce;
     ABytes32 commitment].

Definition validateExpected (input expected : value) (label : jstr)
    (chainId issuerNonce schemaVersion : Z) : result unit :=
  let at_ k := label +++ js ".expected." +++ k in
  let contentBytesHex := stringToHex (v_str input.["contentUtf8"]) in
  let metadataBytesHex := stringToHex (v_str input.["metadataUtf8"]) in
  let metadataUriBytesHex := stringToHex (v_str input.["metadataUriUtf8"]) in
  assertHexBytes expected.["contentBytesHex"] (at_ (js "contentBytesHex"));;
  assertHexBytes expected.["metadataBytesHex"] (at_ (js "metadataBytesHex"));;
  assertHexBytes expected.["metadataUriBytesHex"] (at_ (js "metadataUriBytesHex"));;
  equal expected.["contentBytesHex"] (VStr contentBytesHex) generated;;
  equal expected.["metadataBytesHex"] (VStr metadataBytesHex) generated;;
  equal expected.["metadataUriBytesHex"] (VStr metadataUriBytesHex) generated;;
  let contentHash := keccak256 contentBytesHex in
  let metadataHash := keccak256 metadataBytesHex in
  let metadataUriHash := keccak256 metadataUriBytesHex in
  assertBytes32 expected.["contentHash"] (at_ (js "contentHash")) false;;
  assertBytes32 expected.["metadataHash"] (at_ (js "metadataHash")) false;;
  assertBytes32 expected.["metadataUriHash"] (at_ (js "metadataUriHash")) false;;
  equal expected.["contentHash"] (VStr contentHash) generated;;
  equal expected.["metadataHash"] (VStr metadataHash) generated;;
  equal expected.["metadataUriHash"] (VStr metadataUriHash) generated;;
  let commitmentAbiEncoded :=
    encodeCommitment input schemaVersion contentHash metadataHash metadataUriHash in
  assertHexBytes expected.["commitmentAbiEncoded"] (at_ (js "commitmentAbiEncoded"));;
  equal expected.["commitmentAbiEncoded"] (VStr commitmentAbiEncoded) generated;;
  let commitment := keccak256 commitmentAbiEncoded in
  assertBytes32 expected.["commitment"] (at_ (js "commitment")) false;;
  equal expected.["commitment"] (VStr commitment) generated;;
  let attestationIdAbiEncoded := encodeAttestationId input chainId issuerNonce commitment in
  assertHexBytes expected.["attestationIdAbiEncoded"] (at_ (js "attestationIdAbiEncoded"));;
  equal expected.["attestationIdAbiEncoded"] (VStr attestationIdAbiEncoded) generated;;
  let attestationId := keccak256 attestationIdAbiEncoded in
  assertBytes32 expected.["attestationId"] (at_ (js "attestationId")) false;;
  equal expected.["attestationId"] (VStr attestationId) generated.

Definition validateVector (index : nat) (vector : value) : result unit :=
  let label := js "fixture.vectors[" +++ dec_of_Z (Z.of_nat index) +++ js "]" in
  let name := vector.["name"] in
  let input := vector.["inputs"] in
  let expected := vector.["expected"] in
  assertPlainObject vector label;;
  assertExactKeys vector [js "name"; js "inputs"; js "expected"] label;;
  assert (is_string name && is_name (v_str name)) generated;;
  assertPlainObject input (label +++ js ".inputs");;
  assertExactKeys input INPUT_KEYS (label +++ js ".inputs");;
  '(chainId, issuerNonce, schemaVersion) ← validateInputs input label;
  assertPlainObject expected (label +++ js ".expected");;
  assertExactKeys expected EXPECTED_KEYS (label +++ js ".expected");;
  validateExpected input expected label chainId issuerNonce schemaVersion.

(** ** The fixture *)

Definition find_vector (name : string) (vectors : list value) : value :=
  default VUndef (find (λ v, strict_eq v.["name"] (vs name)) vectors).

Definition validateAmbiguityExamples (vectors : list value) : result unit :=
  let orderAb := find_vector "json-key-order-ab" vectors in
  let orderBa := find_vector "json-key-order-ba" vectors in
  ab ← json_parse (v_str orderAb.["inputs"].["metadataUtf8"]);
  ba ← json_parse (v_str orderBa.["inputs"].["metadataUtf8"]);
  deepEqual ab ba (js "JSON order vectors must be semantically equal after parsing");;
  notEqual orderAb.["inputs"].["metadataUtf8"] orderBa.["inputs"].["metadataUtf8"];;
  notEqual orderAb.["expected"].["metadataBytesHex"] orderBa.["expected"].["metadataBytesHex"];;
  notEqual orderAb.["expected"].["metadataHash"] orderBa.["expected"].["metadataHash"];;
  let nfc := find_vector "unicode-nfc" vectors in
  let nfd := find_vector "unicode-nfd" vectors in
  assert (normalizeNFC (v_str nfc.["inputs"].["contentUtf8"]) =s? normalizeNFC (v_str nfd.["inputs"].["contentUtf8"]))
    (js "Unicode vectors must be visually equivalent after caller-selected NFC");;
  notEqual nfc.["inputs"].["contentUtf8"] nfd.["inputs"].["contentUtf8"];;
  notEqual nfc.["expected"].["contentBytesHex"] nfd.["expected"].["contentBytesHex"];;
  notEqual nfc.["expected"].["contentHash"] nfd.["expected"].["contentHash"].

(** The loop over the vectors: the names seen, in order. *)
Fixpoint validateVectors (names : list jstr) (index : nat) (vectors : list value)
    : result (list jstr) :=
  match vectors with
  | [] => Ok names
  | vector :: rest =>
      validateVector index vector;;
      let name := v_str vector.["name"] in
      assert (negb (jmem name names)) (js "duplicate vector name: " +++ name);;
      validateVectors (names ++ [name]) (S index) rest
  end.

Definition validateFixture (v : value) : result unit :=
  assertPlainObject v (js "fixture");;
  assertExactKeys v [js "schemaVersion"; js "vectorSet"; js "verifiedBy"; js "algorithm";
                     js "nonClaims"; js "vectors"] (js "fixture");;
  equal v.["schemaVersion"] (vi 1) generated;;
  equal v.["vectorSet"] (vs "torium-attestation-canonical-hash-v1") generated;;
  equal v.["verifiedBy"] (vs "contracts/scripts/validate-attestation-vectors.mjs") generated;;
  deepEqual v.["algorithm"] ALGORITHM generated;;
  deepEqual v.["nonClaims"] NON_CLAIMS generated;;
  let vectors := v.["vectors"] in
  assert (is_array vectors) (js "fixture.vectors must be an array");;
  assert (Nat.eqb (length (v_list vectors)) 4) (js "fixture must contain four review vectors");;
  names ← validateVectors [] 0 (v_list vectors);
  assert (bool_decide (names = VECTOR_NAMES)) generated;;
  validateAmbiguityExamples (v_list vectors).

(** ** The script *)

Definition parseArguments (contractRoot cwd : jstr) (argv : list jstr) : result jstr :=
  match argv with
  | [] => Ok (path_join [contractRoot; DEFAULT_FIXTURE])
  | [flag; path] =>
      throw_if (negb (flag =s? js "--fixture"))
        (js "usage: validate-attestation-vectors.mjs [--fixture <path>]");;
      let resolved := path_resolve cwd path in
      throw_if (negb (to_lower (path_extname resolved) =s? js ".json"))
        (js "--fixture must reference a .json file");;
      Ok resolved
  | _ => error (js "usage: validate-attestation-vectors.mjs [--fixture <path>]")
  end.

(** The script carries a copy of the scanner of generate-reward-fixture.mjs,
    statement for statement, so the model is the same function. *)
Definition assertNoDuplicateJsonKeys (text : jstr) : result unit :=
  RewardInput.assertNoDuplicateJsonKeys text.

(** [source] is the text that has been read; an exception ends the process. *)
Definition checkSource (source : jstr) : result jstr :=
  assertNoDuplicateJsonKeys source;;
  fixture ← json_parse source;
  validateFixture fixture;;
  Ok (js "Validated " +++ dec_of_Z (Z.of_nat (length (v_list (field fixture (js "vectors")))))
      +++ js " offline attestation canonical-byte vectors.").

Definition main (readFile : jstr → result jstr) (contractRoot cwd : jstr) (argv : list jstr)
    : result jstr :=
  fixturePath ← parseArguments contractRoot cwd argv;
  source ← readFile fixturePath;
  checkSource source.
End viem.
