(* ===== verification/HexFacts.v ===== *)
(** Hexadecimal text of whole bytes: lower-case text and its bytes determine
    each other. *)

From S2P Require Import Prelude JsText RewardTree Attestation.

Open Scope Z_scope.

(** Bytes of hexadecimal text. *)
Lemma lower_hex_char c :
  is_lower_hex c = true → is_hex c = true ∧ 0 ≤ hex_value c < 16 ∧ hex_digit (hex_value c) = c.
Proof.
  intros H. unfold is_hex. rewrite H. split; [done|].
  assert (c ∈ [48; 49; 50; 51; 52; 53; 54; 55; 56; 57; 97; 98; 99; 100; 101; 102]%N) as Hin.
  { unfold is_lower_hex, is_digit in H. repeat rewrite elem_of_cons.
    apply orb_true_iff in H as [H%in_range_spec|H%in_range_spec]; lia. }
  clear H. repeat (apply elem_of_cons in Hin as [->|Hin]; [split; [|done]; by vm_compute|]).
  by apply elem_of_nil in Hin.
Qed.

Lemma hex_of_bytes_of_hex s :
  Nat.even (length s) = true → forallb is_lower_hex s = true →
  hex_of_bytes (bytes_of_hex s) = s ∧ (2 * length (bytes_of_hex s) = length s)%nat.
Proof.
  revert s. fix IH 1. intros [|a [|b s]] He Hs; [done|done|]. cbn [forallb] in Hs.
  apply andb_true_iff in Hs as [Ha Hs]. apply andb_true_iff in Hs as [Hb Hs].
  apply lower_hex_char in Ha as (Ha & Hra & Hda), Hb as (Hb & Hrb & Hdb).
  cbn [bytes_of_hex]. rewrite Ha, Hb. cbn [andb length].
  destruct (IH s He Hs) as [IH1 IH2]. split; [|simpl in *; lia].
  change (hex_of_bytes (?x :: ?l)) with (hex_digit (x / 16) :: hex_digit (x mod 16) :: hex_of_bytes l).
  rewrite IH1. replace ((16 * hex_value a + hex_value b) / 16) with (hex_value a)
    by (Z.div_mod_to_equations; lia).
  replace ((16 * hex_value a + hex_value b) mod 16) with (hex_value b)
    by (Z.div_mod_to_equations; lia).
  by rewrite Hda, Hdb.
Qed.

Lemma strip_0x_Some s ds : strip_0x s = Some ds → s = js "0x" +++ ds ∧ drop 2 s = ds.
Proof.
  unfold strip_0x. destruct s as [|a [|b r]]; [done|repeat case_match; done|].
  repeat case_match; try done. by intros [= ->].
Qed.

Lemma hex_bytes_digits s :
  is_hex_bytes s = true → s = js "0x" +++ hex_of_bytes (hexBytes s) ∧
    (length s = 2 * length (hexBytes s) + 2)%nat.
Proof.
  unfold is_hex_bytes. destruct (strip_0x s) as [ds|] eqn:E; [|done].
  apply strip_0x_Some in E as [-> E]. intros [H1 H2]%andb_true_iff. unfold hexBytes. rewrite E.
  destruct (hex_of_bytes_of_hex ds H1 H2) as [-> Hl]. split; [done|]. simpl. lia.
Qed.

Lemma hexBytes_inj s t :
  is_hex_bytes s = true → is_hex_bytes t = true → hexBytes s = hexBytes t → s = t.
Proof. intros [Hs _]%hex_bytes_digits [Ht _]%hex_bytes_digits E. by rewrite Hs, Ht, E. Qed.

Lemma bytes32_hex s : is_bytes32 s = true → is_hex_bytes s = true ∧ length (hexBytes s) = 32%nat.
Proof.
  intros H. assert (is_hex_bytes s = true ∧ length s = 66%nat) as [Hh Hl].
  { unfold is_bytes32, is_hex_bytes in *. destruct (strip_0x s) as [ds|] eqn:E; [|done].
    apply strip_0x_Some in E as [-> _]. apply andb_true_iff in H as [Hl%Nat.eqb_eq ->].
    simpl. by rewrite Hl. }
  split; [done|]. apply hex_bytes_digits in Hh as [_ Hh]. lia.
Qed.

Lemma bytes_of_hex_length s :
  Nat.even (length s) = true → forallb is_hex s = true → (2 * length (bytes_of_hex s) = length s)%nat.
Proof.
  revert s. fix IH 1. intros [|a [|b s]] He Hs; [done|done|]. cbn [forallb] in Hs.
  apply andb_true_iff in Hs as [Ha Hs]. apply andb_true_iff in Hs as [Hb Hs].
  cbn [bytes_of_hex]. rewrite Ha, Hb. cbn [andb length]. specialize (IH s He Hs). lia.
Qed.

Lemma address_hex a : is_address_text a = true → length (hexBytes a) = 20%nat.
Proof.
  unfold is_address_text. destruct a as [|x [|y ds]]; [done|repeat case_match; done|].
  intros H. repeat (case_match; try done). apply andb_true_iff in H as [Hl%Nat.eqb_eq Hh].
  change (hexBytes (48%N :: 120%N :: ds)) with (bytes_of_hex ds).
  pose proof (bytes_of_hex_length ds ltac:(by rewrite Hl) Hh). lia.
Qed.

(** The text of bytes. *)
Lemma hex_of_bytes_format b :
  Forall byte b → length (hex_of_bytes b) = (2 * length b)%nat ∧ forallb is_lower_hex (hex_of_bytes b) = true.
Proof.
  induction 1 as [|x b Hx Hb [IH1 IH2]]; [done|]. unfold byte in Hx.
  change (hex_of_bytes (x :: b)) with (hex_digit (x / 16) :: hex_digit (x mod 16) :: hex_of_bytes b).
  assert (∀ z, 0 ≤ z < 16 → is_lower_hex (hex_digit z) = true) as Hd.
  { intros z Hz. assert (z ∈ [0; 1; 2; 3; 4; 5; 6; 7; 8; 9; 10; 11; 12; 13; 14; 15]) as Hin.
    { repeat rewrite elem_of_cons. lia. }
    repeat (apply elem_of_cons in Hin as [->|Hin]; [by vm_compute|]). by apply elem_of_nil in Hin. }
  cbn [length forallb]. rewrite IH2, !Hd by (Z.div_mod_to_equations; lia). split; [lia|done].
Qed.

Definition bytes_text (b : list Z) : jstr := js "0x" +++ hex_of_bytes b.

Lemma hexBytes_text b : Forall byte b → hexBytes (bytes_text b) = b.
Proof. intros. unfold hexBytes, bytes_text. simpl. by apply bytes_of_hex_of_bytes. Qed.

Lemma bytes_text_32 b : Forall byte b → length b = 32%nat → is_bytes32 (bytes_text b) = true.
Proof.
  intros [Hl Hf]%hex_of_bytes_format Hb. unfold is_bytes32, bytes_text.
  change (Nat.eqb (length (hex_of_bytes b)) 64 && forallb is_lower_hex (hex_of_bytes b) = true).
  rewrite Hf, andb_true_r. apply Nat.eqb_eq. lia.
Qed.
