(* ===== verification/Evm.v ===== *)
(** What the contracts share: words and addresses as bytes, and the outcome of
    an external call, which returns or reverts with an error of the contract. *)

From S2P Require Import Prelude RewardTree.

Open Scope Z_scope.

(** A bytes32 or an address, as its bytes. *)
Abbreviation bytes32 := (list Z).
Abbreviation address := (list Z).

Definition zero32 : bytes32 := replicate 32 0.
Definition zero20 : address := replicate 20 0.
Definition UINT64_MAX : Z := Z.shiftl 1 64 - 1.

Definition address_word (a : address) : list Z := replicate 12 0 ++ a.

(** ** Calls *)

Inductive evm_call (E A : Type) := Returns (a : A) | Reverts (r : E).
Arguments Returns {E A} _.
Arguments Reverts {E A} _.

#[export] Instance call_ret E : MRet (evm_call E) := λ A a, Returns a.
#[export] Instance call_bind E : MBind (evm_call E) := λ A B f m,
  match m with Returns a => f a | Reverts r => Reverts r end.

(** [if (b) revert r;]. *)
Definition revert_if {E} (b : bool) (r : E) : evm_call E unit := if b then Reverts r else Returns ().

(** Checked uint256 arithmetic, with the panic of the contract's error type. *)
Definition checked_add {E} (panic : E) (a b : Z) : evm_call E Z :=
  revert_if (UINT256_MAX <? a + b) panic;; Returns (a + b).
Definition checked_sub {E} (panic : E) (a b : Z) : evm_call E Z :=
  revert_if (a <? b) panic;; Returns (a - b).

(** ** Laws *)

Section laws.
Context {E : Type}.

Lemma call_bind_Returns {A B} (m : evm_call E A) (f : A → evm_call E B) b :
  (m ≫= f) = Returns b ↔ ∃ a, m = Returns a ∧ f a = Returns b.
Proof.
  destruct m as [a|r]; split; [eauto|by intros (? & [= <-] & ?)|done|by intros (? & ? & _)].
Qed.

Lemma revert_if_Returns b (r : E) : revert_if b r = Returns () ↔ b = false.
Proof. by destruct b. Qed.

Lemma checked_add_Returns (p : E) a b c : checked_add p a b = Returns c ↔ c = a + b ∧ a + b ≤ UINT256_MAX.
Proof.
  unfold checked_add, revert_if. destruct (UINT256_MAX <? a + b) eqn:H; simpl; split.
  - done.
  - lia.
  - intros [= <-]. lia.
  - by intros [-> _].
Qed.

Lemma checked_sub_Returns (p : E) a b c : checked_sub p a b = Returns c ↔ c = a - b ∧ b ≤ a.
Proof.
  unfold checked_sub, revert_if. destruct (a <? b) eqn:H; simpl; split.
  - done.
  - lia.
  - intros [= <-]. lia.
  - by intros [-> _].
Qed.
End laws.

(** One statement of a successful call at a time. *)
Tactic Notation "call" hyp(H) "as" ident(x) ident(Hx) :=
  apply call_bind_Returns in H; destruct H as (x & Hx & H).
Tactic Notation "required" hyp(H) "as" ident(Hg) :=
  let u := fresh in
  apply call_bind_Returns in H; destruct H as (u & Hg & H); destruct u;
  try (apply revert_if_Returns in Hg).
