(* ===== verification/Distributor.v ===== *)
(** contracts/src/rewards/ToriumRewardDistributor.sol: the on-chain distributor
    of funded reward epochs.

    Every external call is one function from a storage to a revert or the next
    storage, but for [claim] and [clawback]: each sends native value with a call
    that runs the receiver's code, so it is modelled in two halves, and the
    steps of the contract say what may happen between them. *)

From S2P Require Import Prelude RewardTree Evm.

Open Scope Z_scope.

(** ** Storage *)

Record Epoch := MkEpoch {
  rootHash : bytes32;
  funded : Z;
  claimStart : Z;
  claimEnd : Z;
  claimed : Z;
  clawed : Z;
}.

(** What an unset epoch reads as. *)
Definition no_epoch : Epoch := MkEpoch zero32 0 0 0 0 0.

(** [EPOCH_PUBLISHER_ROLE], [PAUSER_ROLE] and [CLAWBACK_ROLE]. *)
Inductive role := PublisherRole | PauserRole | ClawbackRole.

#[export] Instance role_eq_dec : EqDecision role.
Proof. solve_decision. Defined.

(** The contract's variables with those of its OpenZeppelin bases: who holds a
    role, [Pausable]'s flag and [ReentrancyGuard]'s; and its native balance. *)
Record storage := Storage {
  treasury : address;
  publicationDelay : Z;
  clawbackDelay : Z;
  nextEpochId : Z;
  totalFunded : Z;
  totalClaimed : Z;
  totalClawed : Z;
  epochs : gmap Z Epoch;
  usedRootHashes : gset bytes32;
  claimedBitMaps : gmap (Z * Z) Z;
  hasRole : role → address → bool;
  paused : bool;
  entered : bool;
  balance : Z;
}.

Inductive revert :=
| ZeroAddress | ZeroDelay | ZeroRootHash | ZeroFunding | ZeroAmount
| UnexpectedEpochId (expectedEpochId actualEpochId : Z)
| EpochNotFound (epochId : Z)
| RootHashAlreadyUsed (rootHash : bytes32)
| FundingDoesNotMatchRootSum (funding rootSum : Z)
| ClaimStartTooEarly (minimumStart actualStart : Z)
| InvalidClaimWindow (claimStart claimEnd : Z)
| ClaimNotStarted (claimStart currentTime : Z)
| ClaimWindowClosed (claimEnd currentTime : Z)
| ClaimAlreadyProcessed (epochId index : Z)
| MalformedProof (proofIndex : Z)
| InvalidProof (computedRootHash : bytes32) (computedRootSum : Z)
| ClawbackNotReady (availableAt currentTime : Z)
| NothingToClawback (epochId : Z)
| NativeTransferFailed (recipient : address) (amount : Z)
| AccountingInsolvent (nativeBalance outstanding : Z)
| AccessControlUnauthorizedAccount (account : address) (needed : role)
| AccessControlInvalidDefaultAdmin
| EnforcedPause | ExpectedPause | ReentrancyGuardReentrantCall
| Panic.

Abbreviation call := (evm_call revert).

(** [msg.sender], [msg.value] and [block.timestamp]. *)
Record context := Context_ { sender : address; value : Z; timestamp : Z }.

(** ** Writes to one variable *)

Definition set_epochs (f : gmap Z Epoch → gmap Z Epoch) (s : storage) : storage :=
  Storage (treasury s) (publicationDelay s) (clawbackDelay s) (nextEpochId s) (totalFunded s)
    (totalClaimed s) (totalClawed s) (f (epochs s)) (usedRootHashes s) (claimedBitMaps s)
    (hasRole s) (paused s) (entered s) (balance s).
Definition set_totals (claimed clawed : Z) (s : storage) : storage :=
  Storage (treasury s) (publicationDelay s) (clawbackDelay s) (nextEpochId s) (totalFunded s)
    claimed clawed (epochs s) (usedRootHashes s) (claimedBitMaps s)
    (hasRole s) (paused s) (entered s) (balance s).
Definition set_bitmaps (m : gmap (Z * Z) Z) (s : storage) : storage :=
  Storage (treasury s) (publicationDelay s) (clawbackDelay s) (nextEpochId s) (totalFunded s)
    (totalClaimed s) (totalClawed s) (epochs s) (usedRootHashes s) m
    (hasRole s) (paused s) (entered s) (balance s).
Definition set_roles (r : role → address → bool) (s : storage) : storage :=
  Storage (treasury s) (publicationDelay s) (clawbackDelay s) (nextEpochId s) (totalFunded s)
    (totalClaimed s) (totalClawed s) (epochs s) (usedRootHashes s) (claimedBitMaps s)
    r (paused s) (entered s) (balance s).
Definition set_paused (b : bool) (s : storage) : storage :=
  Storage (treasury s) (publicationDelay s) (clawbackDelay s) (nextEpochId s) (totalFunded s)
    (totalClaimed s) (totalClawed s) (epochs s) (usedRootHashes s) (claimedBitMaps s)
    (hasRole s) b (entered s) (balance s).
Definition set_entered (b : bool) (s : storage) : storage :=
  Storage (treasury s) (publicationDelay s) (clawbackDelay s) (nextEpochId s) (totalFunded s)
    (totalClaimed s) (totalClawed s) (epochs s) (usedRootHashes s) (claimedBitMaps s)
    (hasRole s) (paused s) b (balance s).
Definition set_balance (z : Z) (s : storage) : storage :=
  Storage (treasury s) (publicationDelay s) (clawbackDelay s) (nextEpochId s) (totalFunded s)
    (totalClaimed s) (totalClawed s) (epochs s) (usedRootHashes s) (claimedBitMaps s)
    (hasRole s) (paused s) (entered s) z.

(** ** Modifiers *)

Definition onlyRole (r : role) (c : context) (s : storage) : call unit :=
  revert_if (negb (hasRole s r (sender c))) (AccessControlUnauthorizedAccount (sender c) r).
Definition whenNotPaused (s : storage) : call unit := revert_if (paused s) EnforcedPause.
Definition nonReentrant (s : storage) : call unit := revert_if (entered s) ReentrancyGuardReentrantCall.

(** ** Views *)

Definition epoch_at (s : storage) (id : Z) : Epoch := default no_epoch (epochs s !! id).

Definition requireEpoch (s : storage) (epochId : Z) : call Epoch :=
  let e := epoch_at s epochId in
  revert_if (bool_decide (rootHash e = zero32)) (EpochNotFound epochId);;
  Returns e.

Definition word_at (s : storage) (epochId wordIndex : Z) : Z :=
  default 0 (claimedBitMaps s !! (epochId, wordIndex)).

Definition mask_of (index : Z) : Z := Z.shiftl 1 (Z.land index 255).

Definition isClaimed (s : storage) (epochId index : Z) : bool :=
  let word := word_at s epochId (Z.shiftr index 8) in
  Z.land word (mask_of index) =? mask_of index.

Definition setClaimed (epochId index : Z) (s : storage) : storage :=
  let wordIndex := Z.shiftr index 8 in
  set_bitmaps (<[(epochId, wordIndex) := Z.lor (word_at s epochId wordIndex) (mask_of index)]>
                 (claimedBitMaps s)) s.

Definition isRootHashUsed (s : storage) (h : bytes32) : bool := bool_decide (h ∈ usedRootHashes s).

Definition remaining (e : Epoch) : call Z :=
  r ← checked_sub Panic (funded e) (claimed e); checked_sub Panic r (clawed e).

Definition remainingForEpoch (s : storage) (epochId : Z) : call Z :=
  e ← requireEpoch s epochId; remaining e.

Definition totalOutstanding (s : storage) : call Z :=
  r ← checked_sub Panic (totalFunded s) (totalClaimed s); checked_sub Panic r (totalClawed s).

Definition forcedSurplus (s : storage) : call Z :=
  outstanding ← totalOutstanding s;
  revert_if (balance s <? outstanding) (AccountingInsolvent (balance s) outstanding);;
  Returns (balance s - outstanding).

Definition clawbackAvailableAt (s : storage) (epochId : Z) : call Z :=
  e ← requireEpoch s epochId; checked_add Panic (claimEnd e) (clawbackDelay s).

(** [_emitAccounting]: the event's arguments are computed, and may revert. *)
Definition emitAccounting (s : storage) : call unit :=
  totalOutstanding s;; forcedSurplus s;; Returns ().

Section distributor.
(** The EVM's keccak256. *)
Context (evm_keccak256 : list Z → bytes32).

(** ** The Merkle-sum proof *)

Definition leafHash (epochId index : Z) (account : address) (amount : Z) : bytes32 :=
  evm_keccak256 (be_word 32 epochId ++ be_word 32 index ++ address_word account ++ be_word 32 amount).

Definition hashNode (firstHash : bytes32) (firstSum : Z) (secondHash : bytes32) (secondSum : Z)
    : call (bytes32 * Z) :=
  parentSum ← checked_add Panic firstSum secondSum;
  if (be_value firstHash <? be_value secondHash) || bool_decide (firstHash = secondHash) then
    Returns (evm_keccak256 (firstHash ++ be_word 32 firstSum ++ secondHash ++ be_word 32 secondSum), parentSum)
  else
    Returns (evm_keccak256 (secondHash ++ be_word 32 secondSum ++ firstHash ++ be_word 32 firstSum), parentSum).

Fixpoint processProof_from (i : Z) (h : bytes32) (sum : Z) (proof : list ProofNode)
    : call (bytes32 * Z) :=
  match proof with
  | [] => Returns (h, sum)
  | sibling :: rest =>
      revert_if (bool_decide (nodeHash sibling = zero32) || (node_sum sibling =? 0)) (MalformedProof i);;
      '(h', sum') ← hashNode h sum (nodeHash sibling) (node_sum sibling);
      processProof_from (i + 1) h' sum' rest
  end.

Definition processProof (epochId index : Z) (account : address) (amount : Z) (proof : list ProofNode)
    : call (bytes32 * Z) :=
  processProof_from 0 (leafHash epochId index account amount) amount proof.

(** ** Calls *)

(** The constructor: the base AccessControlDefaultAdminRules refuses a zero
    administrator before the contract's own checks. *)
Definition constructor (defaultAdminDelay : Z) (initialAdmin initialPublisher initialPauser
    initialClawbackOperator treasury_ : address) (publicationDelay_ clawbackDelay_ : Z) : call storage :=
  revert_if (bool_decide (initialAdmin = zero20)) AccessControlInvalidDefaultAdmin;;
  revert_if (bool_decide (initialAdmin = zero20) || bool_decide (initialPublisher = zero20)
             || bool_decide (initialPauser = zero20) || bool_decide (initialClawbackOperator = zero20)
             || bool_decide (treasury_ = zero20)) ZeroAddress;;
  revert_if ((defaultAdminDelay =? 0) || (publicationDelay_ =? 0) || (clawbackDelay_ =? 0)) ZeroDelay;;
  let granted r a :=
    match r with
    | PublisherRole => bool_decide (a = initialPublisher)
    | PauserRole => bool_decide (a = initialPauser)
    | ClawbackRole => bool_decide (a = initialClawbackOperator)
    end in
  Returns (Storage treasury_ publicationDelay_ clawbackDelay_ 1 0 0 0 ∅ ∅ ∅ granted false false 0).

(** [publishEpoch]; the value of the call is in the balance when it runs. *)
Definition publishEpoch (c : context) (epochId : Z) (root : bytes32) (rootSum start end_ : Z)
    (s : storage) : call storage :=
  onlyRole PublisherRole c s;;
  whenNotPaused s;;
  let expectedEpochId := nextEpochId s in
  revert_if (negb (epochId =? expectedEpochId)) (UnexpectedEpochId expectedEpochId epochId);;
  revert_if (bool_decide (root = zero32)) ZeroRootHash;;
  revert_if (isRootHashUsed s root) (RootHashAlreadyUsed root);;
  revert_if ((rootSum =? 0) || (value c =? 0)) ZeroFunding;;
  revert_if (negb (value c =? rootSum)) (FundingDoesNotMatchRootSum (value c) rootSum);;
  minimumStart ← checked_add Panic (timestamp c) (publicationDelay s);
  revert_if (start <? minimumStart) (ClaimStartTooEarly minimumStart start);;
  revert_if (end_ <=? start) (InvalidClaimWindow start end_);;
  next ← checked_add Panic expectedEpochId 1;
  total ← checked_add Panic (totalFunded s) rootSum;
  let s' :=
    Storage (treasury s) (publicationDelay s) (clawbackDelay s) next total (totalClaimed s) (totalClawed s)
      (<[epochId := MkEpoch root rootSum start end_ 0 0]> (epochs s)) ({[root]} ∪ usedRootHashes s)
      (claimedBitMaps s) (hasRole s) (paused s) (entered s) (balance s + value c) in
  emitAccounting s';;
  Returns s'.

(** Sending native value: it leaves the balance before the receiver runs, and a
    balance that is too small fails the call. *)
Definition send (recipient : address) (amount : Z) (s : storage) : call storage :=
  revert_if (balance s <? amount) (NativeTransferFailed recipient amount);;
  Returns (set_balance (balance s - amount) s).

Definition add_claimed (amount : Z) (e : Epoch) : Epoch :=
  MkEpoch (rootHash e) (funded e) (claimStart e) (claimEnd e) (claimed e + amount) (clawed e).
Definition add_clawed (amount : Z) (e : Epoch) : Epoch :=
  MkEpoch (rootHash e) (funded e) (claimStart e) (claimEnd e) (claimed e) (clawed e + amount).

(** The checks of [claim]: the epoch the claim is paid from. *)
Definition check_claim (c : context) (epochId index : Z) (account : address) (amount : Z)
    (proof : list ProofNode) (s : storage) : call Epoch :=
  nonReentrant s;;
  whenNotPaused s;;
  e ← requireEpoch s epochId;
  revert_if (bool_decide (account = zero20)) ZeroAddress;;
  revert_if (amount =? 0) ZeroAmount;;
  let currentTime := timestamp c in
  revert_if (currentTime <? claimStart e) (ClaimNotStarted (claimStart e) currentTime);;
  revert_if (claimEnd e <=? currentTime) (ClaimWindowClosed (claimEnd e) currentTime);;
  revert_if (isClaimed s epochId index) (ClaimAlreadyProcessed epochId index);;
  '(h, sum) ← processProof epochId index account amount proof;
  revert_if (negb (bool_decide (h = rootHash e)) || negb (sum =? funded e)) (InvalidProof h sum);;
  Returns e.

(** The writes of [claim], up to and with the transfer. *)
Definition pay_claim (epochId index : Z) (account : address) (amount : Z) (e : Epoch) (s : storage)
    : call storage :=
  checked_add Panic (claimed e) amount;;
  total ← checked_add Panic (totalClaimed s) amount;
  send account amount
    (set_totals total (totalClawed s)
       (set_epochs (<[epochId := add_claimed amount e]>) (setClaimed epochId index (set_entered true s)))).

(** The first half of [claim]. *)
Definition begin_claim (c : context) (epochId index : Z) (account : address) (amount : Z)
    (proof : list ProofNode) (s : storage) : call storage :=
  e ← check_claim c epochId index account amount proof s;
  pay_claim epochId index account amount e s.

(** What is left once the receiver has returned: the events and the guard. *)
Definition end_claim (epochId : Z) (s : storage) : call storage :=
  remaining (epoch_at s epochId);;
  emitAccounting s;;
  Returns (set_entered false s).

Definition check_clawback (c : context) (epochId : Z) (s : storage) : call (Epoch * Z) :=
  onlyRole ClawbackRole c s;;
  nonReentrant s;;
  whenNotPaused s;;
  e ← requireEpoch s epochId;
  availableAt ← checked_add Panic (claimEnd e) (clawbackDelay s);
  revert_if (timestamp c <? availableAt) (ClawbackNotReady availableAt (timestamp c));;
  amount ← remaining e;
  revert_if (amount =? 0) (NothingToClawback epochId);;
  Returns (e, amount).

Definition pay_clawback (epochId : Z) (e : Epoch) (amount : Z) (s : storage) : call storage :=
  checked_add Panic (clawed e) amount;;
  total ← checked_add Panic (totalClawed s) amount;
  send (treasury s) amount
    (set_totals (totalClaimed s) total
       (set_epochs (<[epochId := add_clawed amount e]>) (set_entered true s))).

Definition begin_clawback (c : context) (epochId : Z) (s : storage) : call storage :=
  '(e, amount) ← check_clawback c epochId s; pay_clawback epochId e amount s.

Definition end_clawback (s : storage) : call storage :=
  emitAccounting s;; Returns (set_entered false s).

Definition pause (c : context) (s : storage) : call storage :=
  onlyRole PauserRole c s;;
  revert_if (paused s) EnforcedPause;;
  Returns (set_paused true s).

Definition unpause (c : context) (s : storage) : call storage :=
  onlyRole PauserRole c s;;
  revert_if (negb (paused s)) ExpectedPause;;
  Returns (set_paused false s).

(** ** Executions *)

(** What a caller may do, the receiver of a payment included: a call of the
    contract that does not revert, with the steps of the receiver between the two
    halves of a paying call; a grant, revocation or renunciation of roles by the
    administrator; native value that arrives without a call. *)
Inductive step : storage → storage → Prop :=
| step_publish c epochId root rootSum start end_ s s' :
    0 ≤ value c → publishEpoch c epochId root rootSum start end_ s = Returns s' → step s s'
| step_claim c epochId index account amount proof s s1 s2 s' :
    0 ≤ epochId → 0 ≤ index → 0 ≤ amount →
    begin_claim c epochId index account amount proof s = Returns s1 →
    steps s1 s2 →
    end_claim epochId s2 = Returns s' → step s s'
| step_clawback c epochId s s1 s2 s' :
    begin_clawback c epochId s = Returns s1 → steps s1 s2 → end_clawback s2 = Returns s' → step s s'
| step_pause c s s' : pause c s = Returns s' → step s s'
| step_unpause c s s' : unpause c s = Returns s' → step s s'
| step_roles r s : step s (set_roles r s)
| step_forced amount s : 0 ≤ amount → step s (set_balance (balance s + amount) s)
with steps : storage → storage → Prop :=
| steps_refl s : steps s s
| steps_cons s1 s2 s3 : step s1 s2 → steps s2 s3 → steps s1 s3.

Scheme step_mut := Minimality for step Sort Prop
  with steps_mut := Minimality for steps Sort Prop.
Combined Scheme execution_ind from step_mut, steps_mut.

Definition deployed (s : storage) : Prop :=
  ∃ delay admin publisher pauser operator treasury_ publication clawback,
    constructor delay admin publisher pauser operator treasury_ publication clawback = Returns s.

Definition reachable (s : storage) : Prop := ∃ s0, deployed s0 ∧ steps s0 s.
End distributor.
