(* ===== verification/DistributorFacts.v ===== *)
(** The reward distributor: solvency in every reachable state, whatever the
    receivers of payments do, and claims that are paid at most once. *)

From S2P Require Import Prelude RewardTree Evm Distributor.

Open Scope Z_scope.

(** ** Bits *)

Lemma mask_of_testbit index i :
  0 ≤ index → 0 ≤ i → Z.testbit (mask_of index) i = bool_decide (i = index mod 256).
Proof.
  intros Hx Hi. unfold mask_of. change 255 with (Z.ones 8). rewrite Z.land_ones by lia.
  change (2 ^ 8) with 256. rewrite Z.shiftl_spec by lia.
  destruct (decide (i = index mod 256)) as [->|Hne].
  - rewrite Z.sub_diag. by rewrite bool_decide_eq_true_2.
  - rewrite bool_decide_eq_false_2 by done. destruct (decide (i < index mod 256)).
    + by rewrite Z.testbit_neg_r by lia.
    + apply Z.bits_above_log2; [lia|]. change (Z.log2 1) with 0. lia.
Qed.

(** [isClaimed] looks at one bit of one word. *)
Lemma isClaimed_bit s id index :
  0 ≤ index → isClaimed s id index = Z.testbit (word_at s id (Z.shiftr index 8)) (index mod 256).
Proof.
  intros Hx. unfold isClaimed. set (w := word_at _ _ _).
  assert (0 ≤ index mod 256) as Hm by (apply Z.mod_pos_bound; lia).
  destruct (Z.testbit w (index mod 256)) eqn:E.
  - apply Z.eqb_eq, Z.bits_inj'. intros i Hi. rewrite Z.land_spec, mask_of_testbit by done.
    destruct (decide (i = index mod 256)) as [->|Hne]; [|by rewrite bool_decide_eq_false_2, andb_false_r].
    by rewrite E.
  - apply Z.eqb_neq. intros Heq. apply (f_equal (λ z, Z.testbit z (index mod 256))) in Heq.
    rewrite Z.land_spec, mask_of_testbit, E, bool_decide_eq_true_2 in Heq by done. done.
Qed.

Lemma split_index i j : Z.shiftr i 8 = Z.shiftr j 8 → i mod 256 = j mod 256 → i = j.
Proof.
  rewrite !Z.shiftr_div_pow2 by lia. change (2 ^ 8) with 256. intros Hd Hm.
  rewrite (Z.div_mod i 256), (Z.div_mod j 256) by lia. congruence.
Qed.

(** Marking a claim sets its own bit and no other. *)
Lemma isClaimed_setClaimed s id index id' index' :
  0 ≤ index → 0 ≤ index' →
  isClaimed (setClaimed id index s) id' index' =
    isClaimed s id' index' || bool_decide (id' = id ∧ index' = index).
Proof.
  intros Hx Hx'. rewrite !isClaimed_bit by done. unfold setClaimed, word_at. cbn [claimedBitMaps set_bitmaps].
  destruct (decide ((id', Z.shiftr index' 8) = (id, Z.shiftr index 8))) as [[= -> Hs]|Hne].
  - rewrite Hs, lookup_insert_eq. cbn. rewrite Z.lor_spec.
    rewrite mask_of_testbit by (done || apply Z.mod_pos_bound; lia).
    f_equal. apply bool_decide_ext. split; [|by intros [_ ->]]. intros Hm. split; [done|].
    by apply split_index.
  - rewrite lookup_insert_ne by congruence.
    rewrite bool_decide_eq_false_2, orb_false_r; [done|]. intros [-> ->]. done.
Qed.

(** ** Totals over the epochs *)

Definition total (f : Epoch → Z) (m : gmap Z Epoch) : Z := map_fold (λ _ e acc, f e + acc) 0 m.

Lemma total_insert f m id e :
  m !! id = None → total f (<[id := e]> m) = f e + total f m.
Proof. intros H. unfold total. rewrite map_fold_insert_L; [done|intros; lia|done]. Qed.

Lemma total_update f m id e0 e :
  m !! id = Some e0 → total f (<[id := e]> m) = total f m + f e - f e0.
Proof.
  intros H. rewrite <- (insert_delete_id m id e0) at 2 by done.
  rewrite <- insert_delete_eq. rewrite !total_insert by apply lookup_delete_eq. lia.
Qed.

Lemma total_nonneg f m : (∀ id e, m !! id = Some e → 0 ≤ f e) → 0 ≤ total f m.
Proof.
  unfold total. revert m. apply (map_fold_weak_ind (λ r m, (∀ id e, m !! id = Some e → 0 ≤ f e) → 0 ≤ r)).
  - done.
  - intros id e m r Hm IH H. pose proof (H id e (lookup_insert_eq _ _ _)).
    assert (0 ≤ r); [|lia]. apply IH. intros id' e' H'. apply (H id'). rewrite lookup_insert_ne; [done|].
    intros ->. congruence.
Qed.

(** ** The invariant *)

Definition bounded (e : Epoch) : Prop := claimed e + clawed e ≤ funded e.

(** What every state keeps, the ones in the middle of a payment included. *)
Record accounts_ok (s : storage) : Prop := {
  ok_next : 1 ≤ nextEpochId s;
  ok_epoch id e : epochs s !! id = Some e →
    1 ≤ id < nextEpochId s ∧ rootHash e ≠ zero32 ∧ rootHash e ∈ usedRootHashes s ∧
    0 ≤ claimed e ∧ 0 ≤ clawed e;
  ok_roots id id' e e' : epochs s !! id = Some e → epochs s !! id' = Some e' →
    rootHash e = rootHash e' → id = id';
  ok_funded : totalFunded s = total funded (epochs s);
  ok_claimed : totalClaimed s = total claimed (epochs s);
  ok_clawed : totalClawed s = total clawed (epochs s);
  ok_balance : totalFunded s - totalClaimed s - totalClawed s ≤ balance s;
  ok_max : totalFunded s ≤ UINT256_MAX;
  ok_bits k : is_Some (claimedBitMaps s !! k) → k.1 < nextEpochId s
}.

(** Outside a payment no epoch pays out more than it holds. *)
Record good (s : storage) : Prop := {
  good_accounts : accounts_ok s;
  good_bounded : entered s = false → ∀ id e, epochs s !! id = Some e → bounded e
}.

(** What the receiver of a payment cannot change. *)
Record framed (s s' : storage) : Prop := {
  framed_epoch id e : epochs s !! id = Some e → epochs s' !! id = Some e;
  framed_new id e : epochs s' !! id = Some e → epochs s !! id = Some e ∨ bounded e
}.

#[export] Instance framed_preorder : PreOrder framed.
Proof.
  split.
  - intros s. split; auto.
  - intros a b c [H1 H2] [H3 H4]. split; [eauto|]. intros id e [H|H]%H4; [|by right]. by apply H2.
Qed.

(** Changes that the accounts do not look at. *)
Lemma accounts_ok_same s s' :
  nextEpochId s' = nextEpochId s → epochs s' = epochs s → usedRootHashes s' = usedRootHashes s →
  totalFunded s' = totalFunded s → totalClaimed s' = totalClaimed s → totalClawed s' = totalClawed s →
  claimedBitMaps s' = claimedBitMaps s → balance s ≤ balance s' → accounts_ok s → accounts_ok s'.
Proof.
  intros E1 E2 E3 E4 E5 E6 E7 Hb [H1 H2 H3 H4 H5 H6 H7 H8 H9].
  split; rewrite ?E1, ?E2, ?E3, ?E4, ?E5, ?E6, ?E7; try done; lia.
Qed.

Lemma epoch_at_nonzero s id : rootHash (epoch_at s id) ≠ zero32 → epochs s !! id = Some (epoch_at s id).
Proof. unfold epoch_at. destruct (epochs s !! id); [done|]. simpl. done. Qed.

Lemma requireEpoch_Returns s id e :
  requireEpoch s id = Returns e ↔ e = epoch_at s id ∧ rootHash e ≠ zero32.
Proof.
  unfold requireEpoch. rewrite call_bind_Returns. split.
  - intros ([] & H & [= <-]). by apply revert_if_Returns, bool_decide_eq_false in H.
  - intros [-> H]. exists (). split; [|done]. by apply revert_if_Returns, bool_decide_eq_false.
Qed.

Lemma remaining_Returns e r : remaining e = Returns r → r = funded e - claimed e - clawed e ∧ bounded e.
Proof.
  unfold remaining, bounded. intros H. call H as a Ha.
  apply checked_sub_Returns in Ha as [-> ?]. apply checked_sub_Returns in H as [-> ?]. lia.
Qed.

(** An update of one epoch and of the balance, with the totals to match. *)
Lemma accounts_ok_pay s id e e' b claimed_ clawed_ s' :
  accounts_ok s → epochs s !! id = Some e →
  rootHash e' = rootHash e → funded e' = funded e → 0 ≤ claimed e' → 0 ≤ clawed e' →
  claimed_ = totalClaimed s + claimed e' - claimed e → clawed_ = totalClawed s + clawed e' - clawed e →
  b = balance s - (claimed e' - claimed e) - (clawed e' - clawed e) →
  nextEpochId s' = nextEpochId s → epochs s' = <[id := e']> (epochs s) →
  usedRootHashes s' = usedRootHashes s → totalFunded s' = totalFunded s →
  totalClaimed s' = claimed_ → totalClawed s' = clawed_ → balance s' = b →
  (∀ k, is_Some (claimedBitMaps s' !! k) → is_Some (claimedBitMaps s !! k) ∨ k.1 = id) → accounts_ok s'.
Proof.
  intros [H1 H2 H3 H4 H5 H6 H7 H8 H9] He Er Ef Hc Hw -> -> -> E1 E2 E3 E4 E5 E6 E7 E8.
  assert (∀ k x, epochs s' !! k = Some x → ∃ y, epochs s !! k = Some y ∧ rootHash x = rootHash y ∧
            (x = y ∨ (0 ≤ claimed x ∧ 0 ≤ clawed x))) as Hold.
  { intros k x. rewrite E2, lookup_insert. case_decide as Hk; [|by eauto].
    subst k. intros [= <-]. eauto 10. }
  split; rewrite ?E1, ?E3, ?E4, ?E5, ?E6, ?E7.
  - done.
  - intros k x (y & Hy & -> & Hxy)%Hold. destruct (H2 k y Hy) as (? & ? & ? & ? & ?).
    destruct Hxy as [-> | [? ?]]; by split_and!; try lia.
  - intros k k' x x' (y & Hy & Ex & _)%Hold (y' & Hy' & Ex' & _)%Hold. rewrite Ex, Ex'. by apply H3.
  - rewrite E2, (total_update _ _ _ e) by done. lia.
  - rewrite E2, (total_update _ _ _ e) by done. lia.
  - rewrite E2, (total_update _ _ _ e) by done. lia.
  - lia.
  - done.
  - intros k [Hk | ->]%E8; [by apply H9|]. apply (H2 _ _ He).
Qed.

(** ** Calls *)

Section calls.
Context (evm_keccak256 : list Z → bytes32).

Lemma publish_ok c id root sum start end_ s s' :
  accounts_ok s → 0 ≤ value c → publishEpoch c id root sum start end_ s = Returns s' →
  accounts_ok s' ∧ entered s' = entered s ∧ framed s s' ∧ claimedBitMaps s' = claimedBitMaps s.
Proof.
  intros Hok Hv H. unfold publishEpoch in H.
  required H as Hrole. required H as Hpause. required H as Hid. required H as Hroot. required H as Hused.
  required H as Hzero. required H as Hsum. call H as minimum Hmin. required H as Hstart. required H as Hend.
  call H as next Hnext. call H as total_ Htotal. required H as Hemit. injection H as <-.
  apply checked_add_Returns in Hnext as [-> _], Htotal as [-> Hmax].
  apply bool_decide_eq_false in Hroot. unfold isRootHashUsed in Hused. apply bool_decide_eq_false in Hused.
  assert (id = nextEpochId s) as -> by lia. clear Hid Hemit Hrole Hpause Hmin.
  destruct Hok as [H1 H2 H3 H4 H5 H6 H7 H8 H9].
  assert (epochs s !! nextEpochId s = None) as Hnew.
  { destruct (epochs s !! nextEpochId s) as [e|] eqn:E; [|done]. apply H2 in E. lia. }
  set (e0 := MkEpoch root sum start end_ 0 0).
  split_and!; [| done| |done].
  - split; cbn [nextEpochId epochs usedRootHashes totalFunded totalClaimed totalClawed balance].
    + lia.
    + intros k x. rewrite lookup_insert. case_decide as Hk.
      * subst k. intros [= <-]. split_and!; [lia..|done| |done|done]. simpl. set_solver +.
      * intros (? & ? & ? & ? & ?)%H2. split_and!; [lia..|done| |done|done]. by apply elem_of_union_r.
    + intros k k' x x'. rewrite !lookup_insert. case_decide as Hk; case_decide as Hk'; subst.
      * done.
      * intros [= <-] Hx' Er. change (root = rootHash x') in Er. exfalso. apply Hused. rewrite Er. by apply (H2 _ _ Hx').
      * intros Hx [= <-] Er. change (rootHash x = root) in Er. exfalso. apply Hused. rewrite <- Er. by apply (H2 _ _ Hx).
      * apply H3.
    + rewrite total_insert by done. rewrite H4. simpl. lia.
    + rewrite total_insert by done. rewrite H5. simpl. lia.
    + rewrite total_insert by done. rewrite H6. simpl. lia.
    + lia.
    + done.
    + intros k Hk. simpl. pose proof (H9 k Hk). lia.
  - split; cbn [epochs].
    + intros k x Hx. rewrite lookup_insert_ne; [done|]. congruence.
    + intros k x. rewrite lookup_insert. case_decide; [|by left]. intros [= <-]. right.
      unfold bounded. simpl. lia.
Qed.

(** A published epoch is open to all its claims. *)
Lemma published_epoch c id root sum start end_ s s' :
  accounts_ok s → publishEpoch c id root sum start end_ s = Returns s' →
  epochs s' !! id = Some (MkEpoch root sum start end_ 0 0) ∧ paused s' = false ∧
  balance s' = balance s + sum ∧ (∀ index, 0 ≤ index → isClaimed s' id index = false).
Proof.
  intros Hok H. unfold publishEpoch in H.
  required H as Hrole. required H as Hpause. required H as Hid. required H as Hroot. required H as Hused.
  required H as Hzero. required H as Hsum. call H as minimum Hmin. required H as Hstart. required H as Hend.
  call H as next Hnext. call H as total_ Htotal. required H as Hemit. injection H as <-.
  cbn [epochs paused balance]. split_and!; [apply lookup_insert_eq|done|lia|].
  intros index Hi. rewrite isClaimed_bit by done. unfold word_at. cbn [claimedBitMaps].
  destruct (claimedBitMaps s !! _) as [w|] eqn:E; [|by rewrite Z.bits_0].
  pose proof (ok_bits _ Hok _ ltac:(by eexists)) as Hlt. simpl in Hlt. lia.
Qed.

Lemma send_Returns a z s s' : send a z s = Returns s' ↔ z ≤ balance s ∧ s' = set_balance (balance s - z) s.
Proof.
  unfold send. rewrite call_bind_Returns. split.
  - intros ([] & H & [= <-]). apply revert_if_Returns in H. split; [lia|done].
  - intros [H ->]. exists (). split; [|done]. apply revert_if_Returns. lia.
Qed.

Lemma check_claim_epoch c id index account amount proof s e :
  check_claim evm_keccak256 c id index account amount proof s = Returns e →
  entered s = false ∧ epochs s !! id = Some e ∧ isClaimed s id index = false.
Proof.
  unfold check_claim. intros H. required H as He. required H as Hp. call H as e' He'.
  required H as Ha. required H as Hz. required H as Hs. required H as Hc. required H as Hi.
  call H as hs Hh. destruct hs as [h sum]. required H as Hr. injection H as ->.
  apply requireEpoch_Returns in He' as [-> Hne]. split_and!; [done| |done]. by apply epoch_at_nonzero.
Qed.

(** The first half of a claim. *)
Lemma begin_claim_ok c id index account amount proof s s1 :
  accounts_ok s → 0 ≤ amount →
  begin_claim evm_keccak256 c id index account amount proof s = Returns s1 →
  ∃ e, entered s = false ∧ epochs s !! id = Some e ∧ isClaimed s id index = false ∧
    accounts_ok s1 ∧ entered s1 = true ∧ epochs s1 = <[id := add_claimed amount e]> (epochs s) ∧
    claimedBitMaps s1 = claimedBitMaps (setClaimed id index s) ∧ balance s1 = balance s - amount.
Proof.
  intros Hok Ha H. unfold begin_claim in H. call H as e He.
  apply check_claim_epoch in He as (Hent & He & Hi). unfold pay_claim in H.
  call H as x Hx. call H as total_ Ht. apply checked_add_Returns in Ht as [-> _].
  apply send_Returns in H as [Hb ->]. exists e. split_and!; try done.
  pose proof (ok_epoch _ Hok _ _ He) as (_ & _ & _ & Hc & Hw).
  eapply (accounts_ok_pay s id e (add_claimed amount e)); try done; simpl; try lia.
  intros k. rewrite lookup_insert. case_decide as Hk; [|by left]. subst k. by right.
Qed.

Lemma begin_clawback_ok c id s s1 :
  accounts_ok s → begin_clawback c id s = Returns s1 →
  ∃ e, entered s = false ∧ epochs s !! id = Some e ∧ accounts_ok s1 ∧ entered s1 = true ∧
    epochs s1 = <[id := add_clawed (funded e - claimed e - clawed e) e]> (epochs s) ∧
    claimedBitMaps s1 = claimedBitMaps s ∧ bounded e.
Proof.
  intros Hok H. unfold begin_clawback, check_clawback in H. call H as ea Hea. destruct ea as [e amount].
  required Hea as Hr. required Hea as He. required Hea as Hp. call Hea as e' He'. call Hea as at_ Hat.
  required Hea as Ht. call Hea as am Ham. required Hea as Hz. injection Hea as <- <-.
  apply requireEpoch_Returns in He' as [-> Hne]. apply epoch_at_nonzero in Hne.
  apply remaining_Returns in Ham as [-> Hb]. unfold pay_clawback in H.
  call H as x Hx. call H as total_ Htot. apply checked_add_Returns in Htot as [-> _].
  apply send_Returns in H as [Hbal ->]. exists (epoch_at s id). split_and!; try done.
  pose proof (ok_epoch _ Hok _ _ Hne) as (_ & _ & _ & Hc & Hw). unfold bounded in Hb.
  eapply (accounts_ok_pay s id _ (add_clawed _ (epoch_at s id))); try done; simpl; try lia. by left.
Qed.

Lemma end_claim_ok id s s' :
  end_claim id s = Returns s' → s' = set_entered false s ∧ bounded (epoch_at s id).
Proof.
  unfold end_claim. intros H. call H as r Hr. required H as He. injection H as <-.
  by apply remaining_Returns in Hr as [_ Hb].
Qed.

Lemma end_clawback_ok s s' : end_clawback s = Returns s' → s' = set_entered false s.
Proof. unfold end_clawback. intros H. required H as He. by injection H. Qed.

Lemma pause_ok c s s' :
  pause c s = Returns s' ∨ unpause c s = Returns s' → ∃ b, s' = set_paused b s.
Proof.
  unfold pause, unpause. intros [H|H]; required H as Hr; required H as Hp; injection H as <-; eauto.
Qed.
End calls.

(** ** Executions *)

Lemma isClaimed_same s s' id index :
  claimedBitMaps s' = claimedBitMaps s → isClaimed s' id index = isClaimed s id index.
Proof. unfold isClaimed, word_at. by intros ->. Qed.

(** What an execution does to a good state. *)
Record progresses (s s' : storage) : Prop := {
  progress_good : good s';
  progress_entered : entered s' = entered s;
  progress_framed : entered s = true → framed s s';
  progress_claims id index : 0 ≤ index → isClaimed s id index = true → isClaimed s' id index = true
}.

Lemma progresses_refl s : good s → progresses s s.
Proof. intros H. split; auto. reflexivity. Qed.

Lemma progresses_trans a b c : progresses a b → progresses b c → progresses a c.
Proof.
  intros [H1 H2 H3 H4] [H5 H6 H7 H8]. split; [done|congruence| |auto].
  intros H. etrans; [by apply H3|]. apply H7. congruence.
Qed.

(** A change outside the accounts. *)
Lemma progresses_same s s' :
  accounts_ok s' → epochs s' = epochs s → entered s' = entered s → claimedBitMaps s' = claimedBitMaps s →
  good s → progresses s s'.
Proof.
  intros Hok Ee En Ec [H1 H2]. split.
  - split; [done|]. rewrite En, Ee. done.
  - done.
  - intros _. split; rewrite Ee; auto.
  - intros id i _. by rewrite (isClaimed_same s s').
Qed.

(** A payment, once its receiver has returned. *)
Lemma progresses_payment s s1 s2 id e e' :
  good s → entered s = false → epochs s !! id = Some e → epochs s1 = <[id := e']> (epochs s) →
  entered s1 = true → progresses s1 s2 → (epochs s2 !! id = Some e' → bounded e') →
  (∀ k i, 0 ≤ i → isClaimed s k i = true → isClaimed s1 k i = true) →
  progresses s (set_entered false s2).
Proof.
  intros [Hok Hb] Hent He E1 Hent1 [[Hok2 _] _ Hf Hc] Hb' Hclaims.
  specialize (Hf Hent1) as [Hf1 Hf2]. split.
  - split; [by eapply accounts_ok_same, Hok2|]. intros _ k x Hx.
    destruct (Hf2 _ _ Hx) as [Hx1|]; [|done]. rewrite E1, lookup_insert in Hx1.
    case_decide as Hk; [|by eapply Hb]. subst k. injection Hx1 as <-. by apply Hb'.
  - done.
  - congruence.
  - intros k i Hi H. rewrite (isClaimed_same s2) by done. auto.
Qed.

Section executions.
Context (evm_keccak256 : list Z → bytes32).

Lemma execution_progresses :
  (∀ s s', step evm_keccak256 s s' → good s → progresses s s') ∧
  (∀ s s', steps evm_keccak256 s s' → good s → progresses s s').
Proof.
  apply execution_ind.
  - intros c id root sum start end_ s s' Hv H [Hok Hb].
    apply publish_ok in H as (Hok' & En & Hf & Ec); [|done..]. split.
    + split; [done|]. rewrite En. intros Hent k x [Hx|]%(framed_new _ _ Hf); [by eapply Hb|done].
    + done.
    + done.
    + intros k i _. by rewrite (isClaimed_same s s').
  - intros c id index account amount proof s s1 s2 s' Hid Hi Ha Hb Hs IH He Hg.
    apply begin_claim_ok in Hb as (e & Hent & Hep & _ & Hok1 & Hent1 & E1 & Ec & _); [|apply Hg|done].
    apply end_claim_ok in He as [-> Hbound].
    eapply (progresses_payment s s1 s2 id e); try done.
    + apply IH. split; [done|congruence].
    + unfold epoch_at in Hbound. intros Hx. by rewrite Hx in Hbound.
    + intros k i Hi' H. rewrite (isClaimed_same (setClaimed id index s) s1), isClaimed_setClaimed by done.
      by rewrite H.
  - intros c id s s1 s2 s' Hb Hs IH He Hg.
    apply begin_clawback_ok in Hb as (e & Hent & Hep & Hok1 & Hent1 & E1 & Ec & Hbound); [|apply Hg].
    apply end_clawback_ok in He as ->.
    eapply (progresses_payment s s1 s2 id e); try done.
    + apply IH. split; [done|congruence].
    + intros _. unfold bounded in *. simpl. lia.
    + intros k i _. by rewrite (isClaimed_same s s1).
  - intros c s s' H Hg. destruct (pause_ok c s s') as [b ->]; [by left|].
    apply progresses_same; try done. by eapply accounts_ok_same, Hg.
  - intros c s s' H Hg. destruct (pause_ok c s s') as [b ->]; [by right|].
    apply progresses_same; try done. by eapply accounts_ok_same, Hg.
  - intros r s Hg. apply progresses_same; try done. by eapply accounts_ok_same, Hg.
  - intros amount s Ha Hg. apply progresses_same; try done. eapply accounts_ok_same, Hg; try done. simpl. lia.
  - intros s Hg. by apply progresses_refl.
  - intros s1 s2 s3 _ IH1 _ IH2 Hg. pose proof (IH1 Hg) as H1.
    eapply progresses_trans; [done|]. apply IH2, H1.
Qed.

Lemma deployed_good s : deployed s → good s ∧ entered s = false.
Proof.
  intros (? & ? & ? & ? & ? & ? & ? & ? & H). unfold constructor in H.
  required H as H1. required H as H2. required H as H3. injection H as <-.
  split; [|done]. split; [|intros _ id e He; simpl in He; by rewrite lookup_empty in He].
  split; simpl; try done; try lia. intros k [w Hw]. by rewrite lookup_empty in Hw.
Qed.

Lemma steps_good s s' : steps evm_keccak256 s s' → good s → progresses s s'.
Proof. apply execution_progresses. Qed.

Lemma reachable_good s : reachable evm_keccak256 s → good s ∧ entered s = false.
Proof.
  intros (s0 & [Hg He]%deployed_good & Hs). destruct (steps_good _ _ Hs Hg) as [H1 H2 _ _].
  split; [done|congruence].
Qed.
End executions.

(** ** What the totals mean *)

Definition unpaid (e : Epoch) : Z := funded e - claimed e - clawed e.

Lemma total_unpaid m : total unpaid m = total funded m - total claimed m - total clawed m.
Proof.
  unfold total. induction m as [|id e m Hm _ IH] using map_first_key_ind.
  { by rewrite !map_fold_empty. }
  rewrite !map_fold_insert_L by (done || (intros; lia)). unfold unpaid at 1. lia.
Qed.

Lemma total_split f m id e :
  m !! id = Some e → total f m = f e + total f (delete id m).
Proof.
  intros H. rewrite <- (insert_delete_id m id e) at 1 by done. apply total_insert, lookup_delete_eq.
Qed.

Record solvent (s : storage) : Prop := {
  solvent_good : good s;
  solvent_idle : entered s = false
}.

Lemma solvent_outstanding s : solvent s →
  totalFunded s - totalClaimed s - totalClawed s = total unpaid (epochs s) ∧
  0 ≤ total unpaid (epochs s) ∧ 0 ≤ totalClaimed s ∧ 0 ≤ totalClawed s.
Proof.
  intros [[Hok Hb] He]. destruct Hok as [H1 H2 H3 H4 H5 H6 H7 H8 H9]. rewrite H4, H5, H6, <- total_unpaid.
  split_and!; [done|apply total_nonneg..].
  - intros id e Hid. specialize (Hb He _ _ Hid). unfold bounded in Hb. unfold unpaid. lia.
  - intros id e Hid. apply (H2 _ _ Hid).
  - intros id e Hid. apply (H2 _ _ Hid).
Qed.

Lemma unpaid_le_outstanding s id e :
  solvent s → epochs s !! id = Some e → unpaid e ≤ total unpaid (epochs s).
Proof.
  intros [[Hok Hb] He] Hid. rewrite (total_split _ _ _ _ Hid).
  assert (0 ≤ total unpaid (delete id (epochs s))); [|lia]. apply total_nonneg.
  intros k x Hx. apply lookup_delete_Some in Hx as [_ Hx]. specialize (Hb He _ _ Hx).
  unfold bounded in Hb. unfold unpaid. lia.
Qed.

Lemma totalOutstanding_solvent s : solvent s →
  totalOutstanding s = Returns (total unpaid (epochs s)) ∧
  forcedSurplus s = Returns (balance s - total unpaid (epochs s)) ∧ emitAccounting s = Returns ().
Proof.
  intros Hs. destruct (solvent_outstanding s Hs) as (E & Hu & Hc & Hw).
  pose proof (ok_balance _ (good_accounts _ (solvent_good _ Hs))) as Hb.
  assert (totalOutstanding s = Returns (total unpaid (epochs s))) as H1.
  { unfold totalOutstanding. apply call_bind_Returns. eexists. split; apply checked_sub_Returns; split; [done|lia|lia|lia]. }
  assert (forcedSurplus s = Returns (balance s - total unpaid (epochs s))) as H2.
  { unfold forcedSurplus. rewrite H1. simpl. unfold revert_if. by rewrite (proj2 (Z.ltb_ge _ _)) by lia. }
  split_and!; [done..|]. unfold emitAccounting. by rewrite H1, H2.
Qed.

Section headline.
Context (evm_keccak256 : list Z → bytes32).
Abbreviation reachable := (reachable evm_keccak256).
Abbreviation steps := (steps evm_keccak256).

Lemma reachable_solvent s : reachable s → solvent s.
Proof. intros [H1 H2]%reachable_good. by split. Qed.

(** C2. In every reachable state, whatever the receivers of payments did on the
    way, no epoch pays out more than it was funded with, no two epochs share a
    root, and the native balance covers the sum of what the epochs still owe;
    the contract's own accounting views say so and do not revert. *)
Theorem distributor_solvent s :
  reachable s →
  (∀ id e, epochs s !! id = Some e → 1 ≤ id < nextEpochId s ∧ 0 ≤ claimed e ∧ 0 ≤ clawed e ∧
     claimed e + clawed e ≤ funded e ∧ remainingForEpoch s id = Returns (unpaid e)) ∧
  (∀ id id' e e', epochs s !! id = Some e → epochs s !! id' = Some e' → rootHash e = rootHash e' → id = id') ∧
  totalOutstanding s = Returns (total unpaid (epochs s)) ∧
  total unpaid (epochs s) ≤ balance s ∧
  forcedSurplus s = Returns (balance s - total unpaid (epochs s)).
Proof.
  intros Hs%reachable_solvent. pose proof (totalOutstanding_solvent s Hs) as (H1 & H2 & _).
  pose proof (solvent_outstanding s Hs) as (E & _).
  destruct Hs as [[Hok Hb] He]. split_and!; [| |done| |done].
  - intros id e Hid. destruct (ok_epoch _ Hok _ _ Hid) as (? & Hz & _ & ? & ?).
    pose proof (Hb He _ _ Hid) as Hbound. unfold bounded in Hbound. split_and!; [lia..|].
    unfold remainingForEpoch. apply call_bind_Returns. exists e. split.
    + apply requireEpoch_Returns. split; [|done]. unfold epoch_at. by rewrite Hid.
    + unfold remaining. apply call_bind_Returns. eexists. unfold unpaid.
      split; apply checked_sub_Returns; split; [done|lia|lia|lia].
  - apply (ok_roots _ Hok).
  - pose proof (ok_balance _ Hok). lia.
Qed.

(** A whole claim: the receiver may run any steps before it returns. *)
Definition claims_in (c : context) (epochId index : Z) (account : address) (amount : Z)
    (proof : list ProofNode) (s s' : storage) : Prop :=
  ∃ s1 s2, begin_claim evm_keccak256 c epochId index account amount proof s = Returns s1 ∧
    steps s1 s2 ∧ end_claim epochId s2 = Returns s'.

(** C1. A claim is paid at most once: after a successful claim of an index of
    an epoch, no sequence of further steps leads to a state in which a claim of
    that index is accepted, whatever account, amount and proof it names. *)
Theorem claim_paid_once s c id index account amount proof s' s'' :
  reachable s → 0 ≤ index → 0 ≤ amount →
  claims_in c id index account amount proof s s' → steps s' s'' →
  isClaimed s id index = false ∧ isClaimed s'' id index = true ∧
  ∀ c' account' amount' proof',
    ∃ r, begin_claim evm_keccak256 c' id index account' amount' proof' s'' = Reverts r.
Proof.
  intros Hs%reachable_good Hi Ha (s1 & s2 & Hb & Hs1 & He) Hs2. destruct Hs as [Hg Hidle].
  apply begin_claim_ok in Hb as (e & _ & Hep & Hnot & Hok1 & Hent1 & E1 & Ec & _); [|apply Hg|done].
  assert (good s1) as Hg1 by (split; [done|congruence]).
  pose proof (steps_good _ _ _ Hs1 Hg1) as P12. apply end_claim_ok in He as [-> Hbound].
  assert (isClaimed s1 id index = true) as Hc1.
  { rewrite (isClaimed_same (setClaimed id index s)), isClaimed_setClaimed by done.
    rewrite bool_decide_eq_true_2 by done. apply orb_true_r. }
  assert (good (set_entered false s2)) as Hg2.
  { apply (progresses_payment s s1 s2 id e (add_claimed amount e)); try done.
    - intros Hx. unfold epoch_at in Hbound. by rewrite Hx in Hbound.
    - intros k i Hi' H. rewrite (isClaimed_same (setClaimed id index s) s1), isClaimed_setClaimed by done.
      by rewrite H. }
  assert (isClaimed s'' id index = true) as Hc2.
  { apply (progress_claims _ _ (steps_good _ _ _ Hs2 Hg2)); [done|].
    rewrite (isClaimed_same s2) by done. by apply (progress_claims _ _ P12). }
  split_and!; [done..|]. intros c' account' amount' proof'.
  destruct (begin_claim _ _ _ _ _ _ _ _) as [x|r] eqn:E; [|by exists r]. exfalso.
  unfold begin_claim in E. call E as e' He'. apply check_claim_epoch in He' as (_ & _ & Hnot').
  congruence.
Qed.
End headline.

(** ** A concrete distributor *)

Module Samples.
Definition account_of (z : Z) : address := replicate 19 0 ++ [z].
Definition hash_of : list Z → bytes32 := λ b, be_word 32 (foldr (λ x a, (31 * a + x + 7) mod 1000003) 1 b).

Definition fresh : storage :=
  match constructor 3600 (account_of 1) (account_of 2) (account_of 3) (account_of 4) (account_of 5) 10 20 with
  | Returns s => s
  | Reverts _ => set_balance 0 (Storage [] 0 0 0 0 0 0 ∅ ∅ ∅ (λ _ _, false) false false 0)
  end.

(** An epoch of one claim: of 70 by account 9, with index 300. *)
Definition root_ : bytes32 := leafHash hash_of 1 300 (account_of 9) 70.
Definition publish_call : context := Context_ (account_of 2) 70 1000.
Definition claim_call : context := Context_ (account_of 9) 0 1100.

Definition or_fresh (c : evm_call Distributor.revert storage) : storage :=
  match c with Returns s => s | Reverts _ => fresh end.
Definition published : storage := or_fresh (publishEpoch publish_call 1 root_ 70 1050 1200 fresh).
Definition paying : storage := or_fresh (begin_claim hash_of claim_call 1 300 (account_of 9) 70 [] published).
Definition paid : storage := or_fresh (end_claim 1 paying).

Lemma published_runs : publishEpoch publish_call 1 root_ 70 1050 1200 fresh = Returns published.
Proof. vm_compute. reflexivity. Qed.
Lemma paying_runs : begin_claim hash_of claim_call 1 300 (account_of 9) 70 [] published = Returns paying.
Proof. vm_compute. reflexivity. Qed.
Lemma paid_runs : end_claim 1 paying = Returns paid.
Proof. vm_compute. reflexivity. Qed.

Lemma fresh_deployed : deployed fresh.
Proof.
  exists 3600, (account_of 1), (account_of 2), (account_of 3), (account_of 4), (account_of 5), 10, 20.
  vm_compute. reflexivity.
Qed.

Lemma published_reachable : reachable hash_of published.
Proof.
  exists fresh. split; [exact fresh_deployed|]. eapply steps_cons; [|apply steps_refl].
  eapply step_publish; [|exact published_runs]. vm_compute. discriminate.
Qed.

Lemma paid_reachable : reachable hash_of paid.
Proof.
  destruct published_reachable as (s & Hd & Hs). exists s. split; [exact Hd|].
  assert (steps hash_of published paid) as Hpay.
  { eapply steps_cons; [|apply steps_refl].
    eapply step_claim; [| | |exact paying_runs|apply steps_refl|exact paid_runs]; vm_compute; discriminate. }
  clear Hd. induction Hs; [exact Hpay|]. eapply steps_cons; [eassumption|]. auto.
Qed.

Lemma distributor_solvent_witness : totalOutstanding paid = Returns 0 ∧ balance paid = 0 ∧
  0 ≤ balance paid ∧ totalOutstanding paid = Returns (total unpaid (epochs paid)).
Proof.
  destruct (distributor_solvent hash_of paid paid_reachable) as (_ & _ & H & _).
  split_and!; [vm_compute; reflexivity|vm_compute; reflexivity|vm_compute; discriminate|exact H].
Defined.

Lemma claim_paid_once_witness :
  isClaimed paid 1 300 = true ∧
  ∃ r, begin_claim hash_of claim_call 1 300 (account_of 8) 5 [] paid = Reverts r.
Proof.
  destruct (claim_paid_once hash_of published claim_call 1 300 (account_of 9) 70 [] paid paid
              published_reachable) as (_ & H1 & H2).
  - vm_compute. discriminate.
  - vm_compute. discriminate.
  - exists paying, paying. split; [exact paying_runs|]. split; [apply steps_refl|exact paid_runs].
  - apply steps_refl.
  - split; [exact H1|apply H2].
Defined.
End Samples.
