(* ===== verification/RewardPayoutFacts.v ===== *)
(** From the generated fixture to the contract: once an epoch is published with
    the root of a fixture, every claim of the fixture can be paid, in any order,
    and together they pay out exactly what the epoch was funded with. *)

From S2P Require Import Prelude JsText RewardTree RewardTreeFacts Evm Distributor DistributorFacts.

Open Scope Z_scope.

Section payout.
Context (keccak256 : jstr → jstr).
Context (encodeAbiParameters : list abi_parameter → list abi_value → jstr).
Context (evm_keccak256 : list Z → list Z).
Abbreviation buildMerkleSumTree := (buildMerkleSumTree keccak256 encodeAbiParameters).
Abbreviation make_leaves := (make_leaves keccak256 encodeAbiParameters).

(** ** The contract's proof, as the fixture's verifier runs it *)

Lemma processProof_agrees_from i h sum proof r :
  RewardTree.processProof_loop evm_keccak256 h sum proof = Some r →
  processProof_from evm_keccak256 i h sum proof = Returns r.
Proof.
  revert i h sum. induction proof as [|n proof IH]; intros i h sum; simpl; [by intros [= <-]|].
  change (replicate 32 0) with zero32. destruct (_ || _); [done|]. simpl.
  unfold RewardTree.hashNode, hashNode, checked_add. destruct (UINT256_MAX <? _); [done|]. simpl.
  destruct (_ || _); apply IH.
Qed.

Lemma processProof_agrees epochId index account amount proof r :
  RewardTree.processProof evm_keccak256 epochId index account amount proof = Some r →
  processProof evm_keccak256 epochId index (hexBytes account) amount proof = Returns r.
Proof. apply processProof_agrees_from. Qed.

(** ** One claim whose receiver returns at once *)

Definition pay (c : context) (epochId : Z) (x : claim) (proof : list ProofNode) (s : storage)
    : evm_call Distributor.revert storage :=
  s1 ← begin_claim evm_keccak256 c epochId (index x) (hexBytes (account x)) (amount x) proof s;
  end_claim epochId s1.

(** The epoch is open for claims at the time of [c]. *)
Definition open_at (c : context) (epochId : Z) (e : Epoch) (s : storage) : Prop :=
  epochs s !! epochId = Some e ∧ paused s = false ∧ claimStart e ≤ timestamp c < claimEnd e.

Lemma pay_accepted c epochId x proof s e :
  solvent s → open_at c epochId e s → 0 ≤ index x → 0 < amount x ≤ unpaid e →
  hexBytes (account x) ≠ zero20 → isClaimed s epochId (index x) = false →
  processProof evm_keccak256 epochId (index x) (hexBytes (account x)) (amount x) proof
    = Returns (rootHash e, funded e) →
  ∃ s', pay c epochId x proof s = Returns s' ∧ solvent s' ∧
    open_at c epochId (add_claimed (amount x) e) s' ∧ balance s' = balance s - amount x ∧
    ∀ i, 0 ≤ i → isClaimed s' epochId i = isClaimed s epochId i || bool_decide (i = index x).
Proof.
  intros Hs (He & Hp & Ht) Hi Ha Hacc Hnot Hproof.
  pose proof (solvent_outstanding s Hs) as (Eo & Ho & Hc & Hw).
  pose proof (unpaid_le_outstanding s epochId e Hs He) as Hle. unfold unpaid at 1 in Hle.
  pose proof Hs as [[Hok Hb] Hidle].
  destruct (ok_epoch _ Hok _ _ He) as (_ & Hz & _ & Hce & Hwe).
  pose proof (Hb Hidle _ _ He) as Hbe. unfold bounded in Hbe. unfold unpaid in Ha.
  pose proof (ok_balance _ Hok) as Hbal. pose proof (ok_max _ Hok) as Hmax.
  assert (funded e ≤ totalFunded s) as Hfe.
  { pose proof (ok_funded _ Hok) as Hf. rewrite Hf, (total_split _ _ _ _ He).
    assert (0 ≤ total funded (delete epochId (epochs s))); [|lia]. apply total_nonneg.
    intros k y Hy. apply lookup_delete_Some in Hy as [_ Hy].
    pose proof (Hb Hidle _ _ Hy). pose proof (ok_epoch _ Hok _ _ Hy) as (_ & _ & _ & ? & ?).
    unfold bounded in *. lia. }
  assert (epoch_at s epochId = e) as Hat by (unfold epoch_at; by rewrite He).
  assert (check_claim evm_keccak256 c epochId (index x) (hexBytes (account x)) (amount x) proof s
          = Returns e) as Hcheck.
  { unfold check_claim, nonReentrant, whenNotPaused, requireEpoch.
    rewrite Hidle, Hp, Hat, (bool_decide_eq_false_2 _ Hz), (bool_decide_eq_false_2 _ Hacc), Hnot.
    cbn [revert_if mbind call_bind].
    replace (amount x =? 0) with false by lia. replace (timestamp c <? claimStart e) with false by lia.
    replace (claimEnd e <=? timestamp c) with false by lia. cbn [revert_if mbind call_bind].
    rewrite Hproof. cbn [mbind call_bind]. by rewrite bool_decide_eq_true_2, Z.eqb_refl. }
  destruct (begin_claim evm_keccak256 c epochId (index x) (hexBytes (account x)) (amount x) proof s)
    as [s1|] eqn:Eb.
  2:{ exfalso. revert Eb. unfold begin_claim. rewrite Hcheck. cbn [mbind call_bind]. unfold pay_claim.
      assert (claimed e + amount x ≤ UINT256_MAX ∧ totalClaimed s + amount x ≤ UINT256_MAX) as [H1 H2] by lia.
      rewrite (proj2 (checked_add_Returns Panic _ _ _) (conj eq_refl H1)). cbn [mbind call_bind].
      rewrite (proj2 (checked_add_Returns Panic _ _ _) (conj eq_refl H2)). cbn [mbind call_bind].
      unfold send. cbn [balance set_totals set_epochs setClaimed set_bitmaps set_entered].
      assert ((balance s <? amount x) = false) as -> by lia. done. }
  pose proof Eb as (e' & _ & He' & _ & Hok1 & Hent1 & E1 & Ec & Eb1)%begin_claim_ok; [|done|lia].
  assert (e' = e) as -> by congruence.
  assert (paused s1 = false) as Hp1.
  { unfold begin_claim in Eb. rewrite Hcheck in Eb. cbn [mbind call_bind] in Eb. unfold pay_claim in Eb.
    call Eb as u Hu. call Eb as t Hu'. by apply send_Returns in Eb as [_ ->]. }
  assert (solvent (set_entered false s1)) as Hs1.
  { split; [|done]. apply (progresses_payment s s1 s1 epochId e (add_claimed (amount x) e)); try done.
    - apply progresses_refl. split; [done|congruence].
    - intros _. unfold bounded. simpl. lia.
    - intros k i Hi' H. rewrite (isClaimed_same (setClaimed epochId (index x) s) s1), isClaimed_setClaimed by done.
      by rewrite H. }
  exists (set_entered false s1). split_and!.
  - unfold pay. rewrite Eb. cbn [mbind call_bind]. unfold end_claim.
    assert (epoch_at s1 epochId = add_claimed (amount x) e) as ->.
    { unfold epoch_at. by rewrite E1, lookup_insert_eq. }
    unfold remaining at 1. cbn [funded claimed clawed add_claimed].
    assert (claimed e + amount x ≤ funded e ∧ clawed e ≤ funded e - (claimed e + amount x)) as [H1 H2] by lia.
    rewrite (proj2 (checked_sub_Returns Panic _ _ _) (conj eq_refl H1)). cbn [mbind call_bind].
    rewrite (proj2 (checked_sub_Returns Panic _ _ _) (conj eq_refl H2)). cbn [mbind call_bind].
    change (emitAccounting s1) with (emitAccounting (set_entered false s1)).
    destruct (totalOutstanding_solvent _ Hs1) as (_ & _ & ->). done.
  - done.
  - split; [|by split]. change (epochs s1 !! epochId = Some (add_claimed (amount x) e)).
    by rewrite E1, lookup_insert_eq.
  - done.
  - intros i Hi'. rewrite (isClaimed_same (setClaimed epochId (index x) s)), isClaimed_setClaimed by done.
    f_equal. apply bool_decide_ext. naive_solver.
Qed.

(** ** All the claims of a fixture *)

(** The proof the fixture lists for a claim. *)
Definition fixture_proof (st : sum_tree) (x : claim) : list ProofNode :=
  match proofs st !! dec_of_Z (index x) with
  | Some p => map to_proof_node (omap id p)
  | None => []
  end.

Fixpoint pay_all (c : context) (epochId : Z) (st : sum_tree) (l : list claim) (s : storage)
    : evm_call Distributor.revert storage :=
  match l with
  | [] => Returns s
  | x :: l' => s' ← pay c epochId x (fixture_proof st x) s; pay_all c epochId st l' s'
  end.

(** What makes a claim payable from an epoch. *)
Definition payable (epochId : Z) (st : sum_tree) (e : Epoch) (x : claim) : Prop :=
  wf_claim x ∧ hexBytes (account x) ≠ zero20 ∧
  processProof evm_keccak256 epochId (index x) (hexBytes (account x)) (amount x) (fixture_proof st x)
    = Returns (rootHash e, funded e).

Lemma pay_all_accepted c epochId st l s e :
  solvent s → open_at c epochId e s → NoDup (map index l) → Forall (payable epochId st e) l →
  Forall (λ x, isClaimed s epochId (index x) = false) l → RewardTreeFacts.total (map amount l) ≤ unpaid e →
  ∃ s' e', pay_all c epochId st l s = Returns s' ∧ solvent s' ∧ open_at c epochId e' s' ∧
    unpaid e' = unpaid e - RewardTreeFacts.total (map amount l) ∧
    balance s' = balance s - RewardTreeFacts.total (map amount l) ∧
    ∀ i, 0 ≤ i → isClaimed s' epochId i = isClaimed s epochId i || bool_decide (i ∈ map index l).
Proof.
  revert s e. induction l as [|x l IH]; intros s e Hs Ho Hnd Hp Hn Ht.
  { exists s, e. cbn [pay_all map] in *. change (RewardTreeFacts.total []) with 0 in *.
    split_and!; try done; try lia.
    by intros i _; rewrite bool_decide_eq_false_2, orb_false_r; [|apply not_elem_of_nil]. }
  rewrite map_fmap in Hnd. cbn [fmap list_fmap] in Hnd. apply NoDup_cons in Hnd as [Hx Hnd].
  apply Forall_cons in Hp as [(([Hi _] & [Ham _] & Hpos) & Hacc & Hproof) Hp].
  apply Forall_cons in Hn as [Hnot Hn].
  assert (0 ≤ RewardTreeFacts.total (map amount l)) as Hrest.
  { clear -Hp. induction Hp as [|y l (([_ _] & [? _] & _) & _) _ IH]; [done|]. cbn [map]. unfold RewardTreeFacts.total in *. simpl. lia. }
  cbn [map] in *. change (RewardTreeFacts.total (amount x :: map amount l))
    with (amount x + RewardTreeFacts.total (map amount l)) in *.
  destruct (pay_accepted c epochId x (fixture_proof st x) s e Hs Ho Hi ltac:(lia) Hacc Hnot Hproof)
    as (s1 & E1 & Hs1 & Ho1 & Hb1 & Hc1).
  destruct (IH s1 (add_claimed (amount x) e) Hs1 Ho1 Hnd) as (s' & e' & E2 & Hs' & Ho' & Hu & Hb & Hc).
  - exact Hp.
  - apply Forall_forall. intros y Hy. rewrite Forall_forall in Hn, Hp.
    destruct (Hp y Hy) as (([Hyi _] & _) & _).
    assert (index y ≠ index x) as Hne.
    { intros Ey. apply Hx, list_elem_of_fmap. by exists y. }
    by rewrite Hc1, Hn, (bool_decide_eq_false_2 _ Hne).
  - unfold unpaid in *. simpl. lia.
  - exists s', e'. split_and!; [|done|done| | |].
    + cbn [pay_all]. by rewrite E1.
    + unfold unpaid in *. rewrite Hu. simpl. lia.
    + lia.
    + intros i Hi'. rewrite Hc, Hc1 by done. rewrite <- orb_assoc. f_equal.
      rewrite map_fmap. cbn [fmap list_fmap]. rewrite <- bool_decide_or. apply bool_decide_ext.
      by rewrite elem_of_cons.
Qed.

(** The claims of a fixture are payable from an epoch with its root. *)
Lemma fixture_payable epochId claims st e r :
  viem_agrees keccak256 encodeAbiParameters evm_keccak256 →
  uint256 epochId → Forall wf_claim claims → NoDup (map index claims) →
  Forall (λ x, hexBytes (account x) ≠ zero20) claims →
  buildMerkleSumTree (make_leaves epochId claims) = Ok st →
  (∀ key p n, proofs st !! key = Some p → Some n ∈ p → hexBytes (hash n) ≠ replicate 32 0) →
  root st = Some r → rootHash e = hexBytes (hash r) → funded e = sum r →
  Forall (payable epochId st e) claims.
Proof.
  intros Hv He Hwf Hnd Hacc Hb Hz Hr Hroot Hsum. rewrite Forall_forall in *. intros x Hx.
  destruct (generated_proofs_run keccak256 encodeAbiParameters evm_keccak256 epochId claims st)
    as (r' & Hr' & Hall); try done; [by apply Forall_forall|].
  destruct (Hall x Hx) as (p & Hp & Hrun). split_and!; [auto..|].
  unfold fixture_proof. rewrite Hp.
  assert (omap id (map Some p) = p) as -> by (clear; induction p as [|y p IH]; [done|]; simpl; by f_equal).
  apply processProof_agrees in Hrun. rewrite Hrun. congruence.
Qed.

(** C3. Publishing the root hash and the root sum of a generated fixture makes
    every claim of the fixture payable: claimed once each for nonzero accounts that
    accept the payment, in any order, within the claim window, they all succeed,
    the epoch is left with nothing and the contract has paid out exactly the value
    the epoch was funded with. *)
Theorem fixture_pays_out epochId claims st r c0 c start end_ s0 s l :
  viem_agrees keccak256 encodeAbiParameters evm_keccak256 →
  uint256 epochId → Forall wf_claim claims → NoDup (map index claims) →
  Forall (λ x, hexBytes (account x) ≠ zero20) claims →
  buildMerkleSumTree (make_leaves epochId claims) = Ok st →
  (∀ key p n, proofs st !! key = Some p → Some n ∈ p → hexBytes (hash n) ≠ replicate 32 0) →
  root st = Some r →
  reachable evm_keccak256 s0 → 0 ≤ value c0 →
  publishEpoch c0 epochId (hexBytes (hash r)) (sum r) start end_ s0 = Returns s →
  start ≤ timestamp c < end_ → l ≡ₚ claims →
  ∃ s', pay_all c epochId st l s = Returns s' ∧ remainingForEpoch s' epochId = Returns 0 ∧
    balance s' = balance s0 ∧ ∀ x, x ∈ claims → isClaimed s' epochId (index x) = true.
Proof.
  intros Hv He Hwf Hnd Hacc Hb Hz Hr Hreach Hval Hpub Ht Hperm.
  pose proof (reachable_solvent _ _ Hreach) as Hs0.
  pose proof (published_epoch _ _ _ _ _ _ _ _ (good_accounts _ (solvent_good _ Hs0)) Hpub)
    as (Hep & Hpaused & Hbal & Hclear).
  assert (reachable evm_keccak256 s) as Hs%reachable_solvent.
  { destruct Hreach as (d & Hd & Hsteps). exists d. split; [done|].
    clear -Hsteps Hpub Hval. induction Hsteps as [x|x y z Hxy Hyz IH].
    - econstructor; [by eapply step_publish|constructor].
    - econstructor; [done|auto]. }
  set (e := MkEpoch (hexBytes (hash r)) (sum r) start end_ 0 0) in *.
  assert (sum r = RewardTreeFacts.total (map amount claims)) as Hsum.
  { destruct (build_structure _ _ _ _ Hb) as (sorted & m & t & Hbuilt).
    apply built_root_sum in Hbuilt as (r' & Hr' & Hs').
    assert (r' = r) as -> by congruence. rewrite Hs'. unfold RewardTree.make_leaves. by rewrite map_map. }
  assert (Forall (payable epochId st e) l) as Hpay.
  { rewrite Hperm. by eapply fixture_payable. }
  assert (∀ x, x ∈ claims → 0 ≤ index x) as Hidx.
  { rewrite Forall_forall in Hwf. intros x Hx. by destruct (Hwf x Hx) as ([? _] & _). }
  assert (RewardTreeFacts.total (map amount l) = sum r) as Hl.
  { rewrite Hsum. apply total_perm. rewrite !map_fmap. by rewrite Hperm. }
  destruct (pay_all_accepted c epochId st l s e Hs) as (s' & e' & E & Hs' & Ho' & Hu & Hb' & Hc').
  - by split.
  - rewrite map_fmap in *. by rewrite Hperm.
  - exact Hpay.
  - apply Forall_forall. intros x Hx. apply Hclear, Hidx. by rewrite <- Hperm.
  - rewrite Hl. unfold unpaid. simpl. lia.
  - exists s'. split_and!; [done| |lia|].
    + destruct Ho' as (He' & _). destruct Hs' as [[Hok Hbd] Hidle].
      destruct (ok_epoch _ Hok _ _ He') as (_ & Hne & _ & ? & ?).
      pose proof (Hbd Hidle _ _ He') as Hbound. unfold bounded in Hbound.
      unfold remainingForEpoch. apply call_bind_Returns. exists e'. split.
      * apply requireEpoch_Returns. split; [|done]. unfold epoch_at. by rewrite He'.
      * rewrite Hl in Hu. unfold unpaid in Hu. simpl in Hu. unfold remaining. apply call_bind_Returns.
        eexists. split; apply checked_sub_Returns; split; [done|lia|lia|lia].
    + intros x Hx. rewrite Hc' by auto. rewrite bool_decide_eq_true_2, orb_true_r; [done|].
      rewrite map_fmap. apply list_elem_of_fmap. exists x. split; [done|]. by rewrite Hperm.
Qed.
End payout.

(** ** A concrete payout *)

#[export] Instance node_eq_dec : EqDecision node.
Proof. solve_decision. Defined.

Module Payout.
Abbreviation tree := (buildMerkleSumTree sample_keccak256 sample_encode
  (make_leaves sample_keccak256 sample_encode 1 sample_claims)).
Definition root_node : node :=
  match tree with Ok st => default (Node [] 0) (root st) | Throw _ => Node [] 0 end.
Definition publish_call : context := Context_ (Samples.account_of 2) 400 1000.
Definition claim_call : context := Context_ (Samples.account_of 77) 0 1100.
Abbreviation published :=
  (publishEpoch publish_call 1 (hexBytes (hash root_node)) (sum root_node) 1050 1200 Samples.fresh).

Lemma tree_checked :
  check_ok tree (λ st, forallb (λ h, negb (bool_decide (h = replicate 32 0))) (proof_hashes st)
                       && bool_decide (root st = Some root_node)) = true.
Proof. vm_compute. reflexivity. Qed.

Lemma payout_published_runs : ∃ s, published = Returns s.
Proof.
  assert (match published with Returns _ => true | Reverts _ => false end = true) as H
    by (vm_compute; reflexivity).
  destruct published as [s|r]; [by exists s|discriminate H].
Qed.

Lemma fixture_pays_out_witness :
  ∃ st s s', tree = Ok st ∧ published = Returns s ∧
    pay_all sample_evm_keccak256 claim_call 1 st (rev sample_claims) s = Returns s' ∧
    remainingForEpoch s' 1 = Returns 0.
Proof.
  destruct (check_ok_exists _ _ tree_checked) as [st E]. destruct payout_published_runs as [s Hs].
  pose proof (check_ok_Ok _ _ st tree_checked E) as H. cbv beta in H. apply andb_prop in H as [Hz Hr].
  destruct (fixture_pays_out sample_keccak256 sample_encode sample_evm_keccak256 1 sample_claims st root_node
              publish_call claim_call 1050 1200 Samples.fresh s (rev sample_claims) sample_viem_agrees)
    as (s' & H1 & H2 & _).
  - split; vm_compute; discriminate.
  - exact sample_claims_wf.
  - exact sample_claims_nodup.
  - repeat constructor; apply (bool_decide_eq_false_1 (_ = _)); vm_compute; reflexivity.
  - exact E.
  - intros key p n Hp Hn Hzero. rewrite forallb_forall in Hz.
    pose proof (proof_hashes_elem st key p n Hp Hn) as Hin. apply list_elem_of_In in Hin.
    specialize (Hz _ Hin). by rewrite bool_decide_eq_true_2 in Hz.
  - exact (bool_decide_eq_true_1 _ Hr).
  - exists Samples.fresh. split; [exact Samples.fresh_deployed|apply steps_refl].
  - vm_compute. discriminate.
  - exact Hs.
  - split; vm_compute; congruence.
  - symmetry. apply Permutation_rev.
  - exact (ex_intro _ st (ex_intro _ s (ex_intro _ s' (conj E (conj Hs (conj H1 H2)))))).
Defined.
End Payout.
