(* ===== verification/AttestationRegistry.v ===== *)
(** contracts/src/attestations/ToriumAttestationRegistry.sol: the on-chain
    registry whose ids and commitments the canonical vectors fix.  The contract
    is a state machine over its storage; every external call either reverts,
    leaving the storage as it was, or gives the next storage. *)

From S2P Require Import Prelude JsText RewardTree Evm.

Open Scope Z_scope.

(** ** Storage *)

Inductive Status := Missing | Active | Superseded | Revoked.

#[export] Instance Status_eq_dec : EqDecision Status.
Proof. solve_decision. Defined.

Record Attestation := MkAttestation {
  schemaId : bytes32;
  schemaVersion : Z;
  issuer : address;
  issuerNonce : Z;
  subject : bytes32;
  referenceHash : bytes32;
  contentHash : bytes32;
  metadataHash : bytes32;
  metadataUriHash : bytes32;
  supersedes : bytes32;
  supersededBy : bytes32;
  createdAt : Z;
  revokedAt : Z;
  supersededAt : Z;
  revocationReasonHash : bytes32;
}.

(** What an unset mapping entry reads as. *)
Definition no_attestation : Attestation :=
  MkAttestation zero32 0 zero20 0 zero32 zero32 zero32 zero32 zero32 zero32 zero32 0 0 0 zero32.

Record storage := Storage {
  attestationCount : Z;
  issuerNonces : gmap address Z;
  attestations : gmap bytes32 Attestation;
  usedPayloads : gset bytes32;
}.

Definition deployed : storage := Storage 0 ∅ ∅ ∅.

Definition attestation_at (s : storage) (id : bytes32) : Attestation :=
  default no_attestation (attestations s !! id).
Definition nonce_of (s : storage) (a : address) : Z := default 0 (issuerNonces s !! a).

(** The errors of the contract, and the panic of checked arithmetic. *)
Inductive revert :=
| ZeroSchemaId | ZeroSchemaVersion | ZeroSubject | ZeroContentHash | ZeroMetadataHash
| ZeroMetadataUriHash | ZeroRevocationReasonHash
| AttestationNotFound (id : bytes32)
| DuplicatePayload (replayKey : bytes32)
| AttestationIdCollision (id : bytes32)
| InvalidAttestationStatus (id : bytes32) (actual : Status)
| IssuerMismatch (expected actual : address)
| SchemaMismatch (expected actual : bytes32)
| SubjectMismatch (expected actual : bytes32)
| TimestampOverflow (timestamp : Z)
| Panic.

Abbreviation call := (evm_call revert).

(** Checked uint256 increment. *)
Definition increment (z : Z) : call Z :=
  revert_if (UINT256_MAX <? z + 1) Panic;; Returns (z + 1).

(** The arguments of [attest]. *)
Record payload := Payload {
  p_schemaId : bytes32;
  p_schemaVersion : Z;
  p_subject : bytes32;
  p_referenceHash : bytes32;
  p_contentHash : bytes32;
  p_metadataHash : bytes32;
  p_metadataUriHash : bytes32;
  p_supersedes : bytes32;
}.

(** [block.chainid] and [address(this)]; [msg.sender] and [block.timestamp]
    differ from call to call. *)
Record domain := Domain { chainid : Z; this : address }.
Record context := Context_ { sender : address; timestamp : Z }.


(** ** Pure functions *)

Definition status_of (a : Attestation) : Status :=
  if bool_decide (issuer a = zero20) then Missing
  else if negb (bool_decide (revocationReasonHash a = zero32)) then Revoked
  else if negb (bool_decide (supersededBy a = zero32)) then Superseded
  else Active.

Definition statusOf (s : storage) (id : bytes32) : Status := status_of (attestation_at s id).
Definition isActive (s : storage) (id : bytes32) : bool := bool_decide (statusOf s id = Active).

Definition validatePayload (p : payload) : call unit :=
  revert_if (bool_decide (p_schemaId p = zero32)) ZeroSchemaId;;
  revert_if (p_schemaVersion p =? 0) ZeroSchemaVersion;;
  revert_if (bool_decide (p_subject p = zero32)) ZeroSubject;;
  revert_if (bool_decide (p_contentHash p = zero32)) ZeroContentHash;;
  revert_if (bool_decide (p_metadataHash p = zero32)) ZeroMetadataHash;;
  revert_if (bool_decide (p_metadataUriHash p = zero32)) ZeroMetadataUriHash.

Definition requireAttestation (s : storage) (id : bytes32) : call Attestation :=
  let a := attestation_at s id in
  revert_if (bool_decide (issuer a = zero20)) (AttestationNotFound id);;
  Returns a.

(** [_timestamp]: [block.timestamp] as a uint64. *)
Definition uint64_timestamp (t : Z) : call Z :=
  revert_if (UINT64_MAX <? t) (TimestampOverflow t);; Returns t.

Section registry.
Context (evm_keccak256 : list Z → bytes32).
Context (dom : domain).

Definition computeCommitment (p : payload) : bytes32 :=
  evm_keccak256 (p_schemaId p ++ be_word 32 (p_schemaVersion p) ++ p_subject p ++ p_referenceHash p
    ++ p_contentHash p ++ p_metadataHash p ++ p_metadataUriHash p ++ p_supersedes p).

Definition computeAttestationId (issuer : address) (issuerNonce : Z) (commitment : bytes32) : bytes32 :=
  evm_keccak256 (be_word 32 (chainid dom) ++ address_word (this dom) ++ address_word issuer
    ++ be_word 32 issuerNonce ++ commitment).

Definition computeReplayKey (issuer : address) (p : payload) : bytes32 :=
  evm_keccak256 (address_word issuer ++ p_schemaId p ++ be_word 32 (p_schemaVersion p) ++ p_subject p
    ++ p_referenceHash p ++ p_contentHash p ++ p_metadataHash p ++ p_metadataUriHash p).

(** The payload of a stored record, which [_commitment] hashes. *)
Definition payload_of (a : Attestation) : payload :=
  Payload (schemaId a) (schemaVersion a) (subject a) (referenceHash a) (contentHash a)
    (metadataHash a) (metadataUriHash a) (supersedes a).

Definition commitment_of (a : Attestation) : bytes32 := computeCommitment (payload_of a).

Definition commitmentOf (s : storage) (id : bytes32) : call bytes32 :=
  a ← requireAttestation s id; Returns (commitment_of a).

Definition getAttestation (s : storage) (id : bytes32) : call Attestation := requireAttestation s id.

Definition verify (s : storage) (id : bytes32) (expectedIssuer : address)
    (expectedCommitment : bytes32) : bool :=
  let a := attestation_at s id in
  bool_decide (status_of a = Active) && bool_decide (issuer a = expectedIssuer)
  && bool_decide (commitment_of a = expectedCommitment).

(** ** Calls *)

(** The checks on the record to supersede. *)
Definition checkPrior (s : storage) (issuer_ : address) (p : payload) : call unit :=
  if bool_decide (p_supersedes p = zero32) then Returns ()
  else
    prior ← requireAttestation s (p_supersedes p);
    revert_if (negb (bool_decide (status_of prior = Active)))
      (InvalidAttestationStatus (p_supersedes p) (status_of prior));;
    revert_if (negb (bool_decide (issuer prior = issuer_))) (IssuerMismatch (issuer prior) issuer_);;
    revert_if (negb (bool_decide (schemaId prior = p_schemaId p)))
      (SchemaMismatch (schemaId prior) (p_schemaId p));;
    revert_if (negb (bool_decide (subject prior = p_subject p)))
      (SubjectMismatch (subject prior) (p_subject p)).

(** The two writes to the superseded record. *)
Definition mark_superseded (id : bytes32) (t : Z) (a : Attestation) : Attestation :=
  MkAttestation (schemaId a) (schemaVersion a) (issuer a) (issuerNonce a) (subject a)
    (referenceHash a) (contentHash a) (metadataHash a) (metadataUriHash a) (supersedes a)
    id (createdAt a) (revokedAt a) t (revocationReasonHash a).

Definition mark_revoked (reason : bytes32) (t : Z) (a : Attestation) : Attestation :=
  MkAttestation (schemaId a) (schemaVersion a) (issuer a) (issuerNonce a) (subject a)
    (referenceHash a) (contentHash a) (metadataHash a) (metadataUriHash a) (supersedes a)
    (supersededBy a) (createdAt a) t (supersededAt a) reason.

Definition new_attestation (issuer : address) (nonce t : Z) (p : payload) : Attestation :=
  MkAttestation (p_schemaId p) (p_schemaVersion p) issuer nonce (p_subject p) (p_referenceHash p)
    (p_contentHash p) (p_metadataHash p) (p_metadataUriHash p) (p_supersedes p) zero32 t 0 0 zero32.

(** [attest]: the new storage and the id. *)
Definition attest (c : context) (p : payload) (s : storage) : call (storage * bytes32) :=
  validatePayload p;;
  let replayKey := computeReplayKey (sender c) p in
  revert_if (bool_decide (replayKey ∈ usedPayloads s)) (DuplicatePayload replayKey);;
  checkPrior s (sender c) p;;
  issuerNonce ← increment (nonce_of s (sender c));
  let commitment := computeCommitment p in
  let id := computeAttestationId (sender c) issuerNonce commitment in
  revert_if (bool_decide (id = zero32) || negb (bool_decide (issuer (attestation_at s id) = zero20)))
    (AttestationIdCollision id);;
  t ← uint64_timestamp (timestamp c);
  let stored := <[id := new_attestation (sender c) issuerNonce t p]> (attestations s) in
  count ← increment (attestationCount s);
  let marked :=
    if bool_decide (p_supersedes p = zero32) then stored
    else <[p_supersedes p := mark_superseded id t (default no_attestation (stored !! p_supersedes p))]>
           stored in
  Returns (Storage count (<[sender c := issuerNonce]> (issuerNonces s)) marked
             ({[replayKey]} ∪ usedPayloads s), id).

Definition revoke (c : context) (id reason : bytes32) (s : storage) : call storage :=
  revert_if (bool_decide (reason = zero32)) ZeroRevocationReasonHash;;
  a ← requireAttestation s id;
  revert_if (negb (bool_decide (issuer a = sender c))) (IssuerMismatch (issuer a) (sender c));;
  revert_if (negb (bool_decide (status_of a = Active))) (InvalidAttestationStatus id (status_of a));;
  t ← uint64_timestamp (timestamp c);
  Returns (Storage (attestationCount s) (issuerNonces s)
             (<[id := mark_revoked reason t a]> (attestations s)) (usedPayloads s)).

(** A successful call, by a sender that is not the zero address. *)
Inductive step : storage → storage → Prop :=
| step_attest c p s s' id :
    sender c ≠ zero20 → attest c p s = Returns (s', id) → step s s'
| step_revoke c id reason s s' :
    sender c ≠ zero20 → revoke c id reason s = Returns s' → step s s'.

Definition reachable : storage → Prop := rtc step deployed.
End registry.
