(* ===== verification/AttestationRegistryFacts.v ===== *)
(** The registry contract: what holds in every reachable storage, and how a
    record may change over the life of the contract. *)

From S2P Require Import Prelude JsText RewardTree Evm AttestationRegistry.

Open Scope Z_scope.

Lemma increment_Returns z z' : increment z = Returns z' → z' = z + 1 ∧ z + 1 ≤ UINT256_MAX.
Proof. unfold increment. intros H. required H as Hg. injection H as <-. split; [done|lia]. Qed.

Lemma increment_ok z : z + 1 ≤ UINT256_MAX → increment z = Returns (z + 1).
Proof. unfold increment. intros H. by rewrite (proj2 (Z.ltb_ge _ _) H). Qed.

Lemma requireAttestation_Returns s id a :
  requireAttestation s id = Returns a ↔ attestation_at s id = a ∧ issuer a ≠ zero20.
Proof.
  unfold requireAttestation. rewrite call_bind_Returns. split.
  - intros ([] & H & [= <-]). apply revert_if_Returns, bool_decide_eq_false in H. done.
  - intros [<- H]. exists (). split; [|done]. by apply revert_if_Returns, bool_decide_eq_false.
Qed.

Lemma attestation_at_Some s id a :
  attestation_at s id = a → issuer a ≠ zero20 → attestations s !! id = Some a.
Proof. unfold attestation_at. destruct (attestations s !! id); simpl; [by intros ->|by intros <-]. Qed.

Section facts.
Context (evm_keccak256 : list Z → bytes32).
Context (dom : domain).

Abbreviation computeCommitment := (computeCommitment evm_keccak256).
Abbreviation computeAttestationId := (computeAttestationId evm_keccak256 dom).
Abbreviation computeReplayKey := (computeReplayKey evm_keccak256).
Abbreviation commitment_of := (commitment_of evm_keccak256).
Abbreviation attest := (attest evm_keccak256 dom).
Abbreviation step := (step evm_keccak256 dom).
Abbreviation reachable := (reachable evm_keccak256 dom).

(** ** What a successful call did *)

(** A record that may be superseded by a payload of an issuer. *)
Definition may_supersede (s : storage) (c : context) (p : payload) : Prop :=
  ∃ prior, attestations s !! p_supersedes p = Some prior ∧ status_of prior = Active ∧
    issuer prior = sender c ∧ schemaId prior = p_schemaId p ∧ subject prior = p_subject p.

Lemma checkPrior_Returns s c p :
  checkPrior s (sender c) p = Returns () ↔ p_supersedes p = zero32 ∨ may_supersede s c p.
Proof.
  unfold checkPrior, may_supersede. destruct (decide (p_supersedes p = zero32)) as [E|E].
  { rewrite bool_decide_eq_true_2 by done. by split; [left|]. }
  rewrite bool_decide_eq_false_2 by done. split.
  - intros H. right. call H as prior Hp. apply requireAttestation_Returns in Hp as [Hp Hne].
    exists prior. split; [by apply attestation_at_Some|].
    required H as H1. required H as H2. required H as H3. apply revert_if_Returns in H.
    apply negb_false_iff in H1, H2, H3, H. repeat split; by eapply bool_decide_eq_true_1.
  - intros [?|(prior & Hp & H1 & H2 & H3 & H4)]; [done|]. unfold requireAttestation, attestation_at.
    rewrite Hp. cbn [default]. assert (issuer prior ≠ zero20) as Hne.
    { intros E'. unfold status_of in H1. by rewrite E' in H1. }
    rewrite bool_decide_eq_false_2 by done. cbn -[zero32]. rewrite H1, H2, H3, H4.
    by rewrite !bool_decide_eq_true_2.
Qed.

(** The storage after a successful [attest] with nonce [n] at time [t]. *)
Definition attested (s : storage) (c : context) (p : payload) (n t : Z) (id : bytes32) : storage :=
  let stored := <[id := new_attestation (sender c) n t p]> (attestations s) in
  Storage (attestationCount s + 1) (<[sender c := n]> (issuerNonces s))
    (if bool_decide (p_supersedes p = zero32) then stored
     else <[p_supersedes p := mark_superseded id t (default no_attestation (stored !! p_supersedes p))]>
            stored)
    ({[computeReplayKey (sender c) p]} ∪ usedPayloads s).

(** When a call to [attest] succeeds, and what it then returns. *)
Lemma attest_Returns c p s s' id :
  attest c p s = Returns (s', id) ↔
  let n := nonce_of s (sender c) + 1 in
  validatePayload p = Returns () ∧
  computeReplayKey (sender c) p ∉ usedPayloads s ∧
  (p_supersedes p = zero32 ∨ may_supersede s c p) ∧
  n ≤ UINT256_MAX ∧ attestationCount s + 1 ≤ UINT256_MAX ∧ timestamp c ≤ UINT64_MAX ∧
  id = computeAttestationId (sender c) n (computeCommitment p) ∧
  id ≠ zero32 ∧ issuer (attestation_at s id) = zero20 ∧
  s' = attested s c p n (timestamp c) id.
Proof.
  cbv zeta. unfold AttestationRegistry.attest. rewrite <- checkPrior_Returns. split.
  - intros H. required H as Hv. required H as Hr. required H as Hp. call H as n Hn.
    apply increment_Returns in Hn as [-> Hn]. required H as Hid. call H as t Ht. call H as k Hk.
    apply increment_Returns in Hk as [-> Hk]. injection H as <- <-.
    unfold uint64_timestamp in Ht. required Ht as Ht'. injection Ht as <-.
    apply orb_false_iff in Hid as [Hz Hi]. apply negb_false_iff, bool_decide_eq_true_1 in Hi.
    apply bool_decide_eq_false_1 in Hz, Hr. split_and!; try done; lia.
  - intros (Hv & Hr & Hp & Hn & Hk & Ht & -> & Hz & Hi & ->).
    rewrite Hv. cbn [mbind call_bind]. rewrite (bool_decide_eq_false_2 _ Hr).
    cbn [revert_if mbind call_bind]. rewrite Hp. cbn [mbind call_bind].
    rewrite (increment_ok _ Hn). cbn [mbind call_bind].
    rewrite (bool_decide_eq_false_2 _ Hz), (bool_decide_eq_true_2 _ Hi).
    cbn [orb negb revert_if mbind call_bind]. unfold uint64_timestamp.
    rewrite (proj2 (Z.ltb_ge _ _) Ht). cbn [revert_if mbind call_bind].
    by rewrite (increment_ok _ Hk).
Qed.

Lemma revoke_Returns c id reason s s' :
  revoke c id reason s = Returns s' ↔
  ∃ a, reason ≠ zero32 ∧ attestations s !! id = Some a ∧ issuer a = sender c ∧
    status_of a = Active ∧ timestamp c ≤ UINT64_MAX ∧
    s' = Storage (attestationCount s) (issuerNonces s)
           (<[id := mark_revoked reason (timestamp c) a]> (attestations s)) (usedPayloads s).
Proof.
  unfold revoke. split.
  - intros H. required H as Hz. call H as a Ha. apply requireAttestation_Returns in Ha as [Ha Hne].
    required H as Hi. required H as Hs. call H as t Ht. injection H as <-.
    unfold uint64_timestamp in Ht. required Ht as Ht'. injection Ht as <-.
    exists a. apply bool_decide_eq_false_1 in Hz. apply negb_false_iff, bool_decide_eq_true_1 in Hi, Hs.
    split_and!; try done; [by apply attestation_at_Some|lia].
  - intros (a & Hz & Ha & Hi & Hs & Ht & ->). rewrite bool_decide_eq_false_2 by done.
    cbn [revert_if mbind call_bind].
    assert (issuer a ≠ zero20) as Hne. { intros E. unfold status_of in Hs. by rewrite E in Hs. }
    rewrite (proj2 (requireAttestation_Returns s id a)).
    2:{ unfold attestation_at. by rewrite Ha. }
    cbn [mbind call_bind]. rewrite Hi, Hs, !bool_decide_eq_true_2 by done.
    cbn [negb revert_if mbind call_bind]. unfold uint64_timestamp.
    by rewrite (proj2 (Z.ltb_ge _ _) Ht).
Qed.

(** ** Records over time *)

(** How one record may change in one call: not at all, or from active to
    superseded or revoked; everything it attests stays. *)
Inductive evolves : Attestation → Attestation → Prop :=
| evolves_same a : evolves a a
| evolves_superseded a id t :
    status_of a = Active → id ≠ zero32 → evolves a (mark_superseded id t a)
| evolves_revoked a reason t :
    status_of a = Active → reason ≠ zero32 → evolves a (mark_revoked reason t a).

(** Status changes that are possible. *)
Inductive status_le : Status → Status → Prop :=
| status_le_same st : status_le st st
| status_le_missing st : status_le Missing st
| status_le_superseded : status_le Active Superseded
| status_le_revoked : status_le Active Revoked.

#[export] Instance status_le_preorder : PreOrder status_le.
Proof.
  split; [constructor|].
  intros a b c H1 H2. destruct H1; inversion H2; subst; constructor.
Qed.

Lemma active_fields a :
  status_of a = Active → issuer a ≠ zero20 ∧ revocationReasonHash a = zero32 ∧ supersededBy a = zero32.
Proof.
  unfold status_of. repeat (case_bool_decide; simpl); done.
Qed.

Lemma evolves_kept a a' :
  evolves a a' →
  payload_of a' = payload_of a ∧ issuer a' = issuer a ∧ issuerNonce a' = issuerNonce a ∧
  createdAt a' = createdAt a ∧ status_le (status_of a) (status_of a').
Proof.
  intros [b|b id t Hs Hne|b r t Hs Hne].
  - repeat split. constructor.
  - apply active_fields in Hs as Hf. destruct Hf as (Hi & Hr & Hb). repeat split. rewrite Hs.
    unfold status_of. simpl. rewrite Hr, bool_decide_eq_false_2, bool_decide_eq_true_2 by done.
    rewrite bool_decide_eq_false_2 by done. constructor.
  - apply active_fields in Hs as Hf. destruct Hf as (Hi & Hr & Hb). repeat split. rewrite Hs.
    unfold status_of. simpl. rewrite bool_decide_eq_false_2, bool_decide_eq_false_2 by done.
    constructor.
Qed.

(** ** The invariant *)

(** What is true of every reachable storage: each record is stored under the id
    that its contents, issuer and nonce give; nonces and replay keys are not
    reused; and supersession links are symmetric, within one issuer, schema and
    subject, and increase the nonce. *)
Record registry_ok (s : storage) : Prop := {
  ok_count : attestationCount s = Z.of_nat (size (attestations s));
  ok_nonces a : 0 ≤ nonce_of s a;
  ok_record id a : attestations s !! id = Some a →
    issuer a ≠ zero20 ∧ id ≠ zero32 ∧
    id = computeAttestationId (issuer a) (issuerNonce a) (commitment_of a) ∧
    0 < issuerNonce a ≤ nonce_of s (issuer a) ∧
    validatePayload (payload_of a) = Returns () ∧
    computeReplayKey (issuer a) (payload_of a) ∈ usedPayloads s;
  ok_fresh i j a b : attestations s !! i = Some a → attestations s !! j = Some b → i ≠ j →
    (issuer a = issuer b → issuerNonce a ≠ issuerNonce b) ∧
    computeReplayKey (issuer a) (payload_of a) ≠ computeReplayKey (issuer b) (payload_of b);
  ok_superseded id a : attestations s !! id = Some a → supersededBy a ≠ zero32 →
    revocationReasonHash a = zero32 ∧
    ∃ b, attestations s !! supersededBy a = Some b ∧ supersedes b = id;
  ok_supersedes id b : attestations s !! id = Some b → supersedes b ≠ zero32 →
    ∃ a, attestations s !! supersedes b = Some a ∧ supersededBy a = id ∧
      issuer a = issuer b ∧ schemaId a = schemaId b ∧ subject a = subject b ∧
      issuerNonce a < issuerNonce b
}.

Lemma deployed_ok : registry_ok deployed.
Proof.
  split; try done; unfold nonce_of; simpl; intros; rewrite ?lookup_empty in *; simpl; try done; lia.
Qed.

(** The records after a successful [attest]: the new one, the superseded one,
    and the others as they were. *)
Lemma attested_lookup s c p n t id k :
  attestations s !! id = None → p_supersedes p = zero32 ∨ may_supersede s c p →
  attestations (attested s c p n t id) !! k =
    if decide (k = id) then Some (new_attestation (sender c) n t p)
    else if decide (p_supersedes p ≠ zero32 ∧ k = p_supersedes p)
         then mark_superseded id t <$> attestations s !! k
         else attestations s !! k.
Proof.
  intros Hid Hp. unfold attested. cbn [attestations].
  destruct (decide (p_supersedes p = zero32)) as [E|E].
  { rewrite bool_decide_eq_true_2 by done. rewrite (decide_False (P := _ ∧ _)) by tauto.
    destruct (decide (k = id)) as [->|Hk]; [apply lookup_insert_eq|by apply lookup_insert_ne]. }
  rewrite bool_decide_eq_false_2 by done. destruct Hp as [|(prior & Hprior & _)]; [done|].
  assert (p_supersedes p ≠ id) as Hne by (intros Heq; congruence).
  rewrite (lookup_insert_ne (attestations s) id) by done. rewrite Hprior. change (default no_attestation (Some prior)) with prior.
  destruct (decide (k = id)) as [->|Hk].
  { rewrite lookup_insert_ne by done. apply lookup_insert_eq. }
  destruct (decide (_ ∧ _)) as [[_ ->]|Hn].
  - rewrite lookup_insert_eq. by rewrite Hprior.
  - assert (k ≠ p_supersedes p) by tauto. by rewrite !lookup_insert_ne by done.
Qed.

Lemma nonce_of_attested s c p n t id a :
  nonce_of (attested s c p n t id) a = if decide (a = sender c) then n else nonce_of s a.
Proof.
  unfold nonce_of, attested. cbn [issuerNonces].
  destruct (decide (a = sender c)) as [->|Hne]; [by rewrite lookup_insert_eq|].
  by rewrite lookup_insert_ne by done.
Qed.

(** Where the records of an attested storage come from. *)
Lemma attested_origin s c p n t id k a' :
  attestations s !! id = None → id ≠ zero32 → p_supersedes p = zero32 ∨ may_supersede s c p →
  attestations (attested s c p n t id) !! k = Some a' →
  k = id ∧ a' = new_attestation (sender c) n t p ∨
  k ≠ id ∧ ∃ a, attestations s !! k = Some a ∧ evolves a a' ∧
    (supersededBy a' = supersededBy a ∧ (p_supersedes p = zero32 ∨ k ≠ p_supersedes p)
     ∨ supersededBy a' = id ∧ k = p_supersedes p ∧ revocationReasonHash a' = zero32) ∧
    revocationReasonHash a' = revocationReasonHash a.
Proof.
  intros Hid Hz Hp. rewrite attested_lookup by done. destruct (decide (k = id)) as [->|Hk].
  { intros [= <-]. by left. }
  intros H. right. split; [done|]. destruct (decide (_ ∧ _)) as [[Hs ->]|Hn].
  - destruct Hp as [|(prior & Hprior & Ha & _)]; [done|]. rewrite Hprior in H. injection H as <-.
    exists prior. split; [done|]. apply active_fields in Ha as Hf. split; [by constructor|].
    split; [|done]. right. split_and!; [done..|]. apply Hf.
  - exists a'. split; [done|]. split; [constructor|]. split; [|done]. left. split; [done|].
    destruct (decide (p_supersedes p = zero32)); tauto.
Qed.

Lemma commitment_kept a a' : payload_of a' = payload_of a → commitment_of a' = commitment_of a.
Proof. unfold AttestationRegistry.commitment_of. by intros ->. Qed.

Lemma payload_fields a a' :
  payload_of a' = payload_of a →
  schemaId a' = schemaId a ∧ subject a' = subject a ∧ supersedes a' = supersedes a.
Proof. unfold payload_of. by intros [=]. Qed.

(** ** Every call keeps the invariant *)

Section preserved.
Context (s : storage) (Hok : registry_ok s).

Lemma fresh_id id : issuer (attestation_at s id) = zero20 → attestations s !! id = None.
Proof.
  unfold attestation_at. destruct (attestations s !! id) as [a|] eqn:E; [|done]. simpl. intros H.
  by destruct (ok_record s Hok id a E).
Qed.

Context (c : context) (p : payload) (t : Z) (id : bytes32).
Let n := nonce_of s (sender c) + 1.
Context (Hsender : sender c ≠ zero20) (Hvalid : validatePayload p = Returns ())
  (Hreplay : computeReplayKey (sender c) p ∉ usedPayloads s)
  (Hprior : p_supersedes p = zero32 ∨ may_supersede s c p)
  (Hid : id = computeAttestationId (sender c) n (computeCommitment p))
  (Hz : id ≠ zero32) (Hfresh : attestations s !! id = None).

Let s' := attested s c p n t id.
Let new := new_attestation (sender c) n t p.

Lemma origin k a' :
  attestations s' !! k = Some a' →
  k = id ∧ a' = new ∨ k ≠ id ∧ ∃ a, attestations s !! k = Some a ∧ evolves a a'.
Proof.
  intros H. destruct (attested_origin s c p n t id k a' Hfresh Hz Hprior H)
    as [?|(? & a & ? & ? & _)]; [by left|]. right. eauto.
Qed.

Lemma attested_count : attestationCount s' = Z.of_nat (size (attestations s')).
Proof.
  unfold s', attested. cbn [attestationCount attestations].
  assert (Z.of_nat (size (<[id:=new_attestation (sender c) n t p]> (attestations s)))
          = attestationCount s + 1) as E.
  { rewrite map_size_insert_None by done. rewrite (ok_count s Hok). lia. }
  case_bool_decide; [done|]. destruct Hprior as [|(prior & Hp & _)]; [done|].
  rewrite map_size_insert_Some; [done|].
  rewrite lookup_insert_ne; [rewrite Hp; eauto|]. intros Heq. congruence.
Qed.

Lemma attested_record k a : attestations s' !! k = Some a →
  issuer a ≠ zero20 ∧ k ≠ zero32 ∧
  k = computeAttestationId (issuer a) (issuerNonce a) (commitment_of a) ∧
  0 < issuerNonce a ≤ nonce_of s' (issuer a) ∧
  validatePayload (payload_of a) = Returns () ∧
  computeReplayKey (issuer a) (payload_of a) ∈ usedPayloads s'.
Proof.
  pose proof (ok_nonces s Hok (sender c)) as Hn0.
  intros [[-> ->]|(Hk & b & Hb & He)]%origin; unfold s'; rewrite nonce_of_attested.
  - unfold new. cbn [issuer issuerNonce new_attestation]. rewrite decide_True by done.
    split_and!; try done; try (unfold n; lia).
    apply elem_of_union_l, elem_of_singleton. done.
  - apply evolves_kept in He as (Hp & Hi & Hnn & _). rewrite (commitment_kept _ _ Hp), Hp, Hi, Hnn.
    destruct (ok_record s Hok k b Hb) as (H1 & H2 & H3 & H4 & H5 & H6).
    split_and!; try done; try lia.
    + destruct (decide _) as [E|]; [rewrite E in H4; unfold n|]; lia.
    + by apply elem_of_union_r.
Qed.

Lemma attested_fresh i j a b :
  attestations s' !! i = Some a → attestations s' !! j = Some b → i ≠ j →
  (issuer a = issuer b → issuerNonce a ≠ issuerNonce b) ∧
  computeReplayKey (issuer a) (payload_of a) ≠ computeReplayKey (issuer b) (payload_of b).
Proof.
  assert (∀ k x, k ≠ id → attestations s' !! k = Some x →
    (issuer x = sender c → issuerNonce x ≠ n) ∧
    computeReplayKey (issuer x) (payload_of x) ≠ computeReplayKey (sender c) p) as Hold.
  { intros k x Hk [[-> _]|(_ & y & Hy & He)]%origin; [done|].
    apply evolves_kept in He as (Hp & Hi & Hnn & _). rewrite Hp, Hi, Hnn.
    destruct (ok_record s Hok k y Hy) as (_ & _ & _ & H4 & _ & H6). split.
    - intros E. rewrite E in H4. unfold n. lia.
    - intros E. by rewrite E in H6. }
  intros Ha Hb Hij. destruct (decide (i = id)) as [->|Hi].
  - apply origin in Ha as [[_ ->]|[? _]]; [|done]. destruct (Hold j b) as [H1 H2]; [congruence|done|].
    split; [intros E; specialize (H1 (eq_sym E)); unfold new; cbn; congruence|].
    intros E. apply H2. rewrite <- E. unfold new. by destruct p.
  - destruct (decide (j = id)) as [->|Hj].
    + apply origin in Hb as [[_ ->]|[? _]]; [|done]. destruct (Hold i a Hi Ha) as [H1 H2].
      split; [intros E; apply H1, E|]. intros E. apply H2. rewrite E. unfold new. by destruct p.
    + apply origin in Ha as [[-> _]|(_ & x & Hx & Hex)]; [done|].
      apply origin in Hb as [[-> _]|(_ & y & Hy & Hey)]; [done|].
      apply evolves_kept in Hex as (Hp & Hi' & Hnn & _), Hey as (Hp' & Hi'' & Hnn' & _).
      rewrite Hp, Hp', Hi', Hi'', Hnn, Hnn'. by apply (ok_fresh s Hok i j).
Qed.

Lemma attested_at_id : attestations s' !! id = Some new.
Proof. unfold s'. rewrite attested_lookup by done. by rewrite decide_True. Qed.

(** The superseded record, as it is afterwards. *)
Lemma attested_prior :
  p_supersedes p ≠ zero32 →
  ∃ prior, attestations s !! p_supersedes p = Some prior ∧ status_of prior = Active ∧
    issuer prior = sender c ∧ schemaId prior = p_schemaId p ∧ subject prior = p_subject p ∧
    attestations s' !! p_supersedes p = Some (mark_superseded id t prior).
Proof.
  intros Hs. destruct Hprior as [|(prior & Hp & Ha & Hi & Hsc & Hsu)]; [done|].
  exists prior. split_and!; try done. unfold s'. rewrite attested_lookup by done.
  rewrite decide_False by congruence. rewrite decide_True by done. by rewrite Hp.
Qed.

(** A record that was there is still there, and may have evolved. *)
Lemma attested_survives k a :
  attestations s !! k = Some a → ∃ a', attestations s' !! k = Some a' ∧ evolves a a' ∧
    (p_supersedes p ≠ k → a' = a).
Proof.
  intros Ha. unfold s'. rewrite attested_lookup by done.
  rewrite decide_False by congruence. destruct (decide (_ ∧ _)) as [[Hs ->]|Hn].
  - rewrite Ha. destruct Hprior as [|(prior & Hp & Hst & _)]; [done|].
    replace prior with a in Hst by congruence. eexists. split; [done|]. split; [by constructor|done].
  - exists a. split; [done|]. split; [constructor|done].
Qed.

Lemma attested_superseded k a : attestations s' !! k = Some a → supersededBy a ≠ zero32 →
  revocationReasonHash a = zero32 ∧
  ∃ b, attestations s' !! supersededBy a = Some b ∧ supersedes b = k.
Proof.
  intros Ha Hne.
  destruct (attested_origin s c p n t id k a Hfresh Hz Hprior Ha)
    as [[-> ->]|(Hk & b & Hb & He & [[Hsame _]|(Hnew & -> & Hr)] & Hrev)]; [done| |].
  - rewrite Hsame in Hne |- *. rewrite Hrev.
    destruct (ok_superseded s Hok k b Hb Hne) as (Hr & x & Hx & Hxk). split; [done|].
    destruct (attested_survives _ _ Hx) as (x' & Hx' & Hex & _). exists x'. split; [done|].
    apply evolves_kept in Hex as (Hp & _). by apply payload_fields in Hp as (_ & _ & ->).
  - split; [done|]. rewrite Hnew. exists new. split; [apply attested_at_id|done].
Qed.

Lemma attested_supersedes k b : attestations s' !! k = Some b → supersedes b ≠ zero32 →
  ∃ a, attestations s' !! supersedes b = Some a ∧ supersededBy a = k ∧
    issuer a = issuer b ∧ schemaId a = schemaId b ∧ subject a = subject b ∧
    issuerNonce a < issuerNonce b.
Proof.
  intros [[-> ->]|(Hk & b0 & Hb & He)]%origin Hne.
  - destruct (attested_prior Hne) as (prior & Hp & Hst & Hi & Hsc & Hsu & Hat).
    exists (mark_superseded id t prior). split; [done|]. cbn. split_and!; try done.
    destruct (ok_record s Hok _ _ Hp) as (_ & _ & _ & Hn & _). rewrite Hi in Hn. unfold n. lia.
  - apply evolves_kept in He as (Hp & Hi & Hnn & _).
    destruct (payload_fields _ _ Hp) as (Hsc & Hsu & Hss). rewrite Hss in Hne |- *.
    destruct (ok_supersedes s Hok k b0 Hb Hne) as (x & Hx & Hxk & H1 & H2 & H3 & H4).
    destruct (attested_survives _ _ Hx) as (x' & Hx' & Hex & Hsame).
    assert (p_supersedes p ≠ supersedes b0) as Hother.
    { intros E. destruct Hprior as [E'|(prior & Hpr & Ha & _)]; [congruence|].
      rewrite E, Hx in Hpr. injection Hpr as <-. apply active_fields in Ha as (_ & _ & E').
      destruct (ok_record s Hok k b0 Hb) as (_ & Hkz & _). congruence. }
    rewrite (Hsame Hother) in Hx'. exists x. rewrite Hi, Hsc, Hsu, Hnn. split_and!; done.
Qed.

Lemma attested_ok : registry_ok s'.
Proof.
  split; [apply attested_count| |apply attested_record|apply attested_fresh
         |apply attested_superseded|apply attested_supersedes].
  intros a. unfold s'. rewrite nonce_of_attested. pose proof (ok_nonces s Hok (sender c)).
  pose proof (ok_nonces s Hok a). destruct (decide _); [unfold n|]; lia.
Qed.
End preserved.

(** *** Revocation *)

Section revoked.
Context (s : storage) (Hok : registry_ok s) (id reason : bytes32) (t : Z) (a : Attestation).
Context (Ha : attestations s !! id = Some a) (Hst : status_of a = Active).

Let s' := Storage (attestationCount s) (issuerNonces s)
            (<[id := mark_revoked reason t a]> (attestations s)) (usedPayloads s).

Lemma revoked_origin k b' :
  attestations s' !! k = Some b' → ∃ b, attestations s !! k = Some b ∧
    (k ≠ id ∧ b' = b ∨ k = id ∧ b = a ∧ b' = mark_revoked reason t a) ∧
    payload_of b' = payload_of b ∧ issuer b' = issuer b ∧ issuerNonce b' = issuerNonce b ∧
    supersededBy b' = supersededBy b.
Proof.
  unfold s'. cbn [attestations]. destruct (decide (k = id)) as [->|Hk].
  - rewrite lookup_insert_eq. intros [= <-]. exists a. split; [done|]. by split; [right|].
  - rewrite lookup_insert_ne by done. intros Hb. exists b'. split; [done|]. by split; [left|].
Qed.

Lemma revoked_keeps k b :
  attestations s !! k = Some b → ∃ b', attestations s' !! k = Some b' ∧
    payload_of b' = payload_of b ∧ issuer b' = issuer b ∧ issuerNonce b' = issuerNonce b ∧
    supersededBy b' = supersededBy b.
Proof.
  intros Hb. unfold s'. cbn [attestations]. destruct (decide (k = id)) as [->|Hk].
  - rewrite lookup_insert_eq. eexists. split; [done|]. replace b with a by congruence. done.
  - rewrite lookup_insert_ne by done. by exists b.
Qed.

Lemma revoked_ok : registry_ok s'.
Proof.
  split; [|apply (ok_nonces s Hok)|..].
  - unfold s'. cbn [attestationCount attestations]. rewrite map_size_insert_Some by eauto.
    apply (ok_count s Hok).
  - intros k b' (b & Hb & _ & Hp & Hi & Hn & _)%revoked_origin.
    rewrite (commitment_kept _ _ Hp), Hp, Hi, Hn. apply (ok_record s Hok k b Hb).
  - intros i j x' y' (x & Hx & _ & Hp & Hi & Hn & _)%revoked_origin
      (y & Hy & _ & Hp' & Hi' & Hn' & _)%revoked_origin Hij.
    rewrite Hp, Hp', Hi, Hi', Hn, Hn'. by apply (ok_fresh s Hok i j).
  - intros k b' (b & Hb & Hcase & _ & _ & _ & Hs)%revoked_origin. rewrite Hs. intros Hne.
    destruct (ok_superseded s Hok k b Hb Hne) as (Hr & x & Hx & Hxk).
    apply active_fields in Hst as (_ & _ & Hzero).
    destruct Hcase as [[_ ->]|(_ & -> & _)]; [|done]. split; [done|].
    destruct (revoked_keeps _ _ Hx) as (x' & Hx' & Hp & _). exists x'. split; [done|].
    by apply payload_fields in Hp as (_ & _ & ->).
  - intros k b' (b & Hb & _ & Hp & Hi & Hn & _)%revoked_origin.
    destruct (payload_fields _ _ Hp) as (Hsc & Hsu & Hss). rewrite Hss, Hi, Hsc, Hsu, Hn. intros Hne.
    destruct (ok_supersedes s Hok k b Hb Hne) as (x & Hx & H1 & H2 & H3 & H4 & H5).
    destruct (revoked_keeps _ _ Hx) as (x' & Hx' & Hpx & Hix & Hnx & Hsx). exists x'.
    destruct (payload_fields _ _ Hpx) as (-> & -> & _). by rewrite Hsx, Hix, Hnx.
Qed.
End revoked.

(** ** Steps and reachability *)

Lemma step_ok s s' : registry_ok s → step s s' → registry_ok s'.
Proof.
  intros Hok Hstep. revert Hok. destruct Hstep as [c p s0 s1 id Hc H|c id reason s0 s1 Hc H]; intros Hok.
  - apply attest_Returns in H as (Hv & Hr & Hp & _ & _ & _ & Hid & Hz & Hi & ->).
    apply (attested_ok s0 Hok c p _ id Hc Hv Hr Hp Hid Hz). by apply fresh_id.
  - apply revoke_Returns in H as (a & _ & Ha & _ & Hst & _ & ->). by apply revoked_ok.
Qed.

Lemma steps_ok s s' : registry_ok s → rtc step s s' → registry_ok s'.
Proof. intros Hok H. induction H; eauto using step_ok. Qed.

Lemma reachable_ok s : reachable s → registry_ok s.
Proof. apply steps_ok, deployed_ok. Qed.

Lemma step_evolves s s' id a :
  registry_ok s → step s s' → attestations s !! id = Some a →
  ∃ a', attestations s' !! id = Some a' ∧ evolves a a'.
Proof.
  intros Hok Hstep. revert Hok.
  destruct Hstep as [c p s0 s1 i Hc H|c i reason s0 s1 Hc H]; intros Hok Ha.
  - apply attest_Returns in H as (_ & _ & Hp & _ & _ & _ & _ & Hz & Hi & ->).
    apply fresh_id in Hi; [|done].
    destruct (attested_survives s0 c p (timestamp c) i Hp Hz Hi id a Ha) as (a' & Ha' & He & _).
    by exists a'.
  - apply revoke_Returns in H as (b & Hr & Hb & _ & Hst & _ & ->). cbn [attestations].
    destruct (decide (id = i)) as [->|Hne].
    + rewrite lookup_insert_eq. eexists. split; [done|]. replace a with b by congruence. by constructor.
    + rewrite lookup_insert_ne by done. exists a. split; [done|constructor].
Qed.

Lemma step_used s s' : step s s' → usedPayloads s ⊆ usedPayloads s'.
Proof.
  intros [c p s0 s1 i Hc H|c i reason s0 s1 Hc H].
  - apply attest_Returns in H as (_ & _ & _ & _ & _ & _ & _ & _ & _ & ->). simpl. set_solver.
  - by apply revoke_Returns in H as (b & _ & _ & _ & _ & _ & ->).
Qed.

Lemma steps_used s s' : rtc step s s' → usedPayloads s ⊆ usedPayloads s'.
Proof. induction 1; [done|]. etransitivity; [by eapply step_used|done]. Qed.

(** C8. In every storage the registry reaches, each record sits under the id its
    own contents, issuer and nonce give; no nonce of an issuer and no replay key
    is used twice; every supersession link has its two ends, in one issuer,
    schema and subject, from a lower to a higher nonce; and no record is both
    superseded and revoked. *)
Theorem registry_invariant s : reachable s → registry_ok s.
Proof. apply reachable_ok. Qed.

(** C7. Whatever calls follow, a stored record keeps its payload, issuer, nonce
    and creation time, and its status changes at most once: from active to
    superseded or from active to revoked. *)
Theorem registry_lifecycle s s' id a :
  reachable s → rtc step s s' → attestations s !! id = Some a →
  ∃ a', attestations s' !! id = Some a' ∧ payload_of a' = payload_of a ∧ issuer a' = issuer a ∧
    issuerNonce a' = issuerNonce a ∧ createdAt a' = createdAt a ∧
    status_le (statusOf s id) (statusOf s' id).
Proof.
  intros Hr%reachable_ok Hs. revert a. induction Hs as [s|s1 s2 s3 H12 H23 IH]; intros a Ha.
  { exists a. split_and!; done || constructor. }
  destruct (step_evolves _ _ _ _ Hr H12 Ha) as (b & Hb & (Hp & Hi & Hn & Ht & Hst)%evolves_kept).
  destruct (IH (step_ok _ _ Hr H12) b Hb) as (a' & Ha' & Hp' & Hi' & Hn' & Ht' & Hle).
  exists a'. split_and!; try congruence. etransitivity; [|exact Hle].
  unfold statusOf, attestation_at. by rewrite Ha, Hb.
Qed.

(** A payload is attested once: when [attest] has returned an id, the record
    verifies under it for the sender and its commitment, and after any further
    calls, revocation and supersession included, the same sender cannot attest
    the same content again, whatever record it would supersede. *)
Theorem attested_once c p s s' id :
  reachable s → sender c ≠ zero20 → attest c p s = Returns (s', id) →
  verify evm_keccak256 s' id (sender c) (computeCommitment p) = true ∧
  ∀ s'' c' supersedes', rtc step s' s'' → sender c' = sender c →
    let again := Payload (p_schemaId p) (p_schemaVersion p) (p_subject p) (p_referenceHash p)
                   (p_contentHash p) (p_metadataHash p) (p_metadataUriHash p) supersedes' in
    attest c' again s'' = Reverts (DuplicatePayload (computeReplayKey (sender c) p)).
Proof.
  intros Hok%reachable_ok Hne (Hv & Hr & Hp & _ & _ & _ & Hid & Hz & Hi & ->)%attest_Returns.
  apply fresh_id in Hi; [|done]. split.
  - unfold verify, attestation_at. rewrite attested_lookup by done. rewrite decide_True by done.
    change (default no_attestation (Some ?a)) with a.
    rewrite !bool_decide_eq_true_2; [done|done|done|].
    unfold status_of. simpl. by rewrite bool_decide_eq_false_2.
  - intros s'' c' sup Hs Hc again. unfold AttestationRegistry.attest.
    change (validatePayload again) with (validatePayload p). rewrite Hv. cbn [mbind call_bind].
    change (computeReplayKey (sender c') again) with (computeReplayKey (sender c') p). rewrite Hc.
    assert (computeReplayKey (sender c) p ∈ usedPayloads s'') as Hused.
    { apply (steps_used _ _ Hs), elem_of_union_l. by apply elem_of_singleton. }
    by rewrite (bool_decide_eq_true_2 _ Hused).
Qed.
End facts.

(** ** A concrete registry *)

(** A stand-in for the hash, injective on short inputs only. *)
Definition sample_hash (l : list Z) : bytes32 := 1 :: be_word 31 (fold_left (λ a x, (257 * a + x + 1) mod 1000003) l 0).

Definition sample_domain : domain := Domain 7 (repeat 9 20).
Definition sample_sender : context := Context_ (repeat 5 20) 1000.
Definition word (x : Z) : bytes32 := repeat x 32.
Definition first_payload : payload :=
  Payload (word 1) 1 (word 2) zero32 (word 3) (word 4) (word 5) zero32.

Definition run {A} (c : call A) (d : A) : A := match c with Returns a => a | Reverts _ => d end.

Definition first_call := run (attest sample_hash sample_domain sample_sender first_payload deployed) (deployed, []).
Definition second_payload : payload :=
  Payload (word 1) 1 (word 2) zero32 (word 6) (word 4) (word 5) (snd first_call).
Definition second_call :=
  run (attest sample_hash sample_domain sample_sender second_payload (fst first_call)) (deployed, []).

Lemma sample_first : attest sample_hash sample_domain sample_sender first_payload deployed = Returns first_call.
Proof. vm_compute. reflexivity. Qed.

Lemma sample_second :
  attest sample_hash sample_domain sample_sender second_payload (fst first_call) = Returns second_call.
Proof. vm_compute. reflexivity. Qed.

Lemma sample_steps :
  reachable sample_hash sample_domain (fst first_call) ∧
  rtc (step sample_hash sample_domain) (fst first_call) (fst second_call).
Proof.
  assert (sender sample_sender ≠ zero20) as Hne by (vm_compute; discriminate).
  pose proof sample_first as H1. pose proof sample_second as H2.
  destruct first_call as [s1 i1]. destruct second_call as [s2 i2]. split.
  - apply rtc_once. exact (step_attest _ _ sample_sender first_payload _ _ _ Hne H1).
  - apply rtc_once. exact (step_attest _ _ sample_sender second_payload _ _ _ Hne H2).
Qed.

(** The first record is active, then superseded by the second. *)
Lemma sample_statuses :
  statusOf (fst first_call) (snd first_call) = Active ∧
  statusOf (fst second_call) (snd first_call) = Superseded ∧
  attestations (fst first_call) !! snd first_call
  = Some (new_attestation (sender sample_sender) 1 1000 first_payload).
Proof. split_and!; vm_compute; reflexivity. Qed.

Lemma sample_count : attestationCount (fst first_call) = 1.
Proof. vm_compute. reflexivity. Qed.

Lemma registry_invariant_witness :
  registry_ok sample_hash sample_domain (fst first_call) ∧ attestationCount (fst first_call) = 1.
Proof.
  split; [exact (registry_invariant _ _ _ (proj1 sample_steps))|exact sample_count].
Defined.

Lemma registry_lifecycle_witness :
  statusOf (fst second_call) (snd first_call) = Superseded ∧
  ∃ a', attestations (fst second_call) !! snd first_call = Some a' ∧
    payload_of a' = first_payload ∧ status_le Active Superseded.
Proof.
  split; [apply sample_statuses|]. destruct sample_statuses as (E1 & E2 & E3).
  destruct (registry_lifecycle sample_hash sample_domain _ _ _ _ (proj1 sample_steps)
              (proj2 sample_steps) E3) as (a' & Ha & Hp & _ & _ & _ & Hle).
  exists a'. rewrite E1, E2 in Hle. split; [exact Ha|]. split; [|exact Hle].
  rewrite Hp. reflexivity.
Defined.

Lemma attested_once_witness :
  attest sample_hash sample_domain sample_sender first_payload (fst second_call)
  = Reverts (DuplicatePayload (computeReplayKey sample_hash (sender sample_sender) first_payload)).
Proof.
  assert (sender sample_sender ≠ zero20) as Hne by (vm_compute; discriminate).
  pose proof sample_first as H1. pose proof sample_steps as [_ H2].
  destruct first_call as [s1 i1].
  destruct (attested_once sample_hash sample_domain _ _ _ _ _ (rtc_refl _ _) Hne H1) as [_ H].
  exact (H _ sample_sender zero32 H2 eq_refl).
Defined.
