(* ===== verification/AttestationFacts.v ===== *)
(** The canonical attestation vectors: exactly which vectors are accepted, what
    an attestation id commits to, and that the ids are the registry contract's. *)

From S2P Require Import Prelude JsNum JsText JsValue JsonText JsPath JsUtf8 JsOps RewardTree RewardTreeFacts RewardInput Attestation HexFacts Evm AttestationRegistry AttestationRegistryFacts.

Open Scope Z_scope.

#[local] Notation "v .[ k ]" := (field v (js k)) (at level 1, left associativity, format "v .[ k ]").

#[local] Arguments js _ : simpl never.

(** ** Assertions *)

Lemma same_value_str v s : same_value v (VStr s) = true ↔ v = VStr s.
Proof. destruct v; try (split; done). simpl. rewrite jeq_spec. split; [by intros ->|by intros [= ->]]. Qed.

Lemma equal_str v s m u : equal v (VStr s) m = Ok u ↔ v = VStr s.
Proof. unfold equal. by rewrite assert_Ok, same_value_str. Qed.

(** [v] is a text satisfying [P]. *)
Definition text_with (P : jstr → bool) (v : value) : Prop := ∃ s, v = VStr s ∧ P s = true.

Lemma text_with_spec P v : is_string v && P (v_str v) = true ↔ text_with P v.
Proof.
  unfold text_with. split.
  - destruct v; simpl; try done. intros H. eauto.
  - by intros (s & -> & H).
Qed.

Lemma assertHexBytes_Ok v l u : assertHexBytes v l = Ok u ↔ text_with is_hex_bytes v.
Proof. unfold assertHexBytes. by rewrite assert_Ok, text_with_spec. Qed.

Definition nonzero_bytes32 (s : jstr) : bool := is_bytes32 s && negb (s =s? ZERO_BYTES32).

Lemma assertBytes32_Ok v l nz u :
  assertBytes32 v l nz = Ok u ↔ text_with (if nz then nonzero_bytes32 else is_bytes32) v.
Proof.
  unfold assertBytes32. rewrite seq_Ok, assert_Ok, text_with_spec. destruct u, nz; [|split; tauto].
  rewrite assert_Ok. unfold text_with, nonzero_bytes32. split.
  - intros [(s & -> & H) Hz]. exists s. split; [done|]. cbn -[ZERO_BYTES32] in Hz. by rewrite H.
  - intros (s & -> & [H Hz]%andb_true_iff). split; [by exists s|done].
Qed.

(** The integer a vector field stands for: canonical decimal text, or a number. *)
Definition reads_uint (v : value) (z : Z) : Prop :=
  0 ≤ z ∧ (v = VStr (dec_of_Z z) ∨ ∃ n, v = VNum n ∧ num_int n = Some z ∧ z ≤ max_safe).

Lemma decimal_text s : is_canonical_dec s = true → reads_uint (VStr s) (Z_of_dec s) ∧ s = dec_of_Z (Z_of_dec s).
Proof.
  intros H. pose proof (dec_of_Z_of_dec s H) as E. split; [|done]. split; [|left; by rewrite E].
  apply Z_of_dec_nonneg, canonical_digits, H.
Qed.

Lemma reads_uint_text v z :
  reads_uint v z ↔
  match v with
  | VNum n => is_safe_integer n && num_leb (NInt 0) n = true ∧ num_to_string n = dec_of_Z z ∧ 0 ≤ z
  | VStr s => is_canonical_dec s = true ∧ s = dec_of_Z z ∧ 0 ≤ z
  | _ => False
  end.
Proof.
  split.
  - intros (Hz & [->|(n & -> & Hn & Hm)]).
    + split_and!; [by apply dec_of_Z_canonical|done|done].
    + split_and!; [|by destruct (num_int_cases n z Hn) as [->|[-> ->]]; [apply num_to_string_int; lia|]|done].
      apply andb_true_iff. rewrite (num_leb_int (NInt 0) n 0 z) by done. split; [|lia].
      apply is_safe_integer_spec. exists z. split; [done|lia].
  - destruct v as [| | |n|s| |]; try done.
    + intros (H & Hs & Hz). apply andb_true_iff in H as [Hi Hn].
      apply is_safe_integer_spec in Hi as (w & Hw & Hm).
      rewrite (num_leb_int (NInt 0) n 0 w) in Hn by done. apply Z.leb_le in Hn.
      assert (w = z) as <-.
      { apply dec_of_Z_inj; [done|done|]. rewrite <- Hs.
        destruct (num_int_cases n w Hw) as [->|[-> ->]]; [by rewrite num_to_string_int|done]. }
      split; [done|]. right. exists n. split_and!; try done. lia.
    + intros (H & -> & Hz). split; [done|]. by left.
Qed.

Lemma parseUint_Ok v l m positive z :
  parseUint v l m positive = Ok z ↔ reads_uint v z ∧ z ≤ m ∧ (positive = true → z ≠ 0).
Proof.
  assert (∀ w, 0 ≤ w →
    (parsed ← to_bigint (VStr (dec_of_Z w));
     assert (parsed <=? m) (l +++ js " exceeds its ABI type");;
     (if positive then assert (negb (parsed =? 0)) (l +++ js " must be nonzero") else Ok ());;
     Ok parsed) = Ok z ↔ w = z ∧ z ≤ m ∧ (positive = true → z ≠ 0)) as Htail.
  { intros w Hw. cbn [to_bigint]. rewrite bigint_of_dec by done. cbn [mbind result_bind].
    rewrite !seq_Ok, assert_Ok, Z.leb_le. destruct positive.
    - rewrite assert_Ok, negb_true_iff, Z.eqb_neq. split.
      + by intros (? & ? & [= ->]).
      + intros (-> & ? & H). split_and!; auto.
    - split; [by intros (? & _ & [= ->])|by intros (-> & ? & _)]. }
  unfold parseUint. rewrite bind_Ok, reads_uint_text. split.
  - intros (dec & Hdec & H).
    assert (∃ w, reads_uint v w ∧ dec = dec_of_Z w) as (w & Hr & ->).
    { clear H. destruct v as [| | |n|s| |]; inv_result; try done.
      - pose proof H as Hs. apply andb_true_iff in Hs as [Hs Hn].
        apply is_safe_integer_spec in Hs as (w & Hw & Hm).
        rewrite (num_leb_int (NInt 0) n 0 w) in Hn by done. apply Z.leb_le in Hn. exists w.
        assert (reads_uint (VNum n) w) as Hr.
        { split; [done|]. right. exists n. split_and!; [done|done|lia]. }
        split; [done|]. by apply reads_uint_text in Hr as (_ & -> & _).
      - exists (Z_of_dec s). by apply (decimal_text s). }
    apply Htail in H as (-> & H1 & H2); [|apply Hr]. split; [by apply reads_uint_text|done].
  - intros (Hr & H). exists (dec_of_Z z). split; [|apply Htail; [|done]].
    + destruct v; try done; destruct Hr as (H1 & H2 & _); cbn [is_string v_str andb]; rewrite H1; cbn;
        by rewrite H2.
    + destruct v; try done; apply Hr.
Qed.

(** ** One vector *)

(** What viem's helpers return: lower-case hexadecimal text of whole bytes, and
    digests of 32 bytes. *)
Record viem_formats (keccak256 : jstr → jstr) (encode : list abi_parameter → list abi_value → jstr)
    (stringToHex : jstr → jstr) : Prop := {
  keccak_format s : is_bytes32 (keccak256 s) = true;
  encode_format ps l : is_hex_bytes (encode ps l) = true;
  hex_format s : is_hex_bytes (stringToHex s) = true
}.

Definition utf8_text (max : Z) (s : jstr) : bool :=
  (0 <? jlen s) && (Z.of_nat (length (utf8_encode s)) <=? max).

Lemma assertUtf8Input_Ok v l m u : assertUtf8Input v l m = Ok u ↔ text_with (utf8_text m) v.
Proof.
  unfold assertUtf8Input, text_with, utf8_text. rewrite !seq_Ok, !assert_Ok. split.
  - intros (H & H1 & H2). destruct v; try done. exists s. split; [done|]. by apply andb_true_iff.
  - intros (s & -> & [H1 H2]%andb_true_iff). done.
Qed.

Section vectors.
Context (keccak256 : jstr → jstr).
Context (encode : list abi_parameter → list abi_value → jstr).
Context (isAddress : jstr → bool) (getAddress : jstr → option jstr).
Context (stringToHex : jstr → jstr).

Abbreviation validateInputs := (validateInputs isAddress getAddress).
Abbreviation validateExpected := (validateExpected keccak256 encode stringToHex).
Abbreviation validateVector := (validateVector keccak256 encode isAddress getAddress stringToHex).

(** A checksummed address other than the zero address. *)
Definition checksummed (v : value) : Prop :=
  ∃ a, v = VStr a ∧ isAddress a = true ∧ getAddress a = Some a ∧ a ≠ js "0x" +++ repeat 48%N 40.

Lemma assertChecksummedAddress_Ok v l u :
  assertChecksummedAddress isAddress getAddress v l true = Ok u ↔ checksummed v.
Proof.
  unfold assertChecksummedAddress, checksummed. rewrite seq_Ok, assert_Ok, bind_Ok. split.
  - intros (H & a & Ha & Hb). rewrite seq_Ok, equal_str, assert_Ok in Hb. destruct Hb as [-> Hz].
    exists a. apply andb_true_iff in H as [_ H]. split_and!; [done|done| |].
    + simpl in Ha. by destruct (getAddress a); inv_result.
    + intros ->. by rewrite negb_true_iff in Hz.
  - intros (a & -> & H1 & H2 & H3). split; [done|]. exists a. cbn [v_str]. rewrite H2. split; [done|].
    rewrite seq_Ok, equal_str, assert_Ok. split; [done|].
    apply negb_true_iff, not_true_iff_false. by intros [= ->]%same_value_str.
Qed.

(** The inputs a vector may have, with the integers they give. *)
Definition valid_inputs (input : value) (chainId issuerNonce schemaVersion : Z) : Prop :=
  reads_uint input.["chainId"] chainId ∧ 0 < chainId ≤ UINT256_MAX ∧
  reads_uint input.["issuerNonce"] issuerNonce ∧ issuerNonce ≤ UINT256_MAX ∧
  reads_uint input.["schemaVersion"] schemaVersion ∧ 0 < schemaVersion ≤ UINT32_MAX ∧
  checksummed input.["registry"] ∧ checksummed input.["issuer"] ∧
  text_with nonzero_bytes32 input.["schemaId"] ∧ text_with nonzero_bytes32 input.["subject"] ∧
  text_with is_bytes32 input.["referenceHash"] ∧ input.["supersedes"] = VStr ZERO_BYTES32 ∧
  text_with (utf8_text 4096) input.["contentUtf8"] ∧
  text_with (utf8_text 4096) input.["metadataUtf8"] ∧
  text_with (utf8_text 2048) input.["metadataUriUtf8"] ∧
  existsb is_control (v_str input.["metadataUriUtf8"]) = false.

Lemma validateInputs_Ok input label c n k :
  validateInputs input label = Ok (c, n, k) ↔ valid_inputs input c n k.
Proof.
  unfold Attestation.validateInputs, valid_inputs. split.
  - intros H. take H as c' Hc. take H as n' Hn. take H as k' Hk.
    apply parseUint_Ok in Hc as (Hc & Hcm & Hcp), Hn as (Hn & Hnm & _), Hk as (Hk & Hkm & Hkp).
    rewrite !seq_Ok, !assertChecksummedAddress_Ok, !assertBytes32_Ok, equal_str,
      !assertUtf8Input_Ok, assert_Ok, negb_true_iff in H.
    destruct H as (H1 & H2 & H3 & H4 & H5 & H6 & H7 & H8 & H9 & H10 & H11 & [= -> -> ->]).
    specialize (Hcp eq_refl). specialize (Hkp eq_refl).
    destruct Hc as [? ?], Hk as [? ?]. unfold reads_uint. split_and!; auto; try lia; apply Hn.
  - intros (Hc & ? & Hn & ? & Hk & ? & H1 & H2 & H3 & H4 & H5 & H6 & H7 & H8 & H9 & H10).
    rewrite bind_Ok. exists c. split; [apply parseUint_Ok; split_and!; auto; lia|].
    rewrite bind_Ok. exists n. split; [apply parseUint_Ok; split_and!; auto; done|].
    rewrite bind_Ok. exists k. split; [apply parseUint_Ok; split_and!; auto; lia|].
    rewrite !seq_Ok, !assertChecksummedAddress_Ok, !assertBytes32_Ok, equal_str,
      !assertUtf8Input_Ok, assert_Ok, negb_true_iff.
    split_and!; auto. exists ZERO_BYTES32. by split.
Qed.

(** The fields of [expected] that the inputs determine. *)
Definition computed (input : value) (chainId issuerNonce schemaVersion : Z)
    : list (jstr * value) :=
  let contentBytesHex := stringToHex (v_str input.["contentUtf8"]) in
  let metadataBytesHex := stringToHex (v_str input.["metadataUtf8"]) in
  let metadataUriBytesHex := stringToHex (v_str input.["metadataUriUtf8"]) in
  let commitmentAbiEncoded := encodeCommitment encode input schemaVersion
    (keccak256 contentBytesHex) (keccak256 metadataBytesHex) (keccak256 metadataUriBytesHex) in
  let commitment := keccak256 commitmentAbiEncoded in
  let attestationIdAbiEncoded := encodeAttestationId encode input chainId issuerNonce commitment in
  ["contentBytesHex" :=: VStr contentBytesHex; "metadataBytesHex" :=: VStr metadataBytesHex;
   "metadataUriBytesHex" :=: VStr metadataUriBytesHex;
   "contentHash" :=: VStr (keccak256 contentBytesHex);
   "metadataHash" :=: VStr (keccak256 metadataBytesHex);
   "metadataUriHash" :=: VStr (keccak256 metadataUriBytesHex);
   "commitmentAbiEncoded" :=: VStr commitmentAbiEncoded; "commitment" :=: VStr commitment;
   "attestationIdAbiEncoded" :=: VStr attestationIdAbiEncoded;
   "attestationId" :=: VStr (keccak256 attestationIdAbiEncoded)].

(** [v] has these fields with these values. *)
Definition agrees_with (v : value) (fields : list (jstr * value)) : Prop :=
  Forall (λ kv, field v (fst kv) = snd kv) fields.

Lemma validateExpected_Ok input expected label c n k :
  viem_formats keccak256 encode stringToHex →
  validateExpected input expected label c n k = Ok () ↔ agrees_with expected (computed input c n k).
Proof.
  intros [Hkec Henc Hhex]. unfold Attestation.validateExpected, agrees_with, computed. cbv zeta.
  rewrite !seq_Ok, !assertHexBytes_Ok, !assertBytes32_Ok, !equal_str, !Forall_cons, Forall_nil.
  cbn [fst snd prop_]. split.
  - intros H. tauto.
  - intros (H1 & H2 & H3 & H4 & H5 & H6 & H7 & H8 & H9 & H10 & _).
    rewrite H1, H2, H3, H4, H5, H6, H7, H8, H9, H10. unfold text_with. split_and!; eauto.
Qed.

(** What a vector must be, apart from its values. *)
Definition vector_shape (v : value) : Prop :=
  is_object v = true ∧ keys v ≡ₚ [js "name"; js "inputs"; js "expected"] ∧
  text_with is_name v.["name"] ∧
  is_object v.["inputs"] = true ∧ keys v.["inputs"] ≡ₚ INPUT_KEYS ∧
  is_object v.["expected"] = true ∧ keys v.["expected"] ≡ₚ EXPECTED_KEYS.

Lemma assertExactKeys_Ok v l label u :
  Attestation.assertExactKeys v l label = Ok u ↔ keys v ≡ₚ l.
Proof.
  unfold Attestation.assertExactKeys. by rewrite assert_Ok, bool_decide_eq_true, sort_strings_eq.
Qed.

Lemma validateVector_Ok i v :
  viem_formats keccak256 encode stringToHex →
  validateVector i v = Ok () ↔
  vector_shape v ∧ ∃ c n k, valid_inputs v.["inputs"] c n k ∧
    agrees_with v.["expected"] (computed v.["inputs"] c n k).
Proof.
  intros Hf. unfold Attestation.validateVector, vector_shape, assertPlainObject. cbv zeta.
  rewrite !seq_Ok, !assert_Ok, !assertExactKeys_Ok, text_with_spec, bind_Ok. split.
  - intros (H1 & H2 & H3 & H4 & H5 & [[c n] k] & Hin%validateInputs_Ok & H).
    rewrite !seq_Ok, !assert_Ok, !assertExactKeys_Ok, validateExpected_Ok in H by done.
    destruct H as (H6 & H7 & H8). split; [tauto|]. by exists c, n, k.
  - intros ((H1 & H2 & H3 & H4 & H5 & H6 & H7) & c & n & k & Hin & Hex). split_and!; try done.
    exists (c, n, k). split; [by apply validateInputs_Ok|].
    by rewrite !seq_Ok, !assert_Ok, !assertExactKeys_Ok, validateExpected_Ok.
Qed.

(** ** ABI words *)

Lemma be_value_snoc b x : be_value (b ++ [x]) = 256 * be_value b + x.
Proof. unfold be_value. by rewrite fold_left_app. Qed.

Lemma be_word_value m z : be_value (be_word m z) = z mod 256 ^ Z.of_nat m.
Proof.
  revert z. induction m as [|m IH]; intros z; [by rewrite Z.mod_1_r|].
  simpl be_word. rewrite be_value_snoc, IH. rewrite Nat2Z.inj_succ, Z.pow_succ_r by lia.
  rewrite Z.rem_mul_r by lia. lia.
Qed.

Lemma be_word_inj x y : 0 ≤ x ≤ UINT256_MAX → 0 ≤ y ≤ UINT256_MAX → be_word 32 x = be_word 32 y → x = y.
Proof.
  intros Hx Hy H. apply (f_equal be_value) in H. rewrite !be_word_value in H.
  change (256 ^ Z.of_nat 32) with (UINT256_MAX + 1) in H. by rewrite !Z.mod_small in H by lia.
Qed.

Lemma app_inv_length {A} (a b c d : list A) :
  length a = length c → a ++ b = c ++ d → a = c ∧ b = d.
Proof. intros Hl H. by apply app_inj_1. Qed.

(** A value that an ABI type admits. *)
Definition fits (t : abi_type) (v : abi_value) : Prop :=
  match t, v with
  | TUint256, AUint z => 0 ≤ z ≤ UINT256_MAX
  | TUint32, AUint z => 0 ≤ z ≤ UINT32_MAX
  | TAddress, AAddress a => is_address_text a = true
  | TBytes32, ABytes32 s => is_bytes32 s = true
  | _, _ => False
  end.

Lemma fits_length t v : fits t v → length (abi_word v) = 32%nat.
Proof.
  destruct t, v; try done; intros H; cbn [abi_word].
  - rewrite length_app, (address_hex s H). done.
  - by apply bytes32_hex.
Qed.

(** Two encodings of fitting values agree only word by word. *)
Lemma words_inj ts l k :
  Forall2 fits ts l → Forall2 fits ts k →
  concat (map abi_word l) = concat (map abi_word k) → Forall2 (λ x y, abi_word x = abi_word y) l k.
Proof.
  intros Hl. revert k. induction Hl as [|t x ts l Hx Hl IH]; intros k Hk.
  { inversion Hk. constructor. }
  inversion Hk as [|? y ? k' Hy Hk']; subst. simpl. intros H.
  apply app_inv_length in H as [H1 H2].
  - constructor; [done|]. by apply IH.
  - by rewrite (fits_length t x), (fits_length t y).
Qed.

(** A string of UTF-16 code units, as every string of the language is. *)
Definition utf16 (s : jstr) : Prop := Forall (λ c, (c < 65536)%N) s.

Definition utf16_texts (input : value) : Prop :=
  utf16 (v_str input.["contentUtf8"]) ∧ utf16 (v_str input.["metadataUtf8"]) ∧
  utf16 (v_str input.["metadataUriUtf8"]).

(** What viem does, in the bytes that the EVM hashes. *)
Record viem_bytes (evm_keccak256 : list Z → list Z) : Prop := {
  keccak_bytes s : hexBytes (keccak256 s) = evm_keccak256 (hexBytes s);
  encode_bytes ps l : Forall2 fits (map abi_ty ps) l →
    hexBytes (encode ps l) = concat (map abi_word l);
  text_bytes s : utf16 s → hexBytes (stringToHex s) = utf8_encode s;
  address_text a : isAddress a = true → is_address_text a = true
}.

Definition word_of (v : value) : abi_value := ABytes32 (v_str v).

(** The values that are encoded for an accepted vector. *)
Definition commitment_values (input : value) (k : Z) : list abi_value :=
  let digest t := ABytes32 (keccak256 (stringToHex (v_str t))) in
  [word_of input.["schemaId"]; AUint k; word_of input.["subject"]; word_of input.["referenceHash"];
   digest input.["contentUtf8"]; digest input.["metadataUtf8"]; digest input.["metadataUriUtf8"];
   word_of input.["supersedes"]].

Definition id_values (input : value) (c n : Z) (commitment : jstr) : list abi_value :=
  [AUint c; AAddress (v_str input.["registry"]); AAddress (v_str input.["issuer"]); AUint n;
   ABytes32 commitment].

Definition commitment_text (input : value) (k : Z) : jstr :=
  keccak256 (encode COMMITMENT_PARAMETERS (commitment_values input k)).

Section fitting.
Context (evm_keccak256 : list Z → list Z).
Context (Hf : viem_formats keccak256 encode stringToHex) (Hb : viem_bytes evm_keccak256).

Lemma text_with_str P v : text_with P v → P (v_str v) = true.
Proof. by intros (s & -> & H). Qed.

Lemma nonzero_is_bytes32 v : text_with nonzero_bytes32 v → is_bytes32 (v_str v) = true.
Proof. intros H%text_with_str. by apply andb_true_iff in H as [H _]. Qed.

Lemma checksummed_fits v : checksummed v → is_address_text (v_str v) = true.
Proof. intros (a & -> & H & _). by apply (address_text _ Hb). Qed.

Lemma commitment_fits input c n k :
  valid_inputs input c n k →
  Forall2 fits (map abi_ty COMMITMENT_PARAMETERS) (commitment_values input k).
Proof.
  intros (_ & _ & _ & _ & _ & Hk & _ & _ & H1 & H2 & H3 & H4 & _).
  repeat constructor; simpl; try (apply (keccak_format _ _ _ Hf)); try lia;
    eauto using nonzero_is_bytes32, text_with_str.
  by rewrite H4.
Qed.

Lemma id_fits input c n k h :
  valid_inputs input c n k → is_bytes32 h = true →
  Forall2 fits (map abi_ty ATTESTATION_ID_PARAMETERS) (id_values input c n h).
Proof.
  intros (_ & Hc & [Hn0 _] & Hn & _ & _ & H1 & H2 & _) Hh.
  repeat constructor; simpl; try done; try lia; by apply checksummed_fits.
Qed.
End fitting.

(** *** The properties *)

(** A vector is accepted exactly when its inputs are well formed (integers in
    their ABI ranges, checksummed nonzero addresses, bytes32 texts, bounded texts,
    nothing superseded) and its expected fields are the ten values computed from
    them: the UTF-8 bytes, their digests, the ABI encodings, the commitment and
    the attestation id. *)
Theorem vector_accepted_iff i v :
  viem_formats keccak256 encode stringToHex →
  validateVector i v = Ok () ↔
  vector_shape v ∧ ∃ chainId issuerNonce schemaVersion,
    valid_inputs v.["inputs"] chainId issuerNonce schemaVersion ∧
    agrees_with v.["expected"] (computed v.["inputs"] chainId issuerNonce schemaVersion).
Proof. apply validateVector_Ok. Qed.

(** Two different texts with one digest. *)
Definition collision : Prop := ∃ x y, x ≠ y ∧ keccak256 x = keccak256 y.

Lemma same_or_collision x y : keccak256 x = keccak256 y → x = y ∨ collision.
Proof. intros H. destruct (decide (x = y)); [by left|]. right. by exists x, y. Qed.

(** What two vectors share that attest the same: the integers, the bytes of
    every address and bytes32, and the UTF-8 bytes of every text. *)
Definition same_attestation (v w : value) : Prop :=
  (∃ c n k, valid_inputs v.["inputs"] c n k ∧ valid_inputs w.["inputs"] c n k) ∧
  Forall (λ key, hexBytes (v_str (field v.["inputs"] key)) = hexBytes (v_str (field w.["inputs"] key)))
    [js "registry"; js "issuer"; js "schemaId"; js "subject"; js "referenceHash"] ∧
  Forall (λ key, utf8_encode (v_str (field v.["inputs"] key)) = utf8_encode (v_str (field w.["inputs"] key)))
    [js "contentUtf8"; js "metadataUtf8"; js "metadataUriUtf8"].

Section binding.
Context (evm_keccak256 : list Z → list Z).
Context (Hf : viem_formats keccak256 encode stringToHex) (Hb : viem_bytes evm_keccak256).

(** Equal digests of the encodings of fitting values: equal words. *)
Lemma encoding_binds ps l l' :
  Forall2 fits (map abi_ty ps) l → Forall2 fits (map abi_ty ps) l' →
  keccak256 (encode ps l) = keccak256 (encode ps l') →
  collision ∨ Forall2 (λ x y, abi_word x = abi_word y) l l'.
Proof.
  intros Hl Hl' [H|H]%same_or_collision; [right|by left].
  apply (words_inj (map abi_ty ps)); [done|done|].
  by rewrite <- (encode_bytes _ Hb ps l), <- (encode_bytes _ Hb ps l'), H by done.
Qed.

(** Equal digest words of two texts: equal UTF-8 bytes. *)
Lemma digest_binds s t :
  utf16 s → utf16 t →
  abi_word (ABytes32 (keccak256 (stringToHex s))) = abi_word (ABytes32 (keccak256 (stringToHex t))) →
  collision ∨ utf8_encode s = utf8_encode t.
Proof.
  intros Hs Ht H. apply hexBytes_inj in H; [|by apply bytes32_hex, (keccak_format _ _ _ Hf)..].
  destruct (same_or_collision _ _ H) as [E|]; [right|by left].
  by rewrite <- !(text_bytes _ Hb), E by done.
Qed.

Lemma address_word_inj a b : abi_word (AAddress a) = abi_word (AAddress b) → hexBytes a = hexBytes b.
Proof. cbn [abi_word]. apply app_inv_head. Qed.

Lemma commitment_binds input input' k k' c n c' n' :
  utf16_texts input → utf16_texts input' →
  valid_inputs input c n k → valid_inputs input' c' n' k' →
  commitment_text input k = commitment_text input' k' →
  collision ∨ k = k' ∧
  Forall (λ key, hexBytes (v_str (field input key)) = hexBytes (v_str (field input' key)))
    [js "schemaId"; js "subject"; js "referenceHash"] ∧
  Forall (λ key, utf8_encode (v_str (field input key)) = utf8_encode (v_str (field input' key)))
    [js "contentUtf8"; js "metadataUtf8"; js "metadataUriUtf8"].
Proof.
  intros (Hu1 & Hu2 & Hu3) (Hu1' & Hu2' & Hu3') Hin Hin' H.
  apply (encoding_binds COMMITMENT_PARAMETERS) in H as [H|H];
    [by left| |by eapply commitment_fits..].
  unfold commitment_values in H. cbv zeta in H. rewrite !Forall2_cons in H.
  destruct H as (H1 & H2 & H3 & H4 & H5 & H6 & H7 & _).
  destruct (digest_binds _ _ Hu1 Hu1' H5) as [|E5]; [by left|].
  destruct (digest_binds _ _ Hu2 Hu2' H6) as [|E6]; [by left|].
  destruct (digest_binds _ _ Hu3 Hu3' H7) as [|E7]; [by left|]. right.
  assert (UINT32_MAX ≤ UINT256_MAX) as Hmax by by vm_compute.
  split; [|by repeat constructor].
  apply be_word_inj; [| |exact H2]; [destruct Hin as (_ & _ & _ & _ & _ & ? & _)|
    destruct Hin' as (_ & _ & _ & _ & _ & ? & _)]; lia.
Qed.

Lemma id_binds input input' h h' k k' c n c' n' :
  valid_inputs input c n k → valid_inputs input' c' n' k' →
  is_bytes32 h = true → is_bytes32 h' = true →
  keccak256 (encodeAttestationId encode input c n h)
  = keccak256 (encodeAttestationId encode input' c' n' h') →
  collision ∨ c = c' ∧ n = n' ∧ h = h' ∧
  Forall (λ key, hexBytes (v_str (field input key)) = hexBytes (v_str (field input' key)))
    [js "registry"; js "issuer"].
Proof.
  intros Hin Hin' Hh Hh' H.
  apply (encoding_binds ATTESTATION_ID_PARAMETERS) in H as [H|H];
    [by left| |by eapply id_fits..].
  rewrite !Forall2_cons in H. destruct H as (H1 & H2 & H3 & H4 & H5 & _). right.
  destruct Hin as (_ & ? & [? _] & ? & _), Hin' as (_ & ? & [? _] & ? & _). split_and!.
  - apply be_word_inj; [lia|lia|exact H1].
  - apply be_word_inj; [lia|lia|exact H4].
  - apply hexBytes_inj in H5; [done|by apply bytes32_hex..].
  - repeat constructor; by apply address_word_inj.
Qed.

Lemma computed_id v c n k :
  agrees_with v.["expected"] (computed v.["inputs"] c n k) →
  v.["expected"].["commitment"] = VStr (commitment_text v.["inputs"] k) ∧
  v.["expected"].["attestationId"]
  = VStr (keccak256 (encodeAttestationId encode v.["inputs"] c n (commitment_text v.["inputs"] k))).
Proof.
  unfold agrees_with, computed. cbv zeta. rewrite !Forall_cons. cbn [fst snd prop_].
  by intros (_ & _ & _ & _ & _ & _ & _ & ? & _ & ? & _).
Qed.

(** An attestation id commits to everything that is attested: two accepted
    vectors with the same id agree on the chain, the registry, the issuer, the
    nonce, the schema and its version, the subject, the reference, and the bytes of
    the content, the metadata and the metadata URI, unless two different texts with
    one keccak256 digest are exhibited. *)
Theorem attestation_id_commits i j v w :
  utf16_texts v.["inputs"] → utf16_texts w.["inputs"] →
  validateVector i v = Ok () → validateVector j w = Ok () →
  v.["expected"].["attestationId"] = w.["expected"].["attestationId"] →
  collision ∨ same_attestation v w.
Proof.
  intros Hu Hu' (_ & c & n & k & Hin & Hv%computed_id)%validateVector_Ok
    (_ & c' & n' & k' & Hin' & Hw%computed_id)%validateVector_Ok E; [|done..].
  rewrite (proj2 Hv), (proj2 Hw) in E. injection E as E.
  apply (id_binds _ _ _ _ k k') in E as [|(-> & -> & Eh & Ha)];
    [by left| |done|done|apply (keccak_format _ _ _ Hf)..].
  destruct (commitment_binds _ _ _ _ _ _ _ _ Hu Hu' Hin Hin' Eh) as [|(-> & H1 & H2)]; [by left|]. right.
  split; [by exists c', n', k'|]. split; [|done]. apply (Forall_app (_) [_; _] [_; _; _]). by split.
Qed.

(** The call the vector's issuer makes on chain. *)
Definition vector_payload (v : value) (k : Z) : payload :=
  let bytes t := hexBytes (v_str t) in
  let digest t := evm_keccak256 (utf8_encode (v_str t)) in
  Payload (bytes v.["inputs"].["schemaId"]) k (bytes v.["inputs"].["subject"])
    (bytes v.["inputs"].["referenceHash"]) (digest v.["inputs"].["contentUtf8"])
    (digest v.["inputs"].["metadataUtf8"]) (digest v.["inputs"].["metadataUriUtf8"])
    (hexBytes ZERO_BYTES32).

Lemma commitment_agrees v c n k :
  utf16_texts v.["inputs"] →
  valid_inputs v.["inputs"] c n k →
  hexBytes (commitment_text v.["inputs"] k) = computeCommitment evm_keccak256 (vector_payload v k).
Proof.
  intros (Hu1 & Hu2 & Hu3) Hin. unfold commitment_text. rewrite (keccak_bytes _ Hb), (encode_bytes _ Hb)
    by by eapply commitment_fits.
  unfold commitment_values, computeCommitment, vector_payload. cbv zeta.
  destruct Hin as (_ & _ & _ & _ & _ & _ & _ & _ & _ & _ & _ & Hz & _).
  cbn [map concat abi_word word_of p_schemaId p_schemaVersion p_subject p_referenceHash
       p_contentHash p_metadataHash p_metadataUriHash p_supersedes].
  rewrite Hz, !(keccak_bytes _ Hb), !(text_bytes _ Hb) by done. cbn [v_str]. by rewrite app_nil_r.
Qed.

Lemma id_agrees v c n k h :
  valid_inputs v.["inputs"] c n k → is_bytes32 h = true →
  hexBytes (keccak256 (encodeAttestationId encode v.["inputs"] c n h))
  = computeAttestationId evm_keccak256 (Domain c (hexBytes (v_str v.["inputs"].["registry"])))
      (hexBytes (v_str v.["inputs"].["issuer"])) n (hexBytes h).
Proof.
  intros Hin Hh. unfold encodeAttestationId. rewrite (keccak_bytes _ Hb), (encode_bytes _ Hb)
    by by eapply id_fits.
  unfold computeAttestationId, address_word. cbn [map concat abi_word chainid this].
  by rewrite app_nil_r, <- !app_assoc.
Qed.

Lemma zero32_hex : hexBytes ZERO_BYTES32 = zero32.
Proof. vm_compute. reflexivity. Qed.

Lemma nonzero_bytes s : text_with nonzero_bytes32 s → hexBytes (v_str s) ≠ zero32.
Proof.
  intros (t & -> & [Ht Hz]%andb_true_iff) E. cbn [v_str] in E. rewrite <- zero32_hex in E.
  apply hexBytes_inj in E; [|by apply bytes32_hex..]. subst t. by rewrite jeq_refl in Hz.
Qed.

(** The digests of the three texts are not zero. *)
Definition digests_nonzero (p : payload) : Prop :=
  p_contentHash p ≠ zero32 ∧ p_metadataHash p ≠ zero32 ∧ p_metadataUriHash p ≠ zero32.

Lemma vector_payload_valid v c n k :
  valid_inputs v.["inputs"] c n k →
  validatePayload (vector_payload v k) = Returns () ↔ digests_nonzero (vector_payload v k).
Proof.
  intros Hin. unfold validatePayload, digests_nonzero.
  destruct Hin as (_ & _ & _ & _ & _ & Hk & _ & _ & Hs%nonzero_bytes & Hsu%nonzero_bytes & _).
  change (p_schemaVersion (vector_payload v k)) with k. replace (k =? 0) with false by lia.
  unfold vector_payload at 1 2. cbn [p_schemaId p_subject].
  rewrite (bool_decide_eq_false_2 _ Hs), (bool_decide_eq_false_2 _ Hsu). cbn [revert_if mbind call_bind]. split.
  - intros H. required H as H1. required H as H2. apply revert_if_Returns in H as H3.
    by apply bool_decide_eq_false in H1, H2, H3.
  - intros (H1 & H2 & H3).
    by rewrite (bool_decide_eq_false_2 _ H1), (bool_decide_eq_false_2 _ H2), (bool_decide_eq_false_2 _ H3).
Qed.

(** C9. The registry contract derives the commitment of an accepted vector. On the
    vector's chain and registry, where the issuer's nonce is one below the
    vector's, the issuer's [attest] of the vector's fields returns the vector's
    attestation id exactly when the three digests are not zero, the payload is
    new, count and time fit, and the id is not zero and free. The validator also
    accepts vectors with nonce 0, and no record ever has that nonce: the contract
    counts from 1. *)
Theorem vector_is_attested i v :
  utf16_texts v.["inputs"] → validateVector i v = Ok () →
  ∃ c n k, valid_inputs v.["inputs"] c n k ∧
    let p := vector_payload v k in
    let dom := Domain c (hexBytes (v_str v.["inputs"].["registry"])) in
    let id := hexBytes (v_str v.["expected"].["attestationId"]) in
    hexBytes (v_str v.["expected"].["commitment"]) = computeCommitment evm_keccak256 p ∧
    (∀ s ctx, sender ctx = hexBytes (v_str v.["inputs"].["issuer"]) → nonce_of s (sender ctx) + 1 = n →
      (∃ s', attest evm_keccak256 dom ctx p s = Returns (s', id)) ↔
      digests_nonzero p ∧ computeReplayKey evm_keccak256 (sender ctx) p ∉ usedPayloads s ∧
      attestationCount s + 1 ≤ UINT256_MAX ∧ timestamp ctx ≤ UINT64_MAX ∧
      id ≠ zero32 ∧ issuer (attestation_at s id) = zero20) ∧
    (n = 0 → ∀ s j a, reachable evm_keccak256 dom s → attestations s !! j = Some a → issuerNonce a ≠ n).
Proof.
  intros Hu (_ & c & n & k & Hin & [Hc Hid]%computed_id)%validateVector_Ok; [|done].
  exists c, n, k. split; [done|]. cbv zeta. rewrite Hc, Hid. cbn [v_str].
  pose proof (commitment_agrees v c n k Hu Hin) as Hcommit. split_and!; [done|..].
  - intros s ctx Hs Hn. rewrite (id_agrees v c n k), Hcommit by (done || apply (keccak_format _ _ _ Hf)).
    rewrite <- (vector_payload_valid v c n k Hin), <- Hs. split.
    + intros [s' (Hv & Hr & _ & _ & Hk & Ht & _ & Hz & Hfree & _)%attest_Returns]. done.
    + intros (Hv & Hr & Hk & Ht & Hz & Hfree). eexists. apply attest_Returns. cbv zeta. rewrite Hn.
      destruct Hin as (_ & _ & _ & Hmax & _). split_and!; try done. left. apply zero32_hex.
  - intros -> s j a Hr%reachable_ok Ha. destruct (ok_record _ _ s Hr _ _ Ha) as (_ & _ & _ & [H _] & _). lia.
Qed.
End binding.
End vectors.

(** ** A concrete vector *)

Definition sample_stringToHex (s : jstr) : jstr := sample_hex (map (λ x, x mod 256) (utf8_encode s)).

Lemma sample_hex_format b : Forall byte b → is_hex_bytes (sample_hex b) = true ∧ length (sample_hex b) = (2 + 2 * length b)%nat.
Proof.
  unfold is_hex_bytes, sample_hex. change (strip_0x (js "0x" +++ ?l)) with (Some l).
  intros [Hl Hf]%hex_of_bytes_format. rewrite Hl, Hf, andb_true_r.
  change (length (js "0x" +++ ?l)) with (S (S (length l))). rewrite Hl. split; [|lia].
  rewrite Nat.even_mul. done.
Qed.

Lemma mod_bytes b : Forall byte (map (λ x, x mod 256) b).
Proof. induction b; simpl; constructor; [unfold byte; Z.div_mod_to_equations; lia|done]. Qed.

Lemma sample_formats : viem_formats sample_keccak256 sample_encode sample_stringToHex.
Proof.
  constructor.
  - intros s. unfold sample_keccak256. pose proof (be_word_bytes 32) as Hb.
    destruct (sample_hex_format (sample_evm_keccak256 (hexBytes s)) (Hb _)) as [Hf Hl].
    unfold is_bytes32, is_hex_bytes, sample_hex in *. change (strip_0x (js "0x" +++ ?l)) with (Some l) in *.
    apply andb_true_iff in Hf as [_ ->]. rewrite andb_true_r. apply Nat.eqb_eq.
    change (length (js "0x" +++ ?l)) with (S (S (length l))) in Hl.
    unfold sample_evm_keccak256 in *. rewrite be_word_length in Hl. lia.
  - intros ps l. apply sample_hex_format. induction l as [|x l IH]; simpl; [constructor|].
    apply Forall_app_2; [apply mod_bytes|done].
  - intros s. apply sample_hex_format, mod_bytes.
Qed.

Lemma utf8_bytes s : utf16 s → Forall byte (utf8_encode s).
Proof.
  assert (∀ x, 0 ≤ x < 1114112 → Forall byte (utf8_point x)) as Hpoint.
  { intros x Hx. unfold utf8_point, byte.
    repeat (match goal with |- context [if ?b then _ else _] => destruct b eqn:? end);
      inv_bool; repeat constructor; Z.div_mod_to_equations; lia. }
  assert (∀ c, (c < 65536)%N → 0 ≤ lone_point c < 1114112) as Hlone.
  { intros c Hc. unfold lone_point, replacement. destruct (_ || _); lia. }
  induction s as [s IH] using (induction_ltof1 _ (@length N)). unfold ltof in IH.
  destruct s as [|h [|l s]]; intros Hs; [constructor|..].
  - apply Forall_cons in Hs as [Hh _]. by apply Hpoint, Hlone.
  - apply Forall_cons in Hs as [Hh Hs]. change (utf8_encode (h :: l :: s)) with
      (if is_high h && is_low l then utf8_point (surrogate_point h l) ++ utf8_encode s
       else utf8_point (lone_point h) ++ utf8_encode (l :: s)).
    destruct (is_high h && is_low l) eqn:E.
    + apply andb_true_iff in E as [E1%in_range_spec E2%in_range_spec].
      apply Forall_app_2; [apply Hpoint; unfold surrogate_point; lia|].
      apply IH; [simpl; lia|]. by apply Forall_cons in Hs as [_ Hs].
    + apply Forall_app_2; [by apply Hpoint, Hlone|]. apply IH; [simpl; lia|done].
Qed.

Lemma sample_bytes :
  viem_bytes sample_keccak256 sample_encode is_address_text sample_stringToHex sample_evm_keccak256.
Proof.
  constructor.
  - intros s. apply hexBytes_sample, be_word_bytes.
  - intros. apply sample_encode_words.
  - intros s Hs. unfold sample_stringToHex. pose proof (utf8_bytes s Hs) as Hb.
    rewrite map_mod_bytes by done. by apply hexBytes_sample.
  - done.
Qed.

Definition sample_input : value := VObj [
  "chainId" :=: vs "1414484556"; "registry" :=: vs "0x1234567890123456789012345678901234567890";
  "issuer" :=: vs "0x5a384227b65fa093dec03ec34e111db80a040615";
  "schemaId" :=: VStr (js "0xf0" +++ repeat 49%N 62); "schemaVersion" :=: vi 1;
  "issuerNonce" :=: vs "1"; "subject" :=: VStr (js "0x1c" +++ repeat 50%N 62);
  "referenceHash" :=: VStr ZERO_BYTES32; "contentUtf8" :=: vs "Torium content bytes v1";
  "metadataUtf8" :=: vs "{}"; "metadataUriUtf8" :=: vs "ipfs://vector"; "supersedes" :=: VStr ZERO_BYTES32].

Definition sample_vector : value := VObj [
  "name" :=: vs "json-key-order-ab"; "inputs" :=: sample_input;
  "expected" :=: VObj (computed sample_keccak256 sample_encode sample_stringToHex sample_input 1414484556 1 1)].

Abbreviation sample_validate :=
  (validateVector sample_keccak256 sample_encode is_address_text Some sample_stringToHex 0).

Lemma sample_vector_accepted : sample_validate sample_vector = Ok ().
Proof. vm_compute. reflexivity. Qed.

Lemma forallb_utf16 s : forallb (λ c, (c <? 65536)%N) s = true → utf16 s.
Proof.
  rewrite forallb_forall. intros H. apply Forall_forall. intros c Hc.
  apply N.ltb_lt, H, list_elem_of_In, Hc.
Qed.

Lemma sample_utf16 : utf16_texts sample_vector.["inputs"].
Proof. unfold utf16_texts. split_and!; apply forallb_utf16; vm_compute; reflexivity. Qed.

(** The sample is accepted; with one field of [expected] changed it is not. *)
Definition tampered_vector : value := VObj [
  "name" :=: vs "json-key-order-ab"; "inputs" :=: sample_input;
  "expected" :=: with_field sample_vector.["expected"] (js "metadataHash") (VStr ZERO_BYTES32)].

Lemma vector_accepted_iff_witness :
  sample_validate sample_vector = Ok () ∧ vector_shape sample_vector ∧
  is_ok (sample_validate tampered_vector) = false.
Proof.
  split; [exact sample_vector_accepted|]. split; [|vm_compute; reflexivity].
  exact (proj1 (proj1 (vector_accepted_iff _ _ is_address_text Some _ 0 sample_vector sample_formats) sample_vector_accepted)).
Defined.

Lemma attestation_id_commits_witness :
  collision sample_keccak256 ∨ same_attestation is_address_text Some sample_vector sample_vector.
Proof.
  exact (attestation_id_commits _ _ is_address_text Some _ _ sample_formats sample_bytes 0 0 sample_vector sample_vector
           sample_utf16 sample_utf16 sample_vector_accepted sample_vector_accepted eq_refl).
Defined.

Lemma reads_uint_dec a z : 0 ≤ a → reads_uint (VStr (dec_of_Z a)) z → z = a.
Proof.
  intros Ha [Hz [E|(n & E & _)]]; [|done]. injection E as E. symmetry. by apply dec_of_Z_inj.
Qed.

Definition sample_issuer : context := Context_ (hexBytes (v_str sample_input.["issuer"])) 1000.
Abbreviation sample_id := (hexBytes (v_str sample_vector.["expected"].["attestationId"])).

Lemma sample_call_conditions k :
  k = 1 →
  digests_nonzero (vector_payload sample_evm_keccak256 sample_vector k) ∧ sample_id ≠ zero32 ∧
  nonce_of deployed (sender sample_issuer) + 1 = 1.
Proof.
  intros ->. unfold digests_nonzero. split_and!; try (vm_compute; reflexivity);
    apply (bool_decide_eq_false_1 (_ = _)); vm_compute; reflexivity.
Qed.

Lemma vector_is_attested_witness :
  ∃ s', attest sample_evm_keccak256 (Domain 1414484556 (hexBytes (v_str sample_input.["registry"])))
          sample_issuer (vector_payload sample_evm_keccak256 sample_vector 1) deployed
        = Returns (s', sample_id).
Proof.
  destruct (vector_is_attested _ _ is_address_text Some _ _ sample_formats sample_bytes 0 sample_vector sample_utf16
              sample_vector_accepted) as (c & n & k & Hin & Hall).
  destruct Hin as (Hc & _ & Hn & _ & Hk & _).
  assert (c = 1414484556) as -> by (apply (reads_uint_dec 1414484556); [lia|exact Hc]).
  assert (n = 1) as -> by (apply (reads_uint_dec 1); [lia|exact Hn]).
  assert (k = 1) as -> by
    (destruct Hk as [_ [E|(m & E & Hm & _)]]; [discriminate E|injection E as <-; by injection Hm]).
  cbv zeta in Hall. destruct Hall as (_ & Hall & _).
  destruct (sample_call_conditions 1 eq_refl) as (Hd & Hz & Hnonce).
  apply (Hall deployed sample_issuer); [reflexivity|exact Hnonce|].
  split_and!; [exact Hd|apply not_elem_of_empty|vm_compute; discriminate|vm_compute; discriminate|exact Hz|reflexivity].
Defined.
