(* ===== verification/JsRegex.v ===== *)
(** Regular expressions with the u flag, as the SDK uses them: a matcher gives,
    in backtracking order, the states it can continue from.  A state keeps the
    code unit before the position, which word boundaries look at, and the text
    from the position on. *)

From S2P Require Import Prelude JsText JsonText.

Open Scope Z_scope.

(** The code unit before, and the rest. *)
Abbreviation cursor := (option N * jstr)%type.
Abbreviation matcher := (cursor → list cursor).

(** One code unit of a class. *)
Definition unit_of (p : N → bool) : matcher := λ s,
  match snd s with
  | c :: r => if p c then [(Some c, r)] else []
  | [] => []
  end.

(** One code point: a class of single units, and whether it has all the points
    above them. *)
Definition point_of (p : N → bool) (above : bool) : matcher := λ s,
  match snd s with
  | h :: l :: r =>
      if is_high h && is_low l then (if above then [(Some l, r)] else [])
      else if p h then [(Some h, l :: r)] else []
  | [c] => if p c then [(Some c, [])] else []
  | [] => []
  end.

Fixpoint literal_of (same : N → N → bool) (pattern : jstr) : matcher := λ s,
  match pattern with
  | [] => [s]
  | c :: pattern' => unit_of (same c) s ≫= literal_of same pattern'
  end.

Definition seq_of (a b : matcher) : matcher := λ s, a s ≫= b.
Definition alt_of (a b : matcher) : matcher := λ s, a s ++ b s.
Definition opt_of (a : matcher) : matcher := λ s, a s ++ [s].

(** Greedy repetition of a matcher that consumes; the length bounds the turns. *)
Fixpoint repeat_of (fuel : nat) (a : matcher) : matcher := λ s,
  match fuel with
  | O => [s]
  | S f => (a s ≫= repeat_of f a) ++ [s]
  end.

Definition star_of (a : matcher) : matcher := λ s, repeat_of (length (snd s)) a s.
Definition plus_of (a : matcher) : matcher := seq_of a (star_of a).

(** At least [n] times. *)
Fixpoint at_least (n : nat) (a : matcher) : matcher :=
  match n with
  | O => star_of a
  | S m => seq_of a (at_least m a)
  end.

Fixpoint choice_of (l : list matcher) : matcher :=
  match l with
  | [] => λ _, []
  | a :: l' => alt_of a (choice_of l')
  end.

(** Classes under the i flag: letters in either case, with the two code units
    outside ASCII that fold to ASCII letters. *)
Definition folds_to (c d : N) : bool :=
  (c =? d)%N || (is_lower c && (upper_char c =? d)%N)
  || ((c =? 115)%N && (d =? 383)%N) || ((c =? 107)%N && (d =? 8490)%N).

Definition is_letter_i (c : N) : bool := is_lower c || is_upper c || (c =? 383)%N || (c =? 8490)%N.
Definition is_hex_i (c : N) : bool := is_hex c.
Definition is_word_i (c : N) : bool := is_letter_i c || is_digit c || (c =? 95)%N.
Definition is_line_end (c : N) : bool := (c =? 10)%N || (c =? 13)%N || (c =? 8232)%N || (c =? 8233)%N.

(** Lower-case text, without and with the i flag. *)
Definition text_of (s : jstr) : matcher := literal_of N.eqb s.
Definition text_i (s : jstr) : matcher := literal_of folds_to s.

Definition not_space : matcher := point_of (λ c, negb (is_space c)) true.
Definition space_of : matcher := unit_of is_space.
Definition dot_of : matcher := point_of (λ c, negb (is_line_end c)) true.

(** [\b] under the i flag. *)
Definition boundary_i : matcher := λ s,
  let before := match fst s with Some c => is_word_i c | None => false end in
  let after := match snd s with c :: _ => is_word_i c | [] => false end in
  if Bool.eqb before after then [] else [s].

(** One step of the search position: a code point. *)
Definition advance (s : cursor) : option (jstr * cursor) :=
  match snd s with
  | [] => None
  | h :: l :: r =>
      if is_high h && is_low l then Some ([h; l], (Some l, r)) else Some ([h], (Some h, l :: r))
  | [c] => Some ([c], (Some c, []))
  end.

(** [regex.test(s)]: a match at some position. *)
Fixpoint test_from (fuel : nat) (a : matcher) (s : cursor) : bool :=
  match a s with
  | _ :: _ => true
  | [] =>
      match fuel, advance s with
      | S f, Some (_, s') => test_from f a s'
      | _, _ => false
      end
  end.

Definition test (a : matcher) (s : jstr) : bool := test_from (length s) a (None, s).

(** [s.replace(regex, r)] with the g flag and a pattern that consumes. *)
Fixpoint replace_from (fuel : nat) (a : matcher) (r : jstr) (s : cursor) : jstr :=
  match fuel with
  | O => snd s
  | S f =>
      match a s with
      | s' :: _ => r +++ replace_from f a r s'
      | [] =>
          match advance s with
          | Some (u, s') => u +++ replace_from f a r s'
          | None => []
          end
      end
  end.

Definition replace_all (a : matcher) (r s : jstr) : jstr := replace_from (S (length s)) a r (None, s).
