(* ===== verification/SdkValue.v ===== *)
(** The values of the SDK (packages/torium-sdk/src): JavaScript values with
    bigints and functions, the SDK's error objects, and what may be thrown. *)

From Stdlib Require Import QArith Qround.
From S2P Require Import Prelude JsNum JsText.

Open Scope Z_scope.

(** [unknown] values.  The only function the SDK calls on one is the [get] of a
    [Headers] object, which returns a string or null. *)
Inductive jsv :=
| JUndef
| JNull
| JBool (b : bool)
| JNum (n : num)
| JBig (z : Z)
| JStr (s : jstr)
| JArr (l : list jsv)
| JObj (fields : list (jstr * jsv))
| JFun (get : jstr → option jstr).

Fixpoint jassoc {A} (k : jstr) (l : list (jstr * A)) : option A :=
  match l with
  | [] => None
  | (k', a) :: l' => if k =s? k' then Some a else jassoc k l'
  end.

(** [v.k] on an object's own properties; undefined elsewhere. *)
Definition jget (v : jsv) (k : jstr) : jsv :=
  match v with
  | JObj fs => default JUndef (jassoc k fs)
  | _ => JUndef
  end.

Definition is_jundef (v : jsv) : bool := match v with JUndef => true | _ => false end.
Definition is_jnullish (v : jsv) : bool := match v with JUndef | JNull => true | _ => false end.
Definition is_jnum (v : jsv) : bool := match v with JNum _ => true | _ => false end.

(** [typeof v === "object" && v !== null]. *)
Definition isObjectLike (v : jsv) : bool := match v with JArr _ | JObj _ => true | _ => false end.

(** [array.includes(n)] for a number. *)
Definition includes_num (n : Z) (l : list jsv) : bool :=
  existsb (λ v, match v with JNum m => num_eqb m (NInt n) | _ => false end) l.

(** An optional property. *)
Definition of_option {A} (f : A → jsv) (o : option A) : jsv :=
  match o with Some a => f a | None => JUndef end.

(** [removeUndefined]: the entries that are not undefined. *)
Definition removeUndefined (fs : list (jstr * jsv)) : jsv :=
  JObj (List.filter (λ kv, negb (is_jundef (snd kv))) fs).

(** [Math.floor(n)], [Math.min(a, b)] for a nonzero [b], and [n * k]. *)
Definition num_floor (n : num) : num :=
  match n with Fin q => Fin (Qfloor q # 1) | _ => n end.

Definition num_min (a b : num) : num :=
  match a, b with
  | NaN, _ | _, NaN => NaN
  | _, _ => if num_ltb a b then a else b
  end.

Definition num_times (n : num) (k : positive) : num :=
  match n with Fin q => num_of_Q (q * (Zpos k # 1)) | _ => n end.

(** [a * b] on finite numbers, with the sign of a zero product. *)
Definition is_negative (n : num) : bool :=
  match n with NegZero | Infinity true => true | Fin q => Qnum q <? 0 | _ => false end.

Definition num_Q (n : num) : Q := match n with Fin q => q | _ => 0 end.

Definition num_mul (a b : num) : num :=
  if is_finite a && is_finite b then
    let q := Qmult (num_Q a) (num_Q b) in
    if Qnum q =? 0 then (if xorb (is_negative a) (is_negative b) then NegZero else NInt 0)
    else num_of_Q q
  else NaN.

(** [Math.round(n)]: half up. *)
Definition num_round (n : num) : num :=
  match n with Fin q => Fin (Qfloor (q + (1 # 2)) # 1) | _ => n end.

(** ** Error objects *)

Inductive cause_code := CodeNum (n : num) | CodeStr (s : jstr).

(** [ToriumErrorCause]. *)
Inductive error_cause := Cause {
  cause_name : jstr;
  cause_message : jstr;
  cause_code_ : option cause_code;
  cause_cause : option error_cause;
}.

(** [ToriumErrorContext], with what an error may lack as options. *)
Inductive operation_kind := Read | Write | Broadcast.
Inductive client_kind := Endpoint | Public | Wallet | Contract.

#[export] Instance operation_kind_eq_dec : EqDecision operation_kind.
Proof. solve_decision. Defined.

Inductive category :=
| Configuration | WrongChain | Transport | RateLimit | Timeout | Cancellation | Rpc | Simulation
| Revert | Nonce | Fee | Funds | Replacement | Compatibility | ContractCategory | Unknown.

#[export] Instance category_eq_dec : EqDecision category.
Proof. solve_decision. Defined.

Record error_context := ErrorContext {
  ctx_operation : option jstr;
  ctx_kind : option operation_kind;
  ctx_clientKind : option client_kind;
  ctx_method : option jstr;
  ctx_chainId : option num;
  ctx_requestId : option jstr;
  ctx_fallback : option category;
}.

Definition no_context : error_context := ErrorContext None None None None None None None.

(** The fields that [ToriumContractError] adds. *)
Record contract_fields := ContractFields {
  cf_contractName : option jstr;
  cf_address : option jstr;
  cf_errorName : option jstr;
  cf_errorArgs : option (list jsv);
}.

(** [ToriumSdkError]; [contract] is present on a [ToriumContractError],
    [endpoint], its expected and actual values, on a
    [ToriumEndpointValidationError]. *)
Record sdk_error := SdkError {
  err_name : jstr;
  err_message : jstr;
  err_code : jstr;
  err_category : category;
  err_context : error_context;
  retryable : bool;
  safeToRetry : bool;
  rpcCode : option num;
  httpStatus : option num;
  retryAfterMs : option num;
  revertData : option jstr;
  revertReason : option jstr;
  issues : option (list jstr);
  err_cause : option error_cause;
  contract : option contract_fields;
  endpoint : option (option jsv * option jsv);
}.

(** What a promise may reject with. *)
Inductive thrown := TSdk (e : sdk_error) | TOther (v : jsv).

Inductive outcome (A : Type) := Done (a : A) | Fails (t : thrown).
Arguments Done {A} _.
Arguments Fails {A} _.

#[export] Instance outcome_ret : MRet outcome := λ A a, Done a.
#[export] Instance outcome_bind : MBind outcome := λ A B f m,
  match m with Done a => f a | Fails t => Fails t end.

(** An error of the language: its class and message. *)
Definition js_error (name message : jstr) : jsv :=
  JObj [(js "name", JStr name); (js "message", JStr message)].
Definition throw_type_error {A} (message : jstr) : outcome A := Fails (TOther (js_error (js "TypeError") message)).
Definition throw_range_error {A} (message : jstr) : outcome A := Fails (TOther (js_error (js "RangeError") message)).

(** [if (b) throw t;]. *)
Definition fail_if (b : bool) (t : thrown) : outcome unit := if b then Fails t else Done ().

(** ** Laws *)

Lemma outcome_bind_Done {A B} (m : outcome A) (f : A → outcome B) b :
  (m ≫= f) = Done b ↔ ∃ a, m = Done a ∧ f a = Done b.
Proof.
  destruct m as [a|t]; split; [eauto|by intros (? & [= <-] & ?)|done|by intros (? & ? & _)].
Qed.

Lemma fail_if_Done b t u : fail_if b t = Done u ↔ b = false.
Proof. destruct u. by destruct b. Qed.
