(* ===== verification/SdkErrors.v ===== *)
(** packages/torium-sdk/src/errors.ts: the SDK's error objects and the
    normalisation of whatever an action rejects with. *)

From S2P Require Import Prelude JsNum JsText JsRegex SdkValue.

Open Scope Z_scope.

(** ** Tables *)

Definition safeCauseNames : list jstr := [
  js "Error"; js "TypeError"; js "RangeError"; js "DOMException"; js "AbortError";
  js "UserRejectedRequestError"; js "TimeoutError"; js "WaitForTransactionReceiptTimeoutError";
  js "LimitExceededRpcError"; js "ChainMismatchError"; js "ChainNotFoundError"; js "SwitchChainError";
  js "ReplacementTransactionUnderpricedError"; js "NonceTooLowError"; js "NonceTooHighError";
  js "FeeCapTooLowError"; js "TipAboveFeeCapError"; js "InsufficientFundsError";
  js "ContractFunctionRevertedError"; js "ExecutionRevertedError"; js "RawContractError";
  js "CallExecutionError"; js "EstimateGasExecutionError"; js "SimulationError";
  js "ContractFunctionZeroDataError"; js "AbiFunctionNotFoundError"; js "HttpRequestError";
  js "WebSocketRequestError"; js "SocketClosedError"; js "NetworkError"; js "FetchError";
  js "InvalidParamsRpcError"; js "InternalRpcError"; js "RpcRequestError"].

Definition safeCauseCodes : list jstr := [
  js "ABORT_ERR"; js "ECONNREFUSED"; js "ECONNRESET"; js "ENETUNREACH"; js "ETIMEDOUT";
  js "EAI_AGAIN"; js "ERR_NETWORK"; js "ERR_CANCELED"; js "ERR_ABORTED"].

Definition category_name (c : category) : jstr :=
  match c with
  | Configuration => js "configuration" | WrongChain => js "wrong-chain" | Transport => js "transport"
  | RateLimit => js "rate-limit" | Timeout => js "timeout" | Cancellation => js "cancellation"
  | Rpc => js "rpc" | Simulation => js "simulation" | Revert => js "revert" | Nonce => js "nonce"
  | Fee => js "fee" | Funds => js "funds" | Replacement => js "replacement"
  | Compatibility => js "compatibility" | ContractCategory => js "contract" | Unknown => js "unknown"
  end.

Definition kind_name (k : operation_kind) : jstr :=
  match k with Read => js "read" | Write => js "write" | Broadcast => js "broadcast" end.

Definition client_name (k : client_kind) : jstr :=
  match k with
  | Endpoint => js "endpoint" | Public => js "public" | Wallet => js "wallet" | Contract => js "contract"
  end.

Definition categoryCode (c : category) : jstr :=
  match c with
  | Configuration => js "TORIUM_CONFIG_INVALID" | WrongChain => js "TORIUM_WRONG_CHAIN"
  | Transport => js "TORIUM_TRANSPORT_FAILED" | RateLimit => js "TORIUM_RATE_LIMITED"
  | Timeout => js "TORIUM_TIMEOUT" | Cancellation => js "TORIUM_CANCELLED" | Rpc => js "TORIUM_RPC_FAILED"
  | Simulation => js "TORIUM_SIMULATION_FAILED" | Revert => js "TORIUM_REVERTED"
  | Nonce => js "TORIUM_NONCE_INVALID" | Fee => js "TORIUM_FEE_INVALID"
  | Funds => js "TORIUM_FUNDS_INSUFFICIENT" | Replacement => js "TORIUM_REPLACEMENT_FAILED"
  | Compatibility => js "TORIUM_COMPATIBILITY_FAILED" | ContractCategory => js "TORIUM_CONTRACT_FAILED"
  | Unknown => js "TORIUM_UNKNOWN_FAILED"
  end.

Definition defaultMessage (c : category) : jstr :=
  match c with
  | Configuration => js "The Torium action configuration is invalid."
  | WrongChain => js "The Torium action is connected to the wrong chain."
  | Transport => js "The Torium transport request failed."
  | RateLimit => js "The Torium RPC request was rate limited."
  | Timeout => js "The Torium action exceeded its timeout."
  | Cancellation => js "The Torium action was cancelled."
  | Rpc => js "The Torium JSON-RPC request failed."
  | Simulation => js "The Torium transaction simulation failed."
  | Revert => js "The Torium EVM execution reverted."
  | Nonce => js "The Torium transaction nonce is invalid."
  | Fee => js "The Torium transaction fee is invalid."
  | Funds => js "The Torium account has insufficient funds."
  | Replacement => js "The Torium transaction replacement failed."
  | Compatibility => js "The Torium endpoint or deployment is incompatible."
  | ContractCategory => js "The Torium contract action failed."
  | Unknown => js "The Torium action failed."
  end.

(** ** Redaction *)

Definition safeCauseName (v : jsv) : jstr :=
  match v with
  | JStr s => if jmem s safeCauseNames then s else js "Error"
  | _ => js "Error"
  end.

Definition safeCauseCode (v : jsv) : option cause_code :=
  match v with
  | JNum n => if is_finite n then Some (CodeNum n) else None
  | JStr s => if jmem s safeCauseCodes then Some (CodeStr s) else None
  | _ => None
  end.

(** The patterns of [sanitizeText]; each starts at a word boundary, but the
    hexadecimal one. *)
Definition url_pattern : matcher :=
  seq_of boundary_i (seq_of (unit_of is_letter_i)
    (seq_of (star_of (unit_of (λ c, is_letter_i c || is_digit c || existsb (N.eqb c) [43; 46; 45]%N)))
       (seq_of (text_of (js "://")) (plus_of not_space)))).

Definition bearer_pattern : matcher :=
  seq_of boundary_i (seq_of (text_i (js "bearer")) (seq_of (plus_of space_of) (plus_of not_space))).

Definition separator : matcher := opt_of (unit_of (λ c, existsb (N.eqb c) [45; 95; 32]%N)).

Definition field_pattern : matcher :=
  seq_of boundary_i
    (seq_of (choice_of [text_i (js "authorization");
               seq_of (text_i (js "api")) (seq_of separator (text_i (js "key")));
               text_i (js "token"); text_i (js "secret"); text_i (js "password"); text_i (js "mnemonic");
               seq_of (text_i (js "private")) (seq_of separator (text_i (js "key")))])
       (seq_of (star_of space_of)
          (seq_of (unit_of (λ c, (c =? 58)%N || (c =? 61)%N))
             (seq_of (star_of space_of) (plus_of not_space))))).

Definition hex_pattern : matcher :=
  seq_of (unit_of (N.eqb 48)) (seq_of (unit_of (folds_to 120)) (at_least 64 (unit_of is_hex_i))).

Definition sanitizeText (s : jstr) : jstr :=
  replace_all hex_pattern (js "[redacted-hex]")
    (replace_all field_pattern (js "[redacted-field]")
       (replace_all bearer_pattern (js "Bearer [redacted]")
          (replace_all url_pattern (js "[redacted-url]") s))).

(** ** Error objects as values *)

Fixpoint cause_value (c : error_cause) : jsv :=
  removeUndefined [
    (js "name", JStr (cause_name c)); (js "message", JStr (cause_message c));
    (js "code", match cause_code_ c with
                | Some (CodeNum n) => JNum n | Some (CodeStr s) => JStr s | None => JUndef
                end);
    (js "cause", match cause_cause c with Some c' => cause_value c' | None => JUndef end)].

(** The properties of an SDK error object. *)
Definition error_fields (e : sdk_error) : list (jstr * jsv) :=
  let c := err_context e in
  [(js "name", JStr (err_name e)); (js "message", JStr (err_message e)); (js "code", JStr (err_code e));
   (js "category", JStr (category_name (err_category e)));
   (js "operation", of_option JStr (ctx_operation c));
   (js "kind", of_option (λ k, JStr (kind_name k)) (ctx_kind c));
   (js "clientKind", of_option (λ k, JStr (client_name k)) (ctx_clientKind c));
   (js "method", of_option JStr (ctx_method c)); (js "chainId", of_option JNum (ctx_chainId c));
   (js "requestId", of_option JStr (ctx_requestId c));
   (js "retryable", JBool (retryable e)); (js "safeToRetry", JBool (safeToRetry e));
   (js "rpcCode", of_option JNum (rpcCode e)); (js "httpStatus", of_option JNum (httpStatus e));
   (js "retryAfterMs", of_option JNum (retryAfterMs e)); (js "revertData", of_option JStr (revertData e));
   (js "revertReason", of_option JStr (revertReason e));
   (js "issues", of_option (λ l, JArr (map JStr l)) (issues e));
   (js "cause", of_option cause_value (err_cause e))].

Definition toJSON (e : sdk_error) : jsv := removeUndefined (error_fields e).

(** [ToriumEndpointValidationError.toJSON]. *)
Definition endpoint_toJSON (e : sdk_error) : jsv :=
  match endpoint e with
  | Some (expected, actual) =>
      removeUndefined (error_fields e ++ [(js "expected", default JUndef expected);
                                          (js "actual", default JUndef actual)])
  | None => toJSON e
  end.

(** The object that was thrown. *)
Definition thrown_value (t : thrown) : jsv :=
  match t with TSdk e => JObj (error_fields e) | TOther v => v end.

Definition toRecord (v : jsv) : jsv := if isObjectLike v then v else JObj [].

(** [toToriumErrorCause], from a depth below 5: nothing of the foreign message
    is kept.  The values are trees, so no object is visited twice. *)
Fixpoint cause_from (left : nat) (v : jsv) : option error_cause :=
  match left with
  | O => None
  | S left' =>
      if is_jnullish v then None
      else
        let r := toRecord v in
        let name := safeCauseName (jget r (js "name")) in
        Some (Cause name (js "Upstream " +++ name +++ js " details were redacted.")
                (safeCauseCode (jget r (js "code"))) (cause_from left' (jget r (js "cause"))))
  end.

Definition toToriumErrorCause (v : jsv) : option error_cause := cause_from 5 v.

(** [ToriumSdkErrorOptions]. *)
Record error_options := ErrorOptions {
  o_code : jstr;
  o_category : category;
  o_message : option jstr;
  o_cause : jsv;
  o_context : error_context;
  o_retryable : bool;
  o_safeToRetry : bool;
  o_rpcCode : option num;
  o_httpStatus : option num;
  o_retryAfterMs : option num;
  o_revertData : option jstr;
  o_revertReason : option jstr;
  o_issues : option (list jstr);
}.

(** The options that give only a code, a category, a message, a cause and a
    context. *)
Definition plain_options (code : jstr) (c : category) (message : jstr) (cause : jsv)
    (context : error_context) (retry : bool) : error_options :=
  ErrorOptions code c (Some message) cause context retry false None None None None None None.

(** The context an error object keeps: all but the fallback category. *)
Definition kept_context (c : error_context) : error_context :=
  ErrorContext (ctx_operation c) (ctx_kind c) (ctx_clientKind c) (ctx_method c) (ctx_chainId c)
    (ctx_requestId c) None.

(** [new ToriumSdkError(options)]. *)
Definition new_ToriumSdkError (o : error_options) : sdk_error :=
  SdkError (js "ToriumSdkError") (default (defaultMessage (o_category o)) (o_message o)) (o_code o)
    (o_category o) (kept_context (o_context o)) (o_retryable o) (o_safeToRetry o) (o_rpcCode o) (o_httpStatus o)
    (o_retryAfterMs o) (o_revertData o) (o_revertReason o) (o_issues o)
    (toToriumErrorCause (o_cause o)) None None.

(** ** Endpoint errors *)

Definition endpointCategory (code : jstr) : category :=
  if code =s? js "TORIUM_ENDPOINT_CONFIG_INVALID" then Configuration
  else if (code =s? js "TORIUM_CHAIN_ID_MISMATCH") || (code =s? js "TORIUM_NETWORK_ID_MISMATCH")
  then WrongChain
  else if code =s? js "TORIUM_RPC_ABORTED" then Cancellation
  else if code =s? js "TORIUM_RPC_REQUEST_FAILED" then Transport
  else if code =s? js "TORIUM_RPC_RESPONSE_INVALID" then Rpc
  else Compatibility.

(** The options of [ToriumEndpointValidationError]. *)
Record endpoint_options := EndpointOptions {
  e_expected : option jsv;
  e_actual : option jsv;
  e_cause : jsv;
  e_context : error_context;
  e_category : option category;
  e_retryable : option bool;
  e_rpcCode : option num;
  e_httpStatus : option num;
  e_retryAfterMs : option num;
}.

Definition new_ToriumEndpointValidationError (code message : jstr) (o : endpoint_options) : sdk_error :=
  let category := default (endpointCategory code) (e_category o) in
  let retry := default (code =s? js "TORIUM_RPC_REQUEST_FAILED") (e_retryable o) in
  let c := e_context o in
  let context := ErrorContext (Some (default (js "validateToriumEndpoint") (ctx_operation c))) (Some Read)
    (Some (default Endpoint (ctx_clientKind c))) (ctx_method c) (ctx_chainId c) (ctx_requestId c) None in
  SdkError (js "ToriumEndpointValidationError") message code category context retry retry
    (e_rpcCode o) (e_httpStatus o) (e_retryAfterMs o) None None None
    (toToriumErrorCause (e_cause o)) None (Some (e_expected o, e_actual o)).

(** ** Normalisation *)

Record error_record := ErrorRecord { rec_value : jsv; rec_name : jstr; rec_message : jstr }.

Definition text_or (d : jstr) (v : jsv) : jstr := match v with JStr s => s | _ => d end.

(** [errorChain]: at most eight causes. *)
Fixpoint chain_from (left : nat) (v : jsv) : list error_record :=
  match left with
  | O => []
  | S left' =>
      if is_jnullish v then []
      else
        let value := toRecord v in
        ErrorRecord value (text_or (js "Error") (jget value (js "name")))
          (text_or [] (jget value (js "message")))
        :: chain_from left' (jget value (js "cause"))
  end.

Definition errorChain (v : jsv) : list error_record := chain_from 8 v.

Definition firstNumber (chain : list error_record) (key : jstr) : option num :=
  match List.find (λ n, is_finite n)
          (omap (λ r, match jget (rec_value r) key with JNum n => Some n | _ => None end) chain) with
  | Some n => Some n
  | None => None
  end.

Definition firstSafeString (chain : list error_record) (key : jstr) : option jstr :=
  head (omap (λ r, match jget (rec_value r) key with
                   | JStr s => Some (sanitizeText s) | _ => None end) chain).

(** The pattern of revert data. *)
Definition is_hex_data (s : jstr) : bool :=
  match s with
  | 48%N :: x :: ds => ((x =? 120)%N || (x =? 88)%N) && forallb is_hex_i ds
  | _ => false
  end.

Definition firstRevertData (chain : list error_record) : option jstr :=
  head (omap (λ v, match v with
                   | JStr s => if is_hex_data s && (jlen s <=? 131074) then Some s else None
                   | _ => None end)
          (chain ≫= λ r, let data := jget (rec_value r) (js "data") in
             [jget (rec_value r) (js "raw"); data; jget (toRecord data) (js "data")])).

Definition maximumRetryAfter : num := NInt 30000.

(** What one record says about when to retry. *)
Definition record_retry_after (value : jsv) : option num :=
  let from_headers :=
    match jget (toRecord (jget value (js "headers"))) (js "get") with
    | JFun get =>
        let seconds := match get (js "retry-after") with
                       | Some s => num_of_string s | None => NInt 0 end in
        if is_finite seconds && num_leb (NInt 0) seconds
        then Some (num_min (num_floor (num_times seconds 1000)) maximumRetryAfter) else None
    | _ => None
    end in
  match jget value (js "retryAfterMs") with
  | JNum direct =>
      if is_finite direct && num_leb (NInt 0) direct
      then Some (num_min (num_floor direct) maximumRetryAfter) else from_headers
  | _ => from_headers
  end.

Definition getRetryAfterMs (chain : list error_record) : option num :=
  head (omap (λ r, record_retry_after (rec_value r)) chain).

Definition isTransient (c : category) (rpc http : option num) : bool :=
  let among l n := existsb (λ z, num_eqb n (NInt z)) l in
  match c with
  | Transport => match http with
                 | None => true
                 | Some n => among [408; 429; 500; 502; 503; 504] n
                 end
  | RateLimit | Timeout => true
  | Rpc => among [-32603; -32002; -32005] (default (NInt 0) rpc)
  | _ => false
  end.

Definition valid_label (s : jstr) : bool :=
  negb ((jlen s <? 1) || (96 <? jlen s))
  && forallb (λ c, is_letter_i c || is_digit c || existsb (N.eqb c) [95; 46; 58; 45]%N) s.

(** The labels that [assertContext] and [validateExecutionContext] go through. *)
Definition context_labels (c : error_context) : list (option jstr) :=
  [ctx_operation c; ctx_method c; ctx_requestId c].

Definition assertContext (c : error_context) : outcome unit :=
  match List.find (λ lv : jstr * option jstr,
          match snd lv with Some s => negb (valid_label s) | None => false end)
          (zip [js "operation"; js "method"; js "requestId"] (context_labels c)) with
  | Some (label, _) => throw_type_error (js "Torium diagnostic " +++ label +++ js " is invalid.")
  | None => Done ()
  end.

Section classify.
(** [String.prototype.toLowerCase], whose tables are Unicode's. *)
Context (toLowerCase : jstr → jstr).

Definition classify (chain : list error_record) (context : error_context) : category :=
  let names := map (λ r, toLowerCase (rec_name r)) chain in
  let messages := map (λ r, toLowerCase (rec_message r)) chain in
  let codes := map (λ r, jget (rec_value r) (js "code")) chain in
  let statuses := map (λ r, jget (rec_value r) (js "status")) chain in
  let hasName l := existsb (λ name, existsb (λ p, includes p name) l) names in
  let hasMessage l := existsb (λ message, existsb (λ p, includes p message) l) messages in
  let matches p := existsb (test p) messages in
  let rate_limit := seq_of (text_of (js "rate")) (seq_of (opt_of dot_of) (text_of (js "limit"))) in
  let chain_id := seq_of (text_of (js "chain id")) (seq_of (plus_of dot_of) (text_of (js "does not match"))) in
  if hasName [js "abort"; js "userrejectedrequest"] || includes_num 4001 codes
     || hasMessage [js "user rejected"; js "request rejected by user"] then Cancellation
  else if hasName [js "timeout"] || hasMessage [js "time out"; js "timed out"; js "timeout"] then Timeout
  else if includes_num (-32005) codes || includes_num 429 statuses
          || hasName [js "limitexceeded"; js "ratelimit"]
          || matches rate_limit || hasMessage [js "too many requests"] then RateLimit
  else if hasName [js "chainmismatch"; js "chainnotfound"; js "switchchain"]
          || matches chain_id
          || hasMessage [js "wrong chain"; js "chain mismatch"; js "does not match the configured chain";
                         js "must use the same chain"] then WrongChain
  else if existsb (λ p, includes p (default [] (head names))) [js "typeerror"; js "rangeerror"]
  then Configuration
  else if hasName [js "replacement"]
          || hasMessage [js "replacement transaction underpriced"; js "transaction replaced"] then Replacement
  else if hasName [js "nonce"]
          || hasMessage [js "nonce too low"; js "nonce too high"; js "nonce mismatch"; js "transaction nonce"]
  then Nonce
  else if hasName [js "fee"; js "tipabovefeecap"]
          || hasMessage [js "fee cap"; js "priority fee"; js "transaction fee"] then Fee
  else if hasName [js "insufficientfunds"] || hasMessage [js "insufficient funds"] then Funds
  else if hasName [js "contractfunctionreverted"; js "executionreverted"; js "rawcontract"]
          || hasMessage [js "execution reverted"; js "revert"] then Revert
  else if hasName [js "httprequest"; js "websocketrequest"; js "socketclosed"; js "network"; js "fetch"]
          || hasMessage [js "transport unavailable"; js "network error"; js "fetch failed"; js "offline";
                         js "connection closed"; js "connection refused"; js "connection reset"]
          || existsb is_jnum statuses then Transport
  else if hasName [js "rpc"] || existsb is_jnum codes then Rpc
  else if hasName [js "callexecution"; js "estimategasexecution"; js "simulation"] then Simulation
  else if hasName [js "contractfunction"; js "abifunction"; js "contract"] then ContractCategory
  else default Unknown (ctx_fallback context).

Definition is_read (c : error_context) : bool := bool_decide (ctx_kind c = Some Read).

Definition normalizeToriumError (error : thrown) (context : error_context) : outcome sdk_error :=
  assertContext context;;
  match error with
  | TSdk e => Done e
  | TOther v =>
      let chain := errorChain v in
      let category := classify chain context in
      let rpc := firstNumber chain (js "code") in
      let http := firstNumber chain (js "status") in
      let retry := isTransient category rpc http in
      Done (new_ToriumSdkError
        (ErrorOptions (categoryCode category) category (Some (defaultMessage category)) v
           context retry (is_read context && retry) rpc http (getRetryAfterMs chain)
           (firstRevertData chain) (firstSafeString chain (js "reason")) None))
  end.
End classify.
