(* ===== verification/SdkErrorFacts.v ===== *)
(** What a normalised SDK error may carry of the foreign error it came from. *)

From S2P Require Import Prelude JsNum JsText JsRegex SdkValue SdkErrors.

Open Scope Z_scope.

(** The codes a cause may keep. *)
Definition safe_code (c : cause_code) : Prop :=
  match c with CodeNum n => is_finite n = true | CodeStr s => s ∈ safeCauseCodes end.

(** A cause with only listed names, fixed messages and safe codes, at most
    [depth] deep. *)
Fixpoint redacted (depth : nat) (c : error_cause) : Prop :=
  match depth with
  | O => False
  | S depth' =>
      cause_name c ∈ safeCauseNames ∧
      cause_message c = js "Upstream " +++ cause_name c +++ js " details were redacted." ∧
      match cause_code_ c with None => True | Some k => safe_code k end ∧
      match cause_cause c with None => True | Some c' => redacted depth' c' end
  end.

Lemma safeCauseName_listed v : safeCauseName v ∈ safeCauseNames.
Proof.
  assert (js "Error" ∈ safeCauseNames) as He by (by apply jmem_spec).
  destruct v; try exact He. unfold safeCauseName. destruct (jmem s safeCauseNames) eqn:E; [|exact He].
  by apply jmem_spec.
Qed.

Lemma safeCauseCode_safe v k : safeCauseCode v = Some k → safe_code k.
Proof.
  destruct v; try done; unfold safeCauseCode.
  - destruct (is_finite n) eqn:E; [|done]. by intros [= <-].
  - destruct (jmem s safeCauseCodes) eqn:E; [|done]. intros [= <-]. by apply jmem_spec.
Qed.

Lemma cause_from_redacted left v c : cause_from left v = Some c → redacted left c.
Proof.
  revert v c. induction left as [|left IH]; intros v c; [done|].
  cbn [cause_from]. destruct (is_jnullish v); [done|]. intros [= <-].
  cbn [redacted cause_name cause_message cause_code_ cause_cause]. split_and!.
  - apply safeCauseName_listed.
  - done.
  - destruct (safeCauseCode _) eqn:E; [|done]. by eapply safeCauseCode_safe.
  - destruct (cause_from left _) eqn:E; [|done]. by eapply IH.
Qed.

(** Every cause an SDK error is built with is redacted. *)
Lemma new_error_redacted o c : err_cause (new_ToriumSdkError o) = Some c → redacted 5 c.
Proof. apply cause_from_redacted. Qed.

(** ** Traces of a value *)

(** [firstSafeString] only returns sanitised text. *)
Lemma firstSafeString_sanitized chain key s :
  firstSafeString chain key = Some s → ∃ t, s = sanitizeText t.
Proof.
  unfold firstSafeString. induction chain as [|r chain IH]; [done|]. cbn [omap list_omap].
  destruct (jget (rec_value r) key); try exact IH. cbn [head]. intros [= <-]. by eexists.
Qed.

Lemma firstRevertData_hex chain s :
  firstRevertData chain = Some s → is_hex_data s = true ∧ (jlen s <=? 131074) = true.
Proof.
  unfold firstRevertData.
  match goal with |- context [omap _ ?vs] => generalize vs end.
  intros l. induction l as [|v l IH]; [done|]. cbn [omap list_omap].
  destruct v; try exact IH. destruct (is_hex_data s0 && _) eqn:E; [|exact IH].
  intros [= <-]. by apply andb_prop in E.
Qed.


(** C32. A foreign error comes out of the normalisation with a listed name, code
    and message of its category; its cause has only listed names, fixed
    messages and safe codes, at most five deep; a reason is sanitised text and
    revert data is at most 65,536 bytes of hexadecimal. *)
Theorem normalized_error_redacted lower v context e :
  normalizeToriumError lower (TOther v) context = Done e →
  err_name e = js "ToriumSdkError" ∧
  err_code e = categoryCode (err_category e) ∧
  err_message e = defaultMessage (err_category e) ∧
  (∀ c, err_cause e = Some c → redacted 5 c) ∧
  (∀ s, revertReason e = Some s → ∃ t, s = sanitizeText t) ∧
  (∀ s, revertData e = Some s → is_hex_data s = true ∧ jlen s ≤ 2 + 2 * 65536) ∧
  (safeToRetry e = true → ctx_kind (err_context e) = Some Read ∧ retryable e = true).
Proof.
  unfold normalizeToriumError. intros (? & _ & [= <-])%outcome_bind_Done. split_and!; try done.
  - apply cause_from_redacted.
  - apply firstSafeString_sanitized.
  - intros s [? ?%Z.leb_le]%firstRevertData_hex. split; [done|lia].
  - cbn. unfold is_read. intros [Hr%bool_decide_eq_true Ht]%andb_prop. by rewrite Ht.
Qed.

Lemma normalized_error_redacted_witness :
  let v := JObj [(js "name", JStr (js "HttpRequestError"));
                 (js "message", JStr (js "fetch failed: https://key@host"));
                 (js "code", JStr (js "SECRET"));
                 (js "cause", JObj [(js "name", JStr (js "Weird")); (js "code", JStr (js "ETIMEDOUT"))])] in
  ∃ e c, normalizeToriumError (λ s, s) (TOther v) no_context = Done e ∧ err_cause e = Some c ∧
    cause_name c = js "HttpRequestError" ∧ redacted 5 c.
Proof.
  intros v. eexists _, _. split; [reflexivity|]. split; [vm_compute; reflexivity|].
  split; [vm_compute; reflexivity|].
  refine (proj1 (proj2 (proj2 (proj2 (normalized_error_redacted (λ s, s) v no_context _ _)))) _ _);
    [reflexivity|vm_compute; reflexivity].
Defined.
