(* ===== verification/SdkExecution.v ===== *)
(** packages/torium-sdk/src/internal/execution.ts: how the SDK runs an action,
    with its timeout, cancellation, retries and diagnostics.

    The model is a loop over a world [W] that time, timers, the caller's signal
    and the endpoint move; the trace records the calls of the action and the
    diagnostic events. *)

From Stdlib Require Import QArith.
From S2P Require Import Prelude JsNum JsText JsOps SdkValue SdkErrors.

Open Scope Z_scope.

Definition maximumReadAttempts : Z := 3.
Definition maximumTimeoutMs : Z := 300000.
Definition maximumBackoffMs : Z := 30000.

(** [ToriumReadRetryOptions] and [ToriumReadActionOptions]; whether a signal is
    given is kept apart from its state, which the world holds. *)
Record retry_options := RetryOptions {
  opt_maxAttempts : option num;
  opt_baseDelayMs : option num;
  opt_maximumDelayMs : option num;
  opt_jitterRatio : option num;
}.

Record action_options := ActionOptions {
  has_signal : bool;
  opt_timeoutMs : option num;
  opt_requestId : option jstr;
  opt_retry : option retry_options;
}.

Definition default_options : action_options := ActionOptions false None None None.

Record ValidatedRetry := MkRetry {
  maxAttempts : num;
  baseDelayMs : num;
  maximumDelayMs : num;
  jitterRatio : num;
}.

(** ** Validation *)

Definition validateTimeout (v : option num) : outcome (option num) :=
  match v with
  | None => Done None
  | Some n =>
      if negb (is_safe_integer n) || num_ltb n (NInt 1) || num_ltb (NInt maximumTimeoutMs) n
      then throw_type_error (js "Torium action timeout must be an integer from 1 through "
                             +++ dec_of_Z maximumTimeoutMs +++ js ".")
      else Done (Some n)
  end.

Definition check_delay (label : jstr) (n : num) : outcome unit :=
  if negb (is_safe_integer n) || num_ltb n (NInt 0) || num_ltb (NInt maximumBackoffMs) n
  then throw_type_error (js "Torium read retry " +++ label +++ js " must be from 0 through "
                         +++ dec_of_Z maximumBackoffMs +++ js ".")
  else Done ().

(** The default jitter, the double nearest to 0.2. *)
Definition default_jitter : num := num_of_Q (1 # 5).

Definition validateRetry (v : option retry_options) : outcome ValidatedRetry :=
  let given f d := default d (o ← v; f o) in
  let retry := MkRetry (given opt_maxAttempts (NInt 1)) (given opt_baseDelayMs (NInt 150))
                 (given opt_maximumDelayMs (NInt 2000)) (given opt_jitterRatio default_jitter) in
  (if negb (is_integer (maxAttempts retry)) || num_ltb (maxAttempts retry) (NInt 1)
      || num_ltb (NInt maximumReadAttempts) (maxAttempts retry)
   then throw_type_error (js "Torium read retry attempts must be from 1 through 3.") else Done ());;
  check_delay (js "base delay") (baseDelayMs retry);;
  check_delay (js "maximum delay") (maximumDelayMs retry);;
  (if num_ltb (maximumDelayMs retry) (baseDelayMs retry)
   then throw_type_error (js "Torium read retry maximum delay is below its base delay.") else Done ());;
  (if negb (is_finite (jitterRatio retry)) || num_ltb (jitterRatio retry) (NInt 0)
      || num_ltb (NInt 1) (jitterRatio retry)
   then throw_type_error (js "Torium read retry jitter ratio must be from 0 through 1.") else Done ());;
  Done retry.

(** An error of this module: no retry is safe. *)
Definition control_options (code : jstr) (c : category) (message : jstr) (cause : jsv)
    (context : error_context) (retry : bool) : sdk_error :=
  new_ToriumSdkError (plain_options code c message cause context retry).

Definition configurationError (cause : thrown) (context : error_context) : sdk_error :=
  control_options (js "TORIUM_CONFIG_INVALID") Configuration
    (js "The Torium action controls are invalid.") (thrown_value cause) context false.

Definition without_method (c : error_context) : error_context :=
  ErrorContext (ctx_operation c) (ctx_kind c) (ctx_clientKind c) None (ctx_chainId c) None None.

Definition without_request (c : error_context) : error_context :=
  ErrorContext (ctx_operation c) (ctx_kind c) (ctx_clientKind c) (ctx_method c) (ctx_chainId c) None None.

Definition validateExecutionContext (c : error_context) : outcome unit :=
  match List.find (λ lv : jstr * option jstr,
          match snd lv with Some s => negb (valid_label s) | None => false end)
          (zip [js "operation"; js "method"; js "request ID"] (context_labels c)) with
  | Some (label, _) =>
      Fails (TSdk (control_options (js "TORIUM_CONFIG_INVALID") Configuration
        (js "The Torium action " +++ label +++ js " is invalid.") JUndef
        (if label =s? js "method" then without_method c else without_request c) false))
  | None => Done ()
  end.

Definition or_else {A} (a b : option A) : option A := match a with Some _ => a | None => b end.

(** Outside reads no error is safe to retry. *)
Definition enforceOperationSafety (e : sdk_error) (c : error_context) : sdk_error :=
  if is_read c || negb (safeToRetry e) then e
  else
    let ec := err_context e in
    new_ToriumSdkError (ErrorOptions (err_code e) (err_category e) (Some (err_message e))
      (of_option cause_value (err_cause e))
      (ErrorContext (ctx_operation c) (ctx_kind c) (or_else (ctx_clientKind c) (ctx_clientKind ec))
         (or_else (ctx_method c) (ctx_method ec)) (or_else (ctx_chainId c) (ctx_chainId ec))
         (or_else (ctx_requestId c) (ctx_requestId ec)) None)
      (retryable e) false (rpcCode e) (httpStatus e) (retryAfterMs e) (revertData e) (revertReason e)
      (issues e)).

(** [controlError]. *)
Definition timeoutError (c : error_context) : sdk_error :=
  control_options (js "TORIUM_TIMEOUT") Timeout (js "The Torium action exceeded its timeout.") JUndef
    (kept_context c) true.
Definition cancellationError (c : error_context) : sdk_error :=
  control_options (js "TORIUM_CANCELLED") Cancellation (js "The Torium action was cancelled.") JUndef
    (kept_context c) false.

(** ** Backoff *)

(** [retryDelay]; [random] is what Math.random() gives. *)
Definition retryDelay (retry : ValidatedRetry) (failure : Z) (after : option num) (random : num) : num :=
  let exponential :=
    num_min (num_mul (baseDelayMs retry) (NInt (2 ^ Z.max (failure - 1) 0))) (maximumDelayMs retry) in
  let jitter := num_mul (num_mul exponential (jitterRatio retry))
                  (num_add (num_mul random (NInt 2)) (NInt (-1))) in
  let delay := match after with Some n => n | None => num_round (num_add exponential jitter) end in
  num_min (num_max (NInt 0) delay) (NInt maximumBackoffMs).

(** ** Diagnostics *)

Inductive phase := PStart | PRetry | PSuccess | PFailure.

#[export] Instance phase_eq_dec : EqDecision phase.
Proof. solve_decision. Defined.

Record diagnostic := Diagnostic {
  d_phase : phase;
  d_attempt : Z;
  d_durationMs : Z;
  d_error : option sdk_error;
}.

Definition phase_name (p : phase) : jstr :=
  match p with
  | PStart => js "start" | PRetry => js "retry" | PSuccess => js "success" | PFailure => js "failure"
  end.

(** The event object that [event] builds. *)
Definition event_value (c : error_context) (d : diagnostic) : jsv :=
  let of_error {A} (f : sdk_error → option A) (g : A → jsv) := of_option g (e ← d_error d; f e) in
  removeUndefined [
    (js "schemaVersion", JNum (NInt 1)); (js "sdkVersion", JStr (js "0.1.3"));
    (js "policyVersion", JStr (js "0.1.0")); (js "phase", JStr (phase_name (d_phase d)));
    (js "clientKind", JStr (client_name (default Public (ctx_clientKind c))));
    (js "operation", of_option JStr (ctx_operation c)); (js "method", of_option JStr (ctx_method c));
    (js "chainId", of_option JNum (ctx_chainId c)); (js "requestId", of_option JStr (ctx_requestId c));
    (js "attempt", JNum (NInt (d_attempt d))); (js "durationMs", JNum (NInt (d_durationMs d)));
    (js "code", of_error (λ e, Some (err_code e)) JStr);
    (js "category", of_error (λ e, Some (category_name (err_category e))) JStr);
    (js "retryable", of_error (λ e, Some (retryable e)) JBool);
    (js "rpcCode", of_error rpcCode JNum); (js "httpStatus", of_error httpStatus JNum);
    (js "retryAfterMs", of_error retryAfterMs JNum)].

(** What happens, in order: calls of the action, events, and waits. *)
Inductive entry := Called (attempt : Z) | Emitted (d : diagnostic) | Waited (delay : num).

Section execution.
Context (toLowerCase : jstr → jstr).
(** The world: whether the caller's signal is aborted and the timer has fired,
    the clock, Math.random(), and the wait of [waitForRetry], which ends when the
    delay has passed or the operation is aborted. *)
Context (W : Type).
Context (user_aborted timer_fired : W → bool).
Context (now : W → Z) (random : W → num) (wait : num → W → W).

(** ** The operation's signal *)

(** What [createOperationSignal] is given. *)
Record operation := Operation { op_signal : bool; op_timeout : bool }.

Definition timed_out (o : operation) (w : W) : bool := op_timeout o && timer_fired w.

(** [operation.signal.aborted]. *)
Definition aborted (o : operation) (w : W) : bool := (op_signal o && user_aborted w) || timed_out o w.

Definition throwIfAborted (o : operation) (w : W) : outcome unit :=
  if aborted o w then
    Fails (TSdk (if timed_out o w then timeoutError no_context else cancellationError no_context))
  else Done ().

(** [operation.normalize]: with a signal alone, an endpoint's own abort is kept
    and cancellation comes before other errors; otherwise a timeout comes first
    and cancellation last. *)
Definition normalize (o : operation) (w : W) (t : thrown) (c : error_context) : outcome sdk_error :=
  if op_signal o && negb (op_timeout o) then
    match t with
    | TSdk e =>
        if err_code e =s? js "TORIUM_RPC_ABORTED" then Done e
        else if aborted o w then Done (cancellationError c) else Done e
    | TOther _ => if aborted o w then Done (cancellationError c) else normalizeToriumError toLowerCase t c
    end
  else if timed_out o w then Done (timeoutError c)
  else match t with
       | TSdk e => Done e
       | TOther _ => if aborted o w then Done (cancellationError c) else normalizeToriumError toLowerCase t c
       end.

(** [raceAbort]: an abort before the action settles decides the race. *)
Definition raceAbort {T} (o : operation) (r : outcome T) (w : W) : outcome T :=
  if aborted o w then Fails (TSdk (cancellationError no_context)) else r.

Definition waitForRetry (o : operation) (delay : num) (w : W) : outcome unit * W :=
  if aborted o w then (Fails (TSdk (cancellationError no_context)), w)
  else
    let w' := wait delay w in
    (if aborted o w' then Fails (TSdk (cancellationError no_context)) else Done (), w').

(** ** The loop *)

Definition out_of_attempts : thrown := TOther (js_error (js "Error") (js "out of attempts")).

Section run.
Context {T : Type}.
(** The action, given the operation's signal and the attempt. *)
Context (action : (W → bool) → Z → W → outcome T * W).
Context (o : operation) (c : error_context) (retry : ValidatedRetry) (allowRetry : bool).
Context (startedAt : Z).

Definition event (w : W) (p : phase) (attempt : Z) (e : option sdk_error) : entry :=
  Emitted (Diagnostic p attempt (Z.max 0 (now w - startedAt)) e).

(** One turn up to the outcome of the action. *)
Definition attempt_once (attempt : Z) (w : W) : outcome T * W * list entry :=
  match throwIfAborted o w with
  | Fails t => (Fails t, w, [])
  | Done _ =>
      let '(r, w') := action (aborted o) attempt w in
      (if op_timeout o || op_signal o then raceAbort o r w' else r, w', [Called attempt])
  end.

(** Normalise an error and make it safe; an error of the normalisation itself
    is thrown as it is. *)
Definition normalized (w : W) (t : thrown) : outcome sdk_error :=
  e ← normalize o w t c; Done (enforceOperationSafety e c).

Definition may_retry (w : W) (attempt : Z) (e : sdk_error) : bool :=
  allowRetry && safeToRetry e && negb (num_leb (maxAttempts retry) (NInt attempt)) && negb (aborted o w).

Fixpoint run_from (left : nat) (attempt : Z) (w : W) : outcome T * W * list entry :=
  match left with
  | O => (Fails out_of_attempts, w, [])
  | S left' =>
      let '(r, w1, called) := attempt_once attempt w in
      match r with
      | Done a => (Done a, w1, called ++ [event w1 PSuccess attempt None])
      | Fails t =>
          match normalized w1 t with
          | Fails t' => (Fails t', w1, called)
          | Done e =>
              if negb (may_retry w1 attempt e) then
                (Fails (TSdk e), w1, called ++ [event w1 PFailure attempt (Some e)])
              else
                let next := attempt + 1 in
                let delay := retryDelay retry (next - 1) (retryAfterMs e) (random w1) in
                let trace := called ++ [event w1 PRetry next (Some e); Waited delay] in
                let '(waited, w2) := waitForRetry o delay w1 in
                match waited with
                | Fails t2 =>
                    match normalized w2 t2 with
                    | Fails t' => (Fails t', w2, trace)
                    | Done e2 => (Fails (TSdk e2), w2, trace ++ [event w2 PFailure next (Some e2)])
                    end
                | Done _ =>
                    let '(r', w', rest) := run_from left' next w2 in (r', w', trace ++ rest)
                end
          end
      end
  end.
End run.

Definition runAction {T} (action : (W → bool) → Z → W → outcome T * W) (context : error_context)
    (options : action_options) (allowRetry : bool) (w : W) : outcome T * W * list entry :=
  let c := ErrorContext (ctx_operation context) (ctx_kind context) (ctx_clientKind context)
             (ctx_method context) (ctx_chainId context)
             (or_else (opt_requestId options) (ctx_requestId context)) (ctx_fallback context) in
  match validateExecutionContext c with
  | Fails t => (Fails t, w, [])
  | Done _ =>
      match timeoutMs ← validateTimeout (opt_timeoutMs options);
            retry ← validateRetry (if allowRetry then opt_retry options else None);
            Done (timeoutMs, retry) with
      | Fails t => (Fails (TSdk (configurationError t c)), w, [])
      | Done (timeoutMs, retry) =>
          let startedAt := now w in
          let o := Operation (has_signal options) (bool_decide (is_Some timeoutMs)) in
          let start := event startedAt w PStart 1 None in
          let '(r, w', trace) :=
            run_from action o c retry allowRetry startedAt (Z.to_nat (num_Z (maxAttempts retry))) 1 w in
          (r, w', start :: trace)
      end
  end.

Definition with_kind (k : operation_kind) (c : error_context) : error_context :=
  ErrorContext (ctx_operation c) (Some k) (ctx_clientKind c) (ctx_method c) (ctx_chainId c)
    (ctx_requestId c) (ctx_fallback c).

Definition runToriumReadAction {T} (action : (W → bool) → Z → W → outcome T * W)
    (context : error_context) (options : action_options) (w : W) : outcome T * W * list entry :=
  runAction action (with_kind Read context) options true w.

(** [context] has the kind "write" or "broadcast". *)
Definition runToriumWriteActionOnce {T} (action : (W → bool) → Z → W → outcome T * W)
    (context : error_context) (options : action_options) (w : W) : outcome T * W * list entry :=
  runAction action context options false w.
End execution.
