(* ===== verification/SdkExecutionFacts.v ===== *)
(** Running an SDK action: how often it is called, what may be retried, and
    what an error carries out of it. *)

From Stdlib Require Import QArith.
From S2P Require Import Prelude JsNum JsText JsOps JsRegex SdkValue SdkErrors SdkExecution.

Open Scope Z_scope.

(** ** Reading a trace *)

Definition calls (trace : list entry) : list Z :=
  omap (λ x, match x with Called n => Some n | _ => None end) trace.

Definition retried_after (trace : list entry) : list sdk_error :=
  omap (λ x, match x with
             | Emitted d => if decide (d_phase d = PRetry) then d_error d else None
             | _ => None end) trace.

Definition waits (trace : list entry) : list num :=
  omap (λ x, match x with Waited n => Some n | _ => None end) trace.

Lemma calls_app a b : calls (a ++ b) = calls a ++ calls b.
Proof. apply omap_app. Qed.
Lemma retried_app a b : retried_after (a ++ b) = retried_after a ++ retried_after b.
Proof. apply omap_app. Qed.
Lemma waits_app a b : waits (a ++ b) = waits a ++ waits b.
Proof. apply omap_app. Qed.

(** ** Validated options *)

Lemma validateRetry_Done v retry :
  validateRetry v = Done retry →
  ∃ m, num_int (maxAttempts retry) = Some m ∧ 1 ≤ m ≤ maximumReadAttempts ∧
    is_finite (jitterRatio retry) = true ∧
    (∃ b, num_int (baseDelayMs retry) = Some b ∧ 0 ≤ b ≤ maximumBackoffMs) ∧
    (∃ x, num_int (maximumDelayMs retry) = Some x ∧ 0 ≤ x ≤ maximumBackoffMs).
Proof.
  assert (∀ l n u, check_delay l n = Done u → ∃ b, num_int n = Some b ∧ 0 ≤ b ≤ maximumBackoffMs) as Hdelay.
  { intros l n u. unfold check_delay. destruct (_ || _) eqn:E; [done|]. intros _.
    apply orb_false_iff in E as [[Es%negb_false_iff Elo]%orb_false_iff Ehi].
    apply is_safe_integer_spec in Es as (z & Hz & _). exists z. split; [done|].
    rewrite (num_ltb_int n (NInt 0) z 0) in Elo by done.
    rewrite (num_ltb_int (NInt maximumBackoffMs) n maximumBackoffMs z) in Ehi by done. lia. }
  unfold validateRetry. set (r := MkRetry _ _ _ _). intros H.
  apply outcome_bind_Done in H as ([] & H1 & H). apply outcome_bind_Done in H as ([] & H2 & H).
  apply outcome_bind_Done in H as ([] & H3 & H). apply outcome_bind_Done in H as ([] & H4 & H).
  apply outcome_bind_Done in H as ([] & H5 & H). injection H as <-.
  apply Hdelay in H2, H3. destruct (_ || _) eqn:E1 in H1; [done|]. clear H1.
  destruct (_ || _) eqn:E5 in H5; [done|]. clear H5.
  apply orb_false_iff in E1 as [[Ei%negb_false_iff Elo]%orb_false_iff Ehi].
  apply orb_false_iff in E5 as [[Ej%negb_false_iff _]%orb_false_iff _].
  unfold is_integer in Ei. destruct (num_int (maxAttempts r)) as [m|] eqn:Em; [|done].
  rewrite (num_ltb_int _ (NInt 1) m 1 Em eq_refl) in Elo.
  rewrite (num_ltb_int (NInt maximumReadAttempts) _ maximumReadAttempts m eq_refl Em) in Ehi.
  exists m. split_and!; done || lia.
Qed.

Section facts.
Context (toLowerCase : jstr → jstr) (W : Type) (user_aborted timer_fired : W → bool).
Context (now : W → Z) (random : W → num) (wait : num → W → W).

Abbreviation aborted := (aborted W user_aborted timer_fired).
Abbreviation attempt_once := (attempt_once W user_aborted timer_fired).
Abbreviation normalized := (normalized toLowerCase W user_aborted timer_fired).
Abbreviation run_from := (run_from toLowerCase W user_aborted timer_fired now random wait).
Abbreviation runAction := (runAction toLowerCase W user_aborted timer_fired now random wait).
Abbreviation runToriumReadAction := (runToriumReadAction toLowerCase W user_aborted timer_fired now random wait).
Abbreviation runToriumWriteActionOnce :=
  (runToriumWriteActionOnce toLowerCase W user_aborted timer_fired now random wait).

Section run.
Context {T : Type} (action : (W → bool) → Z → W → outcome T * W).
Context (o : operation) (c : error_context) (retry : ValidatedRetry) (allowRetry : bool) (startedAt m : Z).
Context (Hm : num_int (maxAttempts retry) = Some m).

Lemma attempt_once_calls attempt w r w' tr :
  attempt_once action o attempt w = (r, w', tr) →
  (tr = [] ∧ aborted o w' = true ∨ tr = [Called attempt]).
Proof.
  unfold SdkExecution.attempt_once, throwIfAborted. destruct (SdkExecution.aborted _ _ _ o w) eqn:E.
  - intros [= <- <- <-]. by left.
  - destruct (action _ _ _) as [r1 w1]. intros [= <- <- <-]. by right.
Qed.

Lemma normalized_ordinary w t t' : normalized o c w t = Fails t' → t' ≠ out_of_attempts.
Proof.
  unfold SdkExecution.normalized, normalize, normalizeToriumError, assertContext.
  intros H. repeat (case_match; simplify_eq/=; try done).
  all: try (injection H as <-; done).
Qed.

Lemma enforced_safe w t e :
  normalized o c w t = Done e → is_read c = false → safeToRetry e = false.
Proof.
  unfold SdkExecution.normalized. intros (e' & _ & [= <-])%outcome_bind_Done Hr.
  unfold enforceOperationSafety. rewrite Hr. simpl. by destruct (safeToRetry e') eqn:E.
Qed.

(** What the trace and the outcome of a run say. *)
Record run_ok (left : nat) (attempt : Z) (r : outcome T) (tr : list entry) : Prop := {
  run_ends : r ≠ Fails out_of_attempts;
  run_calls : ∃ k, (k ≤ left)%nat ∧ ((allowRetry = false → k ≤ 1)%nat) ∧
    calls tr = seqZ attempt (Z.of_nat k);
  run_retried : Forall (λ e, safeToRetry e = true ∧ is_read c = true) (retried_after tr);
  run_once : allowRetry = false → retried_after tr = [];
  run_unsafe : is_read c = false → ∀ e, r = Fails (TSdk e) → safeToRetry e = false;
  run_waits : length (waits tr) = length (retried_after tr)
}.

Lemma calls_event w p k e : calls [event W now startedAt w p k e] = [].
Proof. done. Qed.

Lemma retried_event w p k e :
  p ≠ PRetry → retried_after [event W now startedAt w p k e] = [].
Proof. intros Hp. unfold retried_after, event. simpl. by rewrite decide_False. Qed.

(** A run that stops after its first attempt. *)
Lemma run_ok_stop left attempt r tr w p e :
  (0 < left)%nat → r ≠ Fails out_of_attempts → p ≠ PRetry →
  (is_read c = false → ∀ e, r = Fails (TSdk e) → safeToRetry e = false) →
  (tr = [] ∨ tr = [Called attempt]) →
  run_ok left attempt r (tr ++ [event W now startedAt w p attempt e]) ∧ run_ok left attempt r tr.
Proof.
  intros Hl Hr Hp Hu Htr.
  assert (∀ tr', calls tr' = calls tr → retried_after tr' = [] → waits tr' = [] → run_ok left attempt r tr') as H.
  { intros tr' Hc Hre Hw. split; [done| | | |done|by rewrite Hre, Hw].
    - destruct Htr as [->| ->]; [exists 0%nat|exists 1%nat]; split_and!; try lia; by rewrite Hc.
    - rewrite Hre. constructor.
    - by rewrite Hre. }
  split; apply H.
  - by rewrite calls_app, calls_event, app_nil_r.
  - rewrite retried_app, retried_event by done. by destruct Htr as [->| ->].
  - rewrite waits_app. by destruct Htr as [->| ->].
  - done.
  - by destruct Htr as [->| ->].
  - by destruct Htr as [->| ->].
Qed.

(** A run that goes on after a failed first attempt. *)
Lemma run_ok_more left attempt r tr' w e d :
  allowRetry = true → safeToRetry e = true → is_read c = true → run_ok left (attempt + 1) r tr' →
  run_ok (S left) attempt r
    ((Called attempt :: [event W now startedAt w PRetry (attempt + 1) (Some e); Waited d]) ++ tr').
Proof.
  intros Ha He Hread [H1 (k & Hk & _ & Hc) H3 H4 H5 H6]. split.
  - done.
  - exists (S k). split_and!; [lia|congruence|]. rewrite calls_app, Hc.
    rewrite (seqZ_cons attempt) by lia. simpl. do 2 f_equal; lia.
  - rewrite retried_app. by constructor.
  - congruence.
  - congruence.
  - rewrite waits_app, retried_app, !length_app, H6. done.
Qed.

Lemma normalized_fails w t t' :
  normalized o c w t = Fails t' → ∀ e, t' ≠ TSdk e.
Proof.
  unfold SdkExecution.normalized, normalize, normalizeToriumError, assertContext.
  intros H. repeat (case_match; simplify_eq/=; try done).
  all: try (injection H as <-; done).
Qed.

Lemma may_retry_spec w attempt e :
  may_retry W user_aborted timer_fired o retry allowRetry w attempt e = true →
  allowRetry = true ∧ safeToRetry e = true ∧ attempt < m ∧ aborted o w = false.
Proof.
  unfold may_retry. intros [[[-> ->]%andb_prop Hn%negb_true_iff]%andb_prop Ha%negb_true_iff]%andb_prop.
  rewrite (num_leb_int _ (NInt attempt) m attempt Hm eq_refl) in Hn. split_and!; try done; lia.
Qed.

(** A run that stops in the wait before its second attempt. *)
Lemma run_ok_wait left attempt r tr w e d :
  allowRetry = true → safeToRetry e = true → is_read c = true → r ≠ Fails out_of_attempts →
  calls tr = [] → retried_after tr = [] → waits tr = [] →
  run_ok (S left) attempt r
    ((Called attempt :: [event W now startedAt w PRetry (attempt + 1) (Some e); Waited d]) ++ tr).
Proof.
  intros Ha He Hread Hr Hc Hre Hw. split; try congruence.
  - exists 1%nat. split_and!; try lia. by rewrite calls_app, Hc.
  - rewrite retried_app, Hre. by repeat constructor.
  - by rewrite waits_app, retried_app, !length_app, Hre, Hw.
Qed.

Lemma run_from_ok left attempt w r w' tr :
  Z.of_nat left = m - attempt + 1 → (0 < left)%nat →
  run_from action o c retry allowRetry startedAt left attempt w = (r, w', tr) →
  run_ok left attempt r tr.
Proof.
  revert attempt w r w' tr. induction left as [|left IH]; intros attempt w r w' tr Hl Hpos H; [lia|].
  cbn [SdkExecution.run_from] in H.
  destruct (attempt_once action o attempt w) as [[r1 w1] called] eqn:E1.
  pose proof (attempt_once_calls _ _ _ _ _ E1) as Hcalled.
  destruct r1 as [a|t1].
  { injection H as <- <- <-. apply run_ok_stop; try done. destruct Hcalled as [[-> _]| ->]; auto. }
  destruct (normalized o c w1 t1) as [e|t'] eqn:En.
  2:{ injection H as <- <- <-. pose proof (normalized_ordinary _ _ _ En) as Hne.
      pose proof (normalized_fails _ _ _ En) as Hns.
      apply (run_ok_stop _ _ _ _ w1 PFailure None); try done; [congruence|naive_solver|].
      destruct Hcalled as [[-> _]| Hcalled]; auto. }
  destruct (may_retry _ _ _ _ _ _ w1 attempt e) eqn:Em; simpl in H.
  2:{ injection H as <- <- <-. apply run_ok_stop; try done; [|destruct Hcalled as [[-> _]| ->]; auto].
      intros Hr e' [= <-]. by apply (enforced_safe _ _ _ En). }
  apply may_retry_spec in Em as (Ha & Hs & Hlt & Hab).
  assert (is_read c = true) as Hread.
  { destruct (is_read c) eqn:Hr; [done|]. pose proof (enforced_safe _ _ _ En Hr). congruence. }
  destruct Hcalled as [[-> Hab']| ->]; [congruence|].
  destruct (waitForRetry _ _ _ _ _ _ w1) as [[[]|t2] w2].
  - destruct (run_from _ _ _ _ _ _ left _ w2) as [[r2 w3] rest] eqn:E2. injection H as <- <- <-.
    apply run_ok_more; try done. apply (IH _ w2 _ w3); done || lia.
  - destruct (normalized o c w2 t2) as [e2|t'] eqn:En2; injection H as <- <- <-.
    + apply run_ok_wait; done.
    + apply (run_ok_wait _ _ _ []); try done. intros [= Ht]. by apply (normalized_ordinary _ _ _ En2).
Qed.
End run.

Lemma validateExecutionContext_fails c t :
  validateExecutionContext c = Fails t → ∃ e, t = TSdk e ∧ safeToRetry e = false.
Proof.
  unfold validateExecutionContext. destruct (List.find _ _) as [[label s]|]; intros [= <-].
  by eexists.
Qed.

Definition effective_retry (allowRetry : bool) (options : action_options) : outcome ValidatedRetry :=
  validateRetry (if allowRetry then opt_retry options else None).

(** What an action's trace and outcome say. *)
Record action_ok {T} (c : error_context) (options : action_options) (allowRetry : bool)
    (r : outcome T) (tr : list entry) : Prop := {
  action_ends : r ≠ Fails out_of_attempts;
  action_calls : ∃ k, calls tr = seqZ 1 k ∧ 0 ≤ k ≤ maximumReadAttempts ∧ (allowRetry = false → k ≤ 1) ∧
    ∀ retry, effective_retry allowRetry options = Done retry → k ≤ num_Z (maxAttempts retry);
  action_retried : Forall (λ e, safeToRetry e = true ∧ is_read c = true) (retried_after tr);
  action_once : allowRetry = false → retried_after tr = [];
  action_unsafe : is_read c = false → ∀ e, r = Fails (TSdk e) → safeToRetry e = false;
  action_waits : length (waits tr) = length (retried_after tr)
}.

Lemma validateRetry_attempts v retry :
  validateRetry v = Done retry →
  ∃ m, num_int (maxAttempts retry) = Some m ∧ num_Z (maxAttempts retry) = m ∧ 1 ≤ m ≤ maximumReadAttempts.
Proof.
  intros (m & Hm & Hb & _)%validateRetry_Done. exists m. split_and!; [done| |lia..].
  unfold num_Z. by rewrite Hm.
Qed.

(** An action that is refused before it runs. *)
Lemma action_ok_refused {T} c options allowRetry e :
  safeToRetry e = false → action_ok (T:=T) c options allowRetry (Fails (TSdk e)) [].
Proof.
  intros He. split; try done; [|congruence].
  exists 0. split_and!; try done; try lia.
  intros retry (m & _ & -> & ?)%validateRetry_attempts. lia.
Qed.

Lemma runAction_ok {T} (action : (W → bool) → Z → W → outcome T * W) c options allowRetry w r w' tr :
  runAction action c options allowRetry w = (r, w', tr) → action_ok c options allowRetry r tr.
Proof.
  unfold SdkExecution.runAction. set (c' := ErrorContext _ _ _ _ _ _ _).
  destruct (validateExecutionContext c') as [[]|t] eqn:Ev.
  2:{ intros [= <- <- <-]. apply validateExecutionContext_fails in Ev as (e & -> & He).
      by apply action_ok_refused. }
  destruct (validateTimeout _) as [timeoutMs|t]; simpl.
  2:{ intros [= <- <- <-]. by apply action_ok_refused. }
  fold (effective_retry allowRetry options).
  destruct (effective_retry allowRetry options) as [retry|t] eqn:Er; simpl.
  2:{ intros [= <- <- <-]. by apply action_ok_refused. }
  pose proof Er as (m & Hm & Hz & Hb)%validateRetry_attempts. rewrite Hz.
  destruct (run_from _ _ _ _ _ _ _ _ w) as [[r1 w1] trace] eqn:E. intros [= <- <- <-].
  apply (run_from_ok _ _ _ _ _ _ m) in E as [H1 (k & Hk & Hone & Hc) H3 H4 H5 H6]; [|done|lia..].
  split; [done| |exact H3|exact H4|exact H5|exact H6].
  exists (Z.of_nat k). split; [exact Hc|]. split_and!; [lia|lia|intros Ha; specialize (Hone Ha); lia|].
  intros retry' Er'. assert (retry' = retry) as -> by congruence. lia.
Qed.

(** C31. A read action is called at most [maxAttempts] times, never more than
    three, with attempts numbered from 1 without a gap; the loop ends by
    itself; each call after the first follows an error that is safe to retry and
    one wait. *)
Theorem read_action_bounded {T} (action : (W → bool) → Z → W → outcome T * W) context options w r w' tr :
  runToriumReadAction action context options w = (r, w', tr) →
  r ≠ Fails out_of_attempts ∧
  (∃ k, calls tr = seqZ 1 k ∧ 0 ≤ k ≤ 3 ∧
     ∀ retry, validateRetry (opt_retry options) = Done retry → k ≤ num_Z (maxAttempts retry)) ∧
  Forall (λ e, safeToRetry e = true) (retried_after tr) ∧
  length (waits tr) = length (retried_after tr).
Proof.
  intros [H1 (k & Hc & Hk & _ & Hm) H3 _ _ H6]%runAction_ok. split_and!; try done; [by exists k|].
  eapply Forall_impl; [exact H3|]. by intros e [? _].
Qed.

(** C30. A write or broadcast action is called at most once whatever its options,
    its endpoint and its timers do, nothing is retried, and an SDK error that
    comes out of it is never marked safe to retry. *)
Theorem write_action_once {T} (action : (W → bool) → Z → W → outcome T * W) context options w r w' tr :
  ctx_kind context = Some Write ∨ ctx_kind context = Some Broadcast →
  runToriumWriteActionOnce action context options w = (r, w', tr) →
  (calls tr = [] ∨ calls tr = [1]) ∧ retried_after tr = [] ∧ waits tr = [] ∧
  (∀ e, r = Fails (TSdk e) → safeToRetry e = false).
Proof.
  intros Hk [H1 (k & Hc & Hk' & Hone & _) _ H4 H5 H6]%runAction_ok.
  assert (is_read context = false) as Hr by (unfold is_read; by destruct Hk as [-> | ->]).
  specialize (Hone eq_refl). split_and!; [|auto| |auto].
  - rewrite Hc. assert (k = 0 ∨ k = 1) as [-> | ->] by lia; [by left|by right].
  - rewrite H4 in H6 by done. by apply nil_length_inv.
Qed.

(** ** Backoff after an error whose response names no delay *)

(** C36. An HTTP error whose headers have no Retry-After is normalised with a
    retry delay of 0 ms, and the read then waits 0 ms before each retry,
    whatever backoff was configured. *)
Theorem missing_retry_after_drops_backoff fields get context e :
  jget (JObj fields) (js "retryAfterMs") = JUndef →
  jget (JObj fields) (js "headers") = JObj [(js "get", JFun get)] →
  get (js "retry-after") = None →
  normalizeToriumError toLowerCase (TOther (JObj fields)) context = Done e →
  retryAfterMs e = Some (NInt 0) ∧
  ∀ retry failure rnd, retryDelay retry failure (retryAfterMs e) rnd = NInt 0.
Proof.
  intros Hd Hh Hg. unfold normalizeToriumError. intros (? & _ & [= <-])%outcome_bind_Done.
  assert (getRetryAfterMs (errorChain (JObj fields)) = Some (NInt 0)) as Hz.
  { unfold getRetryAfterMs, errorChain. cbn [chain_from is_jnullish toRecord isObjectLike omap list_omap rec_value].
    assert (record_retry_after (JObj fields) = Some (NInt 0)) as ->; [|done].
    unfold record_retry_after. rewrite Hd, Hh. cbn [toRecord isObjectLike].
    assert (jget (JObj [(js "get", JFun get)]) (js "get") = JFun get) as -> by done.
    by rewrite Hg. }
  cbn [retryAfterMs new_ToriumSdkError o_retryAfterMs]. rewrite Hz. split; [done|].
  intros retry failure rnd. done.
Qed.

(** ** Recovery *)

(** Nothing cancels the action and the timer stays silent. *)
Definition undisturbed : Prop := ∀ w, user_aborted w = false ∧ timer_fired w = false.

Lemma undisturbed_aborted o w : undisturbed → timed_out W timer_fired o w = false ∧ aborted o w = false.
Proof.
  intros H. destruct (H w) as [Hu Ht]. unfold SdkExecution.aborted, timed_out.
  rewrite Hu, Ht, !andb_false_r. done.
Qed.

(** An error that a read with context [c] may follow with another attempt. *)
Definition recoverable (c : error_context) (t : thrown) : Prop :=
  ∃ e, normalizeToriumError toLowerCase t c = Done e ∧ safeToRetry e = true.

Lemma normalized_recoverable o c w t :
  undisturbed → is_read c = true → recoverable c t →
  ∃ e, normalized o c w t = Done e ∧ safeToRetry e = true.
Proof.
  intros Hu Hr (e & Hn & He). exists e. split; [|done].
  destruct (undisturbed_aborted o w Hu) as [Ht Ha].
  assert (normalize toLowerCase W user_aborted timer_fired o w t c = Done e) as H.
  { unfold normalize. rewrite Ht, Ha. destruct t as [e'|v]; [|by destruct (_ && _)].
    unfold normalizeToriumError in Hn. apply outcome_bind_Done in Hn as (? & _ & [= ->]).
    destruct (_ && _); [|done]. by destruct (_ =s? js "TORIUM_RPC_ABORTED"). }
  unfold SdkExecution.normalized. rewrite H. simpl. unfold enforceOperationSafety. by rewrite Hr.
Qed.

Section recovery.
Context {T : Type} (action : (W → bool) → Z → W → outcome T * W).
Context (o : operation) (c : error_context) (retry : ValidatedRetry) (startedAt m n : Z) (a : T).
Context (Hquiet : undisturbed) (Hread : is_read c = true) (Hm : num_int (maxAttempts retry) = Some m).
Context (Hfail : ∀ sig i w, 1 ≤ i < n → ∃ t w', action sig i w = (Fails t, w') ∧ recoverable c t).
Context (Hdone : ∀ sig w, ∃ w', action sig n w = (Done a, w')).

Lemma attempt_once_quiet attempt w :
  attempt_once action o attempt w =
    (let '(r, w') := action (aborted o) attempt w in (r, w', [Called attempt])).
Proof.
  unfold SdkExecution.attempt_once, throwIfAborted, raceAbort.
  rewrite (proj2 (undisturbed_aborted o w Hquiet)). destruct (action _ _ _) as [r w'].
  rewrite (proj2 (undisturbed_aborted o w' Hquiet)). by destruct (_ || _).
Qed.

Lemma run_from_recovers left attempt w :
  1 ≤ attempt ≤ n → n ≤ m → n - attempt < Z.of_nat left →
  ∃ w' tr, run_from action o c retry true startedAt left attempt w = (Done a, w', tr) ∧
    calls tr = seqZ attempt (n - attempt + 1).
Proof.
  revert attempt w. induction left as [|left IH]; intros attempt w Ha Hn Hl; [lia|].
  cbn [SdkExecution.run_from]. rewrite attempt_once_quiet.
  destruct (decide (attempt = n)) as [->|Hne].
  { destruct (Hdone (aborted o) w) as [w' ->]. eexists _, _. split; [done|].
    by replace (n - n + 1) with 1 by lia. }
  destruct (Hfail (aborted o) attempt w) as (t & w' & -> & Ht); [lia|].
  destruct (normalized_recoverable o c w' t Hquiet Hread Ht) as (e & -> & He).
  unfold may_retry. rewrite He, (num_leb_int _ (NInt attempt) m attempt Hm eq_refl).
  rewrite (proj2 (undisturbed_aborted o w' Hquiet)).
  replace (m <=? attempt) with false by lia. cbn [andb negb].
  unfold waitForRetry. rewrite (proj2 (undisturbed_aborted o w' Hquiet)).
  match goal with |- context [wait ?d w'] => set (w2 := wait d w') end.
  rewrite (proj2 (undisturbed_aborted o w2 Hquiet)).
  destruct (IH (attempt + 1) w2) as (w3 & tr & -> & Hc); [lia..|].
  eexists _, _. split; [done|].
  rewrite calls_app, Hc, (seqZ_cons attempt) by lia. simpl. do 2 f_equal; lia.
Qed.
End recovery.

(** The context a read runs with. *)
Definition read_context (context : error_context) (options : action_options) : error_context :=
  ErrorContext (ctx_operation context) (Some Read) (ctx_clientKind context) (ctx_method context)
    (ctx_chainId context) (or_else (opt_requestId options) (ctx_requestId context)) (ctx_fallback context).

(** C35. A read whose first attempts fail with errors that are safe to retry, and
    whose [n]th attempt, within its allowance, succeeds, returns that attempt's
    value when nothing cancels it. *)
Theorem read_action_recovers {T} (action : (W → bool) → Z → W → outcome T * W)
    context options timeoutMs retry n a w :
  undisturbed →
  validateExecutionContext (read_context context options) = Done () →
  validateTimeout (opt_timeoutMs options) = Done timeoutMs →
  validateRetry (opt_retry options) = Done retry →
  1 ≤ n ≤ num_Z (maxAttempts retry) →
  (∀ sig i w, 1 ≤ i < n →
     ∃ t w', action sig i w = (Fails t, w') ∧ recoverable (read_context context options) t) →
  (∀ sig w, ∃ w', action sig n w = (Done a, w')) →
  ∃ w' tr, runToriumReadAction action context options w = (Done a, w', tr) ∧ calls tr = seqZ 1 n.
Proof.
  intros Hq Hc Ht Hr Hn Hfail Hdone.
  pose proof (validateRetry_attempts _ _ Hr) as (m & Hm & Hz & Hb). rewrite Hz in Hn.
  unfold SdkExecution.runToriumReadAction, SdkExecution.runAction.
  cbn [with_kind ctx_operation ctx_kind ctx_clientKind ctx_method ctx_chainId ctx_requestId ctx_fallback].
  fold (read_context context options). rewrite Hc, Ht, Hr. cbn [mbind outcome_bind].
  set (o := Operation _ _). rewrite Hz.
  destruct (run_from_recovers action o (read_context context options) retry (now w) m n a Hq eq_refl Hm
              Hfail Hdone (Z.to_nat m) 1 w) as (w' & tr & -> & Hcalls); [lia..|].
  eexists _, _. split; [done|]. simpl. rewrite Hcalls. f_equal. lia.
Qed.

(** ** Where a result comes from *)

(** A value that an action returns is the value of one of its calls. *)
Lemma run_from_done {T} (action : (W → bool) → Z → W → outcome T * W) o c retry allowRetry startedAt
    left attempt w a w' tr :
  run_from action o c retry allowRetry startedAt left attempt w = (Done a, w', tr) →
  ∃ sig i w0 w1, action sig i w0 = (Done a, w1).
Proof.
  revert attempt w w' tr. induction left as [|left IH]; intros attempt w w' tr; [done|].
  cbn [SdkExecution.run_from]. unfold SdkExecution.attempt_once.
  destruct (throwIfAborted _ _ _ o w) as [u|t0].
  2:{ simpl. intros H. repeat (case_match; simplify_eq/=; try done). by eapply IH. }
  destruct (action _ attempt w) as [r1 w1] eqn:Ea.
  match goal with |- context [if ?b then _ else _] => set (raced := b) end.
  assert (∀ x, (if raced then raceAbort W user_aborted timer_fired o r1 w1 else r1) = Done x → r1 = Done x) as Hr.
  { intros x. unfold raceAbort. by repeat case_match. }
  destruct (if raced then _ else _) as [x|t1] eqn:Er.
  - intros [= -> _ _]. rewrite (Hr _ eq_refl) in Ea. eauto.
  - clear Hr. intros H. repeat (case_match; simplify_eq/=; try done); by eapply IH.
Qed.

Lemma runAction_done {T} (action : (W → bool) → Z → W → outcome T * W) c options allowRetry w a w' tr :
  runAction action c options allowRetry w = (Done a, w', tr) →
  ∃ sig i w0 w1, action sig i w0 = (Done a, w1).
Proof.
  unfold SdkExecution.runAction. intros H.
  repeat (case_match; simplify_eq/=; try done); by eapply run_from_done.
Qed.

(** Without a signal, a timeout or retries, an action that succeeds at once
    gives its value. *)
Lemma read_default {T} (action : (W → bool) → Z → W → outcome T * W) context w a w' :
  validateExecutionContext (with_kind Read context) = Done () →
  action (λ _, false) 1 w = (Done a, w') →
  ∃ tr, runToriumReadAction action context default_options w = (Done a, w', tr).
Proof.
  intros Hc Ha. unfold SdkExecution.runToriumReadAction, SdkExecution.runAction.
  cbn [default_options opt_requestId or_else]. destruct context as [op k ck me ch rq fb].
  unfold with_kind in *. cbn [ctx_operation ctx_kind ctx_clientKind ctx_method ctx_chainId ctx_requestId ctx_fallback] in *.
  rewrite Hc. cbn [opt_timeoutMs opt_retry validateTimeout mbind outcome_bind has_signal].
  match goal with |- context [validateRetry ?v] =>
    assert (validateRetry v = Done (MkRetry (NInt 1) (NInt 150) (NInt 2000) default_jitter)) as ->
      by (vm_compute; reflexivity) end.
  change (validateTimeout (opt_timeoutMs default_options)) with (@Done (option num) None).
  change (has_signal default_options) with false. cbn [mbind outcome_bind maxAttempts].
  rewrite bool_decide_eq_false_2 by (intros [? ?]; done).
  change (Z.to_nat (num_Z (NInt 1))) with 1%nat. cbn [SdkExecution.run_from].
  unfold SdkExecution.attempt_once, throwIfAborted, SdkExecution.aborted, timed_out.
  cbn [op_signal op_timeout andb orb]. rewrite Ha. eauto.
Qed.
End facts.

(** ** Concrete runs *)

Lemma triple_eta {A B C} (p : A * B * C) : p = (p.1.1, p.1.2, p.2).
Proof. by destruct p as [[]]. Qed.

Module Samples.
Definition lower (s : jstr) : jstr := s.
(** A world that counts the waits, a fixed clock and a fixed jitter. *)
Definition sample_wait (_ : num) (w : Z) : Z := w + 1.
Definition no_signal (_ : Z) : bool := false.
Definition clock (w : Z) : Z := w.
Definition half (_ : Z) : num := num_of_Q (1 # 2).

Definition network_fields : list (jstr * jsv) :=
  [(js "name", JStr (js "fetch error")); (js "message", JStr (js "fetch failed"));
   (js "status", JNum (NInt 503));
   (js "headers", JObj [(js "get", JFun (λ _, None))])].
Definition network_error : thrown := TOther (JObj network_fields).

(** An endpoint that fails once. *)
Definition flaky (_ : Z → bool) (attempt : Z) (w : Z) : outcome Z * Z :=
  if attempt =? 1 then (Fails network_error, w) else (Done 7, w).

Definition context : error_context :=
  ErrorContext (Some (js "getBlock")) None (Some Public) (Some (js "eth_getBlockByNumber")) None None None.
Definition options : action_options :=
  ActionOptions false None None (Some (RetryOptions (Some (NInt 3)) None None None)).

Definition write_context : error_context :=
  ErrorContext (Some (js "sendTransaction")) (Some Write) (Some Wallet) None None None None.

Definition sample_read :=
  runToriumReadAction lower Z no_signal no_signal clock half sample_wait flaky context options 0.
Definition sample_write :=
  runToriumWriteActionOnce lower Z no_signal no_signal clock half sample_wait flaky write_context options 0.

Lemma read_action_bounded_witness :
  calls sample_read.2 = [1; 2] ∧ length (waits sample_read.2) = length (retried_after sample_read.2).
Proof.
  split; [vm_compute; reflexivity|].
  eapply (read_action_bounded lower Z no_signal no_signal clock half sample_wait flaky context options 0).
  apply triple_eta.
Defined.

Lemma write_action_once_witness :
  calls sample_write.2 = [1] ∧ ∃ e, sample_write.1.1 = Fails (TSdk e) ∧ safeToRetry e = false.
Proof.
  split; [vm_compute; reflexivity|].
  destruct sample_write.1.1 as [x|[e|v]] eqn:E; [exfalso; revert E; vm_compute; done| |exfalso; revert E; vm_compute; done].
  exists e. split; [reflexivity|].
  eapply (write_action_once lower Z no_signal no_signal clock half sample_wait flaky write_context options 0);
    [by left|apply triple_eta|exact E].
Defined.

Lemma missing_retry_after_drops_backoff_witness :
  ∃ e, normalizeToriumError lower network_error context = Done e ∧ err_category e = Transport ∧
    retryAfterMs e = Some (NInt 0).
Proof.
  eexists. split; [reflexivity|]. split; [vm_compute; reflexivity|].
  eapply (missing_retry_after_drops_backoff lower network_fields (λ _, None) context); reflexivity.
Defined.

Lemma read_action_recovers_witness :
  ∃ w' tr, sample_read = (Done 7, w', tr) ∧ calls tr = [1; 2].
Proof.
  apply (read_action_recovers lower Z no_signal no_signal clock half sample_wait flaky context options
           None (MkRetry (NInt 3) (NInt 150) (NInt 2000) default_jitter) 2 7 0).
  - done.
  - vm_compute. reflexivity.
  - reflexivity.
  - vm_compute. reflexivity.
  - cbn. lia.
  - intros sig i w Hi. assert (i = 1) as -> by lia. exists network_error, w. split; [reflexivity|].
    eexists. split; [reflexivity|vm_compute; reflexivity].
  - intros sig w. by exists w.
Defined.
End Samples.
