(* ===== verification/SdkContracts.v ===== *)
(** packages/torium-sdk/src/contracts.ts, the parts its contracts share: typed
    errors, deployments, bytecode verification, revert data, simulation, and the
    readers of what an endpoint answers. *)

From S2P Require Import Prelude JsNum JsText JsValue JsRegex RewardTree SdkValue SdkErrors SdkExecution.

Open Scope Z_scope.

(** ** Names and errors *)

Inductive contract_name :=
| toriumNative | toriumCreate2Factory | toriumRewardDistributor | toriumAttestationRegistry.

Definition contract_text (n : contract_name) : jstr :=
  match n with
  | toriumNative => js "toriumNative"
  | toriumCreate2Factory => js "toriumCreate2Factory"
  | toriumRewardDistributor => js "toriumRewardDistributor"
  | toriumAttestationRegistry => js "toriumAttestationRegistry"
  end.

Inductive contract_code :=
| CONFIG_INVALID | NOT_DEPLOYED | CODE_MISSING | CODE_MISMATCH | VERSION_MISMATCH | RESPONSE_INVALID | REVERTED.

Definition code_text (c : contract_code) : jstr :=
  js "TORIUM_CONTRACT_" +++
  match c with
  | CONFIG_INVALID => js "CONFIG_INVALID" | NOT_DEPLOYED => js "NOT_DEPLOYED"
  | CODE_MISSING => js "CODE_MISSING" | CODE_MISMATCH => js "CODE_MISMATCH"
  | VERSION_MISMATCH => js "VERSION_MISMATCH" | RESPONSE_INVALID => js "RESPONSE_INVALID"
  | REVERTED => js "REVERTED"
  end.

Definition contractErrorCategories (c : contract_code) : category :=
  match c with
  | CONFIG_INVALID => Configuration
  | NOT_DEPLOYED | CODE_MISSING | CODE_MISMATCH => ContractCategory
  | VERSION_MISMATCH => Compatibility
  | RESPONSE_INVALID => Rpc
  | REVERTED => Revert
  end.

(** The options of [ToriumContractError] that the module gives. *)
Record contract_options := ContractOptions {
  co_contractName : contract_name;
  co_address : option jstr;
  co_operation : option jstr;
  co_method : option jstr;
  co_cause : jsv;
  co_errorName : option jstr;
  co_errorArgs : option (list jsv);
  co_revertData : option jstr;
  co_issues : option (list jstr);
}.

(** The options with a contract, an address and an operation. *)
Definition located (n : contract_name) (address : option jstr) (operation : option jstr) : contract_options :=
  ContractOptions n address operation None JUndef None None None None.

(** [new ToriumContractError(code, message, options)]; the revert reason is the
    name of the decoded error. *)
Definition new_ToriumContractError (code : contract_code) (message : jstr) (o : contract_options) : sdk_error :=
  let context := ErrorContext (co_operation o) (Some Read) (Some Contract) (co_method o) None None None in
  SdkError (js "ToriumContractError") message (code_text code) (contractErrorCategories code) context
    false false None None None (co_revertData o) (co_errorName o) (co_issues o)
    (toToriumErrorCause (co_cause o))
    (Some (ContractFields (Some (contract_text (co_contractName o))) (co_address o) (co_errorName o) (co_errorArgs o)))
    None.

(** [ToriumContractError.toJSON]. *)
Definition contract_toJSON (e : sdk_error) : jsv :=
  match contract e with
  | Some f =>
      removeUndefined (error_fields e ++
        [(js "contractName", of_option JStr (cf_contractName f)); (js "address", of_option JStr (cf_address f));
         (js "errorName", of_option JStr (cf_errorName f))])
  | None => toJSON e
  end.

Definition throw_contract {A} (code : contract_code) (message : jstr) (o : contract_options) : outcome A :=
  Fails (TSdk (new_ToriumContractError code message o)).

Definition invalidContractResponse (n : contract_name) (label : jstr) (operation : option jstr) : thrown :=
  TSdk (new_ToriumContractError RESPONSE_INVALID
    (js "The endpoint returned an invalid " +++ contract_text n +++ js " " +++ label +++ js " response.")
    (ContractOptions n None operation (Some (js "eth_call")) JUndef None None None None)).

(** ** Deployments *)

Record ToriumContractDeployment := Deployment {
  contractName : contract_name;
  address : jstr;
  implementationVersion : jstr;
  runtimeCodeKeccak256 : option jstr;
}.

Record ToriumContractDeploymentOverride := DeploymentOverride {
  ov_address : jstr;
  ov_implementationVersion : option jstr;
  ov_runtimeCodeKeccak256 : option jstr;
}.

Record RegistryCatalogEntry := CatalogEntry {
  entry_address : option jstr;
  entry_version : jstr;
  entry_code : option jstr;
  entry_status : jstr;
}.

(** The generated localnet registry, as [registryCatalog] reads it. *)
Definition registryCatalog (n : contract_name) : RegistryCatalogEntry :=
  match n with
  | toriumNative =>
      CatalogEntry (Some (js "0xEeeeeEeeeEeEeeEeEeEeeEEEeeeeEeeeeeeeEEeE")) (js "protocol-v1") None (js "active")
  | toriumCreate2Factory =>
      CatalogEntry (Some (js "0xB6fCC3ce2f13543eB801Efd20a63bd1B4c4Efc1d")) (js "1.0.0")
        (Some (js "0x1c8443d4510a3e5ab30fadbca17e932276bf09c93a6c6cbce40081cbf0273e55")) (js "planned")
  | toriumRewardDistributor =>
      CatalogEntry None (js "1.0.0")
        (Some (js "0xb62ef55f634464915f38d47b62b694265eb18c1e91c3b95adc045f0ab805968a")) (js "planned")
  | toriumAttestationRegistry =>
      CatalogEntry None (js "1.0.0")
        (Some (js "0x5b116d7520ab2a3f5129d62096841e0def2df8d82ad5c9bfb82ec189bca10705")) (js "planned")
  end.

(** ** Checks of the arguments *)

(** [assertToriumUint256] (utils.ts) on a bigint. *)
Definition assertToriumUint256 (v : Z) : outcome Z :=
  if (v <? 0) || (UINT256_MAX <? v)
  then throw_range_error (js "Torium integer must fit the unsigned EVM uint256 range.") else Done v.

Definition assertUint64 (v : Z) (label : jstr) : outcome Z :=
  if (v <? 0) || (Z.shiftl 1 64 - 1 <? v)
  then throw_range_error (js "Torium " +++ label +++ js " must fit in a uint64.") else Done v.

Definition zeroHash : jstr := js "0x0000000000000000000000000000000000000000000000000000000000000000".

(** ** Reading answers *)

Definition parseUint (v : jsv) (d : ToriumContractDeployment) (label : jstr) : outcome Z :=
  match v with
  | JBig z => if 0 <=? z then assertToriumUint256 z
              else Fails (invalidContractResponse (contractName d) label None)
  | JNum n => if is_safe_integer n && num_leb (NInt 0) n then Done (num_Z n)
              else Fails (invalidContractResponse (contractName d) label None)
  | _ => Fails (invalidContractResponse (contractName d) label None)
  end.

Definition parseBooleanValue (v : jsv) (d : ToriumContractDeployment) (label : jstr) : outcome bool :=
  match v with
  | JBool b => Done b
  | _ => Fails (invalidContractResponse (contractName d) label None)
  end.

(** [/^0x[0-9a-f]{64}$/iu]. *)
Definition is_hash_text (s : jstr) : bool :=
  match s with
  | 48%N :: x :: ds => ((x =? 120)%N || (x =? 88)%N) && Nat.eqb (length ds) 64 && forallb is_hex_i ds
  | _ => false
  end.

Definition parseHashValue (v : jsv) (d : ToriumContractDeployment) (label : jstr) : outcome jstr :=
  match v with
  | JStr s => if is_hash_text s then Done (to_lower s)
              else Fails (invalidContractResponse (contractName d) label None)
  | _ => Fails (invalidContractResponse (contractName d) label None)
  end.

Section shared.
(** viem's functions; each may throw. *)
Context (keccak256 : jstr → jstr).
Context (isHex : jstr → bool).
Context (getAddress : jstr → outcome jstr).
Context (decodeErrorResult : contract_name → jstr → outcome (jstr * option (list jsv))).

Definition parseAddressValue (v : jsv) (d : ToriumContractDeployment) (label : jstr) : outcome jstr :=
  match v with
  | JStr s =>
      match getAddress s with
      | Done a => Done a
      | Fails _ => Fails (invalidContractResponse (contractName d) label None)
      end
  | _ => Fails (invalidContractResponse (contractName d) label None)
  end.

Definition normalizeContractAddress (n : contract_name) (v : jstr) : outcome jstr :=
  match getAddress v with
  | Done a => Done a
  | Fails t =>
      throw_contract CONFIG_INVALID
        (js "The " +++ contract_text n +++ js " deployment address is not a valid EVM address.")
        (ContractOptions n None None None (thrown_value t) None None None None)
  end.

Definition resolve_operation : option jstr := Some (js "resolveToriumContractDeployment").

(** The deployment before its version is checked. *)
Definition chosen_deployment (n : contract_name) (override : option ToriumContractDeploymentOverride)
    : outcome ToriumContractDeployment :=
  let entry := registryCatalog n in
  match override with
  | None =>
      match entry_address entry with
      | None =>
          throw_contract NOT_DEPLOYED
            (js "The generated registry has no broadcast " +++ contract_text n +++ js " address (status: "
             +++ entry_status entry +++ js "); pass an explicit local deployment.")
            (located n None resolve_operation)
      | Some a =>
          a' ← normalizeContractAddress n a;
          Done (Deployment n a' (entry_version entry) (entry_code entry))
      end
  | Some o =>
      let version := default (entry_version entry) (ov_implementationVersion o) in
      a ← normalizeContractAddress n (ov_address o);
      Done (Deployment n a version
              (match ov_runtimeCodeKeccak256 o with
               | Some h => Some h
               | None => if version =s? entry_version entry then entry_code entry else None
               end))
  end.

Definition resolveToriumContractDeployment (n : contract_name)
    (override : option ToriumContractDeploymentOverride) (expected : option jstr)
    : outcome ToriumContractDeployment :=
  d ← chosen_deployment n override;
  match expected with
  | Some v =>
      if v =s? implementationVersion d then Done d
      else
        throw_contract VERSION_MISMATCH
          (js "The resolved " +++ contract_text n +++ js " implementation version " +++ implementationVersion d
           +++ js " does not match the expected version " +++ v +++ js ".")
          (located n (Some (address d)) resolve_operation)
  | None => Done d
  end.

(** ** Revert data *)

Definition decodeToriumContractRevert (n : contract_name) (revertData : jstr)
    : option (jstr * list jsv) :=
  match decodeErrorResult n revertData with
  | Done (name, args) => Some (name, default [] args)
  | Fails _ => None
  end.

Definition long_hex (v : jsv) : option jstr :=
  match v with
  | JStr s => if isHex s && (10 <=? jlen s) then Some s else None
  | _ => None
  end.

(** What one key of an error holds. *)
Definition data_at (current : jsv) (key : jstr) : option jstr :=
  let v := jget current key in
  match long_hex v with
  | Some s => Some s
  | None => if isObjectLike v then long_hex (jget v (js "data")) else None
  end.

Fixpoint revert_data_from (left : nat) (current : jsv) : option jstr :=
  match left with
  | O => None
  | S left' =>
      if isObjectLike current then
        match data_at current (js "raw") with
        | Some s => Some s
        | None =>
            match data_at current (js "data") with
            | Some s => Some s
            | None => revert_data_from left' (jget current (js "cause"))
            end
        end
      else None
  end.

Definition extractToriumRevertData (error : jsv) : option jstr := revert_data_from 10 error.

(** ** Actions on an endpoint *)

(** The world of [SdkExecution]; what the endpoint answers to one request. *)
Context (toLowerCase : jstr → jstr) (W : Type) (user_aborted timer_fired : W → bool).
Context (now : W → Z) (random : W → num) (wait : num → W → W).

Inductive request :=
| ReadContract (name : contract_name) (to functionName : jstr) (args : option (list jsv))
| GetCode (to : jstr)
| GetBlock
| GetChainId
| Call (account : option jsv) (to data : jstr) (value : option Z).

Context (endpoint : request → W → outcome jsv * W).

Definition io (A : Type) : Type := W → outcome A * W.

#[export] Instance io_ret : MRet io := λ A a w, (Done a, w).
#[export] Instance io_bind : MBind io := λ A B f m w,
  let '(r, w') := m w in match r with Done a => f a w' | Fails t => (Fails t, w') end.

Definition lift {A} (r : outcome A) : io A := λ w, (r, w).

(** [try { await m } catch (error) { throw f(error); }]. *)
Definition rethrow {A} (f : thrown → thrown) (m : io A) : io A := λ w,
  let '(r, w') := m w in (match r with Done a => Done a | Fails t => Fails (f t) end, w').

(** [Promise.all] of requests, all sent before one is awaited.  When several
    fail, which failure comes first depends on the endpoint; the model takes the
    order of the list. *)
Fixpoint ask_all (rs : list request) : io (list jsv) := λ w,
  match rs with
  | [] => (Done [], w)
  | r :: rs' =>
      let '(a, w1) := endpoint r w in
      let '(l, w2) := ask_all rs' w1 in
      (v ← a; vs ← l; Done (v :: vs), w2)
  end.

Definition ask (r : request) : io jsv := endpoint r.

(** [signal.throwIfAborted()] throws the signal's reason. *)
Definition abort_reason : jsv := js_error (js "AbortError") (js "This operation was aborted").
Definition check_signal (sig : W → bool) : io unit := λ w,
  if sig w then (Fails (TOther abort_reason), w) else (Done (), w).

Abbreviation answer T := (W → outcome T * W * list entry).

(** What is thrown before the action starts rejects the call. *)
Definition after {A T} (m : outcome A) (k : A → answer T) : answer T := λ w,
  match m with Done a => k a w | Fails t => (Fails t, w, []) end.

(** [runToriumReadAction] with the context of this module. *)
Definition contract_action {T} (operation method : jstr) (fallback : option category)
    (action : (W → bool) → io T) (options : action_options) : answer T :=
  runToriumReadAction toLowerCase W user_aborted timer_fired now random wait
    (λ sig _, action sig)
    (ErrorContext (Some operation) None (Some Contract) (Some method) None None fallback) options.

Record ToriumContractCodeVerification := CodeVerification {
  cv_contractName : contract_name;
  cv_address : jstr;
  cv_implementationVersion : jstr;
  cv_runtimeCodeKeccak256 : jstr;
}.

Definition verify_operation : jstr := js "verifyToriumContractDeployment".

(** The checks on the code an endpoint returned. *)
Definition check_code (d : ToriumContractDeployment) (expected : jstr) (code : jsv)
    : outcome ToriumContractCodeVerification :=
  let n := contractName d in
  let place := located n (Some (address d)) (Some verify_operation) in
  let missing := throw_contract CODE_MISSING
    (js "No runtime bytecode exists at the " +++ contract_text n +++ js " address " +++ address d +++ js ".") place in
  match code with
  | JUndef => missing
  | JStr s =>
      if s =s? js "0x" then missing
      else if negb (isHex s) then Fails (invalidContractResponse n (js "eth_getCode") (Some verify_operation))
      else
        let actual := keccak256 s in
        if actual =s? toLowerCase expected then
          Done (CodeVerification n (address d) (implementationVersion d) actual)
        else
          throw_contract CODE_MISMATCH
            (js "The runtime bytecode at " +++ address d +++ js " does not match the pinned " +++ contract_text n
             +++ js " " +++ implementationVersion d +++ js " hash.")
            (ContractOptions n (Some (address d)) (Some verify_operation) None JUndef None None None
               (Some [js "expected " +++ expected; js "actual " +++ actual]))
  | _ => Fails (invalidContractResponse n (js "eth_getCode") (Some verify_operation))
  end.

Definition verify_deployment (d : ToriumContractDeployment) (sig : W → bool)
    : io ToriumContractCodeVerification :=
  check_signal sig;;
  match runtimeCodeKeccak256 d with
  | None =>
      lift (throw_contract CONFIG_INVALID
        (js "The " +++ contract_text (contractName d)
         +++ js " deployment has no pinned runtime code hash to verify against.")
        (located (contractName d) (Some (address d)) (Some verify_operation)))
  | Some expected =>
      code ← ask (GetCode (address d));
      check_signal sig;;
      lift (check_code d expected code)
  end.

Definition verifyToriumContractDeployment (d : ToriumContractDeployment) (options : action_options)
    : answer ToriumContractCodeVerification :=
  contract_action verify_operation (js "eth_getCode") None (verify_deployment d) options.

(** ** Simulation *)

(** [ToriumTransactionRequest]: an account is an address or an object with
    one. *)
Record ToriumTransactionRequest := TransactionRequest {
  tx_account : jsv;
  tx_to : option jstr;
  tx_data : option jstr;
  tx_value : option Z;
}.

Definition simulate_operation : jstr := js "simulateToriumContractRequest".

Definition call_of (tx : ToriumTransactionRequest) (to : jstr) : request :=
  Call (match tx_account tx with
        | JStr s => Some (JStr s)
        | JUndef => None
        | a => Some (jget a (js "address"))
        end) to (default (js "0x") (tx_data tx)) (tx_value tx).

(** What a failed call is rethrown as. *)
Definition simulation_error (n : contract_name) (to : jstr) (t : thrown) : thrown :=
  match extractToriumRevertData (thrown_value t) with
  | Some revertData =>
      let decoded := decodeToriumContractRevert n revertData in
      TSdk (new_ToriumContractError REVERTED
        (js "The simulated " +++ contract_text n +++ js " call reverted with "
         +++ match decoded with Some (name, _) => name | None => js "undecodable data" end +++ js ".")
        (ContractOptions n (Some to) (Some simulate_operation) (Some (js "eth_call")) (thrown_value t)
           (fst <$> decoded) (snd <$> decoded) (Some revertData) None))
  | None => t
  end.

Definition simulate_call (n : contract_name) (tx : ToriumTransactionRequest) (to : jstr)
    (sig : W → bool) : io unit :=
  check_signal sig;;
  rethrow (simulation_error n to) (ask (call_of tx to));;
  mret ().

Definition simulateToriumContractRequest (n : contract_name) (tx : ToriumTransactionRequest)
    (options : action_options) : answer unit :=
  match tx_to tx with
  | None =>
      after (throw_contract CONFIG_INVALID
               (js "Torium contract simulation requires a contract target address.")
               (located n None (Some simulate_operation))) (λ _ : unit, λ w, (Done (), w, []))
  | Some to =>
      contract_action simulate_operation (js "eth_call") (Some Simulation) (simulate_call n tx to) options
  end.
End shared.
