(* ===== verification/Bech32.v ===== *)
(** packages/torium-sdk/src/utils.ts, the Bech32 account codec: the regrouping
    of bits, the checksum, and the text of an account. *)

From S2P Require Import Prelude JsBits SdkValue.

Open Scope Z_scope.

Definition bech32Alphabet : jstr := js "qpzry9x8gf2tvdw0s3jn54khce6mua7l".
(** 0x3b6a57b2, 0x26508e6d, 0x1ea119fa, 0x3d4233dd, 0x2a1462b3. *)
Definition bech32Generator : list Z := [996825010; 642813549; 513874426; 1027748829; 705979059].

(** ** Checksum *)

Definition expandBech32Hrp (hrp : jstr) : list Z :=
  map (λ c, shift_right (Z.of_N c) 5) hrp ++ [0] ++ map (λ c, bit_and (Z.of_N c) 31) hrp.

(** The inner loop: the generators of the bits that are set in [top]. *)
Fixpoint mix_generators (index top : Z) (gs : list Z) (checksum : Z) : Z :=
  match gs with
  | [] => checksum
  | g :: gs' =>
      mix_generators (index + 1) top gs'
        (if bit_and (shift_right_u top index) 1 =? 0 then checksum else bit_xor checksum g)
  end.

Definition polymod_step (checksum value : Z) : Z :=
  let top := shift_right_u checksum 25 in
  mix_generators 0 top bech32Generator (bit_xor (shift_left (bit_and checksum 33554431) 5) value).

Definition bech32Polymod (values : list Z) : Z := shift_right_u (fold_left polymod_step values 1) 0.

Definition createBech32Checksum (hrp : jstr) (words : list Z) : list Z :=
  let polymod := bit_xor (bech32Polymod (expandBech32Hrp hrp ++ words ++ [0; 0; 0; 0; 0; 0])) 1 in
  map (λ index, bit_and (shift_right_u polymod (5 * (5 - index))) 31) [0; 1; 2; 3; 4; 5].

Definition verifyBech32Checksum (hrp : jstr) (words : list Z) : bool :=
  bech32Polymod (expandBech32Hrp hrp ++ words) =? 1.

(** ** Regrouping *)

Section convert.
Context (fromBits toBits : Z).

Definition maximumOutput : Z := shift_left 1 toBits - 1.
Definition maximumAccumulator : Z := shift_left 1 (fromBits + toBits - 1) - 1.

(** [while (bitCount >= toBits)]: what it pushes and the bit count it leaves.
    Each turn takes [toBits] bits away, so the bit count is fuel enough. *)
Fixpoint push_words (fuel : nat) (accumulator bitCount : Z) : list Z * Z :=
  match fuel with
  | O => ([], bitCount)
  | S fuel' =>
      if toBits <=? bitCount then
        let bitCount' := bitCount - toBits in
        let '(l, rest) := push_words fuel' accumulator bitCount' in
        (bit_and (shift_right_u accumulator bitCount') maximumOutput :: l, rest)
      else ([], bitCount)
  end.

Definition invalid_data {A} : outcome A :=
  throw_type_error (js "Torium Bech32 account contains an invalid data word.").

(** The loop over the values: the words, the last accumulator and bit count. *)
Fixpoint convert_values (accumulator bitCount : Z) (values : list Z) : outcome (list Z * Z * Z) :=
  match values with
  | [] => Done ([], accumulator, bitCount)
  | value :: values' =>
      if (value <? 0) || negb (shift_right_u value fromBits =? 0) then invalid_data
      else
        let accumulator' := bit_and (bit_or (shift_left accumulator fromBits) value) maximumAccumulator in
        let bitCount' := bitCount + fromBits in
        let '(l, rest) := push_words (Z.to_nat bitCount') accumulator' bitCount' in
        '(l', a, b) ← convert_values accumulator' rest values';
        Done (l ++ l', a, b)
  end.

Definition convertBits (values : list Z) (pad : bool) : outcome (list Z) :=
  '(l, accumulator, bitCount) ← convert_values 0 0 values;
  let rest := bit_and (shift_left accumulator (toBits - bitCount)) maximumOutput in
  if pad then Done (if 0 <? bitCount then l ++ [rest] else l)
  else if (fromBits <=? bitCount) || negb (rest =? 0)
       then throw_type_error (js "Torium Bech32 account has invalid padding.")
       else Done l.
End convert.

(** ** Accounts *)

(** [bech32Alphabet[word]], joined as text: nothing outside the alphabet. *)
Definition letter_of (word : Z) : jstr :=
  match (if word <? 0 then None else bech32Alphabet !! Z.to_nat word) with Some c => [c] | None => [] end.

Definition encodeBech32Account (bytes : list Z) : outcome jstr :=
  if negb (Nat.eqb (length bytes) 20)
  then throw_type_error (js "Torium account address must contain exactly 20 bytes.")
  else
    words ← convertBits 8 5 bytes true;
    let checksum := createBech32Checksum (js "torium") words in
    Done (js "torium1" +++ concat (map letter_of (words ++ checksum))).

(** [bech32Alphabet.indexOf(character)]. *)
Fixpoint index_of (c : N) (alphabet : jstr) (i : Z) : Z :=
  match alphabet with
  | [] => -1
  | a :: alphabet' => if (c =? a)%N then i else index_of c alphabet' (i + 1)
  end.
Definition word_of_letter (c : N) : Z := index_of c bech32Alphabet 0.

Section decode.
Context (toLowerCase : jstr → jstr).

(** The characters of the payload are code points in the source and code units
    here; a code point of two units is outside the alphabet, and so are both
    units, so the two readings refuse the same texts. *)
Definition decodeBech32Account (value : jstr) : outcome (list Z) :=
  if negb (jlen value =? 45) || negb (value =s? toLowerCase value) || negb (starts_with (js "torium1") value)
  then throw_type_error (js "Torium Bech32 account must use the lowercase torium HRP.")
  else
    let payload := drop 7 value in
    if jlen payload <? 7 then throw_type_error (js "Torium Bech32 account is incomplete.")
    else
      let words := map word_of_letter payload in
      if existsb (λ w, w <? 0) words || negb (verifyBech32Checksum (js "torium") words)
      then throw_type_error (js "Torium Bech32 account has an invalid checksum or alphabet.")
      else
        l ← convertBits 5 8 (take (length words - 6) words) false;
        let bytes := map (λ z, z mod 256) l in
        if negb (Nat.eqb (length bytes) 20)
        then throw_type_error (js "Torium Bech32 account must decode to exactly 20 bytes.")
        else Done bytes.
End decode.
