(* ===== verification/SdkChains.v ===== *)
(** packages/torium-sdk/src/chains.ts: the four chain definitions, caller-owned
    RPC URLs, and the validation of an endpoint by its JSON-RPC answers. *)

From S2P Require Import Prelude JsNum JsText JsRegex SdkValue SdkErrors SdkExecution SdkContracts.

Open Scope Z_scope.

(** ** Chains *)

(** [ToriumClientChain]; its metadata and currency are read by name and compared
    as plain values. *)
Record client_chain := ClientChain {
  chain_id : num;
  chain_name : jstr;
  nativeCurrency : jsv;
  rpc_http : list jstr;
  rpc_webSocket : option (list jstr);
  is_testnet : bool;
  torium : jsv;
}.

(** An object literal with string values. *)
Definition texts (l : list (string * string)) : list (jstr * jsv) := map (λ kv, (js kv.1, JStr (js kv.2))) l.

(** The metadata the four definitions share a shape of. *)
Definition metadata_fields (environment : string) (public : bool) (cosmosChainId chainIdHex : string)
    (networkId : Z) (caip2 endpointStatus : string) : list (jstr * jsv) :=
  texts [("manifestVersion", "0.2.0"); ("environment", environment)]%string
  ++ [(js "public", JBool public)]
  ++ texts [("cosmosChainId", cosmosChainId); ("chainIdHex", chainIdHex)]%string
  ++ [(js "networkId", JNum (NInt networkId))]
  ++ texts [("caip2", caip2); ("baseDenom", "atorium"); ("endpointStatus", endpointStatus);
            ("blockExplorerStatus", "deferred"); ("contractRegistryStatus", "deferred")]%string.

Definition localnetMetadata : jsv :=
  JObj (metadata_fields "localnet" false "torium-localnet-1" "0x544f524c" 1414484556 "eip155:1414484556"
          "local-loopback"
        ++ [(js "rpcProfile", JObj [
              (js "profileVersion", JStr (js "1.0.1"));
              (js "maxBatchRequests", JNum (NInt 100));
              (js "subscriptions", JArr [JStr (js "newHeads"); JStr (js "logs"); JStr (js "newPendingTransactions")]);
              (js "serverReplaysMissedMessages", JBool false);
              (js "clientReconnectRequired", JBool true);
              (js "httpBackfillRequired", JBool true)])]).

Definition devnetMetadata : jsv :=
  JObj (metadata_fields "devnet" false "torium-devnet-1" "0x544f5244" 1414484548 "eip155:1414484548"
          "deferred-unpublished").

Definition testnetMetadata : jsv :=
  JObj (metadata_fields "testnet" true "torium-testnet-1" "0x544f5254" 1414484564 "eip155:1414484564"
          "deferred-unpublished").

Definition mainnetMetadata : jsv :=
  JObj (metadata_fields "mainnet" true "torium-1" "0x544f52" 5525330 "eip155:5525330" "deferred-unpublished").

Definition currency (name symbol : string) : jsv :=
  JObj ((js "decimals", JNum (NInt 18)) :: texts [("name", name); ("symbol", symbol)]%string).

Definition toriumLocalnet : client_chain :=
  ClientChain (NInt 1414484556) (js "Torium Localnet") (currency "Torium Test Token" "tTOR")
    [js "http://127.0.0.1:8545"] (Some [js "ws://127.0.0.1:8546"]) true localnetMetadata.

Definition toriumDevnet : client_chain :=
  ClientChain (NInt 1414484548) (js "Torium Devnet") (currency "Torium Test Token" "tTOR") [] None true devnetMetadata.

Definition toriumTestnet : client_chain :=
  ClientChain (NInt 1414484564) (js "Torium Testnet") (currency "Torium Test Token" "tTOR") [] None true testnetMetadata.

Definition toriumMainnet : client_chain :=
  ClientChain (NInt 5525330) (js "Torium") (currency "Torium" "TOR") [] None false mainnetMetadata.

Inductive environment := localnet | devnet | testnet | mainnet.

Definition environment_text (e : environment) : jstr :=
  match e with
  | localnet => js "localnet" | devnet => js "devnet" | testnet => js "testnet" | mainnet => js "mainnet"
  end.

Definition environments : list environment := [localnet; devnet; testnet; mainnet].

Definition toriumChains (e : environment) : client_chain :=
  match e with
  | localnet => toriumLocalnet | devnet => toriumDevnet | testnet => toriumTestnet | mainnet => toriumMainnet
  end.

Definition getToriumChain (e : environment) : client_chain := toriumChains e.

(** ** Errors *)

Definition plain_endpoint : endpoint_options := EndpointOptions None None JUndef no_context None None None None None.

Definition endpoint_error (code message : jstr) (o : endpoint_options) : thrown :=
  TSdk (new_ToriumEndpointValidationError code message o).

Definition config_invalid (message : jstr) : thrown :=
  endpoint_error (js "TORIUM_ENDPOINT_CONFIG_INVALID") message plain_endpoint.

Definition mismatch (expected actual : jsv) : endpoint_options :=
  EndpointOptions (Some expected) (Some actual) JUndef no_context None None None None None.

Definition with_method (method : jstr) : error_context := ErrorContext None None None (Some method) None None None.

Definition invalidRpcResponse (method : jstr) : thrown :=
  endpoint_error (js "TORIUM_RPC_RESPONSE_INVALID")
    (js "The endpoint returned an invalid " +++ method +++ js " response.") plain_endpoint.

(** ** RPC URLs *)

(** What the [URL] constructor reads. *)
Record url := Url { protocol : jstr; username : jstr; password : jstr }.

Section urls.
Context (new_URL : jstr → option url).

Definition check_url (protocols : list jstr) (value : jstr) : outcome unit :=
  match new_URL value with
  | None => Fails (config_invalid (js "An RPC URL is malformed."))
  | Some u =>
      if negb (jmem (protocol u) protocols)
      then Fails (config_invalid (js "An RPC URL uses an unsupported protocol."))
      else if negb (username u =s? []) || negb (password u =s? [])
      then Fails (config_invalid (js "RPC URLs must not embed credentials."))
      else Done ()
  end.

Fixpoint check_urls (protocols : list jstr) (values : list jstr) : outcome unit :=
  match values with
  | [] => Done ()
  | value :: values' => check_url protocols value;; check_urls protocols values'
  end.

Definition validateUrls (values protocols : list jstr) : outcome unit :=
  if Nat.eqb (length values) 0
  then Fails (config_invalid (js "At least one caller-owned RPC URL is required."))
  else check_urls protocols values.

(** [ToriumRpcUrlOverrides]; viem's [defineChain] keeps the fields it is given. *)
Record rpc_overrides := RpcOverrides { ov_http : list jstr; ov_webSocket : option (list jstr) }.

Definition withToriumRpcUrls (chain : client_chain) (o : rpc_overrides) : outcome client_chain :=
  validateUrls (ov_http o) [js "http:"; js "https:"];;
  match ov_webSocket o with
  | Some l => validateUrls l [js "ws:"; js "wss:"]
  | None => Done ()
  end;;
  Done (ClientChain (chain_id chain) (chain_name chain) (nativeCurrency chain) (ov_http o) (ov_webSocket o)
          (is_testnet chain) (torium chain)).
End urls.

(** ** Reading answers *)

(** [/^0x[0-9a-f]+$/iu]. *)
Definition is_quantity (s : jstr) : bool :=
  match s with
  | 48%N :: x :: ds => ((x =? 120)%N || (x =? 88)%N) && negb (Nat.eqb (length ds) 0) && forallb is_hex_i ds
  | _ => false
  end.

(** [BigInt(s)] of such a text. *)
Definition quantity_value (s : jstr) : Z := radix_value 16 (drop 2 s).

Definition parseHexBigInt (v : jsv) (method : jstr) : outcome Z :=
  match v with
  | JStr s => if is_quantity s then Done (quantity_value s) else Fails (invalidRpcResponse method)
  | _ => Fails (invalidRpcResponse method)
  end.

Definition parseHexNumber (v : jsv) (method : jstr) : outcome Z :=
  parsed ← parseHexBigInt v method;
  if max_safe <? parsed then Fails (invalidRpcResponse method) else Done parsed.

(** [/^[0-9]+$/u]. *)
Definition is_digits (s : jstr) : bool := negb (Nat.eqb (length s) 0) && forallb is_digit s.

Definition parseDecimalNumber (v : jsv) (method : jstr) : outcome Z :=
  match v with
  | JStr s =>
      if is_digits s then
        let parsed := Z_of_dec s in
        if max_safe <? parsed then Fails (invalidRpcResponse method) else Done parsed
      else Fails (invalidRpcResponse method)
  | _ => Fails (invalidRpcResponse method)
  end.

Definition parseBlockHash (v : jsv) : outcome jstr :=
  match jget v (js "hash") with
  | JStr s => if is_hash_text s then Done s else Fails (invalidRpcResponse (js "eth_getBlockByNumber"))
  | _ => Fails (invalidRpcResponse (js "eth_getBlockByNumber"))
  end.

(** [n === v] for an integral number. *)
Definition is_number (n : Z) (v : jsv) : bool := match v with JNum m => num_eqb (NInt n) m | _ => false end.
Definition is_text (s : jstr) (v : jsv) : bool := match v with JStr t => s =s? t | _ => false end.

(** ** Validation of an endpoint *)

Section endpoint.
Context (toLowerCase : jstr → jstr) (W : Type).

(** One JSON-RPC request, and what the requester's [request] settles with. *)
Inductive rpc := Rpc (method : jstr) (params : option (list jsv)).
Context (send : rpc → W → outcome jsv * W).

Abbreviation io := (io W).

(** The failures of a request: the caller's abort, or the classified cause.
    [noun] is the kind of request the message names. *)
Definition rpc_failure (operation noun : jstr) (client : client_kind) (method : jstr) (is_aborted : bool) (t : thrown) : thrown :=
  if is_aborted then
    endpoint_error (js "TORIUM_RPC_ABORTED") (js "The " +++ method +++ js " " +++ noun +++ js " request was cancelled.")
      (EndpointOptions None None (thrown_value t) (with_method method) None None None None None)
  else
    match normalizeToriumError toLowerCase t
            (ErrorContext (Some operation) (Some Read) (Some client) (Some method) None None (Some Transport)) with
    | Fails t' => t'
    | Done e =>
        endpoint_error (js "TORIUM_RPC_REQUEST_FAILED")
          (js "The endpoint failed the " +++ method +++ js " " +++ noun +++ js " request.")
          (EndpointOptions None None (thrown_value t) (with_method method) (Some (err_category e))
             (Some (retryable e)) (rpcCode e) (httpStatus e) (retryAfterMs e))
    end.

Definition signalled (signal : option (W → bool)) (w : W) : bool :=
  match signal with Some sig => sig w | None => false end.

Definition requestRpc (method : jstr) (params : option (list jsv)) (signal : option (W → bool)) : io jsv := λ w,
  let '(r, w') := send (Rpc method params) w in
  match r with
  | Done v => (Done v, w')
  | Fails t =>
      (Fails (rpc_failure (js "validateToriumEndpoint") (js "readiness") Endpoint method (signalled signal w') t), w')
  end.

(** [ValidateToriumEndpointOptions]; a check answers with a promise. *)
Record validate_options := ValidateOptions {
  v_chain : client_chain;
  v_requireReady : option bool;
  v_fingerprint : option jstr;
  v_minimumBlockNumber : option Z;
  v_requireCompatibility : option bool;
  v_compatibilityChecks : list (io bool);
  v_signal : option (W → bool);
}.

Inductive endpoint_status := ready | booting | syncing_.
Inductive fingerprint_status := fingerprint_verified | unavailable_local.

Record endpoint_result := EndpointResult {
  status : endpoint_status;
  observedChainId : Z;
  observedNetworkId : Z;
  blockNumber : Z;
  syncing : bool;
  fingerprintStatus : fingerprint_status;
  compatibilityChecks : nat;
  (** The chain whose environment, manifest version and ids the result repeats. *)
  result_chain : client_chain;
}.

(** The checks of the options, before any request. *)
Definition check_options (requester_chain : option num) (o : validate_options) : outcome unit :=
  (if match v_fingerprint o with Some s => negb (is_hash_text s) | None => false end
   then Fails (config_invalid (js "The expected network fingerprint must be a 32-byte hex block hash.")) else Done ());;
  (if match v_minimumBlockNumber o with Some n => n <? 0 | None => false end
   then Fails (config_invalid (js "The minimum block number must not be negative.")) else Done ());;
  (if default false (v_requireCompatibility o) && Nat.eqb (length (v_compatibilityChecks o)) 0
   then Fails (config_invalid (js "At least one compatibility check is required when compatibility enforcement is enabled."))
   else Done ());;
  match requester_chain with
  | Some id =>
      if num_eqb id (chain_id (v_chain o)) then Done ()
      else Fails (endpoint_error (js "TORIUM_CHAIN_ID_MISMATCH")
             (js "The configured viem client chain does not match the selected Torium environment.")
             (mismatch (JNum (chain_id (v_chain o))) (JNum id)))
  | None => Done ()
  end.

Definition check_chain_id (o : validate_options) (observed : Z) : outcome unit :=
  if num_eqb (NInt observed) (chain_id (v_chain o)) then Done ()
  else Fails (endpoint_error (js "TORIUM_CHAIN_ID_MISMATCH") (js "The endpoint returned a different EIP-155 chain ID.")
         (mismatch (JNum (chain_id (v_chain o))) (JNum (NInt observed)))).

Definition check_network_id (o : validate_options) (observed : Z) : outcome unit :=
  let expected := jget (torium (v_chain o)) (js "networkId") in
  if is_number observed expected then Done ()
  else Fails (endpoint_error (js "TORIUM_NETWORK_ID_MISMATCH") (js "The endpoint returned a different EVM network ID.")
         (mismatch expected (JNum (NInt observed)))).

(** [syncingResponse !== false], for an answer that is false or an object. *)
Definition parse_syncing (v : jsv) : outcome bool :=
  match v with
  | JBool false => Done false
  | _ => if isObjectLike v then Done true else Fails (invalidRpcResponse (js "eth_syncing"))
  end.

Definition status_of (syncing : bool) (blockNumber : Z) : endpoint_status :=
  if syncing then syncing_ else if blockNumber =? 0 then booting else ready.

Definition check_progress (o : validate_options) (status : endpoint_status) (blockNumber : Z) : outcome unit :=
  (match status with
   | syncing_ => if default true (v_requireReady o)
                 then Fails (endpoint_error (js "TORIUM_RPC_SYNCING") (js "The Torium endpoint is still syncing.") plain_endpoint)
                 else Done ()
   | booting => if default true (v_requireReady o)
                then Fails (endpoint_error (js "TORIUM_RPC_NOT_READY")
                       (js "The Torium endpoint has not produced a block yet.") plain_endpoint)
                else Done ()
   | ready => Done ()
   end);;
  match v_minimumBlockNumber o with
  | Some minimum =>
      if blockNumber <? minimum
      then Fails (endpoint_error (js "TORIUM_RPC_STALE") (js "The Torium endpoint is behind the caller's minimum block height.")
             (mismatch (JStr (dec_of_Z minimum)) (JStr (dec_of_Z blockNumber))))
      else Done ()
  | None => Done ()
  end.

(** Whether the truthiness test of the fingerprint passes. *)
Definition given_fingerprint (o : validate_options) : option jstr :=
  match v_fingerprint o with Some s => if s =s? [] then None else Some s | None => None end.

Definition check_fingerprint_given (o : validate_options) : outcome unit :=
  if negb (is_text (js "localnet") (jget (torium (v_chain o)) (js "environment")))
     && negb (bool_decide (is_Some (given_fingerprint o)))
  then Fails (endpoint_error (js "TORIUM_NETWORK_FINGERPRINT_REQUIRED")
         (js "A canonical network fingerprint is required for non-local Torium environments.") plain_endpoint)
  else Done ().

Definition compare_fingerprint (expected : jstr) (genesis : jsv) : outcome unit :=
  observed ← parseBlockHash genesis;
  if toLowerCase observed =s? toLowerCase expected then Done ()
  else Fails (endpoint_error (js "TORIUM_NETWORK_FINGERPRINT_MISMATCH")
         (js "The endpoint genesis fingerprint does not match the selected Torium network.")
         (mismatch (JStr expected) (JStr observed))).

Definition verify_fingerprint (o : validate_options) : io fingerprint_status :=
  match given_fingerprint o with
  | Some expected =>
      genesis ← requestRpc (js "eth_getBlockByNumber") (Some [JStr (js "0x0"); JBool false]) (v_signal o);
      lift W (compare_fingerprint expected genesis);;
      mret fingerprint_verified
  | None => mret unavailable_local
  end.

Definition incompatible (message : jstr) (cause : jsv) : thrown :=
  endpoint_error (js "TORIUM_ENDPOINT_INCOMPATIBLE") message
    (EndpointOptions None None cause no_context None None None None None).

Fixpoint run_checks (checks : list (io bool)) : io unit :=
  match checks with
  | [] => mret ()
  | check :: checks' =>
      compatible ← rethrow W (λ t, incompatible (js "A Torium endpoint compatibility check failed.") (thrown_value t)) check;
      lift W (if negb compatible
              then Fails (incompatible (js "The endpoint failed a required Torium compatibility check.") JUndef)
              else Done ());;
      run_checks checks'
  end.

Definition ask_endpoint (o : validate_options) : io endpoint_result :=
  let request method := requestRpc (js method) None (v_signal o) in
  chainId ← (v ← request "eth_chainId"%string; lift W (parseHexNumber v (js "eth_chainId")));
  lift W (check_chain_id o chainId);;
  networkId ← (v ← request "net_version"%string; lift W (parseDecimalNumber v (js "net_version")));
  lift W (check_network_id o networkId);;
  syncing ← (v ← request "eth_syncing"%string; lift W (parse_syncing v));
  number ← (v ← request "eth_blockNumber"%string; lift W (parseHexBigInt v (js "eth_blockNumber")));
  lift W (check_progress o (status_of syncing number) number);;
  lift W (check_fingerprint_given o);;
  fingerprint ← verify_fingerprint o;
  run_checks (v_compatibilityChecks o);;
  mret (EndpointResult (status_of syncing number) chainId networkId number syncing fingerprint
          (length (v_compatibilityChecks o)) (v_chain o)).

(** [requester_chain] is the id of the requester's own chain, if it has one. *)
Definition validateToriumEndpoint (requester_chain : option num) (o : validate_options) : io endpoint_result :=
  lift W (check_options requester_chain o);; ask_endpoint o.
End endpoint.
