(* ===== verification/SdkUtils.v ===== *)
(** packages/torium-sdk/src/utils.ts: amounts, addresses, hashes, chain ids,
    block references and tagged JSON.  The Bech32 codec is in [Bech32], and the
    uint256 check in [SdkContracts]. *)

From S2P Require Import Prelude JsNum JsText JsValue JsonText.
From S2P Require Import SdkValue SdkErrors SdkExecution SdkContracts SdkChains Bech32.

Open Scope Z_scope.

(** ** Currencies *)

Definition toriumNativeDecimals : Z := 18.
Definition toriumBaseDenom : jstr := js "atorium".
Definition atoriumPerDisplayUnit : Z := 1000000000000000000.

Definition createNativeCurrency (environment : jstr) (name symbol : jsv) (valueStatus : jstr) : jsv :=
  JObj [(js "environment", JStr environment); (js "name", name); (js "symbol", symbol);
        (js "decimals", JNum (NInt toriumNativeDecimals)); (js "baseDenom", JStr toriumBaseDenom);
        (js "valueStatus", JStr valueStatus)].

Definition toriumNativeCurrencies (e : environment) : jsv :=
  let c := nativeCurrency (toriumChains e) in
  createNativeCurrency (environment_text e) (jget c (js "name")) (jget c (js "symbol"))
    (match e with mainnet => js "inactive-prelaunch-no-value-claim" | _ => js "valueless-test-token" end).

Definition environment_of (s : jstr) : option environment :=
  List.find (λ e, environment_text e =s? s) environments.

Definition getToriumNativeCurrency (s : jstr) : outcome jsv :=
  match environment_of s with
  | Some e => Done (toriumNativeCurrencies e)
  | None => throw_range_error (js "Torium environment must match a canonical network definition.")
  end.

(** ** Amounts *)

(** [(?:0|[1-9][0-9]* )(?:\.[0-9]{1,18})?]: the integral part and the fraction. *)
Definition amount_parts (s : jstr) : option (jstr * jstr) :=
  let '(ds, r) := span is_digit s in
  if is_canonical_dec ds then
    match r with
    | [] => Some (ds, [])
    | 46%N :: f => if forallb is_digit f && negb (Nat.eqb (length f) 0) && (jlen f <=? 18) then Some (ds, f) else None
    | _ => None
    end
  else None.

Definition is_amount_text (s : jstr) : bool := bool_decide (is_Some (amount_parts s)).

Section units.
(** viem's conversions between base units and decimal text. *)
Context (parseUnits : jstr → Z → outcome Z) (formatUnits : Z → Z → jstr).

Definition parseToriumAmount (value : jsv) : outcome Z :=
  let invalid := throw_type_error
    (js "Torium amount must be an unsigned locale-neutral decimal with at most 18 fractional digits.") in
  match value with
  | JStr s =>
      if (97 <? jlen s) || negb (is_amount_text s) then invalid
      else z ← parseUnits s toriumNativeDecimals; assertToriumUint256 z
  | _ => invalid
  end.

Definition assert_uint256 (value : jsv) : outcome Z :=
  match value with
  | JBig z => assertToriumUint256 z
  | _ => throw_type_error (js "Torium integer must be represented as bigint.")
  end.

Definition formatToriumAmount (value : jsv) : outcome jstr :=
  z ← assert_uint256 value; Done (formatUnits z toriumNativeDecimals).

Definition parseToriumBaseUnits (value : jsv) : outcome Z :=
  let invalid := throw_type_error (js "Torium base units must be an unsigned canonical base-10 integer.") in
  match value with
  | JStr s => if (78 <? jlen s) || negb (is_canonical_dec s) then invalid else assertToriumUint256 (Z_of_dec s)
  | _ => invalid
  end.

Definition formatToriumBaseUnits (value : jsv) : outcome jstr := z ← assert_uint256 value; Done (dec_of_Z z).
End units.

(** ** Addresses, hashes and hexadecimal data *)

(** [/^0x[0-9a-fA-F]{64}$/u] and [/^0x(?:[0-9a-fA-F]{2})*$/u]. *)
Definition is_exact_hash (s : jstr) : bool :=
  match s with 48%N :: 120%N :: ds => Nat.eqb (length ds) 64 && forallb is_hex ds | _ => false end.

Definition is_byte_text (s : jstr) : bool :=
  match s with 48%N :: 120%N :: ds => Nat.even (length ds) && forallb is_hex ds | _ => false end.

Definition isToriumHash (value : jsv) : bool := match value with JStr s => is_exact_hash s | _ => false end.
Definition isToriumHexData (value : jsv) : bool := match value with JStr s => is_byte_text s | _ => false end.

Section addresses.
Context (toLowerCase : jstr → jstr).
(** viem: [isAddress(value, { strict: true })], [getAddress], [hexToBytes] and
    [bytesToHex]. *)
Context (isAddress : jstr → bool) (getAddress : jstr → outcome jstr).
Context (hexToBytes : jstr → outcome (list Z)) (bytesToHex : list Z → jstr).

Definition normalizeToriumEvmAddress (value : jsv) : outcome jstr :=
  let invalid := throw_type_error
    (js "Torium EVM address must be a valid 20-byte EIP-55 or uniform-case value.") in
  match value with
  | JStr s => if negb (isAddress s) then invalid else getAddress s
  | _ => invalid
  end.

Definition isToriumEvmAddress (value : jsv) : bool := match value with JStr s => isAddress s | _ => false end.

Definition toriumEvmAddressToBech32 (value : jsv) : outcome jstr :=
  address ← normalizeToriumEvmAddress value;
  bytes ← hexToBytes address;
  encodeBech32Account bytes.

Definition toriumBech32AddressToEvm (value : jstr) : outcome jstr :=
  bytes ← decodeBech32Account toLowerCase value; getAddress (bytesToHex bytes).

Definition isToriumAccountAddress (value : jsv) : bool :=
  match value with
  | JStr s => match decodeBech32Account toLowerCase s with Done _ => true | Fails _ => false end
  | _ => false
  end.

Definition normalizeToriumHash (value : jsv) : outcome jstr :=
  let invalid := throw_type_error (js "Torium hash must be an exact 32-byte 0x-prefixed hexadecimal value.") in
  match value with
  | JStr s => if is_exact_hash s then Done (toLowerCase s) else invalid
  | _ => invalid
  end.

Definition normalizeToriumHexData (value : jsv) : outcome jstr :=
  let invalid := throw_type_error (js "Torium hex data must be 0x-prefixed and contain complete bytes.") in
  match value with
  | JStr s => if is_byte_text s then Done (toLowerCase s) else invalid
  | _ => invalid
  end.

(** ** Block references *)

Definition toriumBlockTags : list jstr := [js "earliest"; js "latest"; js "pending"; js "safe"; js "finalized"].

(** The reference as it was given, or the hash in lower case. *)
Definition normalizeToriumBlockReference (value : jsv) : outcome jsv :=
  match value with
  | JBig z => n ← assertToriumUint256 z; Done (JBig n)
  | JStr s =>
      if jmem s toriumBlockTags then Done (JStr s)
      else h ← normalizeToriumHash (JStr s); Done (JStr h)
  | _ => throw_type_error (js "Torium block reference must be a bigint, hash or standard tag.")
  end.
End addresses.

(** ** Chain ids *)

(** [id === value] for the id of a chain. *)
Definition has_id (value : jsv) (e : environment) : bool :=
  match value with JNum n => num_eqb (chain_id (toriumChains e)) n | _ => false end.

Definition isToriumChainId (value : jsv) : bool :=
  match value with JNum n => is_safe_integer n | _ => false end && existsb (has_id value) environments.

Definition assertToriumChainId (value : jsv) : outcome jsv :=
  if negb (isToriumChainId value)
  then throw_range_error (js "Torium chain ID must match a canonical versioned replay domain.")
  else Done value.

Definition getToriumChainById (value : jsv) : outcome client_chain :=
  chainId ← assertToriumChainId value;
  match List.find (has_id chainId) environments with
  | Some e => Done (toriumChains e)
  | None => throw_range_error (js "Torium chain ID is not available in this manifest.")
  end.

(** ** Tagged JSON *)

Definition toriumBigIntTag : jstr := js "$torium.bigint".

(** [Object.prototype.hasOwnProperty.call(candidate, tag)] of a record. *)
Definition has_tag (fs : list (jstr * jsv)) : bool := jmem toriumBigIntTag (map fst fs).

(** What [JSON.stringify] prints after the replacer; functions and undefined
    print as undefined does.  A value of this model has no [toJSON] method. *)
Fixpoint replaced (v : jsv) : outcome value :=
  match v with
  | JUndef | JFun _ => Done VUndef
  | JNull => Done VNull
  | JBool b => Done (VBool b)
  | JNum n => Done (VNum n)
  | JStr s => Done (VStr s)
  | JBig z => Done (VObj [(toriumBigIntTag, VStr (dec_of_Z z))])
  | JArr l =>
      vs ← (fix go (l : list jsv) : outcome (list value) :=
              match l with [] => Done [] | x :: l' => y ← replaced x; ys ← go l'; Done (y :: ys) end) l;
      Done (VArr vs)
  | JObj fs =>
      if has_tag fs then throw_type_error (js "Torium JSON value contains a reserved serialization tag.")
      else
        vs ← (fix go (fs : list (jstr * jsv)) : outcome (list (jstr * value)) :=
                match fs with [] => Done [] | (k, x) :: fs' => y ← replaced x; ys ← go fs'; Done ((k, y) :: ys) end) fs;
        Done (VObj vs)
  end.

(** The number of spaces of an indentation, from [space]. *)
Definition json_gap (space : option num) : nat :=
  match space with
  | Some (Fin q) => Z.to_nat (Z.min 10 (num_Z (num_floor (Fin q))))
  | Some (Infinity false) => 10
  | _ => O
  end.

Definition stringifyToriumJson (v : jsv) (space : option num) : outcome jstr :=
  serialized ← replaced v;
  match serialized with
  | VUndef => throw_type_error (js "Torium JSON root must be a serializable value.")
  | _ => Done (stringify (json_gap space) 0 serialized)
  end.

(** [/^(?:0|-[1-9][0-9]*|[1-9][0-9]* )$/u] and [BigInt] of such a text. *)
Definition is_signed_dec (s : jstr) : bool :=
  match s with
  | 45%N :: ds => is_canonical_dec ds && negb (ds =s? js "0")
  | _ => is_canonical_dec s
  end.
Definition signed_value (s : jstr) : Z := match s with 45%N :: ds => - Z_of_dec ds | _ => Z_of_dec s end.

(** The reviver on a value whose members have been revived. *)
Definition revive (candidate : jsv) : outcome jsv :=
  match candidate with
  | JObj [(k, x)] =>
      match (if k =s? toriumBigIntTag then x else JUndef) with
      | JStr encoded =>
          if is_signed_dec encoded then Done (JBig (signed_value encoded))
          else throw_type_error (js "Torium JSON contains an invalid bigint envelope.")
      | _ => Done candidate
      end
  | _ => Done candidate
  end.

Fixpoint revived (v : value) : outcome jsv :=
  match v with
  | VUndef => Done JUndef
  | VNull => Done JNull
  | VBool b => Done (JBool b)
  | VNum n => Done (JNum n)
  | VStr s => Done (JStr s)
  | VArr l =>
      vs ← (fix go (l : list value) : outcome (list jsv) :=
              match l with [] => Done [] | x :: l' => y ← revived x; ys ← go l'; Done (y :: ys) end) l;
      revive (JArr vs)
  | VObj fs =>
      vs ← (fix go (fs : list (jstr * value)) : outcome (list (jstr * jsv)) :=
              match fs with [] => Done [] | (k, x) :: fs' => y ← revived x; ys ← go fs'; Done ((k, y) :: ys) end) fs;
      revive (JObj vs)
  end.

Definition parseToriumJson (value : jsv) : outcome jsv :=
  match value with
  | JStr s =>
      match json_parse s with
      | Ok v => revived v
      | Throw _ => Fails (TOther (js_error (js "SyntaxError") (js "Torium JSON input is not valid JSON.")))
      end
  | _ => throw_type_error (js "Torium JSON input must be a string.")
  end.
