(* ===== verification/SdkClients.v ===== *)
(** packages/torium-sdk/src/clients.ts: read capabilities, log ranges, and the
    network status of an endpoint. *)

From S2P Require Import Prelude JsNum JsText JsValue SdkValue SdkErrors SdkExecution SdkContracts SdkChains.

Open Scope Z_scope.

(** ** Capabilities *)

Definition obj (l : list (string * jsv)) : jsv := JObj (map (λ kv, (js kv.1, kv.2)) l).
Definition txt (s : string) : jsv := JStr (js s).
Definition int (z : Z) : jsv := JNum (NInt z).

Definition finality : jsv :=
  obj [("defaultConfirmationBlocks", int 1); ("label", txt "CometBFT committed");
       ("finalizedTagMeaning", txt "latest-committed-cometbft-state"); ("beaconChainSemantics", JBool false);
       ("probabilisticConfirmation", JBool false); ("boundedInclusionClaim", JBool false);
       ("replacementGenesisIsDiscontinuity", JBool true)]%string.

Definition profile_support : jsv := obj [("baseline", txt "supported"); ("activeLocalProfile", txt "supported")]%string.

Definition blockTags : jsv :=
  obj [("latest", obj [("block", txt "supported"); ("state", txt "supported")]);
       ("pending", obj [("block", txt "partial"); ("state", txt "partial"); ("distinctStateViewProven", JBool false)]);
       ("safe", obj [("block", txt "partial"); ("state", txt "unsupported")]);
       ("finalized", obj [("block", txt "partial"); ("state", txt "partial");
                          ("meaning", txt "latest-committed-cometbft-state")])]%string.

Definition feeHistoryBlocks : Z := 100.
Definition logBlockRange : Z := 10000.

Definition toriumReadCapabilities : jsv :=
  obj [("schemaVersion", int 1);
       ("baseline", obj [("cosmosEvm", txt "v0.7.0"); ("viem", txt "2.55.2")]);
       ("blockTags", blockTags); ("finality", finality);
       ("subscriptions", obj [("newHeads", profile_support); ("logs", profile_support);
          ("pendingTransactions", profile_support); ("browserWebSocket", txt "unsupported");
          ("serverReplay", JBool false); ("reconnectOwner", txt "client"); ("httpBackfillRequired", JBool true)]);
       ("limits", obj [("feeHistoryBlocks", int feeHistoryBlocks); ("logBlockRange", int logBlockRange);
          ("logResults", int 10000); ("ethCallGas", int 25000000); ("ethCallTimeoutMilliseconds", int 5000)]);
       ("cosmosExtension", obj [("status", txt "stub"); ("usable", JBool false)])]%string.

Inductive state_tag := tag_latest | tag_pending | tag_safe | tag_finalized.

Definition tag_text (t : state_tag) : jstr :=
  match t with
  | tag_latest => js "latest" | tag_pending => js "pending" | tag_safe => js "safe" | tag_finalized => js "finalized"
  end.

Record state_capability := StateCapability {
  capability_state : jsv;
  usableByStableHelper : bool;
  capability_meaning : option jsv;
}.

Definition getToriumStateQueryCapability (blockTag : state_tag) : state_capability :=
  let capability := jget (jget toriumReadCapabilities (js "blockTags")) (tag_text blockTag) in
  StateCapability (jget capability (js "state"))
    (match blockTag with tag_latest | tag_finalized => true | _ => false end)
    (match jget capability (js "meaning") with JUndef => None | m => Some m end).

(** ** Log ranges *)

Record block_range := BlockRange { fromBlock : Z; toBlock : Z }.

(** [for (let start = fromBlock; start <= toBlock; start += maximumSpan)]. *)
Fixpoint log_ranges (fuel : nat) (start last : Z) : list block_range :=
  match fuel with
  | O => []
  | S fuel' =>
      if start <=? last then
        let stop := start + logBlockRange - 1 in
        BlockRange start (if stop <? last then stop else last) :: log_ranges fuel' (start + logBlockRange) last
      else []
  end.

(** Each turn moves the start by the span. *)
Definition range_fuel (first last : Z) : nat := Z.to_nat ((last - first) / logBlockRange + 1).

Definition createToriumLogRanges (r : block_range) : outcome (list block_range) :=
  if (fromBlock r <? 0) || (toBlock r <? 0)
  then throw_range_error (js "Torium log ranges must not use negative blocks.")
  else if toBlock r <? fromBlock r
  then throw_range_error (js "Torium log range end must not precede its start.")
  else Done (log_ranges (range_fuel (fromBlock r) (toBlock r)) (fromBlock r) (toBlock r)).

Definition assertToriumFeeHistoryBlockCount (blockCount : num) : outcome unit :=
  if negb (is_integer blockCount) || num_ltb blockCount (NInt 1) || num_ltb (NInt feeHistoryBlocks) blockCount
  then throw_range_error (js "Torium fee history block count must be an integer from 1 to "
         +++ dec_of_Z feeHistoryBlocks +++ js ".")
  else Done ().

(** ** Network status *)

Definition invalidStatusResponse (method : jstr) : thrown :=
  endpoint_error (js "TORIUM_RPC_RESPONSE_INVALID")
    (js "The endpoint returned an invalid " +++ method +++ js " network-status response.") plain_endpoint.

Definition parseString (v : jsv) (method : jstr) : outcome jstr :=
  match v with
  | JStr s => if jlen s =? 0 then Fails (invalidStatusResponse method) else Done s
  | _ => Fails (invalidStatusResponse method)
  end.

Definition parseBoolean (v : jsv) (method : jstr) : outcome bool :=
  match v with JBool b => Done b | _ => Fails (invalidStatusResponse method) end.

(** A quantity, or the bare number that the node returns for [net_peerCount]. *)
Definition parseHexBigInt (v : jsv) (method : jstr) : outcome Z :=
  match v with
  | JStr s => if is_quantity s then Done (quantity_value s) else Fails (invalidStatusResponse method)
  | JNum n => if is_safe_integer n && num_leb (NInt 0) n then Done (num_Z n) else Fails (invalidStatusResponse method)
  | _ => Fails (invalidStatusResponse method)
  end.

Section status.
Context (toLowerCase : jstr → jstr) (W : Type) (user_aborted timer_fired : W → bool).
Context (now : W → Z) (random : W → num) (wait : num → W → W).
Context (send : rpc → W → outcome jsv * W).

Abbreviation io := (io W).

Definition status_operation : jstr := js "getToriumNetworkStatus".

Definition requestStatusRpc (method : jstr) (signal : option (W → bool)) : io jsv := λ w,
  let '(r, w') := send (Rpc method None) w in
  match r with
  | Done v => (Done v, w')
  | Fails t =>
      (Fails (rpc_failure toLowerCase status_operation (js "network-status") Public method (signalled W signal w') t), w')
  end.

Record status_options := StatusOptions {
  s_requireReady : option bool;
  s_minimumBlockNumber : option Z;
  s_fingerprint : option jstr;
  s_action : action_options;
}.

Record network_status := NetworkStatus {
  endpoint_part : endpoint_result;
  clientVersion : jstr;
  listening : bool;
  peerCount : Z;
  status_finality : jsv;
}.

Definition network_status_action (chain : client_chain) (o : status_options) (sig : W → bool) : io network_status :=
  endpoint ← validateToriumEndpoint toLowerCase W send (Some (chain_id chain))
    (ValidateOptions W chain (s_requireReady o) (s_fingerprint o) (s_minimumBlockNumber o) None [] (Some sig));
  version ← (v ← requestStatusRpc (js "web3_clientVersion") (Some sig); lift W (parseString v (js "web3_clientVersion")));
  listening ← (v ← requestStatusRpc (js "net_listening") (Some sig); lift W (parseBoolean v (js "net_listening")));
  peers ← (v ← requestStatusRpc (js "net_peerCount") (Some sig); lift W (parseHexBigInt v (js "net_peerCount")));
  mret (NetworkStatus endpoint version listening peers finality).

(** The handler around the action: a cancellation is reported as the endpoint's. *)
Definition status_failure (chain : client_chain) (requestId : option jstr) (t : thrown) : thrown :=
  match t with
  | TSdk e =>
      match err_category e, SdkValue.endpoint e with
      | Cancellation, None =>
          endpoint_error (js "TORIUM_RPC_ABORTED") (js "The Torium network-status action was cancelled.")
            (EndpointOptions None None (thrown_value t)
               (ErrorContext (Some status_operation) None (Some Public) (Some (js "torium_networkStatus"))
                  (Some (chain_id chain)) requestId None) None None None None None)
      | _, _ => t
      end
  | TOther _ => t
  end.

Definition getToriumNetworkStatus (chain : client_chain) (o : status_options) (w : W)
    : outcome network_status * W * list entry :=
  let '(r, w', trace) :=
    runToriumReadAction toLowerCase W user_aborted timer_fired now random wait
      (λ sig _, network_status_action chain o sig)
      (ErrorContext (Some status_operation) None (Some Public) (Some (js "torium_networkStatus")) (Some (chain_id chain)) None None)
      (s_action o) w in
  (match r with Done s => Done s | Fails t => Fails (status_failure chain (opt_requestId (s_action o)) t) end, w', trace).
End status.
