(* ===== verification/SdkWallet.v ===== *)
(** packages/torium-sdk/src/wallet.ts: transaction requests, their preflight, the
    single submission, and the wait for a receipt. *)

From Stdlib Require Import QArith.
From S2P Require Import Prelude JsNum JsText JsValue JsonText.
From S2P Require Import SdkValue SdkErrors SdkExecution SdkContracts SdkChains SdkUtils SdkClients.

Open Scope Z_scope.

Definition toriumMaxTransactionGas : Z := 25000000.
Definition toriumMaxEncodedTransactionBytes : Z := 131072.
Definition toriumMinimumBaseFeePerGas : Z := 1000000000.
Definition toriumMinimumPriorityFeePerGas : Z := 1.

Definition toriumTransactionCapabilities : jsv :=
  obj [("schemaVersion", int 1); ("scope", txt "sdk-0.1-stable-helper");
       ("baseline", obj [("cosmosEvm", txt "v0.7.0"); ("viem", txt "2.55.2")]);
       ("envelopes", obj [
          ("viemWallet", obj [("legacy", txt "supported"); ("eip2930", txt "supported"); ("eip1559", txt "supported")]);
          ("stableHelper", obj [("eip1559", txt "supported"); ("eip4844", txt "unsupported"); ("eip7702", txt "unsupported")]);
          ("customToriumEnvelope", JBool false)]);
       ("submission", obj [("rpcHashIsAcknowledgementOnly", JBool true); ("retentionGuaranteed", JBool false);
          ("boundedInclusion", JBool false); ("automaticWriteRetry", JBool false)]);
       ("nonce", obj [("pendingState", txt "partial"); ("conflictPreflight", txt "best-effort")]);
       ("fees", obj [("pricingModel", txt "eip1559"); ("minimumBaseFeePerGas", JBig toriumMinimumBaseFeePerGas);
          ("minimumPriorityFeePerGas", JBig toriumMinimumPriorityFeePerGas)]);
       ("replacement", obj [("state", txt "partial"); ("detectionDefault", JBool false);
          ("activeLocalProfile", obj [("minimumFeeCapBumpPercent", int 10); ("minimumTipCapBumpPercent", int 10);
             ("scope", txt "receiving-node-only")]);
          ("historicalBaseline", obj [("rejectedBumpPercent", int 5); ("acceptedBumpPercent", int 100)]);
          ("networkPropagationGuaranteed", JBool false)]);
       ("cancellation", obj [("state", txt "unsupported")]);
       ("finality", obj [("defaultConfirmationBlocks", int 1); ("label", txt "CometBFT committed");
          ("beaconChainSemantics", JBool false)])]%string.

(** ** Canonical chains *)

(** [Object.keys(v).sort()] and [v[key]] of an object or an array. *)
Definition object_keys (v : jsv) : list jstr :=
  match v with
  | JObj fs => map fst fs
  | JArr l => map (λ i, dec_of_Z (Z.of_nat i)) (seq 0 (length l))
  | _ => []
  end.
Definition object_get (v : jsv) (k : jstr) : jsv :=
  match v with
  | JArr l => match array_index k with Some i => nth (Z.to_nat i) l JUndef | None => JUndef end
  | _ => jget v k
  end.

(** [Object.is] on primitives; two objects are compared below by what they
    hold, which also covers one object compared to itself. *)
Definition object_is (a b : jsv) : bool :=
  match a, b with
  | JUndef, JUndef | JNull, JNull => true
  | JBool x, JBool y => Bool.eqb x y
  | JNum x, JNum y => match x, y with Fin p, Fin q => Qeq_bool p q | _, _ => num_is x y end
  | JBig x, JBig y => x =? y
  | JStr x, JStr y => x =s? y
  | _, _ => false
  end.

Definition is_array (v : jsv) : bool := match v with JArr _ => true | _ => false end.

Fixpoint same_from (fuel : nat) (left right : jsv) : bool :=
  match fuel with
  | O => false
  | S fuel' =>
      if object_is left right then true
      else if negb (isObjectLike left) || negb (isObjectLike right) || negb (Bool.eqb (is_array left) (is_array right))
      then false
      else
        let leftKeys := sort_strings (object_keys left) in
        let rightKeys := sort_strings (object_keys right) in
        Nat.eqb (length leftKeys) (length rightKeys)
        && forallb (λ kk : jstr * jstr, (kk.1 =s? kk.2) && same_from fuel' (object_get left kk.1) (object_get right kk.1))
             (zip leftKeys rightKeys)
  end.

(** The depth of a value bounds the recursion on it. *)
Fixpoint depth (v : jsv) : nat :=
  match v with
  | JArr l => S ((fix go (l : list jsv) : nat := match l with [] => O | x :: l' => Nat.max (depth x) (go l') end) l)
  | JObj fs => S ((fix go (fs : list (jstr * jsv)) : nat := match fs with [] => O | (_, x) :: fs' => Nat.max (depth x) (go fs') end) fs)
  | _ => 1%nat
  end.

Definition sameCanonicalValue (left right : jsv) : bool := same_from (S (depth left)) left right.

Definition assertToriumChain (chain : client_chain) : outcome unit :=
  chainId ← assertToriumChainId (JNum (chain_id chain));
  canonical ← getToriumChainById chainId;
  if negb (isObjectLike (torium chain)) || negb (sameCanonicalValue (torium chain) (torium canonical))
     || negb (sameCanonicalValue (nativeCurrency chain) (nativeCurrency canonical))
  then throw_type_error (js "Torium wallet client requires a canonical Torium chain definition.")
  else Done ().

(** viem's [createWalletClient] is only reached with a canonical chain. *)
Definition createToriumWalletClient {C} (createWalletClient : client_chain → outcome C) (chain : client_chain) : outcome C :=
  assertToriumChain chain;; createWalletClient chain.

(** ** Requests *)

Definition assertTransactionGas (value : jsv) : outcome Z :=
  z ← assert_uint256 value;
  if toriumMaxTransactionGas <? z then throw_range_error (js "Torium transaction gas exceeds the local block gas limit.")
  else Done z.

Definition assertTransactionNonce (value : jsv) : outcome unit :=
  let invalid := throw_range_error (js "Torium transaction nonce must be a non-negative safe integer.") in
  match value with
  | JNum n => if negb (is_safe_integer n) || num_ltb n (NInt 0) then invalid else Done ()
  | _ => invalid
  end.

Definition toriumTransactionRequestKeys : list jstr :=
  [js "account"; js "to"; js "data"; js "value"; js "gas"; js "nonce"; js "maxFeePerGas";
   js "maxPriorityFeePerGas"; js "type"; js "accessList"].

(** [if (v !== undefined) check(v)]. *)
Definition if_given {A} (v : jsv) (check : jsv → outcome A) : outcome unit :=
  if is_jundef v then Done () else check v;; Done ().

(** [v ?? d] of an optional bigint. *)
Definition big_or (v : jsv) (d : Z) : Z := match v with JBig z => z | _ => d end.

Section request.
Context (toLowerCase : jstr → jstr) (isAddress : jstr → bool) (getAddress : jstr → outcome jstr).
Abbreviation normalizeToriumEvmAddress := (normalizeToriumEvmAddress isAddress getAddress).

Fixpoint map_outcome {A B} (f : A → outcome B) (l : list A) : outcome (list B) :=
  match l with
  | [] => Done []
  | x :: l' => y ← f x; ys ← map_outcome f l'; Done (y :: ys)
  end.

Definition normalize_entry (entry : jsv) : outcome jsv :=
  match jget entry (js "storageKeys") with
  | JArr keys =>
      address ← normalizeToriumEvmAddress (jget entry (js "address"));
      hashes ← map_outcome (normalizeToriumHash toLowerCase) keys;
      Done (JObj [(js "address", JStr address); (js "storageKeys", JArr (map JStr hashes))])
  | _ => throw_type_error (js "Torium transaction access-list entry is invalid.")
  end.

Definition normalizeAccessList (accessList : jsv) : outcome jsv :=
  match accessList with
  | JUndef => Done JUndef
  | JArr l => entries ← map_outcome normalize_entry l; Done (JArr entries)
  | _ => throw_type_error (js "Torium transaction access list must be an array.")
  end.

(** An account object is shared with its owner: [address_now] is what its
    [address] property holds when it is read. *)
Context (address_now : jsv → jsv).

Definition getAccountAddress (account : jsv) : outcome jstr :=
  normalizeToriumEvmAddress (match account with JStr s => JStr s | _ => address_now account end).

Definition normalize_to (to : jsv) : outcome jsv :=
  if is_jnullish to then Done to else a ← normalizeToriumEvmAddress to; Done (JStr a).

Definition normalize_data (data : jsv) : outcome jsv :=
  if is_jundef data then Done JUndef else d ← normalizeToriumHexData toLowerCase data; Done (JStr d).

Definition check_data (to data : jsv) : outcome unit :=
  (if is_jnullish to && match data with JUndef => true | JStr s => s =s? js "0x" | _ => false end
   then throw_type_error (js "Torium contract deployment requires non-empty standard EVM bytecode.") else Done ());;
  match data with
  | JStr s =>
      if toriumMaxEncodedTransactionBytes * 2 <=? jlen s - 2
      then throw_range_error (js "Torium transaction data cannot fit within the encoded transaction limit.")
      else Done ()
  | _ => Done ()
  end.

Definition priority_below_minimum {A} : outcome A :=
  throw_range_error (js "Torium maximum priority fee is below the protocol minimum.").
Definition fee_below_base {A} : outcome A :=
  throw_range_error (js "Torium maximum fee cannot cover the protocol base fee and priority fee.").
Definition priority_above_fee {A} : outcome A :=
  throw_range_error (js "Torium maximum priority fee must not exceed the maximum fee.").

(** The comparisons of the fees that are given, both uint256 by then. *)
Definition check_fees (maxFee priority : jsv) : outcome unit :=
  (match priority with
   | JBig p => if p <? toriumMinimumPriorityFeePerGas then priority_below_minimum else Done ()
   | _ => Done ()
   end);;
  (match maxFee with
   | JBig m => if m <? toriumMinimumBaseFeePerGas + big_or priority toriumMinimumPriorityFeePerGas
               then fee_below_base else Done ()
   | _ => Done ()
   end);;
  match maxFee, priority with
  | JBig m, JBig p => if m <? p then priority_above_fee else Done ()
  | _, _ => Done ()
  end.

(** The entries of an object, [undefined] ones too. *)
Definition own_fields (request : jsv) : list (jstr * jsv) :=
  match request with
  | JObj fs => fs
  | JArr l => zip (object_keys request) l
  | _ => []
  end.

(** [{ ...fields, ...updates }]. *)
Definition spread (fields updates : list (jstr * jsv)) : list (jstr * jsv) :=
  fold_left (λ fs kv, set_own kv.1 kv.2 fs) updates fields.

Definition normalizeToriumTransactionRequest (request : jsv) : outcome jsv :=
  if negb (isObjectLike request) then throw_type_error (js "Torium transaction request must be an object.")
  else if existsb (λ k, negb (jmem k toriumTransactionRequestKeys)) (object_keys request)
  then throw_type_error (js "Torium stable transaction helper received an unsupported standard EVM field.")
  else
    let get k := jget request (js k) in
    if is_jnullish (get "account"%string) then throw_type_error (js "Torium transaction requires an explicit account.")
    else if negb (is_jundef (get "type"%string)) && negb (is_text (js "eip1559") (get "type"%string))
    then throw_type_error (js "Torium stable transaction helper accepts EIP-1559 requests only.")
    else
      accountAddress ← getAccountAddress (get "account"%string);
      let account := match get "account"%string with JStr _ => JStr accountAddress | a => a end in
      to ← normalize_to (get "to"%string);
      data ← normalize_data (get "data"%string);
      check_data to data;;
      if_given (get "value"%string) assert_uint256;;
      if_given (get "gas"%string) assertTransactionGas;;
      if_given (get "nonce"%string) assertTransactionNonce;;
      if_given (get "maxFeePerGas"%string) assert_uint256;;
      if_given (get "maxPriorityFeePerGas"%string) assert_uint256;;
      check_fees (get "maxFeePerGas"%string) (get "maxPriorityFeePerGas"%string);;
      accessList ← normalizeAccessList (get "accessList"%string);
      Done (removeUndefined (spread (own_fields request)
        [(js "type", JStr (js "eip1559")); (js "account", account); (js "to", to); (js "data", data);
         (js "accessList", accessList)])).
End request.

(** ** Preflight *)

Inductive preflight_blocker := gas_below_estimate | insufficient_funds | nonce_mismatch.

#[export] Instance preflight_blocker_eq_dec : EqDecision preflight_blocker.
Proof. solve_decision. Defined.

Definition blocker_text (b : preflight_blocker) : jstr :=
  match b with
  | gas_below_estimate => js "gas-below-estimate"
  | insufficient_funds => js "insufficient-funds"
  | nonce_mismatch => js "nonce-mismatch"
  end.

Record preflight := Preflight {
  p_chainId : num;
  p_account : jstr;
  p_to : jsv;
  p_data : jsv;
  p_value : Z;
  p_accessList : jsv;
  gasEstimate : Z;
  gasLimit : Z;
  maxFeePerGas : Z;
  maxPriorityFeePerGas : Z;
  maximumCost : Z;
  balance : Z;
  pendingNonce : num;
  requestedNonce : num;
  encodedTransactionBytes : num;
  canSubmit : bool;
  blockers : list preflight_blocker;
}.

(** The fields that viem's [serializeTransaction] is given. *)
Record signed_fields := SignedFields {
  f_chainId : num; f_nonce : num; f_maxFeePerGas : Z; f_maxPriorityFeePerGas : Z; f_gas : Z;
  f_to : jsv; f_value : Z; f_data : jsv; f_accessList : jsv;
}.

(** [v ?? d]. *)
Definition nullish_or (v d : jsv) : jsv := if is_jnullish v then d else v.

Section wallet.
Context (toLowerCase : jstr → jstr) (isAddress : jstr → bool) (getAddress : jstr → outcome jstr).
(** [serializeTransaction] of an EIP-1559 transaction with the longest signature. *)
Context (serializeTransaction : signed_fields → outcome jstr).

(** The outside world, and what has been asked of the user and submitted. *)
Context (V : Type).
Context (address_now : V → jsv → jsv).

Inductive event := Authorization (p : preflight) (granted : bool) | Submission (transaction : jsv).

Definition world : Type := V * list event.
Abbreviation io := (io world).

(** A step of the outside world. *)
Definition outside {A} (m : V → outcome A * V) : io A := λ w,
  let '(r, v) := m w.1 in (r, (v, w.2)).

(** [ToriumPreflightClient]. *)
Record preflight_client := PreflightClient {
  pc_chain : client_chain;
  getChainId : V → outcome num * V;
  call : jsv → V → outcome unit * V;
  estimateGas : jsv → V → outcome Z * V;
  estimateFeesPerGas : V → outcome (Z * Z) * V;
  getBalance : jstr → V → outcome Z * V;
  getTransactionCount : jstr → V → outcome num * V;
}.

Definition normalize_now (request : jsv) : io jsv := λ w,
  (normalizeToriumTransactionRequest toLowerCase isAddress getAddress (address_now w.1) request, w).
Definition account_now (account : jsv) : io jstr := λ w,
  (getAccountAddress isAddress getAddress (address_now w.1) account, w).

(** [Promise.all] of the four reads, all of them started; of several failures
    the model takes the first in the list. *)
Definition read_all (c : preflight_client) (simulation : jsv) (account : jstr) : io (Z * (Z * Z) * Z * num) := λ w,
  let '(gas, w1) := outside (estimateGas c simulation) w in
  let '(fees, w2) := outside (estimateFeesPerGas c) w1 in
  let '(funds, w3) := outside (getBalance c account) w2 in
  let '(nonce, w4) := outside (getTransactionCount c account) w3 in
  (gas ← gas; fees ← fees; funds ← funds; nonce ← nonce; Done (gas, fees, funds, nonce), w4).

Definition getMaximumSignedTransactionBytes (f : signed_fields) : outcome num :=
  serialized ← serializeTransaction f; Done (num_of_Q ((jlen serialized - 2) # 2)).

(** Everything after the four reads. *)
Definition assess (chainId : num) (account : jstr) (normalized : jsv) (estimate : Z) (fees : Z * Z) (funds : Z) (pending : num)
    : outcome preflight :=
  let get k := jget normalized (js k) in
  assertTransactionGas (JBig estimate);;
  assertTransactionNonce (JNum pending);;
  let gasLimit := big_or (get "gas"%string) estimate in
  let maxFee := big_or (get "maxFeePerGas"%string) fees.1 in
  let priority := big_or (get "maxPriorityFeePerGas"%string) fees.2 in
  assertToriumUint256 maxFee;;
  assertToriumUint256 priority;;
  (if maxFee <? priority then priority_above_fee else Done ());;
  (if priority <? toriumMinimumPriorityFeePerGas then priority_below_minimum else Done ());;
  (if maxFee <? toriumMinimumBaseFeePerGas + priority then fee_below_base else Done ());;
  let value := big_or (get "value"%string) 0 in
  cost ← assertToriumUint256 (gasLimit * maxFee + value);
  let nonce := match get "nonce"%string with JNum n => n | _ => pending end in
  let data := nullish_or (get "data"%string) (JStr (js "0x")) in
  let accessList := nullish_or (get "accessList"%string) (JArr []) in
  bytes ← getMaximumSignedTransactionBytes
    (SignedFields chainId nonce maxFee priority gasLimit (get "to"%string) value data accessList);
  (if num_ltb (NInt toriumMaxEncodedTransactionBytes) bytes
   then throw_range_error (js "Torium signed transaction exceeds the encoded transaction limit.") else Done ());;
  let found := (if gasLimit <? estimate then [gas_below_estimate] else [])
    ++ (if funds <? cost then [insufficient_funds] else [])
    ++ (if num_eqb nonce pending then [] else [nonce_mismatch]) in
  Done (Preflight chainId account (nullish_or (get "to"%string) JNull) data value accessList estimate gasLimit maxFee priority
          cost funds pending nonce bytes (Nat.eqb (length found) 0) found).

Definition preflightToriumTransactionImpl (c : preflight_client) (request : jsv) (sig : world → bool) : io preflight :=
  check_signal world sig;;
  normalized ← normalize_now request;
  account ← account_now (jget normalized (js "account"));
  lift world (assertToriumChain (pc_chain c));;
  observed ← outside (getChainId c);
  check_signal world sig;;
  lift world (if num_eqb observed (chain_id (pc_chain c)) then Done ()
              else throw_range_error (js "Torium preflight endpoint does not match the configured chain."));;
  let simulation := removeUndefined (spread (own_fields normalized) [(js "account", JStr account); (js "gas", JUndef)]) in
  outside (call c simulation);;
  check_signal world sig;;
  '(estimate, fees, funds, pending) ← read_all c simulation account;
  check_signal world sig;;
  lift world (assess observed account normalized estimate fees funds pending).

(** ** Submission *)

(** [ToriumTransactionSender]. *)
Record transaction_sender := TransactionSender {
  ts_chain : client_chain;
  sendTransaction : jsv → V → outcome jsv * V;
}.

Definition submit (c : transaction_sender) (transaction : jsv) : io jsv := λ w,
  let '(r, v) := sendTransaction c transaction w.1 in (r, (v, w.2 ++ [Submission transaction])).

Definition ask_user (authorize : preflight → V → outcome bool * V) (p : preflight) : io bool := λ w,
  let '(r, v) := authorize p w.1 in
  (r, (v, w.2 ++ [Authorization p (match r with Done b => b | Fails _ => false end)])).

Definition send_operation : jstr := js "sendToriumTransactionOnce".
Definition send_context (chainId : num) : error_context :=
  ErrorContext (Some send_operation) (Some Broadcast) (Some Wallet) (Some (js "eth_sendTransaction")) (Some chainId) None None.

Definition send_error (code : jstr) (category : category) (message : jstr) (chainId : num) (issues : option (list jstr)) : thrown :=
  TSdk (new_ToriumSdkError (ErrorOptions code category (Some message) JUndef (send_context chainId) false false None None None
          None None issues)).

Definition blocked (chainId : num) (p : preflight) : thrown :=
  let '(code, category) :=
    if bool_decide (insufficient_funds ∈ blockers p) then (js "TORIUM_FUNDS_INSUFFICIENT", Funds)
    else if bool_decide (nonce_mismatch ∈ blockers p) then (js "TORIUM_NONCE_INVALID", Nonce)
    else (js "TORIUM_SIMULATION_FAILED", Simulation) in
  send_error code category (js "Torium transaction preflight did not authorize submission.") chainId
    (Some (map blocker_text (blockers p))).

(** The request that is signed: the snapshot with what the preflight fixed. *)
Definition prepared_fields (snapshot : jsv) (p : preflight) : jsv :=
  JObj (spread (own_fields snapshot)
    [(js "type", JStr (js "eip1559")); (js "gas", JBig (gasLimit p)); (js "nonce", JNum (requestedNonce p));
     (js "maxFeePerGas", JBig (maxFeePerGas p)); (js "maxPriorityFeePerGas", JBig (maxPriorityFeePerGas p))]).

(** [{ ...preparedRequest, chain }]: the chain is the client's own. *)
Definition with_chain (prepared : jsv) (chain : client_chain) : jsv :=
  JObj (spread (own_fields prepared) [(js "chain", JNum (chain_id chain))]).

Definition sendToriumTransactionOnceImpl (c : transaction_sender) (pc : preflight_client) (request : jsv)
    (authorize : preflight → V → outcome bool * V) (sig : world → bool) : io jstr :=
  check_signal world sig;;
  lift world (assertToriumChain (ts_chain c));;
  lift world (assertToriumChain (pc_chain pc));;
  lift world (if num_eqb (chain_id (ts_chain c)) (chain_id (pc_chain pc)) then Done ()
              else throw_range_error (js "Torium wallet and preflight clients must use the same chain."));;
  snapshot ← normalize_now request;
  p ← preflightToriumTransactionImpl pc snapshot sig;
  lift world (if canSubmit p then Done () else Fails (blocked (chain_id (ts_chain c)) p));;
  prepared ← normalize_now (prepared_fields snapshot p);
  check_signal world sig;;
  granted ← ask_user authorize p;
  lift world (if granted : bool then Done ()
              else Fails (send_error (js "TORIUM_CANCELLED") Cancellation
                     (js "Torium transaction authorization was rejected.") (chain_id (ts_chain c)) None));;
  check_signal world sig;;
  signer ← account_now (jget prepared (js "account"));
  lift world (if signer =s? p_account p then Done ()
              else Fails (TOther (js_error (js "Error") (js "Torium transaction signer changed after authorization."))));;
  answer ← submit c (with_chain prepared (ts_chain c));
  lift world (normalizeToriumHash toLowerCase answer).

(** ** Actions *)

Context (user_aborted timer_fired : world → bool).
Context (now : world → Z) (random : world → num) (wait : num → world → world).

Abbreviation answer T := (world → outcome T * world * list entry).

Definition preflightToriumTransaction (c : preflight_client) (request : jsv) (options : action_options) : answer preflight :=
  runToriumReadAction toLowerCase world user_aborted timer_fired now random wait
    (λ sig _, preflightToriumTransactionImpl c request sig)
    (ErrorContext (Some (js "preflightToriumTransaction")) None (Some Wallet) (Some (js "eth_call"))
       (Some (chain_id (pc_chain c))) None (Some Simulation)) options.

Definition sendToriumTransactionOnce (c : transaction_sender) (pc : preflight_client) (request : jsv)
    (authorize : preflight → V → outcome bool * V) (options : action_options) : answer jstr :=
  runToriumWriteActionOnce toLowerCase world user_aborted timer_fired now random wait
    (λ sig _, sendToriumTransactionOnceImpl c pc request authorize sig)
    (ErrorContext (Some send_operation) (Some Broadcast) (Some Wallet) (Some (js "eth_sendTransaction"))
       (Some (chain_id (ts_chain c))) None (Some Transport)) options.

(** ** Receipts *)

Record receipt := Receipt { receipt_status : jstr; transactionHash : jsv; receipt_rest : jsv }.

Inductive lifecycle :=
| Settled (committed : bool) (hash : jstr) (r : receipt)
| TimedOut (hash : jstr).

Record receipt_options := ReceiptOptions {
  r_hash : jsv;
  r_confirmations : option num;
  r_timeout : option num;
}.

(** viem's [waitForTransactionReceipt], and whether it gave up waiting. *)
Context (waitForTransactionReceipt : jstr → num → num → V → outcome receipt * V).
Context (is_receipt_timeout : thrown → bool).

Definition settle (hash : jstr) (r : receipt) : outcome lifecycle :=
  if negb (receipt_status r =s? js "success") && negb (receipt_status r =s? js "reverted")
  then throw_type_error (js "Torium receipt returned an unsupported transaction status.")
  else
    seen ← normalizeToriumHash toLowerCase (transactionHash r);
    if negb (seen =s? hash)
    then throw_type_error (js "Torium receipt transaction hash does not match the requested hash.")
    else Done (Settled (receipt_status r =s? js "success") hash r).

Definition receive (hash : jstr) (confirmations timeout : num) : io lifecycle := λ w,
  let '(r, w') := outside (waitForTransactionReceipt hash confirmations timeout) w in
  (match r with
   | Done receipt => settle hash receipt
   | Fails t => if is_receipt_timeout t then Done (TimedOut hash) else Fails t
   end, w').

Definition waitForToriumTransactionImpl (o : receipt_options) : io lifecycle :=
  hash ← lift world (normalizeToriumHash toLowerCase (r_hash o));
  let confirmations := default (NInt 1) (r_confirmations o) in
  let timeout := default (NInt 180000) (r_timeout o) in
  lift world (if negb (is_integer confirmations) || num_ltb confirmations (NInt 1)
              then throw_range_error (js "Torium receipt confirmations must be a positive integer.") else Done ());;
  lift world (if negb (is_safe_integer timeout) || num_ltb timeout (NInt 1)
              then throw_range_error (js "Torium receipt timeout must be a positive safe integer.") else Done ());;
  receive hash confirmations timeout.

Definition waitForToriumTransaction (o : receipt_options) (options : action_options) : answer lifecycle :=
  runToriumReadAction toLowerCase world user_aborted timer_fired now random wait
    (λ _ _, waitForToriumTransactionImpl o)
    (ErrorContext (Some (js "waitForToriumTransaction")) None (Some Wallet) (Some (js "eth_getTransactionReceipt"))
       None None (Some SdkValue.Rpc)) options.
End wallet.
