(* ===== verification/SdkRewards.v ===== *)
(** packages/torium-sdk/src/contracts.ts, the reward distributor: leaves and
    proofs as the contract hashes them, reads of its state, the preflight of a
    claim, and the requests that are prepared for a wallet. *)

From S2P Require Import Prelude JsNum JsText JsValue RewardTree SdkValue SdkErrors SdkExecution SdkContracts.

Open Scope Z_scope.

(** ** Data *)

Record ToriumRewardProofNode := ProofEntry { pn_nodeHash : jstr; pn_sum : Z }.

Record ToriumRewardClaimLeaf := ClaimLeaf {
  cl_epochId : Z;
  cl_index : Z;
  cl_account : jstr;
  cl_amount : Z;
}.

Record ToriumRewardEpoch := RewardEpoch {
  re_epochId : Z;
  re_rootHash : jstr;
  re_funded : Z;
  re_claimStart : Z;
  re_claimEnd : Z;
  re_claimed : Z;
  re_clawed : Z;
}.

Record ToriumRewardDistributorState := DistributorState {
  ds_nextEpochId : Z;
  ds_totalFunded : Z;
  ds_totalClaimed : Z;
  ds_totalClawed : Z;
  ds_treasury : jstr;
  ds_publicationDelay : Z;
  ds_clawbackDelay : Z;
  ds_paused : bool;
}.

Inductive ToriumRewardClaimBlocker :=
| epoch_not_found | distributor_paused | claim_not_started | claim_window_closed | already_claimed
| malformed_proof | invalid_proof.

#[export] Instance blocker_eq_dec : EqDecision ToriumRewardClaimBlocker.
Proof. solve_decision. Defined.

Record ToriumRewardClaimPreflight := ClaimPreflight {
  canClaim : bool;
  cp_blockers : list ToriumRewardClaimBlocker;
  cp_epoch : option ToriumRewardEpoch;
  cp_currentTimestamp : Z;
  cp_computed : option (jstr * Z);
}.

Definition LEAF_TYPES : list jstr := [js "uint256"; js "uint256"; js "address"; js "uint256"].
Definition NODE_TYPES : list jstr := [js "bytes32"; js "uint256"; js "bytes32"; js "uint256"].

(** [Promise.all] gave one answer per request. *)
Definition nth_answer (l : list jsv) (i : nat) : jsv := default JUndef (l !! i).

(** [if (b) blockers.push(x)]. *)
Definition push_if {A} (b : bool) (x : A) (l : list A) : list A := if b then l ++ [x] else l.

Definition parseRewardEpoch (raw : jsv) (d : ToriumContractDeployment) (epochId : Z)
    : outcome (option ToriumRewardEpoch) :=
  match raw with
  | JArr [r0; r1; r2; r3; r4; r5] =>
      rootHash ← parseHashValue r0 d (js "epochs.rootHash");
      if rootHash =s? zeroHash then Done None
      else
        funded ← parseUint r1 d (js "epochs.funded");
        claimStart ← parseUint r2 d (js "epochs.claimStart");
        claimEnd ← parseUint r3 d (js "epochs.claimEnd");
        claimed ← parseUint r4 d (js "epochs.claimed");
        clawed ← parseUint r5 d (js "epochs.clawed");
        Done (Some (RewardEpoch epochId rootHash funded claimStart claimEnd claimed clawed))
  | _ => Fails (invalidContractResponse (contractName d) (js "epochs") (Some (js "getToriumRewardEpoch")))
  end.

Section rewards.
Context (keccak256 : jstr → jstr).
(** [encodeAbiParameters(types, values)] and [encodeFunctionData] with a
    contract's interface; both may throw. *)
Context (encodeAbiParameters : list jstr → list jsv → outcome jstr).
Context (encodeFunctionData : contract_name → jstr → list jsv → outcome jstr).
Context (getAddress : jstr → outcome jstr).
Context (toLowerCase : jstr → jstr) (W : Type) (user_aborted timer_fired : W → bool).
Context (now : W → Z) (random : W → num) (wait : num → W → W).
Context (endpoint : request → W → outcome jsv * W).

Abbreviation io := (io W).
Abbreviation answer T := (W → outcome T * W * list entry).
Abbreviation ask := (ask W endpoint).
Abbreviation ask_all := (ask_all W endpoint).
Abbreviation check_signal := (check_signal W).
Abbreviation lift := (lift W).
Abbreviation after := (after W).
Abbreviation contract_action := (contract_action toLowerCase W user_aborted timer_fired now random wait).

(** ** Leaves and proofs *)

Definition hashToriumRewardLeaf (leaf : ToriumRewardClaimLeaf) : outcome jstr :=
  epochId ← assertToriumUint256 (cl_epochId leaf);
  index ← assertToriumUint256 (cl_index leaf);
  account ← getAddress (cl_account leaf);
  amount ← assertToriumUint256 (cl_amount leaf);
  encoded ← encodeAbiParameters LEAF_TYPES [JBig epochId; JBig index; JStr account; JBig amount];
  Done (keccak256 encoded).

Definition hashToriumRewardNode (first second : ToriumRewardProofNode) : outcome ToriumRewardProofNode :=
  a ← assertToriumUint256 (pn_sum first);
  b ← assertToriumUint256 (pn_sum second);
  sum ← assertToriumUint256 (a + b);
  let '(l, r) :=
    if jstr_leb (toLowerCase (pn_nodeHash first)) (toLowerCase (pn_nodeHash second))
    then (first, second) else (second, first) in
  encoded ← encodeAbiParameters NODE_TYPES
    [JStr (pn_nodeHash l); JBig (pn_sum l); JStr (pn_nodeHash r); JBig (pn_sum r)];
  Done (ProofEntry (keccak256 encoded) sum).

Fixpoint reward_proof_from (proofIndex : Z) (node : ToriumRewardProofNode)
    (proof : list ToriumRewardProofNode) : outcome ToriumRewardProofNode :=
  match proof with
  | [] => Done node
  | sibling :: rest =>
      if (pn_nodeHash sibling =s? zeroHash) || (pn_sum sibling =? 0)
      then throw_range_error (js "Torium reward proof node " +++ dec_of_Z proofIndex +++ js " is malformed.")
      else
        node' ← hashToriumRewardNode node sibling;
        reward_proof_from (proofIndex + 1) node' rest
  end.

(** The root hash and the root sum. *)
Definition processToriumRewardProof (leaf : ToriumRewardClaimLeaf) (proof : list ToriumRewardProofNode)
    : outcome (jstr * Z) :=
  h ← hashToriumRewardLeaf leaf;
  amount ← assertToriumUint256 (cl_amount leaf);
  node ← reward_proof_from 0 (ProofEntry h amount) proof;
  Done (pn_nodeHash node, pn_sum node).

(** ** Reads *)

Definition readRewardFunction (d : ToriumContractDeployment) (functionName : jstr)
    (args : option (list jsv)) : request :=
  ReadContract toriumRewardDistributor (address d) functionName args.

Definition distributor_of (override : option ToriumContractDeploymentOverride)
    : outcome ToriumContractDeployment :=
  resolveToriumContractDeployment getAddress toriumRewardDistributor override None.

Definition state_functions : list jstr :=
  [js "nextEpochId"; js "totalFunded"; js "totalClaimed"; js "totalClawed"; js "treasury";
   js "publicationDelay"; js "clawbackDelay"; js "paused"].

Definition parse_state (d : ToriumContractDeployment) (l : list jsv)
    : outcome ToriumRewardDistributorState :=
  let read i := nth_answer l i in
  nextEpochId ← parseUint (read 0%nat) d (js "nextEpochId");
  totalFunded ← parseUint (read 1%nat) d (js "totalFunded");
  totalClaimed ← parseUint (read 2%nat) d (js "totalClaimed");
  totalClawed ← parseUint (read 3%nat) d (js "totalClawed");
  treasury ← parseAddressValue getAddress (read 4%nat) d (js "treasury");
  publicationDelay ← parseUint (read 5%nat) d (js "publicationDelay");
  clawbackDelay ← parseUint (read 6%nat) d (js "clawbackDelay");
  paused ← parseBooleanValue (read 7%nat) d (js "paused");
  Done (DistributorState nextEpochId totalFunded totalClaimed totalClawed treasury publicationDelay
          clawbackDelay paused).

Definition read_state (d : ToriumContractDeployment) (sig : W → bool) : io ToriumRewardDistributorState :=
  check_signal sig;;
  l ← ask_all (map (λ f, readRewardFunction d f None) state_functions);
  check_signal sig;;
  lift (parse_state d l).

Definition getToriumRewardDistributorState (override : option ToriumContractDeploymentOverride)
    (options : action_options) : answer ToriumRewardDistributorState :=
  after (distributor_of override) (λ d,
    contract_action (js "getToriumRewardDistributorState") (js "eth_call") None (read_state d) options).

Definition read_epoch (d : ToriumContractDeployment) (epochId : Z) (sig : W → bool)
    : io (option ToriumRewardEpoch) :=
  check_signal sig;;
  raw ← ask (readRewardFunction d (js "epochs") (Some [JBig epochId]));
  lift (parseRewardEpoch raw d epochId).

Definition getToriumRewardEpoch (override : option ToriumContractDeploymentOverride) (epochId : Z)
    (options : action_options) : answer (option ToriumRewardEpoch) :=
  after (d ← distributor_of override; id ← assertToriumUint256 epochId; Done (d, id)) (λ '(d, id),
    contract_action (js "getToriumRewardEpoch") (js "eth_call") None (read_epoch d id) options).

Definition read_claimed (d : ToriumContractDeployment) (epochId index : Z) (sig : W → bool) : io bool :=
  check_signal sig;;
  raw ← ask (readRewardFunction d (js "isClaimed") (Some [JBig epochId; JBig index]));
  lift (parseBooleanValue raw d (js "isClaimed")).

Definition isToriumRewardClaimed (override : option ToriumContractDeploymentOverride) (epochId index : Z)
    (options : action_options) : answer bool :=
  after (d ← distributor_of override; id ← assertToriumUint256 epochId;
         i ← assertToriumUint256 index; Done (d, id, i)) (λ '(d, id, i),
    contract_action (js "isToriumRewardClaimed") (js "eth_call") None (read_claimed d id i) options).

(** ** The preflight of a claim *)

Definition preflight_requests (d : ToriumContractDeployment) (leaf : ToriumRewardClaimLeaf) : list request :=
  [readRewardFunction d (js "epochs") (Some [JBig (cl_epochId leaf)]);
   readRewardFunction d (js "isClaimed") (Some [JBig (cl_epochId leaf); JBig (cl_index leaf)]);
   readRewardFunction d (js "paused") None;
   GetBlock].

(** The proof's root, unless it is malformed. *)
Definition computed_root (leaf : ToriumRewardClaimLeaf) (proof : list ToriumRewardProofNode)
    : option (jstr * Z) :=
  match processToriumRewardProof leaf proof with Done r => Some r | Fails _ => None end.

Definition epoch_blockers (epoch : option ToriumRewardEpoch) (t : Z) (computed : option (jstr * Z))
    (blockers : list ToriumRewardClaimBlocker) : list ToriumRewardClaimBlocker :=
  match epoch with
  | None => blockers ++ [epoch_not_found]
  | Some e =>
      let b1 := push_if (t <? re_claimStart e) claim_not_started blockers in
      let b2 := push_if (re_claimEnd e <=? t) claim_window_closed b1 in
      push_if (match computed with
               | Some (h, sum) => negb (h =s? re_rootHash e) || negb (sum =? re_funded e)
               | None => false
               end) invalid_proof b2
  end.

Definition judge_claim (d : ToriumContractDeployment) (leaf : ToriumRewardClaimLeaf)
    (proof : list ToriumRewardProofNode) (l : list jsv) : outcome ToriumRewardClaimPreflight :=
  let computed := computed_root leaf proof in
  epoch ← parseRewardEpoch (nth_answer l 0) d (cl_epochId leaf);
  alreadyClaimed ← parseBooleanValue (nth_answer l 1) d (js "isClaimed");
  paused ← parseBooleanValue (nth_answer l 2) d (js "paused");
  t ← parseUint (jget (nth_answer l 3) (js "timestamp")) d (js "block.timestamp");
  let b0 := push_if (negb (bool_decide (is_Some computed))) malformed_proof [] in
  let b1 := push_if paused distributor_paused b0 in
  let b2 := epoch_blockers epoch t computed b1 in
  let blockers := push_if alreadyClaimed already_claimed b2 in
  Done (ClaimPreflight (Nat.eqb (length blockers) 0) blockers epoch t computed).

Definition preflight_claim (d : ToriumContractDeployment) (leaf : ToriumRewardClaimLeaf)
    (proof : list ToriumRewardProofNode) (sig : W → bool) : io ToriumRewardClaimPreflight :=
  check_signal sig;;
  l ← ask_all (preflight_requests d leaf);
  check_signal sig;;
  lift (judge_claim d leaf proof l).

Definition claim_leaf (epochId index : Z) (account : jstr) (amount : Z) : outcome ToriumRewardClaimLeaf :=
  e ← assertToriumUint256 epochId;
  i ← assertToriumUint256 index;
  a ← getAddress account;
  z ← assertToriumUint256 amount;
  Done (ClaimLeaf e i a z).

Definition preflightToriumRewardClaim (override : option ToriumContractDeploymentOverride)
    (epochId index : Z) (account : jstr) (amount : Z) (proof : list ToriumRewardProofNode)
    (options : action_options) : answer ToriumRewardClaimPreflight :=
  after (d ← distributor_of override; leaf ← claim_leaf epochId index account amount; Done (d, leaf))
    (λ '(d, leaf),
      contract_action (js "preflightToriumRewardClaim") (js "eth_call") None (preflight_claim d leaf proof) options).

(** ** Requests *)

Fixpoint proof_values (proof : list ToriumRewardProofNode) : outcome (list jsv) :=
  match proof with
  | [] => Done []
  | n :: rest =>
      sum ← assertToriumUint256 (pn_sum n);
      l ← proof_values rest;
      Done (JObj [(js "nodeHash", JStr (pn_nodeHash n)); (js "sum", JBig sum)] :: l)
  end.

Definition prepared (d : ToriumContractDeployment) (sender : jsv) (value : Z) (functionName : jstr)
    (args : list jsv) : outcome ToriumTransactionRequest :=
  data ← encodeFunctionData (contractName d) functionName args;
  Done (TransactionRequest sender (Some (address d)) (Some data) (Some value)).

Definition prepareToriumRewardClaim (override : option ToriumContractDeploymentOverride) (sender : jsv)
    (epochId index : Z) (account : jstr) (amount : Z) (proof : list ToriumRewardProofNode)
    : outcome ToriumTransactionRequest :=
  d ← distributor_of override;
  e ← assertToriumUint256 epochId;
  i ← assertToriumUint256 index;
  a ← getAddress account;
  z ← assertToriumUint256 amount;
  nodes ← proof_values proof;
  prepared d sender 0 (js "claim") [JBig e; JBig i; JStr a; JBig z; JArr nodes].

Definition prepareToriumRewardEpochPublication (override : option ToriumContractDeploymentOverride)
    (sender : jsv) (epochId : Z) (rootHash : jstr) (rootSum claimStart claimEnd : Z)
    : outcome ToriumTransactionRequest :=
  d ← distributor_of override;
  sum ← assertToriumUint256 rootSum;
  if rootHash =s? zeroHash
  then throw_range_error (js "Torium reward epoch root hash must not be zero.")
  else
    e ← assertToriumUint256 epochId;
    start ← assertUint64 claimStart (js "claim start");
    end_ ← assertUint64 claimEnd (js "claim end");
    prepared d sender sum (js "publishEpoch") [JBig e; JStr rootHash; JBig sum; JBig start; JBig end_].

Definition prepareToriumRewardClawback (override : option ToriumContractDeploymentOverride) (sender : jsv)
    (epochId : Z) : outcome ToriumTransactionRequest :=
  d ← distributor_of override;
  e ← assertToriumUint256 epochId;
  prepared d sender 0 (js "clawback") [JBig e].
End rewards.
