(* ===== verification/SdkAttestations.v ===== *)
(** packages/torium-sdk/src/contracts.ts, the attestation registry: payloads,
    commitments, replay keys and ids as the contract derives them, reads of
    records, and the preflights of an attestation and of a revocation. *)

From S2P Require Import Prelude JsNum JsText JsValue RewardTree SdkValue SdkErrors SdkExecution SdkContracts SdkRewards.

Open Scope Z_scope.

(** ** Data *)

Inductive ToriumAttestationStatus := missing | active | superseded | revoked.

#[export] Instance attestation_status_eq_dec : EqDecision ToriumAttestationStatus.
Proof. solve_decision. Defined.

Definition toriumAttestationStatuses : list ToriumAttestationStatus := [missing; active; superseded; revoked].

Record ToriumAttestationPayload := AttestationPayload {
  pl_schemaId : jstr;
  pl_schemaVersion : num;
  pl_subject : jstr;
  pl_referenceHash : option jstr;
  pl_contentHash : jstr;
  pl_metadataHash : jstr;
  pl_metadataUriHash : jstr;
}.

Record ToriumAttestation := AttestationRecord {
  ta_attestationId : jstr;
  ta_status : ToriumAttestationStatus;
  ta_schemaId : jstr;
  ta_schemaVersion : num;
  ta_issuer : jstr;
  ta_issuerNonce : Z;
  ta_subject : jstr;
  ta_referenceHash : jstr;
  ta_contentHash : jstr;
  ta_metadataHash : jstr;
  ta_metadataUriHash : jstr;
  ta_supersedes : jstr;
  ta_supersededBy : jstr;
  ta_createdAt : Z;
  ta_revokedAt : Z;
  ta_supersededAt : Z;
  ta_revocationReasonHash : jstr;
}.

Inductive ToriumAttestationBlocker :=
| duplicate_payload | supersedes_not_found | supersedes_not_active | supersedes_issuer_mismatch
| supersedes_schema_mismatch | supersedes_subject_mismatch.

Record ToriumAttestationPreflight := AttestationPreflight {
  canAttest : bool;
  ap_blockers : list ToriumAttestationBlocker;
  ap_replayKey : jstr;
  ap_issuerNonce : Z;
  ap_commitment : jstr;
  ap_attestationId : jstr;
}.

Inductive ToriumAttestationRevocationBlocker :=
| attestation_not_found | attestation_not_active | issuer_mismatch.

Record ToriumAttestationRevocationPreflight := RevocationPreflight {
  canRevoke : bool;
  rp_blockers : list ToriumAttestationRevocationBlocker;
  rp_status : ToriumAttestationStatus;
}.

Definition COMMITMENT_TYPES : list jstr :=
  [js "bytes32"; js "uint32"; js "bytes32"; js "bytes32"; js "bytes32"; js "bytes32"; js "bytes32"; js "bytes32"].
Definition REPLAY_TYPES : list jstr :=
  [js "address"; js "bytes32"; js "uint32"; js "bytes32"; js "bytes32"; js "bytes32"; js "bytes32"; js "bytes32"].
Definition ID_TYPES : list jstr := [js "uint256"; js "address"; js "address"; js "uint256"; js "bytes32"].

(** ** Payloads *)

Definition referenceHash_of (p : ToriumAttestationPayload) : jstr := default zeroHash (pl_referenceHash p).

Definition validateToriumAttestationPayload (p : ToriumAttestationPayload) : outcome unit :=
  if pl_schemaId p =s? zeroHash
  then throw_range_error (js "Torium attestation schema ID must not be zero.")
  else if negb (is_integer (pl_schemaVersion p)) || num_ltb (pl_schemaVersion p) (NInt 1)
          || num_ltb (NInt 4294967295) (pl_schemaVersion p)
  then throw_range_error (js "Torium attestation schema version must be a uint32 from 1 upward.")
  else if pl_subject p =s? zeroHash
  then throw_range_error (js "Torium attestation subject must not be zero.")
  else if pl_contentHash p =s? zeroHash
  then throw_range_error (js "Torium attestation content hash must not be zero.")
  else if pl_metadataHash p =s? zeroHash
  then throw_range_error (js "Torium attestation metadata hash must not be zero.")
  else if pl_metadataUriHash p =s? zeroHash
  then throw_range_error (js "Torium attestation metadata URI hash must not be zero.")
  else Done ().

(** [BigInt(v)]. *)
Definition BigInt (v : jsv) : outcome Z :=
  match v with
  | JBig z => Done z
  | JNum n =>
      if is_integer n then Done (num_Z n)
      else throw_range_error (js "The number cannot be converted to a BigInt because it is not an integer")
  | JStr s =>
      match bigint_of_string s with
      | Some z => Done z
      | None => Fails (TOther (js_error (js "SyntaxError") (js "Cannot convert the string to a BigInt")))
      end
  | JBool b => Done (if b then 1 else 0)
  | _ => throw_type_error (js "Cannot convert the value to a BigInt")
  end.

(** ** Reading records *)

Definition parseAttestationStatus (raw : jsv) (d : ToriumContractDeployment)
    : outcome ToriumAttestationStatus :=
  let index :=
    match raw with
    | JNum n => if is_integer n then num_Z n else -1
    | JBig z => z
    | _ => -1
    end in
  match (if index <? 0 then None else toriumAttestationStatuses !! Z.to_nat index) with
  | Some s => Done s
  | None => Fails (invalidContractResponse (contractName d) (js "statusOf") (Some (js "getToriumAttestationStatus")))
  end.

Section attestations.
Context (keccak256 : jstr → jstr).
Context (encodeAbiParameters : list jstr → list jsv → outcome jstr).
Context (encodeFunctionData : contract_name → jstr → list jsv → outcome jstr).
Context (getAddress : jstr → outcome jstr).
(** [keccak256(toBytes(text))]: viem's [toBytes] of a string. *)
Context (toBytes : jstr → list Z) (keccak256_bytes : list Z → jstr).
Context (toLowerCase : jstr → jstr) (W : Type) (user_aborted timer_fired : W → bool).
Context (now : W → Z) (random : W → num) (wait : num → W → W).
Context (endpoint : request → W → outcome jsv * W).

Abbreviation io := (io W).
Abbreviation answer T := (W → outcome T * W * list entry).
Abbreviation ask := (ask W endpoint).
Abbreviation ask_all := (ask_all W endpoint).
Abbreviation check_signal := (check_signal W).
Abbreviation lift := (lift W).
Abbreviation after := (after W).
Abbreviation contract_action := (contract_action toLowerCase W user_aborted timer_fired now random wait).

Definition hashToriumAttestationUtf8 (s : jstr) : jstr := keccak256_bytes (toBytes s).

Definition parseAttestation (raw : jsv) (d : ToriumContractDeployment) (attestationId : jstr)
    (status : ToriumAttestationStatus) : outcome ToriumAttestation :=
  if negb (isObjectLike raw)
  then Fails (invalidContractResponse (contractName d) (js "getAttestation") (Some (js "getToriumAttestation")))
  else
    let at_ k := js "attestation." +++ k in
    let uint k := parseUint (jget raw k) d (at_ k) in
    let hash k := parseHashValue (jget raw k) d (at_ k) in
    schemaVersion ← uint (js "schemaVersion");
    schemaId ← hash (js "schemaId");
    issuer ← parseAddressValue getAddress (jget raw (js "issuer")) d (at_ (js "issuer"));
    issuerNonce ← uint (js "issuerNonce");
    subject ← hash (js "subject");
    referenceHash ← hash (js "referenceHash");
    contentHash ← hash (js "contentHash");
    metadataHash ← hash (js "metadataHash");
    metadataUriHash ← hash (js "metadataUriHash");
    supersedes ← hash (js "supersedes");
    supersededBy ← hash (js "supersededBy");
    createdAt ← uint (js "createdAt");
    revokedAt ← uint (js "revokedAt");
    supersededAt ← uint (js "supersededAt");
    revocationReasonHash ← hash (js "revocationReasonHash");
    Done (AttestationRecord attestationId status schemaId (num_of_bigint schemaVersion) issuer issuerNonce
            subject referenceHash contentHash metadataHash metadataUriHash supersedes supersededBy
            createdAt revokedAt supersededAt revocationReasonHash).

(** ** Derived values *)

Definition computeToriumAttestationCommitment (p : ToriumAttestationPayload) (supersedes : jstr) : outcome jstr :=
  validateToriumAttestationPayload p;;
  encoded ← encodeAbiParameters COMMITMENT_TYPES
    [JStr (pl_schemaId p); JNum (pl_schemaVersion p); JStr (pl_subject p); JStr (referenceHash_of p);
     JStr (pl_contentHash p); JStr (pl_metadataHash p); JStr (pl_metadataUriHash p); JStr supersedes];
  Done (keccak256 encoded).

Definition computeToriumAttestationReplayKey (issuer : jstr) (p : ToriumAttestationPayload) : outcome jstr :=
  validateToriumAttestationPayload p;;
  a ← getAddress issuer;
  encoded ← encodeAbiParameters REPLAY_TYPES
    [JStr a; JStr (pl_schemaId p); JNum (pl_schemaVersion p); JStr (pl_subject p); JStr (referenceHash_of p);
     JStr (pl_contentHash p); JStr (pl_metadataHash p); JStr (pl_metadataUriHash p)];
  Done (keccak256 encoded).

Definition computeToriumAttestationId (chainId : jsv) (registry issuer : jstr) (issuerNonce : Z)
    (commitment : jstr) : outcome jstr :=
  c ← BigInt chainId;
  chain ← assertToriumUint256 c;
  r ← getAddress registry;
  i ← getAddress issuer;
  n ← assertToriumUint256 issuerNonce;
  encoded ← encodeAbiParameters ID_TYPES [JBig chain; JStr r; JStr i; JBig n; JStr commitment];
  Done (keccak256 encoded).

(** ** Reads *)

Definition readAttestationFunction (d : ToriumContractDeployment) (functionName : jstr)
    (args : list jsv) : request :=
  ReadContract toriumAttestationRegistry (address d) functionName (Some args).

Definition registry_of (override : option ToriumContractDeploymentOverride)
    : outcome ToriumContractDeployment :=
  resolveToriumContractDeployment getAddress toriumAttestationRegistry override None.

Definition read_status (d : ToriumContractDeployment) (id : jstr) : io ToriumAttestationStatus :=
  raw ← ask (readAttestationFunction d (js "statusOf") [JStr id]);
  lift (parseAttestationStatus raw d).

Definition read_record (d : ToriumContractDeployment) (id : jstr) (status : ToriumAttestationStatus)
    : io ToriumAttestation :=
  raw ← ask (readAttestationFunction d (js "getAttestation") [JStr id]);
  lift (parseAttestation raw d id status).

Definition getToriumAttestationStatus (override : option ToriumContractDeploymentOverride) (id : jstr)
    (options : action_options) : answer ToriumAttestationStatus :=
  after (registry_of override) (λ d,
    contract_action (js "getToriumAttestationStatus") (js "eth_call") None
      (λ sig, check_signal sig;; read_status d id) options).

Definition isToriumAttestationActive (override : option ToriumContractDeploymentOverride) (id : jstr)
    (options : action_options) : answer bool := λ w,
  let '(r, w', tr) := getToriumAttestationStatus override id options w in
  (status ← r; Done (bool_decide (status = active)), w', tr).

Definition read_attestation (d : ToriumContractDeployment) (id : jstr) (sig : W → bool)
    : io (option ToriumAttestation) :=
  check_signal sig;;
  status ← read_status d id;
  if bool_decide (status = missing) then mret None
  else
    check_signal sig;;
    a ← read_record d id status;
    mret (Some a).

Definition getToriumAttestation (override : option ToriumContractDeploymentOverride) (id : jstr)
    (options : action_options) : answer (option ToriumAttestation) :=
  after (registry_of override) (λ d,
    contract_action (js "getToriumAttestation") (js "eth_call") None (read_attestation d id) options).

Definition read_verification (d : ToriumContractDeployment) (id expectedIssuer expectedCommitment : jstr)
    (sig : W → bool) : io bool :=
  check_signal sig;;
  issuer ← lift (getAddress expectedIssuer);
  raw ← ask (readAttestationFunction d (js "verify") [JStr id; JStr issuer; JStr expectedCommitment]);
  lift (parseBooleanValue raw d (js "verify")).

Definition verifyToriumAttestation (override : option ToriumContractDeploymentOverride)
    (id expectedIssuer expectedCommitment : jstr) (options : action_options) : answer bool :=
  after (registry_of override) (λ d,
    contract_action (js "verifyToriumAttestation") (js "eth_call") None
      (read_verification d id expectedIssuer expectedCommitment) options).

(** ** The preflight of an attestation *)

(** What the record to supersede rules out. *)
Definition prior_blockers (prior : ToriumAttestation) (issuer : jstr) (p : ToriumAttestationPayload)
    (blockers : list ToriumAttestationBlocker) : list ToriumAttestationBlocker :=
  let b1 := push_if (negb (ta_issuer prior =s? issuer)) supersedes_issuer_mismatch blockers in
  let b2 := push_if (negb (ta_schemaId prior =s? pl_schemaId p)) supersedes_schema_mismatch b1 in
  push_if (negb (ta_subject prior =s? pl_subject p)) supersedes_subject_mismatch b2.

Definition check_prior (d : ToriumContractDeployment) (issuer supersedes : jstr)
    (p : ToriumAttestationPayload) (blockers : list ToriumAttestationBlocker) (sig : W → bool)
    : io (list ToriumAttestationBlocker) :=
  if supersedes =s? zeroHash then mret blockers
  else
    status ← read_status d supersedes;
    check_signal sig;;
    match status with
    | missing => mret (blockers ++ [supersedes_not_found])
    | active =>
        prior ← read_record d supersedes status;
        check_signal sig;;
        mret (prior_blockers prior issuer p blockers)
    | _ => mret (blockers ++ [supersedes_not_active])
    end.

(** What the attestation would be recorded as. *)
Definition predict (d : ToriumContractDeployment) (issuer supersedes replayKey : jstr)
    (p : ToriumAttestationPayload) (rawNonce chainId : jsv) (blockers : list ToriumAttestationBlocker)
    : outcome ToriumAttestationPreflight :=
  n ← parseUint rawNonce d (js "issuerNonces");
  commitment ← computeToriumAttestationCommitment p supersedes;
  id ← computeToriumAttestationId chainId (address d) issuer (n + 1) commitment;
  Done (AttestationPreflight (Nat.eqb (length blockers) 0) blockers replayKey (n + 1) commitment id).

Definition preflight_attestation (d : ToriumContractDeployment) (issuer supersedes replayKey : jstr)
    (p : ToriumAttestationPayload) (sig : W → bool) : io ToriumAttestationPreflight :=
  check_signal sig;;
  l ← ask_all [readAttestationFunction d (js "usedPayloads") [JStr replayKey];
               readAttestationFunction d (js "issuerNonces") [JStr issuer]; GetChainId];
  check_signal sig;;
  used ← lift (parseBooleanValue (nth_answer l 0) d (js "usedPayloads"));
  blockers ← check_prior d issuer supersedes p (push_if used duplicate_payload []) sig;
  lift (predict d issuer supersedes replayKey p (nth_answer l 1) (nth_answer l 2) blockers).

Definition preflightToriumAttestation (override : option ToriumContractDeploymentOverride)
    (issuer : jstr) (p : ToriumAttestationPayload) (supersedes : option jstr) (options : action_options)
    : answer ToriumAttestationPreflight :=
  after (d ← registry_of override;
         a ← getAddress issuer;
         replayKey ← computeToriumAttestationReplayKey a p;
         Done (d, a, replayKey))
    (λ '(d, a, replayKey),
      contract_action (js "preflightToriumAttestation") (js "eth_call") None
        (preflight_attestation d a (default zeroHash supersedes) replayKey p) options).

(** ** The preflight of a revocation *)

Definition preflight_revocation (d : ToriumContractDeployment) (id issuer : jstr) (sig : W → bool)
    : io ToriumAttestationRevocationPreflight :=
  check_signal sig;;
  status ← read_status d id;
  check_signal sig;;
  let judged l := RevocationPreflight (Nat.eqb (length l) 0) l status in
  match status with
  | missing => mret (judged [attestation_not_found])
  | active =>
      a ← read_record d id status;
      mret (judged (push_if (negb (ta_issuer a =s? issuer)) issuer_mismatch []))
  | _ => mret (judged [attestation_not_active])
  end.

Definition preflightToriumAttestationRevocation (override : option ToriumContractDeploymentOverride)
    (id issuer : jstr) (options : action_options) : answer ToriumAttestationRevocationPreflight :=
  after (d ← registry_of override; a ← getAddress issuer; Done (d, a))
    (λ '(d, a),
      contract_action (js "preflightToriumAttestationRevocation") (js "eth_call") None
        (preflight_revocation d id a) options).

(** ** Requests *)

Definition prepareToriumAttestation (override : option ToriumContractDeploymentOverride) (sender : jsv)
    (p : ToriumAttestationPayload) (supersedes : option jstr) : outcome ToriumTransactionRequest :=
  d ← registry_of override;
  validateToriumAttestationPayload p;;
  prepared encodeFunctionData d sender 0 (js "attest")
    [JStr (pl_schemaId p); JNum (pl_schemaVersion p); JStr (pl_subject p); JStr (referenceHash_of p);
     JStr (pl_contentHash p); JStr (pl_metadataHash p); JStr (pl_metadataUriHash p);
     JStr (default zeroHash supersedes)].

Definition prepareToriumAttestationRevocation (override : option ToriumContractDeploymentOverride)
    (sender : jsv) (id revocationReasonHash : jstr) : outcome ToriumTransactionRequest :=
  d ← registry_of override;
  if revocationReasonHash =s? zeroHash
  then throw_range_error (js "Torium attestation revocation reason hash must not be zero.")
  else prepared encodeFunctionData d sender 0 (js "revoke") [JStr id; JStr revocationReasonHash].
End attestations.
