(* ===== verification/SdkContractsFacts.v ===== *)
(** The shared parts of the SDK's contract helpers: 32-byte text and its order,
    what an action without controls returns, and the verification of deployed
    bytecode. *)

From S2P Require Import Prelude JsNum JsText JsValue RewardTree RewardTreeFacts Attestation HexFacts.
From S2P Require Import SdkValue SdkErrors SdkExecution SdkExecutionFacts SdkContracts.

Open Scope Z_scope.

(** ** 32-byte text *)

(** The text of a hash in either case, with a lower-case prefix. *)
Definition hash_text (s : jstr) : bool := is_bytes32 (to_lower s) && (nth 1 s 0%N =? 120)%N.

Lemma is_hex_lower c : is_lower_hex (lower_char c) = true → is_hex c = true ∧ hex_value (lower_char c) = hex_value c.
Proof.
  unfold lower_char. destruct (is_upper c) eqn:E; [|intros H; split; [|done]; unfold is_hex; by rewrite H].
  intros H. assert (c ∈ [65; 66; 67; 68; 69; 70]%N) as Hin.
  { unfold is_lower_hex, is_digit, is_upper in *. apply in_range_spec in E.
    repeat rewrite elem_of_cons. apply orb_true_iff in H as [H%in_range_spec|H%in_range_spec]; lia. }
  clear -Hin. repeat (apply elem_of_cons in Hin as [->|Hin]; [by vm_compute|]). by apply elem_of_nil in Hin.
Qed.

Lemma bytes_of_hex_lower s :
  forallb is_lower_hex (to_lower s) = true → bytes_of_hex (to_lower s) = bytes_of_hex s.
Proof.
  revert s. fix IH 1. intros [|a [|b s]]; [done|done|].
  change (to_lower (a :: b :: s)) with (lower_char a :: lower_char b :: to_lower s).
  cbn [forallb bytes_of_hex]. intros [Ha [Hb Hs]%andb_prop]%andb_prop.
  pose proof (lower_hex_char _ Ha) as (Ha' & _). pose proof (lower_hex_char _ Hb) as (Hb' & _).
  apply is_hex_lower in Ha as [Ha Ea], Hb as [Hb Eb]. rewrite Ha, Hb, Ha', Hb', Ea, Eb. cbn [andb].
  f_equal. by apply IH.
Qed.

Lemma hash_text_cases s :
  hash_text s = true →
  ∃ ds, s = 48%N :: 120%N :: ds ∧ length ds = 64%nat ∧ forallb is_lower_hex (to_lower ds) = true ∧
    is_bytes32 (to_lower s) = true.
Proof.
  unfold hash_text. intros [H Hx%N.eqb_eq]%andb_prop.
  destruct s as [|a [|b ds]]; [by vm_compute in H|by unfold is_bytes32 in H; simpl in H; repeat case_match|].
  simpl in Hx. subst b. exists ds. unfold is_bytes32 in H.
  change (to_lower (a :: 120%N :: ds)) with (lower_char a :: 120%N :: to_lower ds) in H.
  destruct (strip_0x _) as [r|] eqn:E in H; [|done].
  apply strip_0x_Some in E as [E _]. injection E as Ea Er. subst r.
  apply andb_prop in H as [Hl%Nat.eqb_eq Hd]. rewrite to_lower_length in Hl.
  assert (a = 48%N) as ->.
  { unfold lower_char in Ea. destruct (is_upper a) eqn:Eu; [|done]. unfold is_upper in Eu.
    apply in_range_spec in Eu. lia. }
  split_and!; [done..|]. unfold is_bytes32.
  change (to_lower (48%N :: 120%N :: ds)) with (48%N :: 120%N :: to_lower ds). cbn [strip_0x].
  by rewrite to_lower_length, Hl, Hd.
Qed.

Lemma hash_text_bytes s :
  hash_text s = true → hexBytes (to_lower s) = hexBytes s ∧ length (hexBytes s) = 32%nat ∧ Forall byte (hexBytes s).
Proof.
  intros (ds & -> & Hl & Hd & Hb)%hash_text_cases.
  assert (hexBytes (to_lower (48%N :: 120%N :: ds)) = hexBytes (48%N :: 120%N :: ds)) as E.
  { exact (bytes_of_hex_lower ds Hd). }
  split; [done|]. rewrite <- E. split; [apply bytes32_hex, Hb|]. unfold hexBytes; apply bytes_of_hex_bytes.
Qed.

Lemma is_bytes32_hash_text s : is_bytes32 s = true → hash_text s = true ∧ to_lower s = s.
Proof.
  intros H. assert (to_lower s = s) as E.
  { apply bytes32_hex in H as [H _]. unfold is_hex_bytes in H. destruct (strip_0x s) as [ds|] eqn:E; [|done].
    apply strip_0x_Some in E as [-> _]. apply andb_prop in H as [_ H].
    change (48%N :: 120%N :: to_lower ds = 48%N :: 120%N :: ds). do 2 f_equal.
    induction ds as [|c ds IH]; [done|]. simpl in H. apply andb_prop in H as [Hc H].
    change (to_lower (c :: ds)) with (lower_char c :: to_lower ds). rewrite IH by done. f_equal.
    unfold lower_char. destruct (is_upper c) eqn:Eu; [|done]. exfalso. unfold is_upper, is_lower_hex, is_digit in *.
    apply in_range_spec in Eu. apply orb_true_iff in Hc as [Hc%in_range_spec|Hc%in_range_spec]; lia. }
  split; [|done]. unfold hash_text. rewrite E, H. simpl.
  unfold is_bytes32 in H. destruct (strip_0x s) as [ds|] eqn:E'; [|done].
  by apply strip_0x_Some in E' as [-> _].
Qed.

Lemma lower_zeros n ds : to_lower ds = repeat 48%N n → ds = repeat 48%N n.
Proof.
  revert n. induction ds as [|c ds IH]; intros [|n]; try done.
  change (to_lower (c :: ds)) with (lower_char c :: to_lower ds). simpl. intros [= Ec El].
  rewrite (IH n El). f_equal. unfold lower_char in Ec. destruct (is_upper c) eqn:Eu; [|done].
  unfold is_upper in Eu. apply in_range_spec in Eu. lia.
Qed.

(** A hash is the zero hash when its bytes are. *)
Lemma zeroHash_bytes s : hash_text s = true → (s =s? zeroHash) = bool_decide (hexBytes s = replicate 32 0).
Proof.
  intros Hs. pose proof (hash_text_bytes s Hs) as (E & _).
  destruct (s =s? zeroHash) eqn:Ez; symmetry.
  - apply bool_decide_eq_true_2. apply jeq_spec in Ez as ->. by vm_compute.
  - apply bool_decide_eq_false_2. intros Hz. rewrite <- E in Hz.
    apply not_true_iff_false in Ez. apply Ez, jeq_spec.
    destruct (hash_text_cases s Hs) as (ds & -> & Hl & Hd & Hb).
    assert (to_lower (48%N :: 120%N :: ds) = zeroHash) as El.
    { apply hexBytes_inj; [by apply bytes32_hex|by vm_compute|]. rewrite Hz. by vm_compute. }
    change (to_lower (48%N :: 120%N :: ds)) with (48%N :: 120%N :: to_lower ds) in El.
    change zeroHash with (48%N :: 120%N :: repeat 48%N 64) in El |- *. injection El as El.
    do 2 f_equal. apply lower_zeros. exact El.
Qed.

(** ** Order of hexadecimal text *)

Lemma lower_hex_order c d :
  is_lower_hex c = true → is_lower_hex d = true → ((c <? d)%N = (hex_value c <? hex_value d)).
Proof.
  intros Hc Hd.
  assert (∀ x, is_lower_hex x = true →
            x ∈ [48; 49; 50; 51; 52; 53; 54; 55; 56; 57; 97; 98; 99; 100; 101; 102]%N) as Hin.
  { intros x H. unfold is_lower_hex, is_digit in H. repeat rewrite elem_of_cons.
    apply orb_true_iff in H as [H%in_range_spec|H%in_range_spec]; lia. }
  assert (forallb (λ x, forallb (λ y, Bool.eqb ((x <? y)%N) (hex_value x <? hex_value y))
            [48; 49; 50; 51; 52; 53; 54; 55; 56; 57; 97; 98; 99; 100; 101; 102]%N)
            [48; 49; 50; 51; 52; 53; 54; 55; 56; 57; 97; 98; 99; 100; 101; 102]%N = true) as H
    by (vm_compute; reflexivity).
  rewrite forallb_forall in H. specialize (H c). rewrite forallb_forall in H.
  apply Bool.eqb_prop, H; apply list_elem_of_In, Hin; done.
Qed.

Lemma jstr_leb_hex s t :
  length s = length t → Nat.even (length s) = true →
  forallb is_lower_hex s = true → forallb is_lower_hex t = true →
  jstr_leb s t = (compare_bytes (bytes_of_hex s) (bytes_of_hex t) <=? 0).
Proof.
  revert t. induction s as [s IH] using (induction_ltof1 _ (@length N)). unfold ltof in IH.
  destruct s as [|a [|b s]]; intros [|c [|d t]]; try done. intros Hl He. cbn [forallb].
  intros [Ha [Hb Hs]%andb_prop]%andb_prop [Hc [Hd Ht]%andb_prop]%andb_prop.
  simpl in Hl, He. injection Hl as Hl.
  pose proof (lower_hex_order a c Ha Hc) as E1. pose proof (lower_hex_order c a Hc Ha) as E2.
  pose proof (lower_hex_order b d Hb Hd) as E3. pose proof (lower_hex_order d b Hd Hb) as E4.
  apply lower_hex_char in Ha as (Ha & Hra & _), Hb as (Hb & Hrb & _), Hc as (Hc & Hrc & _), Hd as (Hd & Hrd & _).
  cbn [jstr_leb bytes_of_hex]. rewrite Ha, Hb, Hc, Hd, E1, E2, E3, E4. cbn [andb compare_bytes].
  rewrite (IH s ltac:(simpl; lia) t Hl He Hs Ht).
  destruct (Z.ltb_spec (hex_value a) (hex_value c)), (Z.ltb_spec (hex_value c) (hex_value a)),
    (Z.ltb_spec (hex_value b) (hex_value d)), (Z.ltb_spec (hex_value d) (hex_value b)),
    (Z.ltb_spec (16 * hex_value a + hex_value b) (16 * hex_value c + hex_value d)),
    (Z.ltb_spec (16 * hex_value c + hex_value d) (16 * hex_value a + hex_value b)); try done; lia.
Qed.

(** The SDK's order on lower-cased text is the contract's on 32-byte words. *)
Lemma hash_order s t :
  hash_text s = true → hash_text t = true →
  jstr_leb (to_lower s) (to_lower t)
  = (be_value (hexBytes s) <? be_value (hexBytes t)) || bool_decide (hexBytes s = hexBytes t).
Proof.
  intros Hs Ht. pose proof (hash_text_bytes s Hs) as (Es & Ls & Bs). pose proof (hash_text_bytes t Ht) as (Et & Lt & Bt).
  pose proof (compare_bytes_be (hexBytes s) (hexBytes t) ltac:(congruence) Bs Bt) as Hlt.
  pose proof (compare_bytes_eq (hexBytes s) (hexBytes t)) as Heq.
  assert (jstr_leb (to_lower s) (to_lower t) = (compare_bytes (hexBytes s) (hexBytes t) <=? 0)) as ->.
  { rewrite <- Es, <- Et. destruct (hash_text_cases s Hs) as (ds & -> & Hl & Hd & _).
    destruct (hash_text_cases t Ht) as (dt & -> & Hl' & Hd' & _).
    change (jstr_leb (to_lower ds) (to_lower dt)
            = (compare_bytes (bytes_of_hex (to_lower ds)) (bytes_of_hex (to_lower dt)) <=? 0)).
    apply jstr_leb_hex; [by rewrite !to_lower_length, Hl, Hl'|by rewrite to_lower_length, Hl|done|done]. }
  destruct (compare_bytes (hexBytes s) (hexBytes t) <=? 0) eqn:E; symmetry; inv_bool.
  - rewrite orb_true_iff, Z.ltb_lt, bool_decide_eq_true. rewrite <- Hlt, <- Heq. lia.
  - rewrite orb_false_iff, Z.ltb_ge, bool_decide_eq_false. rewrite <- Heq. lia.
Qed.

(** ** Actions on an endpoint *)

Section endpoint.
Context (toLowerCase : jstr → jstr) (W : Type) (user_aborted timer_fired : W → bool).
Context (now : W → Z) (random : W → num) (wait : num → W → W).
Context (endpoint : request → W → outcome jsv * W).

Lemma io_bind_Done {A B} (m : io W A) (f : A → io W B) w b w' :
  (m ≫= f) w = (Done b, w') ↔ ∃ a w1, m w = (Done a, w1) ∧ f a w1 = (Done b, w').
Proof.
  unfold mbind, io_bind. destruct (m w) as [[a|t] w1]; split.
  - eauto.
  - by intros (? & ? & [= <- <-] & ?).
  - done.
  - by intros (? & ? & ? & _).
Qed.

Lemma check_signal_Done sig w w' : check_signal W sig w = (Done (), w') → w' = w.
Proof. unfold check_signal. destruct (sig w); [done|]. by intros [= <-]. Qed.

Lemma ask_all_Done rs w l w' :
  ask_all W endpoint rs w = (Done l, w') → length l = length rs.
Proof.
  revert w l w'. induction rs as [|r rs IH]; intros w l w'; simpl; [by intros [= <- _]|].
  destruct (endpoint r w) as [a w1]. destruct (ask_all W endpoint rs w1) as [l' w2] eqn:E.
  intros [= H _]. apply outcome_bind_Done in H as (v & _ & H).
  apply outcome_bind_Done in H as (vs & -> & [= <-]). simpl. f_equal. by eapply IH.
Qed.

Abbreviation contract_action := (contract_action toLowerCase W user_aborted timer_fired now random wait).

Lemma contract_action_done {T} op method fb (action : (W → bool) → io W T) options w a w' tr :
  contract_action op method fb action options w = (Done a, w', tr) →
  ∃ sig w0 w1, action sig w0 = (Done a, w1).
Proof. intros (sig & _ & w0 & w1 & H)%runAction_done. eauto. Qed.

Lemma contract_action_default {T} op method fb (action : (W → bool) → io W T) w a w' :
  valid_label op = true → valid_label method = true →
  action (λ _, false) w = (Done a, w') →
  ∃ tr, contract_action op method fb action default_options w = (Done a, w', tr).
Proof.
  intros Ho Hm Ha. apply read_default; [|done].
  unfold validateExecutionContext, with_kind, context_labels. cbn -[valid_label]. by rewrite Ho, Hm.
Qed.
End endpoint.

(** ** Deployed bytecode *)

Section verification.
Context (keccak256 : jstr → jstr) (isHex : jstr → bool).
Context (toLowerCase : jstr → jstr) (W : Type) (user_aborted timer_fired : W → bool).
Context (now : W → Z) (random : W → num) (wait : num → W → W).
Context (endpoint : request → W → outcome jsv * W).

(** Whatever the endpoint, the controls and the retries do, a deployment is
    reported as verified only when it pins a code hash and the endpoint answered
    [eth_getCode] of its address with non-empty hexadecimal code of that hash;
    the report names exactly this deployment. *)
Theorem verified_code_matches d options w v w' tr :
  verifyToriumContractDeployment keccak256 isHex toLowerCase W user_aborted timer_fired now random wait
    endpoint d options w = (Done v, w', tr) →
  ∃ expected code w0 w1,
    runtimeCodeKeccak256 d = Some expected ∧
    endpoint (GetCode (address d)) w0 = (Done (JStr code), w1) ∧
    code ≠ js "0x" ∧ isHex code = true ∧ keccak256 code = toLowerCase expected ∧
    v = CodeVerification (contractName d) (address d) (implementationVersion d) (keccak256 code).
Proof.
  intros (sig & w0 & w1 & H)%contract_action_done. unfold verify_deployment in H.
  apply io_bind_Done in H as (u & w2 & _ & H).
  destruct (runtimeCodeKeccak256 d) as [expected|]; [|done].
  apply io_bind_Done in H as (code & w3 & Hcode & H). apply io_bind_Done in H as (u' & w4 & _ & H).
  unfold lift in H. injection H as H _. unfold check_code in H.
  destruct code as [| | | | |s| | |]; try done.
  destruct (s =s? js "0x") eqn:E0; [done|]. destruct (isHex s) eqn:Eh; [|done].
  cbn [negb] in H. destruct (keccak256 s =s? toLowerCase expected) eqn:Ek; [|done].
  injection H as <-. exists expected, s, w2, w3. split_and!; try done.
  - intros ->. apply not_true_iff_false in E0. apply E0. by apply jeq_spec.
  - by apply jeq_spec.
Qed.
End verification.

Definition sample_deployment : ToriumContractDeployment :=
  Deployment toriumAttestationRegistry (js "0x17e64A025e33865005B2cC793b093Dc2DB57bdc4") (js "1.0.0")
    (Some (js "0xAB")).

(** An endpoint whose code hashes to the pinned value. *)
Definition sample_endpoint (r : request) (w : unit) : outcome jsv * unit :=
  match r with GetCode _ => (Done (JStr (js "0x6001")), w) | _ => (Done JNull, w) end.

Lemma verified_code_matches_witness :
  let run := verifyToriumContractDeployment (λ _, js "0xab") (λ _, true) to_lower unit (λ _, false) (λ _, false)
    (λ _, 0) (λ _, NInt 0) (λ _ w, w) sample_endpoint sample_deployment default_options () in
  ∃ v, run.1.1 = Done v ∧ cv_runtimeCodeKeccak256 v = js "0xab".
Proof.
  intros run.
  assert (run.1.1 = Done (CodeVerification toriumAttestationRegistry
            (js "0x17e64A025e33865005B2cC793b093Dc2DB57bdc4") (js "1.0.0") (js "0xab"))) as E by (vm_compute; reflexivity).
  eexists. split; [exact E|].
  destruct (verified_code_matches (λ _, js "0xab") (λ _, true) to_lower unit (λ _, false) (λ _, false)
    (λ _, 0) (λ _, NInt 0) (λ _ w, w) sample_endpoint sample_deployment default_options () _ run.1.2 run.2
    (eq_trans (triple_eta run) (f_equal (λ x, (x, run.1.2, run.2)) E))) as (ex & code & w0 & w1 & _ & _ & _ & _ & _ & Hv).
  exact (f_equal cv_runtimeCodeKeccak256 Hv).
Defined.
