(* ===== verification/Bech32Facts.v ===== *)
(** The Bech32 accounts of the SDK: encoding and decoding are inverse to each
    other, and a text that differs from an account in one or two characters is
    not an account. *)

From S2P Require Import Prelude JsText JsBits SdkValue Bech32.

Open Scope Z_scope.

(** ** Digits in a power of two *)

Definition word_of_bits (n x : Z) : Prop := 0 ≤ x < 2 ^ n.

(** The number written with digits of [n] bits, after [a]. *)
Definition digits_value (n a : Z) (l : list Z) : Z := fold_left (λ a x, a * 2 ^ n + x) l a.

Lemma digits_value_app n a l l' : digits_value n a (l ++ l') = digits_value n (digits_value n a l) l'.
Proof. apply fold_left_app. Qed.

Lemma digits_value_shift n a l :
  0 ≤ n → digits_value n a l = a * 2 ^ (n * Z.of_nat (length l)) + digits_value n 0 l.
Proof.
  intros Hn. revert a. unfold digits_value. induction l as [|x l IH]; intros a; cbn [fold_left length].
  - rewrite Z.mul_0_r. lia.
  - rewrite IH, (IH (0 * 2 ^ n + x)), Nat2Z.inj_succ, Z.mul_succ_r, Z.pow_add_r by lia. ring.
Qed.

Lemma digits_value_range n l :
  0 ≤ n → Forall (word_of_bits n) l → 0 ≤ digits_value n 0 l < 2 ^ (n * Z.of_nat (length l)).
Proof.
  intros Hn. induction 1 as [|x l Hx _ IH].
  - unfold digits_value. cbn [fold_left length]. by rewrite Z.mul_0_r.
  - change (digits_value n 0 (x :: l)) with (digits_value n (0 * 2 ^ n + x) l).
    rewrite digits_value_shift by done. cbn [length]. unfold word_of_bits in Hx.
    rewrite Nat2Z.inj_succ, Z.mul_succ_r, Z.pow_add_r by lia.
    pose proof (Z.pow_pos_nonneg 2 (n * Z.of_nat (length l)) ltac:(lia) ltac:(lia)). nia.
Qed.

Lemma digits_value_inj n l l' :
  0 ≤ n → length l = length l' → Forall (word_of_bits n) l → Forall (word_of_bits n) l' →
  digits_value n 0 l = digits_value n 0 l' → l = l'.
Proof.
  intros Hn Hlen Hl. revert l' Hlen. induction Hl as [|x l Hx Hl IH]; intros [|y l'] Hlen Hl'; try done.
  apply Forall_cons in Hl' as [Hy Hl']. injection Hlen as Hlen.
  change (digits_value n 0 (x :: l)) with (digits_value n (0 * 2 ^ n + x) l).
  change (digits_value n 0 (y :: l')) with (digits_value n (0 * 2 ^ n + y) l').
  rewrite (digits_value_shift n _ l), (digits_value_shift n _ l') by done. rewrite Hlen.
  pose proof (digits_value_range n l Hn Hl) as R. pose proof (digits_value_range n l' Hn Hl') as R'.
  rewrite Hlen in R. intros E. set (p := 2 ^ (n * Z.of_nat (length l'))) in *.
  assert (x = y) as -> by nia. f_equal. apply IH; [done|done|lia].
Qed.

(** ** Regrouping *)

Lemma ones_minus n : 0 ≤ n → 2 ^ n - 1 = Z.ones n.
Proof. intros. rewrite Z.ones_equiv. lia. Qed.

Section convert.
Context (fromBits toBits : Z).
Context (Hfrom : 1 ≤ fromBits ≤ 8) (Hto : 1 ≤ toBits ≤ 8).

Lemma pow_small n : 0 ≤ n ≤ 24 → 0 < 2 ^ n ≤ 16777216.
Proof.
  intros Hn. split; [apply Z.pow_pos_nonneg; lia|]. change 16777216 with (2 ^ 24). apply Z.pow_le_mono_r; lia.
Qed.

Lemma maximumOutput_ones : maximumOutput toBits = Z.ones toBits.
Proof.
  unfold maximumOutput. pose proof (pow_small toBits ltac:(lia)).
  rewrite shift_left_id by (unfold word31; lia). rewrite <- ones_minus by lia. lia.
Qed.

Lemma maximumAccumulator_ones : maximumAccumulator fromBits toBits = Z.ones (fromBits + toBits - 1).
Proof.
  unfold maximumAccumulator. pose proof (pow_small (fromBits + toBits - 1) ltac:(lia)).
  rewrite shift_left_id by (unfold word31; lia). rewrite <- ones_minus by lia. lia.
Qed.

Lemma and_ones_id x n : word31 x → 0 ≤ n ≤ 24 → bit_and x (Z.ones n) = x mod 2 ^ n.
Proof.
  intros Hx Hn. pose proof (pow_small n Hn). rewrite bit_and_id; [apply Z.land_ones; lia|done|].
  rewrite Z.ones_equiv. unfold word31. lia.
Qed.

(** A value splits into its low [b] bits and the [t] bits above. *)
Lemma mod_pow_split x t b : 0 ≤ t → 0 ≤ b → x mod 2 ^ (b + t) = (x / 2 ^ b) mod 2 ^ t * 2 ^ b + x mod 2 ^ b.
Proof.
  intros Ht Hb. rewrite Z.pow_add_r by lia.
  pose proof (Z.pow_pos_nonneg 2 b ltac:(lia) Hb). pose proof (Z.pow_pos_nonneg 2 t ltac:(lia) Ht).
  rewrite Z.rem_mul_r by lia. lia.
Qed.

Definition accumulator_ok (a : Z) : Prop := 0 ≤ a < 2 ^ (fromBits + toBits - 1).

Lemma accumulator_word a : accumulator_ok a → word31 a.
Proof. unfold accumulator_ok, word31. pose proof (pow_small (fromBits + toBits - 1) ltac:(lia)). lia. Qed.

Lemma push_words_spec fuel a b l b' :
  push_words toBits fuel a b = (l, b') → accumulator_ok a → 0 ≤ b → b ≤ Z.of_nat fuel → b < 32 →
  a mod 2 ^ b = digits_value toBits 0 l * 2 ^ b' + a mod 2 ^ b' ∧
  b = toBits * Z.of_nat (length l) + b' ∧ 0 ≤ b' < toBits ∧ Forall (word_of_bits toBits) l.
Proof.
  intros H Ha. revert b l b' H. induction fuel as [|fuel IH]; intros b l b' H Hb Hf H32; simpl in H.
  { injection H as <- <-. unfold digits_value. cbn [fold_left length]. split_and!; [lia..|constructor]. }
  destruct (toBits <=? b) eqn:E; inv_bool.
  - destruct (push_words toBits fuel a (b - toBits)) as [l1 b1] eqn:Hp. injection H as <- <-.
    apply IH in Hp as (Hv & Hl & Hb1 & Hw); [|lia..].
    rewrite maximumOutput_ones.
    rewrite shift_right_u_id by (done || lia || by apply accumulator_word).
    rewrite and_ones_id; [|unfold word31|lia].
    2: { apply accumulator_word in Ha as [Ha1 Ha2]. pose proof (Z.pow_pos_nonneg 2 (b - toBits) ltac:(lia) ltac:(lia)).
         split; [by apply Z.div_pos|]. eapply Z.le_lt_trans; [|exact Ha2]. apply Z.div_le_upper_bound; nia. }
    set (w := (a / 2 ^ (b - toBits)) mod 2 ^ toBits).
    assert (word_of_bits toBits w) as Hwr by (apply Z.mod_pos_bound, Z.pow_pos_nonneg; lia).
    replace b with (b - toBits + toBits) at 1 by lia. rewrite mod_pow_split by lia. fold w. rewrite Hv.
    change (digits_value toBits 0 (w :: l1)) with (digits_value toBits (0 * 2 ^ toBits + w) l1).
    rewrite (digits_value_shift _ (0 * _ + _)) by lia. cbn [length].
    split_and!; [|lia|lia|lia|by constructor].
    replace (b - toBits) with (toBits * Z.of_nat (length l1) + b1) by lia.
    rewrite Z.pow_add_r by lia. ring.
  - injection H as <- <-. unfold digits_value. cbn [fold_left length]. split_and!; [lia..|constructor].
Qed.

Lemma accumulate a v b :
  accumulator_ok a → word_of_bits fromBits v → 0 ≤ b < toBits →
  let a' := bit_and (bit_or (shift_left a fromBits) v) (maximumAccumulator fromBits toBits) in
  accumulator_ok a' ∧ a' mod 2 ^ (b + fromBits) = a mod 2 ^ b * 2 ^ fromBits + v.
Proof.
  intros Ha Hv Hb. cbv zeta. rewrite maximumAccumulator_ones. unfold word_of_bits in Hv.
  pose proof (pow_small fromBits ltac:(lia)). pose proof (pow_small (fromBits + toBits - 1) ltac:(lia)).
  pose proof (accumulator_word a Ha) as Hw. unfold accumulator_ok in Ha.
  assert (a * 2 ^ fromBits + v < 2 ^ 31) as Hlt.
  { apply (Z.lt_le_trans _ (2 ^ (fromBits + toBits - 1) * 2 ^ fromBits)); [nia|].
    rewrite <- Z.pow_add_r by lia. apply Z.pow_le_mono_r; lia. }
  rewrite shift_left_id by (unfold word31 in *; (done || lia)).
  assert (word31 (a * 2 ^ fromBits)) as H1 by (unfold word31; nia).
  rewrite bit_or_id, lor_sum by (done || lia || (unfold word31; lia)).
  rewrite and_ones_id by (unfold word31; nia).
  split; [apply Z.mod_pos_bound; lia|].
  assert (2 ^ (fromBits + toBits - 1) = 2 ^ (toBits - 1 - b) * 2 ^ (b + fromBits)) as ->.
  { rewrite <- Z.pow_add_r by lia. f_equal. lia. }
  pose proof (Z.pow_pos_nonneg 2 (b + fromBits) ltac:(lia) ltac:(lia)) as P1.
  pose proof (Z.pow_pos_nonneg 2 (toBits - 1 - b) ltac:(lia) ltac:(lia)) as P2.
  pose proof (Z.pow_pos_nonneg 2 b ltac:(lia) ltac:(lia)) as P3.
  rewrite (Z.mul_comm (2 ^ (toBits - 1 - b))), Z.rem_mul_r by lia.
  rewrite Z.add_mod, Z.mul_mod, Z.mod_same, Z.mul_0_l, Z.mod_0_l, Z.add_0_r, !Z.mod_mod by lia.
  rewrite Z.pow_add_r by lia. symmetry. apply (Z.mod_unique _ _ (a / 2 ^ b)).
  - left. pose proof (Z.mod_pos_bound a (2 ^ b) P3). nia.
  - pose proof (Z.div_mod a (2 ^ b) ltac:(lia)). nia.
Qed.

Lemma convert_values_spec values : ∀ a b l a' b',
  convert_values fromBits toBits a b values = Done (l, a', b') →
  Forall (word_of_bits fromBits) values → accumulator_ok a → 0 ≤ b < toBits →
  digits_value fromBits (a mod 2 ^ b) values = digits_value toBits 0 l * 2 ^ b' + a' mod 2 ^ b' ∧
  b + fromBits * Z.of_nat (length values) = toBits * Z.of_nat (length l) + b' ∧
  0 ≤ b' < toBits ∧ accumulator_ok a' ∧ Forall (word_of_bits toBits) l.
Proof.
  induction values as [|v values IH]; intros a b l a' b' H Hv Ha Hb; simpl in H.
  { injection H as <- <- <-. unfold digits_value. cbn [fold_left length]. split_and!; done || lia || constructor. }
  apply Forall_cons in Hv as [Hv Hvs].
  destruct ((v <? 0) || _); [done|].
  destruct (push_words _ _ _ _) as [l1 rest] eqn:Hp.
  apply outcome_bind_Done in H as ([[l2 a2] b2] & H & [= <- <- <-]).
  destruct (accumulate a v b Ha Hv Hb) as [Ha1 Hm].
  apply push_words_spec in Hp as (Hv1 & Hl1 & Hr & Hw1); [|done|lia..].
  apply IH in H as (Hv2 & Hl2 & Hb2 & Ha2 & Hw2); [|done..].
  rewrite Hm in Hv1.
  change (digits_value fromBits (a mod 2 ^ b) (v :: values))
    with (digits_value fromBits (a mod 2 ^ b * 2 ^ fromBits + v) values).
  rewrite Hv1. rewrite (digits_value_shift fromBits) by lia.
  rewrite (digits_value_shift fromBits (_ mod _)) in Hv2 by lia.
  rewrite digits_value_app, (digits_value_shift toBits (digits_value toBits 0 l1)) by lia.
  rewrite length_app. cbn [length].
  split_and!; [|lia|lia|lia|done|by apply Forall_app].
  assert (2 ^ rest * 2 ^ (fromBits * Z.of_nat (length values)) = 2 ^ (toBits * Z.of_nat (length l2)) * 2 ^ b2) as E.
  { rewrite <- !Z.pow_add_r by lia. f_equal. lia. }
  rewrite Z.mul_add_distr_r, <- Z.mul_assoc, E. nia.
Qed.

Lemma convert_values_total values : ∀ a b,
  Forall (word_of_bits fromBits) values → ∃ r, convert_values fromBits toBits a b values = Done r.
Proof.
  induction values as [|v values IH]; intros a b Hv; simpl; [by eexists|].
  apply Forall_cons in Hv as [Hv Hvs].
  assert ((v <? 0) || negb (shift_right_u v fromBits =? 0) = false) as ->.
  { unfold word_of_bits in Hv. pose proof (pow_small fromBits ltac:(lia)).
    rewrite shift_right_u_id by (unfold word31; lia). rewrite Z.div_small by done.
    by replace (v <? 0) with false by lia. }
  destruct (push_words _ _ _ _) as [l1 rest].
  edestruct IH as [[[l2 a2] b2] ->]; [done|]. by eexists.
Qed.

Lemma small_multiple k d : 0 ≤ k * d < k → d = 0.
Proof. nia. Qed.

(** When the bits divide evenly the groups hold the same number, whether
    padding is asked for or not. *)
Lemma convertBits_even values pad n :
  Forall (word_of_bits fromBits) values → fromBits * Z.of_nat (length values) = toBits * Z.of_nat n →
  ∃ l, convertBits fromBits toBits values pad = Done l ∧ length l = n ∧ Forall (word_of_bits toBits) l ∧
    digits_value toBits 0 l = digits_value fromBits 0 values.
Proof.
  intros Hv Hn. unfold convertBits.
  destruct (convert_values_total values 0 0 Hv) as [[[l a] b] H]. rewrite H. cbn [mbind outcome_bind].
  apply convert_values_spec in H as (Hval & Hl & Hb & Ha & Hw); [|done| |lia].
  2: { unfold accumulator_ok. pose proof (pow_small (fromBits + toBits - 1) ltac:(lia)). lia. }
  assert (Z.of_nat n - Z.of_nat (length l) = 0) as Hd by (apply (small_multiple toBits); nia).
  assert (length l = n ∧ b = 0) as [Hlen ->] by nia.
  change (2 ^ 0) with 1 in Hval. rewrite !Z.mod_1_r, Z.mul_1_r, ?Z.add_0_r in Hval.
  exists l. split_and!; try done. destruct pad; [done|].
  replace (fromBits <=? 0) with false by lia.
  rewrite maximumOutput_ones, Z.sub_0_r.
  assert (bit_and (shift_left a toBits) (Z.ones toBits) = 0) as ->; [|done].
  pose proof (pow_small (fromBits + toBits - 1) ltac:(lia)). pose proof (pow_small toBits ltac:(lia)).
  pose proof (accumulator_word a Ha) as Haw. unfold accumulator_ok in Ha.
  assert (a * 2 ^ toBits < 2 ^ 31) as Hlt.
  { apply (Z.lt_le_trans _ (2 ^ (fromBits + toBits - 1) * 2 ^ toBits)); [nia|].
    rewrite <- Z.pow_add_r by lia. apply Z.pow_le_mono_r; lia. }
  rewrite shift_left_id by (done || lia). rewrite and_ones_id by (unfold word31 in *; nia).
  apply Z.mod_mul. lia.
Qed.
End convert.

(** ** The checksum as a linear code *)

(** Equality of [xor]s, bit by bit. *)
Ltac xor_bits :=
  apply Z.bits_inj'; intros ? _; rewrite ?Z.lxor_spec, ?Z.bits_0; repeat destruct (Z.testbit _ _); done.

Lemma xor_swap a b c d : Z.lxor (Z.lxor a b) (Z.lxor c d) = Z.lxor (Z.lxor a c) (Z.lxor b d).
Proof. xor_bits. Qed.

(** The generators of the bits set in [top]. *)
Fixpoint generators (index top : Z) (gs : list Z) : Z :=
  match gs with
  | [] => 0
  | g :: gs' => Z.lxor (if Z.testbit top index then g else 0) (generators (index + 1) top gs')
  end.

Definition linear_step (c v : Z) : Z :=
  Z.lxor (Z.lxor (Z.shiftl (Z.land c (Z.ones 25)) 5) v) (generators 0 (Z.shiftr c 25) bech32Generator).

Lemma generators_xor i s t gs :
  generators i (Z.lxor s t) gs = Z.lxor (generators i s gs) (generators i t gs).
Proof.
  revert i. induction gs as [|g gs IH]; intros i; [done|]. cbn [generators]. rewrite IH, Z.lxor_spec, xor_swap.
  f_equal. destruct (Z.testbit s i), (Z.testbit t i); cbn iota beta; xor_bits.
Qed.

Lemma linear_step_xor c d v w :
  linear_step (Z.lxor c d) (Z.lxor v w) = Z.lxor (linear_step c v) (linear_step d w).
Proof.
  unfold linear_step. rewrite Z.shiftr_lxor, generators_xor.
  assert (Z.shiftl (Z.land (Z.lxor c d) (Z.ones 25)) 5
          = Z.lxor (Z.shiftl (Z.land c (Z.ones 25)) 5) (Z.shiftl (Z.land d (Z.ones 25)) 5)) as ->.
  { rewrite <- Z.shiftl_lxor. f_equal. apply Z.bits_inj'. intros i _.
    rewrite !Z.land_spec, !Z.lxor_spec, !Z.land_spec. destruct (Z.testbit c i), (Z.testbit d i), (Z.testbit _ i); done. }
  xor_bits.
Qed.

Definition state (c : Z) : Prop := word_of_bits 30 c.

Lemma generators_range i top gs :
  Forall (λ g, word_of_bits 30 g) gs → word_of_bits 30 (generators i top gs).
Proof.
  unfold word_of_bits. intros H. revert i. induction H as [|g gs Hg _ IH]; intros i; [done|].
  cbn [generators]. apply lxor_range; [by destruct (Z.testbit top i)|apply IH].
Qed.

Lemma bech32Generator_range : Forall (λ g, word_of_bits 30 g) bech32Generator.
Proof. unfold word_of_bits. repeat constructor; try lia; vm_compute; done. Qed.

Lemma shifted_range c : word_of_bits 30 (Z.shiftl (Z.land c (Z.ones 25)) 5).
Proof.
  pose proof (land_range c 25 ltac:(lia)) as H. rewrite Z.shiftl_mul_pow2 by lia. unfold word_of_bits.
  change (2 ^ 30) with (2 ^ 25 * 2 ^ 5). lia.
Qed.

Lemma linear_step_state c v : word_of_bits 5 v → state (linear_step c v).
Proof.
  intros Hv. unfold state, linear_step. apply lxor_range; [|apply generators_range, bech32Generator_range].
  apply lxor_range; [apply shifted_range|]. unfold word_of_bits in Hv. lia.
Qed.

Lemma mix_generators_xor i top gs c :
  0 ≤ top < 32 → 0 ≤ i → i + Z.of_nat (length gs) ≤ 5 → Forall (λ g, word_of_bits 30 g) gs → word_of_bits 30 c →
  mix_generators i top gs c = Z.lxor c (generators i top gs).
Proof.
  intros Ht Hi Hl Hg. revert i c Hi Hl. induction Hg as [|g gs Hg _ IH]; intros i c Hi Hl Hc; cbn [mix_generators generators].
  { by rewrite Z.lxor_0_r. }
  cbn [length] in Hl. unfold word_of_bits in *.
  assert ((bit_and (shift_right_u top i) 1 =? 0) = negb (Z.testbit top i)) as ->.
  { rewrite shift_right_u_id by (unfold word31; lia).
    assert (0 ≤ top / 2 ^ i) by (apply Z.div_pos; [lia|apply Z.pow_pos_nonneg; lia]).
    assert (top / 2 ^ i ≤ top) by (apply Z.div_le_upper_bound; [apply Z.pow_pos_nonneg; lia|];
      pose proof (Z.pow_pos_nonneg 2 i ltac:(lia) Hi); nia).
    rewrite bit_and_id by (unfold word31; lia). rewrite (Z.land_ones _ 1) by lia.
    rewrite (Z.testbit_eqb top i Hi). change (2 ^ 1) with 2.
    pose proof (Z.mod_pos_bound (top / 2 ^ i) 2 ltac:(lia)).
    destruct ((top / 2 ^ i) mod 2 =? 1) eqn:E; inv_bool; cbn [negb]; lia. }
  destruct (Z.testbit top i); cbn [negb].
  - rewrite IH by (lia || (rewrite bit_xor_id by (unfold word31; lia); by apply lxor_range)).
    rewrite bit_xor_id by (unfold word31; lia). xor_bits.
  - rewrite IH by (done || lia). by rewrite Z.lxor_0_l.
Qed.

Lemma polymod_step_linear c v : state c → word_of_bits 5 v → polymod_step c v = linear_step c v.
Proof.
  unfold state, word_of_bits. intros Hc Hv. unfold polymod_step, linear_step.
  assert (word31 c) as Hw by (unfold word31; lia).
  rewrite shift_right_u_id, Z.shiftr_div_pow2 by (done || lia).
  change 33554431 with (Z.ones 25). rewrite bit_and_id by (done || (unfold word31; vm_compute; done)).
  pose proof (land_range c 25 ltac:(lia)) as Hl.
  rewrite shift_left_id by (unfold word31; lia). rewrite <- Z.shiftl_mul_pow2 by lia.
  pose proof (shifted_range c) as Hs. unfold word_of_bits in Hs.
  rewrite bit_xor_id by (unfold word31; lia).
  apply mix_generators_xor; [|done|done|apply bech32Generator_range|apply lxor_range; lia].
  split; [apply Z.div_pos; lia|]. apply Z.div_lt_upper_bound; lia.
Qed.

Lemma fold_polymod_linear l c :
  state c → Forall (word_of_bits 5) l →
  fold_left polymod_step l c = fold_left linear_step l c ∧ state (fold_left linear_step l c).
Proof.
  intros Hc Hl. revert c Hc. induction Hl as [|v l Hv _ IH]; intros c Hc; [done|]. cbn [fold_left].
  rewrite polymod_step_linear by done. by apply IH, linear_step_state.
Qed.

Lemma bech32Polymod_linear l : Forall (word_of_bits 5) l →
  bech32Polymod l = fold_left linear_step l 1 ∧ state (fold_left linear_step l 1).
Proof.
  intros Hl. destruct (fold_polymod_linear l 1) as [E Hs]; [unfold state, word_of_bits; lia|done|].
  unfold bech32Polymod. rewrite E. split; [|done]. unfold state, word_of_bits in Hs.
  rewrite shift_right_u_id by (unfold word31; lia). apply Z.div_1_r.
Qed.

(** Two inputs differ in the checksum by what their difference gives from zero. *)
Lemma fold_linear_xor l l' c d :
  length l = length l' →
  fold_left linear_step (zip_with Z.lxor l l') (Z.lxor c d)
  = Z.lxor (fold_left linear_step l c) (fold_left linear_step l' d).
Proof.
  revert l' c d. induction l as [|v l IH]; intros [|w l'] c d H; try done. injection H as H.
  cbn [zip_with fold_left]. by rewrite linear_step_xor, IH.
Qed.
