(* ===== verification/Bech32Account.v ===== *)
(** The account texts of the SDK: encoding and decoding are inverse to each
    other, and a text that differs from an account in one, two or three
    characters is not an account. *)

From stdpp Require Import pmap.
From S2P Require Import Prelude JsText JsBits SdkValue Bech32 Bech32Facts.

Open Scope Z_scope.

(** ** The checksum words *)

Definition prefix_state : Z := fold_left linear_step (expandBech32Hrp (js "torium")) 1.

Lemma hrp_words : Forall (word_of_bits 5) (expandBech32Hrp (js "torium")).
Proof. unfold word_of_bits. vm_compute. repeat constructor; done. Qed.

Lemma prefix_state_range : state prefix_state.
Proof. by apply bech32Polymod_linear, hrp_words. Qed.

Lemma polymod_torium l : Forall (word_of_bits 5) l →
  bech32Polymod (expandBech32Hrp (js "torium") ++ l) = fold_left linear_step l prefix_state.
Proof.
  intros Hl. destruct (bech32Polymod_linear (expandBech32Hrp (js "torium") ++ l)) as [-> _].
  - apply Forall_app. split; [apply hrp_words|done].
  - by rewrite fold_left_app.
Qed.

Lemma zip_lxor_zeros l : zip_with Z.lxor l (repeat 0 (length l)) = l.
Proof. induction l as [|x l IH]; [done|]. cbn [length repeat zip_with]. by rewrite Z.lxor_0_r, IH. Qed.

(** Only the state and the words matter, and they act separately. *)
Lemma fold_linear_split l c :
  fold_left linear_step l c = Z.lxor (fold_left linear_step (repeat 0 (length l)) c) (fold_left linear_step l 0).
Proof.
  rewrite <- fold_linear_xor by apply repeat_length. rewrite Z.lxor_0_r. f_equal.
  symmetry. clear c. induction l as [|x l IH]; [done|]. cbn [length repeat zip_with]. by rewrite Z.lxor_0_l, IH.
Qed.

Lemma linear_step_small a v : word_of_bits 25 a → word_of_bits 5 v → linear_step a v = a * 2 ^ 5 + v.
Proof.
  unfold word_of_bits. intros Ha Hv. unfold linear_step.
  rewrite Z.land_ones, Z.mod_small, Z.shiftr_div_pow2, Z.div_small, Z.shiftl_mul_pow2 by (done || lia).
  change (generators 0 0 bech32Generator) with 0. rewrite Z.lxor_0_r.
  rewrite <- Z.add_nocarry_lxor; [done|]. apply Z.bits_inj'. intros i Hi. rewrite Z.land_spec, Z.bits_0.
  destruct (Z.lt_ge_cases i 5); [by rewrite Z.mul_pow2_bits_low|].
  by rewrite (testbit_above v 5), andb_false_r.
Qed.

(** Six words from the zero state are packed as they are. *)
Lemma fold_linear_pack l a n :
  word_of_bits n a → 0 ≤ n → n + 5 * Z.of_nat (length l) ≤ 30 → Forall (word_of_bits 5) l →
  fold_left linear_step l a = digits_value 5 a l.
Proof.
  intros Ha Hn Hlen Hl. revert a n Ha Hn Hlen. induction Hl as [|v l Hv _ IH]; intros a n Ha Hn Hlen; [done|].
  cbn [length] in Hlen. cbn [fold_left]. rewrite linear_step_small; [|..|done].
  - change (digits_value 5 a (v :: l)) with (digits_value 5 (a * 2 ^ 5 + v) l).
    apply (IH _ (n + 5)); [|lia..]. unfold word_of_bits in *. rewrite Z.pow_add_r by lia. nia.
  - unfold word_of_bits in *. split; [lia|]. eapply Z.lt_le_trans; [apply Ha|]. apply Z.pow_le_mono_r; lia.
Qed.

Lemma linear_states l c : state c → Forall (word_of_bits 5) l → state (fold_left linear_step l c).
Proof. intros Hc Hl. by apply fold_polymod_linear. Qed.

Definition zeros6 : list Z := [0; 0; 0; 0; 0; 0].

Lemma zeros6_words : Forall (word_of_bits 5) zeros6.
Proof. unfold word_of_bits. repeat constructor; lia. Qed.

(** The number whose six digits are the checksum. *)
Definition checksum_value (words : list Z) : Z := Z.lxor (fold_left linear_step (words ++ zeros6) prefix_state) 1.

Lemma checksum_value_range words : Forall (word_of_bits 5) words → state (checksum_value words).
Proof.
  intros Hw. apply lxor_range; [|lia]. apply linear_states; [apply prefix_state_range|].
  apply Forall_app. split; [done|apply zeros6_words].
Qed.

Lemma digit_of_value p k : 0 ≤ p → 0 ≤ k → p < 2 ^ 31 → k < 32 →
  bit_and (shift_right_u p k) 31 = (p / 2 ^ k) mod 32.
Proof.
  intros Hp Hk Hb H32. rewrite shift_right_u_id by (unfold word31; lia).
  pose proof (Z.pow_pos_nonneg 2 k ltac:(lia) Hk).
  rewrite bit_and_id by (unfold word31; split; [try apply Z.div_pos; lia|
    try (apply Z.div_lt_upper_bound; [lia|nia]); lia]).
  change 31 with (Z.ones 5). by rewrite Z.land_ones.
Qed.

Lemma createBech32Checksum_digits words :
  Forall (word_of_bits 5) words →
  length (createBech32Checksum (js "torium") words) = 6%nat ∧
  Forall (word_of_bits 5) (createBech32Checksum (js "torium") words) ∧
  digits_value 5 0 (createBech32Checksum (js "torium") words) = checksum_value words.
Proof.
  intros Hw. unfold createBech32Checksum. fold zeros6.
  rewrite polymod_torium by (apply Forall_app; split; [done|apply zeros6_words]).
  pose proof (linear_states (words ++ zeros6) prefix_state prefix_state_range
    ltac:(apply Forall_app; split; [done|apply zeros6_words])) as Hs.
  unfold state, word_of_bits in Hs. rewrite bit_xor_id by (unfold word31; lia). fold (checksum_value words).
  pose proof (checksum_value_range words Hw) as Hp. unfold state, word_of_bits in Hp.
  set (p := checksum_value words) in *. cbn [map].
  rewrite !digit_of_value by lia.
  assert (∀ k, word_of_bits 5 (k mod 32)) as Hm by (intros k; apply Z.mod_pos_bound; lia).
  split_and!; [done|rewrite !Forall_cons, Forall_nil; naive_solver|].
  unfold digits_value. cbn [fold_left].
  change (2 ^ (5 * (5 - 0))) with 33554432. change (2 ^ (5 * (5 - 1))) with 1048576.
  change (2 ^ (5 * (5 - 2))) with 32768. change (2 ^ (5 * (5 - 3))) with 1024.
  change (2 ^ (5 * (5 - 4))) with 32. change (2 ^ (5 * (5 - 5))) with 1. change (2 ^ 5) with 32.
  clear Hm Hs Hw. clearbody p. Z.to_euclidean_division_equations. lia.
Qed.

(** The checksum is the only sequence of six words that verifies. *)
Lemma verifyBech32Checksum_iff words c :
  Forall (word_of_bits 5) words → Forall (word_of_bits 5) c → length c = 6%nat →
  verifyBech32Checksum (js "torium") (words ++ c) = true ↔ c = createBech32Checksum (js "torium") words.
Proof.
  intros Hw Hc Hlen. destruct (createBech32Checksum_digits words Hw) as (Hl & Hcw & Hd).
  unfold verifyBech32Checksum. rewrite polymod_torium by by apply Forall_app.
  rewrite fold_left_app, fold_linear_split, Hlen. change (repeat 0 6) with zeros6.
  rewrite (fold_linear_pack c 0 0) by (done || (unfold word_of_bits; lia) || lia).
  rewrite <- fold_left_app, Z.eqb_eq.
  assert (fold_left linear_step (words ++ zeros6) prefix_state = Z.lxor (checksum_value words) 1) as ->.
  { unfold checksum_value. xor_bits. }
  rewrite <- Hd. split.
  - intros E. apply (digits_value_inj 5); [done|congruence|done|done|].
    transitivity (Z.lxor (Z.lxor (Z.lxor (digits_value 5 0 (createBech32Checksum (js "torium") words)) 1)
      (digits_value 5 0 c)) (Z.lxor (digits_value 5 0 (createBech32Checksum (js "torium") words)) 1)); [xor_bits|].
    rewrite E. xor_bits.
  - intros ->. set (d := digits_value _ _ _). xor_bits.
Qed.

(** ** Distance *)

(** The number of nonzero words. *)
Definition weight (d : list Z) : nat := length (filter (λ x, x ≠ 0) d).

Lemma fold_linear_zeros n : fold_left linear_step (repeat 0 n) 0 = 0.
Proof. induction n as [|n IH]; [done|]. apply IH. Qed.

Lemma linear_step_0 v : word_of_bits 5 v → linear_step 0 v = v.
Proof. intros Hv. rewrite linear_step_small; [lia|unfold word_of_bits; lia|done]. Qed.

(** What a word gives with [i] words after it. *)
Fixpoint syndrome (i : nat) (a : Z) : Z :=
  match i with O => a | S i' => syndrome i' (linear_step a 0) end.

Lemma syndrome_fold i a : syndrome i a = fold_left linear_step (repeat 0 i) a.
Proof. revert a. induction i as [|i IH]; intros a; [done|]. apply IH. Qed.

Lemma fold_cons v d : word_of_bits 5 v →
  fold_left linear_step (v :: d) 0 = Z.lxor (syndrome (length d) v) (fold_left linear_step d 0).
Proof. intros Hv. cbn [fold_left]. by rewrite linear_step_0, syndrome_fold, fold_linear_split. Qed.

Lemma fold_snoc v d : word_of_bits 5 v → Forall (word_of_bits 5) d →
  fold_left linear_step (d ++ [v]) 0 = Z.lxor (linear_step (fold_left linear_step d 0) 0) v.
Proof.
  intros Hv Hd. rewrite fold_left_app. cbn [fold_left].
  rewrite <- (Z.lxor_0_r (fold_left linear_step d 0)) at 1. rewrite <- (Z.lxor_0_l v) at 1.
  by rewrite linear_step_xor, linear_step_0.
Qed.

(** The values a single nonzero word gives, followed by 1 to [n] words. *)
Definition letters : list Z := map Z.of_nat (seq 1 31).

Fixpoint table (n : nat) (row : list Z) : list Z :=
  match n with
  | O => []
  | S n' => let row' := map (λ a, linear_step a 0) row in row' ++ table n' row'
  end.

Lemma table_elem n row i a : (i < n)%nat → a ∈ row → syndrome (S i) a ∈ table n row.
Proof.
  revert row i a. induction n as [|n IH]; intros row i a Hi Ha; [lia|]. cbn [table]. apply elem_of_app.
  assert (linear_step a 0 ∈ map (λ a, linear_step a 0) row) as H by (apply elem_of_map; eauto).
  destruct i as [|i]; [by left|]. right. apply (IH _ i); [lia|done].
Qed.

Lemma letters_elem v : word_of_bits 5 v → v ≠ 0 → v ∈ letters.
Proof.
  unfold word_of_bits. intros Hv Hne. apply elem_of_map. exists (Z.to_nat v). split; [lia|].
  apply elem_of_seq. lia.
Qed.

(** A set of numbers that a membership test can compute with. *)
Definition key (z : Z) : positive := Z.to_pos (z + 1).
Definition members (l : list Z) : Pmap () := foldr (λ z m, <[key z := ()]> m) ∅ l.
Definition member (m : Pmap ()) (z : Z) : bool := bool_decide (is_Some (m !! key z)).

Lemma member_in l z : z ∈ l → member (members l) z = true.
Proof.
  intros H. apply bool_decide_eq_true. induction H as [|z y l _ IH]; cbn [members foldr].
  - rewrite lookup_insert_eq. by eexists.
  - destruct (decide (key y = key z)) as [->|Hne]; [rewrite lookup_insert_eq; by eexists|].
    by rewrite lookup_insert_ne.
Qed.

Definition later_values : list Z := table 37 letters.
(** The set is kept in normal form, so that each test only walks it. *)
Definition later_set : Pmap () := Eval vm_compute in members (0 :: later_values).

Lemma later_set_members : members (0 :: later_values) = later_set.
Proof. vm_compute. reflexivity. Qed.

(** No word is what another gives, nor the sum of two such. *)
Lemma later_far :
  forallb (λ a, negb (member later_set a) && forallb (λ t, negb (member later_set (Z.lxor a t))) later_values)
    letters = true.
Proof. vm_compute. reflexivity. Qed.

Lemma later_values_spec a : a ∈ letters →
  0 ≠ a ∧ a ∉ later_values ∧ (∀ t, t ∈ later_values → Z.lxor a t ≠ 0 ∧ Z.lxor a t ∉ later_values).
Proof.
  intros Ha. pose proof later_far as H. rewrite <- later_set_members, forallb_forall in H.
  specialize (H a ltac:(by apply list_elem_of_In)). apply andb_prop in H as [H1 H2].
  assert (∀ z, negb (member (members (0 :: later_values)) z) = true → 0 ≠ z ∧ z ∉ later_values) as Hm.
  { intros z Hz%negb_true_iff. split.
    - intros <-. rewrite member_in in Hz; [done|left].
    - intros Hin. rewrite member_in in Hz; [done|by right]. }
  destruct (Hm a H1) as [??]. split_and!; [done..|]. intros t Ht. rewrite forallb_forall in H2.
  specialize (H2 t ltac:(by apply list_elem_of_In)). destruct (Hm _ H2). split; [congruence|done].
Qed.

Lemma weight_cons v d : weight (v :: d) = ((if decide (v ≠ 0%Z) then 1 else 0) + weight d)%nat.
Proof. unfold weight. rewrite filter_cons. by destruct (decide (v ≠ 0)). Qed.

Lemma weight_app d d' : weight (d ++ d') = (weight d + weight d')%nat.
Proof. unfold weight. by rewrite filter_app, length_app. Qed.

Lemma weight_zero d : Forall (word_of_bits 5) d → weight d = 0%nat → fold_left linear_step d 0 = 0.
Proof.
  induction 1 as [|v d Hv Hd IH]; [done|]. rewrite weight_cons. intros H.
  destruct (decide (v ≠ 0)) as [|Hz%dec_stable]; [lia|]. subst v.
  rewrite fold_cons, IH by (done || lia). by rewrite Z.lxor_0_r, syndrome_fold, fold_linear_zeros.
Qed.

(** What a difference of one or of two words gives, [k] further words behind it. *)
Lemma weight_one d k : Forall (word_of_bits 5) d → weight d = 1%nat → (length d + k ≤ 37)%nat →
  fold_left linear_step (d ++ repeat 0 (S k)) 0 ∈ later_values.
Proof.
  intros Hd. rewrite fold_left_app, <- syndrome_fold.
  induction Hd as [|v d Hv Hd IH]; [done|]. rewrite weight_cons. cbn [length]. intros H Hlen.
  rewrite fold_cons by done. destruct (decide (v ≠ 0)) as [Hne|Hz%dec_stable].
  - rewrite (weight_zero d), Z.lxor_0_r by (done || lia).
    rewrite !syndrome_fold, <- fold_left_app, <- repeat_app, <- syndrome_fold, Nat.add_succ_r.
    apply table_elem; [lia|by apply letters_elem].
  - subst v. rewrite (syndrome_fold (length d)), fold_linear_zeros, Z.lxor_0_l. apply IH; lia.
Qed.

Lemma weight_two d k : Forall (word_of_bits 5) d → weight d = 2%nat → (length d + k ≤ 37)%nat →
  ∃ t t', fold_left linear_step (d ++ repeat 0 (S k)) 0 = Z.lxor t t' ∧ t ∈ later_values ∧ t' ∈ later_values.
Proof.
  intros Hd. induction Hd as [|v d Hv Hd IH]; [done|]. rewrite weight_cons. cbn [length]. intros H Hlen.
  rewrite <- app_comm_cons, fold_cons by done. destruct (decide (v ≠ 0)) as [Hne|Hz%dec_stable].
  - eexists _, _. split; [done|]. split; [|apply weight_one; [done|lia..]].
    rewrite length_app, repeat_length, Nat.add_succ_r. apply table_elem; [lia|by apply letters_elem].
  - subst v. rewrite syndrome_fold, fold_linear_zeros, Z.lxor_0_l. apply IH; lia.
Qed.

Lemma low_generators top : 0 ≤ top < 32 → generators 0 top bech32Generator mod 32 = 0 → top = 0.
Proof.
  intros Ht H.
  assert (forallb (λ t, negb (generators 0 t bech32Generator mod 32 =? 0)) letters = true) as Hf by (vm_compute; done).
  destruct (Z.eq_dec top 0) as [|Hne]; [done|]. rewrite forallb_forall in Hf.
  specialize (Hf top ltac:(by apply list_elem_of_In, letters_elem)). rewrite H in Hf. done.
Qed.

Lemma linear_step_kernel c : state c → linear_step c 0 = 0 → c = 0.
Proof.
  unfold state, word_of_bits, linear_step. intros Hc H. rewrite Z.lxor_0_r in H. apply Z.lxor_eq in H.
  rewrite Z.land_ones, Z.shiftl_mul_pow2, Z.shiftr_div_pow2 in H by lia.
  pose proof (Z.div_mod c (2 ^ 25) ltac:(done)) as Hdm.
  assert (c / 2 ^ 25 = 0) as E.
  { apply low_generators; [split; [apply Z.div_pos; lia|apply Z.div_lt_upper_bound; lia]|].
    rewrite <- H. change (2 ^ 5) with 32. apply Z.mod_mul. lia. }
  rewrite E in H. change (generators 0 0 bech32Generator) with 0 in H. lia.
Qed.

Lemma fold_zeros_kernel n c : state c → fold_left linear_step (repeat 0 n) c = 0 → c = 0.
Proof.
  revert c. induction n as [|n IH]; intros c Hc H; [done|]. cbn [repeat fold_left] in H.
  apply linear_step_kernel; [done|]. apply IH; [|done]. apply linear_step_state. unfold word_of_bits; lia.
Qed.

(** The last nonzero word, and the zeros after it. *)
Lemma last_nonzero d : weight d ≠ 0%nat → ∃ d' v k, d = d' ++ [v] ++ repeat 0 k ∧ v ≠ 0.
Proof.
  induction d as [|x d IH] using rev_ind; [done|]. destruct (decide (x = 0)) as [->|Hne].
  - rewrite weight_app. intros H. destruct IH as (d' & v & k & -> & Hv); [unfold weight in *; simpl in H; lia|].
    exists d', v, (S k). split; [|done]. rewrite <- !app_assoc, <- repeat_cons. done.
  - intros _. exists d, x, O. split; [|done]. by rewrite app_nil_r.
Qed.

(** A nonempty difference of at most three words of five bits, in at most 38
    words, does not leave the checksum as it was. *)
Lemma small_difference d :
  Forall (word_of_bits 5) d → (length d ≤ 38)%nat → (1 ≤ weight d ≤ 3)%nat → fold_left linear_step d 0 ≠ 0.
Proof.
  intros Hd Hlen Hw H. destruct (last_nonzero d) as (d' & v & k & -> & Hv); [lia|].
  rewrite !Forall_app, Forall_singleton in Hd. destruct Hd as (Hd & Hvw & Hk).
  rewrite !length_app in Hlen. cbn [length] in Hlen.
  rewrite app_assoc, fold_left_app in H. apply fold_zeros_kernel in H.
  2: { apply linear_states; [unfold state, word_of_bits; lia|]. apply Forall_app. by rewrite Forall_singleton. }
  rewrite fold_snoc in H by done. apply Z.lxor_eq in H.
  assert (fold_left linear_step (d' ++ repeat 0 1) 0 = v) as E by by rewrite fold_left_app.
  destruct (later_values_spec v (letters_elem v Hvw Hv)) as (_ & H1 & H2).
  rewrite !weight_app, weight_cons in Hw. destruct (decide (v ≠ 0)) as [_|[]]; [|done].
  destruct (weight d') as [|[|[|n]]] eqn:Ew; [..|lia].
  - rewrite weight_zero in H by done. done.
  - apply H1. rewrite <- E. apply weight_one; [done..|lia].
  - destruct (weight_two d' 0 Hd Ew ltac:(lia)) as (t & t' & E' & Ht & Ht').
    apply (H2 t Ht). rewrite <- E, E'. replace (Z.lxor (Z.lxor t t') t) with t' by xor_bits. done.
Qed.

(** ** Letters *)

Lemma index_of_spec c l i : 0 ≤ i → 0 ≤ index_of c l i → ∃ k, index_of c l i = i + Z.of_nat k ∧ l !! k = Some c.
Proof.
  revert i. induction l as [|a l IH]; intros i Hi; simpl; [lia|]. destruct (N.eqb_spec c a) as [->|Hne].
  - intros _. exists O. split; [lia|done].
  - intros H. destruct (IH (i + 1) ltac:(lia) H) as (k & E & Hk). exists (S k). split; [lia|done].
Qed.

(** The letter of a word of five bits. *)
Definition letter (w : Z) : N := nth (Z.to_nat w) bech32Alphabet 0%N.

Definition five_bits : list Z := 0 :: letters.

Lemma five_bits_elem w : word_of_bits 5 w → w ∈ five_bits.
Proof. intros Hw. destruct (Z.eq_dec w 0) as [->|]; [left|right; by apply letters_elem]. Qed.

Lemma letter_word w : word_of_bits 5 w →
  letter_of w = [letter w] ∧ word_of_letter (letter w) = w ∧ lower_char (letter w) = letter w ∧ (letter w < 128)%N.
Proof.
  intros Hw. apply five_bits_elem in Hw. revert w Hw. apply Forall_forall.
  vm_compute. repeat constructor.
Qed.

Lemma word_letter c : 0 ≤ word_of_letter c → word_of_bits 5 (word_of_letter c) ∧ letter (word_of_letter c) = c.
Proof.
  unfold word_of_letter. intros H. destruct (index_of_spec c bech32Alphabet 0 ltac:(lia) H) as (k & E & Hk).
  rewrite E, Z.add_0_l. pose proof (lookup_lt_Some _ _ _ Hk) as Hlt. change (length bech32Alphabet) with 32%nat in Hlt.
  split; [unfold word_of_bits; lia|]. unfold letter. rewrite Nat2Z.id.
  by apply nth_lookup_Some.
Qed.

Lemma concat_letters words : Forall (word_of_bits 5) words → concat (map letter_of words) = map letter words.
Proof.
  induction 1 as [|w words Hw _ IH]; [done|]. cbn [map concat]. rewrite IH. by destruct (letter_word w Hw) as [-> _].
Qed.

Lemma words_of_letters words : Forall (word_of_bits 5) words → map word_of_letter (map letter words) = words.
Proof.
  induction 1 as [|w words Hw _ IH]; [done|]. cbn [map]. rewrite IH. by destruct (letter_word w Hw) as (_ & -> & _).
Qed.

Lemma letters_of_words payload :
  existsb (λ w, w <? 0) (map word_of_letter payload) = false →
  Forall (word_of_bits 5) (map word_of_letter payload) ∧ map letter (map word_of_letter payload) = payload.
Proof.
  induction payload as [|c payload IH]; cbn [map existsb]; [split; [constructor|done]|].
  intros H. inv_bool. destruct (IH ltac:(done)) as [Hw ->].
  destruct (word_letter c ltac:(lia)) as [Hc ->]. split; [by constructor|done].
Qed.

(** ** Accounts *)

Definition is_byte (z : Z) : Prop := word_of_bits 8 z.

(** The text of the words of an account. *)
Definition account_text (words : list Z) : jstr :=
  js "torium1" ++ map letter (words ++ createBech32Checksum (js "torium") words).

Lemma encode_words bytes : length bytes = 20%nat → Forall is_byte bytes →
  ∃ words, encodeBech32Account bytes = Done (account_text words) ∧ length words = 32%nat ∧
    Forall (word_of_bits 5) words ∧ digits_value 5 0 words = digits_value 8 0 bytes.
Proof.
  intros Hlen Hb.
  destruct (convertBits_even 8 5 ltac:(lia) ltac:(lia) bytes true 32 Hb) as (words & Hc & Hl & Hw & Hv); [by rewrite Hlen|].
  exists words. split_and!; [|done..]. unfold encodeBech32Account. rewrite Hlen, Hc. cbn [mbind outcome_bind negb Nat.eqb].
  destruct (createBech32Checksum_digits words Hw) as (_ & Hcw & _).
  unfold account_text, jcat. by rewrite concat_letters by by apply Forall_app.
Qed.

Lemma decode_words words : length words = 32%nat → Forall (word_of_bits 5) words →
  ∃ bytes, convertBits 5 8 words false = Done bytes ∧ length bytes = 20%nat ∧
    Forall is_byte bytes ∧ digits_value 8 0 bytes = digits_value 5 0 words.
Proof. intros Hlen Hw. apply convertBits_even; [lia|lia|done|by rewrite Hlen]. Qed.

Lemma bytes_mod l : Forall is_byte l → map (λ z, z mod 256) l = l.
Proof.
  induction 1 as [|z l Hz _ IH]; [done|]. cbn [map]. rewrite IH. unfold is_byte, word_of_bits in Hz.
  by rewrite Z.mod_small.
Qed.

Section decode.
Context (toLowerCase : jstr → jstr).
Abbreviation decodeBech32Account := (decodeBech32Account toLowerCase).

(** What [decodeBech32Account] accepts: exactly the texts of 32 words, unchanged by
    [toLowerCase]; and it gives the bytes the words regroup to. *)
Lemma decode_account_text words :
  length words = 32%nat → Forall (word_of_bits 5) words → toLowerCase (account_text words) = account_text words →
  ∃ bytes, decodeBech32Account (account_text words) = Done bytes ∧ length bytes = 20%nat ∧
    Forall is_byte bytes ∧ digits_value 8 0 bytes = digits_value 5 0 words.
Proof.
  intros Hlen Hw Hlow. destruct (createBech32Checksum_digits words Hw) as (Hcl & Hcw & _).
  assert (Forall (word_of_bits 5) (words ++ createBech32Checksum (js "torium") words)) as Hall by by apply Forall_app.
  assert (length (map letter (words ++ createBech32Checksum (js "torium") words)) = 38%nat) as Hp
    by (rewrite length_map, length_app; lia).
  destruct (decode_words words Hlen Hw) as (bytes & Hc & Hl & Hb & Hv).
  exists bytes. split_and!; [|done..]. unfold Bech32.decodeBech32Account. rewrite Hlow, jeq_refl.
  replace (jlen (account_text words) =? 45) with true.
  2: { symmetry. apply Z.eqb_eq. unfold jlen, account_text. rewrite length_app, Hp. done. }
  replace (starts_with (js "torium1") (account_text words)) with true.
  2: { symmetry. apply starts_with_spec. by eexists. }
  replace (drop 7 (account_text words)) with (map letter (words ++ createBech32Checksum (js "torium") words)) by done.
  unfold jlen. rewrite Hp, words_of_letters by done. cbn [negb orb].
  replace (Z.of_nat 38 <? 7) with false by done.
  replace (existsb (λ w, w <? 0) _) with false.
  2: { symmetry. apply not_true_iff_false. rewrite existsb_exists. intros (w & Hin & Hneg).
       rewrite Forall_forall in Hall. specialize (Hall w ltac:(by apply list_elem_of_In)). unfold word_of_bits in Hall. lia. }
  replace (verifyBech32Checksum _ _) with true by (symmetry; by apply verifyBech32Checksum_iff).
  rewrite length_app, Hcl, Hlen. change (32 + 6 - 6)%nat with 32%nat. rewrite <- Hlen at 1. rewrite take_app_length, Hc.
  cbn [mbind outcome_bind orb negb]. rewrite bytes_mod, Hl by done. done.
Qed.

Lemma decode_accepted value bytes :
  decodeBech32Account value = Done bytes →
  ∃ words, value = account_text words ∧ length words = 32%nat ∧ Forall (word_of_bits 5) words ∧
    toLowerCase value = value.
Proof.
  unfold Bech32.decodeBech32Account. destruct (_ || _) eqn:E1; [done|]. inv_bool.
  apply starts_with_spec in H0 as [payload ->].
  replace (drop 7 (js "torium1" ++ payload)) with payload by done.
  unfold jlen in H. rewrite length_app in H. change (length (js "torium1")) with 7%nat in H.
  destruct (jlen payload <? 7); [done|]. destruct (existsb _ _ || _) eqn:E2; [done|]. inv_bool. intros _. rename H0 into Hneg, H2 into Hsum.
  destruct (letters_of_words payload ltac:(done)) as [Hw Hp]. set (ws := map word_of_letter payload) in *.
  assert (length ws = 38%nat) as Hlen by (unfold ws; rewrite length_map; lia).
  rewrite <- (take_drop 32 ws) in Hw, Hsum. apply Forall_app in Hw as [Hw1 Hw2].
  apply verifyBech32Checksum_iff in Hsum; [|done|done|by rewrite length_drop, Hlen].
  exists (take 32 ws). split_and!; [|by rewrite length_take, Hlen|done|done].
  unfold account_text. by rewrite <- Hsum, take_drop, Hp.
Qed.
End decode.

(** [toLowerCase] on ASCII text, where ECMAScript maps each letter by itself. *)
Definition ascii (s : jstr) : Prop := Forall (λ c, (c < 128)%N) s.

Section accounts.
Context (toLowerCase : jstr → jstr) (ascii_lower : ∀ s, ascii s → toLowerCase s = to_lower s).
Abbreviation decodeBech32Account := (decodeBech32Account toLowerCase).

Lemma account_text_lower words : Forall (word_of_bits 5) words → toLowerCase (account_text words) = account_text words.
Proof using ascii_lower.
  intros Hw. destruct (createBech32Checksum_digits words Hw) as (_ & Hcw & _).
  assert (Forall (λ w, lower_char (letter w) = letter w ∧ (letter w < 128)%N)
    (words ++ createBech32Checksum (js "torium") words)) as Hl.
  { eapply Forall_impl; [apply Forall_app; done|]. intros w Hwb. by destruct (letter_word w Hwb) as (_ & _ & ?). }
  unfold account_text. revert Hl. generalize (words ++ createBech32Checksum (js "torium") words) as l. intros l Hl.
  rewrite ascii_lower.
  - unfold to_lower. rewrite map_app, map_map. f_equal. induction Hl as [|w l [E _] _ IH]; [done|].
    cbn [map]. by rewrite E, IH.
  - apply Forall_app. split; [repeat constructor|]. apply Forall_map.
    eapply Forall_impl; [exact Hl|]. by intros w [_ ?].
Qed.

Lemma decoded_encodes value bytes :
  decodeBech32Account value = Done bytes →
  length bytes = 20%nat ∧ Forall is_byte bytes ∧ encodeBech32Account bytes = Done value.
Proof.
  intros H. destruct (decode_accepted _ _ _ H) as (words & -> & Hl & Hw & Hlow).
  destruct (decode_account_text _ words Hl Hw Hlow) as (bytes' & H' & Hbl & Hb & Hv).
  rewrite H in H'. injection H' as <-. split_and!; [done..|].
  destruct (encode_words bytes Hbl Hb) as (words' & -> & Hl' & Hw' & Hv'). do 2 f_equal.
  apply (digits_value_inj 5); [done|congruence|done|done|congruence].
Qed.

Lemma encoded_decodes bytes : length bytes = 20%nat → Forall is_byte bytes →
  ∃ value, encodeBech32Account bytes = Done value ∧ decodeBech32Account value = Done bytes.
Proof using ascii_lower.
  intros Hbl Hb. destruct (encode_words bytes Hbl Hb) as (words & E & Hl & Hw & Hv).
  exists (account_text words). split; [done|].
  destruct (decode_account_text _ words Hl Hw (account_text_lower words Hw)) as (bytes' & H' & Hbl' & Hb' & Hv').
  rewrite H'. f_equal. apply (digits_value_inj 8); [done|congruence|done|done|congruence].
Qed.

(** C27. The account codec is a bijection between the 20-byte addresses and the
    texts it accepts: a text decodes to some bytes exactly when those are twenty
    bytes and the text is their encoding.  So every address survives the round
    trip, and no address has a second text: mixed case, another padding, another
    checksum are all refused. *)
Theorem bech32_accounts_bijective value bytes :
  decodeBech32Account value = Done bytes ↔
  length bytes = 20%nat ∧ Forall is_byte bytes ∧ encodeBech32Account bytes = Done value.
Proof using ascii_lower.
  split; [apply decoded_encodes|]. intros (Hbl & Hb & H).
  destruct (encoded_decodes bytes Hbl Hb) as (value' & E & Hd). congruence.
Qed.
End accounts.

(** ** Detection of mistyped characters *)

(** The number of positions where two texts of one length differ. *)
Fixpoint mismatches (a b : jstr) : nat :=
  match a, b with
  | c :: a', d :: b' => ((if (c =? d)%N then 0 else 1) + mismatches a' b')%nat
  | _, _ => 0%nat
  end.

Lemma mismatches_prefix p a b : mismatches (p ++ a) (p ++ b) = mismatches a b.
Proof. induction p as [|c p IH]; [done|]. cbn [app mismatches]. by rewrite N.eqb_refl, IH. Qed.

Lemma letter_inj v w : word_of_bits 5 v → word_of_bits 5 w → letter v = letter w → v = w.
Proof.
  intros Hv Hw E. destruct (letter_word v Hv) as (_ & <- & _), (letter_word w Hw) as (_ & <- & _). by rewrite E.
Qed.

(** Words differ where their letters do. *)
Lemma weight_mismatches l l' :
  length l = length l' → Forall (word_of_bits 5) l → Forall (word_of_bits 5) l' →
  weight (zip_with Z.lxor l l') = mismatches (map letter l) (map letter l').
Proof.
  intros Hlen Hl. revert l' Hlen. induction Hl as [|v l Hv _ IH]; intros [|w l'] Hlen Hl'; try done.
  apply Forall_cons in Hl' as [Hw Hl']. injection Hlen as Hlen.
  cbn [zip_with map mismatches]. rewrite weight_cons, IH by done. f_equal.
  destruct (N.eqb_spec (letter v) (letter w)) as [E|Hne].
  - apply letter_inj in E as ->; [|done..]. rewrite Z.lxor_nilpotent. by destruct (decide _).
  - destruct (decide _) as [_|Hz%dec_stable]; [done|]. apply Z.lxor_eq in Hz. by subst.
Qed.

Lemma zip_lxor_words l l' : Forall (word_of_bits 5) l → Forall (word_of_bits 5) l' →
  Forall (word_of_bits 5) (zip_with Z.lxor l l').
Proof.
  intros Hl. revert l'. induction Hl as [|v l Hv _ IH]; intros l' Hl'; [constructor|].
  destruct Hl' as [|w l' Hw Hl']; [constructor|]. constructor; [by apply lxor_range|by apply IH].
Qed.

(** C28. No account text is one, two or three characters away from another: a text
    of the same length that differs from an accepted account in that many
    characters is refused, wherever the changes are. *)
Theorem bech32_detects_three_changes toLowerCase value bytes value' :
  decodeBech32Account toLowerCase value = Done bytes →
  length value' = length value → (1 ≤ mismatches value value' ≤ 3)%nat →
  ∃ t, decodeBech32Account toLowerCase value' = Fails t.
Proof.
  intros H Hlen Hm. destruct (decodeBech32Account toLowerCase value') as [bytes'|t] eqn:H'; [|by eexists]. exfalso.
  destruct (decode_accepted _ _ _ H) as (w & -> & Hl & Hw & _).
  destruct (decode_accepted _ _ _ H') as (w' & -> & Hl' & Hw' & _).
  destruct (createBech32Checksum_digits w Hw) as (Hcl & Hcw & _).
  destruct (createBech32Checksum_digits w' Hw') as (Hcl' & Hcw' & _).
  set (c := createBech32Checksum (js "torium") w) in *. set (c' := createBech32Checksum (js "torium") w') in *.
  assert (∀ x, Forall (word_of_bits 5) x →
    fold_left linear_step (x ++ createBech32Checksum (js "torium") x) prefix_state = 1) as Hsum.
  { intros x Hx. destruct (createBech32Checksum_digits x Hx) as (Hxl & Hxw & _).
    rewrite <- polymod_torium by by apply Forall_app. by apply Z.eqb_eq, verifyBech32Checksum_iff. }
  unfold account_text in Hm. fold c c' in Hm. rewrite mismatches_prefix, <- weight_mismatches in Hm.
  2: by rewrite !length_app, Hl, Hl', Hcl, Hcl'.
  2, 3: by apply Forall_app.
  eapply small_difference; [|..|exact Hm|].
  - apply zip_lxor_words; by apply Forall_app.
  - rewrite length_zip_with, !length_app, Hl, Hl', Hcl, Hcl'. done.
  - rewrite <- (Z.lxor_nilpotent prefix_state), fold_linear_xor by (by rewrite !length_app, Hl, Hl', Hcl, Hcl').
    unfold c, c'. by rewrite !Hsum.
Qed.

(** ** Witnesses *)

Definition zero_address : list Z := repeat 0 20.
Definition zero_account : jstr := js "torium1qqqqqqqqqqqqqqqqqqqqqqqqqqqqqqqqmhxxp0".

Lemma bech32_accounts_bijective_witness :
  (∀ s, ascii s → to_lower s = to_lower s) ∧ decodeBech32Account to_lower zero_account = Done zero_address.
Proof.
  split; [done|]. apply (bech32_accounts_bijective to_lower (λ _ _, eq_refl)).
  vm_compute. split_and!; [reflexivity|repeat constructor; done|reflexivity].
Defined.

Lemma bech32_detects_three_changes_witness :
  decodeBech32Account to_lower zero_account = Done zero_address ∧
  mismatches zero_account (js "torium1qpqqqqqqqqqqqqqqqqqqqqqqqqqrqqqqmhxxp2") = 3%nat ∧
  ∃ t, decodeBech32Account to_lower (js "torium1qpqqqqqqqqqqqqqqqqqqqqqqqqqrqqqqmhxxp2") = Fails t.
Proof.
  assert (decodeBech32Account to_lower zero_account = Done zero_address) as H by (vm_compute; reflexivity).
  split; [exact H|]. split; [reflexivity|].
  apply (bech32_detects_three_changes to_lower zero_account zero_address); [exact H|reflexivity|].
  change (mismatches _ _) with 3%nat. lia.
Defined.
