(* ===== verification/SdkChainsFacts.v ===== *)
(** Endpoint validation: what every accepted endpoint has answered, and the
    verdict on a node that answers truthfully. *)

From S2P Require Import Prelude JsNum JsText JsRegex Attestation RewardTree HexFacts.
From S2P Require Import SdkValue SdkErrors SdkExecution SdkContracts SdkContractsFacts SdkChains.

Open Scope Z_scope.

(** ** Hash texts *)

Lemma is_hex_to_lower s : forallb is_hex s = true → forallb is_lower_hex (to_lower s) = true.
Proof.
  induction s as [|c s IH]; [done|]. change (to_lower (c :: s)) with (lower_char c :: to_lower s). cbn [forallb].
  intros [Hc Hs]%andb_prop. rewrite IH by done. rewrite andb_true_r.
  unfold is_hex in Hc. apply orb_true_iff in Hc as [Hc|Hc].
  - unfold lower_char. destruct (is_upper c) eqn:E; [|done]. unfold is_lower_hex, is_digit, is_upper in *.
    apply in_range_spec in E. apply orb_true_iff in Hc as [Hc%in_range_spec|Hc%in_range_spec]; lia.
  - apply in_range_spec in Hc. unfold lower_char. replace (is_upper c) with true
      by (symmetry; apply in_range_spec; lia).
    unfold is_lower_hex. apply orb_true_iff. right. apply in_range_spec. lia.
Qed.

Lemma hash_text_lower s : is_hash_text s = true →
  is_bytes32 (to_lower s) = true ∧ hexBytes (to_lower s) = hexBytes s ∧ forallb (λ c, (c <? 128)%N) s = true.
Proof.
  intros H. assert (∃ x ds, s = 48%N :: x :: ds ∧ (x = 120 ∨ x = 88)%N ∧ length ds = 64%nat ∧ forallb is_hex ds = true)
    as (x & ds & -> & Hx & Hl & Hd).
  { destruct s as [|a [|x ds]]; [done|by destruct a as [|p]; repeat (destruct p as [p|p|]; try done)|].
    assert (a = 48%N) as -> by (unfold is_hash_text in H; repeat case_match; congruence).
    unfold is_hash_text in H. apply andb_prop in H as [[Hx Hl%Nat.eqb_eq]%andb_prop Hd]. exists x, ds.
    split_and!; [done| |done|done]. apply orb_true_iff in Hx. rewrite !N.eqb_eq in Hx. done. }
  assert (to_lower (48%N :: x :: ds) = 48%N :: 120%N :: to_lower ds) as E by (by destruct Hx as [->| ->]).
  pose proof (is_hex_to_lower ds Hd) as Hlow. rewrite E. split_and!.
  - unfold is_bytes32. cbn [strip_0x]. rewrite to_lower_length, Hl, Hlow. done.
  - exact (bytes_of_hex_lower ds Hlow).
  - cbn [forallb]. rewrite (proj2 (N.ltb_lt x 128)) by (destruct Hx; lia). cbn. clear -Hd.
    induction ds as [|c ds IH]; [done|]. cbn [forallb] in *. apply andb_prop in Hd as [Hc Hd]. rewrite IH by done.
    rewrite andb_true_r. unfold is_hex, is_lower_hex, is_digit in Hc.
    apply N.ltb_lt. repeat (apply orb_true_iff in Hc as [Hc|Hc]); apply in_range_spec in Hc; lia.
Qed.

(** ** What an accepted endpoint has answered *)

Section sound.
Context (toLowerCase : jstr → jstr) (W : Type) (send : rpc → W → outcome jsv * W).
Abbreviation validateToriumEndpoint := (validateToriumEndpoint toLowerCase W send).

Lemma lift_Done {A} (r : outcome A) a w w' : lift W r w = (Done a, w') → r = Done a ∧ w' = w.
Proof. unfold lift. by intros [= -> ->]. Qed.

Lemma run_checks_Done checks w w' :
  run_checks W checks w = (Done (), w') → Forall (λ check, ∃ w1 w2, check w1 = (Done true, w2)) checks.
Proof.
  revert w. induction checks as [|check checks IH]; intros w H; [constructor|].
  cbn [run_checks] in H. apply io_bind_Done in H as (b & w1 & Hc & H).
  apply io_bind_Done in H as ([] & w2 & Hb & H). apply lift_Done in Hb as [Hb ->].
  destruct b; [|done]. constructor; [|by eapply IH].
  unfold rethrow in Hc. destruct (check w) as [[b|t] w3] eqn:E; simplify_eq. by exists w, w1.
Qed.

Lemma check_progress_Done o syncing n : check_progress W o (status_of syncing n) n = Done () →
  (default true (v_requireReady W o) = true → status_of syncing n = ready ∧ syncing = false ∧ n ≠ 0) ∧
  (∀ m, v_minimumBlockNumber W o = Some m → m ≤ n).
Proof.
  unfold check_progress. intros H. apply outcome_bind_Done in H as ([] & H1 & H2). split.
  - intros Hr. unfold status_of in *. destruct syncing; [by rewrite Hr in H1|].
    destruct (n =? 0) eqn:E; [by rewrite Hr in H1|]. inv_bool. done.
  - intros m Hm. rewrite Hm in H2. destruct (n <? m) eqn:E; [done|]. by apply Z.ltb_ge in E.
Qed.

Lemma verify_fingerprint_Done o w f w' :
  verify_fingerprint toLowerCase W send o w = (Done f, w') →
  (f = unavailable_local ∧ given_fingerprint W o = None) ∨
  (f = fingerprint_verified ∧ ∃ expected genesis h w1 w2,
     given_fingerprint W o = Some expected ∧
     send (Rpc (js "eth_getBlockByNumber") (Some [JStr (js "0x0"); JBool false])) w1 = (Done genesis, w2) ∧
     jget genesis (js "hash") = JStr h ∧ toLowerCase h = toLowerCase expected).
Proof.
  unfold verify_fingerprint. destruct (given_fingerprint W o) as [expected|] eqn:Eg; [|by intros [= <- _]; left].
  intros H. apply io_bind_Done in H as (genesis & w1 & Hs & H). apply io_bind_Done in H as ([] & w2 & Hc & H).
  right. injection H as <- _. split; [done|]. unfold requestRpc in Hs.
  destruct (send _ w) as [[v|t] w3] eqn:E; simplify_eq. apply lift_Done in Hc as [Hc _].
  unfold compare_fingerprint in Hc. apply outcome_bind_Done in Hc as (h & Hp & Hc). unfold parseBlockHash in Hp.
  repeat case_match; simplify_eq. inv_bool. eexists _, _, _, _, _. done.
Qed.

(** An endpoint is accepted only on evidence, however it answers: the chain
    and network ids it gave are those of the chain; unless readiness was waived
    it is past block zero and not syncing; it has reached the minimum height;
    outside localnet, and wherever a fingerprint was given, the genesis block it
    returned has that hash; and every compatibility check answered true. *)
Theorem accepted_endpoint_sound requester o w r w' :
  validateToriumEndpoint requester o w = (Done r, w') →
  result_chain r = v_chain W o ∧ (∀ id, requester = Some id → num_eqb id (chain_id (v_chain W o)) = true) ∧
  num_eqb (NInt (observedChainId r)) (chain_id (v_chain W o)) = true ∧
  is_number (observedNetworkId r) (jget (torium (v_chain W o)) (js "networkId")) = true ∧
  (default true (v_requireReady W o) = true → status r = ready ∧ syncing r = false ∧ blockNumber r ≠ 0) ∧
  (∀ m, v_minimumBlockNumber W o = Some m → m ≤ blockNumber r) ∧
  ((is_text (js "localnet") (jget (torium (v_chain W o)) (js "environment")) = false ∨ is_Some (v_fingerprint W o)) →
   fingerprintStatus r = fingerprint_verified ∧ ∃ expected genesis h w1 w2,
     v_fingerprint W o = Some expected ∧
     send (Rpc (js "eth_getBlockByNumber") (Some [JStr (js "0x0"); JBool false])) w1 = (Done genesis, w2) ∧
     jget genesis (js "hash") = JStr h ∧ toLowerCase h = toLowerCase expected) ∧
  Forall (λ check, ∃ w1 w2, check w1 = (Done true, w2)) (v_compatibilityChecks W o).
Proof.
  unfold SdkChains.validateToriumEndpoint. intros H. apply io_bind_Done in H as ([] & w0 & Ho & H).
  apply lift_Done in Ho as [Ho ->]. unfold ask_endpoint in H.
  apply io_bind_Done in H as (cid & w1 & _ & H). apply io_bind_Done in H as ([] & w2 & Hcid & H).
  apply io_bind_Done in H as (nid & w3 & _ & H). apply io_bind_Done in H as ([] & w4 & Hnid & H).
  apply io_bind_Done in H as (sy & w5 & _ & H). apply io_bind_Done in H as (n & w6 & _ & H).
  apply io_bind_Done in H as ([] & w7 & Hp & H). apply io_bind_Done in H as ([] & w8 & Hg & H).
  apply io_bind_Done in H as (f & w9 & Hf & H). apply io_bind_Done in H as ([] & w10 & Hk & H).
  injection H as <- <-.
  cbn [result_chain observedChainId observedNetworkId status syncing blockNumber fingerprintStatus].
  apply lift_Done in Hcid as [Hcid _], Hnid as [Hnid _], Hp as [Hp _], Hg as [Hg _].
  apply check_progress_Done in Hp as [Hp1 Hp2]. apply verify_fingerprint_Done in Hf. apply run_checks_Done in Hk.
  unfold check_chain_id in Hcid. unfold check_network_id in Hnid. unfold check_fingerprint_given in Hg.
  unfold check_options in Ho. repeat apply outcome_bind_Done in Ho as ([] & ? & Ho).
  assert (∀ s, v_fingerprint W o = Some s → given_fingerprint W o = Some s) as Hgiven.
  { intros s Hs. unfold given_fingerprint. rewrite Hs in H |- *. destruct (s =s? []) eqn:E; [|done].
    apply jeq_spec in E as ->. done. }
  split_and!; [done| | | |done|done| |done].
  - intros id ->. by destruct (num_eqb id _).
  - by destruct (num_eqb (NInt cid) _).
  - by destruct (is_number nid _).
  - intros Hor. assert (∃ s, v_fingerprint W o = Some s) as [s Hs].
    { destruct Hor as [Hn|[s Hs]]; [|eauto]. rewrite Hn in Hg. cbn [negb andb] in Hg.
      destruct (v_fingerprint W o) as [s|] eqn:Es; [eauto|]. unfold given_fingerprint in Hg. rewrite Es in Hg. done. }
    specialize (Hgiven s Hs). destruct Hf as [[_ Hf]|(-> & expected & genesis & h & w11 & w12 & Hf & Hq)]; [congruence|].
    split; [done|]. exists expected, genesis, h, w11, w12. split; [congruence|done].
Qed.
End sound.

(** ** The verdict on a truthful node *)

(** A node as the protocol sees it, and what it would be refused for. *)
Record node := Node { n_chainId : Z; n_networkId : Z; n_syncing : bool; n_height : Z; n_genesis : list Z }.

Section verdict.
Context (toLowerCase : jstr → jstr) (W : Type) (send : rpc → W → outcome jsv * W).
Abbreviation validate_options := (validate_options W).

Definition network_id (e : environment) : Z :=
  match e with localnet => 1414484556 | devnet => 1414484548 | testnet => 1414484564 | mainnet => 5525330 end.

Definition progress_verdict (o : validate_options) (n : node) : option string :=
  if default true (v_requireReady W o) && n_syncing n then Some "TORIUM_RPC_SYNCING"%string
  else if default true (v_requireReady W o) && negb (n_syncing n) && (n_height n =? 0)
  then Some "TORIUM_RPC_NOT_READY"%string
  else if n_height n <? default 0 (v_minimumBlockNumber W o) then Some "TORIUM_RPC_STALE"%string
  else None.

Definition genesis_verdict (e : environment) (o : validate_options) (n : node) : option string :=
  match v_fingerprint W o with
  | None => match e with localnet => None | _ => Some "TORIUM_NETWORK_FINGERPRINT_REQUIRED"%string end
  | Some s => if bool_decide (hexBytes s = n_genesis n) then None
              else Some "TORIUM_NETWORK_FINGERPRINT_MISMATCH"%string
  end.

Definition verdict (e : environment) (o : validate_options) (n : node) : option string :=
  if negb (n_chainId n =? network_id e) then Some "TORIUM_CHAIN_ID_MISMATCH"%string
  else if negb (n_networkId n =? network_id e) then Some "TORIUM_NETWORK_ID_MISMATCH"%string
  else match progress_verdict o n with Some code => Some code | None => genesis_verdict e o n end.

(** A node answers truthfully, in any spelling, and without moving on. *)
Record truthful (n : node) (w : W) : Prop := Truthful {
  t_chain : ∃ s, send (Rpc (js "eth_chainId") None) w = (Done (JStr s), w) ∧ is_quantity s = true ∧
    quantity_value s = n_chainId n;
  t_network : ∃ s, send (Rpc (js "net_version") None) w = (Done (JStr s), w) ∧ is_digits s = true ∧
    Z_of_dec s = n_networkId n;
  t_syncing : ∃ v, send (Rpc (js "eth_syncing") None) w = (Done v, w) ∧ parse_syncing v = Done (n_syncing n);
  t_height : ∃ s, send (Rpc (js "eth_blockNumber") None) w = (Done (JStr s), w) ∧ is_quantity s = true ∧
    quantity_value s = n_height n;
  t_genesis : ∃ v h, send (Rpc (js "eth_getBlockByNumber") (Some [JStr (js "0x0"); JBool false])) w = (Done v, w) ∧
    jget v (js "hash") = JStr h ∧ is_hash_text h = true ∧ hexBytes h = n_genesis n
}.

Context (Hlower : ∀ s, forallb (λ c, (c <? 128)%N) s = true → toLowerCase s = to_lower s).

Lemma lower_hash_eq a b : is_hash_text a = true → is_hash_text b = true →
  (toLowerCase a =s? toLowerCase b) = bool_decide (hexBytes b = hexBytes a).
Proof using Hlower.
  intros Ha Hb. destruct (hash_text_lower a Ha) as (Ba & Ea & Aa), (hash_text_lower b Hb) as (Bb & Eb & Ab).
  rewrite !Hlower by done. destruct (to_lower a =s? to_lower b) eqn:E; symmetry.
  - apply bool_decide_eq_true_2. apply jeq_spec in E. congruence.
  - apply bool_decide_eq_false_2. intros H. apply jeq_neq in E. apply E.
    apply hexBytes_inj; [by apply bytes32_hex|by apply bytes32_hex|congruence].
Qed.

Lemma check_options_Done o : check_options W None o = Done () →
  (∀ s, v_fingerprint W o = Some s → is_hash_text s = true ∧ given_fingerprint W o = Some s) ∧
  (∀ m, v_minimumBlockNumber W o = Some m → 0 ≤ m).
Proof.
  intros Ho. unfold check_options in Ho. apply outcome_bind_Done in Ho as ([] & Hf & Ho).
  apply outcome_bind_Done in Ho as ([] & Hm & _). split.
  - intros s Hs. rewrite Hs in Hf. destruct (is_hash_text s) eqn:E; [|done]. split; [done|].
    unfold given_fingerprint. rewrite Hs. destruct (s =s? []) eqn:E'; [|done]. apply jeq_spec in E' as ->. done.
  - intros m Hs. rewrite Hs in Hm. destruct (m <? 0) eqn:E; [done|]. by apply Z.ltb_ge in E.
Qed.

(** What a stage yields when the verdict on it is [v]. *)
Definition stage {A} (r : outcome A * W) (w : W) (a : A) (v : option string) : Prop :=
  match v with
  | None => r = (Done a, w)
  | Some code => ∃ e, r = (Fails (TSdk e), w) ∧ err_code e = js code
  end.

Lemma stage_bind {A B} (m : io W A) (f : A → io W B) w a b v v' :
  stage (m w) w a v → (v = None → stage (f a w) w b v') →
  stage ((m ≫= f) w) w b (match v with Some code => Some code | None => v' end).
Proof.
  intros Hm Hf. unfold mbind, io_bind. destruct v as [code|]; cbn [stage] in *.
  - destruct Hm as (e & -> & He). by exists e.
  - rewrite Hm. by apply Hf.
Qed.

(** A stage without requests, and a request with its reader. *)
Lemma bind_answer {A B} (r : outcome A) a (f : A → io W B) w : r = Done a → (lift W r ≫= f) w = f a w.
Proof. by intros ->. Qed.

Lemma ask_then {A B} method signal (parse : jsv → outcome A) (f : A → io W B) w v a :
  send (Rpc method None) w = (Done v, w) → parse v = Done a →
  ((v ← requestRpc toLowerCase W send method None signal; lift W (parse v)) ≫= f) w = f a w.
Proof. intros Hs Hp. unfold mbind, io_bind, requestRpc. rewrite Hs. unfold lift. by rewrite Hp. Qed.

Lemma stage_if {A B} (m : outcome A) (f : A → io W B) (b : bool) e code a w x v :
  m = (if b then Done a else Fails (TSdk e)) → err_code e = js code →
  (b = true → stage (f a w) w x v) →
  stage ((lift W m ≫= f) w) w x (if negb b then Some code else v).
Proof. intros -> He Hf. destruct b; [by apply Hf|]. by exists e. Qed.

Lemma progress_stage o n w :
  (∀ m, v_minimumBlockNumber W o = Some m → 0 ≤ m) → 0 ≤ n_height n →
  stage (lift W (check_progress W o (status_of (n_syncing n) (n_height n)) (n_height n)) w) w () (progress_verdict o n).
Proof.
  intros Hmin Hn. unfold lift, check_progress, progress_verdict, status_of.
  destruct (default true (v_requireReady W o)), (n_syncing n); cbn [andb negb]; try (by eexists);
    destruct (n_height n =? 0) eqn:Eh; try (by eexists);
    cbn [mbind outcome_bind]; destruct (v_minimumBlockNumber W o) as [m|] eqn:Em; cbn [from_option id];
    try (destruct (n_height n <? m); [by eexists|done]);
    (replace (n_height n <? 0) with false by (symmetry; by apply Z.ltb_ge)); done.
Qed.

Lemma genesis_stage e o n w :
  truthful n w → v_chain W o = toriumChains e →
  (∀ s, v_fingerprint W o = Some s → is_hash_text s = true ∧ given_fingerprint W o = Some s) →
  stage ((lift W (check_fingerprint_given W o);; verify_fingerprint toLowerCase W send o) w) w
    (match v_fingerprint W o with Some _ => fingerprint_verified | None => unavailable_local end) (genesis_verdict e o n).
Proof using Hlower.
  intros [_ _ _ _ (v & h & S & V & Q & E)] Hchain Hfp.
  unfold mbind, io_bind, lift, check_fingerprint_given, verify_fingerprint, genesis_verdict. rewrite Hchain.
  destruct (v_fingerprint W o) as [s|] eqn:Es.
  - destruct (Hfp s eq_refl) as [Hs ->]. rewrite bool_decide_eq_true_2, andb_false_r by by eexists.
    unfold requestRpc, mbind, io_bind, mret, io_ret. rewrite S. unfold lift, compare_fingerprint, parseBlockHash.
    rewrite V, Q. cbn [mbind outcome_bind]. rewrite lower_hash_eq, E by done.
    destruct (bool_decide _); [done|by eexists].
  - unfold given_fingerprint. rewrite Es. rewrite bool_decide_eq_false_2 by by intros [? ?]. cbn [negb].
    destruct e; cbn; try (by eexists).
Qed.

Lemma parse_chain_id s z method : is_quantity s = true → quantity_value s = z → z ≤ max_safe →
  parseHexNumber (JStr s) method = Done z.
Proof.
  intros Hs <- Hz. unfold parseHexNumber, parseHexBigInt. rewrite Hs. cbn [mbind outcome_bind].
  by rewrite (proj2 (Z.ltb_ge _ _) Hz).
Qed.

Lemma parse_network_id s z method : is_digits s = true → Z_of_dec s = z → z ≤ max_safe →
  parseDecimalNumber (JStr s) method = Done z.
Proof. intros Hs <- Hz. unfold parseDecimalNumber. rewrite Hs. cbn zeta. by rewrite (proj2 (Z.ltb_ge _ _) Hz). Qed.

Lemma parse_height s z method : is_quantity s = true → quantity_value s = z → parseHexBigInt (JStr s) method = Done z.
Proof. intros Hs <-. unfold parseHexBigInt. by rewrite Hs. Qed.

Lemma chain_id_network e z : num_eqb (NInt z) (chain_id (toriumChains e)) = (z =? network_id e).
Proof. assert (chain_id (toriumChains e) = NInt (network_id e)) as -> by (by destruct e). by apply num_eqb_int. Qed.

Lemma network_id_network e z :
  is_number z (jget (torium (toriumChains e)) (js "networkId")) = (z =? network_id e).
Proof.
  assert (jget (torium (toriumChains e)) (js "networkId") = JNum (NInt (network_id e))) as -> by (by destruct e).
  by apply num_eqb_int.
Qed.

Lemma bind_assoc {A B C} (m : io W A) (k : io W B) (f : B → io W C) w : ((m;; k) ≫= f) w = (m;; (k ≫= f)) w.
Proof. unfold mbind, io_bind. by destruct (m w) as [[]]. Qed.

Lemma match_none (v : option string) : (match v with Some code => Some code | None => None end) = v.
Proof. by destruct v. Qed.

(** C29. On an endpoint that reports a node truthfully, validation computes the
    verdict on that node: for each chain definition, valid options, no further
    compatibility checks and no chain of a requester to compare with, it accepts
    exactly the nodes of the chain that are ready, high enough and of the expected
    genesis, compared as bytes, and reports what it saw; every other node is refused
    with the code of the first rule it breaks. *)
Theorem validation_computes_verdict e o n w :
  truthful n w → v_chain W o = toriumChains e → v_compatibilityChecks W o = [] →
  check_options W None o = Done () → 0 ≤ n_height n → n_chainId n ≤ max_safe → n_networkId n ≤ max_safe →
  stage (validateToriumEndpoint toLowerCase W send None o w) w
    (EndpointResult (status_of (n_syncing n) (n_height n)) (n_chainId n) (n_networkId n) (n_height n) (n_syncing n)
       (match v_fingerprint W o with Some _ => fingerprint_verified | None => unavailable_local end) 0 (v_chain W o))
    (verdict e o n).
Proof using Hlower.
  intros Ht Hchain Hchecks Ho Hn Hc1 Hc2. pose proof Ht as [H1 H2 H3 H4 _].
  destruct H1 as (s1 & S1 & Q1 & V1), H2 as (s2 & S2 & Q2 & V2), H3 as (v3 & S3 & V3), H4 as (s4 & S4 & Q4 & V4).
  destruct (check_options_Done o Ho) as [Hfp Hmin].
  unfold validateToriumEndpoint, ask_endpoint.
  rewrite (bind_answer _ _ _ _ Ho).
  rewrite (ask_then _ _ _ _ _ _ _ S1 (parse_chain_id s1 _ _ Q1 V1 Hc1)).
  unfold verdict, check_chain_id at 1. rewrite Hchain at 1. rewrite chain_id_network.
  eapply stage_if; [reflexivity|reflexivity|]. intros _.
  rewrite (ask_then _ _ _ _ _ _ _ S2 (parse_network_id s2 _ _ Q2 V2 Hc2)).
  unfold check_network_id at 1. rewrite Hchain at 1. rewrite network_id_network.
  eapply stage_if; [reflexivity|reflexivity|]. intros _.
  rewrite (ask_then _ _ _ _ _ _ _ S3 V3), (ask_then _ _ _ _ _ _ _ S4 (parse_height s4 _ _ Q4 V4)).
  apply (stage_bind _ _ _ _ _ _ _ (progress_stage o n w Hmin Hn)). intros _.
  rewrite <- bind_assoc.
  rewrite <- (match_none (genesis_verdict e o n)).
  apply (stage_bind _ _ _ _ _ _ _ (genesis_stage e o n w Ht Hchain Hfp)). intros _.
  rewrite Hchecks. done.
Qed.
End verdict.

(** ** Witnesses *)

Module Samples.
Definition genesis_hash : jstr := js "0x00112233445566778899aabbccddeeff00112233445566778899aabbccddeeff".
(** A testnet node at block 17. *)
Definition sample_node : node := Node 1414484564 1414484564 false 17 (hexBytes genesis_hash).

Definition answer (r : rpc) (w : unit) : outcome jsv * unit :=
  let '(Rpc method params) := r in
  (if method =s? js "eth_chainId" then Done (JStr (js "0x544F5254"))
   else if method =s? js "net_version" then Done (JStr (js "1414484564"))
   else if method =s? js "eth_syncing" then Done (JBool false)
   else if method =s? js "eth_blockNumber" then Done (JStr (js "0x11"))
   else Done (JObj [(js "hash", JStr genesis_hash)]), w).

Definition options (minimum : Z) : validate_options unit :=
  ValidateOptions unit toriumTestnet None (Some genesis_hash) (Some minimum) None [] None.

Definition accepted : endpoint_result :=
  EndpointResult ready 1414484564 1414484564 17 false fingerprint_verified 0 toriumTestnet.

Lemma accepted_endpoint_sound_witness :
  SdkChains.validateToriumEndpoint to_lower unit answer None (options 10) () = (Done accepted, ()) ∧
  fingerprintStatus accepted = fingerprint_verified.
Proof.
  assert (SdkChains.validateToriumEndpoint to_lower unit answer None (options 10) () = (Done accepted, ())) as H
    by (vm_compute; reflexivity).
  split; [exact H|].
  apply (accepted_endpoint_sound to_lower unit answer None (options 10) () accepted () H). right. by eexists.
Defined.

Lemma sample_truthful : truthful unit answer sample_node ().
Proof.
  constructor.
  - eexists. split_and!; vm_compute; reflexivity.
  - eexists. split_and!; vm_compute; reflexivity.
  - eexists. split; vm_compute; reflexivity.
  - eexists. split_and!; vm_compute; reflexivity.
  - eexists _, genesis_hash. split_and!; vm_compute; reflexivity.
Qed.

Lemma validation_computes_verdict_witness :
  verdict unit testnet (options 18) sample_node = Some "TORIUM_RPC_STALE"%string ∧
  ∃ e, SdkChains.validateToriumEndpoint to_lower unit answer None (options 18) () = (Fails (TSdk e), ()) ∧
    err_code e = js "TORIUM_RPC_STALE".
Proof.
  split; [reflexivity|].
  apply (validation_computes_verdict to_lower unit answer (λ _ _, eq_refl) testnet (options 18) sample_node ());
    [apply sample_truthful|reflexivity..|vm_compute; done|vm_compute; done|vm_compute; done].
Defined.
End Samples.
