(* ===== verification/SdkUtilsFacts.v ===== *)
(** The helpers of utils.ts: canonical base units, exact amounts, the two forms
    of an address, and tagged JSON. *)

From S2P Require Import Prelude JsNum JsText JsValue JsonText RewardTree Attestation HexFacts.
From S2P Require Import SdkValue SdkErrors SdkExecution SdkContracts SdkContractsFacts SdkChains Bech32 Bech32Facts Bech32Account SdkUtils.

Open Scope Z_scope.

(** ** Digits and their number *)

Lemma Z_of_dec_lt s : Forall (λ c, is_digit c = true) s → Z_of_dec s < 10 ^ Z.of_nat (length s).
Proof.
  induction s as [|c s IH] using rev_ind; intros Hs; [done|].
  apply Forall_app in Hs as [Hs Hc]. rewrite Z_of_dec_snoc, length_app. cbn [length].
  apply Forall_singleton, is_digit_spec in Hc. unfold digit_value.
  rewrite Nat2Z.inj_add, Z.pow_add_r by lia. change (10 ^ Z.of_nat 1) with 10. specialize (IH Hs). lia.
Qed.

Lemma Z_of_dec_app s t :
  Z_of_dec (s ++ t) = Z_of_dec s * 10 ^ Z.of_nat (length t) + Z_of_dec t.
Proof.
  induction t as [|c t IH] using rev_ind; [rewrite app_nil_r; unfold Z_of_dec at 3; cbn [fold_left length]; lia|].
  rewrite app_assoc, !Z_of_dec_snoc, IH, length_app. cbn [length].
  rewrite Nat2Z.inj_add, Z.pow_add_r by lia. change (10 ^ Z.of_nat 1) with 10. lia.
Qed.

(** A canonical text of more than [n] digits is at least 10^n. *)
Lemma canonical_ge s n : is_canonical_dec s = true → (0 < n)%nat → (n < length s)%nat → 10 ^ Z.of_nat n ≤ Z_of_dec s.
Proof.
  intros Hs Hn Hlen. destruct s as [|c s]; [done|]. destruct (canonical_digits _ Hs) as [Hd _].
  apply Forall_cons in Hd as [_ Hd]. cbn [length] in Hlen.
  assert (49 <= c)%N as Hc.
  { simpl in Hs. destruct (N.eqb_spec c 48); [|apply andb_prop in Hs as [Hs%in_range_spec _]; lia].
    apply bool_decide_eq_true in Hs as ->. cbn [length] in Hlen. lia. }
  change (c :: s) with ([c] ++ s). rewrite Z_of_dec_app. pose proof (Z_of_dec_nonneg s Hd).
  assert (1 ≤ Z_of_dec [c]) by (unfold Z_of_dec, digit_value; cbn [fold_left]; lia).
  assert (10 ^ Z.of_nat n ≤ 10 ^ Z.of_nat (length s)) by (apply Z.pow_le_mono_r; lia). nia.
Qed.

Lemma canonical_length s n : is_canonical_dec s = true → (0 < n)%nat → Z_of_dec s < 10 ^ Z.of_nat n → (length s ≤ n)%nat.
Proof. intros Hs Hn Hz. destruct (le_lt_dec (length s) n) as [|Hl]; [done|]. pose proof (canonical_ge s n Hs Hn Hl). lia. Qed.

(** ** Base units *)

Lemma uint256_Done z n : assertToriumUint256 z = Done n ↔ n = z ∧ 0 ≤ z ≤ UINT256_MAX.
Proof.
  unfold assertToriumUint256. destruct ((z <? 0) || (UINT256_MAX <? z)) eqn:E; split; try done.
  - intros [_ H]. apply orb_true_iff in E as [E|E]; lia.
  - intros [= <-]. apply orb_false_iff in E as [E1 E2]. split; [done|lia].
  - by intros [-> _].
Qed.

Lemma UINT256_digits : UINT256_MAX < 10 ^ 78.
Proof. vm_compute. done. Qed.

(** Base units have one text each: a text parses to an amount exactly when it
    is what the amount formats to.  Signs, leading zeros, exponents, fractions,
    white space and amounts past uint256 are refused by both. *)
Theorem base_units_bijective s z :
  parseToriumBaseUnits (JStr s) = Done z ↔ formatToriumBaseUnits (JBig z) = Done s.
Proof.
  unfold parseToriumBaseUnits, formatToriumBaseUnits, assert_uint256. rewrite outcome_bind_Done. split.
  - destruct ((78 <? jlen s) || negb (is_canonical_dec s)) eqn:E; [done|]. inv_bool. intros H1%uint256_Done.
    destruct H1 as [-> Hz]. eexists. split; [by apply uint256_Done|]. by rewrite dec_of_Z_of_dec.
  - intros (n & [-> Hz]%uint256_Done & [= <-]).
    rewrite dec_of_Z_canonical, Z_of_dec_of_Z by apply Hz.
    assert (length (dec_of_Z z) ≤ 78)%nat as Hl.
    { apply canonical_length; [apply dec_of_Z_canonical, Hz|lia|].
      rewrite Z_of_dec_of_Z by apply Hz.
      exact (Z.le_lt_trans _ _ _ (proj2 Hz) UINT256_digits). }
    replace (78 <? jlen (dec_of_Z z)) with false by (unfold jlen; lia). by apply uint256_Done.
Qed.

(** ** Amounts *)

(** The number of base units an amount text stands for. *)
Definition amount_value (ds f : jstr) : Z := Z_of_dec ds * 10 ^ 18 + Z_of_dec f * 10 ^ (18 - jlen f).

(** viem's [parseUnits] reads such a text exactly, and [formatUnits] prints one. *)
Class viem_units (parseUnits : jstr → Z → outcome Z) (formatUnits : Z → Z → jstr) : Prop := {
  vu_parse s ds f : amount_parts s = Some (ds, f) → parseUnits s 18 = Done (amount_value ds f);
  vu_format z : 0 ≤ z → ∃ ds f, amount_parts (formatUnits z 18) = Some (ds, f) ∧ amount_value ds f = z
}.

Lemma span_splits p s : fst (span p s) ++ snd (span p s) = s ∧ Forall (λ c, p c = true) (fst (span p s)).
Proof.
  induction s as [|c s [IH1 IH2]]; [done|]. cbn [span]. destruct (p c) eqn:E; [|done].
  destruct (span p s) as [a b]. cbn [fst snd] in *. rewrite <- app_comm_cons, IH1. split; [done|by constructor].
Qed.

Lemma amount_parts_spec s ds f : amount_parts s = Some (ds, f) →
  is_canonical_dec ds = true ∧ Forall (λ c, is_digit c = true) f ∧ jlen f ≤ 18 ∧ jlen s ≤ jlen ds + 1 + jlen f.
Proof.
  unfold amount_parts. pose proof (span_splits is_digit s) as [Hs _].
  destruct (span is_digit s) as [d r]. cbn [fst snd] in Hs. destruct (is_canonical_dec d) eqn:Ed; [|done].
  destruct r as [|c r].
  - intros [= <- <-]. rewrite app_nil_r in Hs. subst. unfold jlen. cbn [length].
    split_and!; [done|constructor|lia|lia].
  - intros H. assert (c = 46%N) as -> by (destruct c as [|p]; [done|]; repeat (destruct p as [p|p|]; try done)).
    destruct (_ && _) eqn:E in H; [|done]. injection H as <- <-. inv_bool. subst s. unfold jlen in *. rewrite length_app. cbn [length].
    split_and!; [done| |lia|lia]. apply Forall_forall. intros c Hc. rewrite forallb_forall in H. by apply H, list_elem_of_In.
Qed.

(** Every amount the helpers format, they parse back: the text is within the
    pattern and the length bound. *)
Lemma amount_roundtrip parseUnits formatUnits `{!viem_units parseUnits formatUnits} z :
  0 ≤ z ≤ UINT256_MAX →
  ∃ s, formatToriumAmount formatUnits (JBig z) = Done s ∧ parseToriumAmount parseUnits (JStr s) = Done z.
Proof.
  intros Hz. exists (formatUnits z 18). unfold formatToriumAmount, assert_uint256.
  assert (assertToriumUint256 z = Done z) as Hu by by apply uint256_Done.
  rewrite Hu. cbn [mbind outcome_bind]. split; [done|].
  destruct (vu_format z (proj1 Hz)) as (ds & f & Hp & Hv). pose proof (amount_parts_spec _ _ _ Hp) as (Hc & Hf & Hlf & Hl).
  unfold parseToriumAmount. rewrite (vu_parse _ _ _ Hp : parseUnits _ toriumNativeDecimals = _), Hv.
  unfold is_amount_text. rewrite Hp, bool_decide_eq_true_2 by by eexists. cbn [negb]. rewrite orb_false_r.
  assert (length ds ≤ 60)%nat as Hd.
  { apply canonical_length; [done|lia|]. pose proof (Z_of_dec_nonneg f Hf) as Hf0.
    assert (0 ≤ Z_of_dec f * 10 ^ (18 - jlen f)) as H0 by (apply Z.mul_nonneg_nonneg; [done|apply Z.pow_nonneg; lia]).
    unfold amount_value in Hv. apply (Z.mul_lt_mono_pos_r (10 ^ 18)); [done|]. rewrite <- Z.pow_add_r by lia.
    apply (Z.le_lt_trans _ z); [rewrite <- Hv; lia|]. apply (Z.le_lt_trans _ _ _ (proj2 Hz)). exact UINT256_digits. }
  replace (97 <? jlen (formatUnits z 18)) with false by (symmetry; apply Z.ltb_ge; unfold jlen in *; lia).
  done.
Qed.

(** ** The two forms of an address *)

Definition account_bytes (b : list Z) : Prop := length b = 20%nat ∧ Forall is_byte b.

Section addresses.
Context (toLowerCase : jstr → jstr).
Context (isAddress : jstr → bool) (getAddress : jstr → outcome jstr).
Context (hexToBytes : jstr → outcome (list Z)) (bytesToHex : list Z → jstr).

(** viem: a valid address stands for twenty bytes, and checksumming the text of
    twenty bytes gives the one text that is its own checksummed form and whose
    bytes they are; ECMAScript's [toLowerCase] on ASCII. *)
Class viem_addresses : Prop := {
  va_valid s : isAddress s = true → ∃ b, account_bytes b ∧ getAddress s = getAddress (bytesToHex b);
  va_checksum b : account_bytes b → ∃ c, getAddress (bytesToHex b) = Done c ∧ isAddress c = true ∧
    getAddress c = Done c ∧ hexToBytes c = Done b;
  va_lower s : ascii s → toLowerCase s = to_lower s
}.
Context `{Hv : !viem_addresses}.

Abbreviation toBech32 := (toriumEvmAddressToBech32 isAddress getAddress hexToBytes).
Abbreviation toEvm := (toriumBech32AddressToEvm toLowerCase getAddress bytesToHex).

Lemma normalize_bytes s c : normalizeToriumEvmAddress isAddress getAddress (JStr s) = Done c →
  ∃ b, account_bytes b ∧ getAddress (bytesToHex b) = Done c ∧ hexToBytes c = Done b.
Proof using Hv.
  unfold normalizeToriumEvmAddress. destruct (isAddress s) eqn:E; [|done]. cbn [negb]. intros Hc.
  destruct (va_valid s E) as (b & Hb & Eb). destruct (va_checksum b Hb) as (c' & Hc' & _ & _ & Hx).
  exists b. split; [done|]. assert (c' = c) as -> by congruence. done.
Qed.

(** The two forms of an address name the same account: whatever spelling an
    EVM address has, it has a Bech32 text, and that text converts back to the
    checksummed spelling; and a Bech32 text that converts to an EVM address is
    the one that address converts to. *)
Theorem address_forms_agree :
  (∀ s c, normalizeToriumEvmAddress isAddress getAddress (JStr s) = Done c →
     ∃ t, toBech32 (JStr s) = Done t ∧ toEvm t = Done c) ∧
  (∀ t c, toEvm t = Done c → toBech32 (JStr c) = Done t).
Proof using Hv.
  split.
  - intros s c Hc. unfold toriumEvmAddressToBech32, toriumBech32AddressToEvm. rewrite Hc. cbn [mbind outcome_bind].
    apply normalize_bytes in Hc as (b & [Hl Hb] & Hg & Hx). rewrite Hx. cbn [mbind outcome_bind].
    destruct (encoded_decodes toLowerCase va_lower b Hl Hb) as (t & -> & Hd). exists t. rewrite Hd. by split.
  - intros t c H. unfold toriumBech32AddressToEvm in H. apply outcome_bind_Done in H as (b & Hd & Hg).
    destruct (decoded_encodes _ _ _ Hd) as (Hl & Hb & He).
    destruct (va_checksum b (conj Hl Hb)) as (c' & Hc' & Ha & Hgc & Hx). assert (c' = c) as -> by congruence.
    unfold toriumEvmAddressToBech32, normalizeToriumEvmAddress. rewrite Ha. cbn [negb]. rewrite Hgc. cbn [mbind outcome_bind].
    by rewrite Hx.
Qed.
End addresses.

(** ** Chains by id *)

(** The canonical chain of an id, and no chain for anything else. *)
Lemma getToriumChainById_Done v c :
  getToriumChainById v = Done c → ∃ e n, v = JNum n ∧ num_eqb (chain_id (toriumChains e)) n = true ∧ c = toriumChains e.
Proof.
  unfold getToriumChainById, assertToriumChainId. destruct (isToriumChainId v); [|done]. cbn [negb mbind outcome_bind].
  destruct (List.find (has_id v) environments) as [e|] eqn:E; [|done]. intros [= <-].
  apply find_some in E as [_ E]. unfold has_id in E. destruct v; try done. by eexists _, _.
Qed.

Lemma getToriumChainById_canonical e : getToriumChainById (JNum (chain_id (toriumChains e))) = Done (toriumChains e).
Proof. by destruct e. Qed.

(** ** Tagged JSON *)

Section jsv_induction.
Context (P : jsv → Prop).
Context (H_undef : P JUndef) (H_null : P JNull) (H_bool : ∀ b, P (JBool b)) (H_num : ∀ n, P (JNum n)).
Context (H_big : ∀ z, P (JBig z)) (H_str : ∀ s, P (JStr s)) (H_fun : ∀ g, P (JFun g)).
Context (H_arr : ∀ l, Forall P l → P (JArr l)).
Context (H_obj : ∀ fs, Forall (λ kv, P (snd kv)) fs → P (JObj fs)).

Fixpoint jsv_induct (v : jsv) : P v :=
  match v with
  | JUndef => H_undef
  | JNull => H_null
  | JBool b => H_bool b
  | JNum n => H_num n
  | JBig z => H_big z
  | JStr s => H_str s
  | JFun g => H_fun g
  | JArr l =>
      H_arr l ((fix go (l : list jsv) : Forall P l :=
                  match l with
                  | [] => Forall_nil_2 P
                  | x :: l' => Forall_cons_2 P x l' (jsv_induct x) (go l')
                  end) l)
  | JObj fs =>
      H_obj fs ((fix go (fs : list (jstr * jsv)) : Forall (λ kv, P (snd kv)) fs :=
                   match fs with
                   | [] => Forall_nil_2 _
                   | kv :: fs' => Forall_cons_2 _ kv fs' (jsv_induct (snd kv)) (go fs')
                   end) fs)
  end.
End jsv_induction.

(** Data that the tagged form keeps: no undefined and no functions, numbers that
    are safe integers, bigints of any size, and objects with distinct keys, none
    of them an array index nor the reserved tag. *)
Fixpoint tagged_data (v : jsv) : bool :=
  match v with
  | JUndef | JFun _ => false
  | JNull | JBool _ | JStr _ | JBig _ => true
  | JNum n => match num_int n with
              | Some z => bool_decide (n = NInt z) && (Z.abs z <=? max_safe)
              | None => false
              end
  | JArr l =>
      (fix go (l : list jsv) : bool := match l with [] => true | x :: l' => tagged_data x && go l' end) l
  | JObj fs =>
      all_distinct (map fst fs) && negb (has_tag fs) &&
      (fix go (fs : list (jstr * jsv)) : bool :=
         match fs with
         | [] => true
         | (k, x) :: fs' => bool_decide (array_index k = None) && tagged_data x && go fs'
         end) fs
  end.

(** The printed form is plain JSON data and reads back. *)
Definition keeps (v : jsv) : Prop := ∃ x, replaced v = Done x ∧ json_data x = true ∧ revived x = Done v.

Lemma signed_dec z : is_signed_dec (dec_of_Z z) = true ∧ signed_value (dec_of_Z z) = z.
Proof.
  destruct (Z.ltb_spec z 0) as [Hn|Hp].
  - assert (dec_of_Z z = 45%N :: dec_of_Z (- z)) as ->.
    { unfold dec_of_Z at 1. replace (z <? 0) with true by lia. unfold dec_of_Z. by replace (- z <? 0) with false by lia. }
    cbn [is_signed_dec signed_value]. rewrite dec_of_Z_canonical, Z_of_dec_of_Z by lia. split; [|lia].
    cbn [andb]. apply negb_true_iff, jeq_neq. intros E. apply (f_equal Z_of_dec) in E.
    rewrite Z_of_dec_of_Z in E by lia. change (Z_of_dec (js "0")) with 0 in E. lia.
  - pose proof (dec_of_Z_canonical z Hp) as Hc. pose proof (Z_of_dec_of_Z z Hp) as Hz.
    destruct (dec_of_Z z) as [|c s]; [done|].
    assert (c ≠ 45%N) as Hne.
    { apply canonical_digits in Hc as [Hd _]. apply Forall_cons in Hd as [Hd%is_digit_spec _]. lia. }
    unfold is_signed_dec, signed_value.
    destruct c as [|p]; [done|]. do 6 try (destruct p as [p|p|]; try (split; [exact Hc|exact Hz])). congruence.
Qed.

Lemma keeps_list l : Forall keeps l →
  ∃ xs, (fix go (l : list jsv) : outcome (list value) :=
           match l with [] => Done [] | x :: l' => y ← replaced x; ys ← go l'; Done (y :: ys) end) l = Done xs ∧
    Forall (λ x, json_data x = true) xs ∧
    (fix go (l : list value) : outcome (list jsv) :=
       match l with [] => Done [] | x :: l' => y ← revived x; ys ← go l'; Done (y :: ys) end) xs = Done l.
Proof.
  induction 1 as [|v l (x & Hr & Hd & Hb) _ (xs & IH1 & IH2 & IH3)]; [by exists []|].
  exists (x :: xs). rewrite Hr. cbn [mbind outcome_bind]. rewrite IH1. cbn [mbind outcome_bind].
  split_and!; [done|by constructor|]. rewrite Hb. cbn [mbind outcome_bind]. by rewrite IH3.
Qed.

Lemma keeps_fields fs : Forall (λ kv, array_index (fst kv) = None ∧ keeps (snd kv)) fs →
  ∃ xs, (fix go (fs : list (jstr * jsv)) : outcome (list (jstr * value)) :=
           match fs with [] => Done [] | (k, x) :: fs' => y ← replaced x; ys ← go fs'; Done ((k, y) :: ys) end) fs = Done xs ∧
    Forall plain_member xs ∧ map fst xs = map fst fs ∧
    (fix go (fs : list (jstr * value)) : outcome (list (jstr * jsv)) :=
       match fs with [] => Done [] | (k, x) :: fs' => y ← revived x; ys ← go fs'; Done ((k, y) :: ys) end) xs = Done fs.
Proof.
  induction 1 as [|[k v] fs [Hk (x & Hr & Hd & Hb)] _ (xs & IH1 & IH2 & IH3 & IH4)]; [by exists []|].
  cbn [fst snd] in *. exists ((k, x) :: xs). rewrite Hr. cbn [mbind outcome_bind]. rewrite IH1. cbn [mbind outcome_bind].
  split_and!; [done|by constructor|cbn [map fst]; by rewrite IH3|].
  rewrite Hb. cbn [mbind outcome_bind]. by rewrite IH4.
Qed.

Lemma revive_untagged fs : has_tag fs = false → revive (JObj fs) = Done (JObj fs).
Proof.
  intros H. destruct fs as [|[k x] [|kv fs]]; [done| |done]. unfold has_tag in H. cbn [map fst] in H.
  apply jmem_false in H. assert ((k =s? toriumBigIntTag) = false) as E.
  { apply jeq_neq. intros ->. apply H. left. }
  unfold revive. by rewrite E.
Qed.

Lemma tagged_data_keeps v : tagged_data v = true → keeps v.
Proof.
  induction v as [| |b|n|z|s|g|l IH|fs IH] using jsv_induct; intros H; try done; try (by eexists).
  - exists (VObj [(toriumBigIntTag, VStr (dec_of_Z z))]). split; [done|]. split; [done|].
    destruct (signed_dec z) as [H1 H2]. cbn [revived mbind outcome_bind]. unfold revive.
    rewrite jeq_refl, H1, H2. done.
  - assert (Forall keeps l) as Hl.
    { cbn [tagged_data] in H. induction IH as [|v l Hv _ IHl]; [constructor|].
      apply andb_prop in H as [H1 H2]. constructor; [by apply Hv|by apply IHl]. }
    destruct (keeps_list l Hl) as (xs & H1 & H2 & H3). exists (VArr xs). cbn [replaced revived].
    rewrite H1. cbn [mbind outcome_bind]. split_and!; [done|by apply json_data_arr|]. by rewrite H3.
  - cbn [tagged_data] in H. apply andb_prop in H as [[Hd%all_distinct_spec Ht%negb_true_iff]%andb_prop H].
    assert (Forall (λ kv, array_index (fst kv) = None ∧ keeps (snd kv)) fs) as Hl.
    { clear Hd Ht. induction IH as [|[k v] fs Hv _ IHl]; [constructor|].
      apply andb_prop in H as [[Hk%bool_decide_eq_true H1]%andb_prop H2]. constructor; [by split; [|apply Hv]|by apply IHl]. }
    destruct (keeps_fields fs Hl) as (xs & H1 & H2 & H3 & H4). exists (VObj xs). cbn [replaced revived].
    rewrite Ht, H1. cbn [mbind outcome_bind]. split_and!; [done|apply json_data_obj; by rewrite H3|].
    rewrite H4. cbn [mbind outcome_bind]. by apply revive_untagged.
Qed.

(** Tagged JSON keeps bigints: data without undefined, functions or the
    reserved tag, whose numbers are safe integers, is printed with any
    indentation and read back as it was, its bigints as bigints of the same value
    and its strings as strings, also those that look like numbers. *)
Theorem tagged_json_roundtrip v space :
  tagged_data v = true → ∃ s, stringifyToriumJson v space = Done s ∧ parseToriumJson (JStr s) = Done v.
Proof.
  intros H. destruct (tagged_data_keeps v H) as (x & Hr & Hd & Hb).
  exists (stringify (json_gap space) 0 x). unfold stringifyToriumJson, parseToriumJson.
  rewrite Hr. cbn [mbind outcome_bind]. split; [by destruct x|]. by rewrite json_parse_stringify.
Qed.

(** ** Witnesses *)

Lemma tagged_json_roundtrip_witness :
  ∃ s, stringifyToriumJson (JObj [(js "block", JBig (2 ^ 70)); (js "text", JStr (js "12")); (js "deltas", JArr [JBig (-5); JNum (NInt 3)])])
         (Some (NInt 2)) = Done s ∧
    parseToriumJson (JStr s) = Done (JObj [(js "block", JBig (2 ^ 70)); (js "text", JStr (js "12")); (js "deltas", JArr [JBig (-5); JNum (NInt 3)])]).
Proof. apply tagged_json_roundtrip. vm_compute. reflexivity. Defined.

Module Samples.
(** Lower-case text stands for the checksummed one. *)
Definition isAddress (s : jstr) : bool := is_hex_bytes s && Nat.eqb (length s) 42.
Definition getAddress (s : jstr) : outcome jstr :=
  if isAddress s then Done s else throw_range_error (js "Invalid address").
Definition hexToBytes (s : jstr) : outcome (list Z) := Done (hexBytes s).

Lemma is_byte_byte l : Forall is_byte l ↔ Forall byte l.
Proof. unfold is_byte, word_of_bits, byte. by change (2 ^ 8) with 256. Qed.

#[export] Instance sample_addresses : viem_addresses to_lower isAddress getAddress hexToBytes bytes_text.
Proof.
  assert (∀ b, account_bytes b → isAddress (bytes_text b) = true ∧ hexBytes (bytes_text b) = b) as Hb.
  { intros b [Hl Hb%is_byte_byte]. split; [|by apply hexBytes_text]. destruct (hex_of_bytes_format b Hb) as [Hn Hf].
    unfold isAddress, is_hex_bytes, bytes_text. change (strip_0x (js "0x" +++ ?l)) with (Some l). cbv beta iota.
    rewrite Hn, Hl, Hf. change (length (js "0x" +++ ?l)) with (S (S (length l))). by rewrite Hn, Hl. }
  constructor.
  - intros s Hs. exists (hexBytes s). pose proof Hs as H. unfold isAddress in H. apply andb_prop in H as [Hx Hl%Nat.eqb_eq].
    destruct (hex_bytes_digits s Hx) as [_ H].
    assert (account_bytes (hexBytes s)) as Ha.
    { split; [lia|]. apply is_byte_byte. unfold hexBytes. apply bytes_of_hex_bytes. }
    split; [done|]. f_equal. destruct (Hb _ Ha) as [Ht Hr]. unfold isAddress in Ht. apply andb_prop in Ht as [Ht _].
    by apply hexBytes_inj.
  - intros b Hab. destruct (Hb b Hab) as [Ht Hr]. exists (bytes_text b). unfold getAddress, hexToBytes. by rewrite Ht, Hr.
  - done.
Qed.

Definition evm_text : jstr := js "0x00112233445566778899aabbccddeeff00112233".

Lemma address_forms_agree_witness :
  normalizeToriumEvmAddress isAddress getAddress (JStr evm_text) = Done evm_text ∧
  ∃ t, toriumEvmAddressToBech32 isAddress getAddress hexToBytes (JStr evm_text) = Done t ∧
    toriumBech32AddressToEvm to_lower getAddress bytes_text t = Done evm_text.
Proof.
  assert (normalizeToriumEvmAddress isAddress getAddress (JStr evm_text) = Done evm_text) as H by (vm_compute; reflexivity).
  split; [exact H|].
  exact (proj1 (address_forms_agree to_lower isAddress getAddress hexToBytes bytes_text (Hv := sample_addresses)) evm_text evm_text H).
Defined.
End Samples.
