(* ===== verification/SdkClientsFacts.v ===== *)
(** Log ranges cover a block range exactly, in pieces an endpoint accepts; and
    what a network status and its failures say. *)

From S2P Require Import Prelude JsNum JsText SdkValue SdkErrors SdkExecution SdkContracts SdkChains SdkClients.

Open Scope Z_scope.

(** ** Log ranges *)

(** The blocks of a range, in order. *)
Definition blocks (r : block_range) : list Z := seqZ (fromBlock r) (toBlock r - fromBlock r + 1).

Definition bounded_range (r : block_range) : Prop := 1 ≤ toBlock r - fromBlock r + 1 ≤ logBlockRange.

Lemma log_ranges_cover fuel start last :
  last - start < Z.of_nat fuel * logBlockRange →
  concat (map blocks (log_ranges fuel start last)) = seqZ start (last - start + 1) ∧
  Forall bounded_range (log_ranges fuel start last).
Proof.
  revert start. induction fuel as [|fuel IH]; intros start H.
  { cbn [log_ranges map concat]. rewrite seqZ_nil by lia. done. }
  cbn [log_ranges]. destruct (Z.leb_spec start last) as [Hs|Hs].
  - destruct (IH (start + logBlockRange)) as [IH1 IH2]; [lia|]. unfold logBlockRange in *. cbn [map concat].
    rewrite IH1. unfold blocks at 1. cbn [fromBlock toBlock]. split.
    + destruct (Z.ltb_spec (start + 10000 - 1) last) as [Hl|Hl].
      * replace (start + 10000 - 1 - start + 1) with 10000 by lia.
        replace (last - start + 1) with (10000 + (last - (start + 10000) + 1)) by lia.
        symmetry. apply seqZ_app; lia.
      * rewrite (seqZ_nil (start + 10000)) by lia. by rewrite app_nil_r.
    + constructor; [|done]. unfold bounded_range, logBlockRange. cbn [fromBlock toBlock].
      destruct (Z.ltb_spec (start + 10000 - 1) last); lia.
  - split; [|done]. cbn [map concat]. by rewrite seqZ_nil by lia.
Qed.

Lemma range_fuel_enough first last : first ≤ last → last - first < Z.of_nat (range_fuel first last) * logBlockRange.
Proof.
  intros H. unfold range_fuel, logBlockRange.
  pose proof (Z.div_pos (last - first) 10000 ltac:(lia) ltac:(lia)).
  pose proof (Z.div_mod (last - first) 10000 ltac:(lia)). pose proof (Z.mod_pos_bound (last - first) 10000 ltac:(lia)).
  rewrite Z2Nat.id by lia. lia.
Qed.

(** Log ranges split a block range without loss: for blocks that are not
    negative and in order the ranges end, hold every block of the range once and
    in order, and none is empty or wider than the 10,000 blocks an endpoint
    accepts; anything else is a range error. *)
Theorem log_ranges_exact r :
  (0 ≤ fromBlock r ≤ toBlock r ∧
   ∃ rs, createToriumLogRanges r = Done rs ∧ concat (map blocks rs) = blocks r ∧ Forall bounded_range rs) ∨
  (¬ (0 ≤ fromBlock r ≤ toBlock r) ∧ ∃ message, createToriumLogRanges r = throw_range_error message).
Proof.
  unfold createToriumLogRanges. destruct ((fromBlock r <? 0) || (toBlock r <? 0)) eqn:E.
  { right. split; [|by eexists]. apply orb_true_iff in E as [E|E]; lia. }
  apply orb_false_iff in E as [E1 E2]. destruct (toBlock r <? fromBlock r) eqn:E3.
  { right. split; [lia|by eexists]. }
  left. split; [lia|]. eexists. split; [done|]. apply log_ranges_cover, range_fuel_enough. lia.
Qed.

(** ** Failures of a status *)

Section status.
Context (toLowerCase : jstr → jstr) (W : Type) (user_aborted timer_fired : W → bool).
Context (now : W → Z) (random : W → num) (wait : num → W → W) (send : rpc → W → outcome jsv * W).

(** A cancelled status is always the endpoint's abort error. *)
Lemma cancelled_status chain o w e w' trace :
  getToriumNetworkStatus toLowerCase W user_aborted timer_fired now random wait send chain o w = (Fails (TSdk e), w', trace) →
  err_category e = Cancellation → is_Some (SdkValue.endpoint e).
Proof.
  unfold getToriumNetworkStatus. destruct (runToriumReadAction _ _ _ _ _ _ _ _ _ _ _) as [[[s|t] w1] tr]; [done|].
  intros [= H <- <-] Hc. destruct t as [e'|v]; [|done]. unfold status_failure in H.
  destruct (err_category e') eqn:Ec; try (injection H as <-; congruence).
  destruct (SdkValue.endpoint e') eqn:Ee; injection H as <-; [by rewrite Ee|by eexists].
Qed.
End status.
