(* ===== verification/SdkWalletFacts.v ===== *)
(** Transaction requests: their normal form, and the single authorised
    submission. *)

From S2P Require Import Prelude JsNum JsText JsValue JsonText RewardTree.
From S2P Require Import SdkValue SdkErrors SdkExecution SdkExecutionFacts SdkContracts SdkContractsFacts SdkChains SdkUtils SdkUtilsFacts SdkWallet.

Open Scope Z_scope.

(** ** Own properties *)

Lemma jassoc_None {A} k (fs : list (jstr * A)) : jassoc k fs = None ↔ k ∉ map fst fs.
Proof.
  induction fs as [|[k' v] fs IH]; cbn [jassoc map fst]; [split; [intros _; apply not_elem_of_nil|done]|].
  rewrite not_elem_of_cons. destruct (k =s? k') eqn:E; [apply jeq_spec in E; naive_solver|].
  apply jeq_neq in E. rewrite IH. naive_solver.
Qed.

Lemma jassoc_elem {A} k (v : A) fs : jassoc k fs = Some v → (k, v) ∈ fs.
Proof.
  induction fs as [|[k' v'] fs IH]; cbn [jassoc]; [done|]. destruct (k =s? k') eqn:E.
  - apply jeq_spec in E as ->. intros [= ->]. left.
  - intros H. right. by apply IH.
Qed.

Lemma elem_jassoc {A} k (v : A) fs : NoDup (map fst fs) → (k, v) ∈ fs → jassoc k fs = Some v.
Proof.
  induction fs as [|[k' v'] fs IH]; cbn [jassoc map fst]; [intros _ H; by apply elem_of_nil in H|].
  rewrite NoDup_cons. intros [Hk Hn] [[= <- <-]|H]%elem_of_cons; [by rewrite jeq_refl|].
  assert ((k =s? k') = false) as ->; [|by apply IH].
  apply jeq_neq. intros ->. apply Hk, elem_of_map. by exists (k', v).
Qed.

Lemma set_own_key_list {A} k (v : A) fs : array_index k = None →
  map fst (set_own k v fs) = if jmem k (map fst fs) then map fst fs else map fst fs ++ [k].
Proof.
  intros Hk. induction fs as [|[k' v'] fs IH]; [done|]. cbn [set_own map fst]. unfold jmem. cbn [existsb].
  destruct (k =s? k') eqn:E; [by apply jeq_spec in E as ->|]. unfold index_before. rewrite Hk.
  cbn [map fst orb]. rewrite IH. unfold jmem. by destruct (existsb _ _).
Qed.

Lemma set_own_nodup {A} k (v : A) fs : array_index k = None → NoDup (map fst fs) → NoDup (map fst (set_own k v fs)).
Proof.
  intros Hk Hn. rewrite set_own_key_list by done. destruct (jmem k (map fst fs)) eqn:E; [done|].
  apply NoDup_snoc; [done|by apply jmem_false].
Qed.

Lemma jassoc_set_own {A} k k' (v : A) fs : array_index k = None →
  jassoc k' (set_own k v fs) = if k' =s? k then Some v else jassoc k' fs.
Proof.
  intros Hk. induction fs as [|[k1 v1] fs IH]; cbn [set_own jassoc]; [by destruct (k' =s? k)|].
  destruct (k =s? k1) eqn:E.
  - apply jeq_spec in E as <-. cbn [jassoc]. by destruct (k' =s? k).
  - unfold index_before. rewrite Hk. cbn [jassoc]. rewrite IH. destruct (k' =s? k1) eqn:E1; [|done].
    apply jeq_spec in E1 as ->. destruct (k1 =s? k) eqn:E2; [|done]. apply jeq_spec in E2. apply jeq_neq in E. congruence.
Qed.

Lemma set_own_same {A} k (v : A) fs : array_index k = None → jassoc k fs = Some v → set_own k v fs = fs.
Proof.
  intros Hk. induction fs as [|[k' v'] fs IH]; cbn [set_own jassoc]; [done|].
  destruct (k =s? k') eqn:E; [by apply jeq_spec in E as ->; intros [= ->]|].
  intros H. unfold index_before. rewrite Hk. by rewrite IH.
Qed.

Lemma set_own_append {A} k (v : A) fs : array_index k = None → jassoc k fs = None → set_own k v fs = fs ++ [(k, v)].
Proof. intros Hk H. apply set_own_fresh; [done|by apply jassoc_None]. Qed.

(** Updates under names that are not array indices. *)
Definition named (updates : list (jstr * jsv)) : Prop := Forall (λ kv, array_index (fst kv) = None) updates.

Lemma spread_nodup fs updates : named updates → NoDup (map fst fs) → NoDup (map fst (spread fs updates)).
Proof.
  unfold spread. intros Hu. revert fs. induction Hu as [|[k v] us Hk _ IH]; intros fs Hn; [done|].
  cbn [fold_left]. by apply IH, set_own_nodup.
Qed.

Lemma jassoc_spread fs updates k : named updates → NoDup (map fst updates) →
  jassoc k (spread fs updates) = match jassoc k updates with Some v => Some v | None => jassoc k fs end.
Proof.
  unfold spread. intros Hu. revert fs. induction Hu as [|[k' v] us Hk _ IH]; intros fs Hn; [done|].
  cbn [fold_left map fst] in *. apply NoDup_cons in Hn as [Hk' Hn]. rewrite IH by done.
  cbn [jassoc]. destruct (k =s? k') eqn:E.
  - apply jeq_spec in E as ->. rewrite (proj2 (jassoc_None k' us) Hk'). rewrite jassoc_set_own by done. by rewrite jeq_refl.
  - destruct (jassoc k us); [done|]. rewrite jassoc_set_own by done. by rewrite E.
Qed.

Lemma spread_keys fs updates k : named updates →
  k ∈ map fst (spread fs updates) ↔ k ∈ map fst fs ∨ k ∈ map fst updates.
Proof.
  unfold spread. intros Hu. revert fs. induction Hu as [|[k' v] us Hk _ IH]; intros fs; cbn [fold_left map fst].
  { split; [by left|]. intros [?|H]; [done|by apply elem_of_nil in H]. }
  rewrite IH, set_own_key_list by done. rewrite elem_of_cons. destruct (jmem k' (map fst fs)) eqn:E.
  - apply jmem_spec in E. naive_solver.
  - rewrite elem_of_app, list_elem_of_singleton. naive_solver.
Qed.

(** [removeUndefined] does not change what a read gives. *)
Lemma jget_removeUndefined fs k : NoDup (map fst fs) → jget (removeUndefined fs) k = jget (JObj fs) k.
Proof.
  unfold removeUndefined, jget. induction fs as [|[k' v] fs IH]; [done|]. cbn [map fst]. rewrite NoDup_cons. intros [Hk Hn].
  cbn [List.filter snd jassoc]. destruct (k =s? k') eqn:E.
  - apply jeq_spec in E as ->. destruct (is_jundef v) eqn:Ev; cbn [negb jassoc]; [|by rewrite jeq_refl].
    destruct v; try done. rewrite IH by done. by rewrite (proj2 (jassoc_None k' fs) Hk).
  - destruct (is_jundef v); cbn [negb jassoc]; [|rewrite E]; by apply IH.
Qed.

Lemma filter_nodup (p : jstr * jsv → bool) fs : NoDup (map fst fs) → NoDup (map fst (List.filter p fs)).
Proof.
  induction fs as [|[k v] fs IH]; [done|]. cbn [map fst]. rewrite NoDup_cons. intros [Hk Hn]. cbn [List.filter].
  destruct (p (k, v)); [|by apply IH]. cbn [map fst]. apply NoDup_cons. split; [|by apply IH].
  intros Hin. apply Hk. apply elem_of_map in Hin as ([k1 v1] & -> & Hin). apply elem_of_map. exists (k1, v1).
  split; [done|]. apply list_elem_of_In, filter_In in Hin as [Hin _]. by apply list_elem_of_In.
Qed.

(** ** Normal requests *)

(** An object whose own keys are distinct, as every object's are. *)
Definition distinct_keys (v : jsv) : Prop := NoDup (map fst (own_fields v)).

Definition request_updates (account to data accessList : jsv) : list (jstr * jsv) :=
  [(js "type", JStr (js "eip1559")); (js "account", account); (js "to", to); (js "data", data);
   (js "accessList", accessList)].

Lemma request_updates_named a t d l : named (request_updates a t d l) ∧ NoDup (map fst (request_updates a t d l)).
Proof.
  split; [unfold named; repeat constructor|]. cbn [request_updates map fst]. apply (bool_decide_eq_true_1 _). vm_compute. reflexivity.
Qed.

Section request.
Context (toLowerCase : jstr → jstr) (isAddress : jstr → bool) (getAddress : jstr → outcome jstr).
Context (address_now : jsv → jsv).
Abbreviation normalizeToriumTransactionRequest := (normalizeToriumTransactionRequest toLowerCase isAddress getAddress address_now).
Abbreviation normalize_to := (normalize_to isAddress getAddress).
Abbreviation normalize_data := (normalize_data toLowerCase).
Abbreviation normalizeAccessList := (normalizeAccessList toLowerCase isAddress getAddress).
Abbreviation getAccountAddress := (getAccountAddress isAddress getAddress address_now).

(** What a request that is accepted has, and what it becomes. *)
Record accepted (fs : list (jstr * jsv)) (a : jstr) (account to data accessList : jsv) : Prop := Accepted {
  acc_keys : Forall (λ k, k ∈ toriumTransactionRequestKeys) (map fst fs);
  acc_account : is_jnullish (jget (JObj fs) (js "account")) = false;
  acc_type : jget (JObj fs) (js "type") = JUndef ∨ jget (JObj fs) (js "type") = JStr (js "eip1559");
  acc_address : getAccountAddress (jget (JObj fs) (js "account")) = Done a;
  acc_kept : account = match jget (JObj fs) (js "account") with JStr _ => JStr a | v => v end;
  acc_to : normalize_to (jget (JObj fs) (js "to")) = Done to;
  acc_data : normalize_data (jget (JObj fs) (js "data")) = Done data;
  acc_check : check_data to data = Done ();
  acc_value : if_given (jget (JObj fs) (js "value")) assert_uint256 = Done ();
  acc_gas : if_given (jget (JObj fs) (js "gas")) assertTransactionGas = Done ();
  acc_nonce : if_given (jget (JObj fs) (js "nonce")) assertTransactionNonce = Done ();
  acc_max : if_given (jget (JObj fs) (js "maxFeePerGas")) assert_uint256 = Done ();
  acc_priority : if_given (jget (JObj fs) (js "maxPriorityFeePerGas")) assert_uint256 = Done ();
  acc_fees : check_fees (jget (JObj fs) (js "maxFeePerGas")) (jget (JObj fs) (js "maxPriorityFeePerGas")) = Done ();
  acc_list : normalizeAccessList (jget (JObj fs) (js "accessList")) = Done accessList
}.

Definition result_of (fs : list (jstr * jsv)) (account to data accessList : jsv) : jsv :=
  removeUndefined (spread fs (request_updates account to data accessList)).

Lemma normalize_iff request r :
  normalizeToriumTransactionRequest request = Done r ↔
  ∃ fs a account to data al, request = JObj fs ∧ accepted fs a account to data al ∧ r = result_of fs account to data al.
Proof.
  unfold SdkWallet.normalizeToriumTransactionRequest. split.
  - destruct (isObjectLike request) eqn:Eo; cbn [negb]; [|done].
    destruct (existsb _ _) eqn:Ek; [done|].
    destruct (is_jnullish (jget request (js "account"))) eqn:Ea; [done|].
    destruct request as [| | | | | | |fs|]; try done. intros H.
    destruct (_ && _) eqn:Et in H; [done|].
    apply outcome_bind_Done in H as (a & Ha & H). apply outcome_bind_Done in H as (to & Hto & H).
    apply outcome_bind_Done in H as (data & Hdata & H). apply outcome_bind_Done in H as ([] & Hc & H).
    apply outcome_bind_Done in H as ([] & Hv & H). apply outcome_bind_Done in H as ([] & Hg & H).
    apply outcome_bind_Done in H as ([] & Hn & H). apply outcome_bind_Done in H as ([] & Hm & H).
    apply outcome_bind_Done in H as ([] & Hp & H). apply outcome_bind_Done in H as ([] & Hf & H).
    apply outcome_bind_Done in H as (al & Hl & [= <-]).
    eexists fs, a, _, to, data, al. split; [done|]. split; [|reflexivity]. constructor; try done.
    + apply Forall_forall. intros k Hk. apply dec_stable. intros Hn'. apply not_true_iff_false in Ek. apply Ek.
      apply existsb_exists. exists k. split; [by apply list_elem_of_In|]. apply negb_true_iff. by apply jmem_false.
    + apply andb_false_iff in Et as [Et|Et]; apply negb_false_iff in Et.
      * left. by destruct (jget (JObj fs) (js "type")).
      * right. destruct (jget (JObj fs) (js "type")); try done. apply jeq_spec in Et. by subst.
  - intros (fs & a & account & to & data & al & -> & [] & ->). cbn [isObjectLike negb object_keys].
    assert (existsb (λ k, negb (jmem k toriumTransactionRequestKeys)) (map fst fs) = false) as ->.
    { apply not_true_iff_false. intros (k & Hk & Hn)%existsb_exists. apply list_elem_of_In in Hk.
      rewrite Forall_forall in acc_keys0. apply acc_keys0, jmem_spec in Hk. by rewrite Hk in Hn. }
    rewrite acc_account0.
    assert (negb (is_jundef (jget (JObj fs) (js "type"))) && negb (is_text (js "eip1559") (jget (JObj fs) (js "type"))) = false) as ->.
    { destruct acc_type0 as [-> | ->]; [done|]. unfold is_text. by rewrite jeq_refl. }
    rewrite acc_address0, acc_to0, acc_data0. cbn [mbind outcome_bind]. rewrite acc_check0, acc_value0, acc_gas0, acc_nonce0,
      acc_max0, acc_priority0, acc_fees0, acc_list0. cbn [mbind outcome_bind]. by rewrite acc_kept0.
Qed.

(** The fields of the result. *)
Lemma result_get fs account to data al k : NoDup (map fst fs) →
  jget (result_of fs account to data al) k
  = match jassoc k (request_updates account to data al) with Some v => v | None => jget (JObj fs) k end.
Proof.
  intros Hn. destruct (request_updates_named account to data al) as [Hu Hd]. unfold result_of.
  rewrite jget_removeUndefined by by apply spread_nodup. unfold jget. rewrite jassoc_spread by done.
  by destruct (jassoc k (request_updates _ _ _ _)).
Qed.

Lemma result_fields fs account to data al : NoDup (map fst fs) →
  ∃ gs, result_of fs account to data al = JObj gs ∧ NoDup (map fst gs) ∧ Forall (λ kv, is_jundef (snd kv) = false) gs ∧
    (Forall (λ k, k ∈ toriumTransactionRequestKeys) (map fst fs) → Forall (λ k, k ∈ toriumTransactionRequestKeys) (map fst gs)).
Proof.
  intros Hn. destruct (request_updates_named account to data al) as [Hu Hd]. unfold result_of, removeUndefined.
  eexists. split; [done|]. split; [by apply filter_nodup, spread_nodup|]. split.
  - apply Forall_forall. intros kv Hin%list_elem_of_In. apply filter_In in Hin as [_ H]. by apply negb_true_iff.
  - intros Hk. apply Forall_forall. intros k Hin. apply elem_of_map in Hin as ([k' v] & -> & Hin).
    apply list_elem_of_In, filter_In in Hin as [Hin _]. apply list_elem_of_In in Hin.
    assert (k' ∈ map fst (spread fs (request_updates account to data al))) as H by (apply elem_of_map; by exists (k', v)).
    apply spread_keys in H as [H|H]; [|..|done]; [rewrite Forall_forall in Hk; by apply Hk|].
    apply jmem_spec. revert H. rewrite <- jmem_spec. unfold request_updates. cbn [map fst fst]. unfold jmem, toriumTransactionRequestKeys.
    cbn [existsb]. rewrite !orb_true_iff. intuition.
Qed.

(** viem's checksumming is stable, and [toLowerCase] is ASCII's on ASCII. *)
Class wallet_viem : Prop := {
  wv_address s c : isAddress s = true → getAddress s = Done c → isAddress c = true ∧ getAddress c = Done c;
  wv_lower s : forallb (λ c, (c <? 128)%N) s = true → toLowerCase s = to_lower s
}.
Context `{Hv : !wallet_viem}.

Definition canonical_address (s : jstr) : Prop := isAddress s = true ∧ getAddress s = Done s.
Definition canonical_hash (s : jstr) : Prop := is_exact_hash s = true ∧ to_lower s = s.

Lemma address_canonical v c : SdkUtils.normalizeToriumEvmAddress isAddress getAddress v = Done c → canonical_address c.
Proof using Hv.
  unfold normalizeToriumEvmAddress. destruct v; try done. destruct (isAddress s) eqn:E; [|done]. cbn [negb].
  intros H. by apply (wv_address s).
Qed.

Lemma canonical_again c : canonical_address c → SdkUtils.normalizeToriumEvmAddress isAddress getAddress (JStr c) = Done c.
Proof. intros [H1 H2]. unfold normalizeToriumEvmAddress. by rewrite H1. Qed.

Lemma hex_lower ds : forallb is_hex ds = true →
  forallb is_hex (to_lower ds) = true ∧ forallb (λ c, (c <? 128)%N) ds = true.
Proof.
  induction ds as [|c ds IH]; [done|]. change (to_lower (c :: ds)) with (lower_char c :: to_lower ds). cbn [forallb].
  intros [Hc Hd]%andb_prop. destruct (IH Hd) as [-> ->]. rewrite !andb_true_r.
  assert ((48 <= c <= 57) ∨ (97 <= c <= 102) ∨ (65 <= c <= 70))%N as H.
  { unfold is_hex, is_lower_hex, is_digit in Hc.
    repeat (apply orb_true_iff in Hc as [Hc|Hc]); apply in_range_spec in Hc; lia. }
  split; [|apply N.ltb_lt; lia]. unfold lower_char, is_upper, is_hex, is_lower_hex, is_digit.
  destruct (in_range 65 90 c) eqn:E; rewrite !orb_true_iff, !in_range_spec.
  - apply in_range_spec in E. lia.
  - apply not_true_iff_false in E. rewrite in_range_spec in E. lia.
Qed.

Lemma exact_hash_cases s : is_exact_hash s = true →
  ∃ ds, s = 48%N :: 120%N :: ds ∧ length ds = 64%nat ∧ forallb is_hex ds = true.
Proof. unfold is_exact_hash. intros H. repeat case_match; try done. apply andb_prop in H as [H%Nat.eqb_eq Hd]. eauto. Qed.

Lemma byte_text_cases s : is_byte_text s = true →
  ∃ ds, s = 48%N :: 120%N :: ds ∧ Nat.even (length ds) = true ∧ forallb is_hex ds = true.
Proof. unfold is_byte_text. intros H. repeat case_match; try done. apply andb_prop in H as [H Hd]. eauto. Qed.

Lemma hash_canonical v h : normalizeToriumHash toLowerCase v = Done h → canonical_hash h.
Proof using Hv.
  unfold normalizeToriumHash. destruct v; try done. destruct (is_exact_hash s) eqn:E; [|done]. intros [= <-].
  apply exact_hash_cases in E as (ds & -> & Hl & Hd).
  destruct (hex_lower ds Hd) as [H1 H2]. rewrite wv_lower by (cbn [forallb]; by rewrite H2).
  change (to_lower (48%N :: 120%N :: ds)) with (48%N :: 120%N :: to_lower ds).
  split; [unfold is_exact_hash; by rewrite to_lower_length, Hl, H1|].
  change (48%N :: 120%N :: to_lower (to_lower ds) = 48%N :: 120%N :: to_lower ds). by rewrite to_lower_idemp.
Qed.

Lemma hash_again h : canonical_hash h → normalizeToriumHash toLowerCase (JStr h) = Done h.
Proof using Hv.
  intros [H1 H2]. unfold normalizeToriumHash. rewrite H1. f_equal. rewrite wv_lower; [done|].
  apply exact_hash_cases in H1 as (ds & -> & _ & Hd). cbn [forallb]. by destruct (hex_lower ds Hd) as [_ ->].
Qed.

Lemma data_canonical v d : normalizeToriumHexData toLowerCase v = Done d → is_byte_text d = true ∧ to_lower d = d.
Proof using Hv.
  unfold normalizeToriumHexData. destruct v; try done. destruct (is_byte_text s) eqn:E; [|done]. intros [= <-].
  apply byte_text_cases in E as (ds & -> & Hl & Hd).
  destruct (hex_lower ds Hd) as [H1 H2]. rewrite wv_lower by (cbn [forallb]; by rewrite H2).
  change (to_lower (48%N :: 120%N :: ds)) with (48%N :: 120%N :: to_lower ds).
  split; [unfold is_byte_text; by rewrite to_lower_length, Hl, H1|].
  change (48%N :: 120%N :: to_lower (to_lower ds) = 48%N :: 120%N :: to_lower ds). by rewrite to_lower_idemp.
Qed.

Lemma data_again d : is_byte_text d = true → to_lower d = d → normalizeToriumHexData toLowerCase (JStr d) = Done d.
Proof using Hv.
  intros H1 H2. unfold normalizeToriumHexData. rewrite H1. f_equal. rewrite wv_lower; [done|].
  apply byte_text_cases in H1 as (ds & -> & _ & Hd). cbn [forallb]. by destruct (hex_lower ds Hd) as [_ ->].
Qed.

Lemma map_outcome_Done {A B} (f : A → outcome B) l k : map_outcome f l = Done k ↔ Forall2 (λ x y, f x = Done y) l k.
Proof.
  revert k. induction l as [|x l IH]; intros k; cbn [map_outcome].
  { split; [intros [= <-]; constructor|by inversion 1]. }
  rewrite outcome_bind_Done. split.
  - intros (y & Hy & H). apply outcome_bind_Done in H as (ys & Hys & [= <-]). constructor; [done|]. by apply IH.
  - inversion 1 as [|? y ? ys Hy Hys]; subst. exists y. split; [done|]. apply outcome_bind_Done. exists ys.
    split; [by apply IH|done].
Qed.

(** A normal access-list entry. *)
Definition canonical_entry (v : jsv) : Prop := ∃ a hs, v = JObj [(js "address", JStr a); (js "storageKeys", JArr (map JStr hs))] ∧
  canonical_address a ∧ Forall canonical_hash hs.

Lemma entry_canonical v e : normalize_entry toLowerCase isAddress getAddress v = Done e → canonical_entry e.
Proof using Hv.
  unfold normalize_entry. destruct (jget v (js "storageKeys")); try done. intros H.
  apply outcome_bind_Done in H as (a & Ha & H). apply outcome_bind_Done in H as (hs & Hh & [= <-]).
  exists a, hs. split; [done|]. split; [by eapply address_canonical|].
  apply map_outcome_Done in Hh. induction Hh as [|x y l k Hxy _ IH]; constructor; [by eapply hash_canonical|done].
Qed.

Lemma entry_again e : canonical_entry e → normalize_entry toLowerCase isAddress getAddress e = Done e.
Proof using Hv.
  intros (a & hs & -> & Ha & Hh). unfold normalize_entry.
  change (jget _ (js "storageKeys")) with (JArr (map JStr hs)). change (jget _ (js "address")) with (JStr a). cbv iota.
  rewrite canonical_again by done. cbn [mbind outcome_bind].
  assert (map_outcome (normalizeToriumHash toLowerCase) (map JStr hs) = Done hs) as ->; [|done].
  apply map_outcome_Done. induction Hh as [|h hs Hhh _ IH]; [constructor|]. cbn [map]. constructor; [by apply hash_again|done].
Qed.

Definition canonical_list (v : jsv) : Prop := v = JUndef ∨ ∃ es, v = JArr es ∧ Forall canonical_entry es.

Lemma list_canonical v al : normalizeAccessList v = Done al → canonical_list al.
Proof using Hv.
  unfold SdkWallet.normalizeAccessList. destruct v; try done; [intros [= <-]; by left|]. intros H.
  apply outcome_bind_Done in H as (es & He & [= <-]). right. exists es. split; [done|].
  apply map_outcome_Done in He. induction He as [|x y l' k Hxy _ IH]; constructor; [by eapply entry_canonical|done].
Qed.

Lemma list_again al : canonical_list al → normalizeAccessList al = Done al.
Proof using Hv.
  intros [-> | (es & -> & He)]; [done|]. unfold SdkWallet.normalizeAccessList.
  assert (map_outcome (normalize_entry toLowerCase isAddress getAddress) es = Done es) as ->; [|done].
  apply map_outcome_Done. induction He as [|e es Hee _ IH]; constructor; [by apply entry_again|done].
Qed.

(** ** The type of a normal request *)

Definition optional_uint (bound : Z) (v : jsv) : Prop := v = JUndef ∨ ∃ z, v = JBig z ∧ 0 ≤ z ≤ bound.

Record normal_request (r : jsv) : Prop := NormalRequest {
  nr_object : ∃ gs, r = JObj gs ∧ NoDup (map fst gs) ∧ Forall (λ kv, is_jundef (snd kv) = false) gs ∧
    Forall (λ k, k ∈ toriumTransactionRequestKeys) (map fst gs);
  nr_type : jget r (js "type") = JStr (js "eip1559");
  nr_account : is_jnullish (jget r (js "account")) = false ∧ ∀ s, jget r (js "account") = JStr s → canonical_address s;
  nr_to : jget r (js "to") = JUndef ∨ jget r (js "to") = JNull ∨ ∃ a, jget r (js "to") = JStr a ∧ canonical_address a;
  nr_data : jget r (js "data") = JUndef ∨ ∃ d, jget r (js "data") = JStr d ∧ is_byte_text d = true ∧ to_lower d = d ∧
    jlen d < 2 + 2 * toriumMaxEncodedTransactionBytes;
  nr_code : is_jnullish (jget r (js "to")) = true → ∃ d, jget r (js "data") = JStr d ∧ d ≠ js "0x";
  nr_value : optional_uint UINT256_MAX (jget r (js "value"));
  nr_gas : optional_uint toriumMaxTransactionGas (jget r (js "gas"));
  nr_nonce : jget r (js "nonce") = JUndef ∨ ∃ n z, jget r (js "nonce") = JNum n ∧ num_int n = Some z ∧ 0 ≤ z ≤ max_safe;
  nr_max : optional_uint UINT256_MAX (jget r (js "maxFeePerGas"));
  nr_priority : optional_uint UINT256_MAX (jget r (js "maxPriorityFeePerGas"));
  nr_fees : (∀ p, jget r (js "maxPriorityFeePerGas") = JBig p → toriumMinimumPriorityFeePerGas ≤ p) ∧
    (∀ m, jget r (js "maxFeePerGas") = JBig m →
       toriumMinimumBaseFeePerGas + big_or (jget r (js "maxPriorityFeePerGas")) toriumMinimumPriorityFeePerGas ≤ m);
  nr_list : canonical_list (jget r (js "accessList"))
}.

Lemma uint_given v : if_given v assert_uint256 = Done () → optional_uint UINT256_MAX v.
Proof.
  unfold if_given, optional_uint. destruct v; cbn [is_jundef]; try done; [by left|]. intros H.
  apply outcome_bind_Done in H as (n & [-> Hz]%uint256_Done & _). right. eauto.
Qed.

Lemma gas_given v : if_given v assertTransactionGas = Done () → optional_uint toriumMaxTransactionGas v.
Proof.
  unfold if_given, optional_uint, assertTransactionGas. destruct v; cbn [is_jundef]; try done; [by left|]. intros H.
  apply outcome_bind_Done in H as (n & H & _). apply outcome_bind_Done in H as (m & [-> Hz]%uint256_Done & H).
  destruct (Z.ltb_spec toriumMaxTransactionGas z) as [|Hg]; [done|]. right. exists z. split; [done|lia].
Qed.

Lemma nonce_given v : if_given v assertTransactionNonce = Done () →
  v = JUndef ∨ ∃ n z, v = JNum n ∧ num_int n = Some z ∧ 0 ≤ z ≤ max_safe.
Proof.
  unfold if_given, assertTransactionNonce. destruct v; cbn [is_jundef]; try done; [by left|]. intros H.
  destruct (_ || _) eqn:E in H; [done|]. apply orb_false_iff in E as [E1 E2]. apply negb_false_iff in E1.
  apply is_safe_integer_spec in E1 as (z & Hz & Hb). rewrite (num_ltb_int _ _ z 0) in E2 by done.
  right. exists n, z. split_and!; [done|done|apply Z.ltb_ge in E2; lia|lia].
Qed.

Lemma fees_given m p : check_fees m p = Done () →
  (∀ z, p = JBig z → toriumMinimumPriorityFeePerGas ≤ z) ∧
  (∀ z, m = JBig z → toriumMinimumBaseFeePerGas + big_or p toriumMinimumPriorityFeePerGas ≤ z).
Proof.
  unfold check_fees. intros H. apply outcome_bind_Done in H as ([] & Hp & H). apply outcome_bind_Done in H as ([] & Hm & _).
  split; intros z ->.
  - destruct (Z.ltb_spec z toriumMinimumPriorityFeePerGas); [done|lia].
  - destruct (Z.ltb_spec z (toriumMinimumBaseFeePerGas + big_or p toriumMinimumPriorityFeePerGas)); [done|lia].
Qed.

(** The names that normalisation keeps, and those it sets. *)
Lemma result_kept fs account to data al k : NoDup (map fst fs) →
  jassoc k (request_updates account to data al) = None → jget (result_of fs account to data al) k = jget (JObj fs) k.
Proof. intros Hn Hk. rewrite result_get by done. by rewrite Hk. Qed.

(** What the updates hold under each name. *)
Ltac read_updates :=
  repeat match goal with
  | |- context [jassoc ?k (request_updates ?a ?t ?d ?l)] =>
      first [ change (jassoc k (request_updates a t d l)) with (@None jsv)
            | change (jassoc k (request_updates a t d l)) with (Some a)
            | change (jassoc k (request_updates a t d l)) with (Some t)
            | change (jassoc k (request_updates a t d l)) with (Some d)
            | change (jassoc k (request_updates a t d l)) with (Some l)
            | change (jassoc k (request_updates a t d l)) with (Some (JStr (js "eip1559"))) ]
  end.

Lemma accepted_typed fs a account to data al : NoDup (map fst fs) → accepted fs a account to data al →
  normal_request (result_of fs account to data al).
Proof using Hv.
  intros Hn [].
  destruct (result_fields fs account to data al Hn) as (gs & Er & Hng & Hdef & Hkeys).
  constructor; rewrite ?(result_get fs account to data al _ Hn);
    read_updates; cbv iota.
  - exists gs. split_and!; [done..|by apply Hkeys].
  - done.
  - rewrite acc_kept0. destruct (jget (JObj fs) (js "account")) as [| | | | |s| | |] eqn:E; try done.
    split; [done|]. intros s' [= <-]. exact (address_canonical (JStr s) a acc_address0).
  - unfold SdkWallet.normalize_to in acc_to0. destruct (jget (JObj fs) (js "to")) as [| | | | |s| | |] eqn:E;
      cbn [is_jnullish] in acc_to0; try (injection acc_to0 as <-; tauto);
      apply outcome_bind_Done in acc_to0 as (c & Hc & [= <-]); right; right; exists c; (split; [done|by eapply address_canonical]).
  - unfold SdkWallet.normalize_data in acc_data0. destruct (is_jundef _) eqn:E in acc_data0; [left; by injection acc_data0 as <-|].
    apply outcome_bind_Done in acc_data0 as (d & Hd & [= <-]). right. exists d. split; [done|].
    destruct (data_canonical _ _ Hd) as [H1 H2]. split_and!; [done..|].
    unfold check_data in acc_check0. apply outcome_bind_Done in acc_check0 as ([] & _ & Hc).
    destruct (Z.leb_spec (toriumMaxEncodedTransactionBytes * 2) (jlen d - 2)); [done|lia].
  - intros Ht. unfold check_data in acc_check0. apply outcome_bind_Done in acc_check0 as ([] & Hc & _).
    rewrite Ht in Hc. unfold SdkWallet.normalize_data in acc_data0.
    destruct (is_jundef _) eqn:E in acc_data0; [injection acc_data0 as <-; done|].
    apply outcome_bind_Done in acc_data0 as (d & Hd & [= <-]). exists d. split; [done|]. intros ->. by rewrite jeq_refl in Hc.
  - by apply uint_given.
  - by apply gas_given.
  - by apply nonce_given.
  - by apply uint_given.
  - by apply uint_given.
  - by apply fees_given.
  - by eapply list_canonical.
Qed.

Lemma to_again v to : normalize_to v = Done to → normalize_to to = Done to.
Proof using Hv.
  unfold SdkWallet.normalize_to. destruct (is_jnullish v) eqn:E; [intros [= <-]; by rewrite E|]. intros H.
  apply outcome_bind_Done in H as (c & Hc & [= <-]). cbn [is_jnullish].
  rewrite canonical_again by (by eapply address_canonical). done.
Qed.

Lemma data_twice v data : normalize_data v = Done data → normalize_data data = Done data.
Proof using Hv.
  unfold SdkWallet.normalize_data. destruct (is_jundef v) eqn:E; [by intros [= <-]|]. intros H.
  apply outcome_bind_Done in H as (d & Hd & [= <-]). cbn [is_jundef].
  destruct (data_canonical _ _ Hd) as [H1 H2]. by rewrite data_again.
Qed.

Lemma account_again v a : getAccountAddress v = Done a →
  getAccountAddress (match v with JStr _ => JStr a | v' => v' end) = Done a.
Proof using Hv.
  intros H. destruct v; try exact H. apply (canonical_again a). exact (address_canonical (JStr s) a H).
Qed.

(** Setting what is already there changes nothing. *)
Lemma spread_noop gs updates : named updates → NoDup (map fst updates) →
  Forall (λ kv, jassoc kv.1 gs = Some kv.2 ∨ (kv.2 = JUndef ∧ jassoc kv.1 gs = None)) updates →
  ∃ us, spread gs updates = gs ++ us ∧ Forall (λ kv, kv.2 = JUndef) us.
Proof.
  unfold spread. intros Hu Hn H.
  cut (∀ us, Forall (λ kv, kv.2 = JUndef) us → Forall (λ kv, jassoc kv.1 (gs ++ us) = jassoc kv.1 gs) updates →
    ∃ us', fold_left (λ fs kv, set_own kv.1 kv.2 fs) updates (gs ++ us) = gs ++ us' ∧ Forall (λ kv, kv.2 = JUndef) us').
  { intros Hc. specialize (Hc []). rewrite app_nil_r in Hc. apply Hc; [constructor|]. by apply Forall_true. }
  revert Hn H. induction Hu as [|[k v] rest Hk _ IH]; intros Hn H us Hus Hsame; [by exists us|].
  cbn [fold_left map fst snd] in *. apply NoDup_cons in Hn as [Hkr Hn].
  apply Forall_cons in H as [Hkv H]. apply Forall_cons in Hsame as [Hks Hsame]. cbn [fst snd] in *.
  destruct Hkv as [Hkv|[-> Hkv]].
  - rewrite set_own_same by (done || congruence). by apply IH.
  - rewrite set_own_append, <- app_assoc by (done || congruence). apply IH; [done|done| |].
    + apply Forall_app. split; [done|by repeat constructor].
    + apply Forall_forall. intros [k' v'] Hin. rewrite Forall_forall in Hsame. rewrite <- (Hsame _ Hin). cbn [fst].
      rewrite app_assoc. assert ((k' =s? k) = false) as Hne.
      { apply jeq_neq. intros ->. apply Hkr, elem_of_map. by exists (k, v'). }
      clear -Hne. induction (gs ++ us) as [|[k1 v1] l IHl]; cbn [app jassoc]; [by rewrite Hne|]. by rewrite IHl.
Qed.

Lemma filter_defined (gs : list (jstr * jsv)) : Forall (λ kv, is_jundef (snd kv) = false) gs →
  List.filter (λ kv, negb (is_jundef (snd kv))) gs = gs.
Proof. induction 1 as [|kv gs Hkv _ IH]; [done|]. cbn [List.filter]. rewrite Hkv. cbn [negb]. by rewrite IH. Qed.

Lemma accepted_again fs a account to data al gs : NoDup (map fst fs) → accepted fs a account to data al →
  result_of fs account to data al = JObj gs → accepted gs a account to data al ∧ result_of gs account to data al = JObj gs.
Proof using Hv.
  intros Hn Hacc Er. pose proof (accepted_typed _ _ _ _ _ _ Hn Hacc) as Ht. destruct Hacc.
  pose proof (result_get fs account to data al) as Hget. rewrite Er in Hget. rewrite Er in Ht.
  destruct Ht as [(gs' & [= <-] & Hng & Hdef & Hkeys) Htype [Hacc _] _ _ _ _ _ _ _ _ _ _]. split.
  - constructor; rewrite ?Hget by done; read_updates; cbv iota; try done.
    + rewrite Hget in Hacc by done. revert Hacc. by read_updates.
    + by right.
    + rewrite acc_kept0. pose proof (account_again _ _ acc_address0) as Hag. by destruct (jget (JObj fs) (js "account")).
    + rewrite acc_kept0. by destruct (jget (JObj fs) (js "account")).
    + by eapply to_again.
    + by eapply data_twice.
    + apply list_again. exact (list_canonical _ _ acc_list0).
  - unfold result_of. destruct (request_updates_named account to data al) as [Hu Hd].
    destruct (spread_noop gs (request_updates account to data al) Hu Hd) as (us & -> & Hus).
    + apply Forall_forall. intros [k v] Hin. cbn [fst snd].
      pose proof (Hget k Hn) as Hk. rewrite (elem_jassoc k v _ Hd Hin) in Hk. unfold jget in Hk.
      destruct (jassoc k gs) as [v'|] eqn:E; cbn [from_option id] in Hk; subst.
      * by left.
      * by right.
    + unfold removeUndefined. f_equal. rewrite List.filter_app.
      assert (List.filter (λ kv, negb (is_jundef (snd kv))) us = []) as ->.
      { induction Hus as [|kv us Hkv _ IH]; [done|]. cbn [List.filter]. by rewrite Hkv. }
      rewrite app_nil_r. by apply filter_defined.
Qed.

Lemma normalized_typed request r : distinct_keys request → normalizeToriumTransactionRequest request = Done r →
  normal_request r ∧ normalizeToriumTransactionRequest r = Done r.
Proof using Hv.
  intros Hd H. apply normalize_iff in H as (fs & a & account & to & data & al & -> & Hacc & ->).
  cbn [distinct_keys own_fields] in Hd. split; [by eapply accepted_typed|].
  destruct (result_fields fs account to data al Hd) as (gs & Er & _).
  destruct (accepted_again fs a account to data al gs Hd Hacc Er) as [Hacc' Er'].
  rewrite Er. apply normalize_iff. eexists gs, a, account, to, data, al. split; [done|]. split; [done|]. by rewrite Er'.
Qed.

(** C13. A normalised transaction request has the type the rest of the module
    relies on: it names only the ten supported fields, each at most once and none
    undefined; it is of type eip1559; its texts of addresses and hashes are
    checksummed and lower-case; a deployment has code and the data fits a
    transaction; its integers are within uint256, its gas within the block limit,
    its nonce a safe integer, and its fees cover the protocol minimum.  And
    normalising it again changes nothing. *)
Theorem normalized_request_well_typed request r :
  distinct_keys request → normalizeToriumTransactionRequest request = Done r →
  normal_request r ∧ normalizeToriumTransactionRequest r = Done r.
Proof using Hv. apply normalized_typed. Qed.
End request.
