(* ===== verification/SdkSendFacts.v ===== *)
(** The submission of a transaction: at most one, only after the user granted
    the very preflight it carries out. *)

From S2P Require Import Prelude JsNum JsText JsValue JsonText RewardTree.
From S2P Require Import SdkValue SdkErrors SdkExecution SdkExecutionFacts SdkContracts SdkContractsFacts SdkChains SdkUtils SdkUtilsFacts SdkWallet SdkWalletFacts.

Open Scope Z_scope.

(** ** A write action runs its body at most once *)

Section once.
Context (toLowerCase : jstr → jstr) (W : Type) (user_aborted timer_fired : W → bool).
Context (now : W → Z) (random : W → num) (wait : num → W → W).

Lemma run_once {T} (action : (W → bool) → Z → W → outcome T * W) o c retry startedAt w r w' tr :
  run_from toLowerCase W user_aborted timer_fired now random wait action o c retry false startedAt 1 1 w = (r, w', tr) →
  (w' = w ∧ ∃ t, r = Fails t) ∨
  (∃ sig r', action sig 1 w = (r', w') ∧ ∀ a, r = Done a → r' = Done a).
Proof.
  cbn [run_from]. unfold attempt_once, may_retry. cbn [andb negb]. destruct (throwIfAborted _ _ _ o w) as [[]|t].
  - destruct (action _ 1 w) as [r0 w1] eqn:E.
    set (r1 := if op_timeout o || op_signal o then _ else r0).
    assert (∀ a, r1 = Done a → r0 = Done a) as Hr.
    { intros a. unfold r1, raceAbort. by repeat case_match. }
    intros H. right. eexists _, r0. destruct r1 as [a|t] eqn:Er.
    + injection H as <- <- _. split; [exact E|]. intros a' [= <-]. by apply Hr.
    + destruct (normalized _ _ _ _ _ _ w1 t) as [e|t']; simplify_eq; (split; [exact E|done]).
  - intros H. left. destruct (normalized _ _ _ _ _ _ w t) as [e|t']; simplify_eq; eauto.
Qed.

Lemma write_action_world {T} (action : (W → bool) → Z → W → outcome T * W) context options w r w' tr :
  runToriumWriteActionOnce toLowerCase W user_aborted timer_fired now random wait action context options w = (r, w', tr) →
  (w' = w ∧ ∃ t, r = Fails t) ∨
  (∃ sig r', action sig 1 w = (r', w') ∧ ∀ a, r = Done a → r' = Done a).
Proof.
  unfold runToriumWriteActionOnce, runAction. cbv zeta. intros H.
  destruct (validateExecutionContext _) as [[]|t]; [|injection H as <- <- _; left; eauto].
  destruct (validateTimeout (opt_timeoutMs options)) as [timeoutMs|t]; cbn [mbind outcome_bind] in H;
    [|injection H as <- <- _; left; eauto].
  change (validateRetry None) with (Done (MkRetry (NInt 1) (NInt 150) (NInt 2000) default_jitter)) in H.
  cbn [mbind outcome_bind] in H. change (Z.to_nat (num_Z (maxAttempts _))) with 1%nat in H.
  destruct (run_from _ _ _ _ _ _ _ _ _ _ _ _ _ _ _ _) as [[r0 w1] tr0] eqn:E. injection H as <- <- _.
  by apply run_once in E.
Qed.
End once.

(** ** What a preflight says *)

Record affordable (p : preflight) : Prop := Affordable {
  af_submit : canSubmit p = true;
  af_gas : gasEstimate p ≤ gasLimit p;
  af_cost : maximumCost p = gasLimit p * maxFeePerGas p + p_value p;
  af_balance : maximumCost p ≤ balance p;
  af_nonce : num_eqb (requestedNonce p) (pendingNonce p) = true;
  af_fees : toriumMinimumBaseFeePerGas + maxPriorityFeePerGas p ≤ maxFeePerGas p;
}.

Lemma Done_inj {A} (a b : A) : Done a = Done b → a = b.
Proof. congruence. Qed.

Section assess.
Context (serializeTransaction : signed_fields → outcome jstr).

Lemma assess_Done chainId account n estimate fees funds pending p :
  assess serializeTransaction chainId account n estimate fees funds pending = Done p →
  p_account p = account ∧ p_value p = big_or (jget n (js "value")) 0 ∧ p_to p = nullish_or (jget n (js "to")) JNull ∧
  p_data p = nullish_or (jget n (js "data")) (JStr (js "0x")) ∧
  p_accessList p = nullish_or (jget n (js "accessList")) (JArr []) ∧
  (canSubmit p = true → affordable p).
Proof.
  unfold assess. cbv zeta. intros H.
  apply outcome_bind_Done in H as (? & _ & H). apply outcome_bind_Done in H as (? & _ & H).
  apply outcome_bind_Done in H as (? & _ & H). apply outcome_bind_Done in H as (? & _ & H).
  apply outcome_bind_Done in H as (? & _ & H). apply outcome_bind_Done in H as (? & _ & H).
  apply outcome_bind_Done in H as ([] & Hb & H). apply outcome_bind_Done in H as (cost & [-> _]%uint256_Done & H).
  apply outcome_bind_Done in H as (bytes & _ & H). apply outcome_bind_Done in H as ([] & _ & H).
  apply Done_inj in H as <-.
  set (limit := big_or (jget n (js "gas")) estimate) in *. set (maxFee := big_or (jget n (js "maxFeePerGas")) fees.1) in *.
  set (priority := big_or (jget n (js "maxPriorityFeePerGas")) fees.2) in *.
  split_and!; try reflexivity. cbn [canSubmit]. intros Hs. apply Nat.eqb_eq, nil_length_inv in Hs as Hnil.
  apply app_eq_nil in Hnil as [H1 [H2 H3]%app_eq_nil].
  constructor; cbn [canSubmit gasEstimate gasLimit maximumCost maxFeePerGas p_value balance requestedNonce pendingNonce maxPriorityFeePerGas].
  - by apply Nat.eqb_eq.
  - destruct (Z.ltb_spec limit estimate); [done|lia].
  - done.
  - destruct (Z.ltb_spec funds (limit * maxFee + big_or (jget n (js "value")) 0)); [done|lia].
  - by destruct (num_eqb _ pending) eqn:E in H3 |- *.
  - destruct (Z.ltb_spec maxFee (toriumMinimumBaseFeePerGas + priority)); [done|lia].
Qed.
End assess.

(** ** One submission *)

Section wallet.
Context (toLowerCase : jstr → jstr) (isAddress : jstr → bool) (getAddress : jstr → outcome jstr).
Context (serializeTransaction : signed_fields → outcome jstr).
Context (V : Type) (address_now : V → jsv → jsv).
Abbreviation world := (world V).
Abbreviation io := (io world).
Abbreviation normalizeAt v := (normalizeToriumTransactionRequest toLowerCase isAddress getAddress (address_now v)).

(** Steps that ask nothing of the user and submit nothing. *)
Definition quiet {A} (m : io A) : Prop := ∀ w r w', m w = (r, w') → w'.2 = w.2.

Lemma quiet_bind {A B} (m : io A) (f : A → io B) : quiet m → (∀ a, quiet (f a)) → quiet (m ≫= f).
Proof.
  intros Hm Hf w r w' H. unfold mbind, io_bind in H. destruct (m w) as [[a|t] w1] eqn:E.
  - rewrite (Hf a _ _ _ H). by eapply Hm.
  - injection H as <- <-. by eapply Hm.
Qed.

Lemma quiet_lift {A} (r : outcome A) : quiet (lift world r).
Proof. by intros w r' w' [= <- <-]. Qed.

Lemma quiet_signal sig : quiet (check_signal world sig).
Proof. intros w r w'. unfold check_signal. by destruct (sig w); intros [= <- <-]. Qed.

Lemma quiet_outside {A} (m : V → outcome A * V) : quiet (outside V m).
Proof. intros [v log] r w'. unfold outside. cbn. by destruct (m v); intros [= <- <-]. Qed.

Lemma quiet_normalize request : quiet (normalize_now toLowerCase isAddress getAddress V address_now request).
Proof. by intros w r w' [= <- <-]. Qed.

Lemma quiet_account account : quiet (account_now isAddress getAddress V address_now account).
Proof. by intros w r w' [= <- <-]. Qed.

Lemma quiet_read_all pc simulation account : quiet (read_all V pc simulation account).
Proof.
  intros w r w'. unfold read_all.
  destruct (outside V (estimateGas V pc simulation) w) as [r1 w1] eqn:E1.
  destruct (outside V (estimateFeesPerGas V pc) w1) as [r2 w2] eqn:E2.
  destruct (outside V (getBalance V pc account) w2) as [r3 w3] eqn:E3.
  destruct (outside V (getTransactionCount V pc account) w3) as [r4 w4] eqn:E4.
  intros [= <- <-]. apply quiet_outside in E1, E2, E3, E4. congruence.
Qed.

Hint Resolve quiet_lift quiet_signal quiet_outside quiet_normalize quiet_account quiet_read_all : quiet.
Ltac quiet := repeat (first [apply quiet_bind; [|intros ?] | solve [auto with quiet]]).

Abbreviation preflightImpl := (preflightToriumTransactionImpl toLowerCase isAddress getAddress serializeTransaction V address_now).

Lemma quiet_preflight pc request sig : quiet (preflightImpl pc request sig).
Proof.
  unfold preflightToriumTransactionImpl. quiet.
  match goal with |- context [let '(_, _) := ?x in _] => destruct x as [[[estimate fees] funds] pending] end. quiet.
Qed.

Lemma preflight_Done pc request sig w p w' : preflightImpl pc request sig w = (Done p, w') →
  ∃ n, normalizeAt w.1 request = Done n ∧ p_value p = big_or (jget n (js "value")) 0 ∧
    p_to p = nullish_or (jget n (js "to")) JNull ∧ p_data p = nullish_or (jget n (js "data")) (JStr (js "0x")) ∧
    p_accessList p = nullish_or (jget n (js "accessList")) (JArr []) ∧ (canSubmit p = true → affordable p).
Proof.
  unfold preflightToriumTransactionImpl. intros H. apply io_bind_Done in H as ([] & w1 & H1 & H).
  apply check_signal_Done in H1 as ->. apply io_bind_Done in H as (n & w2 & H2 & H).
  unfold normalize_now in H2. injection H2 as H2 <-. exists n. split; [done|].
  apply io_bind_Done in H as (account & w3 & _ & H). apply io_bind_Done in H as (? & w4 & _ & H).
  apply io_bind_Done in H as (observed & w5 & _ & H). apply io_bind_Done in H as (? & w6 & _ & H).
  apply io_bind_Done in H as (? & w7 & _ & H). apply io_bind_Done in H as (? & w8 & _ & H).
  apply io_bind_Done in H as (? & w9 & _ & H). apply io_bind_Done in H as ([[[estimate fees] funds] pending] & w10 & _ & H).
  apply io_bind_Done in H as (? & w11 & _ & H). unfold lift in H. injection H as H _.
  by apply assess_Done in H as (_ & H).
Qed.

(** The outcome of a normalisation does not depend on where the account's
    address stands, only whether there is one does. *)
Lemma normalize_stable v v' request r r' :
  normalizeAt v request = Done r → normalizeAt v' request = Done r' → r = r'.
Proof.
  intros H H'. apply normalize_iff in H as (fs & a & account & to & data & al & -> & Hacc & ->).
  apply normalize_iff in H' as (fs' & a' & account' & to' & data' & al' & [= <-] & Hacc' & ->).
  destruct Hacc, Hacc'. assert (to = to') as -> by congruence. assert (data = data') as -> by congruence.
  assert (al = al') as -> by congruence. f_equal. rewrite acc_kept, acc_kept0.
  destruct (jget (JObj fs) (js "account")); try done.
  unfold getAccountAddress in acc_address, acc_address0. congruence.
Qed.

(** What is submitted for a preflight. *)
Record carries_out (p : preflight) (chain : client_chain) (tx : jsv) : Prop := CarriesOut {
  co_type : jget tx (js "type") = JStr (js "eip1559");
  co_gas : jget tx (js "gas") = JBig (gasLimit p);
  co_nonce : jget tx (js "nonce") = JNum (requestedNonce p);
  co_max : jget tx (js "maxFeePerGas") = JBig (maxFeePerGas p);
  co_priority : jget tx (js "maxPriorityFeePerGas") = JBig (maxPriorityFeePerGas p);
  co_value : big_or (jget tx (js "value")) 0 = p_value p;
  co_to : nullish_or (jget tx (js "to")) JNull = p_to p;
  co_data : nullish_or (jget tx (js "data")) (JStr (js "0x")) = p_data p;
  co_list : nullish_or (jget tx (js "accessList")) (JArr []) = p_accessList p;
  co_chain : jget tx (js "chain") = JNum (chain_id chain)
}.

Definition prepared_updates (p : preflight) : list (jstr * jsv) :=
  [(js "type", JStr (js "eip1559")); (js "gas", JBig (gasLimit p)); (js "nonce", JNum (requestedNonce p));
   (js "maxFeePerGas", JBig (maxFeePerGas p)); (js "maxPriorityFeePerGas", JBig (maxPriorityFeePerGas p))].

Lemma prepared_updates_named p : named (prepared_updates p) ∧ NoDup (map fst (prepared_updates p)).
Proof.
  split; [unfold named; repeat constructor|]. cbn [prepared_updates map fst]. apply (bool_decide_eq_true_1 _). vm_compute. reflexivity.
Qed.

(** The fields of an object after a normalisation. *)
Lemma normalized_get v fs r : NoDup (map fst fs) → normalizeAt v (JObj fs) = Done r →
  (∀ k, k ∈ [js "value"; js "gas"; js "nonce"; js "maxFeePerGas"; js "maxPriorityFeePerGas"] → jget r k = jget (JObj fs) k) ∧
  normalize_to isAddress getAddress (jget (JObj fs) (js "to")) = Done (jget r (js "to")) ∧
  normalize_data toLowerCase (jget (JObj fs) (js "data")) = Done (jget r (js "data")) ∧
  normalizeAccessList toLowerCase isAddress getAddress (jget (JObj fs) (js "accessList")) = Done (jget r (js "accessList")).
Proof.
  intros Hn H. apply normalize_iff in H as (fs' & a & account & to & data & al & [= <-] & Hacc & ->). split_and!.
  - intros k Hk. apply result_kept; [done|]. repeat (apply elem_of_cons in Hk as [->|Hk]; [reflexivity|]). by apply elem_of_nil in Hk.
  - rewrite (result_get fs account to data al (js "to") Hn). apply Hacc.
  - rewrite (result_get fs account to data al (js "data") Hn). apply Hacc.
  - rewrite (result_get fs account to data al (js "accessList") Hn). apply Hacc.
Qed.

Context `{Hv : !wallet_viem toLowerCase isAddress getAddress}.

Lemma prepared_carries_out v0 v1 v2 request snapshot n p prepared chain :
  distinct_keys request → normalizeAt v0 request = Done snapshot → normalizeAt v1 snapshot = Done n →
  p_value p = big_or (jget n (js "value")) 0 → p_to p = nullish_or (jget n (js "to")) JNull →
  p_data p = nullish_or (jget n (js "data")) (JStr (js "0x")) →
  p_accessList p = nullish_or (jget n (js "accessList")) (JArr []) →
  normalizeAt v2 (prepared_fields snapshot p) = Done prepared →
  carries_out p chain (with_chain prepared chain).
Proof using Hv.
  intros Hd H0 H1 Hval Hto Hdata Hlist H2.
  destruct (normalized_typed toLowerCase isAddress getAddress (address_now v0) _ _ Hd H0) as [Ht Hid].
  assert (n = snapshot) as -> by exact (normalize_stable _ _ _ _ _ H1 Hid).
  destruct Ht as [(gs & -> & Hng & _ & _) _ _ _ _ _ _ _ _ _ _ _ _].
  destruct (normalized_get _ _ _ Hng Hid) as (_ & Ito & Idata & Ilist).
  destruct (prepared_updates_named p) as [Hu Hdu].
  assert (prepared_fields (JObj gs) p = JObj (spread gs (prepared_updates p))) as Ep by reflexivity. rewrite Ep in H2.
  pose proof (spread_nodup gs _ Hu Hng) as Hns.
  assert (∀ k, jget (JObj (spread gs (prepared_updates p))) k
    = match jassoc k (prepared_updates p) with Some x => x | None => jget (JObj gs) k end) as Hget.
  { intros k. unfold jget. rewrite jassoc_spread by done. by destruct (jassoc k (prepared_updates p)). }
  destruct (normalized_get _ _ _ Hns H2) as (Hkeep & Pto & Pdata & Plist). rewrite !Hget in Pto, Pdata, Plist.
  assert (distinct_keys (JObj (spread gs (prepared_updates p)))) as Hdp by done.
  destruct (normalized_typed toLowerCase isAddress getAddress (address_now v2) _ _ Hdp H2) as [Htp _].
  destruct Htp as [(ps & -> & Hnp & _ & _) Htype _ _ _ _ _ _ _ _ _ _ _].
  assert (∀ k, (k =s? js "chain") = false → jget (with_chain (JObj ps) chain) k = jget (JObj ps) k) as Hc.
  { intros k Hk. unfold with_chain, jget, spread. cbn [own_fields fold_left fst snd].
    rewrite jassoc_set_own by done. by rewrite Hk. }
  assert (jget (JObj ps) (js "to") = jget (JObj gs) (js "to")) as Eto.
  { change (match jassoc (js "to") (prepared_updates p) with Some x => x | None => jget (JObj gs) (js "to") end)
      with (jget (JObj gs) (js "to")) in Pto. congruence. }
  assert (jget (JObj ps) (js "data") = jget (JObj gs) (js "data")) as Edata.
  { change (match jassoc (js "data") (prepared_updates p) with Some x => x | None => jget (JObj gs) (js "data") end)
      with (jget (JObj gs) (js "data")) in Pdata. congruence. }
  assert (jget (JObj ps) (js "accessList") = jget (JObj gs) (js "accessList")) as Elist.
  { change (match jassoc (js "accessList") (prepared_updates p) with Some x => x | None => jget (JObj gs) (js "accessList") end)
      with (jget (JObj gs) (js "accessList")) in Plist. congruence. }
  constructor; try (rewrite Hc by reflexivity).
  - done.
  - rewrite Hkeep, Hget by (apply jmem_spec; reflexivity). reflexivity.
  - rewrite Hkeep, Hget by (apply jmem_spec; reflexivity). reflexivity.
  - rewrite Hkeep, Hget by (apply jmem_spec; reflexivity). reflexivity.
  - rewrite Hkeep, Hget by (apply jmem_spec; reflexivity). reflexivity.
  - rewrite Hkeep, Hget, Hval by (apply jmem_spec; reflexivity). reflexivity.
  - by rewrite Eto, Hto.
  - by rewrite Edata, Hdata.
  - by rewrite Elist, Hlist.
  - unfold with_chain, jget, spread. cbn [own_fields fold_left fst snd]. rewrite jassoc_set_own by done. by rewrite jeq_refl.
Qed.

(** What a submission may have asked and sent, and with what outcome. *)
Inductive allowed (chain : client_chain) : list event → outcome jstr → Prop :=
| nothing t : allowed chain [] (Fails t)
| asked p granted t : affordable p → allowed chain [Authorization p granted] (Fails t)
| submitted p tx v r : affordable p → carries_out p chain tx →
    getAccountAddress isAddress getAddress (address_now v) (jget tx (js "account")) = Done (p_account p) →
    allowed chain [Authorization p true; Submission tx] r.

Lemma io_bind_cases {A B} (m : io A) (f : A → io B) w r w' : (m ≫= f) w = (r, w') →
  (∃ a w1, m w = (Done a, w1) ∧ f a w1 = (r, w')) ∨ (∃ t, m w = (Fails t, w') ∧ r = Fails t).
Proof.
  unfold mbind, io_bind. destruct (m w) as [[a|t] w1]; [left; eauto|]. intros [= <- <-]. right; eauto.
Qed.

Lemma quiet_cases {A B} (m : io A) (f : A → io B) w r w' : quiet m → (m ≫= f) w = (r, w') →
  (∃ a w1, m w = (Done a, w1) ∧ w1.2 = w.2 ∧ f a w1 = (r, w')) ∨ (w'.2 = w.2 ∧ ∃ t, r = Fails t).
Proof.
  intros Hq [(a & w1 & Hm & H)|(t & Hm & ->)]%io_bind_cases.
  - left. exists a, w1. split_and!; [done| |done]. by eapply Hq.
  - right. split; [by eapply Hq|by eexists].
Qed.

Abbreviation sendImpl := (sendToriumTransactionOnceImpl toLowerCase isAddress getAddress serializeTransaction V address_now).

(** One quiet step: the run stops here, or goes on with the same log. *)
Ltac quiet_step H x w1 Hx Hw :=
  apply quiet_cases in H as [(x & w1 & Hx & Hw & H)|[Hw [t ->]]]; [|exists []; rewrite app_nil_r; split; [congruence|constructor]|quiet].

(** After the question: the log holds it. *)
Lemma asked_stops chain p granted (w w' : world) t : affordable p → w'.2 = w.2 ++ [Authorization p granted] →
  ∃ tail, w'.2 = w.2 ++ tail ∧ allowed chain tail (Fails t).
Proof. intros Hp E. eexists. split; [exact E|by constructor]. Qed.

Lemma ask_user_log authorize p (w : world) r w' : ask_user V authorize p w = (r, w') →
  w'.2 = w.2 ++ [Authorization p (match r with Done b => b | Fails _ => false end)].
Proof. unfold ask_user. destruct (authorize p w.1). by intros [= <- <-]. Qed.

Lemma submit_log c tx (w : world) r w' : submit V c tx w = (r, w') → w'.2 = w.2 ++ [Submission tx].
Proof. unfold submit. destruct (sendTransaction V c tx w.1). by intros [= <- <-]. Qed.

(** The steps from the question on. *)
Definition finish c p prepared authorize sig : io jstr :=
  granted ← ask_user V authorize p;
  lift world (if granted : bool then Done ()
              else Fails (send_error (js "TORIUM_CANCELLED") Cancellation
                     (js "Torium transaction authorization was rejected.") (chain_id (ts_chain V c)) None));;
  check_signal world sig;;
  signer ← account_now isAddress getAddress V address_now (jget prepared (js "account"));
  lift world (if signer =s? p_account p then Done ()
              else Fails (TOther (js_error (js "Error") (js "Torium transaction signer changed after authorization."))));;
  answer ← submit V c (with_chain prepared (ts_chain V c));
  lift world (normalizeToriumHash toLowerCase answer).

Lemma finish_allowed c p prepared authorize sig w r w' :
  affordable p → carries_out p (ts_chain V c) (with_chain prepared (ts_chain V c)) → (∃ ps, prepared = JObj ps) →
  finish c p prepared authorize sig w = (r, w') →
  ∃ tail, w'.2 = w.2 ++ tail ∧ allowed (ts_chain V c) tail r.
Proof.
  intros Hp Hc [ps ->] H. unfold finish in H.
  apply io_bind_cases in H as [(granted & w1 & Ha & H)|(t & Ha & ->)]; apply ask_user_log in Ha; [|by eapply asked_stops].
  apply quiet_cases in H as [([] & w2 & Hg & Hw & H)|[Hw [t ->]]]; [|eapply asked_stops; [done|rewrite Hw, Ha; reflexivity]|apply quiet_lift].
  destruct granted; [|done].
  apply quiet_cases in H as [([] & w3 & _ & Hw2 & H)|[Hw2 [t ->]]]; [|eapply asked_stops; [done|rewrite Hw2, Hw, Ha; reflexivity]|apply quiet_signal].
  apply quiet_cases in H as [(signer & w4 & Hs & Hw3 & H)|[Hw3 [t ->]]]; [|eapply asked_stops; [done|rewrite Hw3, Hw2, Hw, Ha; reflexivity]|apply quiet_account].
  apply quiet_cases in H as [([] & w5 & He & Hw4 & H)|[Hw4 [t ->]]]; [|eapply asked_stops; [done|rewrite Hw4, Hw3, Hw2, Hw, Ha; reflexivity]|apply quiet_lift].
  assert (w'.2 = w.2 ++ [Authorization p true; Submission (with_chain (JObj ps) (ts_chain V c))]) as Hlog.
  { apply io_bind_cases in H as [(answer & w6 & Hsub & H)|(t & Hsub & ->)]; apply submit_log in Hsub.
    - unfold lift in H. injection H as _ <-. rewrite Hsub, Hw4, Hw3, Hw2, Hw, Ha. by rewrite <- app_assoc.
    - rewrite Hsub, Hw4, Hw3, Hw2, Hw, Ha. by rewrite <- app_assoc. }
  eexists. split; [exact Hlog|]. unfold account_now in Hs. injection Hs as Hs _.
  apply (submitted _ p _ w3.1); [done|done|].
  unfold lift in He. destruct (signer =s? p_account p) eqn:E; [|done]. apply jeq_spec in E as <-. rewrite <- Hs. f_equal.
  unfold with_chain, jget, spread. cbn [own_fields fold_left fst snd]. by rewrite jassoc_set_own.
Qed.

Lemma send_allowed c pc request authorize sig w r w' :
  distinct_keys request → sendImpl c pc request authorize sig w = (r, w') →
  ∃ tail, w'.2 = w.2 ++ tail ∧ allowed (ts_chain V c) tail r.
Proof using Hv.
  intros Hd H. unfold sendToriumTransactionOnceImpl in H.
  quiet_step H u1 w1 H1 E1. quiet_step H u2 w2 H2 E2. quiet_step H u3 w3 H3 E3. quiet_step H u4 w4 H4 E4.
  quiet_step H snapshot w5 H5 E5. apply quiet_cases in H as [(p & w6 & H6 & E6 & H)|[E6 [t ->]]];
    [|exists []; rewrite app_nil_r; split; [congruence|constructor]|apply quiet_preflight].
  quiet_step H u7 w7 H7 E7. quiet_step H prepared w8 H8 E8. quiet_step H u9 w9 H9 E9.
  change (finish c p prepared authorize sig w9 = (r, w')) in H.
  unfold normalize_now in H5, H8. injection H5 as H5 _. injection H8 as H8 _.
  apply preflight_Done in H6 as (n & Hn & Hval & Hto & Hdata & Hlist & Haff).
  assert (canSubmit p = true) as Hs by (unfold lift in H7; by destruct (canSubmit p)).
  assert (∃ ps, prepared = JObj ps) as Hps.
  { apply normalize_iff in H8 as (fs & a & account & to & data & al & _ & _ & ->). by eexists. }
  destruct (finish_allowed c p prepared authorize sig w9 r w' (Haff Hs)) as (tail & E & Ha); [|done|done|].
  - by eapply (prepared_carries_out w4.1 w5.1 w7.1 request snapshot n).
  - exists tail. split; [|done]. rewrite E. congruence.
Qed.

Context (user_aborted timer_fired : world → bool).
Context (now : world → Z) (random : world → num) (wait : num → world → world).
Abbreviation sendToriumTransactionOnce :=
  (sendToriumTransactionOnce toLowerCase isAddress getAddress serializeTransaction V address_now
     user_aborted timer_fired now random wait).

(** C11. Nothing is submitted that the user did not grant, and nothing twice:
    whatever the endpoint, the clocks, the account object and the user do, one
    call asks at most once, and only for a preflight whose estimate fits its gas,
    whose full cost the balance covers, whose nonce is the pending one and whose
    fee covers the base fee; it submits at most one transaction, only after the
    answer true, with the gas, nonce, fees, value, target, data, access list and
    chain of that very preflight and from an account that still has the address
    shown to the user; and it succeeds only if it submitted. *)
Theorem submits_once_as_authorized c pc request authorize options v log r w' trace :
  distinct_keys request →
  sendToriumTransactionOnce c pc request authorize options (v, log) = (r, w', trace) →
  ∃ tail, w'.2 = log ++ tail ∧
    (tail = [] ∨ (∃ p granted, tail = [Authorization p granted] ∧ affordable p) ∨
     (∃ p tx v', tail = [Authorization p true; Submission tx] ∧ affordable p ∧ carries_out p (ts_chain V c) tx ∧
        getAccountAddress isAddress getAddress (address_now v') (jget tx (js "account")) = Done (p_account p))) ∧
    (∀ hash, r = Done hash → ∃ p tx, tail = [Authorization p true; Submission tx]).
Proof using Hv.
  intros Hd H. unfold SdkWallet.sendToriumTransactionOnce in H.
  apply write_action_world in H as [[-> [t ->]]|(sig & r' & Hs & Hr)].
  { exists []. rewrite app_nil_r. split_and!; [done|by left|done]. }
  destruct (send_allowed _ _ _ _ _ _ _ _ Hd Hs) as (tail & E & Ha). exists tail. split; [exact E|]. split.
  - destruct Ha; [by left|right; left; by eexists _, _|right; right; by eexists _, _, _].
  - intros hash ->. specialize (Hr hash eq_refl) as ->. inversion Ha; subst. by eexists _, _.
Qed.
End wallet.

(** ** Witnesses *)

Module Samples.
Import SdkUtilsFacts.Samples.

#[export] Instance sample_wallet : wallet_viem to_lower isAddress getAddress.
Proof.
  constructor; [|done]. intros s c Hs. unfold getAddress. rewrite Hs. intros [= <-]. split; [done|by rewrite Hs].
Qed.

Definition sender_text : jstr := js "0x00112233445566778899aabbccddeeff00112233".
Definition target_text : jstr := js "0x0000000000000000000000000000000000000042".

Definition sample_request : jsv :=
  JObj [(js "account", JStr sender_text); (js "to", JStr target_text); (js "value", JBig 5);
        (js "data", JStr (js "0xAbCd")); (js "nonce", JNum (NInt 7))].

Lemma normalized_request_well_typed_witness :
  ∃ r, normalizeToriumTransactionRequest to_lower isAddress getAddress (λ v, v) sample_request = Done r ∧
    normal_request isAddress getAddress r ∧
    normalizeToriumTransactionRequest to_lower isAddress getAddress (λ v, v) r = Done r.
Proof.
  eexists. split; [vm_compute; reflexivity|].
  apply (normalized_request_well_typed to_lower isAddress getAddress (λ v, v) sample_request);
    [apply all_distinct_spec; vm_compute; reflexivity|vm_compute; reflexivity].
Defined.

Definition sample_hash : jstr := js "0x00112233445566778899aabbccddeeff00112233445566778899aabbccddeeff".

Definition sample_preflight_client : preflight_client unit :=
  PreflightClient unit toriumTestnet (λ w, (Done (NInt 1414484564), w)) (λ _ w, (Done (), w)) (λ _ w, (Done 21000, w))
    (λ w, (Done (3000000000, 2), w)) (λ _ w, (Done 1000000000000000000, w)) (λ _ w, (Done (NInt 7), w)).

Definition sample_sender : transaction_sender unit :=
  TransactionSender unit toriumTestnet (λ _ w, (Done (JStr sample_hash), w)).

Definition sample_run : outcome jstr * world unit * list entry :=
  sendToriumTransactionOnce to_lower isAddress getAddress (λ _, Done (js "0x02")) unit (λ _ v, v) (λ _, false) (λ _, false)
    (λ _, 0) (λ _, NInt 0) (λ _ w, w) sample_sender sample_preflight_client sample_request
    (λ p w, (Done (maximumCost p <=? 100000000000000), w)) default_options ((), []).

Lemma submits_once_as_authorized_witness :
  sample_run.1.1 = Done sample_hash ∧ ∃ p tx, sample_run.1.2.2 = [Authorization p true; Submission tx].
Proof.
  assert (sample_run.1.1 = Done sample_hash) as H by (vm_compute; reflexivity). split; [exact H|].
  destruct (submits_once_as_authorized to_lower isAddress getAddress (λ _, Done (js "0x02")) unit (λ _ v, v)
    (λ _, false) (λ _, false) (λ _, 0) (λ _, NInt 0) (λ _ w, w) sample_sender sample_preflight_client sample_request
    (λ p w, (Done (maximumCost p <=? 100000000000000), w)) default_options () [] sample_run.1.1 sample_run.1.2 sample_run.2
    ltac:(apply all_distinct_spec; vm_compute; reflexivity) (triple_eta sample_run)) as (tail & E & _ & Hh).
  destruct (Hh _ H) as (p & tx & ->). exists p, tx. exact E.
Defined.
End Samples.
