(* ===== verification/SdkViem.v ===== *)
(** What the SDK's contract helpers rely on viem for: words of ABI encodings,
    checksummed addresses and hashes as the contracts see them, an instance of
    it, and how the helpers read well-typed answers. *)

From S2P Require Import Prelude JsNum JsText JsValue JsRegex RewardTree RewardTreeFacts Attestation HexFacts Evm.
From S2P Require Import SdkValue SdkErrors SdkExecution SdkContracts SdkContractsFacts SdkRewards.

Open Scope Z_scope.

(** ** Arguments *)

Lemma assertToriumUint256_Done v z : assertToriumUint256 v = Done z ↔ z = v ∧ uint256 v.
Proof.
  unfold assertToriumUint256, uint256. destruct ((v <? 0) || (UINT256_MAX <? v)) eqn:E; split; try done.
  - intros [_ H]. apply orb_true_iff in E as [E|E]; lia.
  - intros [= <-]. apply orb_false_iff in E as [E1 E2]. split; [done|lia].
  - by intros [-> _].
Qed.

Lemma assertToriumUint256_ok v : uint256 v → assertToriumUint256 v = Done v.
Proof. intros H. by apply assertToriumUint256_Done. Qed.

(** ** Answers *)

Lemma parseUint_big z d l : uint256 z → parseUint (JBig z) d l = Done z.
Proof.
  intros Hz. unfold parseUint. replace (0 <=? z) with true by (destruct Hz; lia).
  by apply assertToriumUint256_ok.
Qed.

Lemma parseUint_int z d l : 0 ≤ z ≤ max_safe → parseUint (JNum (NInt z)) d l = Done z.
Proof.
  intros Hz. unfold parseUint. assert (is_safe_integer (NInt z) = true) as ->.
  { apply is_safe_integer_spec. exists z. split; [done|]. lia. }
  rewrite (num_leb_int _ _ 0 z) by done. by replace (0 <=? z) with true by lia.
Qed.

Lemma is_hash_text_bytes32 s : is_bytes32 s = true → is_hash_text s = true ∧ to_lower s = s.
Proof.
  intros H. pose proof (is_bytes32_hash_text s H) as [_ E]. split; [|done].
  unfold is_bytes32 in H. destruct (strip_0x s) as [ds|] eqn:Es; [|done].
  apply strip_0x_Some in Es as [-> _]. apply andb_prop in H as [Hl Hd].
  change ((Nat.eqb (length ds) 64) && forallb is_hex_i ds = true). rewrite Hl. cbn [andb].
  rewrite forallb_forall in Hd |- *. intros c Hc. unfold is_hex_i, is_hex. by rewrite Hd.
Qed.

(** Bytes of a fixed length. *)
Definition word (n : nat) (b : list Z) : Prop := length b = n ∧ Forall byte b.

Lemma bytes_text_hash b : word 32 b → hash_text (bytes_text b) = true.
Proof. intros [Hl Hb]. by apply is_bytes32_hash_text, bytes_text_32. Qed.

Lemma parseHashValue_bytes b d l : word 32 b → parseHashValue (JStr (bytes_text b)) d l = Done (bytes_text b).
Proof.
  intros [Hl Hb]. destruct (is_hash_text_bytes32 _ (bytes_text_32 b Hb Hl)) as [H1 H2].
  unfold parseHashValue. by rewrite H1, H2.
Qed.

Lemma bytes_text_zero b : word 32 b → (bytes_text b =s? zeroHash) = bool_decide (b = zero32).
Proof. intros Hb. rewrite zeroHash_bytes by (by apply bytes_text_hash). by rewrite hexBytes_text by apply Hb. Qed.

Lemma jeq_comm a b : (a =s? b) = (b =s? a).
Proof.
  destruct (b =s? a) eqn:E; [by apply jeq_spec; symmetry; apply jeq_spec|].
  apply jeq_neq. apply jeq_neq in E. congruence.
Qed.

(** Lower-case text of 32 bytes is the text of those bytes. *)
Lemma bytes_text_of_bytes32 s b : is_bytes32 s = true → word 32 b → (bytes_text b =s? s) = bool_decide (b = hexBytes s).
Proof.
  intros Hs [Hl Hb]. destruct (bytes_text b =s? s) eqn:E; symmetry.
  - apply bool_decide_eq_true_2. apply jeq_spec in E as <-. by rewrite hexBytes_text.
  - apply bool_decide_eq_false_2. intros ->. apply not_true_iff_false in E. apply E, jeq_spec.
    apply hexBytes_inj; [by apply bytes32_hex, bytes_text_32|by apply bytes32_hex|by rewrite hexBytes_text].
Qed.

(** ** Lists of blockers *)

Lemma elem_of_push_if {A} b (y : A) l z : z ∈ push_if b y l ↔ z ∈ l ∨ (b = true ∧ z = y).
Proof. destruct b; simpl; [rewrite elem_of_app, list_elem_of_singleton|]; naive_solver. Qed.

Lemma blockers_nil {A} (l : list A) : Nat.eqb (length l) 0 = true ↔ ∀ x, x ∉ l.
Proof.
  rewrite Nat.eqb_eq. split; [intros ->%nil_length_inv x; apply not_elem_of_nil|].
  destruct l as [|x l]; [done|]. intros H. exfalso. apply (H x), list_elem_of_here.
Qed.

(** ** The interface *)

Section viem.
Context (keccak256 : jstr → jstr).
Context (encodeAbiParameters : list jstr → list jsv → outcome jstr).
Context (getAddress : jstr → outcome jstr).
Context (toLowerCase : jstr → jstr).
(** The checksummed text of an address, and the EVM's hash. *)
Context (address_text : Evm.address → jstr).
Context (evm_keccak256 : list Z → bytes32).

(** A value of an ABI type and the word it encodes to. *)
Inductive abi_word : jstr → jsv → list Z → Prop :=
| word_bytes32 h : hash_text h = true → abi_word (js "bytes32") (JStr h) (hexBytes h)
| word_uint256 z : uint256 z → abi_word (js "uint256") (JBig z) (be_word 32 z)
| word_uint32 n : is_integer n = true → 0 ≤ num_Z n < 2 ^ 32 →
    abi_word (js "uint32") (JNum n) (be_word 32 (num_Z n))
| word_address a : getAddress a = Done a → length (hexBytes a) = 20%nat →
    abi_word (js "address") (JStr a) (address_word (hexBytes a)).

Inductive abi_words : list jstr → list jsv → list Z → Prop :=
| words_nil : abi_words [] [] []
| words_cons t v w ts vs b : abi_word t v w → abi_words ts vs b → abi_words (t :: ts) (v :: vs) (w ++ b).

(** keccak256 is the EVM's hash of the bytes, in lower-case text; getAddress
    gives one text per address; static values encode to their words; and
    String.prototype.toLowerCase is ASCII on ASCII. *)
Class sdk_viem : Prop := {
  sv_keccak s : hexBytes (keccak256 s) = evm_keccak256 (hexBytes s);
  sv_digest s : is_bytes32 (keccak256 s) = true;
  sv_address a a' : getAddress a = Done a' → getAddress a' = Done a' ∧ word 20 (hexBytes a');
  sv_distinct a b : getAddress a = Done a → getAddress b = Done b → hexBytes a = hexBytes b → a = b;
  sv_text a : word 20 a → getAddress (address_text a) = Done (address_text a) ∧ hexBytes (address_text a) = a;
  sv_encode ts vs b : abi_words ts vs b → ∃ t, encodeAbiParameters ts vs = Done t ∧ hexBytes t = b;
  sv_lower s : forallb (λ c, (c <? 128)%N) s = true → toLowerCase s = to_lower s
}.

Context `{Hv : !sdk_viem}.

Lemma getAddress_word a : getAddress a = Done a → abi_word (js "address") (JStr a) (address_word (hexBytes a)).
Proof. intros H. constructor; [done|]. by apply (sv_address a). Qed.

Lemma parseAddressValue_bytes a d l :
  word 20 a → parseAddressValue getAddress (JStr (address_text a)) d l = Done (address_text a).
Proof. intros Ha. unfold parseAddressValue. by rewrite (proj1 (sv_text a Ha)). Qed.

Lemma address_text_eq a b : word 20 a → getAddress b = Done b → (address_text a =s? b) = bool_decide (a = hexBytes b).
Proof.
  intros [Ht He]%sv_text Hb. destruct (address_text a =s? b) eqn:E; symmetry.
  - apply bool_decide_eq_true_2. by apply jeq_spec in E as <-.
  - apply bool_decide_eq_false_2. intros Heq. apply not_true_iff_false in E. apply E, jeq_spec.
    apply sv_distinct; [done|done|]. congruence.
Qed.

Lemma hash_text_ascii s : hash_text s = true → forallb (λ c, (c <? 128)%N) s = true.
Proof.
  intros (ds & -> & _ & Hd & _)%hash_text_cases. cbn [forallb]. cbn. induction ds as [|c ds IH]; [done|].
  change (to_lower (c :: ds)) with (lower_char c :: to_lower ds) in Hd. cbn [forallb] in *.
  apply andb_prop in Hd as [Hc Hd]. rewrite (IH Hd), andb_true_r.
  apply is_hex_lower in Hc as [Hc _]. unfold is_hex, is_lower_hex, is_digit in Hc.
  apply N.ltb_lt. repeat (apply orb_true_iff in Hc as [Hc|Hc]); apply in_range_spec in Hc; lia.
Qed.

Lemma lower_hash s : hash_text s = true → toLowerCase s = to_lower s.
Proof. intros H. apply sv_lower. by apply hash_text_ascii. Qed.
End viem.

Arguments sv_keccak {_ _ _ _ _ _ _} _.
Arguments sv_digest {_ _ _ _ _ _ _} _.
Arguments sv_address {_ _ _ _ _ _ _} _ _ _.
Arguments sv_distinct {_ _ _ _ _ _ _} _ _ _ _ _.
Arguments sv_text {_ _ _ _ _ _ _} _ _.
Arguments sv_encode {_ _ _ _ _ _ _} _ _ _ _.
Arguments sv_lower {_ _ _} _ {_ _ _} _ _.
Arguments getAddress_word {_ _ _ _ _ _ _} _ _.
Arguments parseAddressValue_bytes {_ _ _ _ _ _ _} _ _ _ _.
Arguments address_text_eq {_ _ _ _ _ _ _} _ _ _ _.
Arguments lower_hash {_ _ _} _ {_ _ _} _ _.

(** One word after another, by the constructors. *)
Ltac encode_words := repeat (apply words_cons; [first [eassumption|by constructor|by apply getAddress_word]|]); apply words_nil.

(** ** An instance *)

Module Samples.
Definition hash_of (b : list Z) : bytes32 :=
  be_word 32 (foldr (λ x a, (31 * a + x + 7) mod 1000003) 1 b).
Definition keccak256 (s : jstr) : jstr := bytes_text (hash_of (hexBytes s)).

Definition word_of (v : jsv) : list Z :=
  match v with
  | JBig z => be_word 32 z
  | JNum n => be_word 32 (num_Z n)
  | JStr s => if Nat.eqb (length s) 42 then address_word (hexBytes s) else hexBytes s
  | _ => []
  end.
Definition encode (types : list jstr) (values : list jsv) : outcome jstr :=
  Done (bytes_text (concat (map word_of values))).

(** Lower-case text stands for the checksummed one. *)
Definition getAddress (s : jstr) : outcome jstr :=
  if is_hex_bytes s && Nat.eqb (length s) 42 then Done s else throw_range_error (js "Invalid address").

Lemma hexBytes_byte s : Forall byte (hexBytes s).
Proof. apply bytes_of_hex_bytes. Qed.

Lemma getAddress_Done a b : getAddress a = Done b → b = a ∧ is_hex_bytes a = true ∧ length a = 42%nat.
Proof. unfold getAddress. destruct (_ && _) eqn:E; [|done]. apply andb_prop in E as [? E%Nat.eqb_eq]. by intros [= <-]. Qed.

Lemma word_of_spec t v w : abi_word getAddress t v w → word_of v = w ∧ Forall byte w.
Proof.
  intros []; cbn [word_of]; try (by split; [|apply be_word_bytes]).
  - split; [|apply hexBytes_byte]. assert (∃ ds, h = 48%N :: 120%N :: ds ∧ length ds = 64%nat) as (ds & -> & Hl).
    { apply hash_text_cases in H as (ds & ? & ? & _). eauto. }
    cbn [length]. by rewrite Hl.
  - apply getAddress_Done in H as (_ & _ & Hl). rewrite Hl. split; [done|].
    unfold address_word. apply Forall_app. split; [unfold byte; repeat constructor; lia|apply hexBytes_byte].
Qed.

Lemma encode_spec ts vs b : abi_words getAddress ts vs b → concat (map word_of vs) = b ∧ Forall byte b.
Proof.
  induction 1 as [|t v w ts vs b [Hw Hb]%word_of_spec _ [IH1 IH2]]; [by split|].
  cbn [map concat]. rewrite Hw, IH1. split; [done|]. by apply Forall_app.
Qed.

#[export] Instance sample_viem : sdk_viem keccak256 encode getAddress to_lower bytes_text hash_of.
Proof.
  assert (∀ b, word 32 (hash_of b)) as Hh by (intros b; split; [apply be_word_length|apply be_word_bytes]).
  constructor.
  - intros s. apply hexBytes_text, Hh.
  - intros s. apply bytes_text_32; apply Hh.
  - intros a a' (-> & Hx & Hl)%getAddress_Done. split; [unfold getAddress; by rewrite Hx, Hl|].
    split; [|apply hexBytes_byte]. destruct (hex_bytes_digits a Hx) as [_ H]. lia.
  - intros a b (_ & Ha & _)%getAddress_Done (_ & Hb & _)%getAddress_Done. by apply hexBytes_inj.
  - intros a [Hl Hb]. split; [|by apply hexBytes_text]. destruct (hex_of_bytes_format a Hb) as [Hn Hf].
    unfold getAddress, is_hex_bytes, bytes_text. change (strip_0x (js "0x" +++ ?l)) with (Some l).
    cbv beta iota. rewrite Hn, Hl, Hf. change (length (js "0x" +++ ?l)) with (S (S (length l))).
    by rewrite Hn, Hl.
  - intros ts vs b [<- Hb]%encode_spec. eexists. split; [reflexivity|]. by apply hexBytes_text.
  - done.
Qed.
End Samples.
