(* ===== verification/SdkRewardsFacts.v ===== *)
(** The SDK's reward helpers against the contract: the proof it rebuilds is the
    contract's, and the preflight of a claim says what the contract would do. *)

From S2P Require Import Prelude JsNum JsText JsValue JsRegex RewardTree RewardTreeFacts Attestation HexFacts Evm Distributor.
From S2P Require Import SdkValue SdkErrors SdkExecution SdkExecutionFacts SdkContracts SdkContractsFacts SdkRewards SdkViem DistributorFacts.

Open Scope Z_scope.

Section proofs.
Context (keccak256 : jstr → jstr).
Context (encodeAbiParameters : list jstr → list jsv → outcome jstr).
Context (getAddress : jstr → outcome jstr).
Context (toLowerCase : jstr → jstr).
Context (evm_keccak256 : list Z → bytes32).

Context (address_text : Evm.address → jstr).
Context `{Hv : !sdk_viem keccak256 encodeAbiParameters getAddress toLowerCase address_text evm_keccak256}.

Lemma leaf_encoding e i a z :
  uint256 e → uint256 i → getAddress a = Done a → uint256 z →
  ∃ t, encodeAbiParameters LEAF_TYPES [JBig e; JBig i; JStr a; JBig z] = Done t ∧
    hexBytes t = be_word 32 e ++ be_word 32 i ++ address_word (hexBytes a) ++ be_word 32 z.
Proof.
  intros He Hi Ha Hz. rewrite <- (app_nil_r (be_word 32 z)). refine (sv_encode _ _ _ _). encode_words.
Qed.

Lemma node_encoding h1 s1 h2 s2 :
  hash_text h1 = true → uint256 s1 → hash_text h2 = true → uint256 s2 →
  ∃ t, encodeAbiParameters NODE_TYPES [JStr h1; JBig s1; JStr h2; JBig s2] = Done t ∧
    hexBytes t = hexBytes h1 ++ be_word 32 s1 ++ hexBytes h2 ++ be_word 32 s2.
Proof.
  intros H1 Hs1 H2 Hs2. rewrite <- (app_nil_r (be_word 32 s2)). refine (sv_encode _ _ _ _). encode_words.
Qed.

(** A well-formed proof node: 32-byte text and a uint256. *)
Definition node_ok (n : ToriumRewardProofNode) : Prop := hash_text (pn_nodeHash n) = true ∧ uint256 (pn_sum n).
Definition to_contract (n : ToriumRewardProofNode) : ProofNode := MkProofNode (hexBytes (pn_nodeHash n)) (pn_sum n).

(** Both sides: the same result, or both refuse. *)
Definition agree {A B} (R : A → B → Prop) (x : outcome A) (y : evm_call Distributor.revert B) : Prop :=
  match x, y with
  | Done a, Returns b => R a b
  | Fails _, Reverts _ => True
  | _, _ => False
  end.

Definition same_node (n : ToriumRewardProofNode) (r : bytes32 * Z) : Prop :=
  node_ok n ∧ is_bytes32 (pn_nodeHash n) = true ∧ r = (hexBytes (pn_nodeHash n), pn_sum n).

Lemma digest_node t s : uint256 s → same_node (ProofEntry (keccak256 t) s) (evm_keccak256 (hexBytes t), s).
Proof.
  intros Hs. pose proof (sv_digest t) as Hd. unfold same_node, node_ok.
  cbn [pn_nodeHash pn_sum]. rewrite sv_keccak. split_and!; try done. by apply is_bytes32_hash_text.
Qed.

Lemma node_agrees a b :
  node_ok a → node_ok b →
  agree same_node (hashToriumRewardNode keccak256 encodeAbiParameters toLowerCase a b)
    (hashNode evm_keccak256 (hexBytes (pn_nodeHash a)) (pn_sum a) (hexBytes (pn_nodeHash b)) (pn_sum b)).
Proof.
  intros [Ha Hsa] [Hb Hsb]. unfold hashToriumRewardNode, hashNode.
  rewrite !assertToriumUint256_ok by done. cbn [mbind outcome_bind].
  unfold assertToriumUint256, checked_add. replace (pn_sum a + pn_sum b <? 0) with false
    by (destruct Hsa, Hsb; lia). cbn [orb].
  destruct (UINT256_MAX <? pn_sum a + pn_sum b) eqn:E; [done|]. cbn [mbind outcome_bind revert_if call_bind].
  assert (uint256 (pn_sum a + pn_sum b)) as Hsum by (destruct Hsa, Hsb; split; lia).
  rewrite !(lower_hash toLowerCase), (hash_order _ _ Ha Hb) by done.
  destruct (_ || _).
  - destruct (node_encoding _ _ _ _ Ha Hsa Hb Hsb) as (t & -> & Ht). cbn [mbind outcome_bind agree].
    rewrite <- Ht. by apply digest_node.
  - destruct (node_encoding _ _ _ _ Hb Hsb Ha Hsa) as (t & -> & Ht). cbn [mbind outcome_bind agree].
    rewrite <- Ht. by apply digest_node.
Qed.

Lemma proof_from_agrees i proof a :
  node_ok a → Forall node_ok proof →
  agree (λ n r, uint256 (pn_sum n) ∧ r = (hexBytes (pn_nodeHash n), pn_sum n) ∧ hash_text (pn_nodeHash n) = true ∧
               (proof ≠ [] → is_bytes32 (pn_nodeHash n) = true) ∧ (proof = [] → n = a))
    (reward_proof_from keccak256 encodeAbiParameters toLowerCase i a proof)
    (processProof_from evm_keccak256 i (hexBytes (pn_nodeHash a)) (pn_sum a) (map to_contract proof)).
Proof.
  revert i a. induction proof as [|n proof IH]; intros i a Ha Hp; [by destruct Ha|].
  apply Forall_cons in Hp as [Hn Hp]. cbn [reward_proof_from map processProof_from].
  cbn [to_contract nodeHash node_sum]. change zero32 with (replicate 32 0).
  rewrite (zeroHash_bytes (pn_nodeHash n)) by apply Hn.
  destruct (bool_decide _ || _); [done|]. cbn [revert_if mbind call_bind].
  pose proof (node_agrees a n Ha Hn) as H.
  destruct (hashToriumRewardNode _ _ _ a n) as [b|], (hashNode _ _ _ _ _) as [[h s]|]; try done.
  destruct H as (Hb & Hb32 & [= -> ->]). cbn [mbind outcome_bind call_bind].
  specialize (IH (i + 1) b Hb Hp).
  destruct (reward_proof_from _ _ _ _ b proof), (processProof_from _ _ _ _ _); try done.
  destruct IH as (H1 & H2 & H3 & H4 & H5). split_and!; try done. intros _.
  destruct proof; [by rewrite H5|by apply H4].
Qed.

(** What an SDK result and a contract result have in common. *)
Definition same_root (r : jstr * Z) (r' : bytes32 * Z) : Prop :=
  is_bytes32 (fst r) = true ∧ r' = (hexBytes (fst r), snd r).

Lemma processProof_same leaf proof a :
  getAddress (cl_account leaf) = Done a → uint256 (cl_epochId leaf) → uint256 (cl_index leaf) →
  uint256 (cl_amount leaf) → Forall node_ok proof →
  agree same_root
    (processToriumRewardProof keccak256 encodeAbiParameters getAddress toLowerCase leaf proof)
    (processProof evm_keccak256 (cl_epochId leaf) (cl_index leaf) (hexBytes a) (cl_amount leaf)
       (map to_contract proof)).
Proof.
  intros Ha He Hi Hz Hp. unfold processToriumRewardProof, hashToriumRewardLeaf.
  rewrite !assertToriumUint256_ok by done. rewrite Ha. cbn [mbind outcome_bind].
  destruct (leaf_encoding _ _ _ _ He Hi (proj1 (sv_address _ _ Ha)) Hz) as (t & -> & Ht). cbn [mbind outcome_bind].
  unfold processProof, leafHash. rewrite <- Ht, <- sv_keccak.
  destruct (digest_node t (cl_amount leaf) Hz) as (Hok & H32 & _).
  pose proof (proof_from_agrees 0 proof (ProofEntry (keccak256 t) (cl_amount leaf)) Hok Hp) as H.
  cbn [pn_nodeHash pn_sum] in H.
  destruct (reward_proof_from _ _ _ _ _ proof) as [n|], (processProof_from _ _ _ _ _); try done.
  destruct H as (_ & -> & _ & H4 & H5). cbn. split; [|done].
  destruct proof; [by rewrite H5|by apply H4].
Qed.
End proofs.

(** ** The preflight of a claim *)

(** The values of an epoch that the contract's types admit. *)
Record epoch_typed (e : Epoch) : Prop := {
  typed_root : word 32 (rootHash e);
  typed_funded : uint256 (funded e);
  typed_start : uint256 (claimStart e);
  typed_end : uint256 (claimEnd e);
  typed_claimed : uint256 (claimed e);
  typed_clawed : uint256 (clawed e)
}.

(** What viem decodes [epochs(id)] to. *)
Definition epoch_value (e : Epoch) : jsv :=
  JArr [JStr (bytes_text (rootHash e)); JBig (funded e); JBig (claimStart e); JBig (claimEnd e);
        JBig (claimed e); JBig (clawed e)].

Definition epoch_seen (id : Z) (e : Epoch) : ToriumRewardEpoch :=
  RewardEpoch id (bytes_text (rootHash e)) (funded e) (claimStart e) (claimEnd e) (claimed e) (clawed e).

Lemma parseRewardEpoch_seen e d id :
  epoch_typed e →
  parseRewardEpoch (epoch_value e) d id = Done (if decide (rootHash e = zero32) then None else Some (epoch_seen id e)).
Proof.
  intros [Hr H1 H2 H3 H4 H5]. unfold parseRewardEpoch, epoch_value.
  rewrite parseHashValue_bytes by done. cbn [mbind outcome_bind].
  rewrite bytes_text_zero by done. destruct (decide (rootHash e = zero32)) as [E|E].
  - by rewrite bool_decide_eq_true_2.
  - rewrite bool_decide_eq_false_2 by done. by rewrite !parseUint_big.
Qed.

(** A chain at a fixed block: the endpoint answers from the storage and the
    block's time. *)
Record chain_answers {W} (endpoint : request → W → outcome jsv * W) (d : ToriumContractDeployment)
    (s : storage) (t : Z) : Prop := {
  answer_epoch id w :
    endpoint (readRewardFunction d (js "epochs") (Some [JBig id])) w = (Done (epoch_value (epoch_at s id)), w);
  answer_claimed id i w :
    endpoint (readRewardFunction d (js "isClaimed") (Some [JBig id; JBig i])) w = (Done (JBool (isClaimed s id i)), w);
  answer_paused w : endpoint (readRewardFunction d (js "paused") None) w = (Done (JBool (paused s)), w);
  answer_block w : endpoint GetBlock w = (Done (JObj [(js "timestamp", JBig t)]), w)
}.

(** When each blocker is reported. *)
Definition blocked (s : storage) (t : Z) (id index : Z) (computed : option (bytes32 * Z))
    (b : ToriumRewardClaimBlocker) : Prop :=
  let e := epoch_at s id in
  match b with
  | epoch_not_found => rootHash e = zero32
  | distributor_paused => paused s = true
  | claim_not_started => rootHash e ≠ zero32 ∧ t < claimStart e
  | claim_window_closed => rootHash e ≠ zero32 ∧ claimEnd e ≤ t
  | already_claimed => isClaimed s id index = true
  | malformed_proof => computed = None
  | invalid_proof => rootHash e ≠ zero32 ∧ ∃ r, computed = Some r ∧ r ≠ (rootHash e, funded e)
  end.

Section preflight.
Context (keccak256 : jstr → jstr).
Context (encodeAbiParameters : list jstr → list jsv → outcome jstr).
Context (getAddress : jstr → outcome jstr).
Context (toLowerCase : jstr → jstr) (W : Type) (user_aborted timer_fired : W → bool).
Context (now : W → Z) (random : W → num) (wait : num → W → W).
Context (endpoint : request → W → outcome jsv * W).
Context (evm_keccak256 : list Z → bytes32).
Context (address_text : Evm.address → jstr).
Context `{Hv : !sdk_viem keccak256 encodeAbiParameters getAddress toLowerCase address_text evm_keccak256}.

Abbreviation judge := (judge_claim keccak256 encodeAbiParameters getAddress toLowerCase).
Abbreviation contract_proof := (processProof evm_keccak256).

(** The contract's root, when the proof does not revert. *)
Definition contract_root (id index : Z) (account : Evm.address) (amount : Z) (proof : list ProofNode)
    : option (bytes32 * Z) :=
  match contract_proof id index account amount proof with Returns r => Some r | Reverts _ => None end.

Lemma judge_claim_blockers d leaf proof s t a :
  getAddress (cl_account leaf) = Done a → uint256 (cl_epochId leaf) → uint256 (cl_index leaf) →
  uint256 (cl_amount leaf) → Forall node_ok proof → uint256 t → epoch_typed (epoch_at s (cl_epochId leaf)) →
  ∃ p, judge d leaf proof
         [epoch_value (epoch_at s (cl_epochId leaf)); JBool (isClaimed s (cl_epochId leaf) (cl_index leaf));
          JBool (paused s); JObj [(js "timestamp", JBig t)]] = Done p ∧
    (canClaim p = true ↔ ∀ b, b ∉ cp_blockers p) ∧
    ∀ b, b ∈ cp_blockers p ↔
      blocked s t (cl_epochId leaf) (cl_index leaf)
        (contract_root (cl_epochId leaf) (cl_index leaf) (hexBytes a) (cl_amount leaf) (map to_contract proof)) b.
Proof.
  intros Ha He Hi Hz Hp Ht Hty.
  pose proof (processProof_same keccak256 encodeAbiParameters getAddress toLowerCase evm_keccak256 address_text leaf proof a Ha He Hi Hz Hp) as Hproof.
  set (e := epoch_at s (cl_epochId leaf)) in *.
  assert (∀ v0 v1 v2 v3, nth_answer [v0; v1; v2; v3] 0 = v0 ∧ nth_answer [v0; v1; v2; v3] 1 = v1 ∧
            nth_answer [v0; v1; v2; v3] 2 = v2 ∧ nth_answer [v0; v1; v2; v3] 3 = v3) as Hnth by done.
  unfold judge_claim. destruct (Hnth (epoch_value e) (JBool (isClaimed s (cl_epochId leaf) (cl_index leaf)))
    (JBool (paused s)) (JObj [(js "timestamp", JBig t)])) as (-> & -> & -> & ->). clear Hnth.
  change (jget (JObj [(js "timestamp", JBig t)]) (js "timestamp")) with (JBig t).
  rewrite parseRewardEpoch_seen by done. cbn [mbind outcome_bind parseBooleanValue].
  rewrite parseUint_big by done. cbn [mbind outcome_bind]. eexists. split; [reflexivity|]. cbn [canClaim cp_blockers].
  split; [apply blockers_nil|]. intros b. rewrite elem_of_push_if.
  assert (∀ l, b ∈ epoch_blockers (if decide (rootHash e = zero32) then None
                 else Some (epoch_seen (cl_epochId leaf) e)) t
                 (computed_root keccak256 encodeAbiParameters getAddress toLowerCase leaf proof) l ↔
               b ∈ l ∨ match b with
                       | epoch_not_found => rootHash e = zero32
                       | claim_not_started => rootHash e ≠ zero32 ∧ t < claimStart e
                       | claim_window_closed => rootHash e ≠ zero32 ∧ claimEnd e ≤ t
                       | invalid_proof => rootHash e ≠ zero32 ∧
                           ∃ r, contract_root (cl_epochId leaf) (cl_index leaf) (hexBytes a) (cl_amount leaf)
                                  (map to_contract proof) = Some r ∧ r ≠ (rootHash e, funded e)
                       | _ => False
                       end) as Hepoch.
  { intros l. unfold epoch_blockers. destruct (decide (rootHash e = zero32)) as [Ez|Ez].
    - rewrite elem_of_app, list_elem_of_singleton. destruct b; naive_solver.
    - rewrite !elem_of_push_if. cbn [epoch_seen re_claimStart re_claimEnd re_rootHash re_funded].
      rewrite Z.ltb_lt, Z.leb_le.
      assert (match computed_root keccak256 encodeAbiParameters getAddress toLowerCase leaf proof with
              | Some (h, sum) => negb (h =s? bytes_text (rootHash e)) || negb (sum =? funded e)
              | None => false
              end = true ↔
              ∃ r, contract_root (cl_epochId leaf) (cl_index leaf) (hexBytes a) (cl_amount leaf)
                     (map to_contract proof) = Some r ∧ r ≠ (rootHash e, funded e)) as ->.
      { unfold computed_root, contract_root. 
        destruct (processToriumRewardProof _ _ _ _ leaf proof) as [[h sum]|],
          (contract_proof _ _ _ _ _) as [[h' sum']|]; try done; [|naive_solver].
        destruct Hproof as [H32 [= -> ->]]. cbn [fst snd] in *.
        assert ((h =s? bytes_text (rootHash e)) = bool_decide (hexBytes h = rootHash e)) as ->.
        { rewrite jeq_comm, (bytes_text_of_bytes32 _ _ H32 (typed_root _ Hty)). apply bool_decide_ext. by split. }
        rewrite orb_true_iff, !negb_true_iff, bool_decide_eq_false, Z.eqb_neq. split.
        - intros H. eexists. split; [done|]. intros [= ? ?]. naive_solver.
        - intros (r & [= <-] & H). destruct (decide (hexBytes h = rootHash e)); [|by left]. right. congruence. }
      destruct b; naive_solver. }
  rewrite Hepoch, !elem_of_push_if. clear Hepoch.
  assert (negb (bool_decide (is_Some (computed_root keccak256 encodeAbiParameters getAddress toLowerCase leaf proof)))
            = true ↔ contract_root (cl_epochId leaf) (cl_index leaf) (hexBytes a) (cl_amount leaf)
                       (map to_contract proof) = None) as ->.
  { rewrite negb_true_iff, bool_decide_eq_false. unfold computed_root, contract_root.
    destruct (processToriumRewardProof _ _ _ _ leaf proof) as [[h sum]|],
      (contract_proof _ _ _ _ _) as [[h' sum']|]; try done; split; try done.
    intros H. exfalso. apply H. by eexists. }
  rewrite elem_of_nil. unfold blocked. fold e. destruct b; naive_solver.
Qed.

(** When the contract accepts a claim. *)
Lemma check_claim_iff c id index account amount proof s :
  (∃ e, check_claim evm_keccak256 c id index account amount proof s = Returns e) ↔
  entered s = false ∧ account ≠ zero20 ∧ amount ≠ 0 ∧
  ∀ b, ¬ blocked s (timestamp c) id index (contract_root id index account amount proof) b.
Proof.
  unfold check_claim, nonReentrant, whenNotPaused, requireEpoch, contract_root.
  set (e := epoch_at s id). set (r := contract_proof id index account amount proof). split.
  - intros (e' & H). required H as He. required H as Hp. call H as e1 H1. required H1 as Hz. injection H1 as <-.
    required H as Ha. required H as Hm. required H as Hs. required H as Hend. required H as Hi.
    call H as hs Hr. destruct hs as [h sum]. required H as Hroot. injection H as <-.
    apply bool_decide_eq_false in Hz, Ha. unfold blocked. fold e.
    split_and!; [done|done|lia|]. fold r. rewrite Hr.
    apply orb_false_iff in Hroot as [H1%negb_false_iff%bool_decide_eq_true H2%negb_false_iff].
    intros [| | | | | |]; try done; try (intros [_ ?]; lia); try congruence.
    intros [_ (r' & [= <-] & Hne)]. apply Hne. f_equal; [done|lia].
  - intros (He & Ha & Hm & Hb). exists e.
    pose proof (Hb epoch_not_found) as H1. pose proof (Hb distributor_paused) as H2.
    pose proof (Hb claim_not_started) as H3. pose proof (Hb claim_window_closed) as H4.
    pose proof (Hb already_claimed) as H5. pose proof (Hb malformed_proof) as H6.
    pose proof (Hb invalid_proof) as H7. unfold blocked in *. fold e in H1, H3, H4, H7. clear Hb.
    apply not_true_is_false in H2, H5.
    rewrite He, H2, (bool_decide_eq_false_2 _ H1), (bool_decide_eq_false_2 _ Ha), H5.
    cbn [revert_if mbind call_bind]. replace (amount =? 0) with false by lia.
    replace (timestamp c <? claimStart e) with false by (symmetry; apply Z.ltb_ge; apply Z.nlt_ge; naive_solver).
    replace (claimEnd e <=? timestamp c) with false by (symmetry; apply Z.leb_gt; apply Z.nle_gt; naive_solver).
    cbn [revert_if mbind call_bind]. fold r in H6, H7 |- *.
    destruct r as [[h sum]|]; [|done]. cbn [mbind call_bind].
    assert ((h, sum) = (rootHash e, funded e)) as [= -> ->].
    { destruct (decide ((h, sum) = (rootHash e, funded e))); [done|]. exfalso. apply H7. eauto. }
    by rewrite bool_decide_eq_true_2, Z.eqb_refl.
Qed.

(** What the contract does where no reason holds: it still refuses a zero account
    and a zero amount, which the preflight has no reason for. *)
Lemma check_claim_unblocked c id index account amount proof s :
  entered s = false →
  (∀ b, ¬ blocked s (timestamp c) id index (contract_root id index account amount proof) b) →
  check_claim evm_keccak256 c id index account amount proof s =
    if bool_decide (account = zero20) then Reverts ZeroAddress
    else if amount =? 0 then Reverts ZeroAmount else Returns (epoch_at s id).
Proof.
  intros He Hb. case_bool_decide as Ha; [|destruct (amount =? 0) eqn:Hm].
  1, 2: pose proof (Hb epoch_not_found) as H1; pose proof (Hb distributor_paused) as H2;
    unfold blocked in H1, H2; apply not_true_is_false in H2;
    unfold check_claim, nonReentrant, whenNotPaused, requireEpoch;
    rewrite He, H2, (bool_decide_eq_false_2 _ H1).
  - by rewrite bool_decide_eq_true_2.
  - rewrite bool_decide_eq_false_2, Hm by done. done.
  - destruct (proj2 (check_claim_iff c id index account amount proof s)) as [e E].
    { split_and!; try done. lia. }
    rewrite E. apply check_claim_epoch in E as (_ & E & _). unfold epoch_at. by rewrite E.
Qed.

Abbreviation preflightToriumRewardClaim :=
  (preflightToriumRewardClaim keccak256 encodeAbiParameters getAddress toLowerCase W user_aborted timer_fired
     now random wait endpoint).

(** C33. The SDK rebuilds a claim's Merkle-sum root exactly as the contract
    does: for well-formed nodes both give the same root hash and sum, or both
    refuse. *)
Theorem reward_proof_mirrors leaf proof a :
  getAddress (cl_account leaf) = Done a → uint256 (cl_epochId leaf) → uint256 (cl_index leaf) →
  uint256 (cl_amount leaf) → Forall node_ok proof →
  agree same_root
    (processToriumRewardProof keccak256 encodeAbiParameters getAddress toLowerCase leaf proof)
    (processProof evm_keccak256 (cl_epochId leaf) (cl_index leaf) (hexBytes a) (cl_amount leaf)
       (map to_contract proof)).
Proof. by eapply processProof_same. Qed.

(** C6. Against an endpoint that answers from the contract's storage, the
    preflight of a claim ends with a report whose blockers are exactly the
    reasons that hold. The contract's checks accept the claim exactly when the
    report says it can be made, no call is in progress, and account and amount
    are not zero: for a zero account or amount the report still says that the
    claim can be made, and the contract reverts. *)
Theorem claim_preflight_exact override d account a epochId index amount proof s t c w :
  distributor_of getAddress override = Done d → getAddress account = Done a →
  uint256 epochId → uint256 index → uint256 amount → Forall node_ok proof →
  chain_answers endpoint d s t → uint256 t → epoch_typed (epoch_at s epochId) → timestamp c = t →
  ∃ p tr,
    preflightToriumRewardClaim override epochId index account amount proof default_options w = (Done p, w, tr) ∧
    (∀ b, b ∈ cp_blockers p ↔
       blocked s t epochId index (contract_root epochId index (hexBytes a) amount (map to_contract proof)) b) ∧
    ((∃ e, check_claim evm_keccak256 c epochId index (hexBytes a) amount (map to_contract proof) s = Returns e) ↔
       entered s = false ∧ hexBytes a ≠ zero20 ∧ amount ≠ 0 ∧ canClaim p = true) ∧
    (entered s = false → canClaim p = true →
       check_claim evm_keccak256 c epochId index (hexBytes a) amount (map to_contract proof) s =
         if bool_decide (hexBytes a = zero20) then Reverts ZeroAddress
         else if amount =? 0 then Reverts ZeroAmount else Returns (epoch_at s epochId)).
Proof.
  intros Hd Ha He Hi Hz Hp [H1 H2 H3 H4] Ht Hty Hc.
  pose proof (proj1 (sv_address _ _ Ha)) as Ha'.
  edestruct (judge_claim_blockers d (ClaimLeaf epochId index a amount) proof s t a Ha' He Hi Hz Hp Ht Hty)
    as (p & Hj & Hcan & Hb). cbn [cl_epochId cl_index cl_amount cl_account] in *.
  unfold SdkRewards.preflightToriumRewardClaim, after, claim_leaf.
  rewrite Hd, !assertToriumUint256_ok, Ha by done. cbn [mbind outcome_bind].
  destruct (contract_action_default toLowerCase W user_aborted timer_fired now random wait
              (js "preflightToriumRewardClaim") (js "eth_call") None
              (preflight_claim keccak256 encodeAbiParameters getAddress toLowerCase W endpoint d
                 (ClaimLeaf epochId index a amount) proof) w p w) as [tr Htr].
  - vm_compute. reflexivity.
  - vm_compute. reflexivity.
  - unfold preflight_claim. apply io_bind_Done. exists (), w. split; [done|].
    apply io_bind_Done. eexists _, w. split.
    { unfold preflight_requests. cbn [ask_all cl_epochId cl_index]. rewrite H1, H2, H3, H4. reflexivity. }
    apply io_bind_Done. exists (), w. split; [done|]. unfold lift. by rewrite Hj.
  - exists p, tr. split_and!; [exact Htr|exact Hb|..].
    + rewrite Hcan, check_claim_iff, Hc. by setoid_rewrite Hb.
    + rewrite Hcan. setoid_rewrite Hb. intros Hent Hno. apply check_claim_unblocked; [done|by rewrite Hc].
Qed.
End preflight.

(** ** A published epoch *)

Module Samples.
Import SdkViem.Samples.
Definition payee : jstr := js "0x0000000000000000000000000000000000000009".
Definition leaf : ToriumRewardClaimLeaf := ClaimLeaf 1 300 payee 70.
Definition sibling : ToriumRewardProofNode := ProofEntry (keccak256 (js "0x01")) 30.

Lemma sample_root :
  ∃ h, processToriumRewardProof keccak256 encode getAddress to_lower leaf [sibling] = Done (h, 100).
Proof. eexists. vm_compute. reflexivity. Qed.

Lemma sample_leaf_ok :
  getAddress payee = Done payee ∧ uint256 1 ∧ uint256 300 ∧ uint256 70 ∧ Forall node_ok [sibling].
Proof.
  split_and!; [by vm_compute|vm_compute; split; discriminate..|].
  constructor; [|constructor]. split; [by vm_compute|vm_compute; split; discriminate].
Qed.

Lemma reward_proof_mirrors_witness :
  ∃ h, processToriumRewardProof keccak256 encode getAddress to_lower leaf [sibling] = Done (h, 100) ∧
    processProof hash_of 1 300 (hexBytes payee) 70 (map to_contract [sibling]) = Returns (hexBytes h, 100).
Proof.
  destruct sample_root as [h Eh]. exists h. split; [exact Eh|].
  destruct sample_leaf_ok as (H0 & H1 & H2 & H3 & H4).
  pose proof (reward_proof_mirrors keccak256 encode getAddress to_lower hash_of bytes_text leaf [sibling] payee
                H0 H1 H2 H3 H4) as H.
  rewrite Eh in H. cbn [leaf cl_epochId cl_index cl_amount cl_account] in H.
  destruct (processProof hash_of 1 300 (hexBytes payee) 70 (map to_contract [sibling])) as [r|]; [|destruct H].
  destruct H as [_ ->]. reflexivity.
Defined.

(** An endpoint that answers from a storage, whatever the world. *)
Definition endpoint_of (s : storage) (t : Z) (r : request) (w : unit) : outcome jsv * unit :=
  (match r with
   | ReadContract _ _ f args =>
       if f =s? js "epochs" then
         match args with Some [JBig id] => Done (epoch_value (epoch_at s id)) | _ => Done JUndef end
       else if f =s? js "isClaimed" then
         match args with Some [JBig id; JBig i] => Done (JBool (isClaimed s id i)) | _ => Done JUndef end
       else if f =s? js "paused" then Done (JBool (paused s)) else Done JUndef
   | GetBlock => Done (JObj [(js "timestamp", JBig t)])
   | _ => Done JUndef
   end, w).

Lemma endpoint_answers d s t : chain_answers (endpoint_of s t) d s t.
Proof. by split. Qed.

Definition published : storage := DistributorFacts.Samples.published.
Definition at_address : ToriumContractDeploymentOverride := DeploymentOverride payee None None.
Definition preflight_at (t : Z) (w : unit) :=
  preflightToriumRewardClaim keccak256 encode getAddress to_lower unit (λ _, false) (λ _, false)
    (λ _, 0) (λ _, NInt 0) (λ _ w, w) (endpoint_of published t) (Some at_address) 1 300 payee 70 [] default_options w.

Lemma claim_preflight_exact_witness :
  ∃ p tr, preflight_at 1100 () = (Done p, (), tr) ∧ canClaim p = true ∧
    ∃ e, check_claim hash_of (Context_ (DistributorFacts.Samples.account_of 9) 0 1100) 1 300 (hexBytes payee) 70 [] published = Returns e.
Proof.
  destruct (distributor_of getAddress (Some at_address)) as [d|] eqn:Ed; [|by vm_compute in Ed].
  destruct (claim_preflight_exact keccak256 encode getAddress to_lower unit (λ _, false) (λ _, false)
    (λ _, 0) (λ _, NInt 0) (λ _ w, w) (endpoint_of published 1100) hash_of bytes_text
    (Some at_address) d payee payee 1 300 70 [] published 1100
    (Context_ (DistributorFacts.Samples.account_of 9) 0 1100) ()) as (p & tr & Hp & Hb & Hc & Hz).
  - exact Ed.
  - by vm_compute.
  - vm_compute; split; discriminate.
  - vm_compute; split; discriminate.
  - vm_compute; split; discriminate.
  - constructor.
  - apply endpoint_answers.
  - vm_compute; split; discriminate.
  - split; [|vm_compute; split; discriminate..]. split; [by vm_compute|].
    apply (bool_decide_unpack _). by vm_compute.
  - done.
  - exists p, tr. split; [exact Hp|].
    assert (∃ e, check_claim hash_of (Context_ (DistributorFacts.Samples.account_of 9) 0 1100) 1 300 (hexBytes payee) 70 [] published = Returns e) as He.
    { eexists. vm_compute. reflexivity. }
    split; [|exact He]. apply Hc in He as (_ & _ & _ & Hok). exact Hok.
Defined.
End Samples.
