(* ===== verification/SdkAttestationsFacts.v ===== *)
(** The SDK's attestation helpers against the registry contract: what a
    preflight predicts is what the contract derives, and what it allows is what
    the contract accepts. *)

From S2P Require Import Prelude JsNum JsText JsValue RewardTree RewardTreeFacts Attestation HexFacts Evm AttestationRegistry AttestationRegistryFacts.
From S2P Require Import SdkValue SdkErrors SdkExecution SdkExecutionFacts SdkContracts SdkContractsFacts SdkRewards SdkViem SdkAttestations.

Open Scope Z_scope.

(** ** Payloads *)

(** The types of a payload's fields: hash text in either case. *)
Record payload_typed (p : ToriumAttestationPayload) : Prop := {
  pt_schemaId : hash_text (pl_schemaId p) = true;
  pt_subject : hash_text (pl_subject p) = true;
  pt_referenceHash : hash_text (referenceHash_of p) = true;
  pt_contentHash : hash_text (pl_contentHash p) = true;
  pt_metadataHash : hash_text (pl_metadataHash p) = true;
  pt_metadataUriHash : hash_text (pl_metadataUriHash p) = true
}.

(** The arguments the contract receives. *)
Definition contract_payload (p : ToriumAttestationPayload) (supersedes : jstr) : payload :=
  Payload (hexBytes (pl_schemaId p)) (num_Z (pl_schemaVersion p)) (hexBytes (pl_subject p))
    (hexBytes (referenceHash_of p)) (hexBytes (pl_contentHash p)) (hexBytes (pl_metadataHash p))
    (hexBytes (pl_metadataUriHash p)) (hexBytes supersedes).

Lemma version_range n :
  negb (is_integer n) || num_ltb n (NInt 1) || num_ltb (NInt 4294967295) n = false ↔
  is_integer n = true ∧ 1 ≤ num_Z n < 2 ^ 32.
Proof.
  unfold is_integer, num_Z. destruct (num_int n) as [z|] eqn:E; [|by split; [|intros [? _]]].
  rewrite (num_ltb_int n _ z 1), (num_ltb_int _ n 4294967295 z) by done.
  change (default 0 (Some z)) with z. cbn [negb orb]. rewrite orb_false_iff, !Z.ltb_ge.
  split; [intros []|intros [_ []]]; split; done || lia.
Qed.

(** The helper refuses what the contract refuses, and a version that is not a
    uint32. *)
Lemma validate_payload_exact p sup :
  payload_typed p →
  validateToriumAttestationPayload p = Done () ↔
  validatePayload (contract_payload p sup) = Returns () ∧
  is_integer (pl_schemaVersion p) = true ∧ 1 ≤ num_Z (pl_schemaVersion p) < 2 ^ 32.
Proof.
  intros [H1 H2 _ H3 H4 H5]. unfold validateToriumAttestationPayload, validatePayload, contract_payload.
  cbn [p_schemaId p_schemaVersion p_subject p_contentHash p_metadataHash p_metadataUriHash].
  rewrite !zeroHash_bytes by done. change (replicate 32 0) with zero32.
  destruct (bool_decide (hexBytes (pl_schemaId p) = zero32)); [by split; [|intros [? _]]|].
  destruct (negb (is_integer (pl_schemaVersion p)) || _ || _) eqn:E.
  { split; [done|]. intros [_ H%version_range]. congruence. }
  apply version_range in E as [Ei Er]. cbn [revert_if mbind call_bind].
  replace (num_Z (pl_schemaVersion p) =? 0) with false by lia. cbn [revert_if mbind call_bind].
  do 4 (match goal with |- context [bool_decide ?P] => destruct (bool_decide P) end;
        [by split; [|intros [? _]]|cbn [revert_if mbind call_bind]]).
  by split.
Qed.

(** The text of a record's hash equals a payload's lower-case text when their
    bytes are the same. *)
Section derived.
Context (keccak256 : jstr → jstr).
Context (encodeAbiParameters : list jstr → list jsv → outcome jstr).
Context (getAddress : jstr → outcome jstr).
Context (toLowerCase : jstr → jstr).
Context (address_text : Evm.address → jstr).
Context (evm_keccak256 : list Z → bytes32).
Context `{Hv : !sdk_viem keccak256 encodeAbiParameters getAddress toLowerCase address_text evm_keccak256}.

Lemma word_version n : is_integer n = true ∧ 1 ≤ num_Z n < 2 ^ 32 →
  abi_word getAddress (js "uint32") (JNum n) (be_word 32 (num_Z n)).
Proof. intros [Hi Hn]. constructor; [done|lia]. Qed.

Lemma hashed ts vs b :
  abi_words getAddress ts vs b →
  ∃ t, encodeAbiParameters ts vs = Done t ∧ hexBytes (keccak256 t) = evm_keccak256 b ∧
    is_bytes32 (keccak256 t) = true.
Proof.
  intros (t & Ht & <-)%sv_encode. exists t. split_and!; [done|apply sv_keccak|apply sv_digest].
Qed.

Lemma commitment_derived p sup :
  payload_typed p → hash_text sup = true → validateToriumAttestationPayload p = Done () →
  ∃ h, computeToriumAttestationCommitment keccak256 encodeAbiParameters p sup = Done h ∧
    hexBytes h = computeCommitment evm_keccak256 (contract_payload p sup) ∧ is_bytes32 h = true.
Proof.
  intros Hp Hs Hval. unfold computeToriumAttestationCommitment. rewrite Hval. cbn [mbind outcome_bind].
  apply (validate_payload_exact p sup Hp) in Hval as [_ Hn%word_version]. destruct Hp.
  edestruct (hashed COMMITMENT_TYPES) as (t & -> & Ht & H32); [|exists (keccak256 t); split; [done|]].
  { encode_words. }
  rewrite Ht. split; [|done]. unfold computeCommitment, contract_payload.
  cbn [p_schemaId p_schemaVersion p_subject p_referenceHash p_contentHash p_metadataHash p_metadataUriHash p_supersedes].
  by rewrite app_nil_r.
Qed.

Lemma replay_key_derived issuer a p sup :
  getAddress issuer = Done a → payload_typed p → validateToriumAttestationPayload p = Done () →
  ∃ h, computeToriumAttestationReplayKey keccak256 encodeAbiParameters getAddress issuer p = Done h ∧
    hexBytes h = computeReplayKey evm_keccak256 (hexBytes a) (contract_payload p sup) ∧ is_bytes32 h = true.
Proof.
  intros Ha Hp Hval. unfold computeToriumAttestationReplayKey. rewrite Hval, Ha. cbn [mbind outcome_bind].
  apply (validate_payload_exact p sup Hp) in Hval as [_ Hn%word_version]. destruct Hp.
  apply sv_address in Ha as [Ha _].
  edestruct (hashed REPLAY_TYPES) as (t & -> & Ht & H32); [|exists (keccak256 t); split; [done|]].
  { encode_words. }
  rewrite Ht. split; [|done]. unfold computeReplayKey, contract_payload.
  cbn [p_schemaId p_schemaVersion p_subject p_referenceHash p_contentHash p_metadataHash p_metadataUriHash].
  by rewrite app_nil_r.
Qed.

Lemma id_derived c registry issuer n commitment dom :
  uint256 (chainid dom) → BigInt c = Done (chainid dom) →
  getAddress registry = Done registry → hexBytes registry = this dom → getAddress issuer = Done issuer →
  uint256 n → hash_text commitment = true →
  ∃ h, computeToriumAttestationId keccak256 encodeAbiParameters getAddress c registry issuer n commitment = Done h ∧
    hexBytes h = computeAttestationId evm_keccak256 dom (hexBytes issuer) n (hexBytes commitment).
Proof.
  intros Hc Hbig Hr Hthis Hi Hn Hh. unfold computeToriumAttestationId.
  rewrite Hbig. cbn [mbind outcome_bind]. rewrite assertToriumUint256_ok, Hr, Hi, assertToriumUint256_ok by done.
  cbn [mbind outcome_bind].
  edestruct (hashed ID_TYPES) as (t & -> & Ht & _); [|exists (keccak256 t); split; [done|]].
  { encode_words. }
  rewrite Ht. unfold computeAttestationId. by rewrite app_nil_r, Hthis.
Qed.
End derived.

(** ** What the endpoint shows of a record *)

(** The values of a record that the contract's types admit. *)
Record record_typed (a : Attestation) : Prop := {
  rt_schemaId : word 32 (schemaId a);
  rt_schemaVersion : 0 ≤ schemaVersion a < 2 ^ 32;
  rt_issuer : word 20 (issuer a);
  rt_issuerNonce : uint256 (issuerNonce a);
  rt_subject : word 32 (subject a);
  rt_referenceHash : word 32 (referenceHash a);
  rt_contentHash : word 32 (contentHash a);
  rt_metadataHash : word 32 (metadataHash a);
  rt_metadataUriHash : word 32 (metadataUriHash a);
  rt_supersedes : word 32 (supersedes a);
  rt_supersededBy : word 32 (supersededBy a);
  rt_createdAt : uint256 (createdAt a);
  rt_revokedAt : uint256 (revokedAt a);
  rt_supersededAt : uint256 (supersededAt a);
  rt_revocationReasonHash : word 32 (revocationReasonHash a)
}.

Section shown.
Context (address_text : Evm.address → jstr).

(** What viem decodes [getAttestation(id)] to: a uint32 is a number, wider
    integers are bigints. *)
Definition record_value (a : Attestation) : jsv :=
  let hash b := JStr (bytes_text b) in
  JObj [(js "schemaId", hash (schemaId a)); (js "schemaVersion", JNum (NInt (schemaVersion a)));
        (js "issuer", JStr (address_text (issuer a))); (js "issuerNonce", JBig (issuerNonce a));
        (js "subject", hash (subject a)); (js "referenceHash", hash (referenceHash a));
        (js "contentHash", hash (contentHash a)); (js "metadataHash", hash (metadataHash a));
        (js "metadataUriHash", hash (metadataUriHash a)); (js "supersedes", hash (supersedes a));
        (js "supersededBy", hash (supersededBy a)); (js "createdAt", JBig (createdAt a));
        (js "revokedAt", JBig (revokedAt a)); (js "supersededAt", JBig (supersededAt a));
        (js "revocationReasonHash", hash (revocationReasonHash a))].

(** The record as the SDK reports it. *)
Definition record_seen (a : Attestation) (id : jstr) (status : ToriumAttestationStatus) : ToriumAttestation :=
  AttestationRecord id status (bytes_text (schemaId a)) (num_of_bigint (schemaVersion a))
    (address_text (issuer a)) (issuerNonce a) (bytes_text (subject a)) (bytes_text (referenceHash a))
    (bytes_text (contentHash a)) (bytes_text (metadataHash a)) (bytes_text (metadataUriHash a))
    (bytes_text (supersedes a)) (bytes_text (supersededBy a)) (createdAt a) (revokedAt a) (supersededAt a)
    (bytes_text (revocationReasonHash a)).

Lemma record_fields a (get := jget (record_value a)) :
  get (js "schemaId") = JStr (bytes_text (schemaId a)) ∧
  get (js "schemaVersion") = JNum (NInt (schemaVersion a)) ∧
  get (js "issuer") = JStr (address_text (issuer a)) ∧
  get (js "issuerNonce") = JBig (issuerNonce a) ∧
  get (js "subject") = JStr (bytes_text (subject a)) ∧
  get (js "referenceHash") = JStr (bytes_text (referenceHash a)) ∧
  get (js "contentHash") = JStr (bytes_text (contentHash a)) ∧
  get (js "metadataHash") = JStr (bytes_text (metadataHash a)) ∧
  get (js "metadataUriHash") = JStr (bytes_text (metadataUriHash a)) ∧
  get (js "supersedes") = JStr (bytes_text (supersedes a)) ∧
  get (js "supersededBy") = JStr (bytes_text (supersededBy a)) ∧
  get (js "createdAt") = JBig (createdAt a) ∧
  get (js "revokedAt") = JBig (revokedAt a) ∧
  get (js "supersededAt") = JBig (supersededAt a) ∧
  get (js "revocationReasonHash") = JStr (bytes_text (revocationReasonHash a)).
Proof. split_and!; reflexivity. Qed.

Definition sdk_status (st : Status) : ToriumAttestationStatus :=
  match st with Missing => missing | Active => active | Superseded => superseded | Revoked => revoked end.

(** The index of a status in the contract's enumeration. *)
Definition status_index (st : Status) : Z :=
  match st with Missing => 0 | Active => 1 | Superseded => 2 | Revoked => 3 end.

Lemma parseAttestationStatus_seen st d : parseAttestationStatus (JNum (NInt (status_index st))) d = Done (sdk_status st).
Proof. by destruct st. Qed.

Context (keccak256 : jstr → jstr).
Context (encodeAbiParameters : list jstr → list jsv → outcome jstr).
Context (getAddress : jstr → outcome jstr).
Context (toLowerCase : jstr → jstr).
Context (evm_keccak256 : list Z → bytes32).
Context `{Hv : !sdk_viem keccak256 encodeAbiParameters getAddress toLowerCase address_text evm_keccak256}.

Lemma parseAttestation_seen a d id st :
  record_typed a → parseAttestation getAddress (record_value a) d id st = Done (record_seen a id st).
Proof.
  intros []. unfold parseAttestation. replace (negb (isObjectLike (record_value a))) with false by done.
  cbv zeta beta. destruct (record_fields a) as (-> & -> & -> & -> & -> & -> & -> & -> & -> & -> & -> & -> & -> & -> & ->).
  rewrite parseUint_int by (unfold max_safe; lia). cbn [mbind outcome_bind].
  rewrite !parseHashValue_bytes by done. rewrite !parseUint_big by done.
  by rewrite parseAddressValue_bytes by done.
Qed.
End shown.

(** ** Preflights against a registry *)

(** The values of a storage that the contract's types admit. *)
Record registry_typed (s : storage) : Prop := {
  typed_record id a : attestations s !! id = Some a → record_typed a;
  typed_nonce a : uint256 (nonce_of s a)
}.

Section preflights.
Context (keccak256 : jstr → jstr).
Context (encodeAbiParameters : list jstr → list jsv → outcome jstr).
Context (getAddress : jstr → outcome jstr).
Context (toLowerCase : jstr → jstr) (W : Type) (user_aborted timer_fired : W → bool).
Context (now : W → Z) (random : W → num) (wait : num → W → W).
Context (endpoint : request → W → outcome jsv * W).
Context (address_text : Evm.address → jstr).
Context (evm_keccak256 : list Z → bytes32).
Context `{Hv : !sdk_viem keccak256 encodeAbiParameters getAddress toLowerCase address_text evm_keccak256}.

(** An endpoint of the chain of [dom] that answers from the storage of the
    registry at [d]. *)
Record registry_answers (d : ToriumContractDeployment) (dom : domain) (s : storage) : Prop := {
  ra_chain : uint256 (chainid dom) ∧ chainid dom ≤ max_safe;
  ra_address : getAddress (address d) = Done (address d) ∧ hexBytes (address d) = this dom;
  ra_used k w : hash_text k = true →
    endpoint (readAttestationFunction d (js "usedPayloads") [JStr k]) w
    = (Done (JBool (bool_decide (hexBytes k ∈ usedPayloads s))), w);
  ra_nonce a w : getAddress a = Done a →
    endpoint (readAttestationFunction d (js "issuerNonces") [JStr a]) w = (Done (JBig (nonce_of s (hexBytes a))), w);
  ra_status h w : hash_text h = true →
    endpoint (readAttestationFunction d (js "statusOf") [JStr h]) w
    = (Done (JNum (NInt (status_index (statusOf s (hexBytes h))))), w);
  ra_record h a w : hash_text h = true → getAttestation s (hexBytes h) = Returns a →
    endpoint (readAttestationFunction d (js "getAttestation") [JStr h]) w = (Done (record_value address_text a), w);
  ra_id w : endpoint GetChainId w = (Done (JNum (NInt (chainid dom))), w)
}.

Lemma read_status_seen d dom s h w :
  registry_answers d dom s → hash_text h = true →
  read_status W endpoint d h w = (Done (sdk_status (statusOf s (hexBytes h))), w).
Proof.
  intros Ha Hh. unfold read_status. apply io_bind_Done. eexists _, w.
  split; [by apply (ra_status _ _ _ Ha)|]. unfold lift. by rewrite parseAttestationStatus_seen.
Qed.

Lemma active_record s h : statusOf s h = Active →
  ∃ a, attestations s !! h = Some a ∧ attestation_at s h = a ∧ status_of a = Active ∧ getAttestation s h = Returns a.
Proof.
  unfold statusOf. intros Hs. assert (issuer (attestation_at s h) ≠ zero20) as Hne.
  { intros E. unfold status_of in Hs. by rewrite E in Hs. }
  exists (attestation_at s h). split_and!; [by apply attestation_at_Some|done|done|].
  by apply requireAttestation_Returns.
Qed.

Lemma read_record_seen d dom s h a w st :
  registry_answers d dom s → hash_text h = true → getAttestation s (hexBytes h) = Returns a → record_typed a →
  read_record getAddress W endpoint d h st w = (Done (record_seen address_text a h st), w).
Proof.
  intros Ha Hh Hr Ht. unfold read_record. apply io_bind_Done. eexists _, w.
  split; [by eapply (ra_record _ _ _ Ha)|]. unfold lift. f_equal. by eapply parseAttestation_seen.
Qed.

(** When each blocker of an attestation is reported; schemas and subjects are
    compared as text. *)
Definition attest_blocked (s : storage) (issuer_ : Evm.address) (p : ToriumAttestationPayload) (sup : jstr)
    (b : ToriumAttestationBlocker) : Prop :=
  let q := contract_payload p sup in
  let old := p_supersedes q in
  let prior := attestation_at s old in
  match b with
  | duplicate_payload => computeReplayKey evm_keccak256 issuer_ q ∈ usedPayloads s
  | supersedes_not_found => old ≠ zero32 ∧ statusOf s old = Missing
  | supersedes_not_active => old ≠ zero32 ∧ (statusOf s old = Superseded ∨ statusOf s old = Revoked)
  | supersedes_issuer_mismatch => old ≠ zero32 ∧ statusOf s old = Active ∧ issuer prior ≠ issuer_
  | supersedes_schema_mismatch =>
      old ≠ zero32 ∧ statusOf s old = Active ∧ bytes_text (schemaId prior) ≠ pl_schemaId p
  | supersedes_subject_mismatch =>
      old ≠ zero32 ∧ statusOf s old = Active ∧ bytes_text (subject prior) ≠ pl_subject p
  end.

Lemma check_prior_seen d dom s a sup p l w :
  registry_answers d dom s → registry_typed s → getAddress a = Done a → hash_text sup = true →
  ∃ l', check_prior getAddress W endpoint d a sup p l (λ _, false) w = (Done l', w) ∧
    ∀ b, b ∈ l' ↔ b ∈ l ∨ (b ≠ duplicate_payload ∧ attest_blocked s (hexBytes a) p sup b).
Proof.
  intros Hr Hty Ha Hs. unfold check_prior, attest_blocked. cbn [contract_payload p_supersedes].
  rewrite zeroHash_bytes by done. change (replicate 32 0) with zero32.
  destruct (decide (hexBytes sup = zero32)) as [E|E].
  { rewrite bool_decide_eq_true_2 by done. exists l. split; [done|]. intros []; naive_solver. }
  rewrite bool_decide_eq_false_2 by done.
  unfold mbind, io_bind. rewrite (read_status_seen d dom s sup w Hr Hs). cbn [check_signal].
  destruct (statusOf s (hexBytes sup)) eqn:Est; cbn [sdk_status].
  - eexists. split; [done|]. intros b. rewrite elem_of_app, list_elem_of_singleton. destruct b; naive_solver.
  - apply active_record in Est as (prior & Hp & -> & Hst & Hg). apply (typed_record _ Hty) in Hp.
    unfold mbind, io_bind. rewrite (read_record_seen d dom s sup prior w active Hr Hs Hg Hp).
    eexists. split; [reflexivity|]. intros b. unfold prior_blockers. rewrite !elem_of_push_if.
    cbn [record_seen ta_issuer ta_schemaId ta_subject].
    rewrite (address_text_eq _ _ (rt_issuer _ Hp) Ha), !negb_true_iff, bool_decide_eq_false, !jeq_neq.
    destruct b; naive_solver.
  - eexists. split; [done|]. intros b. rewrite elem_of_app, list_elem_of_singleton. destruct b; naive_solver.
  - eexists. split; [done|]. intros b. rewrite elem_of_app, list_elem_of_singleton. destruct b; naive_solver.
Qed.

Abbreviation preflightToriumAttestation :=
  (preflightToriumAttestation keccak256 encodeAbiParameters getAddress toLowerCase W user_aborted timer_fired
     now random wait endpoint).

(** A preflight that predicts what the contract derives in a storage. *)
Definition predicts (dom : domain) (s : storage) (a : jstr) (p : ToriumAttestationPayload) (sup : jstr)
    (q : ToriumAttestationPreflight) : Prop :=
  let n := nonce_of s (hexBytes a) + 1 in
  let commitment := computeCommitment evm_keccak256 (contract_payload p sup) in
  (∀ b, b ∈ ap_blockers q ↔ attest_blocked s (hexBytes a) p sup b) ∧
  (canAttest q = true ↔ ∀ b, ¬ attest_blocked s (hexBytes a) p sup b) ∧
  hexBytes (ap_replayKey q) = computeReplayKey evm_keccak256 (hexBytes a) (contract_payload p sup) ∧
  ap_issuerNonce q = n ∧ hexBytes (ap_commitment q) = commitment ∧
  hexBytes (ap_attestationId q) = computeAttestationId evm_keccak256 dom (hexBytes a) n commitment.

Lemma predict_seen d dom s a p sup key l w :
  registry_answers d dom s → registry_typed s → getAddress a = Done a → payload_typed p → hash_text sup = true →
  validateToriumAttestationPayload p = Done () → nonce_of s (hexBytes a) + 1 ≤ UINT256_MAX →
  hexBytes key = computeReplayKey evm_keccak256 (hexBytes a) (contract_payload p sup) →
  (∀ b, b ∈ l ↔ attest_blocked s (hexBytes a) p sup b) →
  ∃ q, lift W (predict keccak256 encodeAbiParameters getAddress d a sup key p
                 (JBig (nonce_of s (hexBytes a))) (JNum (NInt (chainid dom))) l) w = (Done q, w) ∧
    predicts dom s a p sup q.
Proof.
  intros Hr Hty Ha Hp Hs Hval Hn Hkey Hl. unfold lift, predict.
  assert (uint256 (nonce_of s (hexBytes a))) as Hu by apply (typed_nonce _ Hty).
  rewrite parseUint_big by done. cbn [mbind outcome_bind].
  destruct (commitment_derived _ _ _ _ _ _ (Hv:=Hv) p sup Hp Hs Hval) as (c & -> & Hc & Hc32). cbn [mbind outcome_bind].
  destruct (id_derived _ _ _ _ _ _ (Hv:=Hv) (JNum (NInt (chainid dom))) (address d) a (nonce_of s (hexBytes a) + 1)
              c dom) as (i & -> & Hi); try done.
  { apply (ra_chain _ _ _ Hr). }
  1, 2: by apply (ra_address _ _ _ Hr).
  { destruct Hu. split; lia. }
  { by apply is_bytes32_hash_text. }
  eexists. split; [reflexivity|]. unfold predicts. cbn.
  rewrite blockers_nil. setoid_rewrite Hl. by rewrite <- Hc.
Qed.

Lemma preflight_predicts override issuer p supersedes d a dom s w (sup := default zeroHash supersedes) :
  registry_of getAddress override = Done d → getAddress issuer = Done a → payload_typed p → hash_text sup = true →
  validateToriumAttestationPayload p = Done () → registry_answers d dom s → registry_typed s →
  nonce_of s (hexBytes a) + 1 ≤ UINT256_MAX →
  ∃ q tr, preflightToriumAttestation override issuer p supersedes default_options w = (Done q, w, tr) ∧
    predicts dom s a p sup q.
Proof.
  intros Hd Hi Hp Hs Hval Hr Hty Hn. apply sv_address in Hi as Ha. destruct Ha as [Ha _].
  unfold SdkAttestations.preflightToriumAttestation, after. rewrite Hd, Hi. cbn [mbind outcome_bind].
  destruct (replay_key_derived _ _ _ _ _ _ (Hv:=Hv) a a p sup Ha Hp Hval) as (key & -> & Hkey & Hk32).
  cbn [mbind outcome_bind]. apply is_bytes32_hash_text in Hk32 as [Hk _].
  destruct (check_prior_seen d dom s a sup p
              (push_if (bool_decide (hexBytes key ∈ usedPayloads s)) duplicate_payload []) w Hr Hty Ha Hs)
    as (l & Hl & Hb).
  destruct (predict_seen d dom s a p sup key l w Hr Hty Ha Hp Hs Hval Hn Hkey) as (q & Hq & Hpred).
  { intros b. rewrite Hb, elem_of_push_if, elem_of_nil, bool_decide_eq_true, Hkey.
    unfold attest_blocked. destruct b; naive_solver. }
  destruct (contract_action_default toLowerCase W user_aborted timer_fired now random wait
              (js "preflightToriumAttestation") (js "eth_call") None
              (preflight_attestation keccak256 encodeAbiParameters getAddress W endpoint d a sup key p) w q w)
    as [tr Htr]; [vm_compute; reflexivity..| |by exists q, tr].
  unfold preflight_attestation. apply io_bind_Done. exists (), w. split; [done|].
  apply io_bind_Done. eexists _, w. split.
  { cbn [ask_all]. rewrite (ra_used _ _ _ Hr key w Hk), (ra_nonce _ _ _ Hr a w Ha), (ra_id _ _ _ Hr w). reflexivity. }
  apply io_bind_Done. exists (), w. split; [done|].
  apply io_bind_Done. eexists _, w. split; [reflexivity|].
  apply io_bind_Done. exists l, w. split; [exact Hl|exact Hq].
Qed.

Lemma not_blocked_iff s c p sup :
  registry_typed s → is_bytes32 (pl_schemaId p) = true → is_bytes32 (pl_subject p) = true →
  (∀ b, ¬ attest_blocked s (sender c) p sup b) ↔
  computeReplayKey evm_keccak256 (sender c) (contract_payload p sup) ∉ usedPayloads s ∧
  (hexBytes sup = zero32 ∨ may_supersede s c (contract_payload p sup)).
Proof.
  intros Hty H1 H2. unfold attest_blocked, may_supersede.
  cbn [contract_payload p_supersedes p_schemaId p_subject]. split.
  - intros H. split; [apply (H duplicate_payload)|].
    destruct (decide (hexBytes sup = zero32)) as [|E]; [by left|right].
    pose proof (H supersedes_not_found) as Hm. pose proof (H supersedes_not_active) as Hn.
    pose proof (H supersedes_issuer_mismatch) as Hi. pose proof (H supersedes_schema_mismatch) as Hsc.
    pose proof (H supersedes_subject_mismatch) as Hsu. cbv beta iota in Hm, Hn, Hi, Hsc, Hsu. clear H.
    destruct (statusOf s (hexBytes sup)) eqn:Est; [naive_solver| |naive_solver..].
    apply active_record in Est as (a & Ha & Eat & Hst & _). rewrite Eat in *.
    pose proof (typed_record _ Hty _ _ Ha) as Ht. exists a.
    pose proof (bytes_text_of_bytes32 _ _ H1 (rt_schemaId _ Ht)) as T1.
    pose proof (bytes_text_of_bytes32 _ _ H2 (rt_subject _ Ht)) as T2.
    split_and!; [done|done| | |].
    + destruct (decide (issuer a = sender c)); [done|naive_solver].
    + apply (bool_decide_eq_true_1 _). rewrite <- T1. apply jeq_spec. apply dec_stable. naive_solver.
    + apply (bool_decide_eq_true_1 _). rewrite <- T2. apply jeq_spec. apply dec_stable. naive_solver.
  - intros [Hr [E|(a & Ha & Hst & Hi & Hsc & Hsu)]]; [intros []; naive_solver|].
    assert (attestation_at s (hexBytes sup) = a) as Eat by (unfold attestation_at; by rewrite Ha).
    assert (statusOf s (hexBytes sup) = Active) as Est by (unfold statusOf; by rewrite Eat).
    pose proof (typed_record _ Hty _ _ Ha) as Ht.
    assert (bytes_text (schemaId a) = pl_schemaId p) as T1.
    { apply jeq_spec. rewrite (bytes_text_of_bytes32 _ _ H1 (rt_schemaId _ Ht)). by apply bool_decide_eq_true_2. }
    assert (bytes_text (subject a) = pl_subject p) as T2.
    { apply jeq_spec. rewrite (bytes_text_of_bytes32 _ _ H2 (rt_subject _ Ht)). by apply bool_decide_eq_true_2. }
    rewrite Est, Eat. intros []; naive_solver.
Qed.

(** The schema and the subject are written in lower case. *)
Definition lower_case_texts (p : ToriumAttestationPayload) : Prop :=
  is_bytes32 (pl_schemaId p) = true ∧ is_bytes32 (pl_subject p) = true.

(** Nothing is reported exactly when the contract's conditions hold and, where a
    record is superseded, the texts are in lower case. *)
Lemma not_blocked_exact s c p sup :
  registry_typed s →
  (∀ b, ¬ attest_blocked s (sender c) p sup b) ↔
  (computeReplayKey evm_keccak256 (sender c) (contract_payload p sup) ∉ usedPayloads s ∧
   (hexBytes sup = zero32 ∨ may_supersede s c (contract_payload p sup))) ∧
  (hexBytes sup = zero32 ∨ lower_case_texts p).
Proof.
  intros Hty. destruct (decide (hexBytes sup = zero32)) as [E|E].
  - unfold attest_blocked. cbn [contract_payload p_supersedes]. split.
    + intros H. split_and!; [apply (H duplicate_payload)|by left|by left].
    + intros [[H _] _] []; naive_solver.
  - split.
    + intros H. assert (lower_case_texts p) as [H1 H2].
      { pose proof (H supersedes_not_found) as Hm. pose proof (H supersedes_not_active) as Hn.
        pose proof (H supersedes_schema_mismatch) as Hsc. pose proof (H supersedes_subject_mismatch) as Hsu.
        unfold attest_blocked in Hm, Hn, Hsc, Hsu. cbn [contract_payload p_supersedes] in Hm, Hn, Hsc, Hsu.
        destruct (statusOf s (hexBytes sup)) eqn:Est; [naive_solver| |naive_solver..].
        apply active_record in Est as (a & Ha & Eat & _). rewrite Eat in *.
        pose proof (typed_record _ Hty _ _ Ha) as Ht.
        destruct (rt_schemaId _ Ht) as [? ?], (rt_subject _ Ht) as [? ?]. split.
        - replace (pl_schemaId p) with (bytes_text (schemaId a)); [by apply bytes_text_32|].
          apply dec_stable. naive_solver.
        - replace (pl_subject p) with (bytes_text (subject a)); [by apply bytes_text_32|].
          apply dec_stable. naive_solver. }
      split; [|by right]. by apply not_blocked_iff.
    + intros [H [?|[H1 H2]]]; [done|]. by apply not_blocked_iff.
Qed.

(** C10. Against an endpoint that answers from the registry's storage, the
    preflight of a valid payload ends with the blockers that hold and the replay
    key, nonce, commitment and id the contract derives. It says that the issuer
    can attest, the counter and the time fit, and the predicted id is nonzero and
    free, exactly when the contract's [attest] succeeds with the predicted id and,
    where a record is superseded, schema and subject are written in lower case. *)
Theorem attest_preflight_exact override issuer_ p supersedes d a dom s w c
    (sup := default zeroHash supersedes) (q := contract_payload p sup) :
  registry_of getAddress override = Done d → getAddress issuer_ = Done a → payload_typed p → hash_text sup = true →
  validateToriumAttestationPayload p = Done () → registry_answers d dom s → registry_typed s →
  nonce_of s (hexBytes a) + 1 ≤ UINT256_MAX → sender c = hexBytes a →
  ∃ r tr, preflightToriumAttestation override issuer_ p supersedes default_options w = (Done r, w, tr) ∧
    predicts dom s a p sup r ∧
    let id := hexBytes (ap_attestationId r) in
    (canAttest r = true ∧ attestationCount s + 1 ≤ UINT256_MAX ∧ timestamp c ≤ UINT64_MAX ∧
     id ≠ zero32 ∧ issuer (attestation_at s id) = zero20 ↔
     (∃ s', attest evm_keccak256 dom c q s = Returns (s', id)) ∧ (hexBytes sup = zero32 ∨ lower_case_texts p)).
Proof.
  intros Hd Hi Hp Hs Hval Hr Hty Hn Hc.
  destruct (preflight_predicts override issuer_ p supersedes d a dom s w Hd Hi Hp Hs Hval Hr Hty Hn)
    as (r & tr & Hpre & Hpred).
  exists r, tr. split_and!; [done|done|]. cbv zeta.
  destruct Hpred as (_ & Hcan & _ & _ & _ & Hid). rewrite Hcan, <- Hc, not_blocked_exact by done.
  apply (validate_payload_exact p sup Hp) in Hval as [Hval _]. rewrite <- Hc in Hn, Hid. split.
  - intros ([[Hrep Hsup] Hcase] & Hcount & Ht & Hz & Hfree). split; [|done].
    eexists. apply attest_Returns. cbv zeta. by split_and!.
  - intros [[s' H] Hcase]. apply attest_Returns in H. cbv zeta in H. tauto.
Qed.

(** C37. The preflight compares a schema as text with the lower-cased text of the
    stored record: a payload whose schema is written with an upper-case digit is
    reported as blocked whenever it supersedes an active record, also where the
    contract's [attest] accepts it. *)
Theorem mixed_case_schema_blocked override issuer_ p supersedes d a dom s w c s' id
    (sup := default zeroHash supersedes) :
  registry_of getAddress override = Done d → getAddress issuer_ = Done a → payload_typed p → hash_text sup = true →
  validateToriumAttestationPayload p = Done () → registry_answers d dom s → registry_typed s →
  sender c = hexBytes a → hexBytes sup ≠ zero32 → to_lower (pl_schemaId p) ≠ pl_schemaId p →
  attest evm_keccak256 dom c (contract_payload p sup) s = Returns (s', id) →
  ∃ r tr, preflightToriumAttestation override issuer_ p supersedes default_options w = (Done r, w, tr) ∧
    hexBytes (ap_attestationId r) = id ∧ canAttest r = false ∧ supersedes_schema_mismatch ∈ ap_blockers r.
Proof.
  intros Hd Hi Hp Hs Hval Hr Hty Hc Hsup Hcase H. apply attest_Returns in H. cbv zeta in H.
  destruct H as (_ & _ & [?|(prior & Ha & Hst & _ & _)] & Hn & _ & _ & Hid & _); [done|].
  cbn [contract_payload p_supersedes] in Ha. rewrite Hc in Hn, Hid.
  destruct (preflight_predicts override issuer_ p supersedes d a dom s w Hd Hi Hp Hs Hval Hr Hty Hn)
    as (r & tr & Hpre & Hb & Hcan & _ & _ & _ & Hid').
  assert (attestation_at s (hexBytes sup) = prior) as Eat by (unfold attestation_at; by rewrite Ha).
  assert (attest_blocked s (hexBytes a) p sup supersedes_schema_mismatch) as Hblk.
  { unfold attest_blocked. cbn [contract_payload p_supersedes]. unfold statusOf. rewrite Eat.
    split_and!; [done|done|]. intros E. apply Hcase. rewrite <- E. apply is_bytes32_hash_text.
    destruct (rt_schemaId _ (typed_record _ Hty _ _ Ha)). by apply bytes_text_32. }
  exists r, tr. split_and!; [done|by rewrite Hid'| |by apply Hb].
  apply not_true_iff_false. intros Ht. by apply (proj1 Hcan Ht supersedes_schema_mismatch).
Qed.

(** ** Revocations *)

Definition revoke_blocked (s : storage) (id : bytes32) (issuer_ : Evm.address)
    (b : ToriumAttestationRevocationBlocker) : Prop :=
  match b with
  | attestation_not_found => statusOf s id = Missing
  | attestation_not_active => statusOf s id = Superseded ∨ statusOf s id = Revoked
  | issuer_mismatch => statusOf s id = Active ∧ issuer (attestation_at s id) ≠ issuer_
  end.

Lemma preflight_revocation_seen d dom s h a w :
  registry_answers d dom s → registry_typed s → getAddress a = Done a → hash_text h = true →
  ∃ q, preflight_revocation getAddress W endpoint d h a (λ _, false) w = (Done q, w) ∧
    rp_status q = sdk_status (statusOf s (hexBytes h)) ∧
    (canRevoke q = true ↔ ∀ b, b ∉ rp_blockers q) ∧
    ∀ b, b ∈ rp_blockers q ↔ revoke_blocked s (hexBytes h) (hexBytes a) b.
Proof.
  intros Hr Hty Ha Hh. unfold preflight_revocation, revoke_blocked, mbind, io_bind. cbn [check_signal].
  rewrite (read_status_seen d dom s h w Hr Hh). cbn [check_signal].
  destruct (statusOf s (hexBytes h)) eqn:Est; cbn [sdk_status].
  2: { apply active_record in Est as (prior & Hp & -> & Hst & Hg). apply (typed_record _ Hty) in Hp.
       unfold mbind, io_bind. rewrite (read_record_seen d dom s h prior w active Hr Hh Hg Hp).
       eexists. split; [reflexivity|]. cbn [rp_status canRevoke rp_blockers].
       split; [done|]. split; [apply blockers_nil|]. intros b.
       cbn [record_seen ta_issuer]. rewrite elem_of_push_if, elem_of_nil.
       rewrite (address_text_eq _ _ (rt_issuer _ Hp) Ha), negb_true_iff, bool_decide_eq_false.
       destruct b; naive_solver. }
  all: eexists; split; [reflexivity|]; cbn [rp_status canRevoke rp_blockers];
    split; [done|]; split; [apply blockers_nil|]; intros b; rewrite list_elem_of_singleton; destruct b; naive_solver.
Qed.

(** Against an endpoint that answers from the registry's storage, the
    preflight of a revocation reports the record's status and exactly the reasons
    against revoking it, and says the issuer can revoke exactly when the
    contract's [revoke] succeeds for a nonzero reason and a time that fits. *)
Theorem revocation_preflight_exact override h issuer_ d a dom s w c reason :
  registry_of getAddress override = Done d → getAddress issuer_ = Done a → hash_text h = true →
  registry_answers d dom s → registry_typed s →
  sender c = hexBytes a → reason ≠ zero32 → timestamp c ≤ UINT64_MAX →
  ∃ q tr,
    preflightToriumAttestationRevocation getAddress toLowerCase W user_aborted timer_fired now random wait endpoint
      override h issuer_ default_options w = (Done q, w, tr) ∧
    rp_status q = sdk_status (statusOf s (hexBytes h)) ∧
    (∀ b, b ∈ rp_blockers q ↔ revoke_blocked s (hexBytes h) (hexBytes a) b) ∧
    (canRevoke q = true ↔ ∃ s', revoke c (hexBytes h) reason s = Returns s').
Proof.
  intros Hd Hi Hh Hr Hty Hc Hz Ht. apply sv_address in Hi as Ha. destruct Ha as [Ha _].
  destruct (preflight_revocation_seen d dom s h a w Hr Hty Ha Hh) as (q & Hq & Hst & Hcan & Hb).
  unfold SdkAttestations.preflightToriumAttestationRevocation, after. rewrite Hd, Hi. cbn [mbind outcome_bind].
  destruct (contract_action_default toLowerCase W user_aborted timer_fired now random wait
              (js "preflightToriumAttestationRevocation") (js "eth_call") None
              (preflight_revocation getAddress W endpoint d h a) w q w)
    as [tr Htr]; [vm_compute; reflexivity..|exact Hq|].
  exists q, tr. split_and!; [done|done|done|]. rewrite Hcan. setoid_rewrite Hb. split.
  - intros Hnb. destruct (statusOf s (hexBytes h)) eqn:Est.
    + by destruct (Hnb attestation_not_found).
    + apply active_record in Est as E. destruct E as (r & Hrec & Eat & Hact & _).
      eexists. apply revoke_Returns. exists r. split_and!; try done.
      destruct (decide (issuer r = sender c)) as [|Hne]; [done|]. exfalso.
      apply (Hnb issuer_mismatch). split; [done|]. by rewrite Eat, <- Hc.
    + destruct (Hnb attestation_not_active). by left.
    + destruct (Hnb attestation_not_active). by right.
  - intros [s' H]. apply revoke_Returns in H as (r & _ & Hrec & Hiss & Hact & _).
    assert (attestation_at s (hexBytes h) = r) as Eat by (unfold attestation_at; by rewrite Hrec).
    unfold revoke_blocked, statusOf. rewrite Eat, Hact, Hiss, Hc. intros []; naive_solver.
Qed.
End preflights.

(** ** A registry with one record *)

Module Samples.
Import SdkViem.Samples.

Definition digest (z : Z) : jstr := bytes_text (replicate 32 z).
Definition registry_text : jstr := bytes_text (replicate 20 9).
Definition issuer_text : jstr := bytes_text (replicate 20 5).
Definition at_registry : option ToriumContractDeploymentOverride := Some (DeploymentOverride registry_text None None).
Definition deployment : ToriumContractDeployment :=
  Deployment toriumAttestationRegistry registry_text (js "1.0.0")
    (entry_code (registryCatalog toriumAttestationRegistry)).

Definition dom : domain := Domain 7 (replicate 20 9).
Definition by_issuer : context := Context_ (hexBytes issuer_text) 1000.

Definition first_payload : ToriumAttestationPayload :=
  AttestationPayload (digest 171) (NInt 1) (digest 2) None (digest 3) (digest 4) (digest 5).
Definition next_payload : ToriumAttestationPayload :=
  AttestationPayload (digest 171) (NInt 2) (digest 2) None (digest 6) (digest 4) (digest 5).
(** The same, with the schema in upper case. *)
Definition upper_payload : ToriumAttestationPayload :=
  AttestationPayload (js "0xABABABABABABABABABABABABABABABABABABABABABABABABABABABABABABABAB")
    (NInt 2) (digest 2) None (digest 6) (digest 4) (digest 5).

Definition first_arguments : payload := contract_payload first_payload zeroHash.
Definition first_id : bytes32 :=
  computeAttestationId hash_of dom (sender by_issuer) 1 (computeCommitment hash_of first_arguments).
Definition stored : storage := attested hash_of deployed by_issuer first_arguments 1 1000 first_id.

Lemma stored_reachable : reachable hash_of dom stored.
Proof.
  eapply rtc_l; [|apply rtc_refl]. apply (step_attest hash_of dom by_issuer first_arguments _ _ first_id).
  - apply (bool_decide_eq_false_1 (_ = _)). vm_compute. reflexivity.
  - vm_compute. reflexivity.
Qed.

Lemma digest_word b : bool_decide (length b = 32%nat) = true → Forall byte b → word 32 b.
Proof. intros H%bool_decide_eq_true_1. by split. Qed.

Lemma stored_typed : registry_typed stored.
Proof.
  split.
  - intros id a. unfold stored, attested. cbn [attestations].
    rewrite bool_decide_eq_true_2 by (vm_compute; reflexivity).
    intros [[<- <-]|[_ H]]%lookup_insert_Some; [|done].
    unfold first_arguments, contract_payload.
    split; cbn [new_attestation schemaId schemaVersion issuer issuerNonce subject referenceHash contentHash metadataHash
      metadataUriHash supersedes supersededBy createdAt revokedAt supersededAt revocationReasonHash
      p_schemaId p_schemaVersion p_subject p_referenceHash p_contentHash p_metadataHash p_metadataUriHash p_supersedes];
      try (vm_compute; split; (discriminate || reflexivity));
      try (split; [vm_compute; reflexivity|apply hexBytes_byte]).
    all: split; [done|]; apply Forall_replicate; done.
  - intros a. unfold stored, attested, nonce_of. cbn [issuerNonces].
    destruct (decide (a = sender by_issuer)) as [->|Hne].
    + rewrite lookup_insert_eq. vm_compute. split; discriminate.
    + rewrite lookup_insert_ne by done. vm_compute. split; discriminate.
Qed.

(** An endpoint that answers from the storage, whatever the world. *)
Definition endpoint_of (s : storage) (r : request) (w : unit) : outcome jsv * unit :=
  (match r with
   | GetChainId => Done (JNum (NInt (chainid dom)))
   | ReadContract _ _ f (Some [JStr k]) =>
       let b := hexBytes k in
       if f =s? js "usedPayloads" then Done (JBool (bool_decide (b ∈ usedPayloads s)))
       else if f =s? js "issuerNonces" then Done (JBig (nonce_of s b))
       else if f =s? js "statusOf" then Done (JNum (NInt (status_index (statusOf s b))))
       else match getAttestation s b with
            | Returns a => Done (record_value bytes_text a)
            | Reverts _ => throw_type_error (js "reverted")
            end
   | _ => Done JUndef
   end, w).

Lemma sample_registry_answers s : registry_answers getAddress unit (endpoint_of s) bytes_text deployment dom s.
Proof.
  constructor; try done.
  intros h a w _ H. unfold endpoint_of, readAttestationFunction.
    change (js "getAttestation" =s? js "usedPayloads") with false.
    change (js "getAttestation" =s? js "issuerNonces") with false.
    change (js "getAttestation" =s? js "statusOf") with false. cbv beta iota zeta. by rewrite H.
Qed.

Definition preflight_of (p : ToriumAttestationPayload) :=
  preflightToriumAttestation keccak256 encode getAddress to_lower unit (λ _, false) (λ _, false)
    (λ _, 0) (λ _, NInt 0) (λ _ w, w) (endpoint_of stored) at_registry issuer_text p (Some (bytes_text first_id))
    default_options ().

Lemma registry_resolved : registry_of getAddress at_registry = Done deployment.
Proof. vm_compute. reflexivity. Qed.
Lemma issuer_resolved : getAddress issuer_text = Done issuer_text.
Proof. vm_compute. reflexivity. Qed.
Lemma next_typed : payload_typed next_payload.
Proof. split; vm_compute; reflexivity. Qed.
Lemma upper_typed : payload_typed upper_payload.
Proof. split; vm_compute; reflexivity. Qed.

Lemma upper_attests :
  ∃ s' id, attest hash_of dom by_issuer (contract_payload upper_payload (bytes_text first_id)) stored = Returns (s', id).
Proof. do 2 eexists. vm_compute. reflexivity. Qed.

Lemma attest_preflight_exact_witness :
  ∃ r tr, preflight_of next_payload = (Done r, (), tr) ∧ canAttest r = true ∧ ap_issuerNonce r = 2.
Proof.
  destruct (attest_preflight_exact keccak256 encode getAddress to_lower unit (λ _, false) (λ _, false)
    (λ _, 0) (λ _, NInt 0) (λ _ w, w) (endpoint_of stored) bytes_text hash_of at_registry issuer_text next_payload
    (Some (bytes_text first_id)) deployment issuer_text dom stored () by_issuer) as (r & tr & Hp & Hpred & Hcan).
  - exact registry_resolved.
  - exact issuer_resolved.
  - exact next_typed.
  - vm_compute. reflexivity.
  - vm_compute. reflexivity.
  - apply sample_registry_answers.
  - exact stored_typed.
  - vm_compute. discriminate.
  - reflexivity.
  - destruct Hpred as (_ & _ & _ & Hn & _ & Hid). exists r, tr. split; [exact Hp|]. split.
    + apply Hcan. rewrite Hid. split.
      * eexists. vm_compute. reflexivity.
      * right. split; vm_compute; reflexivity.
    + rewrite Hn. vm_compute. reflexivity.
Defined.

Lemma mixed_case_schema_blocked_witness :
  ∃ r tr, preflight_of upper_payload = (Done r, (), tr) ∧ canAttest r = false ∧
    ∃ s', attest hash_of dom by_issuer (contract_payload upper_payload (bytes_text first_id)) stored
          = Returns (s', hexBytes (ap_attestationId r)).
Proof.
  destruct upper_attests as (s' & id & Hattest).
  destruct (mixed_case_schema_blocked keccak256 encode getAddress to_lower unit (λ _, false) (λ _, false)
    (λ _, 0) (λ _, NInt 0) (λ _ w, w) (endpoint_of stored) bytes_text hash_of at_registry issuer_text upper_payload
    (Some (bytes_text first_id)) deployment issuer_text dom stored () by_issuer s' id)
    as (r & tr & Hp & Hid & Hcan & _).
  - exact registry_resolved.
  - exact issuer_resolved.
  - exact upper_typed.
  - vm_compute. reflexivity.
  - vm_compute. reflexivity.
  - apply sample_registry_answers.
  - exact stored_typed.
  - reflexivity.
  - apply (bool_decide_eq_false_1 (_ = _)). vm_compute. reflexivity.
  - vm_compute. discriminate.
  - exact Hattest.
  - exists r, tr. split; [exact Hp|]. split; [exact Hcan|]. exists s'. rewrite Hid. exact Hattest.
Defined.

Lemma revocation_preflight_exact_witness :
  ∃ q tr,
    preflightToriumAttestationRevocation getAddress to_lower unit (λ _, false) (λ _, false) (λ _, 0) (λ _, NInt 0)
      (λ _ w, w) (endpoint_of stored) at_registry (bytes_text first_id) issuer_text default_options ()
    = (Done q, (), tr) ∧ canRevoke q = true.
Proof.
  destruct (revocation_preflight_exact keccak256 encode getAddress to_lower unit (λ _, false) (λ _, false)
    (λ _, 0) (λ _, NInt 0) (λ _ w, w) (endpoint_of stored) bytes_text hash_of at_registry (bytes_text first_id)
    issuer_text deployment issuer_text dom stored () by_issuer (replicate 32 1)) as (q & tr & Hp & _ & _ & Hcan).
  - exact registry_resolved.
  - exact issuer_resolved.
  - vm_compute. reflexivity.
  - apply sample_registry_answers.
  - exact stored_typed.
  - reflexivity.
  - discriminate.
  - vm_compute. discriminate.
  - exists q, tr. split; [exact Hp|]. apply Hcan. eexists. vm_compute. reflexivity.
Defined.
End Samples.
