(* ===== verification/SignerGuard.v ===== *)
(** chain/operator/signer-state-guard.mjs: the check an operator runs before
    restoring a validator's signer state.  A restore is accepted only when the
    candidate has the same consensus identity and is not behind the current
    signer position. *)

From S2P Require Import Prelude JsNum JsText JsValue JsonText JsPath JsOps.

Open Scope Z_scope.

(** ** Constants *)

Definition keyRelativePath : jstr := js "config/priv_validator_key.json".
Definition stateRelativePath : jstr := js "data/priv_validator_state.json".
Definition maximumFileBytes : Z := 64 * 1024.
Definition maximumHeight : Z := 9223372036854775807.
Definition maximumRound : Z := 2147483647.
Definition ed25519Pkcs8SeedPrefix : list Z := bytes_of_hex (js "302e020100300506032b657004220420").
Definition ed25519SpkiPublicPrefix : list Z := bytes_of_hex (js "302a300506032b6570032100").

(** ** Data *)

(** What [validateSignerRestore] destructures from its argument. *)
Record options := Options {
  currentHome : value;
  candidateHome : value;
  validatorStopped : value;
  trustedMaximumHeight : value;
}.

(** What [validateState] returns; [signature] and [signbytes] are null in an
    unsigned state. *)
Record signer_state := SignerState {
  height : jstr;
  round : num;
  step : num;
  signature : value;
  signbytes : value;
}.

(** What [readSignerHome] returns. *)
Record signer := Signer { home : jstr; key : value; state : signer_state; label : jstr }.

(** [fs.Stats], as far as the guard reads it. *)
Record metadata := Metadata {
  isDirectory : bool; isFile : bool; isSymbolicLink : bool; mode : Z; size : Z
}.

Record position := Position { position_height : jstr; position_round : num; position_step : num }.

(** The returned report. *)
Record restore_report := RestoreReport {
  valid : bool;
  sameConsensusIdentity : bool;
  candidateNotBehind : bool;
  samePosition : bool;
  currentPosition : position;
  candidatePosition : position;
  report_trustedMaximumHeight : jstr;
  secretMaterialReturned : bool;
  validatorStoppedEvidenceAccepted : bool;
}.

(** ** Field checks *)

Definition assertExactKeys (v : value) (expected : list jstr) (label : jstr) : result unit :=
  throw_if (not_plain_object v) (label +++ js " must be an object");;
  let actual := sort_strings (keys v) in
  let required := sort_strings expected in
  throw_if (negb (bool_decide (actual = required))) (label +++ js " fields differ from the contract").

Definition assertAllowedKeys (v : value) (required optional : list jstr) (label : jstr)
    : result unit :=
  throw_if (not_plain_object v) (label +++ js " must be an object");;
  for_each (λ f, throw_if (negb (has_own v f)) (label +++ js " fields differ from the contract"))
    required;;
  throw_if (existsb (λ f, negb (jmem f (required ++ optional))) (keys v))
    (label +++ js " fields differ from the contract").

Definition decodeBoundedBase64 (v : value) (label : jstr) : result (list Z) :=
  let message := label +++ js " must be canonical bounded base64" in
  throw_if (negb (is_string v) || (jlen (v_str v) <? 4) || (16 * 1024 <? jlen (v_str v))
            || negb (is_base64_text (v_str v))) message;;
  let decoded := base64_decode (v_str v) in
  throw_if (negb (base64_encode decoded =s? v_str v)) message;;
  Ok decoded.

Definition decodeCanonicalBase64 (v : value) (bytes : Z) (label : jstr) : result (list Z) :=
  decoded ← decodeBoundedBase64 v label;
  throw_if (negb (Z.of_nat (length decoded) =? bytes))
    (label +++ js " must decode to " +++ dec_of_Z bytes +++ js " bytes");;
  Ok decoded.

Definition decodeCanonicalUpperHex (v : value) (label : jstr) : result (list Z) :=
  let message := label +++ js " must be canonical bounded uppercase hex" in
  throw_if (negb (is_string v) || (jlen (v_str v) <? 2) || (32 * 1024 <? jlen (v_str v))
            || negb (jlen (v_str v) mod 2 =? 0) || negb (forallb is_upper_hex (v_str v))) message;;
  let decoded := bytes_of_hex (v_str v) in
  throw_if (negb (upper_hex decoded =s? v_str v)) message;;
  Ok decoded.

Definition parseHeight (v : value) (label : jstr) : result Z :=
  throw_if (negb (is_string v) || negb (is_canonical_dec (v_str v)))
    (label +++ js " must be a non-negative decimal string");;
  parsed ← to_bigint v;
  throw_if (maximumHeight <? parsed) (label +++ js " must fit a non-negative CometBFT int64");;
  Ok parsed.

(** ** Positions *)

(** The loop over the two arrays of comparePosition. *)
Fixpoint compare_values (left right : list Z) : Z :=
  match left, right with
  | l :: ls, r :: rs => if l <? r then -1 else if r <? l then 1 else compare_values ls rs
  | _, _ => 0
  end.

Definition position_values (s : signer_state) : result (list Z) :=
  h ← to_bigint (VStr (height s));
  r ← to_bigint (VNum (round s));
  t ← to_bigint (VNum (step s));
  Ok [h; r; t].

Definition comparePosition (left right : signer_state) : result Z :=
  leftValues ← position_values left;
  rightValues ← position_values right;
  Ok (compare_values leftValues rightValues).

Definition publicPosition (s : signer_state) : position :=
  Position (height s) (round s) (step s).

(** The upper-case twenty-byte address pattern. *)
Definition is_upper_address (s : jstr) : bool :=
  Nat.eqb (length s) 40 && forallb is_upper_hex s.

Section guard.
(** node:crypto and the file system. *)
Context (key_object : Type).
Context (createPrivateKey : list Z → result key_object).
Context (publicOf : key_object → result key_object).
Context (createPublicKey : list Z → result key_object).
Context (exportSpki : key_object → list Z).
Context (verify : list Z → key_object → list Z → bool).
Context (sha256 : list Z → list Z).
Context (lstat : jstr → result metadata).
Context (realpath : jstr → result jstr).
Context (readFile : jstr → result jstr).
Context (cwd : jstr).

(** [createPublicKey] of a private key is [publicOf]. *)
Definition deriveEd25519Public (seed : list Z) : result (list Z) :=
  privateKey ← createPrivateKey (ed25519Pkcs8SeedPrefix ++ seed);
  publicKey ← publicOf privateKey;
  let publicDer := exportSpki publicKey in
  Ok (drop (length publicDer - 32) publicDer).

Definition ed25519PublicKey (publicBytes : list Z) : result key_object :=
  createPublicKey (ed25519SpkiPublicPrefix ++ publicBytes).

Definition validateKey (k : value) (label : jstr) : result unit :=
  let pub_key := field k (js "pub_key") in
  let priv_key := field k (js "priv_key") in
  assertExactKeys k [js "address"; js "priv_key"; js "pub_key"] label;;
  assertExactKeys pub_key [js "type"; js "value"] (label +++ js " public key");;
  assertExactKeys priv_key [js "type"; js "value"] (label +++ js " private key");;
  throw_if (negb (is_upper_address (to_string (field k (js "address")))))
    (label +++ js " address must be uppercase 20-byte hex");;
  throw_if (negb (strict_eq (field pub_key (js "type")) (VStr (js "tendermint/PubKeyEd25519"))))
    (label +++ js " public key type is unsupported");;
  throw_if (negb (strict_eq (field priv_key (js "type")) (VStr (js "tendermint/PrivKeyEd25519"))))
    (label +++ js " private key type is unsupported");;
  publicBytes ← decodeCanonicalBase64 (field pub_key (js "value")) 32 (label +++ js " public key");
  privateBytes ← decodeCanonicalBase64 (field priv_key (js "value")) 64 (label +++ js " private key");
  throw_if (negb (bool_decide (drop 32 privateBytes = publicBytes)))
    (label +++ js " public and private key material disagree");;
  derivedPublicBytes ← deriveEd25519Public (take 32 privateBytes);
  throw_if (negb (bool_decide (derivedPublicBytes = publicBytes)))
    (label +++ js " private-key seed does not derive the public key");;
  let address := upper_hex (take 20 (sha256 publicBytes)) in
  throw_if (negb (strict_eq (VStr address) (field k (js "address"))))
    (label +++ js " address differs from the public key").

(** The range checks on [round] and [step]. *)
Definition check_round_step (v : value) (label : jstr) : result unit :=
  let round := field v (js "round") in
  let step := field v (js "step") in
  throw_if (negb (v_safe_integer round) || num_ltb (v_num round) (NInt 0)
            || num_ltb (NInt maximumRound) (v_num round))
    (label +++ js " round must fit a non-negative CometBFT int32");;
  throw_if (negb (v_safe_integer step) || num_ltb (v_num step) (NInt 0)
            || num_ltb (NInt 3) (v_num step))
    (label +++ js " step must be an integer from 0 through 3").

(** The checks of a signed state (height above zero). *)
Definition check_signed (v signature signbytes : value) (label : jstr) (publicKeyBase64 : value)
    : result unit :=
  throw_if (num_ltb (v_num (field v (js "step"))) (NInt 1) || is_null signature)
    (label +++ js " signed state requires step 1 through 3");;
  signatureBytes ← decodeCanonicalBase64 signature 64 (label +++ js " signature");
  signBytes ← decodeCanonicalUpperHex signbytes (label +++ js " signbytes");
  publicBytes ← decodeCanonicalBase64 publicKeyBase64 32 (label +++ js " public key");
  publicKey ← ed25519PublicKey publicBytes;
  throw_if (negb (verify signBytes publicKey signatureBytes))
    (label +++ js " signature does not verify over signbytes").

Definition validateState (v : value) (label : jstr) (publicKeyBase64 : value)
    : result signer_state :=
  assertAllowedKeys v [js "height"; js "round"; js "step"] [js "signature"; js "signbytes"] label;;
  h ← parseHeight (field v (js "height")) (label +++ js " height");
  check_round_step v label;;
  let signature := nullish (field v (js "signature")) VNull in
  let signbytes := nullish (field v (js "signbytes")) VNull in
  let signaturePresent := negb (is_null signature) in
  let signbytesPresent := negb (is_null signbytes) in
  throw_if (negb (Bool.eqb signaturePresent signbytesPresent))
    (label +++ js " signature and signbytes must appear together");;
  (if h =? 0 then
     throw_if (negb (strict_eq (field v (js "round")) (VNum (NInt 0)))
               || negb (strict_eq (field v (js "step")) (VNum (NInt 0))) || signaturePresent)
       (label +++ js " initial state must be (0,0,0) and unsigned")
   else check_signed v signature signbytes label publicKeyBase64);;
  Ok (SignerState (v_str (field v (js "height"))) (v_num (field v (js "round")))
        (v_num (field v (js "step"))) signature signbytes).

(** ** Files *)

Definition mode_bits (m : Z) : Z := Z.land m 511.

Definition requireRealDirectory (target label : jstr) : result jstr :=
  metadata ← lstat target;
  throw_if (negb (isDirectory metadata) || isSymbolicLink metadata)
    (label +++ js " must be a real directory");;
  throw_if (negb (mode_bits (mode metadata) =? 448)) (label +++ js " mode must be 0700");;
  realpath target.

Definition readStrictJson (target label : jstr) : result value :=
  metadata ← lstat target;
  throw_if (negb (isFile metadata) || isSymbolicLink metadata)
    (label +++ js " must be a regular file");;
  throw_if (negb (mode_bits (mode metadata) =? 384)) (label +++ js " mode must be 0600");;
  throw_if ((size metadata <? 2) || (maximumFileBytes <? size metadata))
    (label +++ js " size is outside the allowed range");;
  parsed ← catch (text ← readFile target; json_parse text)
             (λ _, error (label +++ js " must contain valid JSON"));
  throw_if (not_plain_object parsed) (label +++ js " must contain one JSON object");;
  Ok parsed.

Definition readSignerHome (homeValue : value) (label : jstr) : result signer :=
  throw_if (negb (is_string homeValue) || (jlen (v_str homeValue) =? 0))
    (label +++ js " signer home is required");;
  home ← requireRealDirectory (path_resolve cwd (v_str homeValue)) (label +++ js " home");
  for_each (λ relative,
      requireRealDirectory (path_join [home; relative]) (label +++ js " " +++ relative) ;; Ok ())
    [js "config"; js "data"];;
  key ← readStrictJson (path_join [home; keyRelativePath]) (label +++ js " consensus key");
  validateKey key (label +++ js " consensus key");;
  raw ← readStrictJson (path_join [home; stateRelativePath]) (label +++ js " signer state");
  state ← validateState raw (label +++ js " signer state")
            (field (field key (js "pub_key")) (js "value"));
  Ok (Signer home key state label).

(** ** The decision *)

Definition sameIdentity (a b : value) : bool :=
  let pub v := field v (js "pub_key") in
  strict_eq (field a (js "address")) (field b (js "address"))
  && strict_eq (field (pub a) (js "type")) (field (pub b) (js "type"))
  && strict_eq (field (pub a) (js "value")) (field (pub b) (js "value")).

Definition checkCeiling (trustedCeiling : Z) (s : signer) : result unit :=
  h ← to_bigint (VStr (height (state s)));
  throw_if (trustedCeiling <? h) (label s +++ js " signer state exceeds trusted maximum height").

(** The decision once both homes have been read. *)
Definition decideRestore (trustedCeiling : Z) (current candidate : signer) : result restore_report :=
  throw_if (home current =s? home candidate) (js "current and candidate signer homes must differ");;
  throw_if (negb (sameIdentity (key current) (key candidate)))
    (js "candidate consensus identity differs from current signer");;
  for_each (checkCeiling trustedCeiling) [current; candidate];;
  positionComparison ← comparePosition (state candidate) (state current);
  throw_if (positionComparison <? 0) (js "candidate signer state is behind current signer state");;
  throw_if ((positionComparison =? 0)
            && (negb (strict_eq (signbytes (state candidate)) (signbytes (state current)))
                || negb (strict_eq (signature (state candidate)) (signature (state current)))))
    (js "same signer position has different sign bytes or signature");;
  Ok (RestoreReport true true true (positionComparison =? 0)
        (publicPosition (state current)) (publicPosition (state candidate))
        (dec_of_Z trustedCeiling) false true).

Definition validateSignerRestore (o : options) : result restore_report :=
  throw_if (negb (strict_eq (validatorStopped o) (VBool true)))
    (js "validator-stopped evidence is required");;
  trustedCeiling ← parseHeight (trustedMaximumHeight o) (js "trusted maximum signer height");
  current ← readSignerHome (currentHome o) (js "current");
  candidate ← readSignerHome (candidateHome o) (js "candidate");
  decideRestore trustedCeiling current candidate.

(** ** Command line *)

Definition set_option (o : options) (option v : jstr) : options :=
  if option =s? js "--current-home" then
    Options (VStr v) (candidateHome o) (validatorStopped o) (trustedMaximumHeight o)
  else if option =s? js "--candidate-home" then
    Options (currentHome o) (VStr v) (validatorStopped o) (trustedMaximumHeight o)
  else
    Options (currentHome o) (candidateHome o) (validatorStopped o) (VStr v).

Fixpoint parseArgumentsFrom (o : options) (argv : list jstr) : result options :=
  match argv with
  | [] => Ok o
  | option :: rest =>
      if option =s? js "--validator-stopped" then
        parseArgumentsFrom
          (Options (currentHome o) (candidateHome o) (VBool true) (trustedMaximumHeight o)) rest
      else if negb (jmem option [js "--current-home"; js "--candidate-home";
                                 js "--trusted-maximum-height"]) then
        error (js "unknown signer-state guard option " +++ option)
      else
        match rest with
        | [] => error (option +++ js " requires a path")
        | v :: rest' =>
            if bool_decide (v = []) || starts_with (js "--") v
            then error (option +++ js " requires a path")
            else parseArgumentsFrom (set_option o option v) rest'
        end
  end.

Definition parseArguments (argv : list jstr) : result options :=
  parseArgumentsFrom (Options VNull VNull (VBool false) VNull) argv.

Definition position_value (p : position) : value :=
  VObj [(js "height", VStr (position_height p)); (js "round", VNum (position_round p));
        (js "step", VNum (position_step p))].

Definition report_value (r : restore_report) : value :=
  VObj [(js "valid", VBool (valid r));
        (js "sameConsensusIdentity", VBool (sameConsensusIdentity r));
        (js "candidateNotBehind", VBool (candidateNotBehind r));
        (js "samePosition", VBool (samePosition r));
        (js "currentPosition", position_value (currentPosition r));
        (js "candidatePosition", position_value (candidatePosition r));
        (js "trustedMaximumHeight", VStr (report_trustedMaximumHeight r));
        (js "secretMaterialReturned", VBool (secretMaterialReturned r));
        (js "validatorStoppedEvidenceAccepted", VBool (validatorStoppedEvidenceAccepted r))].

Definition main (argv : list jstr) : process_outcome :=
  match o ← parseArguments argv; validateSignerRestore o with
  | Ok report => Process (stringify 2 0 (report_value report) +++ [10%N]) [] 0
  | Throw e =>
      Process [] (js "Torium signer-state guard rejected candidate: " +++ exn_message e +++ [10%N]) 2
  end.
End guard.
