(* ===== verification/SignerGuardFacts.v ===== *)
(** Properties of the signer-state guard: what an accepted restore guarantees,
    that the decision is exactly the documented one, that chains of accepted
    restores never move a signer back, and the codecs it relies on. *)

From S2P Require Import Prelude JsNum JsText JsValue JsonText JsPath JsOps SignerGuard.

Open Scope Z_scope.

(** ** Positions *)

(** A signer position as numbers. *)
Definition pos (s : signer_state) : Z * Z * Z :=
  (Z_of_dec (height s), num_Z (round s), num_Z (step s)).

(** CometBFT's order on (height, round, step). *)
Definition pos_lt (a b : Z * Z * Z) : Prop :=
  let '(h, r, t) := a in
  let '(h', r', t') := b in
  h < h' ∨ (h = h' ∧ (r < r' ∨ (r = r' ∧ t < t'))).

Definition pos_le (a b : Z * Z * Z) : Prop := pos_lt a b ∨ a = b.

#[export] Instance pos_le_preorder : PreOrder pos_le.
Proof.
  split; [by right|]. intros [[??]?] [[??]?] [[??]?] [H1|E1] [H2|E2]; simplify_eq/=;
    [left; simpl in *; lia|by left|by left|by right].
Qed.

#[export] Instance pos_lt_irreflexive : Irreflexive pos_lt.
Proof. intros [[??]?]. unfold complement, pos_lt. lia. Qed.

Lemma pos_le_not_lt a b : pos_le b a → ¬ pos_lt a b.
Proof. destruct a as [[??]?], b as [[??]?]. intros [H|E]; simplify_eq/=; lia. Qed.

(** ** Well-formed signer states *)

Definition is_text (v : value) : bool := is_null v || is_string v.

Record wf_state (s : signer_state) : Prop := {
  wf_height : is_canonical_dec (height s) = true;
  wf_height_max : Z_of_dec (height s) ≤ maximumHeight;
  wf_round : num_int (round s) = Some (num_Z (round s));
  wf_round_range : 0 ≤ num_Z (round s) ≤ maximumRound;
  wf_step : num_int (step s) = Some (num_Z (step s));
  wf_step_range : 0 ≤ num_Z (step s) ≤ 3;
  wf_texts : is_text (signature s) = true ∧ is_text (signbytes s) = true;
  wf_unsigned : Z_of_dec (height s) = 0 →
    num_Z (round s) = 0 ∧ num_Z (step s) = 0 ∧ signature s = VNull ∧ signbytes s = VNull;
  wf_signed : 0 < Z_of_dec (height s) →
    1 ≤ num_Z (step s) ∧ signature s ≠ VNull ∧ signbytes s ≠ VNull;
}.

Lemma to_bigint_canonical h :
  is_canonical_dec h = true → to_bigint (VStr h) = Ok (Z_of_dec h).
Proof. intros Hh. simpl. by rewrite bigint_of_canonical. Qed.

Lemma to_bigint_int n z : num_int n = Some z → to_bigint (VNum n) = Ok z.
Proof. intros Hn. simpl. by rewrite Hn. Qed.

Lemma parseHeight_Ok v l z :
  parseHeight v l = Ok z ↔
  ∃ s, v = VStr s ∧ is_canonical_dec s = true ∧ z = Z_of_dec s ∧ z ≤ maximumHeight.
Proof.
  unfold parseHeight. split.
  - intros H. passed H as Hg. take H as p Hp. passed H as Hm. inv_result. inv_bool.
    destruct v as [| | | |s| |]; try done. rewrite to_bigint_canonical in Hp by done.
    inv_result. eauto.
  - intros (s & -> & Hs & -> & Hz). simpl is_string. cbn [v_str].
    rewrite Hs, to_bigint_canonical by done. simpl.
    by replace (maximumHeight <? Z_of_dec s) with false by lia.
Qed.

Lemma Z_of_canonical_nonneg s : is_canonical_dec s = true → 0 ≤ Z_of_dec s.
Proof. intros Hs. by apply Z_of_dec_nonneg, canonical_digits. Qed.

(** A safe integer within bounds, as the guards test it. *)
Lemma bounded_integer v hi :
  negb (v_safe_integer v) || num_ltb (v_num v) (NInt 0) || num_ltb (NInt hi) (v_num v) = false →
  num_int (v_num v) = Some (num_Z (v_num v)) ∧ 0 ≤ num_Z (v_num v) ≤ hi.
Proof.
  intros H. inv_bool. apply v_safe_integer_Z in H as [Hn _]. unfold v_Z in Hn.
  split; [done|].
  erewrite num_ltb_int in H1, H0 by (done || apply Hn). inv_bool. done.
Qed.

Lemma check_round_step_Ok v l u :
  check_round_step v l = Ok u →
  let r := v_num (field v (js "round")) in
  let t := v_num (field v (js "step")) in
  num_int r = Some (num_Z r) ∧ 0 ≤ num_Z r ≤ maximumRound ∧
  num_int t = Some (num_Z t) ∧ 0 ≤ num_Z t ≤ 3 ∧
  is_number (field v (js "round")) = true ∧ is_number (field v (js "step")) = true.
Proof.
  unfold check_round_step. intros H. passed H as Hr. apply throw_if_Ok in H as Ht.
  pose proof (bounded_integer _ _ Hr) as [? ?]. pose proof (bounded_integer _ _ Ht) as [? ?].
  assert (∀ w, v_safe_integer w = true → is_number w = true) by (by intros []).
  inv_bool. cbv zeta. naive_solver.
Qed.

Lemma strict_eq_int v z :
  strict_eq v (VNum (NInt z)) = true → num_int (v_num v) = Some (num_Z (v_num v)) → num_Z (v_num v) = z.
Proof.
  destruct v; try done. simpl. intros H Hn.
  erewrite num_eqb_int in H by (done || apply Hn). by inv_bool.
Qed.

Ltac state_fields := cbn [height round step signature signbytes v_str].

Section guard_facts.
Context (key_object : Type).
Context (createPrivateKey : list Z → result key_object).
Context (publicOf : key_object → result key_object).
Context (createPublicKey : list Z → result key_object).
Context (exportSpki : key_object → list Z).
Context (verify : list Z → key_object → list Z → bool).
Context (sha256 : list Z → list Z).

#[local] Abbreviation validateState := (validateState key_object createPublicKey verify).
(** What [verify] accepted for a signed state. *)
Definition signature_verifies (s : signer_state) (publicKeyBase64 : value) : Prop :=
  ∃ sig msg pub k,
    signature s = VStr (base64_encode sig) ∧ length sig = 64%nat ∧
    signbytes s = VStr (upper_hex msg) ∧
    publicKeyBase64 = VStr (base64_encode pub) ∧ length pub = 32%nat ∧
    ed25519PublicKey key_object createPublicKey pub = Ok k ∧ verify msg k sig = true.

Lemma decodeBoundedBase64_Ok v l b :
  decodeBoundedBase64 v l = Ok b → v = VStr (base64_encode b) ∧ Forall byte b.
Proof.
  unfold decodeBoundedBase64. intros H. passed H as Hg. passed H as He. inv_result. inv_bool.
  destruct v; try done. cbn [v_str] in *. rewrite He. split; [done|].
  by apply base64_decode_bytes.
Qed.

Lemma decodeCanonicalBase64_Ok v n l b :
  decodeCanonicalBase64 v n l = Ok b →
  v = VStr (base64_encode b) ∧ Forall byte b ∧ Z.of_nat (length b) = n.
Proof.
  unfold decodeCanonicalBase64. intros H. take H as d Hd. passed H as Hn. inv_result. inv_bool.
  apply decodeBoundedBase64_Ok in Hd as [? ?]. auto.
Qed.

Lemma decodeCanonicalUpperHex_Ok v l b :
  decodeCanonicalUpperHex v l = Ok b → v = VStr (upper_hex b) ∧ Forall byte b.
Proof.
  unfold decodeCanonicalUpperHex. intros H. passed H as Hg. passed H as He. inv_result. inv_bool.
  destruct v; try done. cbn [v_str] in *. rewrite He. split; [done|apply bytes_of_hex_bytes].
Qed.

Lemma validateState_wf v l pk s :
  validateState v l pk = Ok s →
  wf_state s ∧ (0 < Z_of_dec (height s) → signature_verifies s pk).
Proof.
  unfold SignerGuard.validateState. intros H.
  passed H as Hkeys. take H as h Hh. passed H as Hrs. passed H as Htog. passed H as Hcase.
  inv_result. apply parseHeight_Ok in Hh as (h' & Eh & Hc & -> & Hmax).
  apply check_round_step_Ok in Hrs as (Hr & Hrr & Ht & Htr & Hrn & Htn).
  pose proof (Z_of_canonical_nonneg h' Hc) as Hnn.
  set (sg := nullish (field v (js "signature")) VNull) in *.
  set (sb := nullish (field v (js "signbytes")) VNull) in *.
  apply negb_false_iff, Bool.eqb_prop in Htog. rewrite Eh. simpl v_str.
  destruct (Z.eqb_spec (Z_of_dec h') 0) as [E|E].
  - apply throw_if_Ok in Hcase. apply orb_false_iff in Hcase as [Hcase Hsg].
    inv_bool. apply strict_eq_int in H, H0; [|done..].
    rewrite Hsg in Htog. symmetry in Htog. simpl in Htog. inv_bool.
    assert (∀ w, is_null w = true → w = VNull) as Hnull by (by intros []).
    split; [split; state_fields; try done; try lia|state_fields; lia].
    + by rewrite (Hnull sg), (Hnull sb).
    + intros _. split_and!; auto.
  - unfold check_signed in Hcase. passed Hcase as Hstep. take Hcase as sig Hsig.
    take Hcase as msg Hmsg. take Hcase as pub Hpub. take Hcase as k Hk.
    apply throw_if_Ok, negb_false_iff in Hcase. inv_bool.
    apply decodeCanonicalBase64_Ok in Hsig as (Esig & _ & Hsl), Hpub as (Epk & _ & Hpl).
    apply decodeCanonicalUpperHex_Ok in Hmsg as (Esb & _).
    erewrite num_ltb_int in H by (done || apply Ht). inv_bool.
    split; [split; state_fields; try done; try lia|state_fields; intros _].
    + by rewrite Esig, Esb.
    + intros _. by rewrite Esig, Esb.
    + exists sig, msg, pub, k. state_fields. split_and!; try done; lia.
Qed.

(** ** Keys *)

(** What a validated consensus key file says, in bytes. *)
Record wf_key (k : value) (pub : list Z) : Prop := {
  wf_public : field (field k (js "pub_key")) (js "value") = VStr (base64_encode pub);
  wf_public_bytes : Forall byte pub ∧ length pub = 32%nat;
  wf_type : field (field k (js "pub_key")) (js "type") = VStr (js "tendermint/PubKeyEd25519");
  wf_address : field k (js "address") = VStr (upper_hex (take 20 (sha256 pub)));
  wf_private : ∃ seed,
    field (field k (js "priv_key")) (js "value") = VStr (base64_encode (seed ++ pub)) ∧
    length seed = 32%nat ∧
    deriveEd25519Public key_object createPrivateKey publicOf exportSpki seed = Ok pub;
}.

Lemma validateKey_wf k l :
  validateKey key_object createPrivateKey publicOf exportSpki sha256 k l = Ok () →
  ∃ pub, wf_key k pub.
Proof.
  unfold validateKey. intros H. passed H as H1. passed H as H2. passed H as H3.
  passed H as Haddr. passed H as Htype. passed H as Hptype. take H as pub Hpub.
  take H as priv Hpriv. passed H as Hmat. take H as derived Hder. passed H as Hdeq.
  apply throw_if_Ok in H. inv_bool. apply strict_eq_str in Htype.
  apply bool_decide_eq_true in Hmat, Hdeq.
  apply decodeCanonicalBase64_Ok in Hpub as (Epub & Hpub & Hpl), Hpriv as (Epriv & _ & Hvl).
  exists pub. split; [done|split; [done|lia]|done| |].
  - by destruct (field k (js "address")); simpl in H; inv_bool; subst.
  - exists (take 32 priv). subst pub derived. rewrite take_drop. split_and!; [done| |done].
    rewrite length_take. lia.
Qed.

Lemma base64_encode_inj a b :
  Forall byte a → Forall byte b → base64_encode a = base64_encode b → a = b.
Proof. intros Ha Hb H. by rewrite <- (base64_decode_encode a), H, base64_decode_encode. Qed.

Lemma sameIdentity_spec ka kb pa pb :
  wf_key ka pa → wf_key kb pb → sameIdentity ka kb = true ↔ pa = pb.
Proof.
  intros [Va [Ba _] Ta Aa _] [Vb [Bb _] Tb Ab _]. unfold sameIdentity.
  rewrite Va, Vb, Ta, Tb, Aa, Ab. cbn [strict_eq]. rewrite !andb_true_iff, !jeq_spec. split.
  - intros [_ H]. by apply base64_encode_inj.
  - by intros ->.
Qed.

Record wf_signer (s : signer) (pub : list Z) : Prop := {
  signer_key : wf_key (key s) pub;
  signer_wf : wf_state (state s);
  signer_signed : 0 < Z_of_dec (height (state s)) →
    signature_verifies (state s) (VStr (base64_encode pub));
}.

(** ** The order *)

Lemma position_values_wf s :
  wf_state s →
  position_values s = Ok [Z_of_dec (height s); num_Z (round s); num_Z (step s)].
Proof.
  intros [Hh _ Hr _ Ht _ _ _ _]. unfold position_values.
  rewrite to_bigint_canonical, (to_bigint_int _ _ Hr), (to_bigint_int _ _ Ht) by done. done.
Qed.

Lemma comparePosition_wf a b :
  wf_state a → wf_state b →
  ∃ c, comparePosition a b = Ok c ∧
    ((c = -1 ∧ pos_lt (pos a) (pos b)) ∨ (c = 0 ∧ pos a = pos b) ∨ (c = 1 ∧ pos_lt (pos b) (pos a))).
Proof.
  intros Ha Hb. unfold comparePosition. rewrite !position_values_wf by done.
  cbn [mbind result_bind]. eexists. split; [done|]. unfold pos. cbn [compare_values].
  destruct (Z.ltb_spec (Z_of_dec (height a)) (Z_of_dec (height b))); [left; simpl; lia|].
  destruct (Z.ltb_spec (Z_of_dec (height b)) (Z_of_dec (height a))); [right; right; simpl; lia|].
  destruct (Z.ltb_spec (num_Z (round a)) (num_Z (round b))); [left; simpl; lia|].
  destruct (Z.ltb_spec (num_Z (round b)) (num_Z (round a))); [right; right; simpl; lia|].
  destruct (Z.ltb_spec (num_Z (step a)) (num_Z (step b))); [left; simpl; lia|].
  destruct (Z.ltb_spec (num_Z (step b)) (num_Z (step a))); [right; right; simpl; lia|].
  right; left. split; [done|]. f_equal; [f_equal|]; lia.
Qed.

Lemma strict_eq_text a b : is_text a = true → strict_eq a b = true ↔ a = b.
Proof. destruct a, b; simpl; try done; rewrite ?jeq_spec; naive_solver. Qed.

(** ** The decision *)

(** The conditions under which a restore is allowed. *)
Record restore_allowed (ceiling : Z) (cur : signer) (p : list Z) (cand : signer) (q : list Z)
    : Prop := {
  allowed_homes : home cur ≠ home cand;
  allowed_identity : p = q;
  allowed_ceiling : Z_of_dec (height (state cur)) ≤ ceiling ∧
                    Z_of_dec (height (state cand)) ≤ ceiling;
  allowed_order : pos_le (pos (state cur)) (pos (state cand));
  allowed_signature : pos (state cur) = pos (state cand) →
    signbytes (state cand) = signbytes (state cur) ∧ signature (state cand) = signature (state cur);
}.

Lemma checkCeiling_Ok c s u :
  wf_state (state s) → checkCeiling c s = Ok u ↔ Z_of_dec (height (state s)) ≤ c.
Proof.
  intros [Hh _ _ _ _ _ _ _ _]. unfold checkCeiling. rewrite to_bigint_canonical by done.
  cbn [mbind result_bind]. rewrite throw_if_Ok. apply Z.ltb_ge.
Qed.

Definition expected_report (ceiling : Z) (cur cand : signer) : restore_report :=
  RestoreReport true true true (bool_decide (pos (state cur) = pos (state cand)))
    (publicPosition (state cur)) (publicPosition (state cand)) (dec_of_Z ceiling) false true.

Lemma decideRestore_Ok ceiling cur cand p q r :
  wf_signer cur p → wf_signer cand q →
  decideRestore ceiling cur cand = Ok r ↔
  restore_allowed ceiling cur p cand q ∧ r = expected_report ceiling cur cand.
Proof.
  intros [Kc Sc _] [Kd Sd _]. unfold decideRestore.
  pose proof (sameIdentity_spec _ _ _ _ Kc Kd) as Hid.
  destruct (comparePosition_wf (state cand) (state cur) Sd Sc) as (c & -> & Hc).
  destruct (wf_texts _ Sd) as [Tsig Tsb].
  assert (negb (strict_eq (signbytes (state cand)) (signbytes (state cur)))
          || negb (strict_eq (signature (state cand)) (signature (state cur))) = false
    ↔ signbytes (state cand) = signbytes (state cur) ∧ signature (state cand) = signature (state cur))
    as Hsame.
  { rewrite orb_false_iff, !negb_false_iff, !strict_eq_text by done. done. }
  assert ((c =? 0) = bool_decide (pos (state cur) = pos (state cand))) as Heq.
  { destruct Hc as [[-> H]|[[-> H]|[-> H]]].
    - rewrite bool_decide_eq_false_2; [done|]. intros E. rewrite E in H. by destruct (irreflexivity pos_lt _ H).
    - rewrite bool_decide_eq_true_2 by done. done.
    - rewrite bool_decide_eq_false_2; [done|]. intros E. rewrite E in H. by destruct (irreflexivity pos_lt _ H). }
  split.
  - intros H. passed H as Hh. passed H as Hi. passed H as Hceil. cbn [mbind result_bind] in H.
    passed H as Hord. passed H as Hsig. inv_result. inv_bool.
    apply Forall_cons in Hceil as [C1 Hceil]. rewrite Forall_singleton in Hceil.
    apply checkCeiling_Ok in C1, Hceil; [|done..].
    split; [split; try done|by unfold expected_report; rewrite Heq].
    + by apply Hid.
    + destruct Hc as [[-> H]|[[-> H]|[-> H]]]; [lia|by right|by left].
    + intros E. apply Hsame. rewrite Heq, bool_decide_eq_true_2 in Hsig by done. done.
  - intros [[Hh -> Hceil Hord Hsig] ->].
    rewrite (proj2 (jeq_neq _ _) Hh), (proj2 Hid) by done. cbn [throw_if negb mbind result_bind].
    assert (for_each (checkCeiling ceiling) [cur; cand] = Ok ()) as ->.
    { apply for_each_Ok. repeat constructor; apply checkCeiling_Ok; tauto. }
    cbn [mbind result_bind].
    assert ((c <? 0) = false) as ->.
    { destruct Hc as [[-> H]|[[-> H]|[-> H]]]; try done. by apply pos_le_not_lt in H. }
    cbn [throw_if mbind result_bind].
    assert ((c =? 0) && (negb (strict_eq (signbytes (state cand)) (signbytes (state cur)))
      || negb (strict_eq (signature (state cand)) (signature (state cur)))) = false) as ->.
    { rewrite Heq. case_bool_decide as E; [|done]. cbn [andb]. by apply Hsame, Hsig. }
    cbn [throw_if mbind result_bind]. unfold expected_report. by rewrite Heq.
Qed.

(** ** Chains of restores *)

(** Signers that replace one another by accepted restores. *)
Inductive restore_chain : signer → signer → Prop :=
  | chain_refl s : restore_chain s s
  | chain_step a b c pub ceiling r :
      restore_chain a b → wf_signer c pub → decideRestore ceiling b c = Ok r → restore_chain a c.

(** ** Headline properties *)

(** On validated states comparePosition never throws and is the
    lexicographic order on (height, round, step): it returns -1, 0 or 1 exactly
    when the left position is below, equal to or above the right one. *)
Theorem comparePosition_order a b :
  wf_state a → wf_state b →
  ∃ c, comparePosition a b = Ok c ∧ comparePosition b a = Ok (- c) ∧
    (c = -1 ↔ pos_lt (pos a) (pos b)) ∧ (c = 0 ↔ pos a = pos b) ∧ (c = 1 ↔ pos_lt (pos b) (pos a)).
Proof.
  intros Ha Hb. destruct (comparePosition_wf a b Ha Hb) as (c & Hc & Hcase).
  destruct (comparePosition_wf b a Hb Ha) as (d & Hd & Hdase).
  assert (d = - c) as ->.
  { revert Hcase Hdase. destruct (pos a) as [[??]?], (pos b) as [[??]?]. simpl.
    intros [[-> ?]|[[-> ?]|[-> ?]]] [[-> ?]|[[-> ?]|[-> ?]]]; simplify_eq; lia. }
  exists c. split_and!; [done..| | |]; revert Hcase; clear;
    destruct (pos a) as [[??]?], (pos b) as [[??]?]; simpl;
    intros [[-> ?]|[[-> ?]|[-> ?]]]; (split; [intros ?|intros ?]); simplify_eq; try lia; try done.
Qed.

(** Along any chain of accepted restores the consensus key stays the same
    and the signer position never decreases; when the chain ends at the position
    it started from, the sign bytes and signature are the ones it started with. *)
Theorem restore_chain_monotone a b pub :
  restore_chain a b → wf_signer a pub →
  wf_signer b pub ∧ pos_le (pos (state a)) (pos (state b)) ∧
  (pos (state a) = pos (state b) →
   signbytes (state b) = signbytes (state a) ∧ signature (state b) = signature (state a)).
Proof.
  intros Hchain Ha. induction Hchain as [s|a b c p ceiling r Hab IH Hc Hr]; [by split_and!|].
  destruct (IH Ha) as (Hb & Hle & Hsame).
  destruct (proj1 (decideRestore_Ok _ _ _ pub p _ Hb Hc) Hr) as [[_ <- _ Hord Hsig] _].
  split_and!; [done|by etrans|]. intros E.
  assert (pos (state b) = pos (state a)) as Eb.
  { rewrite <- E in Hord. revert Hle Hord.
    destruct (pos (state a)) as [[??]?], (pos (state b)) as [[??]?].
    intros [H1|H1] [H2|H2]; simpl in *; simplify_eq; try done; lia. }
  destruct Hsig as [-> ->]; [congruence|]. by apply Hsame.
Qed.

(** ** Reading homes *)

Section files.
(** The file system. *)
Context (lstat : jstr → result metadata).
Context (realpath : jstr → result jstr).
Context (readFile : jstr → result jstr).
Context (cwd : jstr).

#[local] Abbreviation readSignerHome :=
  (readSignerHome key_object createPrivateKey publicOf createPublicKey exportSpki verify
     sha256 lstat realpath readFile cwd).
#[local] Abbreviation validateSignerRestore :=
  (validateSignerRestore key_object createPrivateKey publicOf createPublicKey exportSpki verify
     sha256 lstat realpath readFile cwd).

Lemma readSignerHome_wf v l s :
  readSignerHome v l = Ok s → ∃ pub, wf_signer s pub ∧ label s = l.
Proof.
  unfold SignerGuard.readSignerHome. intros H. passed H as Hg. take H as h Hh. passed H as Hd.
  take H as k Hk. passed H as Hv. take H as raw Hraw. take H as st Hst. inv_result.
  apply validateKey_wf in Hv as [pub Hpub]. apply validateState_wf in Hst as [Hwf Hsig].
  exists pub. split; [|done]. split; [done|done|].
  by rewrite <- (wf_public _ _ Hpub).
Qed.

(** C4. An accepted restore is safe: both homes were read and validated, they
    hold the same Ed25519 public key, neither height exceeds the trusted
    ceiling, the candidate's (height, round, step) is not below the current
    one, an equal position carries the same sign bytes and signature, and the
    report states exactly that. *)
Theorem accepted_restore_safe o r :
  validateSignerRestore o = Ok r →
  ∃ ceiling cur cand pub,
    validatorStopped o = VBool true ∧
    trustedMaximumHeight o = VStr (dec_of_Z ceiling) ∧ 0 ≤ ceiling ≤ maximumHeight ∧
    readSignerHome (currentHome o) (js "current") = Ok cur ∧
    readSignerHome (candidateHome o) (js "candidate") = Ok cand ∧
    wf_signer cur pub ∧ wf_signer cand pub ∧
    restore_allowed ceiling cur pub cand pub ∧ r = expected_report ceiling cur cand.
Proof.
  unfold SignerGuard.validateSignerRestore. intros H. passed H as Hstop. take H as ceiling Hc.
  take H as cur Hcur. take H as cand Hcand. apply negb_false_iff, strict_eq_bool in Hstop.
  apply parseHeight_Ok in Hc as (h & Eh & Hcan & -> & Hmax).
  destruct (readSignerHome_wf _ _ _ Hcur) as (p & Hp & _).
  destruct (readSignerHome_wf _ _ _ Hcand) as (q & Hq & _).
  destruct (proj1 (decideRestore_Ok _ _ _ p q _ Hp Hq) H) as [Hall ->].
  assert (p = q) by apply (allowed_identity _ _ _ _ _ Hall). subst q.
  exists (Z_of_dec h), cur, cand, p. rewrite dec_of_Z_of_dec by done.
  split_and!; try done. by apply Z_of_canonical_nonneg.
Qed.

(** The guard decides exactly its contract: with stopped-validator evidence,
    a height ceiling and two homes that validate, it accepts if and only if the
    restore is allowed (distinct homes, one identity, both heights under the
    ceiling, no regression, no second signature at the same position). *)
Theorem restore_decided_exactly o ceiling cur cand p q r :
  validatorStopped o = VBool true →
  parseHeight (trustedMaximumHeight o) (js "trusted maximum signer height") = Ok ceiling →
  readSignerHome (currentHome o) (js "current") = Ok cur →
  readSignerHome (candidateHome o) (js "candidate") = Ok cand →
  wf_signer cur p → wf_signer cand q →
  validateSignerRestore o = Ok r ↔
  restore_allowed ceiling cur p cand q ∧ r = expected_report ceiling cur cand.
Proof.
  intros Hstop Hceil Hcur Hcand Hp Hq. unfold SignerGuard.validateSignerRestore.
  rewrite Hstop, Hceil, Hcur, Hcand. cbn -[decideRestore expected_report].
  by apply decideRestore_Ok.
Qed.

(** A signer home is accepted only with consistent key material and a
    well-formed state: the address is the upper-case hash prefix of the public
    key, the 64-byte private key is a seed that derives that public key, height,
    round and step are in CometBFT's ranges, a zero height is the unsigned
    (0,0,0) state and any other state carries a signature that verifies. *)
Theorem signer_home_sound v l s :
  readSignerHome v l = Ok s →
  ∃ pub,
    wf_key (key s) pub ∧ wf_state (state s) ∧
    (pos (state s) = (0, 0, 0) ∧ signature (state s) = VNull ∨
     signature_verifies (state s) (VStr (base64_encode pub))).
Proof.
  intros H. destruct (readSignerHome_wf v l s H) as (pub & [Hk Hs Hsig] & _).
  exists pub. split_and!; [done..|].
  pose proof (Z_of_canonical_nonneg _ (wf_height _ Hs)) as Hnn.
  destruct (Z.eq_dec (Z_of_dec (height (state s))) 0) as [E|E]; [left|right].
  - destruct (wf_unsigned _ Hs E) as (E1 & E2 & E3 & _). unfold pos. by rewrite E, E1, E2.
  - apply Hsig. lia.
Qed.

End files.
End guard_facts.

(** decodeCanonicalBase64 accepts exactly the canonical encodings: a value
    decodes to [b] if and only if it is the base64 text of [b], [b] are bytes,
    there are [n] of them, and the text is within the 16 KiB bound; so every
    accepted text has one reading and every byte string one accepted text. *)
Theorem canonical_base64_iff v n l b :
  decodeCanonicalBase64 v n l = Ok b ↔
  v = VStr (base64_encode b) ∧ Forall byte b ∧ Z.of_nat (length b) = n ∧
  1 ≤ n ∧ 4 * ((n + 2) / 3) ≤ 16 * 1024.
Proof.
  split.
  - intros H. destruct (decodeCanonicalBase64_Ok v n l b H) as (-> & Hb & Hn).
    split_and!; try done; unfold decodeCanonicalBase64, decodeBoundedBase64 in H;
      take H as d Hd; passed Hd as Hg; inv_bool; cbn [v_str] in *;
      rewrite base64_encode_length, Hn in *; [|done].
    destruct (Z.le_gt_cases 1 n) as [?|Hneg]; [done|].
    assert (n = 0) as -> by lia. by vm_compute in H2.
  - intros (-> & Hb & Hn & Hpos & Hmax). unfold decodeCanonicalBase64, decodeBoundedBase64.
    cbn [is_string v_str negb]. rewrite base64_text_encode, base64_encode_length by done.
    rewrite base64_decode_encode, jeq_refl, Hn by done.
    assert (1 ≤ (n + 2) / 3) by (apply Z.div_le_lower_bound; lia).
    replace (4 * ((n + 2) / 3) <? 4) with false by lia.
    replace (16 * 1024 <? 4 * ((n + 2) / 3)) with false by lia. cbn. by rewrite Hn, Z.eqb_refl.
Qed.

(** decodeCanonicalUpperHex accepts exactly upper-case hexadecimal of one to
    16384 bytes, and returns the bytes it spells. *)
Theorem canonical_upper_hex_iff v l b :
  decodeCanonicalUpperHex v l = Ok b ↔
  v = VStr (upper_hex b) ∧ Forall byte b ∧ 1 ≤ Z.of_nat (length b) ≤ 16 * 1024.
Proof.
  split.
  - intros H. destruct (decodeCanonicalUpperHex_Ok v l b H) as (-> & Hb).
    destruct (bytes_of_upper_hex b Hb) as (_ & _ & Hlen).
    unfold decodeCanonicalUpperHex in H. passed H as Hg. inv_bool. cbn [v_str] in *.
    unfold jlen in *. rewrite Hlen in *. split_and!; try done; lia.
  - intros (-> & Hb & Hn). destruct (bytes_of_upper_hex b Hb) as (Hdec & Hall & Hlen).
    unfold decodeCanonicalUpperHex. cbn [is_string v_str negb].
    rewrite Hdec, Hall, jeq_refl. unfold jlen. rewrite Hlen.
    replace (Z.of_nat (2 * length b)) with (Z.of_nat (length b) * 2) by lia.
    rewrite Z.mod_mul by lia.
    replace (Z.of_nat (length b) * 2 <? 2) with false by lia.
    by replace (32 * 1024 <? Z.of_nat (length b) * 2) with false by lia.
Qed.

(** ** Command line *)

(** An argument the parser takes as the value of an option. *)
Definition argument_value (s : jstr) : Prop := s ≠ [] ∧ starts_with (js "--") s = false.

Lemma parseArgumentsFrom_value o option v rest :
  option ∈ [js "--current-home"; js "--candidate-home"; js "--trusted-maximum-height"] →
  argument_value v →
  parseArgumentsFrom o (option :: v :: rest) = parseArgumentsFrom (set_option o option v) rest.
Proof.
  intros Ho [Hne Hd]. cbn [parseArgumentsFrom].
  assert ((option =s? js "--validator-stopped") = false) as ->.
  { repeat (apply elem_of_cons in Ho as [->|Ho]; [done|]). by apply elem_of_nil in Ho. }
  apply jmem_spec in Ho. rewrite Ho, Hd, bool_decide_eq_false_2 by done. done.
Qed.

(** One option with its value, or the flag, and its effect. *)
Inductive chunk : list jstr → Prop :=
  | chunk_flag : chunk [js "--validator-stopped"]
  | chunk_value option v :
      option ∈ [js "--current-home"; js "--candidate-home"; js "--trusted-maximum-height"] →
      argument_value v → chunk [option; v].

Definition apply_chunk (o : options) (c : list jstr) : options :=
  match c with
  | [option; v] => set_option o option v
  | _ => Options (currentHome o) (candidateHome o) (VBool true) (trustedMaximumHeight o)
  end.

Lemma parse_chunk o c rest :
  chunk c → parseArgumentsFrom o (c ++ rest) = parseArgumentsFrom (apply_chunk o c) rest.
Proof. intros []; [done|]. by apply parseArgumentsFrom_value. Qed.

Lemma apply_chunk_comm o c d :
  chunk c → chunk d → hd [] c ≠ hd [] d →
  apply_chunk (apply_chunk o c) d = apply_chunk (apply_chunk o d) c.
Proof.
  intros [|opt v Ho Hv] [|opt' v' Ho' Hv'] Hne; simpl in *; [done|..];
    repeat match goal with
    | H : _ ∈ _ :: _ |- _ => apply elem_of_cons in H as [->|H]
    | H : _ ∈ [] |- _ => by apply elem_of_nil in H
    end; done.
Qed.

Lemma parse_permutation args args' :
  args ≡ₚ args' → Forall chunk args → NoDup (map (hd []) args) →
  ∀ o, parseArgumentsFrom o (concat args) = parseArgumentsFrom o (concat args').
Proof.
  induction 1 as [|c l l' Hp IH|c d l|l1 l2 l3 H12 IH12 H23 IH23]; intros Hc Hnd o; [done|..].
  - apply Forall_cons in Hc as [Hc Hl]. simpl in Hnd. apply NoDup_cons in Hnd as [_ Hnd].
    cbn [concat]. rewrite !parse_chunk by done. by apply IH.
  - apply Forall_cons in Hc as [Hc Hl]. apply Forall_cons in Hl as [Hd Hl].
    simpl in Hnd. apply NoDup_cons in Hnd as [Hnd _]. apply not_elem_of_cons in Hnd as [Hne _].
    cbn [concat]. rewrite !parse_chunk by done. by rewrite apply_chunk_comm.
  - rewrite IH12 by done. apply IH23; [by rewrite <- H12|]. by rewrite <- H12.
Qed.

(** The command line is read whatever the order of its options and whatever
    earlier arguments set: the two homes, the ceiling and the flag that were
    written are the options the guard runs with. *)
Theorem parseArguments_reads o args cur cand top :
  argument_value cur → argument_value cand → argument_value top →
  args ≡ₚ [[js "--current-home"; cur]; [js "--candidate-home"; cand];
           [js "--trusted-maximum-height"; top]; [js "--validator-stopped"]] →
  parseArgumentsFrom o (concat args) = Ok (Options (VStr cur) (VStr cand) (VBool true) (VStr top)).
Proof.
  intros H1 H2 H3 Hp.
  assert (Forall chunk args ∧ NoDup (map (hd []) args)) as [Hc Hnd].
  { rewrite Hp. split.
    - repeat apply Forall_cons_2; [..|apply Forall_nil_2];
        first [apply chunk_flag | apply chunk_value; [by apply jmem_spec|done]].
    - by apply (proj1 (all_distinct_spec _)). }
  rewrite (parse_permutation _ _ Hp Hc Hnd).
  change (concat _) with ([js "--current-home"; cur] ++ [js "--candidate-home"; cand] ++
    [js "--trusted-maximum-height"; top] ++ [js "--validator-stopped"] ++ []).
  rewrite !parse_chunk
    by first [apply chunk_flag | apply chunk_value; [by apply jmem_spec|done]]. done.
Qed.

(** The process prints a report only for an accepted restore, with exit code
    zero, and the printed JSON reads back as the report; any rejection prints
    nothing on standard output and exits with code two. *)
Theorem main_outcome ko cpr pubof cpub ex vf sha ls rp rf cwd argv :
  let out := main ko cpr pubof cpub ex vf sha ls rp rf cwd argv in
  (∃ o r, parseArguments argv = Ok o ∧
     validateSignerRestore ko cpr pubof cpub ex vf sha ls rp rf cwd o = Ok r ∧
     exitCode out = 0 ∧ stderr out = [] ∧
     (json_data (report_value r) = true → json_parse (stdout out) = Ok (report_value r)))
  ∨ (exitCode out = 2 ∧ stdout out = []).
Proof.
  unfold main. destruct (parseArguments argv) as [o|e]; [|by right].
  cbn [mbind result_bind].
  destruct (validateSignerRestore ko cpr pubof cpub ex vf sha ls rp rf cwd o) as [r|e] eqn:E;
    [left|by right].
  exists o, r. split_and!; [done|done|done|done|]. cbn [stdout]. apply json_parse_line.
Qed.

(** ** Concrete signer homes *)

(** A stand-in for Ed25519 in which the public key is the seed and a signature
    starts with the key it was made with, and for SHA-256 the identity. *)
Definition sample_seed : list Z := map Z.of_nat (seq 1 32).
Definition sample_signature : list Z := sample_seed ++ sample_seed.
Definition sample_publicOf (k : list Z) : result (list Z) :=
  Ok (ed25519SpkiPublicPrefix ++ drop 16 k).
Definition sample_verify (msg key sig : list Z) : bool :=
  bool_decide (take 32 sig = drop 12 key) && negb (bool_decide (msg = [])).

Definition sample_key : value :=
  VObj [(js "address", VStr (upper_hex (take 20 sample_seed)));
        (js "pub_key", VObj [(js "type", VStr (js "tendermint/PubKeyEd25519"));
                             (js "value", VStr (base64_encode sample_seed))]);
        (js "priv_key", VObj [(js "type", VStr (js "tendermint/PrivKeyEd25519"));
                              (js "value", VStr (base64_encode (sample_seed ++ sample_seed)))])].

Definition sample_state (h : string) (r t : Z) : value :=
  VObj [(js "height", VStr (js h)); (js "round", VNum (NInt r)); (js "step", VNum (NInt t));
        (js "signature", VStr (base64_encode sample_signature));
        (js "signbytes", VStr (upper_hex [1; 2; 255]))].

Definition sample_files : list (jstr * jstr) :=
  [(js "/v/cur/config/priv_validator_key.json", stringify 2 0 sample_key);
   (js "/v/cur/data/priv_validator_state.json", stringify 2 0 (sample_state "41" 0 3));
   (js "/v/new/config/priv_validator_key.json", stringify 2 0 sample_key);
   (js "/v/new/data/priv_validator_state.json", stringify 2 0 (sample_state "41" 1 2))].

Definition sample_directories : list jstr :=
  [js "/v/cur"; js "/v/cur/config"; js "/v/cur/data";
   js "/v/new"; js "/v/new/config"; js "/v/new/data"].

Definition sample_lstat (p : jstr) : result metadata :=
  if jmem p sample_directories then Ok (Metadata true false false 16832 4096)
  else match assoc p sample_files with
       | Some text => Ok (Metadata false true false 33152 (jlen text))
       | None => error (js "ENOENT")
       end.

Definition sample_readFile (p : jstr) : result jstr :=
  match assoc p sample_files with Some text => Ok text | None => error (js "ENOENT") end.

Abbreviation sample_restore := (validateSignerRestore (list Z) Ok sample_publicOf Ok id
  sample_verify id sample_lstat Ok sample_readFile (js "/v")).
Abbreviation sample_read := (readSignerHome (list Z) Ok sample_publicOf Ok id
  sample_verify id sample_lstat Ok sample_readFile (js "/v")).

Definition sample_options : options :=
  Options (VStr (js "cur")) (VStr (js "/v/new")) (VBool true) (VStr (js "50")).

Definition sample_signer (h l : string) (s : value) : signer :=
  Signer (js h) sample_key
    (SignerState (v_str (field s (js "height"))) (v_num (field s (js "round")))
       (v_num (field s (js "step"))) (field s (js "signature")) (field s (js "signbytes"))) (js l).

Definition sample_current : signer := sample_signer "/v/cur" "current" (sample_state "41" 0 3).
Definition sample_candidate : signer := sample_signer "/v/new" "candidate" (sample_state "41" 1 2).

Definition sample_report : restore_report := expected_report 50 sample_current sample_candidate.

Lemma sample_current_read : sample_read (VStr (js "cur")) (js "current") = Ok sample_current.
Proof. vm_compute. reflexivity. Qed.

Lemma sample_candidate_read :
  sample_read (VStr (js "/v/new")) (js "candidate") = Ok sample_candidate.
Proof. vm_compute. reflexivity. Qed.

Lemma sample_restore_accepted : sample_restore sample_options = Ok sample_report.
Proof. vm_compute. reflexivity. Qed.

Lemma sample_decided : decideRestore 50 sample_current sample_candidate = Ok sample_report.
Proof. vm_compute. reflexivity. Qed.

Abbreviation sample_wf_signer :=
  (wf_signer (list Z) Ok sample_publicOf Ok id sample_verify id).

Lemma sample_wf s p :
  key s = sample_key → sample_wf_signer s p → p = sample_seed.
Proof.
  intros Hk [[Hpub [Hb _] _ _ _] _ _]. rewrite Hk in Hpub.
  assert (base64_encode p = base64_encode sample_seed) as E by (injection Hpub; done).
  apply base64_encode_inj in E; [done|done|].
  apply Forall_forall. intros x Hx. unfold sample_seed in Hx.
  apply elem_of_map in Hx as (n & -> & Hn). apply list_elem_of_In, in_seq in Hn.
  unfold byte. lia.
Qed.

Lemma sample_current_wf : sample_wf_signer sample_current sample_seed.
Proof.
  destruct (readSignerHome_wf _ _ _ _ _ _ _ _ _ _ _ _ _ _ sample_current_read) as (p & Hp & _).
  by rewrite <- (sample_wf sample_current p eq_refl Hp).
Qed.

Lemma sample_candidate_wf : sample_wf_signer sample_candidate sample_seed.
Proof.
  destruct (readSignerHome_wf _ _ _ _ _ _ _ _ _ _ _ _ _ _ sample_candidate_read) as (p & Hp & _).
  by rewrite <- (sample_wf sample_candidate p eq_refl Hp).
Qed.

Lemma accepted_restore_safe_witness :
  sample_restore sample_options = Ok sample_report ∧
  ∃ ceiling cur cand, pos_le (pos (state cur)) (pos (state cand)) ∧
    sample_report = expected_report ceiling cur cand.
Proof.
  split; [exact sample_restore_accepted|].
  destruct (accepted_restore_safe _ _ _ _ _ _ _ _ _ _ _ _ _ sample_restore_accepted)
    as (ceiling & cur & cand & pub & H).
  exists ceiling, cur, cand. split; [|apply H].
  apply (allowed_order ceiling cur pub cand pub), H.
Defined.

Lemma restore_decided_exactly_witness :
  sample_restore sample_options = Ok sample_report ↔
  restore_allowed 50 sample_current sample_seed sample_candidate sample_seed
  ∧ sample_report = expected_report 50 sample_current sample_candidate.
Proof.
  apply (restore_decided_exactly (list Z) Ok sample_publicOf Ok id sample_verify id sample_lstat
    Ok sample_readFile (js "/v") sample_options 50).
  - reflexivity.
  - vm_compute. reflexivity.
  - exact sample_current_read.
  - exact sample_candidate_read.
  - exact sample_current_wf.
  - exact sample_candidate_wf.
Defined.

Lemma signer_home_sound_witness :
  ∃ pub, signature_verifies (list Z) Ok sample_verify (state sample_current)
           (VStr (base64_encode pub)) ∨ pos (state sample_current) = (0, 0, 0).
Proof.
  destruct (signer_home_sound (list Z) Ok sample_publicOf Ok id sample_verify id sample_lstat
    Ok sample_readFile (js "/v") _ _ _ sample_current_read) as (pub & _ & _ & [[H _]|H]).
  - exists pub. right. exact H.
  - exists pub. left. exact H.
Defined.

Lemma comparePosition_order_witness :
  ∃ c, comparePosition (state sample_current) (state sample_candidate) = Ok c ∧
    (c = -1 ↔ pos_lt (pos (state sample_current)) (pos (state sample_candidate))).
Proof.
  destruct (comparePosition_order (state sample_current) (state sample_candidate)
    (signer_wf _ _ _ _ _ _ _ _ _ sample_current_wf)
    (signer_wf _ _ _ _ _ _ _ _ _ sample_candidate_wf)) as (c & Hc & _ & H & _).
  exists c. split; [exact Hc|exact H].
Defined.

Lemma restore_chain_monotone_witness :
  pos_le (pos (state sample_current)) (pos (state sample_candidate)).
Proof.
  eapply (restore_chain_monotone (list Z) Ok sample_publicOf Ok id sample_verify id).
  - eapply chain_step; [apply chain_refl|exact sample_candidate_wf|exact sample_decided].
  - exact sample_current_wf.
Defined.

Lemma parseArguments_reads_witness :
  parseArguments [js "--validator-stopped"; js "--current-home"; js "cur"; js "--candidate-home";
    js "/v/new"; js "--trusted-maximum-height"; js "50"] = Ok sample_options.
Proof.
  apply (parseArguments_reads _ [[js "--validator-stopped"]; [js "--current-home"; js "cur"];
    [js "--candidate-home"; js "/v/new"]; [js "--trusted-maximum-height"; js "50"]]);
    [split; [discriminate|reflexivity]..|].
  exact (Permutation_app_comm [[js "--validator-stopped"]] [[js "--current-home"; js "cur"];
    [js "--candidate-home"; js "/v/new"]; [js "--trusted-maximum-height"; js "50"]]).
Defined.
