(* ===== verification/Health.v ===== *)
(** chain/localnet/scripts/health.mjs: one health sample of the local network
    (validators over CometBFT RPC, the EVM JSON-RPC batch, the Cosmos REST
    node), its aggregate state, the readiness wait loop, the text report and
    the command line. *)

From S2P Require Import Prelude JsNum JsText JsValue JsonText JsPath JsOps.

Open Scope Z_scope.

(** ** HTTP *)

(** A fetch response, as far as the sources read it. *)
Record response := Response { ok : bool; status : Z; json : result value }.

(** [fetchImpl(url, options)]; the timeout signal is part of the
    implementation. *)
Definition fetcher : Type := jstr → value → result response.

Definition requestJSON (url : jstr) (options : value) (fetchImpl : fetcher) : result value :=
  response ← fetchImpl url options;
  throw_if (negb (ok response)) (js "HTTP " +++ dec_of_Z (status response));;
  json response.

Definition errorMessage (e : exn) : jstr := exn_message e.

(** ** Validators *)

Definition hostCometRPCPort (profile : value) (node : value) (index : nat) : result value :=
  if strict_eq profile (vs "container") then Ok (vi (26657 + Z.of_nat index * 100))
  else ports ← get node (js "ports"); get ports (js "comet_rpc").

(** The peer count: null and a message when the request fails. *)
Definition samplePeers (rpcUrl : jstr) (fetchImpl : fetcher) : value * value :=
  match requestJSON (rpcUrl +++ js "/net_info") (VObj []) fetchImpl with
  | Ok netInfo =>
      (VNum (to_number (nullish (oget (oget netInfo (js "result")) (js "n_peers")) (vi 0))), VNull)
  | Throw e => (VNull, VStr (errorMessage e))
  end.

(** What one validator's /status answer says. *)
Record observation := Observation {
  height : num;
  catchingUp : bool;
  observedNodeID : value;
  identityMatches : bool;
  observedNetwork : value;
  networkMatches : bool;
  cometVersion : value;
}.

Definition observe (payload node_id cosmos_chain_id : value) : observation :=
  let status := oget payload (js "result") in
  let sync_info := oget status (js "sync_info") in
  let node_info := oget status (js "node_info") in
  let observedNodeID := nullish (oget node_info (js "id")) VNull in
  let observedNetwork := nullish (oget node_info (js "network")) VNull in
  Observation
    (to_number (nullish (oget sync_info (js "latest_block_height")) (vi 0)))
    (negb (strict_eq (oget sync_info (js "catching_up")) (VBool false)))
    observedNodeID (strict_eq observedNodeID node_id)
    observedNetwork (strict_eq observedNetwork cosmos_chain_id)
    (nullish (oget node_info (js "version")) VNull).

Definition nonempty_string (v : value) : bool := is_string v && (0 <? jlen (v_str v)).

Definition observation_ready (o : observation) : bool :=
  num_ltb (NInt 0) (height o) && negb (catchingUp o) && identityMatches o && networkMatches o
  && nonempty_string (cometVersion o).

Definition validator_status (o : observation) : jstr :=
  if observation_ready o then js "ready"
  else if negb (identityMatches o) then js "identity-mismatch"
  else if negb (networkMatches o) then js "network-mismatch"
  else if catchingUp o then js "catching-up"
  else if num_eqb (height o) (NInt 0) then js "booting"
  else js "not-ready".

Definition mismatchError (o : observation) : value :=
  if negb (identityMatches o) then vs "CometBFT node ID differs from topology"
  else if negb (networkMatches o) then vs "Cosmos chain ID differs from topology"
  else VNull.

Definition reachable_validator (node topology : value) (rpcUrl : jstr) (o : observation)
    (peers : value * value) : value :=
  VObj ["name" :=: field node (js "name");
        "rpcUrl" :=: VStr rpcUrl;
        "votingPower" :=: field node (js "voting_power");
        "status" :=: VStr (validator_status o);
        "reachable" :=: VBool true;
        "ready" :=: VBool (observation_ready o);
        "height" :=: VNum (height o);
        "catchingUp" :=: VBool (catchingUp o);
        "peerCount" :=: fst peers;
        "peerError" :=: snd peers;
        "cometVersion" :=: cometVersion o;
        "expectedNetwork" :=: field topology (js "cosmos_chain_id");
        "observedNetwork" :=: observedNetwork o;
        "networkMatches" :=: VBool (networkMatches o);
        "expectedNodeID" :=: field node (js "node_id");
        "observedNodeID" :=: observedNodeID o;
        "identityMatches" :=: VBool (identityMatches o);
        "error" :=: mismatchError o].

Definition unreachable_validator (node topology : value) (rpcUrl : jstr) (message : jstr) : value :=
  VObj ["name" :=: field node (js "name");
        "rpcUrl" :=: VStr rpcUrl;
        "votingPower" :=: field node (js "voting_power");
        "status" :=: vs "unreachable";
        "reachable" :=: VBool false;
        "ready" :=: VBool false;
        "height" :=: vi 0;
        "catchingUp" :=: VNull;
        "peerCount" :=: VNull;
        "peerError" :=: VNull;
        "cometVersion" :=: VNull;
        "expectedNetwork" :=: field topology (js "cosmos_chain_id");
        "observedNetwork" :=: VNull;
        "networkMatches" :=: VNull;
        "expectedNodeID" :=: field node (js "node_id");
        "observedNodeID" :=: VNull;
        "identityMatches" :=: VNull;
        "error" :=: VStr message].

(** The callback of [topology.nodes.map]; [topology] is an object by then. *)
Definition sampleValidator (topology profile : value) (fetchImpl : fetcher) (index : nat)
    (node : value) : result value :=
  rpcPort ← hostCometRPCPort profile node index;
  let rpcUrl := js "http://127.0.0.1:" +++ to_string rpcPort in
  catch
    (payload ← requestJSON (rpcUrl +++ js "/status") (VObj []) fetchImpl;
     node_id ← get node (js "node_id");
     let o := observe payload node_id (field topology (js "cosmos_chain_id")) in
     Ok (reachable_validator node topology rpcUrl o (samplePeers rpcUrl fetchImpl)))
    (λ e,
      _ ← get node (js "name");
      Ok (unreachable_validator node topology rpcUrl (errorMessage e))).

(** ** EVM JSON-RPC *)

Definition rpcRequest (id method : string) : value :=
  VObj ["jsonrpc" :=: vs "2.0"; "id" :=: vs id; "method" :=: vs method; "params" :=: VArr []].

Definition rpcResult (payloads : list value) (id : string) : result value :=
  let payload := default VUndef (List.find (λ c, strict_eq (oget c (js "id")) (vs id)) payloads) in
  throw_if (negb (truthy payload)) (js "JSON-RPC health batch omitted " +++ js id);;
  (if truthy (field payload (js "error")) then
     error (to_string (nullish (field (field payload (js "error")) (js "message"))
                         (VStr (js "JSON-RPC health method " +++ js id +++ js " failed"))))
   else Ok ());;
  throw_if (negb (has_own payload (js "result")))
    (js "JSON-RPC health batch omitted the " +++ js id +++ js " result");;
  Ok (field payload (js "result")).

Definition rpcNumber (payloads : list value) (id : string) : result num :=
  v ← rpcResult payloads id; z ← to_bigint v; Ok (num_of_bigint z).

Definition healthBatch : value :=
  VObj ["method" :=: vs "POST";
        "headers" :=: VObj ["content-type" :=: vs "application/json"];
        "body" :=: VStr (stringify 0 0
           (VArr [rpcRequest "chain-id" "eth_chainId"; rpcRequest "height" "eth_blockNumber";
                  rpcRequest "sync" "eth_syncing"; rpcRequest "peers" "net_peerCount";
                  rpcRequest "version" "web3_clientVersion"]))].

Definition evm_ready (chainMatches : bool) (height : num) (syncing clientVersion : value) : bool :=
  chainMatches && num_ltb (NInt 0) height && strict_eq syncing (VBool false)
  && nonempty_string clientVersion.

Definition sampleEvm (topology : value) (evmUrl : jstr) (fetchImpl : fetcher) : value :=
  let expected := field topology (js "evm_chain_id") in
  match
    payload ← requestJSON evmUrl healthBatch fetchImpl;
    payloads ← match payload with
               | VArr l => Ok l
               | _ => error (js "JSON-RPC health batch returned a non-array response")
               end;
    observedChainID ← rpcNumber payloads "chain-id";
    height ← rpcNumber payloads "height";
    syncing ← rpcResult payloads "sync";
    peerCount ← rpcNumber payloads "peers";
    clientVersion ← rpcResult payloads "version";
    let chainMatches := strict_eq (VNum observedChainID) expected in
    Ok (VObj ["url" :=: VStr evmUrl;
              "reachable" :=: VBool true;
              "ready" :=: VBool (evm_ready chainMatches height syncing clientVersion);
              "expectedChainID" :=: expected;
              "observedChainID" :=: VNum observedChainID;
              "chainMatches" :=: VBool chainMatches;
              "height" :=: VNum height;
              "syncing" :=: syncing;
              "peerCount" :=: VNum peerCount;
              "clientVersion" :=: clientVersion;
              "error" :=: if negb chainMatches then vs "EVM chain ID mismatch"
                          else if num_eqb height (NInt 0) then vs "EVM has not committed a block"
                          else if negb (strict_eq syncing (VBool false)) then vs "EVM reports syncing"
                          else VNull])
  with
  | Ok evm => evm
  | Throw e =>
      VObj ["url" :=: VStr evmUrl;
            "reachable" :=: VBool false;
            "ready" :=: VBool false;
            "expectedChainID" :=: expected;
            "observedChainID" :=: VNull;
            "chainMatches" :=: VNull;
            "height" :=: vi 0;
            "syncing" :=: VNull;
            "peerCount" :=: VNull;
            "clientVersion" :=: VNull;
            "error" :=: VStr (errorMessage e)]
  end.

(** ** Cosmos REST *)

Definition sampleRest (topology : value) (restUrl : jstr) (fetchImpl : fetcher) : value :=
  let expected := field topology (js "cosmos_chain_id") in
  match requestJSON (restUrl +++ js "/cosmos/base/tendermint/v1beta1/node_info") (VObj []) fetchImpl with
  | Ok payload =>
      let observedNetwork := nullish (oget (oget payload (js "default_node_info")) (js "network")) VNull in
      let application := oget payload (js "application_version") in
      let applicationVersion := nullish (oget application (js "version")) VNull in
      let ready := strict_eq observedNetwork expected && nonempty_string applicationVersion in
      VObj ["url" :=: VStr restUrl;
            "reachable" :=: VBool true;
            "ready" :=: VBool ready;
            "expectedNetwork" :=: expected;
            "observedNetwork" :=: observedNetwork;
            "applicationName" :=: nullish (oget application (js "name")) VNull;
            "applicationVersion" :=: applicationVersion;
            "cosmosSDKVersion" :=: nullish (oget application (js "cosmos_sdk_version")) VNull;
            "error" :=: if ready then VNull else vs "REST node identity or version is unavailable"]
  | Throw e =>
      VObj ["url" :=: VStr restUrl;
            "reachable" :=: VBool false;
            "ready" :=: VBool false;
            "expectedNetwork" :=: expected;
            "observedNetwork" :=: VNull;
            "applicationName" :=: VNull;
            "applicationVersion" :=: VNull;
            "cosmosSDKVersion" :=: VNull;
            "error" :=: VStr (errorMessage e)]
  end.

(** ** The aggregate *)

Definition is_ready (v : value) : bool := truthy (field v (js "ready")).

(** [filter(ready).reduce((sum, v) => sum + v.votingPower, 0)]. *)
Definition availableVotingPower (validators : list value) : value :=
  fold_left (λ sum v, js_add sum (field v (js "votingPower"))) (List.filter is_ready validators) (vi 0).

Definition highestHeight (validators : list value) : num :=
  fold_left (λ m v, num_max m (to_number (field v (js "height")))) validators (NInt 0).

Definition identityMismatch (validators : list value) : bool :=
  existsb (λ v, truthy (field v (js "reachable")) &&
                (strict_eq (field v (js "identityMatches")) (VBool false)
                 || strict_eq (field v (js "networkMatches")) (VBool false))) validators.

Definition anySyncing (validators : list value) (evm : value) : bool :=
  existsb (λ v, strict_eq (field v (js "catchingUp")) (VBool true)) validators
  || (truthy (field evm (js "reachable"))
      && negb (strict_eq (field evm (js "syncing")) (VBool false))
      && negb (strict_eq (field evm (js "syncing")) VNull)).

Definition aggregate_state (validators : list value) (evm rest : value)
    (fullyReady allValidatorsReady : bool) : jstr :=
  if identityMismatch validators then js "unhealthy"
  else if anySyncing validators evm then js "syncing"
  else if fullyReady then (if allValidatorsReady then js "ready" else js "degraded")
  else if num_eqb (highestHeight validators) (NInt 0)
          && (existsb (λ v, truthy (field v (js "reachable"))) validators
              || truthy (field evm (js "reachable")) || truthy (field rest (js "reachable")))
  then js "booting"
  else js "unhealthy".

Definition fundedAccount (account : value) : result value :=
  name ← get account (js "name");
  Ok (VObj ["name" :=: name;
            "bech32Address" :=: field account (js "bech32_address");
            "evmAddress" :=: field account (js "evm_address");
            "allocationBaseUnits" :=: field account (js "allocation_base_units")]).

Section sample.
(** Radix-16 text of a number that is not an integer, which the language
    leaves to the implementation. *)
Context (radix16 : num → jstr).

(** [v.toString(16)]. *)
Definition to_string_16 (v : value) : result jstr :=
  match v with
  | VUndef | VNull => type_error (js "Cannot read properties")
  | VNum n =>
      Ok match num_int n with
         | Some z => if z <? 0 then js "-" +++ hex_of_Z (- z) else hex_of_Z z
         | None => radix16 n
         end
  | _ => Ok (to_string v)
  end.

Definition sampleHealth (generatedAt : jstr) (fetchImpl : fetcher) (topology manifest profile : value)
    : result value :=
  nodes ← get topology (js "nodes");
  nodes ← as_array nodes;
  validators ← imap_res_from (sampleValidator topology profile fetchImpl) 0 nodes;
  clientNode ← find_res (λ node, t ← get node (js "client_traffic"); Ok (truthy t)) nodes;
  throw_if (negb (truthy clientNode)) (js "topology does not define a client node");;
  ports ← get clientNode (js "ports");
  evm_http ← get ports (js "evm_http");
  let evmUrl := js "http://127.0.0.1:" +++ to_string evm_http in
  let evm := sampleEvm topology evmUrl fetchImpl in
  let restUrl := js "http://127.0.0.1:" +++ to_string (field ports (js "cosmos_rest")) in
  let rest := sampleRest topology restUrl fetchImpl in
  let available := availableVotingPower validators in
  let consensusReady := js_ge available (field topology (js "commit_quorum_power")) in
  let allValidatorsReady := forallb is_ready validators in
  let fullyReady := consensusReady && is_ready evm && is_ready rest in
  hex ← to_string_16 (field topology (js "evm_chain_id"));
  accounts ← get manifest (js "development_accounts");
  accounts ← as_array accounts;
  fundedAccounts ← map_res fundedAccount accounts;
  let client := default VUndef
    (List.find (λ v, strict_eq (field v (js "name")) (field topology (js "client_node"))) validators) in
  Ok (VObj
    ["schemaVersion" :=: vi 2;
     "generatedAt" :=: VStr generatedAt;
     "warning" :=: field topology (js "warning");
     "backend" :=: profile;
     "state" :=: VStr (aggregate_state validators evm rest fullyReady allValidatorsReady);
     "ready" :=: VBool fullyReady;
     "allValidatorsReady" :=: VBool allValidatorsReady;
     "chain" :=: VObj
       ["cosmosChainID" :=: field topology (js "cosmos_chain_id");
        "evmChainID" :=: field topology (js "evm_chain_id");
        "evmChainIDHex" :=: VStr (js "0x" +++ hex);
        "genesisSHA256" :=: field topology (js "genesis_sha256");
        "highestHeight" :=: VNum (highestHeight validators);
        "evmHeight" :=: field evm (js "height")];
     "consensus" :=: VObj
       ["ready" :=: VBool consensusReady;
        "availableVotingPower" :=: available;
        "totalVotingPower" :=: field topology (js "total_voting_power");
        "commitQuorumPower" :=: field topology (js "commit_quorum_power")];
     "evm" :=: evm;
     "rest" :=: rest;
     "endpoints" :=: VObj
       ["evmHTTP" :=: VStr evmUrl;
        "evmWebSocket" :=: VStr (js "ws://127.0.0.1:" +++ to_string (field ports (js "evm_ws")));
        "cosmosREST" :=: VStr restUrl;
        "cosmosGRPC" :=: VStr (js "127.0.0.1:" +++ to_string (field ports (js "cosmos_grpc")));
        "cometRPC" :=: nullish (oget client (js "rpcUrl")) VNull];
     "validators" :=: VArr validators;
     "fundedAccounts" :=: VArr fundedAccounts]).

(** ** Waiting for readiness *)

Definition requirementsSatisfied (report : value) (requireAll : bool) (requireNode : value) : bool :=
  if negb (is_ready report) then false
  else if requireAll && negb (truthy (field report (js "allValidatorsReady"))) then false
  else if truthy requireNode then
    existsb (λ v, strict_eq (field v (js "name")) requireNode && is_ready v)
      (v_list (field report (js "validators")))
  else true.

Definition report_height (report : value) : num :=
  v_num (field (field report (js "chain")) (js "highestHeight")).

(** How the wait ends: a ready report, or the error with its last report. *)
Inductive wait_outcome :=
  | Ready (report : value)
  | TimedOut (message : jstr) (report : value).

Definition with_progress (report : value) (progress : bool) (initialHeight : num) : value :=
  with_field (with_field report (js "progressObserved") (VBool progress))
    (js "initialHeight") (VNum initialHeight).

(** The k-th sample sees the network [net k] at [time k]; [clock k] is the
    k-th reading of [Date.now()] after the start. *)
Context (net : nat → fetcher) (time : nat → jstr) (clock : nat → Z) (startedAt : Z).
Context (topology manifest profile : value).

Definition sample_at (k : nat) : result value :=
  sampleHealth (time k) (net k) topology manifest profile.

(** The while loop; [None] when the fuel ends first.  [timeoutSeconds * 1_000]
    is exact for any timeout below 2^53 milliseconds. *)
Fixpoint wait_loop (fuel k : nat) (timeoutSeconds : Z) (requireAll : bool) (requireNode : value)
    (initialHeight : num) (report : value) : option (result wait_outcome) :=
  match fuel with
  | O => None
  | S f =>
      if clock k - startedAt <? timeoutSeconds * 1000 then
        if requirementsSatisfied report requireAll requireNode
           && num_ltb initialHeight (report_height report)
        then Some (Ok (Ready (with_progress report true initialHeight)))
        else
          match sample_at (S k) with
          | Throw e => Some (Throw e)
          | Ok report' => wait_loop f (S k) timeoutSeconds requireAll requireNode initialHeight report'
          end
      else
        Some (Ok (TimedOut
          (js "localnet did not become ready within " +++ num_to_string (NInt timeoutSeconds)
           +++ js " seconds")
          (with_progress report false initialHeight)))
  end.

Definition waitForReadiness (fuel : nat) (timeoutSeconds : Z) (requireAll : bool)
    (requireNode : value) : option (result wait_outcome) :=
  match sample_at 0 with
  | Throw e => Some (Throw e)
  | Ok initial =>
      wait_loop fuel 0 timeoutSeconds requireAll requireNode (report_height initial) initial
  end.
End sample.

(** ** The text report *)

Definition formatSync (v : value) : jstr :=
  if strict_eq v (VBool false) then js "false"
  else if strict_eq v (VBool true) then js "true"
  else if is_nullish v then js "unavailable"
  else js "syncing".

(** A note in parentheses when the value is truthy. *)
Definition note (before : string) (v : value) (after : string) : jstr :=
  if truthy v then js before +++ to_string v +++ js after else [].

(** [${v.k}] in a template. *)
Definition show (v : value) (k : string) : jstr := to_string (field v (js k)).

Definition evm_line (evm : value) : jstr :=
  js "EVM RPC: " +++ (if is_ready evm then js "ready" else js "not-ready")
  +++ js " chain=" +++ or_unavailable (field evm (js "observedChainID")) +++ js "/"
  +++ show evm "expectedChainID" +++ js " height=" +++ show evm "height"
  +++ js " peers=" +++ or_unavailable (field evm (js "peerCount"))
  +++ js " sync=" +++ formatSync (field evm (js "syncing"))
  +++ js " version=" +++ or_unavailable (field evm (js "clientVersion"))
  +++ note " (" (field evm (js "error")) ")".

Definition rest_line (rest : value) : jstr :=
  js "Cosmos REST: " +++ (if is_ready rest then js "ready" else js "not-ready")
  +++ js " network=" +++ or_unavailable (field rest (js "observedNetwork"))
  +++ js " app=" +++ or_unavailable (field rest (js "applicationName")) +++ js "@"
  +++ or_unavailable (field rest (js "applicationVersion"))
  +++ note " (" (field rest (js "error")) ")".

Definition validator_line (v : value) : jstr :=
  js "  [" +++ show v "status" +++ js "] " +++ show v "name" +++ js " power=" +++ show v "votingPower"
  +++ js " height=" +++ show v "height" +++ js " peers=" +++ or_unavailable (field v (js "peerCount"))
  +++ js " sync=" +++ formatSync (field v (js "catchingUp"))
  +++ js " comet=" +++ or_unavailable (field v (js "cometVersion"))
  +++ js " rpc=" +++ show v "rpcUrl" +++ note " (" (field v (js "error")) ")"
  +++ note " (peer check: " (field v (js "peerError")) ")".

(** [padEnd] is a method of strings only. *)
Definition account_line (account : value) : result jstr :=
  name ← match field account (js "name") with
         | VStr s => Ok s
         | _ => type_error (js "account.name.padEnd is not a function")
         end;
  Ok (js "  " +++ pad_end 9 name +++ js " " +++ show account "evmAddress" +++ js " | "
      +++ show account "bech32Address").

Definition formatReport (report onlyNode : value) : result jstr :=
  accounts ← map_res account_line (v_list (field report (js "fundedAccounts")));
  let chain := field report (js "chain") in
  let consensus := field report (js "consensus") in
  let endpoints := field report (js "endpoints") in
  let warning := field report (js "warning") in
  let all := v_list (field report (js "validators")) in
  let validators := if truthy onlyNode
                    then List.filter (λ v, strict_eq (field v (js "name")) onlyNode) all else all in
  let lines :=
    [ if is_nullish warning then [] else to_string warning;
      js "Torium localnet: " +++ to_upper (show report "state") +++ js " (" +++ show report "backend" +++ js ")";
      js "Chain: " +++ show chain "cosmosChainID" +++ js " | EVM " +++ show chain "evmChainID"
        +++ js " (" +++ show chain "evmChainIDHex" +++ js ")";
      js "Height: consensus=" +++ show chain "highestHeight" +++ js " evm=" +++ show chain "evmHeight"
        +++ js " | quorum " +++ show consensus "availableVotingPower" +++ js "/"
        +++ show consensus "totalVotingPower" +++ js " (required " +++ show consensus "commitQuorumPower"
        +++ js ")";
      js "Genesis SHA-256: " +++ show chain "genesisSHA256";
      js "Endpoints:";
      js "  EVM HTTP       " +++ show endpoints "evmHTTP";
      js "  EVM WebSocket  " +++ show endpoints "evmWebSocket";
      js "  Cosmos REST    " +++ show endpoints "cosmosREST";
      js "  Cosmos gRPC    " +++ show endpoints "cosmosGRPC";
      js "  CometBFT RPC   " +++ show endpoints "cometRPC";
      evm_line (field report (js "evm"));
      rest_line (field report (js "rest"));
      js "Validators:" ]
    ++ map validator_line validators
    ++ [js "Funded public fixtures:"]
    ++ accounts
    ++ (if strict_eq (field report (js "progressObserved")) (VBool true)
        then [js "Readiness observed block progress from " +++ show report "initialHeight" +++ js " to "
              +++ show chain "highestHeight" +++ js "."]
        else []) in
  Ok (join [10%N] lines +++ [10%N]).

(** ** Command line *)

Record health_args := HealthArgs {
  arg_root : value;
  arg_manifest : value;
  arg_profile : value;
  arg_wait : bool;
  arg_timeoutSeconds : num;
  arg_json : bool;
  arg_requireAll : bool;
  arg_requireNode : value;
  arg_onlyNode : value;
}.

(** An option that takes the next argument, undefined past the end. *)
Definition set_arg (a : health_args) (option : jstr) (v : value) : health_args :=
  let '(HealthArgs root manifest profile wait timeout json all node only) := a in
  if option =s? js "--root" then HealthArgs v manifest profile wait timeout json all node only
  else if option =s? js "--manifest" then HealthArgs root v profile wait timeout json all node only
  else if option =s? js "--profile" then HealthArgs root manifest v wait timeout json all node only
  else if option =s? js "--timeout" then
    HealthArgs root manifest profile wait (to_number v) json all node only
  else if option =s? js "--require-node" then
    HealthArgs root manifest profile wait timeout json all v only
  else HealthArgs root manifest profile wait timeout json all node v.

Definition set_flag (a : health_args) (option : jstr) : health_args :=
  let '(HealthArgs root manifest profile wait timeout json all node only) := a in
  if option =s? js "--wait" then HealthArgs root manifest profile true timeout json all node only
  else if option =s? js "--json" then HealthArgs root manifest profile wait timeout true all node only
  else HealthArgs root manifest profile wait timeout json true node only.

Definition value_options : list jstr :=
  [js "--root"; js "--manifest"; js "--profile"; js "--timeout"; js "--require-node"; js "--only-node"].
Definition flag_options : list jstr := [js "--wait"; js "--json"; js "--require-all"].

Fixpoint parseArgsFrom (a : health_args) (argv : list jstr) : result health_args :=
  match argv with
  | [] => Ok a
  | option :: rest =>
      if jmem option flag_options then parseArgsFrom (set_flag a option) rest
      else if jmem option value_options then
        match rest with
        | [] => Ok (set_arg a option VUndef)
        | v :: rest' => parseArgsFrom (set_arg a option (VStr v)) rest'
        end
      else error (js "unknown health option " +++ option)
  end.

Definition parseArgs (argv : list jstr) : result health_args :=
  args ← parseArgsFrom (HealthArgs VNull VNull VNull false (NInt 90) false false VNull VNull) argv;
  throw_if (negb (truthy (arg_root args)) || negb (truthy (arg_manifest args))
            || negb (strict_eq (arg_profile args) (vs "container")
                     || strict_eq (arg_profile args) (vs "raw")))
    (js "health requires --root, --manifest, and --profile container|raw");;
  throw_if (negb (is_integer (arg_timeoutSeconds args))
            || num_ltb (arg_timeoutSeconds args) (NInt 1))
    (js "health timeout must be a positive integer");;
  Ok args.

Section process.
Context (radix16 : num → jstr) (readFile : jstr → result jstr) (cwd : jstr).
Context (net : nat → fetcher) (time : nat → jstr) (clock : nat → Z) (startedAt : Z).

(** The report, whether the requirements hold, and the message attached to a
    report that timed out. *)
Definition judge (args : health_args) (outcome : wait_outcome) : value * bool :=
  match outcome with
  | Ready report =>
      (report,
       if truthy (arg_onlyNode args) then
         existsb (λ v, strict_eq (field v (js "name")) (arg_onlyNode args) && is_ready v)
           (v_list (field report (js "validators")))
       else requirementsSatisfied report (arg_requireAll args) (arg_requireNode args))
  | TimedOut message report => (with_field report (js "error") (VStr message), false)
  end.

Definition emit (args : health_args) (report : value) (success : bool) : result process_outcome :=
  let code := if success then 0 else 1 in
  if arg_json args then Ok (Process (stringify 2 0 report +++ [10%N]) [] code)
  else
    text ← formatReport report (arg_onlyNode args);
    Ok (Process text (note "" (field report (js "error")) "" +++
                      (if truthy (field report (js "error")) then [10%N] else [])) code).

Definition health_run (fuel : nat) (argv : list jstr) : option (result process_outcome) :=
  match
    args ← parseArgs argv;
    topologyText ← readFile (path_resolve cwd (v_str (arg_root args) +++ js "/topology.json"));
    topology ← json_parse topologyText;
    manifestText ← readFile (path_resolve cwd (v_str (arg_manifest args)));
    manifest ← json_parse manifestText;
    Ok (args, topology, manifest)
  with
  | Throw e => Some (Throw e)
  | Ok (args, topology, manifest) =>
      outcome ←
        (if arg_wait args then
           waitForReadiness radix16 net time clock startedAt topology manifest (arg_profile args)
             fuel (num_Z (arg_timeoutSeconds args)) (arg_requireAll args) (arg_requireNode args)
         else
           Some (report ← sampleHealth radix16 (time 0%nat) (net 0%nat) topology manifest
                            (arg_profile args);
                 Ok (Ready report)));
      Some (outcome ← outcome; let '(report, success) := judge args outcome in
            emit args report success)
  end.

(** The process: an uncaught error is reported with exit code 2. *)
Definition health_main (fuel : nat) (argv : list jstr) : option process_outcome :=
  r ← health_run fuel argv;
  Some match r with
       | Ok out => out
       | Throw e =>
           Process [] (js "Torium localnet health error: " +++ errorMessage e +++ [10%N]) 2
       end.
End process.
