(* ===== verification/HealthExporter.v ===== *)
(** chain/observability/health-exporter.mjs: the loopback Prometheus exporter
    over the localnet health sample.  It validates its topology and every
    report before it prints metrics. *)

From S2P Require Import Prelude JsNum JsText JsValue JsonText JsPath JsOps Health.

Open Scope Z_scope.

(** ** Constants *)

Definition defaultHost : jstr := js "127.0.0.1".
Definition defaultPort : Z := 9468.
Definition canonicalEnvironment : jstr := js "localnet".
Definition canonicalCosmosChainID : jstr := js "torium-localnet-1".
Definition canonicalEvmChainID : Z := 1414484556.
Definition canonicalNodeNames : list jstr :=
  [js "validator-0"; js "validator-1"; js "validator-2"; js "validator-3"].
Definition allowedStates : list jstr :=
  [js "booting"; js "syncing"; js "ready"; js "degraded"; js "unhealthy"].

(** ** Scalar checks *)

Definition requireBoolean (v : value) (field : jstr) : result unit :=
  throw_if (negb (is_boolean v)) (field +++ js " must be a boolean").

Definition requireLoopback (host : value) : result unit :=
  throw_if (negb (is_string host && jmem (v_str host) [js "127.0.0.1"; js "::1"]))
    (js "exporter host must be numeric loopback 127.0.0.1 or ::1").

Definition label_start (c : N) : bool := is_lower c || is_digit c.
Definition label_char (c : N) : bool := label_start c || (c =? 95)%N || (c =? 45)%N.

(** The label pattern: a lower-case letter or digit, then at most 63 of those,
    underscores and dashes. *)
Definition is_label (s : jstr) : bool :=
  match s with
  | [] => false
  | c :: r => label_start c && forallb label_char r && (length r <=? 63)%nat
  end.

Definition requireLabel (v : value) (field : jstr) : result unit :=
  throw_if (negb (is_string v) || negb (is_label (v_str v)))
    (field +++ js " must be a bounded low-cardinality label").

Definition requireCanonicalEnvironment (v : value) : result unit :=
  throw_if (negb (strict_eq v (VStr canonicalEnvironment)))
    (js "exporter environment must be localnet in v0").

(** [new Set(l)]: the first occurrence of every value. *)
Fixpoint set_of (l : list jstr) : list jstr :=
  match l with
  | [] => []
  | x :: l' => if jmem x l' then set_of l' else x :: set_of l'
  end.

(** The names were collected into a set, so [actual] has no duplicates. *)
Definition assertLabelSet (actual expectedValues : list jstr) (field : jstr) : result unit :=
  let expected := set_of expectedValues in
  throw_if (negb (Nat.eqb (length actual) (length expected))
            || existsb (λ v, negb (jmem v expected)) actual)
    (field +++ js " must match the canonical v0 allowlist").

Definition requireText (v : value) (field : jstr) : result unit :=
  throw_if (negb (is_string v) || (jlen (v_str v) <? 1) || (512 <? jlen (v_str v)))
    (field +++ js " must be a non-empty bounded string").

Definition requireInteger (v : value) (field : jstr) (minimum : Z) : result unit :=
  throw_if (negb (v_safe_integer v) || num_ltb (v_num v) (NInt minimum))
    (field +++ js " must be an integer >= " +++ dec_of_Z minimum).

Definition requireNullableInteger (v : value) (field : jstr) (minimum : Z) : result unit :=
  if is_null v then Ok () else requireInteger v field minimum.

Definition requirePort (v : value) (field : jstr) : result unit :=
  requireInteger v field 1;;
  throw_if (num_ltb (NInt 65535) (v_num v)) (field +++ js " must be <= 65535").

Definition requireFinite (v : value) (field : jstr) : result unit :=
  throw_if (negb (v_finite v)) (field +++ js " must be finite").

Definition booleanNumber (v : value) : result value :=
  match v with
  | VBool b => Ok (vi (if b then 1 else 0))
  | _ => error (js "health report boolean is invalid")
  end.

Definition is_profile (v : value) : bool :=
  strict_eq v (vs "container") || strict_eq v (vs "raw").

(** ** Topology *)

Definition text (v : value) : jstr := to_string v.

(** One node of the topology, with the names seen so far. *)
Definition validateNode (names : list jstr) (node : value) : result (list jstr) :=
  throw_if (negb (is_object node || is_array node)) (js "topology node must be an object");;
  let name := field node (js "name") in
  let ports := field node (js "ports") in
  requireLabel name (js "topology node name");;
  throw_if (jmem (v_str name) names) (js "duplicate topology node " +++ text name);;
  requireText (field node (js "node_id")) (js "topology node_id for " +++ text name);;
  requireInteger (field node (js "voting_power")) (js "topology voting_power for " +++ text name) 0;;
  requirePort (oget ports (js "comet_rpc")) (js "Comet RPC port for " +++ text name);;
  (if truthy (field node (js "client_traffic")) then
     for_each (λ f, requirePort (oget ports f) (f +++ js " port for " +++ text name))
       [js "cosmos_rest"; js "cosmos_grpc"; js "evm_http"; js "evm_ws"]
   else Ok ());;
  Ok (names ++ [v_str name]).

(** [nodes.reduce((sum, node) => sum + node.voting_power, 0)]. *)
Definition totalPower (power : jstr) (nodes : list value) : value :=
  fold_left (λ sum node, js_add sum (field node power)) nodes (vi 0).

Definition validateExporterInputs (topology manifest profile : value) : result unit :=
  throw_if (negb (is_profile profile)) (js "exporter profile must be container or raw");;
  throw_if (not_plain_object topology) (js "exporter topology must be an object");;
  let nodes := v_list (field topology (js "nodes")) in
  throw_if (negb (is_array (field topology (js "nodes")))
            || negb (Nat.eqb (length nodes) (length canonicalNodeNames)))
    (js "exporter topology must contain the canonical four nodes");;
  throw_if (negb (is_array (oget manifest (js "development_accounts"))))
    (js "exporter manifest development_accounts must be an array");;
  requireText (field topology (js "cosmos_chain_id")) (js "topology cosmos_chain_id");;
  requireInteger (field topology (js "evm_chain_id")) (js "topology evm_chain_id") 1;;
  throw_if (negb (strict_eq (field topology (js "cosmos_chain_id")) (VStr canonicalCosmosChainID))
            || negb (strict_eq (field topology (js "evm_chain_id")) (vi canonicalEvmChainID)))
    (js "exporter topology must use the canonical localnet IDs");;
  let total := field topology (js "total_voting_power") in
  let quorum := field topology (js "commit_quorum_power") in
  requireInteger total (js "topology total_voting_power") 1;;
  requireInteger quorum (js "topology commit_quorum_power") 1;;
  throw_if (num_ltb (v_num total) (v_num quorum))
    (js "topology commit quorum exceeds total voting power");;
  names ← fold_res validateNode [] nodes;
  throw_if (negb (strict_eq (totalPower (js "voting_power") nodes) total))
    (js "topology node voting power does not equal total voting power");;
  assertLabelSet names canonicalNodeNames (js "topology node names");;
  requireLabel (field topology (js "client_node")) (js "topology client_node");;
  let clients := List.filter (λ node, truthy (field node (js "client_traffic"))) nodes in
  throw_if (negb (Nat.eqb (length clients) 1)
            || negb (strict_eq (field (hd VUndef clients) (js "name")) (field topology (js "client_node"))))
    (js "topology must define exactly one matching client node").

(** ** Reports *)

(** Names seen, ready power and total power of the loop over validators. *)
Record tally := Tally { seen_names : list jstr; ready_power : value; total_power : value }.

Definition validateValidator (t : tally) (v : value) : result tally :=
  let name := field v (js "name") in
  let power := field v (js "votingPower") in
  let ready := field v (js "ready") in
  _ ← get v (js "name");
  requireLabel name (js "validator name");;
  throw_if (jmem (v_str name) (seen_names t)) (js "duplicate validator " +++ text name);;
  requireBoolean (field v (js "reachable")) (text name +++ js " reachable");;
  requireBoolean ready (text name +++ js " ready");;
  throw_if (truthy ready && negb (truthy (field v (js "reachable"))))
    (text name +++ js " cannot be ready while unreachable");;
  requireInteger (field v (js "height")) (text name +++ js " height") 0;;
  requireInteger power (text name +++ js " voting power") 0;;
  requireNullableInteger (field v (js "peerCount")) (text name +++ js " peers") 0;;
  throw_if (negb (is_null (field v (js "catchingUp"))) && negb (is_boolean (field v (js "catchingUp"))))
    (text name +++ js " catching-up state is invalid");;
  Ok (Tally (seen_names t ++ [v_str name])
        (if truthy ready then js_add (ready_power t) power else ready_power t)
        (js_add (total_power t) power)).

(** The scalar fields of a report. *)
Definition validateSummary (report : value) : result unit :=
  let chain := field report (js "chain") in
  let consensus := field report (js "consensus") in
  let evm := field report (js "evm") in
  let rest := field report (js "rest") in
  requireBoolean (field report (js "ready")) (js "health report ready");;
  requireInteger (field chain (js "highestHeight")) (js "consensus height") 0;;
  requireInteger (field chain (js "evmHeight")) (js "EVM height") 0;;
  requireBoolean (field consensus (js "ready")) (js "consensus ready");;
  requireInteger (field consensus (js "availableVotingPower")) (js "available voting power") 0;;
  requireInteger (field consensus (js "totalVotingPower")) (js "total voting power") 1;;
  requireInteger (field consensus (js "commitQuorumPower")) (js "commit quorum power") 1;;
  throw_if (num_ltb (v_num (field consensus (js "totalVotingPower")))
                    (v_num (field consensus (js "availableVotingPower")))
            || num_ltb (v_num (field consensus (js "totalVotingPower")))
                       (v_num (field consensus (js "commitQuorumPower"))))
    (js "health report voting-power invariants are invalid");;
  requireBoolean (field evm (js "reachable")) (js "EVM reachable");;
  requireBoolean (field evm (js "ready")) (js "EVM ready");;
  requireBoolean (field rest (js "reachable")) (js "REST reachable");;
  requireBoolean (field rest (js "ready")) (js "REST ready").

Definition validateReport (report expectedProfile : value) (expectedNodeNames : list jstr)
    : result unit :=
  let consensus := field report (js "consensus") in
  let evm := field report (js "evm") in
  let rest := field report (js "rest") in
  let validators := field report (js "validators") in
  throw_if (negb (truthy report) || negb (strict_eq (field report (js "schemaVersion")) (vi 2)))
    (js "health report schemaVersion must be 2");;
  throw_if (negb (is_profile (field report (js "backend"))))
    (js "health report backend must be container or raw");;
  throw_if (negb (strict_eq (field report (js "backend")) expectedProfile))
    (js "health report backend differs from exporter profile");;
  throw_if (negb (is_string (field report (js "state"))
                  && jmem (v_str (field report (js "state"))) allowedStates))
    (js "health report state is invalid");;
  throw_if (negb (is_array validators)
            || negb (Nat.eqb (length (v_list validators)) (length expectedNodeNames))
            || negb (truthy (field report (js "chain"))) || negb (truthy consensus)
            || negb (truthy evm) || negb (truthy rest))
    (js "health report is incomplete");;
  validateSummary report;;
  t ← fold_res validateValidator (Tally [] (vi 0) (vi 0)) (v_list validators);
  assertLabelSet (seen_names t) expectedNodeNames (js "health report validator names");;
  throw_if (negb (strict_eq (total_power t) (field consensus (js "totalVotingPower")))
            || negb (strict_eq (ready_power t) (field consensus (js "availableVotingPower"))))
    (js "health report validator power does not reconcile");;
  throw_if (negb (Bool.eqb (truthy (field consensus (js "ready")))
                   (num_leb (v_num (field consensus (js "commitQuorumPower")))
                            (v_num (field consensus (js "availableVotingPower"))))))
    (js "health report quorum readiness is inconsistent");;
  throw_if (negb (Bool.eqb (truthy (field report (js "ready")))
                   (truthy (field consensus (js "ready")) && truthy (field evm (js "ready"))
                    && truthy (field rest (js "ready")))))
    (js "health report aggregate readiness is inconsistent").

(** ** Metrics *)

(** A sample of a metric family. *)
Record sample := Sample { labels : list (jstr * value); sample_value : value }.

Record family := Family { family_name : jstr; help : jstr; samples : list sample }.

(** The character 34. *)
Definition double_quote : jstr := [34%N].

(** Backslashes first, then line feeds, then quotes. *)
Definition escapeLabel (v : value) : jstr :=
  replace_char 34 [92; 34]%N (replace_char 10 [92; 110]%N (replace_char 92 [92; 92]%N (to_string v))).

Definition key_le (a b : jstr * value) : Prop := jstr_le (fst a) (fst b).
#[export] Instance key_le_dec : RelDecision key_le.
Proof. intros a b. unfold key_le. apply _. Defined.

(** The label names are lower-case ASCII words, on which [localeCompare] is
    the code-unit order. *)
Definition formatLabels (labels : list (jstr * value)) : jstr :=
  let entries := merge_sort key_le labels in
  js "{" +++
  join (js ",") (map (λ kv, fst kv +++ js "=" +++ double_quote +++ escapeLabel (snd kv) +++ double_quote)
                     entries)
  +++ js "}".

(** [{ ...common, ...labels }]. *)
Definition merge_labels (common labels : list (jstr * value)) : list (jstr * value) :=
  fold_left (λ fs kv, set_own (fst kv) (snd kv) fs) labels common.

Definition family_lines (common : list (jstr * value)) (f : family) : result (list jstr) :=
  sample_lines ← map_res (λ s,
      requireFinite (sample_value s) (family_name f);;
      Ok (family_name f +++ formatLabels (merge_labels common (labels s)) +++ js " "
          +++ to_string (sample_value s)))
    (samples f);
  Ok ((js "# HELP " +++ family_name f +++ js " " +++ help f)
      :: (js "# TYPE " +++ family_name f +++ js " gauge") :: sample_lines).

(** One sample without labels, and one per validator. *)
Definition single (v : value) : list sample := [Sample [] v].
Definition per_validator (f : value → result value) (validators : list value) : result (list sample) :=
  map_res (λ v, x ← f v; Ok (Sample [(js "node", field v (js "name"))] x)) validators.

Definition boolean_family (name help : string) (v : value) : result family :=
  x ← booleanNumber v; Ok (Family (js name) (js help) (single x)).

Definition validator_family (name help : string) (f : value → result value) (validators : list value)
    : result family :=
  ss ← per_validator f validators; Ok (Family (js name) (js help) ss).

Definition state_samples (state : value) : list sample :=
  map (λ s, Sample [(js "state", VStr s)] (vi (if strict_eq (VStr s) state then 1 else 0)))
    allowedStates.

Definition power_samples (consensus : value) : list sample :=
  [Sample [(js "kind", vs "available")] (field consensus (js "availableVotingPower"));
   Sample [(js "kind", vs "required")] (field consensus (js "commitQuorumPower"));
   Sample [(js "kind", vs "total")] (field consensus (js "totalVotingPower"))].

(** The families of a report, in the order they are printed. *)
Definition report_families (report : value) : result (list family) :=
  let chain := field report (js "chain") in
  let consensus := field report (js "consensus") in
  let evm := field report (js "evm") in
  let rest := field report (js "rest") in
  let validators := v_list (field report (js "validators")) in
  f1 ← boolean_family "torium_localnet_ready" "Whether the localnet readiness contract passes."
         (field report (js "ready"));
  let f2 := Family (js "torium_localnet_state") (js "One-hot localnet lifecycle state.")
              (state_samples (field report (js "state"))) in
  let f3 := Family (js "torium_localnet_consensus_height") (js "Highest observed CometBFT height.")
              (single (field chain (js "highestHeight"))) in
  let f4 := Family (js "torium_localnet_evm_height") (js "Observed EVM JSON-RPC height.")
              (single (field chain (js "evmHeight"))) in
  f5 ← boolean_family "torium_localnet_consensus_ready" "Whether commit quorum is ready."
         (field consensus (js "ready"));
  let f6 := Family (js "torium_localnet_voting_power") (js "Observed localnet voting-power gauges.")
              (power_samples consensus) in
  f7 ← boolean_family "torium_localnet_evm_rpc_reachable"
         "Whether the EVM RPC health sample succeeded." (field evm (js "reachable"));
  f8 ← boolean_family "torium_localnet_evm_rpc_ready"
         "Whether the EVM RPC readiness checks pass." (field evm (js "ready"));
  f9 ← boolean_family "torium_localnet_rest_reachable"
         "Whether the Cosmos REST health sample succeeded." (field rest (js "reachable"));
  f10 ← boolean_family "torium_localnet_rest_ready"
         "Whether the Cosmos REST readiness checks pass." (field rest (js "ready"));
  f11 ← validator_family "torium_localnet_validator_reachable"
          "Whether a validator CometBFT sample succeeded."
          (λ v, booleanNumber (field v (js "reachable"))) validators;
  f12 ← validator_family "torium_localnet_validator_ready"
          "Whether a validator identity, sync, and height checks pass."
          (λ v, booleanNumber (field v (js "ready"))) validators;
  f13 ← validator_family "torium_localnet_validator_height" "Observed validator CometBFT height."
          (λ v, Ok (field v (js "height"))) validators;
  f14 ← validator_family "torium_localnet_validator_voting_power"
          "Configured local validator voting power." (λ v, Ok (field v (js "votingPower"))) validators;
  f15 ← validator_family "torium_localnet_validator_peers"
          "Observed validator peer count when available." (λ v, Ok (field v (js "peerCount")))
          (List.filter (λ v, v_finite (field v (js "peerCount"))) validators);
  f16 ← validator_family "torium_localnet_validator_catching_up"
          "Whether a validator reports catching up." (λ v, booleanNumber (field v (js "catchingUp")))
          (List.filter (λ v, is_boolean (field v (js "catchingUp"))) validators);
  Ok [f1; f2; f3; f4; f5; f6; f7; f8; f9; f10; f11; f12; f13; f14; f15; f16].

Definition formatPrometheus (report environment expectedProfile : value) (expectedNodeNames : list jstr)
    : result jstr :=
  requireCanonicalEnvironment environment;;
  validateReport report expectedProfile expectedNodeNames;;
  let common := [(js "environment", environment); (js "profile", field report (js "backend"))] in
  families ← report_families report;
  blocks ← map_res (family_lines common) families;
  Ok (join [10%N] (concat blocks) +++ [10%N]).

(** ** The HTTP handler *)

Record http_response := HttpResponse { code : Z; content_type : jstr; body : jstr }.

Definition plain_text : jstr := js "text/plain; charset=utf-8".

(** What the exporter needs from the component that samples health. *)
Class HealthSampler := {
  sampleHealthImpl : value → value → value → result value
}.

Section handler.
(** The WHATWG URL parser: the pathname of a request target. *)
Context (pathname : jstr → result jstr).
Context `{HealthSampler}.

(** [createExporterHandler] checks its inputs once, then answers requests. *)
Definition checkHandlerInputs (topology manifest profile environment : value) : result unit :=
  validateExporterInputs topology manifest profile;;
  requireCanonicalEnvironment environment.

Definition node_names (topology : value) : list jstr :=
  map (λ node, v_str (field node (js "name"))) (v_list (field topology (js "nodes"))).

Definition metricsResponse (topology manifest profile environment : value) : http_response :=
  match
    report ← sampleHealthImpl topology manifest profile;
    formatPrometheus report environment profile (node_names topology)
  with
  | Ok body => HttpResponse 200 (js "text/plain; version=0.0.4; charset=utf-8") body
  | Throw _ => HttpResponse 503 plain_text (js "health sample unavailable" +++ [10%N])
  end.

Definition handleRequest (topology manifest profile environment method url : value)
    : result http_response :=
  let method := nullish method (vs "GET") in
  path ← pathname (to_string (nullish url (vs "/")));
  if strict_eq method (vs "GET") && (path =s? js "/healthz") then
    Ok (HttpResponse 200 plain_text (js "ok" +++ [10%N]))
  else if strict_eq method (vs "GET") && (path =s? js "/metrics") then
    Ok (metricsResponse topology manifest profile environment)
  else Ok (HttpResponse 404 plain_text (js "not found" +++ [10%N])).
End handler.

(** ** Command line *)

Record exporter_config := ExporterConfig {
  config_root : value;
  config_manifestPath : value;
  config_profile : value;
  config_environment : value;
  config_host : value;
  config_port : value;
}.

Definition set_config (c : exporter_config) (option v : jstr) : exporter_config :=
  let '(ExporterConfig root manifest profile environment host port) := c in
  if option =s? js "--root" then ExporterConfig (VStr v) manifest profile environment host port
  else if option =s? js "--manifest" then ExporterConfig root (VStr v) profile environment host port
  else if option =s? js "--profile" then ExporterConfig root manifest (VStr v) environment host port
  else if option =s? js "--environment" then ExporterConfig root manifest profile (VStr v) host port
  else if option =s? js "--host" then ExporterConfig root manifest profile environment (VStr v) port
  else ExporterConfig root manifest profile environment host (VNum (num_of_string v)).

Definition exporter_options : list jstr :=
  [js "--root"; js "--manifest"; js "--profile"; js "--environment"; js "--host"; js "--port"].

Fixpoint parseExporterArgsFrom (c : exporter_config) (argv : list jstr) : result exporter_config :=
  match argv with
  | [] => Ok c
  | option :: rest =>
      if jmem option exporter_options then
        match rest with
        | [] => error (option +++ js " requires a value")
        | v :: rest' =>
            if bool_decide (v = []) || starts_with (js "--") v
            then error (option +++ js " requires a value")
            else parseExporterArgsFrom (set_config c option v) rest'
        end
      else error (js "unknown exporter option " +++ option)
  end.

Definition validateConfig (c : exporter_config) : result unit :=
  requireText (config_root c) (js "exporter --root");;
  requireText (config_manifestPath c) (js "exporter --manifest");;
  throw_if (negb (is_profile (config_profile c))) (js "exporter --profile must be container or raw");;
  requireCanonicalEnvironment (config_environment c);;
  requireLoopback (config_host c);;
  requirePort (config_port c) (js "exporter port").

Definition parseExporterArgs (argv : list jstr) : result exporter_config :=
  config ← parseExporterArgsFrom
    (ExporterConfig VNull VNull VNull (VStr canonicalEnvironment) (VStr defaultHost) (vi defaultPort))
    argv;
  validateConfig config;;
  Ok config.

Section start.
Context (readFile : jstr → result jstr) (cwd : jstr).

Definition loadExporterInputs (root manifestPath profile : value) : result (value * value * value) :=
  topologyText ← readFile (path_resolve cwd (v_str root +++ js "/topology.json"));
  manifestText ← readFile (path_resolve cwd (v_str manifestPath));
  '(topology, manifest) ←
    catch (topology ← json_parse topologyText; manifest ← json_parse manifestText;
           Ok (topology, manifest))
      (λ _, error (js "exporter topology and manifest must be valid JSON"));
  validateExporterInputs topology manifest profile;;
  Ok (topology, manifest, profile).

(** [startExporter]: the checks before the server listens on the address. *)
Definition startExporter (host port topology manifest profile environment : value)
    : result (value * value) :=
  requireLoopback host;;
  requirePort port (js "exporter port");;
  checkHandlerInputs topology manifest profile environment;;
  Ok (host, port).

(** What the process listens on and serves, or the error it exits with. *)
Definition exporter_main (argv : list jstr) : result (value * value * (value * value * value)) :=
  config ← parseExporterArgs argv;
  inputs ← loadExporterInputs (config_root config) (config_manifestPath config) (config_profile config);
  let '(topology, manifest, profile) := inputs in
  address ← startExporter (config_host config) (config_port config) topology manifest profile
              (config_environment config);
  Ok (address, inputs).
End start.

(** The exporter's default sampler is the localnet sample. *)
#[export] Instance localnet_sampler (radix16 : num → jstr) (generatedAt : jstr) (fetchImpl : fetcher)
    : HealthSampler :=
  { sampleHealthImpl := sampleHealth radix16 generatedAt fetchImpl }.
