(* ===== verification/HealthFacts.v ===== *)
(** Properties of the localnet health sample and its exporter: exact voting
    power, what "ready" means, the contract between the sampler and the
    exporter, the metrics handler, and the readiness wait. *)

From S2P Require Import Prelude JsNum JsText JsValue JsonText JsPath JsOps Health HealthExporter.

Open Scope Z_scope.

(** ** Exact sums of voting power *)

(** A safe integer that is not negative. *)
Definition natural (v : value) : Prop := v_safe_integer v = true ∧ 0 ≤ v_Z v.

Definition Zsum (l : list value) : Z := fold_right (λ v s, v_Z v + s) 0 l.

Lemma Zsum_nonneg l : Forall natural l → 0 ≤ Zsum l.
Proof. induction 1 as [|v l [_ Hv] Hl IH]; simpl; lia. Qed.

Lemma natural_int v : natural v → ∃ n, v = VNum n ∧ num_int n = Some (v_Z v) ∧ v_Z v ≤ max_safe.
Proof.
  intros [Hs Hv]. destruct (v_safe_integer_Z v Hs) as [Hi Hm].
  destruct v; try done. eexists. split_and!; [done|done|lia].
Qed.

Lemma requireInteger_Ok v l m u :
  requireInteger v l m = Ok u ↔ v_safe_integer v = true ∧ m ≤ v_Z v.
Proof.
  unfold requireInteger. rewrite throw_if_Ok, orb_false_iff, negb_false_iff.
  split; intros [Hs H]; (split; [done|]);
    destruct (v_safe_integer_Z v Hs) as [Hi _];
    (erewrite num_ltb_int in * by (apply Hi || done)); lia.
Qed.

Lemma num_int_big n z : num_int n = Some z → 2 ^ 53 ≤ z → num_big n.
Proof. intros [->|[-> ->]]%num_int_cases Hz; [simpl; lia|lia]. Qed.

(** Adding naturals with doubles is exact up to the safe range and leaves it
    for good once the exact sum does. *)
Lemma fold_add_big l a :
  num_big a → Forall natural l → ∃ n, fold_left js_add l (VNum a) = VNum n ∧ num_big n.
Proof.
  intros Ha Hl. revert a Ha. induction Hl as [|v l Hv Hl IH]; intros a Ha; simpl; [eauto|].
  destruct (natural_int v Hv) as (n & -> & Hn & _). apply IH.
  by eapply num_add_big_l, Hv.
Qed.

Lemma fold_add_exact l a x :
  num_int a = Some x → 0 ≤ x ≤ max_safe → Forall natural l →
  ∃ n, fold_left js_add l (VNum a) = VNum n ∧
    (x + Zsum l ≤ max_safe ∧ num_int n = Some (x + Zsum l) ∨ max_safe < x + Zsum l ∧ num_big n).
Proof.
  intros Ha Hx Hl. revert a x Ha Hx.
  induction Hl as [|v l Hv Hl IH]; intros a x Ha Hx; simpl.
  { exists a. split; [done|]. left. rewrite Z.add_0_r. split; [lia|done]. }
  destruct (natural_int v Hv) as (n & -> & Hn & Hm). destruct Hv as [_ Hv].
  pose proof (Zsum_nonneg l Hl). unfold js_add at 2. cbn [is_text_like orb to_number].
  destruct (Z_le_gt_dec (x + v_Z (VNum n)) max_safe) as [Hle|Hgt].
  - destruct (IH (num_add a n) (x + v_Z (VNum n))) as (m & -> & Hcase).
    + apply num_add_int; [done..|]. unfold max_safe in *. lia.
    + lia.
    + exists m. split; [done|]. by rewrite Z.add_assoc.
  - assert (num_big (num_add a n)) as Hbig.
    { destruct (num_add_big a n x (v_Z (VNum n))) as [?|Hi]; try done;
        [unfold max_safe in *; lia|lia|]. eapply num_int_big; [done|]. unfold max_safe in *. lia. }
    destruct (fold_add_big l _ Hbig Hl) as (m & -> & Hm'). exists m. split; [done|]. right.
    split; [lia|done].
Qed.

(** A double sum that equals a safe integer is the exact sum. *)
Lemma sum_equals l total :
  Forall natural l → v_safe_integer total = true →
  strict_eq (fold_left js_add l (vi 0)) total = true ↔ Zsum l = v_Z total.
Proof.
  intros Hl Ht. destruct (v_safe_integer_Z total Ht) as [Hi Hm].
  destruct (fold_add_exact l (NInt 0) 0 eq_refl ltac:(by vm_compute) Hl) as (n & En & Hcase).
  unfold vi. rewrite En. destruct total as [| | |t| | |]; try done. cbn [strict_eq v_num] in *.
  rewrite Z.add_0_l in Hcase. destruct Hcase as [[Hle Hn]|[Hgt Hbig]].
  - rewrite (num_eqb_int _ _ _ _ Hn Hi). apply Z.eqb_eq.
  - rewrite num_big_neq by done. split; [done|]. lia.
Qed.

Lemma sum_value l :
  Forall natural l → Zsum l ≤ max_safe →
  ∃ n, fold_left js_add l (vi 0) = VNum n ∧ num_int n = Some (Zsum l).
Proof.
  intros Hl Hs.
  destruct (fold_add_exact l (NInt 0) 0 eq_refl ltac:(by vm_compute) Hl) as (n & En & Hcase).
  exists n. split; [done|]. rewrite Z.add_0_l in Hcase. destruct Hcase as [[_ ?]|[? _]]; [done|lia].
Qed.

Lemma fold_power {A} (f : A → value) l a :
  fold_left (λ s x, js_add s (f x)) l a = fold_left js_add (map f l) a.
Proof. revert a. induction l as [|x l IH]; intros a; simpl; [done|apply IH]. Qed.

Lemma Zsum_filter (p : value → bool) (f : value → value) l :
  Forall (λ v, natural (f v)) l → Zsum (map f (List.filter p l)) ≤ Zsum (map f l).
Proof.
  induction 1 as [|v l [_ Hv] Hl IH]; simpl; [done|]. destruct (p v); simpl; lia.
Qed.

(** ** Label sets *)

Lemma set_of_NoDup l : NoDup l → set_of l = l.
Proof.
  induction 1 as [|x l Hx Hl IH]; simpl; [done|].
  rewrite (proj2 (jmem_false x l)), IH by done. done.
Qed.

Lemma assertLabelSet_Ok actual expected l u :
  NoDup actual → NoDup expected →
  assertLabelSet actual expected l = Ok u ↔ actual ≡ₚ expected.
Proof.
  intros Ha He. unfold assertLabelSet. rewrite throw_if_Ok, set_of_NoDup by done.
  rewrite orb_false_iff, negb_false_iff, Nat.eqb_eq. split.
  - intros [Hlen Hin]. apply submseteq_length_Permutation; [|lia].
    apply NoDup_submseteq; [done|]. intros x Hx. apply jmem_spec.
    destruct (jmem x expected) eqn:E; [done|].
    rewrite <- not_true_iff_false, existsb_exists in Hin. destruct Hin.
    exists x. split; [by apply list_elem_of_In|]. by rewrite E.
  - intros Hp. split; [by rewrite Hp|]. apply not_true_iff_false. rewrite existsb_exists.
    intros (x & Hx & Hn). apply negb_true_iff, jmem_false in Hn. apply Hn.
    rewrite <- Hp. by apply list_elem_of_In.
Qed.

(** ** Topologies the exporter accepts *)

Definition node_name (node : value) : jstr := v_str (field node (js "name")).

Record wf_node (node : value) : Prop := {
  node_object : is_nullish node = false;
  node_label : field node (js "name") = VStr (node_name node) ∧ is_label (node_name node) = true;
  node_power : natural (field node (js "voting_power"));
  node_port : is_nullish (field node (js "ports")) = false;
}.

Definition powers (nodes : list value) : list value := map (λ n, field n (js "voting_power")) nodes.

Record valid_topology (topology profile : value) (nodes : list value) : Prop := {
  topology_nodes : field topology (js "nodes") = VArr nodes;
  topology_object : is_nullish topology = false;
  topology_profile : is_profile profile = true;
  nodes_wf : Forall wf_node nodes;
  nodes_distinct : NoDup (map node_name nodes);
  total_natural : v_safe_integer (field topology (js "total_voting_power")) = true;
  total_positive : 1 ≤ v_Z (field topology (js "total_voting_power"));
  total_exact : Zsum (powers nodes) = v_Z (field topology (js "total_voting_power"));
  quorum_natural : v_safe_integer (field topology (js "commit_quorum_power")) = true;
  quorum_range : 1 ≤ v_Z (field topology (js "commit_quorum_power"))
                 ≤ v_Z (field topology (js "total_voting_power"));
}.

Lemma requireLabel_Ok v l u :
  requireLabel v l = Ok u ↔ v = VStr (v_str v) ∧ is_label (v_str v) = true.
Proof.
  unfold requireLabel. rewrite throw_if_Ok, orb_false_iff, !negb_false_iff.
  destruct v; simpl; naive_solver.
Qed.

Lemma requirePort_Ok v l u :
  requirePort v l = Ok u → v_safe_integer v = true ∧ 1 ≤ v_Z v ≤ 65535.
Proof.
  unfold requirePort. intros H. passed H as Hi. apply throw_if_Ok in H.
  apply requireInteger_Ok in Hi as [Hs Hz]. destruct (v_safe_integer_Z v Hs) as [Hi _].
  erewrite num_ltb_int in H by (apply Hi || done). split; [done|]. lia.
Qed.

Lemma validateNode_Ok names node names' :
  validateNode names node = Ok names' →
  wf_node node ∧ names' = names ++ [node_name node] ∧ node_name node ∉ names.
Proof.
  unfold validateNode. intros H. passed H as Hobj. passed H as Hlabel. passed H as Hdup.
  passed H as Htext. passed H as Hpow. passed H as Hport. passed H as Hclient. inv_result.
  apply requireLabel_Ok in Hlabel as [Hl1 Hl2]. apply requireInteger_Ok in Hpow as [Hp1 Hp2].
  apply requirePort_Ok in Hport as [Hs _]. apply jmem_false in Hdup.
  split_and!; [split|done|done].
  - apply negb_false_iff, orb_true_iff in Hobj. by destruct node, Hobj.
  - by split.
  - by split.
  - unfold oget in Hs. by destruct (field node (js "ports")).
Qed.

Lemma validateNodes_Ok nodes names :
  fold_res validateNode [] nodes = Ok names →
  names = map node_name nodes ∧ NoDup names ∧ Forall wf_node nodes.
Proof.
  apply (fold_res_invariant (λ done names,
    names = map node_name done ∧ NoDup names ∧ Forall wf_node done)).
  { split_and!; by constructor. }
  intros dn x s s' (-> & Hnd & Hwf) Hs. apply validateNode_Ok in Hs as (Hx & -> & Hfresh).
  rewrite map_app. split_and!; [done|by apply NoDup_snoc|].
  apply Forall_app. split; [done|by constructor].
Qed.

Lemma validateExporterInputs_Ok topology manifest profile :
  validateExporterInputs topology manifest profile = Ok () →
  ∃ nodes, valid_topology topology profile nodes ∧ map node_name nodes ≡ₚ canonicalNodeNames.
Proof.
  unfold validateExporterInputs. intros H.
  passed H as Hprofile. passed H as Hobj. passed H as Hnodes. passed H as Hmanifest.
  passed H as Hcid. passed H as Heid. passed H as Hids. passed H as Htotal. passed H as Hquorum.
  passed H as Hle. take H as names Hnames. passed H as Hsum. passed H as Hset.
  apply orb_false_iff in Hnodes as [Harr _]. apply negb_false_iff in Harr.
  destruct (field topology (js "nodes")) as [| | | | |nodes|] eqn:En; try done. cbn [v_list] in *.
  apply validateNodes_Ok in Hnames as (-> & Hnd & Hwf).
  apply requireInteger_Ok in Htotal as [Ht1 Ht2], Hquorum as [Hq1 Hq2].
  destruct (v_safe_integer_Z _ Ht1) as [Hti _]. destruct (v_safe_integer_Z _ Hq1) as [Hqi _].
  rewrite (num_ltb_int _ _ _ _ Hti Hqi) in Hle. inv_bool.
  unfold totalPower in Hsum. rewrite fold_power in Hsum. apply sum_equals in Hsum; [|clear -Hwf|done].
  2:{ induction Hwf as [|n l Hn Hl IH]; simpl; constructor; [apply Hn|done]. }
  apply assertLabelSet_Ok in Hset; [|done|by apply all_distinct_spec].
  exists nodes. split; [|done]. split; try done.
  unfold not_plain_object in Hobj. by destruct topology.
Qed.

(** ** The shape of a sampled validator *)

(** What a validator entry of a report says about its node. *)
Record entry_of (node v : value) : Prop := {
  entry_object : is_nullish v = false;
  entry_name : field v (js "name") = field node (js "name");
  entry_power : field v (js "votingPower") = field node (js "voting_power");
  entry_flags : ∃ reachable ready : bool,
    field v (js "reachable") = VBool reachable ∧ field v (js "ready") = VBool ready ∧
    (ready = true → reachable = true);
  entry_height : ∃ n, field v (js "height") = VNum n;
  entry_sync : field v (js "catchingUp") = VNull ∨ ∃ b, field v (js "catchingUp") = VBool b;
}.

(** What a ready validator answered. *)
Record ready_entry (topology node v : value) : Prop := {
  ready_height : ∃ n, field v (js "height") = VNum n ∧ num_ltb (NInt 0) n = true;
  ready_synced : field v (js "catchingUp") = VBool false;
  ready_identity : strict_eq (field v (js "observedNodeID")) (field node (js "node_id")) = true;
  ready_network : strict_eq (field v (js "observedNetwork")) (field topology (js "cosmos_chain_id")) = true;
}.

Lemma observe_fields p i c :
  identityMatches (observe p i c) = strict_eq (observedNodeID (observe p i c)) i ∧
  networkMatches (observe p i c) = strict_eq (observedNetwork (observe p i c)) c.
Proof. done. Qed.

Lemma sampleValidator_Ok topology profile f i node v :
  sampleValidator topology profile f i node = Ok v →
  entry_of node v ∧ (is_ready v = true → ready_entry topology node v).
Proof.
  unfold sampleValidator. intros H. take H as port Hport. cbv zeta in H.
  set (url := js "http://127.0.0.1:" +++ to_string port) in *.
  destruct (requestJSON (url +++ js "/status") (VObj []) f) as [payload|e].
  - cbn [mbind result_bind] in H. unfold get in H at 1.
    destruct (is_nullish node) eqn:En; cbn [mbind result_bind catch type_error] in H.
    { unfold get in H. rewrite En in H. by inv_result. }
    inv_result. set (o := observe payload (field node (js "node_id")) _).
    split.
    + split; try done; [|by eexists|by right; eexists].
      exists true, (observation_ready o). by split_and!.
    + intros Hr. change (observation_ready o = true) in Hr. unfold observation_ready in Hr. inv_bool.
      split; try done; [by eexists|]. change (VBool (catchingUp o) = VBool false). congruence.
  - cbn [mbind result_bind catch] in H. take H as nm Hnm. inv_result.
    split; [|done]. split; try done; [by exists false, false|by eexists|by left].
Qed.

Lemma sampled_entries topology profile f nodes validators :
  imap_res_from (sampleValidator topology profile f) 0 nodes = Ok validators →
  Forall2 (λ node v, entry_of node v ∧ (is_ready v = true → ready_entry topology node v))
    nodes validators.
Proof.
  intros H. apply imap_res_from_Ok in H as [Hlen H]. apply Forall2_same_length_lookup_2; [done|].
  intros i node v Hn Hv. destruct (H i node Hn) as (w & Hw & Hs). simplify_eq.
  by apply sampleValidator_Ok in Hs.
Qed.

Lemma entry_ready node v : entry_of node v → field v (js "ready") = VBool (is_ready v).
Proof. intros [_ _ _ (b & r & _ & Hr & _) _ _]. unfold is_ready. by rewrite Hr. Qed.

(** The names and powers of the report are those of the topology. *)
Lemma entries_names nodes validators :
  Forall2 entry_of nodes validators → map node_name validators = map node_name nodes.
Proof.
  induction 1 as [|n v ns vs' [_ Hn _ _ _ _] Hvs IH]; [done|]. simpl. rewrite IH. f_equal.
  unfold node_name. by rewrite Hn.
Qed.

Lemma entries_powers nodes validators :
  Forall2 entry_of nodes validators → map (λ v, field v (js "votingPower")) validators = powers nodes.
Proof.
  induction 1 as [|n v ns vs' [_ _ Hp _ _ _] Hvs IH]; [done|]. unfold powers in *. cbn [map]. by rewrite IH, Hp.
Qed.

Definition ready_powers (validators : list value) : list value :=
  map (λ v, field v (js "votingPower")) (List.filter is_ready validators).

(** The exact voting power of the ready validators. *)
Definition ready_power_Z (validators : list value) : Z := Zsum (ready_powers validators).

Lemma entries_natural nodes validators :
  Forall wf_node nodes → Forall2 entry_of nodes validators →
  Forall (λ v, natural (field v (js "votingPower"))) validators.
Proof.
  intros Hn. induction 1 as [|n v ns vs' [_ _ Hp _ _ _] Hvs IH]; [constructor|].
  apply Forall_cons in Hn as [Hn Hns]. constructor; [|by apply IH]. rewrite Hp. apply Hn.
Qed.

Lemma Forall_map_fn {A B} (f : A → B) (P : B → Prop) l : Forall (λ x, P (f x)) l → Forall P (map f l).
Proof. induction 1; simpl; by constructor. Qed.

Lemma Forall_list_filter {A} (P : A → Prop) (p : A → bool) l : Forall P l → Forall P (List.filter p l).
Proof. induction 1 as [|x l Hx Hl IH]; simpl; [constructor|]. destruct (p x); [by constructor|done]. Qed.

Lemma available_exact validators :
  Forall (λ v, natural (field v (js "votingPower"))) validators →
  Zsum (map (λ v, field v (js "votingPower")) validators) ≤ max_safe →
  ∃ n, availableVotingPower validators = VNum n ∧ num_int n = Some (ready_power_Z validators) ∧
    0 ≤ ready_power_Z validators ≤ Zsum (map (λ v, field v (js "votingPower")) validators).
Proof.
  intros Hn Hs. unfold availableVotingPower. rewrite fold_power.
  pose proof (Zsum_filter is_ready _ _ Hn) as Hle.
  assert (Forall natural (ready_powers validators)) as Hr.
  { apply Forall_map_fn, Forall_list_filter, Hn. }
  destruct (sum_value (ready_powers validators) Hr) as (n & En & Hi).
  { unfold ready_powers. lia. }
  exists n. split_and!; [done|done|by apply Zsum_nonneg|done].
Qed.

(** ** What a valid report is *)

Record sane_entry (v : value) : Prop := {
  sane_object : is_nullish v = false;
  sane_name : field v (js "name") = VStr (node_name v) ∧ is_label (node_name v) = true;
  sane_flags : ∃ reachable ready : bool,
    field v (js "reachable") = VBool reachable ∧ field v (js "ready") = VBool ready ∧
    (ready = true → reachable = true);
  sane_height : natural (field v (js "height"));
  sane_power : natural (field v (js "votingPower"));
  sane_peers : field v (js "peerCount") = VNull ∨ natural (field v (js "peerCount"));
  sane_sync : field v (js "catchingUp") = VNull ∨ ∃ b, field v (js "catchingUp") = VBool b;
}.

Definition power_of (v : value) : value := field v (js "votingPower").

Definition tally_step (t : tally) (v : value) : tally :=
  Tally (seen_names t ++ [node_name v])
    (if is_ready v then js_add (ready_power t) (power_of v) else ready_power t)
    (js_add (total_power t) (power_of v)).

Lemma requireNullable_Ok v l u :
  requireNullableInteger v l 0 = Ok u ↔ v = VNull ∨ natural v.
Proof.
  unfold requireNullableInteger. destruct (is_null v) eqn:E.
  - destruct v; try done. destruct u. naive_solver.
  - rewrite requireInteger_Ok. unfold natural. split; [naive_solver|]. by intros [->|?].
Qed.

Lemma requireBoolean_Ok v l u : requireBoolean v l = Ok u ↔ ∃ b, v = VBool b.
Proof.
  unfold requireBoolean. rewrite throw_if_Ok, negb_false_iff. destruct v; naive_solver.
Qed.

Lemma sync_ok v :
  negb (is_null v) && negb (is_boolean v) = false ↔ v = VNull ∨ ∃ b, v = VBool b.
Proof. destruct v; naive_solver. Qed.

Lemma validateValidator_iff t v t' :
  validateValidator t v = Ok t' ↔
  sane_entry v ∧ node_name v ∉ seen_names t ∧ t' = tally_step t v.
Proof.
  unfold validateValidator, get. split.
  - intros H. take H as nm Hnm. passed H as Hl. passed H as Hd. passed H as Hb. passed H as Hr.
    passed H as Hrr. passed H as Hh. passed H as Hp. passed H as Hn. passed H as Hs. inv_result.
    destruct (is_nullish v) eqn:En; [done|]. inv_result.
    apply requireLabel_Ok in Hl as [Hl1 Hl2]. apply jmem_false in Hd.
    apply requireBoolean_Ok in Hb as [b Hb], Hr as [r Hr].
    apply requireInteger_Ok in Hh, Hp. apply requireNullable_Ok in Hn. apply sync_ok in Hs.
    split_and!; [|done|done]. split; try done. exists b, r. rewrite Hb, Hr in Hrr.
    split_and!; [done|done|]. intros ->. by destruct b.
  - intros ([Hobj [Hl1 Hl2] (b & r & Hb & Hr & Hrr) Hh Hp Hn Hs] & Hfresh & ->).
    rewrite Hobj. cbn [mbind result_bind].
    rewrite (proj2 (requireLabel_Ok _ _ ())) by (unfold node_name in *; by rewrite Hl1).
    cbn [mbind result_bind].
    change (v_str (field v (js "name"))) with (node_name v).
    rewrite (proj2 (jmem_false _ _) Hfresh). cbn [throw_if mbind result_bind].
    rewrite Hb, Hr. cbn [requireBoolean is_boolean negb throw_if mbind result_bind truthy].
    assert (r && negb b = false) as -> by (by destruct r, b; naive_solver).
    cbn [throw_if mbind result_bind].
    rewrite !(proj2 (requireInteger_Ok _ _ 0 ())) by done. cbn [mbind result_bind].
    rewrite (proj2 (requireNullable_Ok _ _ ())) by done. cbn [mbind result_bind].
    rewrite (proj2 (sync_ok _)) by done. cbn [throw_if mbind result_bind].
    unfold tally_step, is_ready, power_of. by rewrite Hr.
Qed.

Definition tally_all (t : tally) (validators : list value) : tally :=
  Tally (seen_names t ++ map node_name validators)
    (fold_left js_add (ready_powers validators) (ready_power t))
    (fold_left js_add (map power_of validators) (total_power t)).

Lemma validateValidators_iff validators : ∀ t t',
  NoDup (seen_names t) →
  fold_res validateValidator t validators = Ok t' ↔
  Forall sane_entry validators ∧ NoDup (seen_names t ++ map node_name validators) ∧
  t' = tally_all t validators.
Proof.
  induction validators as [|v vl IH]; intros t t' Hnd.
  - unfold tally_all. simpl. rewrite app_nil_r. destruct t. split; [|naive_solver].
    intros [= <-]. by split_and!.
  - cbn [fold_res]. rewrite bind_Ok. setoid_rewrite validateValidator_iff.
    assert (tally_all (tally_step t v) vl = tally_all t (v :: vl)) as Htally.
    { unfold tally_all, tally_step, ready_powers. cbn [seen_names ready_power total_power map List.filter].
      rewrite <- app_assoc. by destruct (is_ready v). }
    split.
    + intros (t1 & (Hv & Hfresh & ->) & Hvl). apply IH in Hvl as (Hvl & Hnd' & ->).
      2:{ by apply NoDup_snoc. }
      rewrite Htally. cbn [tally_step seen_names] in Hnd'. rewrite <- app_assoc in Hnd'.
      split_and!; [by constructor|done|done].
    + intros (Hall & Hnd' & ->). apply Forall_cons in Hall as [Hv Hvl]. cbn [map] in Hnd'.
      rewrite (cons_middle (node_name v)), app_assoc in Hnd'.
      exists (tally_step t v). split.
      * split_and!; [done| |done]. apply NoDup_app in Hnd' as (Hs & _ & _).
        apply NoDup_app in Hs as (_ & Hdis & _). intros Hin. apply (Hdis _ Hin). by left.
      * apply IH; [by apply NoDup_app in Hnd' as (? & _ & _)|]. by rewrite Htally.
Qed.

(** ** Reports *)

Definition chain_of (report : value) : value := field report (js "chain").
Definition consensus_of (report : value) : value := field report (js "consensus").
Definition quorum_of (report : value) : value := field (consensus_of report) (js "commitQuorumPower").
Definition total_of (report : value) : value := field (consensus_of report) (js "totalVotingPower").
Definition available_of (report : value) : value :=
  field (consensus_of report) (js "availableVotingPower").

(** A report the exporter publishes. *)
Record valid_report (report profile : value) (names : list jstr) (validators : list value) : Prop := {
  report_schema : strict_eq (field report (js "schemaVersion")) (vi 2) = true;
  report_backend : field report (js "backend") = profile ∧ is_profile profile = true;
  report_state : ∃ s, field report (js "state") = VStr s ∧ s ∈ allowedStates;
  report_validators : field report (js "validators") = VArr validators;
  report_entries : Forall sane_entry validators;
  report_names : map node_name validators ≡ₚ names;
  report_heights : natural (field (chain_of report) (js "highestHeight")) ∧
                   natural (field (chain_of report) (js "evmHeight"));
  report_total : v_safe_integer (total_of report) = true ∧ 1 ≤ v_Z (total_of report) ∧
                 v_Z (total_of report) = Zsum (map power_of validators);
  report_available : v_safe_integer (available_of report) = true ∧
                     v_Z (available_of report) = ready_power_Z validators;
  report_quorum : v_safe_integer (quorum_of report) = true ∧
                  1 ≤ v_Z (quorum_of report) ≤ v_Z (total_of report);
  report_flags : ∃ er ee rr re : bool,
    field (field report (js "evm")) (js "reachable") = VBool er ∧
    field (field report (js "evm")) (js "ready") = VBool ee ∧
    field (field report (js "rest")) (js "reachable") = VBool rr ∧
    field (field report (js "rest")) (js "ready") = VBool re ∧
    let quorate := v_Z (quorum_of report) <=? ready_power_Z validators in
    field (consensus_of report) (js "ready") = VBool quorate ∧
    field report (js "ready") = VBool (quorate && ee && re);
}.

Lemma is_profile_string v : is_profile v = true → ∃ s, v = VStr s.
Proof. unfold is_profile, vs. rewrite orb_true_iff, !strict_eq_str. naive_solver. Qed.

Lemma field_bool_truthy c k b : field c k = VBool b → truthy c = true.
Proof. destruct c; cbn [field truthy]; try done; by destruct (k =s? js "length"). Qed.

Lemma field_num_object c k : k ≠ js "length" → v_safe_integer (field c k) = true → truthy c = true.
Proof.
  intros Hk. apply jeq_neq in Hk. destruct c; cbn [field truthy]; try done; by rewrite Hk.
Qed.

Lemma sane_naturals validators :
  Forall sane_entry validators → Forall (λ v, natural (field v (js "votingPower"))) validators.
Proof. intros H. eapply Forall_impl; [exact H|]. intros v Hv. apply Hv. Qed.

Lemma validateSummary_Ok report u :
  validateSummary report = Ok u ↔
  (∃ b, field report (js "ready") = VBool b) ∧
  natural (field (chain_of report) (js "highestHeight")) ∧
  natural (field (chain_of report) (js "evmHeight")) ∧
  (∃ b, field (consensus_of report) (js "ready") = VBool b) ∧
  natural (available_of report) ∧
  (v_safe_integer (total_of report) = true ∧ 1 ≤ v_Z (total_of report)) ∧
  (v_safe_integer (quorum_of report) = true ∧ 1 ≤ v_Z (quorum_of report)) ∧
  (v_Z (available_of report) ≤ v_Z (total_of report) ∧
   v_Z (quorum_of report) ≤ v_Z (total_of report)) ∧
  (∃ b, field (field report (js "evm")) (js "reachable") = VBool b) ∧
  (∃ b, field (field report (js "evm")) (js "ready") = VBool b) ∧
  (∃ b, field (field report (js "rest")) (js "reachable") = VBool b) ∧
  (∃ b, field (field report (js "rest")) (js "ready") = VBool b).
Proof.
  unfold validateSummary. cbv zeta.
  fold (chain_of report) (consensus_of report).
  fold (available_of report) (total_of report) (quorum_of report).
  rewrite !seq_Ok, !requireBoolean_Ok, !requireInteger_Ok, throw_if_Ok, orb_false_iff.
  unfold natural. split.
  - intros (? & ? & ? & ? & Ha & Ht & Hq & Hle & ? & ? & ? & ?).
    destruct (v_safe_integer_Z _ (proj1 Ha)) as [Hai _], (v_safe_integer_Z _ (proj1 Ht)) as [Hti _],
      (v_safe_integer_Z _ (proj1 Hq)) as [Hqi _].
    rewrite (num_ltb_int _ _ _ _ Hti Hai), (num_ltb_int _ _ _ _ Hti Hqi), !Z.ltb_ge in Hle.
    tauto.
  - intros (? & ? & ? & ? & Ha & Ht & Hq & Hle & ? & ? & ? & ?).
    destruct (v_safe_integer_Z _ (proj1 Ha)) as [Hai _], (v_safe_integer_Z _ (proj1 Ht)) as [Hti _],
      (v_safe_integer_Z _ (proj1 Hq)) as [Hqi _].
    rewrite (num_ltb_int _ _ _ _ Hti Hai), (num_ltb_int _ _ _ _ Hti Hqi), !Z.ltb_ge.
    tauto.
Qed.

Lemma state_ok v :
  is_string v && jmem (v_str v) allowedStates = true ↔ ∃ s, v = VStr s ∧ s ∈ allowedStates.
Proof.
  rewrite andb_true_iff, jmem_spec. destruct v; cbn [is_string v_str]; naive_solver.
Qed.

Lemma eqb_bool a b : Bool.eqb a b = true ↔ a = b.
Proof. apply Bool.eqb_true_iff. Qed.

(** The checks on the tally, once the entries are sane. *)
Lemma tally_reconciles report validators :
  Forall sane_entry validators →
  v_safe_integer (total_of report) = true → v_safe_integer (available_of report) = true →
  (strict_eq (fold_left js_add (map power_of validators) (vi 0)) (total_of report) = true ↔
   v_Z (total_of report) = Zsum (map power_of validators)) ∧
  (strict_eq (fold_left js_add (ready_powers validators) (vi 0)) (available_of report) = true ↔
   v_Z (available_of report) = ready_power_Z validators).
Proof.
  intros Hs Ht Ha. pose proof (sane_naturals _ Hs) as Hn. split.
  - rewrite sum_equals by (done || by apply Forall_map_fn). done.
  - rewrite sum_equals by (done || by apply Forall_map_fn, Forall_list_filter). done.
Qed.

Lemma validateReport_sound report profile names :
  NoDup names → validateReport report profile names = Ok () →
  ∃ validators, valid_report report profile names validators.
Proof.
  intros Hnames. unfold validateReport. cbv zeta.
  intros H. passed H as Hsch. passed H as Hprof. passed H as Hexp. passed H as Hst.
  passed H as Hcomp. passed H as Hsum. take H as t Ht. passed H as Hset. passed H as Hpow.
  passed H as Hquor. apply throw_if_Ok in H as Hagg. clear H.
  apply validateSummary_Ok in Hsum as ((rb & Hrb) & Hh1 & Hh2 & (cb & Hcb) & Ha & Htot & Hq &
    [Hle1 Hle2] & (er & Her) & (ee & Hee) & (rr & Hrr) & (re & Hre)).
  assert (is_array (field report (js "validators")) = true) as Harr.
  { repeat apply orb_false_iff in Hcomp as [Hcomp _]. by apply negb_false_iff. }
  destruct (field report (js "validators")) as [| | | | |validators|] eqn:Ev; try done.
  cbn [v_list] in Ht. apply (validateValidators_iff validators (Tally [] (vi 0) (vi 0))) in Ht
    as (Hsane & Hnd & ->); [|constructor].
  cbn [tally_all seen_names ready_power total_power app] in *.
  apply assertLabelSet_Ok in Hset; [|done|done].
  fold (consensus_of report) in *. fold (total_of report) (available_of report) (quorum_of report) in *.
  destruct (tally_reconciles report validators Hsane (proj1 Htot) (proj1 Ha)) as [Hr1 Hr2].
  apply orb_false_iff in Hpow as [Hp1 Hp2]. apply negb_false_iff, Hr1 in Hp1.
  apply negb_false_iff, Hr2 in Hp2.
  apply orb_false_iff in Hsch as [_ Hsch]. apply negb_false_iff in Hsch, Hprof, Hexp, Hst.
  apply negb_false_iff, Bool.eqb_prop in Hquor, Hagg.
  rewrite Hcb, Hrb, Hee, Hre in *. cbn [truthy] in *.
  subst cb rb.
  rewrite (num_leb_int _ _ _ _ (proj1 (v_safe_integer_Z _ (proj1 Hq)))
             (proj1 (v_safe_integer_Z _ (proj1 Ha)))) in *.
  fold (v_Z (quorum_of report)) (v_Z (available_of report)) in *. rewrite Hp2 in *.
  destruct (is_profile_string _ Hprof) as [s Hs]. rewrite Hs in Hexp.
  exists validators. split; try done; try tauto.
  - rewrite Hs in *. destruct profile; try done. cbn in Hexp. by apply jeq_spec in Hexp as ->.
  - exact (proj1 (state_ok _) Hst).
  - split; [apply Ha|done].
  - exists er, ee, rr, re. cbv zeta. by split_and!.
Qed.

Lemma validateReport_complete report profile names validators :
  NoDup names → valid_report report profile names validators →
  validateReport report profile names = Ok ().
Proof.
  intros Hnames [Hsch [Hb Hprof] Hst Ev Hsane Hn [Hh1 Hh2] (Ht1 & Ht2 & Ht3) [Ha1 Ha2] [Hq1 [Hq2 Hq3]]
    (er & ee & rr & re & Her & Hee & Hrr & Hre & Hc & Hr)].
  unfold validateReport. cbv zeta in *.
  fold (consensus_of report) (chain_of report).
  fold (total_of report) (available_of report) (quorum_of report).
  assert (Hrep : truthy report = true) by (by eapply field_bool_truthy).
  pose proof (Zsum_filter is_ready _ _ (sane_naturals _ Hsane)) as Hle.
  assert (0 ≤ ready_power_Z validators) as Hge.
  { apply Zsum_nonneg, Forall_map_fn, Forall_list_filter, sane_naturals, Hsane. }
  change (Zsum (map (λ v, field v (js "votingPower")) validators))
    with (Zsum (map power_of validators)) in Hle. fold (ready_powers validators) in Hle.
  fold (ready_power_Z validators) in Hle.
  rewrite Hrep, Hsch, Hb, Hprof. cbn [negb orb throw_if mbind result_bind].
  destruct (is_profile_string _ Hprof) as [p ->]. cbn [strict_eq]. rewrite jeq_refl.
  cbn [negb throw_if mbind result_bind].
  rewrite (proj2 (state_ok _) Hst), Ev. cbn [negb throw_if mbind result_bind is_array v_list].
  assert (length validators = length names) as ->.
  { by rewrite <- Hn, length_map. }
  rewrite Nat.eqb_refl, (field_num_object (chain_of report) (js "highestHeight") ltac:(by apply jeq_neq) (proj1 Hh1)),
    (field_num_object (consensus_of report) (js "totalVotingPower") ltac:(by apply jeq_neq) Ht1),
    (field_bool_truthy _ _ _ Her), (field_bool_truthy _ _ _ Hrr).
  cbn [negb orb throw_if mbind result_bind].
  rewrite (proj2 (validateSummary_Ok report ())).
  2:{ split_and!; eauto; try done; try lia; split; try done; lia. }
  cbn [mbind result_bind].
  rewrite (proj2 (validateValidators_iff validators (Tally [] (vi 0) (vi 0))
    (tally_all (Tally [] (vi 0) (vi 0)) validators) (NoDup_nil_2))).
  2:{ split_and!; [done| |done]. cbn. by rewrite Hn. }
  cbn [mbind result_bind tally_all seen_names ready_power total_power app].
  assert (NoDup (map node_name validators)) as Hnv by by rewrite Hn.
  rewrite (proj2 (assertLabelSet_Ok _ _ _ () Hnv Hnames) Hn).
  cbn [mbind result_bind].
  destruct (tally_reconciles report validators Hsane Ht1 Ha1) as [Hr1 Hr2].
  rewrite (proj2 Hr1 Ht3), (proj2 Hr2 Ha2). cbn [negb orb throw_if mbind result_bind].
  rewrite (num_leb_int _ _ _ _ (proj1 (v_safe_integer_Z _ Hq1)) (proj1 (v_safe_integer_Z _ Ha1))).
  rewrite Ha2, Hc, Hee, Hre, Hr. cbn [truthy].
  by rewrite !(proj2 (eqb_bool _ _) eq_refl).
Qed.

(** ** The EVM and REST samples *)

Lemma sampleEvm_shape topology url f :
  let evm := sampleEvm topology url f in
  ∃ (reachable ready : bool) (h : num),
    field evm (js "reachable") = VBool reachable ∧ field evm (js "ready") = VBool ready ∧
    field evm (js "height") = VNum h ∧
    (ready = true →
      reachable = true ∧ num_ltb (NInt 0) h = true ∧ field evm (js "syncing") = VBool false ∧
      strict_eq (field evm (js "observedChainID")) (field topology (js "evm_chain_id")) = true).
Proof.
  unfold sampleEvm. cbv zeta. destruct (_ ≫= _) as [evm|e] eqn:H; [|by exists false, false, (NInt 0)].
  take H as payload Hp. take H as l Hl. take H as c Hc. take H as h Hh.
  take H as sync Hs. take H as p Hpc. take H as ver Hv. inv_result.
  eexists true, _, h. split_and!; [done..|]. intros Hr. unfold evm_ready in Hr. inv_bool.
  split_and!; try done. by apply strict_eq_bool.
Qed.

Lemma sampleRest_shape topology url f :
  let rest := sampleRest topology url f in
  ∃ reachable ready : bool,
    field rest (js "reachable") = VBool reachable ∧ field rest (js "ready") = VBool ready ∧
    (ready = true →
      reachable = true ∧
      strict_eq (field rest (js "observedNetwork")) (field topology (js "cosmos_chain_id")) = true).
Proof.
  unfold sampleRest. cbv zeta. destruct (requestJSON _ _ f) as [payload|e].
  - eexists true, _. split_and!; [done..|]. intros Hr. inv_bool. done.
  - by exists false, false.
Qed.

(** ** A sampled report *)

Record sampled (topology manifest profile : value) (nodes validators : list value)
    (evm rest report : value) : Prop := {
  sampled_nodes : field topology (js "nodes") = VArr nodes;
  sampled_from : Forall2 (λ node v, entry_of node v ∧ (is_ready v = true → ready_entry topology node v))
    nodes validators;
  sampled_evm : ∃ url f, evm = sampleEvm topology url f;
  sampled_rest : ∃ url f, rest = sampleRest topology url f;
  sampled_schema : field report (js "schemaVersion") = vi 2;
  sampled_backend : field report (js "backend") = profile;
  sampled_validators : field report (js "validators") = VArr validators;
  sampled_fields : field report (js "evm") = evm ∧ field report (js "rest") = rest;
  sampled_chain : field (chain_of report) (js "highestHeight") = VNum (highestHeight validators) ∧
                  field (chain_of report) (js "evmHeight") = field evm (js "height");
  sampled_consensus :
    available_of report = availableVotingPower validators ∧
    total_of report = field topology (js "total_voting_power") ∧
    quorum_of report = field topology (js "commit_quorum_power");
  sampled_all : field report (js "allValidatorsReady") = VBool (forallb is_ready validators);
  sampled_ready :
    let quorate := js_ge (availableVotingPower validators) (field topology (js "commit_quorum_power")) in
    field (consensus_of report) (js "ready") = VBool quorate ∧
    field report (js "ready") = VBool (quorate && is_ready evm && is_ready rest);
  sampled_state :
    field report (js "state") = VStr (aggregate_state validators evm rest
      (truthy (field report (js "ready"))) (forallb is_ready validators));
}.

Lemma sampleHealth_Ok radix16 at_ f topology manifest profile report :
  sampleHealth radix16 at_ f topology manifest profile = Ok report →
  ∃ nodes validators evm rest, sampled topology manifest profile nodes validators evm rest report.
Proof.
  unfold sampleHealth. intros H. take H as nv Hnv. take H as nodes Hnodes. take H as validators Hv.
  take H as client Hc. passed H as Hct. take H as ports Hp. take H as evmp Hep.
  cbv zeta in H. take H as hex Hhex. take H as acc Hacc. take H as accs Haccs. take H as fund Hfund.
  apply get_Ok in Hnv as [_ ->]. destruct (field topology (js "nodes")) eqn:En; try done.
  cbn in Hnodes. inv_result. apply sampled_entries in Hv.
  eexists nodes, validators, _, _. split; try done; by eexists _, _.
Qed.

(** ** The sampler's contract *)

(** The observations of a report are natural numbers, or absent. *)
Definition observations_natural (report : value) : Prop :=
  natural (field (chain_of report) (js "evmHeight")) ∧
  Forall (λ v, natural (field v (js "height")) ∧
               (field v (js "peerCount") = VNull ∨ natural (field v (js "peerCount"))))
    (v_list (field report (js "validators"))).

Lemma num_max_natural a b :
  natural (VNum a) → natural (VNum b) → natural (VNum (num_max a b)).
Proof.
  intros Ha Hb. unfold num_max. destruct a, b; try done; by destruct (num_ltb _ _).
Qed.

Lemma highestHeight_natural validators :
  Forall (λ v, natural (field v (js "height"))) validators → natural (VNum (highestHeight validators)).
Proof.
  unfold highestHeight. assert (natural (VNum (NInt 0))) as H0 by done. revert H0.
  generalize (NInt 0) as m. intros m Hm Hv. revert m Hm.
  induction Hv as [|v vl Hv Hvl IH]; intros m Hm; [done|]. cbn [fold_left]. apply IH.
  destruct (natural_int _ Hv) as (n & E & _). apply num_max_natural; [done|].
  by rewrite E in Hv |- *.
Qed.

Lemma aggregate_state_allowed validators evm rest full all :
  aggregate_state validators evm rest full all ∈ allowedStates.
Proof.
  apply jmem_spec. unfold aggregate_state.
  destruct (identityMismatch validators); [done|]. destruct (anySyncing validators evm); [done|].
  destruct full; [by destruct all|]. by destruct (_ && _).
Qed.

Lemma js_ge_int a b x y :
  num_int a = Some x → num_int b = Some y → js_ge (VNum a) (VNum b) = (y <=? x).
Proof. intros Ha Hb. unfold js_ge. simpl. by apply num_leb_int. Qed.

Lemma sampled_entry_of topology nodes validators :
  Forall2 (λ node v, entry_of node v ∧ (is_ready v = true → ready_entry topology node v))
    nodes validators → Forall2 entry_of nodes validators.
Proof. intros H. eapply Forall2_impl; [exact H|]. by intros ? ? [? _]. Qed.

(** Voting power of a sample of a valid topology. *)
Lemma sampled_power topology manifest profile nodes validators evm rest report :
  valid_topology topology profile nodes →
  sampled topology manifest profile nodes validators evm rest report →
  Forall (λ v, natural (power_of v)) validators ∧
  Zsum (map power_of validators) = v_Z (field topology (js "total_voting_power")) ∧
  (∃ n, available_of report = VNum n ∧ num_int n = Some (ready_power_Z validators)) ∧
  0 ≤ ready_power_Z validators ≤ Zsum (map power_of validators) ∧
  js_ge (availableVotingPower validators) (field topology (js "commit_quorum_power"))
  = (v_Z (field topology (js "commit_quorum_power")) <=? ready_power_Z validators).
Proof.
  intros [Hn _ _ Hwf _ Ht1 Ht2 Ht3 Hq1 Hq2] [Hn' Hf _ _ _ _ _ _ _ (Ha & _ & _) _ _ _].
  apply sampled_entry_of in Hf.
  pose proof (entries_natural _ _ Hwf Hf) as Hnat. pose proof (entries_powers _ _ Hf) as Hpow.
  destruct (v_safe_integer_Z _ Ht1) as [_ Htm]. destruct (v_safe_integer_Z _ Hq1) as [Hqi _].
  destruct (available_exact validators Hnat) as (n & En & Hi & Hrange).
  { rewrite Hpow, Ht3. lia. }
  change (map power_of validators) with (map (λ v, field v (js "votingPower")) validators).
  split_and!; try done; try lia.
  - by rewrite Hpow.
  - exists n. by rewrite Ha.
  - rewrite En. destruct (field topology (js "commit_quorum_power")); try done.
    by apply js_ge_int.
Qed.

Lemma sample_is_valid radix16 at_ f topology manifest profile nodes report :
  valid_topology topology profile nodes →
  sampleHealth radix16 at_ f topology manifest profile = Ok report →
  observations_natural report →
  ∃ validators, valid_report report profile (node_names topology) validators.
Proof.
  intros Htop Hs [Hevm Hobs].
  apply sampleHealth_Ok in Hs as (nodes' & validators & evm & rest & Hs).
  assert (nodes' = nodes) as ->.
  { pose proof (topology_nodes _ _ _ Htop) as E1. pose proof (sampled_nodes _ _ _ _ _ _ _ _ Hs) as E2.
    congruence. }
  destruct (sampled_power _ _ _ _ _ _ _ _ Htop Hs) as (Hnat & Hsum & (n & Hav & Hni) & Hrange & Hge).
  destruct Hs as [Hn Hf (eu & ef & ->) (ru & rf & ->) Hsch Hb Hv [He Hr] [Hc1 Hc2] (Ha & Ht & Hq)
    Hall [Hrd1 Hrd2] Hst].
  apply sampled_entry_of in Hf as Hf'. rewrite Hv in Hobs. cbn [v_list] in Hobs.
  destruct Htop as [_ _ Hprof Hwf Hnd Ht1 Ht2 _ Hq1 Hq2].
  destruct (sampleEvm_shape topology eu ef) as (er & ee & h & Her & Hee & _ & _).
  destruct (sampleRest_shape topology ru rf) as (rr & re & Hrr & Hre & _).
  exists validators. split; try done.
  - by rewrite Hsch.
  - eexists. split; [exact Hst|apply aggregate_state_allowed].
  - clear -Hf' Hwf Hobs. induction Hf' as [|node v nl vl Hnv Hl IH]; [constructor|].
    apply Forall_cons in Hwf as [Hw Hwf], Hobs as [[Hh Hp] Hobs].
    constructor; [|by apply IH]. destruct Hnv as [H1 H2 H3 H4 _ H6], Hw as [_ [W1 W2] W3 _].
    split; try done.
    + unfold node_name. by rewrite H2.
    + by rewrite H3.
  - rewrite (entries_names _ _ Hf'). unfold node_names. by rewrite Hn.
  - rewrite Hc1. split; [|done]. apply highestHeight_natural.
    eapply Forall_impl; [exact Hobs|]. by intros v [? _].
  - rewrite Ht. by split_and!.
  - rewrite Hav. unfold v_Z, num_Z. simpl. rewrite Hni. split; [|done].
    apply is_safe_integer_spec. exists (ready_power_Z validators). split; [done|].
    destruct (v_safe_integer_Z _ Ht1) as [_ Htm]. lia.
  - rewrite Hq, Ht. done.
  - exists er, ee, rr, re. rewrite He, Hr. unfold quorum_of in Hq. cbv zeta.
    unfold quorum_of. rewrite Hq. unfold is_ready in Hrd2. rewrite Hee, Hre, Hge in Hrd2.
    rewrite Hge in Hrd1. by split_and!.
Qed.

(** ** Formatting a valid report *)

Definition finite_sample (s : sample) : Prop := v_finite (sample_value s) = true.

Lemma natural_finite v : natural v → v_finite v = true.
Proof.
  intros Hv. destruct (natural_int v Hv) as (n & -> & Hn & _).
  apply num_int_cases in Hn as [->|[-> _]]; done.
Qed.

Lemma per_validator_Ok f validators :
  Forall (λ v, ∃ x, f v = Ok x ∧ v_finite x = true) validators →
  ∃ ss, per_validator f validators = Ok ss ∧ Forall finite_sample ss.
Proof.
  unfold per_validator. induction 1 as [|v vl (x & Hx & Hf) Hvl (ss & Hss & IH)]; [by exists []|].
  cbn [map_res]. rewrite Hx. cbn [mbind result_bind]. rewrite Hss. cbn [mbind result_bind].
  eexists. split; [done|by constructor].
Qed.

Lemma validator_family_Ok name help f validators :
  Forall (λ v, ∃ x, f v = Ok x ∧ v_finite x = true) validators →
  ∃ fam, validator_family name help f validators = Ok fam ∧ Forall finite_sample (samples fam).
Proof.
  intros H. unfold validator_family. destruct (per_validator_Ok f validators H) as (ss & -> & Hss).
  by eexists.
Qed.

Lemma boolean_family_Ok name help v :
  (∃ b, v = VBool b) →
  ∃ fam, boolean_family name help v = Ok fam ∧ Forall finite_sample (samples fam).
Proof. intros [b ->]. eexists. split; [done|]. constructor; [by destruct b|constructor]. Qed.

Lemma filter_Forall {A} (P : A → Prop) (p : A → bool) l :
  Forall P l → Forall (λ x, P x ∧ p x = true) (List.filter p l).
Proof.
  induction 1 as [|x l Hx Hl IH]; simpl; [constructor|].
  destruct (p x) eqn:E; [by constructor|done].
Qed.

(** Take the next family of [report_families]. *)
Ltac next_family H := let f := fresh "f" in let Hf := fresh "Hf" in
  destruct H as (f & -> & Hf); cbn [mbind result_bind].

Lemma state_samples_finite v : Forall finite_sample (state_samples v).
Proof.
  unfold state_samples. apply Forall_map_fn, Forall_forall. intros s _.
  unfold finite_sample. cbn [sample_value]. by destruct (strict_eq _ _).
Qed.

Ltac next_validators H :=
  match goal with
  | |- ∃ _, (validator_family ?n ?h ?g (List.filter ?p _) ≫= _) = _ ∧ _ =>
      let E := fresh "E" in
      destruct (H n h g p) as (? & E & ?); [|rewrite E; clear E; cbn [mbind result_bind]]
  | |- ∃ _, (validator_family ?n ?h ?g _ ≫= _) = _ ∧ _ =>
      let E := fresh "E" in
      destruct (H n h g) as (? & E & ?); [|rewrite E; clear E; cbn [mbind result_bind]]
  end.

Lemma report_families_Ok report profile names validators :
  valid_report report profile names validators →
  ∃ fs, report_families report = Ok fs ∧ Forall (λ f, Forall finite_sample (samples f)) fs.
Proof.
  intros [_ _ _ Ev Hs _ [Hh1 Hh2] [Ht1 _] [Ha1 _] [Hq1 _] (er & ee & rr & re & H1 & H2 & H3 & H4 & H5 & H6)].
  unfold report_families. rewrite Ev. cbv zeta in *. cbn [v_list].
  fold (consensus_of report) (chain_of report).
  assert (∀ v, v_safe_integer v = true → v_finite v = true) as Hsafe.
  { intros v (n & z & -> & Hn & _)%v_safe_integer_spec.
    apply num_int_cases in Hn as [->|[-> _]]; done. }
  next_family (boolean_family_Ok "torium_localnet_ready"
    "Whether the localnet readiness contract passes." _ (ex_intro _ _ H6)).
  next_family (boolean_family_Ok "torium_localnet_consensus_ready"
    "Whether commit quorum is ready." _ (ex_intro _ _ H5)).
  next_family (boolean_family_Ok "torium_localnet_evm_rpc_reachable"
    "Whether the EVM RPC health sample succeeded." _ (ex_intro _ _ H1)).
  next_family (boolean_family_Ok "torium_localnet_evm_rpc_ready"
    "Whether the EVM RPC readiness checks pass." _ (ex_intro _ _ H2)).
  next_family (boolean_family_Ok "torium_localnet_rest_reachable"
    "Whether the Cosmos REST health sample succeeded." _ (ex_intro _ _ H3)).
  next_family (boolean_family_Ok "torium_localnet_rest_ready"
    "Whether the Cosmos REST readiness checks pass." _ (ex_intro _ _ H4)).
  assert (∀ name help f, (∀ v, sane_entry v → ∃ x, f v = Ok x ∧ v_finite x = true) →
    ∃ fam, validator_family name help f validators = Ok fam ∧ Forall finite_sample (samples fam)) as Hall.
  { intros name help g Hg. apply validator_family_Ok. eapply Forall_impl; [exact Hs|]. exact Hg. }
  assert (∀ name help f p, (∀ v, sane_entry v ∧ p v = true → ∃ x, f v = Ok x ∧ v_finite x = true) →
    ∃ fam, validator_family name help f (List.filter p validators) = Ok fam
           ∧ Forall finite_sample (samples fam)) as Hsome.
  { intros name help g p Hg. apply validator_family_Ok.
    eapply Forall_impl; [apply filter_Forall, Hs|]. exact Hg. }
  next_validators Hall.
  { intros v [_ _ (b & r & -> & _) _ _ _ _]. destruct b; by eexists. }
  next_validators Hall.
  { intros v [_ _ (b & r & _ & -> & _) _ _ _ _]. destruct r; by eexists. }
  next_validators Hall.
  { intros v Hv. eexists. split; [done|]. apply natural_finite, Hv. }
  next_validators Hall.
  { intros v Hv. eexists. split; [done|]. apply natural_finite, Hv. }
  next_validators Hsome.
  { intros v [_ Hv]. by eexists. }
  next_validators Hsome.
  { intros v [[_ _ _ _ _ _ [Hn|[b Hb]]] Hv]; [by rewrite Hn in Hv|].
    rewrite Hb. destruct b; by eexists. }
  eexists. split; [done|].
  repeat match goal with
  | |- Forall (λ f, Forall _ _) (_ :: _) => apply Forall_cons_2
  | |- Forall (λ f, Forall _ _) [] => apply Forall_nil_2
  end; try done; cbn [samples].
  - apply state_samples_finite.
  - by constructor; [apply natural_finite|constructor].
  - by constructor; [apply natural_finite|constructor].
  - by repeat constructor; apply Hsafe.
Qed.

Lemma family_lines_Ok common f :
  Forall finite_sample (samples f) → ∃ ls, family_lines common f = Ok ls.
Proof.
  unfold family_lines. intros H.
  assert (∃ ls, map_res (λ s, requireFinite (sample_value s) (family_name f);;
      Ok (family_name f +++ formatLabels (merge_labels common (labels s)) +++ js " "
          +++ to_string (sample_value s))) (samples f) = Ok ls) as [ls ->]; [|by eexists].
  induction H as [|s ss Hs Hss [ls IH]]; [by exists []|]. cbn [map_res].
  assert (requireFinite (sample_value s) (family_name f) = Ok ()) as ->
    by (unfold requireFinite; by rewrite Hs).
  cbn [mbind result_bind].
  rewrite IH. by eexists.
Qed.

Lemma formatPrometheus_Ok report profile names validators :
  NoDup names → valid_report report profile names validators →
  ∃ body, formatPrometheus report (VStr canonicalEnvironment) profile names = Ok body.
Proof.
  intros Hnd Hv. unfold formatPrometheus. rewrite (validateReport_complete _ _ _ _ Hnd Hv).
  destruct (report_families_Ok _ _ _ _ Hv) as (fs & -> & Hfs).
  unfold requireCanonicalEnvironment. cbn [strict_eq]. rewrite jeq_refl.
  cbn [negb throw_if mbind result_bind].
  set (common := [(js "environment", _); _]).
  assert (∃ blocks, map_res (family_lines common) fs = Ok blocks) as [blocks ->]; [|by eexists].
  induction Hfs as [|f fl Hf Hfl [bs IH]]; [by exists []|]. cbn [map_res].
  destruct (family_lines_Ok common f Hf) as [ls ->]. cbn [mbind result_bind].
  rewrite IH. by eexists.
Qed.

Lemma valid_names_distinct topology manifest profile :
  validateExporterInputs topology manifest profile = Ok () → NoDup (node_names topology).
Proof.
  intros H. destruct (validateExporterInputs_Ok _ _ _ H) as (nodes & Ht & _).
  unfold node_names. rewrite (topology_nodes _ _ _ Ht). apply (nodes_distinct _ _ _ Ht).
Qed.
