(* ===== verification/HealthProps.v ===== *)
(** The properties of the health sample and its exporter, with concrete runs. *)

From S2P Require Import Prelude JsNum JsText JsValue JsonText JsPath JsOps Health HealthExporter HealthFacts.

Open Scope Z_scope.

(** ** The interface between the sampler and the exporter *)

(** What the exporter relies on: over inputs it has validated, a sampled report
    whose observations are natural numbers passes its report check. *)
Class ReliableSampler `{HealthSampler} : Prop := {
  sampler_reliable topology manifest profile report :
    validateExporterInputs topology manifest profile = Ok () →
    sampleHealthImpl topology manifest profile = Ok report →
    observations_natural report →
    ∃ validators, valid_report report profile (node_names topology) validators
}.

#[export] Instance localnet_reliable radix16 generatedAt fetchImpl :
  @ReliableSampler (localnet_sampler radix16 generatedAt fetchImpl).
Proof.
  constructor. intros topology manifest profile report Hin Hs Hobs.
  destruct (validateExporterInputs_Ok _ _ _ Hin) as (nodes & Htop & _).
  exact (sample_is_valid _ _ _ _ _ _ _ _ Htop Hs Hobs).
Qed.

(** For any sampler that keeps the contract (the localnet sample does), the
    metrics endpoint answers 200 for every report whose heights and peer counts
    are natural numbers: no such report is lost to the exporter's own checks. *)
Theorem metrics_available `{ReliableSampler} topology manifest profile report :
  validateExporterInputs topology manifest profile = Ok () →
  sampleHealthImpl topology manifest profile = Ok report →
  observations_natural report →
  ∃ body,
    formatPrometheus report (VStr canonicalEnvironment) profile (node_names topology) = Ok body ∧
    metricsResponse topology manifest profile (VStr canonicalEnvironment)
    = HttpResponse 200 (js "text/plain; version=0.0.4; charset=utf-8") body.
Proof.
  intros Hin Hs Hobs. destruct (sampler_reliable _ _ _ _ Hin Hs Hobs) as [validators Hv].
  pose proof (valid_names_distinct _ _ _ Hin) as Hnd.
  destruct (formatPrometheus_Ok _ _ _ _ Hnd Hv) as [body Hb]. exists body. split; [done|].
  unfold metricsResponse. rewrite Hs. cbn [mbind result_bind]. by rewrite Hb.
Qed.

(** Whatever the sampler returns, a published metrics page comes from a
    report that reconciles exactly: the four validators are those of the
    topology, total and available voting power are the exact integer sums over
    all and over ready validators, the quorum flag says whether the ready power
    reaches the quorum, and the ready flag is its conjunction with the EVM and
    REST flags. *)
Theorem published_metrics_reconcile `{HealthSampler} topology manifest profile environment ct body :
  validateExporterInputs topology manifest profile = Ok () →
  metricsResponse topology manifest profile environment = HttpResponse 200 ct body →
  ∃ report validators,
    sampleHealthImpl topology manifest profile = Ok report ∧
    valid_report report profile (node_names topology) validators ∧
    formatPrometheus report environment profile (node_names topology) = Ok body.
Proof.
  intros Hin Hm. unfold metricsResponse in Hm.
  destruct (sampleHealthImpl topology manifest profile) as [report|e] eqn:Hs; [|done].
  cbn [mbind result_bind] in Hm.
  destruct (formatPrometheus report environment profile (node_names topology)) as [b|e] eqn:Hf; [|done].
  assert (b = body) as -> by (by injection Hm).
  pose proof Hf as Hf'. unfold formatPrometheus in Hf'. passed Hf' as Henv. passed Hf' as Hrep.
  destruct (validateReport_sound _ _ _ (valid_names_distinct _ _ _ Hin) Hrep) as [validators Hv].
  by exists report, validators.
Qed.

(** The request handler: health checks answer 200, the metrics endpoint
    answers 200 with the metrics page or exactly the fixed 503 page (no error
    text leaves the process), and every other method or path answers 404. *)
Theorem handler_outcomes `{HealthSampler} pathname topology manifest profile environment method url path :
  pathname (to_string (nullish url (vs "/"))) = Ok path →
  let get := strict_eq (nullish method (vs "GET")) (vs "GET") in
  ∃ response,
    handleRequest pathname topology manifest profile environment method url = Ok response ∧
    (get = true → path = js "/healthz" →
     response = HttpResponse 200 plain_text (js "ok" +++ [10%N])) ∧
    (get = true → path = js "/metrics" →
     (∃ report body, sampleHealthImpl topology manifest profile = Ok report ∧
        formatPrometheus report environment profile (node_names topology) = Ok body ∧
        response = HttpResponse 200 (js "text/plain; version=0.0.4; charset=utf-8") body)
     ∨ response = HttpResponse 503 plain_text (js "health sample unavailable" +++ [10%N])) ∧
    (get = false ∨ path ∉ [js "/healthz"; js "/metrics"] →
     response = HttpResponse 404 plain_text (js "not found" +++ [10%N])).
Proof.
  intros Hp get. unfold handleRequest. rewrite Hp. cbn [mbind result_bind]. fold get.
  destruct get; cbn [andb].
  2:{ eexists. split; [done|]. by split_and!. }
  destruct (path =s? js "/healthz") eqn:E1; [|destruct (path =s? js "/metrics") eqn:E2];
    (eexists; split; [done|]); inv_bool.
  - subst. split_and!; [done|done|]. intros [?|H']; [done|]. destruct H'. by left.
  - subst. split_and!; [done| |].
    + intros _ _. unfold metricsResponse.
      destruct (sampleHealthImpl topology manifest profile) as [r|e]; [|by right].
      cbn [mbind result_bind].
      destruct (formatPrometheus r environment profile _) as [b|e] eqn:Hb; [|by right].
      left. by exists r, b.
    + intros [?|H']; [done|]. destruct H'. right. by left.
  - by split_and!.
Qed.

(** ** What a ready report means *)

(** A sample of a validated topology reports ready only when validators
    holding at least the commit quorum, counted exactly, are at a positive
    height, not catching up, and answered with the node ID and chain ID of the
    topology, the EVM endpoint reports the configured chain ID, a positive
    height and no syncing, and the REST endpoint reports the configured chain. *)
Theorem ready_sample_means radix16 at_ f topology manifest profile report :
  validateExporterInputs topology manifest profile = Ok () →
  sampleHealth radix16 at_ f topology manifest profile = Ok report →
  field report (js "ready") = VBool true →
  ∃ nodes validators,
    field topology (js "nodes") = VArr nodes ∧ field report (js "validators") = VArr validators ∧
    Forall2 (λ node v, power_of v = field node (js "voting_power") ∧
                       (is_ready v = true → ready_entry topology node v)) nodes validators ∧
    v_Z (field topology (js "commit_quorum_power")) ≤ ready_power_Z validators ∧
    (∃ h, field (chain_of report) (js "evmHeight") = VNum h ∧ num_ltb (NInt 0) h = true) ∧
    strict_eq (field (field report (js "evm")) (js "observedChainID"))
      (field topology (js "evm_chain_id")) = true ∧
    field (field report (js "evm")) (js "syncing") = VBool false ∧
    strict_eq (field (field report (js "rest")) (js "observedNetwork"))
      (field topology (js "cosmos_chain_id")) = true.
Proof.
  intros Hin Hs Hr. destruct (validateExporterInputs_Ok _ _ _ Hin) as (nodes & Htop & _).
  apply sampleHealth_Ok in Hs as (nodes' & validators & evm & rest & Hs).
  assert (nodes' = nodes) as ->.
  { pose proof (topology_nodes _ _ _ Htop) as E1. pose proof (sampled_nodes _ _ _ _ _ _ _ _ Hs) as E2.
    congruence. }
  destruct (sampled_power _ _ _ _ _ _ _ _ Htop Hs) as (_ & _ & _ & _ & Hge).
  destruct Hs as [Hn Hf (eu & ef & ->) (ru & rf & ->) _ _ Hv [He Hre] [_ Hc2] _ _ [_ Hrd] _].
  rewrite Hge in Hrd. rewrite Hrd in Hr.
  assert ((v_Z (field topology (js "commit_quorum_power")) <=? ready_power_Z validators)
    && is_ready (sampleEvm topology eu ef) && is_ready (sampleRest topology ru rf) = true) as Hall
    by congruence.
  destruct (sampleEvm_shape topology eu ef) as (er & ee & h & _ & Hee & Hh & Hevm).
  destruct (sampleRest_shape topology ru rf) as (rr & re & _ & Hree & Hrest).
  unfold is_ready in Hall. rewrite Hee, Hree in Hall. cbn [truthy] in Hall. inv_bool.
  destruct (Hevm ltac:(done)) as (_ & Hx1 & Hx2 & Hx3). destruct (Hrest ltac:(done)) as (_ & Hx4).
  exists nodes, validators. rewrite He, Hre, Hc2. split_and!; try done.
  - eapply Forall2_impl; [exact Hf|]. intros node v [Hent Hrdy]. split; [apply Hent|done].
  - by exists h.
Qed.

(** The lifecycle state is one of five, and each says what it means: an
    identity or network mismatch is always unhealthy, otherwise any syncing
    component is reported as syncing, and "ready" and "degraded" are exactly
    the ready samples with all, respectively not all, validators ready. *)
Theorem state_meaning validators evm rest full all :
  let state := aggregate_state validators evm rest full all in
  state ∈ allowedStates ∧
  (identityMismatch validators = true → state = js "unhealthy") ∧
  (state = js "syncing" ↔ identityMismatch validators = false ∧ anySyncing validators evm = true) ∧
  (state = js "ready" ↔ identityMismatch validators = false ∧ anySyncing validators evm = false ∧
     full = true ∧ all = true) ∧
  (state = js "degraded" ↔ identityMismatch validators = false ∧ anySyncing validators evm = false ∧
     full = true ∧ all = false) ∧
  (state = js "booting" → num_eqb (highestHeight validators) (NInt 0) = true ∧ full = false).
Proof.
  intros state. split; [apply aggregate_state_allowed|]. unfold state, aggregate_state.
  destruct (identityMismatch validators); [split_and!; naive_solver|].
  destruct (anySyncing validators evm); [split_and!; naive_solver|].
  destruct full; [destruct all; split_and!; naive_solver|].
  destruct (num_eqb (highestHeight validators) (NInt 0)); cbn [andb];
    [destruct (_ || _)|]; split_and!; naive_solver.
Qed.

(** ** One-hot state *)

Definition hot (s : sample) : bool := strict_eq (sample_value s) (vi 1).

(** The state family is one-hot: for a valid state exactly one of its five
    samples has the value 1, it is the one labelled with that state, and the
    others have the value 0. *)
Theorem state_one_hot s :
  s ∈ allowedStates →
  List.filter hot (state_samples (VStr s)) = [Sample [(js "state", VStr s)] (vi 1)] ∧
  length (List.filter (λ x, negb (hot x)) (state_samples (VStr s))) = 4%nat ∧
  Forall (λ x, sample_value x = vi 0) (List.filter (λ x, negb (hot x)) (state_samples (VStr s))).
Proof.
  intros Hs. repeat (apply elem_of_cons in Hs as [->|Hs];
    [split_and!; [reflexivity|reflexivity|repeat constructor]|]).
  by apply elem_of_nil in Hs.
Qed.

(** ** Label escaping *)

(** Reading a quoted label value, as a scraper does. *)
Fixpoint read_label (s : jstr) : option (jstr * jstr) :=
  match s with
  | [] => None
  | 34%N :: r => Some ([], r)
  | 92%N :: 92%N :: r => '(t, q) ← read_label r; Some (92%N :: t, q)
  | 92%N :: 110%N :: r => '(t, q) ← read_label r; Some (10%N :: t, q)
  | 92%N :: 34%N :: r => '(t, q) ← read_label r; Some (34%N :: t, q)
  | c :: r => if (c =? 92)%N || (c =? 10)%N then None else '(t, q) ← read_label r; Some (c :: t, q)
  end.

Definition escape_char (c : N) : jstr :=
  if (c =? 92)%N then [92; 92]%N else if (c =? 10)%N then [92; 110]%N
  else if (c =? 34)%N then [92; 34]%N else [c].

Lemma replace_char_app c r a b : replace_char c r (a ++ b) = replace_char c r a ++ replace_char c r b.
Proof. unfold replace_char. apply bind_app. Qed.

Lemma escapeLabel_cons c s : escapeLabel (VStr (c :: s)) = escape_char c ++ escapeLabel (VStr s).
Proof.
  unfold escapeLabel, escape_char. cbn [to_string].
  change (c :: s) with ([c] ++ s). rewrite !replace_char_app. f_equal.
  unfold replace_char at 3. cbn. destruct (N.eqb_spec c 92) as [->|H1]; [reflexivity|].
  cbn. destruct (N.eqb_spec c 10) as [->|H2]; [reflexivity|]. cbn.
  by destruct (N.eqb_spec c 34) as [->|H3].
Qed.

Lemma read_label_plain c r :
  c ≠ 34%N → c ≠ 92%N → c ≠ 10%N → read_label (c :: r) = '(t, q) ← read_label r; Some (c :: t, q).
Proof.
  intros H1 H2 H3. cbn [read_label].
  replace ((c =? 92)%N || (c =? 10)%N) with false.
  2:{ symmetry. by rewrite orb_false_iff, !N.eqb_neq. }
  destruct c as [|p]; [done|]. do 7 try (destruct p as [p|p|]; try reflexivity); congruence.
Qed.

(** Label values are escaped losslessly: a scraper that reads the quoted
    text up to its closing quote recovers the value exactly, whatever
    backslashes, quotes or line feeds it contains. *)
Theorem label_escape_roundtrip s rest :
  read_label (escapeLabel (VStr s) ++ 34%N :: rest) = Some (s, rest).
Proof.
  induction s as [|c s IH]; [done|].
  rewrite escapeLabel_cons, <- app_assoc. unfold escape_char.
  revert IH. generalize (escapeLabel (VStr s) ++ 34%N :: rest). intros t IH.
  destruct (N.eqb_spec c 92) as [->|H1]; [cbn; by rewrite IH|].
  destruct (N.eqb_spec c 10) as [->|H2]; [cbn; by rewrite IH|].
  destruct (N.eqb_spec c 34) as [->|H3]; [cbn; by rewrite IH|].
  cbn [app]. by rewrite read_label_plain, IH.
Qed.

(** ** Waiting *)

Section wait.
Context (radix16 : num → jstr) (net : nat → fetcher) (time : nat → jstr) (clock : nat → Z)
  (startedAt : Z) (topology manifest profile : value).

#[local] Abbreviation sample_at := (Health.sample_at radix16 net time topology manifest profile).
#[local] Abbreviation wait_loop := (Health.wait_loop radix16 net time clock startedAt topology manifest profile).
#[local] Abbreviation waitForReadiness :=
  (Health.waitForReadiness radix16 net time clock startedAt topology manifest profile).

Lemma num_ltb_irrefl n : num_ltb n n = false.
Proof.
  destruct n as [|[]| |q]; try done. simpl. unfold QArith_base.Qcompare. by rewrite Z.compare_refl.
Qed.

Lemma wait_loop_ready timeout all node initial fuel : ∀ k report r,
  wait_loop fuel k timeout all node initial report = Some (Ok (Ready r)) →
  ∃ j final, (k ≤ j)%nat ∧ (j = k ∧ final = report ∨ (k < j)%nat ∧ sample_at j = Ok final) ∧
    clock j - startedAt < timeout * 1000 ∧
    requirementsSatisfied final all node = true ∧
    num_ltb initial (report_height final) = true ∧ r = with_progress final true initial.
Proof.
  induction fuel as [|fuel IH]; intros k report r; [done|]. cbn [Health.wait_loop].
  destruct (Z.ltb_spec (clock k - startedAt) (timeout * 1000)); [|done].
  destruct (requirementsSatisfied report all node && num_ltb initial (report_height report)) eqn:E.
  - intros [= <-]. inv_bool. exists k, report. split_and!; auto.
  - destruct (sample_at (S k)) as [report'|e] eqn:Es; [|done]. intros Hw.
    destruct (IH _ _ _ Hw) as (j & final & Hj & Hsrc & Hrest). exists j, final.
    split; [lia|]. split; [|done]. right. split; [lia|].
    destruct Hsrc as [[-> ->]|[_ Hs]]; done.
Qed.

Lemma wait_loop_ends timeout all node initial fuel : ∀ k report,
  (∃ j, (j < fuel)%nat ∧ timeout * 1000 ≤ clock (k + j)%nat - startedAt) →
  ∃ out, wait_loop fuel k timeout all node initial report = Some out.
Proof.
  induction fuel as [|fuel IH]; intros k report (j & Hj & Hclock); [lia|]. cbn [Health.wait_loop].
  destruct (Z.ltb_spec (clock k - startedAt) (timeout * 1000)) as [Hlt|]; [|by eexists].
  destruct (_ && _); [by eexists|]. destruct (sample_at (S k)); [|by eexists].
  apply IH. destruct j as [|j]; [rewrite Nat.add_0_r in Hclock; lia|].
  exists j. split; [lia|]. by replace (S k + j)%nat with (k + S j)%nat by lia.
Qed.

(** The wait returns a ready report only after block progress: a later
    sample, taken before the deadline, satisfies the requirements and is above
    the height of the first sample; the report records that height. *)
Theorem wait_requires_progress fuel timeout all node r :
  waitForReadiness fuel timeout all node = Some (Ok (Ready r)) →
  ∃ initial j final,
    sample_at 0 = Ok initial ∧ (0 < j)%nat ∧ sample_at j = Ok final ∧
    clock j - startedAt < timeout * 1000 ∧
    requirementsSatisfied final all node = true ∧
    num_ltb (report_height initial) (report_height final) = true ∧
    r = with_progress final true (report_height initial).
Proof.
  unfold Health.waitForReadiness. destruct (sample_at 0) as [initial|e]; [|done]. intros Hw.
  destruct (wait_loop_ready _ _ _ _ _ _ _ _ Hw) as (j & final & _ & Hsrc & Ht & Hreq & Hh & ->).
  exists initial, j, final. destruct Hsrc as [[-> ->]|[Hj Hs]].
  - by rewrite num_ltb_irrefl in Hh.
  - by split_and!.
Qed.

(** C34. The wait terminates: once some reading of the clock, within the number
    of iterations granted, is past the deadline, the loop has returned a ready
    report, a timeout with its last report, or the error of a sample. *)
Theorem wait_terminates fuel timeout all node :
  (∃ j, (j < fuel)%nat ∧ timeout * 1000 ≤ clock j - startedAt) →
  ∃ out, waitForReadiness fuel timeout all node = Some out.
Proof.
  intros Hclock. unfold Health.waitForReadiness.
  destruct (sample_at 0) as [initial|e]; [|by eexists]. by apply wait_loop_ends.
Qed.
End wait.

(** ** Command line of the exporter *)

(** An accepted exporter command line can only serve loopback: the host is
    127.0.0.1 or ::1, the port is an integer from 1 to 65535, the profile is
    container or raw, the environment is localnet, and both paths are non-empty
    strings of at most 512 characters. *)
Theorem exporter_config_safe argv c :
  parseExporterArgs argv = Ok c →
  config_host c ∈ [vs "127.0.0.1"; vs "::1"] ∧
  v_safe_integer (config_port c) = true ∧ 1 ≤ v_Z (config_port c) ≤ 65535 ∧
  config_profile c ∈ [vs "container"; vs "raw"] ∧
  config_environment c = VStr canonicalEnvironment ∧
  (∃ root manifest, config_root c = VStr root ∧ config_manifestPath c = VStr manifest ∧
     1 ≤ jlen root ≤ 512 ∧ 1 ≤ jlen manifest ≤ 512).
Proof.
  unfold parseExporterArgs. intros H. take H as c' Hc. passed H as Hv. inv_result.
  unfold validateConfig in Hv. passed Hv as Hr. passed Hv as Hm. passed Hv as Hp.
  passed Hv as He. passed Hv as Hl. apply requirePort_Ok in Hv as [Hs Hz].
  assert (∀ v l, requireText v l = Ok () → ∃ s, v = VStr s ∧ 1 ≤ jlen s ≤ 512) as Htext.
  { intros v l Ht. apply throw_if_Ok in Ht. inv_bool. destruct v; try done. by eexists. }
  destruct (Htext _ _ Hr) as (root & -> & Hroot), (Htext _ _ Hm) as (manifest & -> & Hman).
  split_and!; try done; try lia.
  - apply throw_if_Ok in Hl. inv_bool. apply jmem_spec in H0. destruct (config_host c); try done.
    cbn [v_str] in *. unfold vs. set_solver.
  - apply negb_false_iff, orb_true_iff in Hp. unfold vs in *. rewrite !strict_eq_str in Hp. set_solver.
  - apply throw_if_Ok, negb_false_iff, strict_eq_str in He. done.
  - exists root, manifest. split_and!; (done || lia).
Qed.

(** ** A concrete network *)

Definition sample_node (name : string) (power port : Z) (client : bool) : value :=
  VObj (["name" :=: vs name; "node_id" :=: VStr (js "id-" +++ js name);
         "voting_power" :=: vi power;
         "ports" :=: VObj ["comet_rpc" :=: vi port; "cosmos_rest" :=: vi 1317;
                           "cosmos_grpc" :=: vi 9090; "evm_http" :=: vi 8545; "evm_ws" :=: vi 8546]]
        ++ if client then ["client_traffic" :=: VBool true] else []).

Definition sample_topology : value :=
  VObj ["nodes" :=: VArr [sample_node "validator-0" 10 26657 true; sample_node "validator-1" 10 26757 false;
                          sample_node "validator-2" 10 26857 false; sample_node "validator-3" 10 26957 false];
        "cosmos_chain_id" :=: VStr canonicalCosmosChainID;
        "evm_chain_id" :=: vi canonicalEvmChainID;
        "total_voting_power" :=: vi 40; "commit_quorum_power" :=: vi 27;
        "client_node" :=: vs "validator-0"; "warning" :=: vs "local only"; "genesis_sha256" :=: vs "00"].

Definition sample_manifest : value := VObj ["development_accounts" :=: VArr []].

Definition status_of (node_id height : jstr) : value :=
  VObj ["result" :=: VObj
    ["node_info" :=: VObj ["id" :=: VStr node_id; "network" :=: VStr canonicalCosmosChainID;
                           "version" :=: vs "0.38"];
     "sync_info" :=: VObj ["latest_block_height" :=: VStr height; "catching_up" :=: VBool false]]].

Definition batch_item (id : string) (v : value) : value := VObj ["id" :=: vs id; "result" :=: v].

(** Three validators answer at the given height, the fourth is down. *)
Definition sample_fetch (height : jstr) : fetcher := λ url options,
  if ends_with (js "/net_info") url then
    Ok (Response true 200 (Ok (VObj ["result" :=: VObj ["n_peers" :=: vs "3"]])))
  else if url =s? js "http://127.0.0.1:26657/status" then
    Ok (Response true 200 (Ok (status_of (js "id-validator-0") height)))
  else if url =s? js "http://127.0.0.1:26757/status" then
    Ok (Response true 200 (Ok (status_of (js "id-validator-1") height)))
  else if url =s? js "http://127.0.0.1:26857/status" then
    Ok (Response true 200 (Ok (status_of (js "id-validator-2") height)))
  else if url =s? js "http://127.0.0.1:8545" then
    Ok (Response true 200 (Ok (VArr
      [batch_item "chain-id" (vs "0x544f524c"); batch_item "height" (vs "0x10");
       batch_item "sync" (VBool false); batch_item "peers" (vs "0x3");
       batch_item "version" (vs "evmd")])))
  else if ends_with (js "/node_info") url then
    Ok (Response true 200 (Ok (VObj
      ["default_node_info" :=: VObj ["network" :=: VStr canonicalCosmosChainID];
       "application_version" :=: VObj ["name" :=: vs "torium"; "version" :=: vs "0.1.0"]])))
  else type_error (js "fetch failed").

Abbreviation sample_run h :=
  (sampleHealth num_to_string (js "now") (sample_fetch h) sample_topology sample_manifest (vs "raw")).

Definition value_of (r : result value) : value := match r with Ok v => v | Throw _ => VUndef end.
Definition sample_report : value := value_of (sample_run (js "16")).

Lemma sample_inputs_valid :
  validateExporterInputs sample_topology sample_manifest (vs "raw") = Ok ().
Proof. vm_compute. reflexivity. Qed.

Lemma sample_runs : sample_run (js "16") = Ok sample_report.
Proof. vm_compute. reflexivity. Qed.

Lemma sample_is_ready : field sample_report (js "ready") = VBool true.
Proof. vm_compute. reflexivity. Qed.

Definition natural_b (v : value) : bool := v_safe_integer v && (0 <=? v_Z v).

Lemma natural_b_true v : natural_b v = true → natural v.
Proof. unfold natural_b, natural. intros H. inv_bool. done. Qed.

Lemma sample_observations : observations_natural sample_report.
Proof.
  split; [apply natural_b_true; vm_compute; reflexivity|].
  assert (forallb (λ v, natural_b (field v (js "height"))
    && (is_null (field v (js "peerCount")) || natural_b (field v (js "peerCount"))))
    (v_list (field sample_report (js "validators"))) = true) as Hall by (vm_compute; reflexivity).
  rewrite forallb_forall in Hall. apply Forall_forall. intros v Hv.
  apply list_elem_of_In, Hall, andb_true_iff in Hv as [Hh Hp].
  split; [by apply natural_b_true|]. apply orb_true_iff in Hp as [Hp|Hp].
  - left. by destruct (field v (js "peerCount")).
  - right. by apply natural_b_true.
Qed.

Definition sample_sampler : HealthSampler :=
  localnet_sampler num_to_string (js "now") (sample_fetch (js "16")).

Lemma metrics_available_witness :
  ∃ body, @metricsResponse sample_sampler sample_topology sample_manifest (vs "raw")
    (VStr canonicalEnvironment)
  = HttpResponse 200 (js "text/plain; version=0.0.4; charset=utf-8") body.
Proof.
  destruct (@metrics_available sample_sampler
    (localnet_reliable num_to_string (js "now") (sample_fetch (js "16")))
    sample_topology sample_manifest (vs "raw") sample_report
    sample_inputs_valid sample_runs sample_observations) as (body & _ & H).
  exists body. exact H.
Defined.

Definition sample_body : jstr := body (@metricsResponse sample_sampler sample_topology sample_manifest
  (vs "raw") (VStr canonicalEnvironment)).

Lemma sample_published :
  @metricsResponse sample_sampler sample_topology sample_manifest (vs "raw")
    (VStr canonicalEnvironment)
  = HttpResponse 200 (js "text/plain; version=0.0.4; charset=utf-8") sample_body.
Proof. vm_compute. reflexivity. Qed.

Lemma published_metrics_reconcile_witness :
  ∃ report validators,
    valid_report report (vs "raw") (node_names sample_topology) validators.
Proof.
  destruct (@published_metrics_reconcile sample_sampler sample_topology sample_manifest (vs "raw")
    (VStr canonicalEnvironment) _ sample_body sample_inputs_valid sample_published)
    as (report & validators & _ & H & _).
  exists report, validators. exact H.
Defined.

Lemma handler_outcomes_witness :
  ∃ response,
    @handleRequest Ok sample_sampler sample_topology sample_manifest (vs "raw")
      (VStr canonicalEnvironment) (vs "POST") (vs "/metrics") = Ok response ∧
    response = HttpResponse 404 plain_text (js "not found" +++ [10%N]).
Proof.
  destruct (@handler_outcomes sample_sampler Ok sample_topology sample_manifest (vs "raw")
    (VStr canonicalEnvironment) (vs "POST") (vs "/metrics") (js "/metrics") eq_refl)
    as (response & H1 & _ & _ & H2).
  exists response. split; [exact H1|apply H2; left; reflexivity].
Defined.

Lemma ready_sample_means_witness :
  ∃ validators, field sample_report (js "validators") = VArr validators ∧
    27 ≤ ready_power_Z validators.
Proof.
  destruct (ready_sample_means num_to_string (js "now") (sample_fetch (js "16")) sample_topology
    sample_manifest (vs "raw") sample_report sample_inputs_valid sample_runs sample_is_ready)
    as (nodes & validators & _ & H1 & _ & H2 & _).
  exists validators. split; [exact H1|exact H2].
Defined.

Lemma state_one_hot_witness :
  List.filter hot (state_samples (vs "degraded")) = [Sample [(js "state", vs "degraded")] (vi 1)].
Proof.
  apply (state_one_hot (js "degraded")). apply jmem_spec. vm_compute. reflexivity.
Defined.

(** A network that commits one block per sample, and a clock with a reading
    every second. *)
Abbreviation sample_wait := (waitForReadiness num_to_string
  (λ k, sample_fetch (dec_of_Z (16 + Z.of_nat k))) (λ _, js "now") (λ k, 1000 * Z.of_nat k) 0
  sample_topology sample_manifest (vs "raw")).

Definition sample_final : value :=
  match sample_wait 5 30 false VNull with Some (Ok (Ready r)) => r | _ => VUndef end.

Lemma sample_waits : sample_wait 5 30 false VNull = Some (Ok (Ready sample_final)).
Proof. vm_compute. reflexivity. Qed.

Lemma wait_requires_progress_witness :
  ∃ j final, (0 < j)%nat ∧ requirementsSatisfied final false VNull = true.
Proof.
  destruct (wait_requires_progress _ _ _ _ _ _ _ _ _ _ _ _ _ sample_waits)
    as (initial & j & final & _ & Hj & _ & _ & H & _).
  exists j, final. split; [exact Hj|exact H].
Defined.

Lemma wait_terminates_witness : ∃ out, sample_wait 31 30 true VNull = Some out.
Proof.
  apply wait_terminates. exists 30%nat. split; [repeat constructor|]. vm_compute. discriminate.
Defined.

Definition sample_argv : list jstr :=
  [js "--root"; js "/srv/net"; js "--manifest"; js "/srv/m.json"; js "--profile"; js "raw";
   js "--port"; js "9470"].

Lemma exporter_config_safe_witness :
  ∃ c, parseExporterArgs sample_argv = Ok c ∧ 1 ≤ v_Z (config_port c) ≤ 65535.
Proof.
  exists (ExporterConfig (vs "/srv/net") (vs "/srv/m.json") (vs "raw") (VStr canonicalEnvironment)
    (VStr defaultHost) (vi 9470)).
  assert (parseExporterArgs sample_argv = Ok (ExporterConfig (vs "/srv/net") (vs "/srv/m.json")
    (vs "raw") (VStr canonicalEnvironment) (VStr defaultHost) (vi 9470))) as H
    by (vm_compute; reflexivity).
  split; [exact H|]. apply (exporter_config_safe sample_argv _ H).
Defined.
