(* ===== verification/Deploy.v ===== *)
(** contracts/script/deploy-testnet.mjs: the deployment of the pinned contracts
    to a configured chain.  The process talks to an endpoint over an abstract
    chain and leaves a log of what it sent, wrote and printed. *)

From S2P Require Import Prelude JsNum JsText JsUtf8 JsValue JsOps JsonText JsPath.

Open Scope Z_scope.

(** ** What the script works with *)

(** [v.a.b.c]: every step but the last must not be undefined or null. *)
Fixpoint walk (v : value) (ks : list string) : result value :=
  match ks with
  | [] => Ok v
  | k :: ks' => w ← get v (js k); walk w ks'
  end.

Record options := Options { configPath : jstr; outputPath : option jstr; broadcast : bool }.

(** A call of the factory, as [simulateContract] is asked and as it prepares it. *)
Record contract_call := ContractCall {
  call_account : jstr; call_address : jstr; call_abi : value; functionName : jstr;
  call_salt : jstr; call_initCode : jstr; call_runtimeHash : value;
}.

Inductive transaction :=
| CreateContract (from : jstr) (data : value)
| CallContract (call : contract_call).

Record receipt := Receipt {
  receipt_status : value; receipt_contract : value; receipt_hash : value; receipt_block : Z;
}.

Inductive event :=
| Sent (t : transaction)
| Wrote (path text : jstr)
| Printed (text : jstr).

(** What the process leaves behind: the chain, and what it did, oldest first. *)
Record run (W : Type) := Run { chain : W; log : list event }.
Arguments Run {W} _ _.
Arguments chain {W} _.
Arguments log {W} _.

(** The public client and the wallet client. *)
Record endpoint (W : Type) := Endpoint {
  ask_chain_id : W → result value * W;
  ask_code : jstr → W → result value * W;
  ask_nonce : jstr → W → result value * W;
  simulate : contract_call → W → result contract_call * W;
  broadcast_tx : transaction → W → result jstr * W;
  await_receipt : jstr → W → result receipt * W;
}.
Arguments ask_chain_id {W} _ _.
Arguments ask_code {W} _ _ _.
Arguments ask_nonce {W} _ _ _.
Arguments simulate {W} _ _ _.
Arguments broadcast_tx {W} _ _ _.
Arguments await_receipt {W} _ _ _.

(** An argument of a constructor, by the type of its input. *)
Inductive argument := AddressArgument (a : jstr) | UintArgument (z : Z).

(** viem and node:crypto. *)
Record library := Library {
  keccak256 : value → result jstr;
  sha256 : list Z → jstr;
  stringToHex : value → result jstr;
  concatHex : list value → result jstr;
  encodeAbiParameters : list value → list argument → result jstr;
  getAddress : value → result jstr;
  getContractAddress : jstr → Z → jstr;
  getCreate2Address : jstr → jstr → jstr → jstr;
  privateKeyToAccount : jstr → result jstr;
}.

(** What ends up in the record for one contract. *)
Record deployment := Deployment {
  status : jstr;
  address : jstr;
  runtimeCodeKeccak256 : value;
  creationCodeKeccak256 : value;
  transactionHash : value;
  blockNumber : value;
  base : list (jstr * value);
}.

Record deploy_record := DeployRecord {
  environment : value;
  record_chain : value;
  deployer : jstr;
  record_broadcast : bool;
  factory : deployment;
  attestation_registry : deployment;
  reward_distributor : deployment;
}.

Definition factory_id : jstr := js "torium-create2-factory".
Definition attestation_id : jstr := js "attestation-registry".
Definition distributor_id : jstr := js "reward-distributor".
Definition contract_ids : list jstr := [factory_id; attestation_id; distributor_id].

(** ** Command line *)

Fixpoint parse_from (c : option jstr) (o : option jstr) (b : bool) (argumentList : list jstr)
    : result (option jstr * option jstr * bool) :=
  match argumentList with
  | [] => Ok (c, o, b)
  | argument :: rest =>
      if argument =s? js "--config" then
        match rest with [] => Ok (None, o, b) | v :: rest' => parse_from (Some v) o b rest' end
      else if argument =s? js "--output" then
        match rest with [] => Ok (c, None, b) | v :: rest' => parse_from c (Some v) b rest' end
      else if argument =s? js "--broadcast" then parse_from c o true rest
      else error (js "unsupported option " +++ argument)
  end.

(** A path that is absent or empty is falsy. *)
Definition given (o : option jstr) : option jstr :=
  match o with Some [] | None => None | Some p => Some p end.

Definition parseArguments (argumentList : list jstr) : result options :=
  '(c, o, b) ← parse_from None None false argumentList;
  match given c with
  | None => error (js "--config <path> is required")
  | Some path => Ok (Options path (given o) b)
  end.

(** ** Deployments as values *)

Definition finished_fields (d : deployment) : list (jstr * value) := [
  "status" :=: VStr (status d);
  "address" :=: VStr (address d);
  "runtimeCodeKeccak256" :=: runtimeCodeKeccak256 d;
  "creationCodeKeccak256" :=: creationCodeKeccak256 d;
  "transactionHash" :=: transactionHash d;
  "blockNumber" :=: blockNumber d]%js.

Definition deployment_value (d : deployment) : value := VObj (finished_fields d ++ base d).

Definition record_value (r : deploy_record) : value := VObj [
  "environment" :=: environment r;
  "chain" :=: record_chain r;
  "deployerAddress" :=: VStr (deployer r);
  "broadcast" :=: VBool (record_broadcast r);
  "contracts" :=: VObj [
    (factory_id, deployment_value (factory r));
    (attestation_id, deployment_value (attestation_registry r));
    (distributor_id, deployment_value (reward_distributor r))]]%js.

Definition finished (a : jstr) (entry : value) (r : option receipt) (status : jstr) : result deployment :=
  runtime ← walk entry ["code"; "runtimeCodeKeccak256"]%string;
  creation ← walk entry ["code"; "creationCodeKeccak256"]%string;
  Ok (Deployment status a runtime creation
    (match r with Some r => receipt_hash r | None => VNull end)
    (match r with Some r => VNum (num_of_bigint (receipt_block r)) | None => VNull end) []).

Definition planned (a : jstr) (entry : value) (status : jstr) : result deployment :=
  finished a entry None status.

Definition with_base (d : deployment) (b : list (jstr * value)) : deployment :=
  Deployment (status d) (address d) (runtimeCodeKeccak256 d) (creationCodeKeccak256 d)
    (transactionHash d) (blockNumber d) b.

(** [existing && existing !== "0x"]. *)
Definition has_code (v : value) : bool := truthy v && negb (strict_eq v (VStr (js "0x"))).

(** [/^0x[0-9a-fA-F]{64}$/u] and [/^[0-9a-f]{64}$/u]. *)
Definition is_key_text (s : jstr) : bool :=
  match s with
  | 48%N :: 120%N :: ds => Nat.eqb (length ds) 64 && forallb is_hex ds
  | _ => false
  end.
Definition is_sha256_text (v : value) : bool :=
  match v with VStr s => Nat.eqb (length s) 64 && forallb is_lower_hex s | _ => false end.

Section deploy.
Context (lib : library) (W : Type) (net : endpoint W).
(** File contents by path, whether a file can be written, and the environment. *)
Context (readFile : jstr → result (list Z)) (writeFile : jstr → jstr → result ()) (env : jstr → option jstr) (repositoryRoot : jstr).

(** ** Steps of the process *)

Definition act (A : Type) : Type := run W → result A * run W.

#[export] Instance act_ret : MRet act := λ A a r, (Ok a, r).
#[export] Instance act_bind : MBind act := λ A B f m r,
  let '(x, r') := m r in match x with Ok a => f a r' | Throw e => (Throw e, r') end.

Definition lift {A} (x : result A) : act A := λ r, (x, r).

(** A request that reads, and a transaction that is sent. *)
Definition ask {A} (f : W → result A * W) : act A := λ r,
  let '(x, w) := f (chain r) in (x, Run w (log r)).

Definition send (t : transaction) : act jstr := λ r,
  let '(x, w) := broadcast_tx net t (chain r) in (x, Run w (log r ++ [Sent t])).

Definition emit (e : event) : act () := λ r, (Ok (), Run (chain r) (log r ++ [e])).

(** ** Pinned artifacts *)

Definition readJson (path : jstr) : result value :=
  bytes ← readFile path; json_parse (utf8_decode bytes).

Definition readRepositoryJson (relativePath : jstr) : result value :=
  readJson (path_join [repositoryRoot; relativePath]).

(** [Object.fromEntries(registry.entries.map((entry) => [entry.id, entry]))]. *)
Definition pin (registry : value) : result (list (jstr * value)) :=
  entries ← get registry (js "entries");
  l ← as_array entries;
  fold_res (λ acc entry, id ← get entry (js "id"); Ok (set_own (to_string id) entry acc)) [] l.

Definition join_path (v : value) : result jstr :=
  match v with
  | VStr p => Ok (path_join [repositoryRoot; p])
  | _ => type_error (js "The path argument must be of type string")
  end.

(** The registry entry and the artifact of a contract, checked against the
    pinned checksum and creation code hash. *)
Definition load (pinned : list (jstr * value)) (id : jstr) : result (jstr * (value * value)) :=
  let entry := default VUndef (assoc id pinned) in
  assert (truthy entry) (js "pinned registry entry " +++ id +++ js " is missing");;
  artifactPath ← get entry (js "artifactPath");
  path ← join_path artifactPath;
  artifactBytes ← readFile path;
  checksum ← get entry (js "artifactSha256");
  assert (same_value (VStr (sha256 lib artifactBytes)) checksum)
    (id +++ js " generated artifact differs from the pinned registry checksum");;
  artifact ← json_parse (utf8_decode artifactBytes);
  creation ← walk artifact ["bytecode"; "creation"]%string;
  hash ← keccak256 lib creation;
  expected ← walk entry ["code"; "creationCodeKeccak256"]%string;
  assert (same_value (VStr hash) expected)
    (id +++ js " creation code differs from the pinned registry hash");;
  Ok (id, (entry, artifact)).

(** ** Constructor arguments *)

Definition find_constructor (abi : list value) : result value :=
  find_res (λ item, type ← get item (js "type"); Ok (strict_eq type (vs "constructor"))) abi.

Definition constructor_value (id : jstr) (configured input : value) : result argument :=
  name ← get input (js "name");
  type ← get input (js "type");
  let v := field configured (to_string name) in
  if strict_eq type (vs "address") then a ← getAddress lib v; Ok (AddressArgument a)
  else
    assert (v_safe_integer v && num_ltb (NInt 0) (v_num v))
      (id +++ js " constructor argument " +++ to_string name +++ js " must be a positive integer");;
    Ok (UintArgument (v_Z v)).

(** Whether the sorted keys are the sorted input names. *)
Definition same_names (configured : value) (names : list value) : bool :=
  forallb is_string names &&
  bool_decide (sort_strings (keys configured) = sort_strings (map v_str names)).

Definition encodeConstructorArguments (id : jstr) (artifact configured : value) : result jstr :=
  abi ← get artifact (js "abi");
  items ← as_array abi;
  constructor ← find_constructor items;
  let inputs := nullish (oget constructor (js "inputs")) (VArr []) in
  n ← get inputs (js "length");
  if strict_eq n (vi 0) then
    assert (deep_equal configured (VArr []))
      (id +++ js " takes no constructor arguments but the configuration provides some");;
    Ok (js "0x")
  else
    assert (is_object configured) (id +++ js " constructor arguments must be a name-keyed object");;
    inputs ← as_array inputs;
    names ← map_res (λ input, get input (js "name")) inputs;
    assert (same_names configured names)
      (id +++ js " constructor argument names differ from the generated ABI");;
    values ← map_res (constructor_value id configured) inputs;
    encodeAbiParameters lib inputs values.

(** ** The three deployments *)

Section configured.
Context (config : value) (artifacts : list (jstr * (value * value))).
(** The deployer, and the account of the wallet client under --broadcast. *)
Context (deployerAddress : jstr) (wallet : option jstr).

Definition artifact_of (id : jstr) : result (value * value) :=
  match assoc id artifacts with
  | Some a => Ok a
  | None => type_error (js "Cannot destructure " +++ id)
  end.

Definition check_code (code entry : value) (message : jstr) : result () :=
  hash ← keccak256 lib code;
  expected ← walk entry ["code"; "runtimeCodeKeccak256"]%string;
  assert (same_value (VStr hash) expected) message.

Definition assertRuntimeCode (a : jstr) (entry : value) : act () :=
  code ← ask (ask_code net a);
  lift (assert (has_code code) (js "no runtime code observed at " +++ a);;
        check_code code entry
          (js "observed runtime code at " +++ a +++ js " differs from the pinned hash")).

Definition reused : jstr := js "reused-existing-runtime-code".

Definition create_factory (account predicted : jstr) (entry artifact : value) : act deployment :=
  data ← lift (walk artifact ["bytecode"; "creation"]%string);
  hash ← send (CreateContract account data);
  r ← ask (await_receipt net hash);
  lift (assert (same_value (receipt_status r) (vs "success")) (js "factory deployment reverted"));;
  lift (a ← getAddress lib (receipt_contract r);
        assert (a =s? predicted) (js "Expected values to be strictly equal"));;
  assertRuntimeCode predicted entry;;
  lift (finished predicted entry (Some r) (js "deployed")).

Definition deployFactory : act deployment :=
  '(entry, artifact) ← lift (artifact_of factory_id);
  let predicted := getContractAddress lib deployerAddress 0 in
  existing ← ask (ask_code net predicted);
  if has_code existing then
    lift (check_code existing entry
      (js "existing factory runtime code differs from the pinned hash");;
      finished predicted entry None reused)
  else
    nonce ← ask (ask_nonce net deployerAddress);
    lift (assert (same_value nonce (vi 0))
      (js "the factory address is empty but the deployer nonce is not zero; a new reviewed deployment plan is required"));;
    match wallet with
    | None => lift (planned predicted entry (js "planned-deployer-create-nonce-0"))
    | Some account => create_factory account predicted entry artifact
    end.

(** What is deployed through the factory: salt, init code, predicted address,
    and the fields that the record adds. *)
Record create2_plan := Create2Plan {
  plan_salt : jstr; plan_initCode : jstr; plan_address : jstr; plan_base : list (jstr * value);
}.

Definition plan_create2 (id factoryAddress : jstr) (artifact : value) : result create2_plan :=
  deployments ← get config (js "deployments");
  plan ← get deployments id;
  assert (truthy plan) (js "deployment plan " +++ id +++ js " is missing from the configuration");;
  strategy ← get plan (js "strategy");
  assert (same_value strategy (vs "factory-create2")) (js "Expected values to be strictly equal");;
  saltPreimage ← get plan (js "saltPreimage");
  saltHex ← stringToHex lib saltPreimage;
  salt ← keccak256 lib (VStr saltHex);
  creation ← walk artifact ["bytecode"; "creation"]%string;
  constructorArguments ← get plan (js "constructorArguments");
  encoded ← encodeConstructorArguments id artifact constructorArguments;
  initCode ← concatHex lib [creation; VStr encoded];
  initCodeHash ← keccak256 lib (VStr initCode);
  Ok (Create2Plan salt initCode (getCreate2Address lib factoryAddress salt initCodeHash)
    ["salt" :=: VStr salt; "saltPreimage" :=: saltPreimage;
     "initCodeHash" :=: VStr initCodeHash; "constructorArguments" :=: constructorArguments]%js).

Definition create_through_factory (id account factoryAddress : jstr) (p : create2_plan) (entry : value)
    : act deployment :=
  '(_, factoryArtifact) ← lift (artifact_of factory_id);
  abi ← lift (get factoryArtifact (js "abi"));
  expected ← lift (walk entry ["code"; "runtimeCodeKeccak256"]%string);
  request ← ask (simulate net
    (ContractCall account factoryAddress abi (js "deploy") (plan_salt p) (plan_initCode p) expected));
  hash ← send (CallContract request);
  r ← ask (await_receipt net hash);
  lift (assert (same_value (receipt_status r) (vs "success")) (id +++ js " deployment reverted"));;
  assertRuntimeCode (plan_address p) entry;;
  d ← lift (finished (plan_address p) entry (Some r) (js "deployed"));
  mret (with_base d (plan_base p)).

Definition deployViaFactory (id factoryAddress : jstr) : act deployment :=
  '(entry, artifact) ← lift (artifact_of id);
  p ← lift (plan_create2 id factoryAddress artifact);
  existing ← ask (ask_code net (plan_address p));
  if has_code existing then
    d ← lift (check_code existing entry
               (js "existing " +++ id +++ js " runtime code differs from the pinned hash");;
             finished (plan_address p) entry None reused);
    mret (with_base d (plan_base p))
  else
    match wallet with
    | None =>
        d ← lift (planned (plan_address p) entry (js "planned-factory-create2"));
        mret (with_base d (plan_base p))
    | Some account => create_through_factory id account factoryAddress p entry
    end.

Definition deploy_contracts (environment chain : value) (broadcast : bool) : act deploy_record :=
  f ← deployFactory;
  a ← deployViaFactory attestation_id (address f);
  d ← deployViaFactory distributor_id (address f);
  mret (DeployRecord environment chain deployerAddress broadcast f a d).

End configured.

(** ** The configuration, the wallet and the whole run *)

Definition checkConfig (config : value) : result (value * value * jstr) :=
  configVersion ← get config (js "configVersion");
  assert (same_value configVersion (vs "1.0.0")) (js "Expected values to be strictly equal");;
  environment ← get config (js "environment");
  assert (is_string environment && (4 <=? jlen (v_str environment))) (js "config.environment is required");;
  chain ← get config (js "chain");
  assert (v_safe_integer (oget chain (js "evmChainId"))) (js "config.chain.evmChainId is required");;
  genesis ← get chain (js "genesisSha256");
  assert (is_sha256_text genesis) (js "The input did not match the regular expression");;
  deployer ← walk config ["authority"; "deployerAddress"]%string;
  deployerAddress ← getAddress lib deployer;
  Ok (environment, chain, deployerAddress).

Definition env_given (name : string) : option jstr := given (env (js name)).

(** The account that the key file controls. *)
Definition openWallet (deployerAddress : jstr) : result jstr :=
  match env_given "TORIUM_DEPLOY_KEY_FILE" with
  | None => Throw (Exn EAssertion (js "TORIUM_DEPLOY_KEY_FILE is required with --broadcast"))
  | Some keyFile =>
      bytes ← readFile keyFile;
      let keyText := trim (utf8_decode bytes) in
      assert (is_key_text keyText)
        (js "the key file must contain a single 0x-prefixed 32-byte hex key");;
      account ← privateKeyToAccount lib keyText;
      assert (account =s? deployerAddress)
        (js "the signing key does not control the configured deployer address");;
      Ok account
  end.

(** Everything that is checked before the endpoint is asked. *)
Definition prepare (argv : list jstr)
    : result (options * value * (value * value * jstr) * list (jstr * (value * value))) :=
  o ← parseArguments argv;
  match env_given "TORIUM_DEPLOY_RPC_URL" with
  | None => Throw (Exn EAssertion (js "TORIUM_DEPLOY_RPC_URL is required"))
  | Some _ =>
      config ← readJson (configPath o);
      checked ← checkConfig config;
      registry ← readRepositoryJson (js "contracts/deployments/localnet.json");
      pinned ← pin registry;
      artifacts ← map_res (load pinned) contract_ids;
      Ok (o, config, checked, artifacts)
  end.

Definition report (o : options) (r : deploy_record) : act () :=
  let serialized := stringify 2 0 (record_value r) +++ [10%N] in
  match outputPath o with
  | Some p => lift (writeFile p serialized);; emit (Wrote p serialized)
  | None => mret ()
  end;;
  emit (Printed serialized).

Definition main (argv : list jstr) : act deploy_record :=
  '(o, config, (environment, chain, deployerAddress), artifacts) ← lift (prepare argv);
  observed ← ask (ask_chain_id net);
  lift (assert (same_value observed (oget chain (js "evmChainId")))
    (js "RPC chain id " +++ to_string observed +++ js " does not match the configured environment"));;
  wallet ← lift (if broadcast o then a ← openWallet deployerAddress; Ok (Some a) else Ok None);
  r ← deploy_contracts config artifacts deployerAddress wallet environment chain (broadcast o);
  report o r;;
  mret r.

End deploy.
