(* ===== verification/DeployFacts.v ===== *)
(** Deployments: what a run may send, what its record means, and that a rerun
    finds everything in place. *)

From S2P Require Import Prelude JsNum JsText JsValue JsOps JsonText JsPath Deploy.

Open Scope Z_scope.

(** The transactions of a log. *)
Definition transactions (l : list event) : list transaction :=
  l ≫= λ e, match e with Sent t => [t] | _ => [] end.

Lemma transactions_app l k : transactions (l ++ k) = transactions l ++ transactions k.
Proof. apply bind_app. Qed.

Lemma same_value_text s v : same_value (VStr s) v = true ↔ v = VStr s.
Proof.
  destruct v; cbn [same_value strict_eq]; try done. rewrite jeq_spec. split; [by intros ->|by intros [= ->]].
Qed.

Section facts.
Context (lib : library) (W : Type) (net : endpoint W).
Context (readFile : jstr → result (list Z)) (writeFile : jstr → jstr → result ()).
Context (env : jstr → option jstr) (repositoryRoot : jstr).

Abbreviation act := (act W).
Abbreviation lift := (lift W).
Abbreviation ask := (ask W).
Abbreviation main := (main lib W net readFile writeFile env repositoryRoot).
Abbreviation prepare := (prepare lib readFile env repositoryRoot).
Abbreviation openWallet := (openWallet lib readFile env).
Abbreviation deployFactory := (deployFactory lib W net).
Abbreviation deployViaFactory := (deployViaFactory lib W net).
Abbreviation plan_create2 := (plan_create2 lib).

Lemma act_bind_Ok {A B} (m : act A) (f : A → act B) r b r' :
  (m ≫= f) r = (Ok b, r') ↔ ∃ a r1, m r = (Ok a, r1) ∧ f a r1 = (Ok b, r').
Proof.
  unfold mbind, act_bind. destruct (m r) as [[a|e] r1]; [naive_solver|].
  split; [done|]. by intros (? & ? & [=] & _).
Qed.

Lemma lift_Ok {A} (x : result A) r a r' : lift x r = (Ok a, r') ↔ x = Ok a ∧ r' = r.
Proof. unfold Deploy.lift. naive_solver. Qed.

(** ** What a step sends *)

(** Running [m] sends a list of transactions in [L] and, when it returns, gives
    an answer in [Q]. *)
Definition sends {A} (m : act A) (L : list transaction → Prop) (Q : A → Prop) : Prop :=
  ∀ r x r', m r = (x, r') →
    ∃ t, transactions (log r') = transactions (log r) ++ t ∧ L t ∧ ∀ a, x = Ok a → Q a.

Definition nothing (t : list transaction) : Prop := t = [].

Lemma nothing_nil : nothing [].
Proof. done. Qed.

#[local] Hint Resolve nothing_nil : core.

Lemma sends_bind {A B} (m : act A) (f : A → act B) (L1 L2 : list transaction → Prop) Q1 Q2 :
  L2 [] → sends m L1 Q1 → (∀ a, Q1 a → sends (f a) L2 Q2) →
  sends (m ≫= f) (λ t, ∃ t1 t2, t = t1 ++ t2 ∧ L1 t1 ∧ L2 t2) Q2.
Proof.
  intros H0 Hm Hf r x r' H. unfold mbind, act_bind in H.
  destruct (m r) as [y r1] eqn:E. destruct (Hm _ _ _ E) as (t1 & Ht1 & HL1 & HQ).
  destruct y as [a|e].
  - destruct (Hf a (HQ _ eq_refl) _ _ _ H) as (t2 & Ht2 & HL2 & HQ2).
    exists (t1 ++ t2). rewrite Ht2, Ht1, app_assoc. eauto 10.
  - simplify_eq. exists t1. split; [done|]. split; [|done]. exists t1, []. by rewrite app_nil_r.
Qed.

Lemma sends_weaken {A} (m : act A) (L L' : list transaction → Prop) (Q Q' : A → Prop) :
  sends m L Q → (∀ t, L t → L' t) → (∀ a, Q a → Q' a) → sends m L' Q'.
Proof. intros Hm HL HQ r x r' H. destruct (Hm _ _ _ H) as (t & ? & ? & ?). eauto 10. Qed.

(** A step that sends nothing, before and after one that may. *)
Lemma sends_after {A B} (m : act A) (f : A → act B) L Q1 Q2 :
  L [] → sends m nothing Q1 → (∀ a, Q1 a → sends (f a) L Q2) → sends (m ≫= f) L Q2.
Proof.
  intros H0 Hm Hf. eapply sends_weaken; [by apply (sends_bind m f nothing L Q1 Q2)| |done].
  intros t (t1 & t2 & -> & -> & ?). done.
Qed.

Lemma sends_before {A B} (m : act A) (f : A → act B) L Q1 Q2 :
  sends m L Q1 → (∀ a, Q1 a → sends (f a) nothing Q2) → sends (m ≫= f) L Q2.
Proof.
  intros Hm Hf. eapply sends_weaken; [by apply (sends_bind m f L nothing Q1 Q2)| |done].
  intros t (t1 & t2 & -> & ? & ->). by rewrite app_nil_r.
Qed.

Lemma sends_lift {A} (x : result A) L : L [] → sends (lift x) L (λ a, x = Ok a).
Proof. intros HL r y r' [= <- <-]. exists []. rewrite app_nil_r. eauto. Qed.

Lemma sends_last {A} (x : result A) L (Q : A → Prop) : L [] → (∀ a, x = Ok a → Q a) → sends (lift x) L Q.
Proof. intros HL HQ. eapply sends_weaken; [by apply (sends_lift x L)|done|done]. Qed.

Lemma sends_ask {A} (f : W → result A * W) L : L [] → sends (ask f) L (λ a, ∃ w w', f w = (Ok a, w')).
Proof.
  intros HL r y r' H. unfold Deploy.ask in H. destruct (f (chain r)) as [z w] eqn:E. simplify_eq/=.
  exists []. rewrite app_nil_r. repeat split; [done|]. intros a ->. eauto.
Qed.

Lemma sends_ret {A} (a : A) L (Q : A → Prop) : L [] → Q a → sends (mret a) L Q.
Proof. intros HL HQ r y r' [= <- <-]. exists []. rewrite app_nil_r. naive_solver. Qed.

Lemma sends_send t : sends (send W net t) (λ l, l = [t]) (λ _, True).
Proof.
  intros r y r' H. unfold send in H. destruct (broadcast_tx net t (chain r)) as [z w]. simplify_eq/=.
  exists [t]. by rewrite transactions_app.
Qed.

Lemma sends_emit e : transactions [e] = [] → sends (emit W e) nothing (λ _, True).
Proof.
  intros He r y r' [= <- <-]. exists []. cbn [log]. rewrite transactions_app, He. done.
Qed.

(** ** What a deployment sends *)

Section configured.
Context (config : value) (artifacts : list (jstr * (value * value))).
Context (deployerAddress : jstr) (wallet : option jstr).

Definition factory_address : jstr := getContractAddress lib deployerAddress 0.

(** The transaction that creates the contract [id] from the wallet's account:
    the creation code itself for the factory, a call of the factory with the
    salt and init code of the configuration for the others. *)
Definition creates (account id : jstr) (t : transaction) : Prop :=
  ∃ entry artifact, artifact_of artifacts id = Ok (entry, artifact) ∧
  if id =s? factory_id then
    ∃ data, walk artifact ["bytecode"; "creation"]%string = Ok data ∧ t = CreateContract account data
  else
    ∃ p factoryArtifact factoryEntry abi expected,
      artifact_of artifacts factory_id = Ok (factoryEntry, factoryArtifact) ∧
      get factoryArtifact (js "abi") = Ok abi ∧
      plan_create2 config id factory_address artifact = Ok p ∧
      walk entry ["code"; "runtimeCodeKeccak256"]%string = Ok expected ∧
      t = CallContract (ContractCall account factory_address abi (js "deploy")
                          (plan_salt p) (plan_initCode p) expected).

(** Nothing, or that one transaction. *)
Definition at_most (id : jstr) (t : list transaction) : Prop :=
  t = [] ∨ ∃ account tx, wallet = Some account ∧ creates account id tx ∧ t = [tx].

Lemma at_most_nil id : at_most id [].
Proof. by left. Qed.

#[local] Hint Resolve at_most_nil : core.

Lemma sends_assertRuntimeCode a entry : sends (assertRuntimeCode lib W net a entry) nothing (λ _, True).
Proof.
  eapply sends_after; [done|by apply sends_ask|]. intros code _.
  by apply sends_last.
Qed.

Lemma finished_address a entry r s d : finished a entry r s = Ok d → address d = a ∧ status d = s.
Proof. unfold finished. intros H. inv_result. done. Qed.

Lemma sends_create_factory account entry artifact :
  artifact_of artifacts factory_id = Ok (entry, artifact) → wallet = Some account →
  sends (create_factory lib W net account factory_address entry artifact) (at_most factory_id)
    (λ d, address d = factory_address).
Proof.
  intros Ha Hw. eapply sends_after; [done|by apply sends_lift|]. intros data Hd.
  eapply (sends_before _ _ _ (λ _, True)).
  - eapply sends_weaken; [apply sends_send| |done]. intros t ->. right. exists account. eexists.
    split; [done|]. split; [|done]. exists entry, artifact. split; [done|]. rewrite jeq_refl. by exists data.
  - intros hash _. eapply sends_after; [done|by apply sends_ask|]. intros r _.
    eapply sends_after; [done|by apply sends_lift|]. intros _ _.
    eapply sends_after; [done|by apply sends_lift|]. intros _ _.
    eapply sends_after; [done|apply sends_assertRuntimeCode|]. intros _ _.
    apply sends_last; [done|]. intros d Hf. by apply finished_address in Hf as [].
Qed.

Lemma sends_deployFactory :
  sends (deployFactory artifacts deployerAddress wallet) (at_most factory_id)
    (λ d, address d = factory_address).
Proof.
  eapply sends_after; [done|by apply sends_lift|]. intros [entry artifact] Ha.
  eapply sends_after; [done|by apply sends_ask|]. intros existing _. destruct (has_code existing).
  - apply sends_last; [done|]. intros d Hf. inv_result. by eapply finished_address.
  - eapply sends_after; [done|by apply sends_ask|]. intros nonce _.
    eapply sends_after; [done|by apply sends_lift|]. intros _ _. pose proof sends_create_factory as Hc.
    destruct wallet as [account|]; [by apply Hc|]. apply sends_last; [done|]. intros d Hf. by eapply finished_address.
Qed.

Lemma sends_through_factory account id factoryAddress p entry artifact :
  artifact_of artifacts id = Ok (entry, artifact) → wallet = Some account → id ≠ factory_id →
  plan_create2 config id factory_address artifact = Ok p → factoryAddress = factory_address →
  (∀ c w c' w', simulate net c w = (Ok c', w') → c' = c) →
  sends (create_through_factory lib W net artifacts id account factoryAddress p entry) (at_most id)
    (λ d, address d = plan_address p).
Proof.
  intros Ha Hw Hid Hp -> Hsim. unfold create_through_factory.
  eapply sends_after; [done|by apply sends_lift|]. intros [fe fa] Hfa.
  eapply sends_after; [done|by apply sends_lift|]. intros abi Habi.
  eapply sends_after; [done|by apply sends_lift|]. intros expected He.
  eapply sends_after; [done|by apply sends_ask|]. intros request (w & w' & ->%Hsim).
  eapply (sends_before _ _ _ (λ _, True)).
  - eapply sends_weaken; [apply sends_send| |done]. intros t ->. right. exists account. eexists.
    split; [done|]. split; [|done]. exists entry, artifact. split; [done|].
    apply jeq_neq in Hid as ->. exists p, fa, fe, abi, expected. done.
  - intros hash _. eapply sends_after; [done|by apply sends_ask|]. intros r _.
    eapply sends_after; [done|by apply sends_lift|]. intros _ _.
    eapply sends_after; [done|apply sends_assertRuntimeCode|]. intros _ _.
    eapply sends_after; [done|by apply sends_lift|]. intros d Hd.
    apply sends_ret; [done|]. by apply finished_address in Hd as [].
Qed.

Lemma sends_deployViaFactory id factoryAddress :
  id ≠ factory_id → factoryAddress = factory_address →
  (∀ c w c' w', simulate net c w = (Ok c', w') → c' = c) →
  sends (deployViaFactory config artifacts wallet id factoryAddress) (at_most id) (λ _, True).
Proof.
  intros Hid -> Hsim. unfold Deploy.deployViaFactory.
  eapply sends_after; [done|by apply sends_lift|]. intros [entry artifact] Ha.
  eapply sends_after; [done|by apply sends_lift|]. intros p Hp.
  eapply sends_after; [done|by apply sends_ask|]. intros existing _. destruct (has_code existing).
  - eapply sends_after; [done|by apply sends_lift|]. intros d _. by apply sends_ret.
  - pose proof sends_through_factory as Hc. destruct wallet as [account|].
    + eapply sends_weaken; [by eapply Hc|done|done].
    + eapply sends_after; [done|by apply sends_lift|]. intros d _. by apply sends_ret.
Qed.

(** The transactions of a run are those of some of the contracts, in order. *)
Definition in_order (t : list transaction) : Prop :=
  ∃ ids, ids `sublist_of` contract_ids ∧
    Forall2 (λ id tx, ∃ account, wallet = Some account ∧ creates account id tx) ids t.

Lemma sends_deploy_contracts environment chain b :
  (∀ c w c' w', simulate net c w = (Ok c', w') → c' = c) →
  sends (deploy_contracts lib W net config artifacts deployerAddress wallet environment chain b)
    in_order (λ _, True).
Proof.
  intros Hsim. unfold deploy_contracts. eapply sends_weaken.
  - eapply (sends_bind _ _ _ (λ t, ∃ t1 t2, t = t1 ++ t2 ∧ at_most attestation_id t1 ∧ at_most distributor_id t2));
      [by exists [], []|apply sends_deployFactory|]. intros f Hf.
    eapply (sends_bind _ _ (at_most attestation_id) (at_most distributor_id) (λ _, True));
      [done|by apply sends_deployViaFactory|].
    intros a _. eapply (sends_before _ _ _ (λ _, True)); [by apply sends_deployViaFactory|].
    intros d _. by apply (sends_ret _ nothing (λ _, True)).
  - intros t (t1 & ? & -> & H1 & t2 & t3 & -> & H2 & H3). 
    assert (∀ id t, at_most id t → ∃ ids, ids `sublist_of` [id] ∧
      Forall2 (λ id tx, ∃ account, wallet = Some account ∧ creates account id tx) ids t) as Hone.
    { intros id l [->|(account & tx & ? & ? & ->)]; [exists []|exists [id]]; (split; [|by eauto using Forall2]).
      - apply sublist_nil_l.
      - done. }
    apply Hone in H1 as (i1 & S1 & F1), H2 as (i2 & S2 & F2), H3 as (i3 & S3 & F3).
    exists (i1 ++ i2 ++ i3). split; [|by repeat apply Forall2_app].
    apply (sublist_app i1 [factory_id] (i2 ++ i3) [attestation_id; distributor_id]); [done|].
    by apply (sublist_app i2 [attestation_id] i3 [distributor_id]).
  - done.
Qed.

End configured.

(** ** What is checked before anything is sent *)

(** The artifact has the checksum and the creation code of its registry entry. *)
Definition pinned (registry : list (jstr * value)) (id : jstr) (entry artifact : value) : Prop :=
  assoc id registry = Some entry ∧
  ∃ path bytes checksum creation hash,
    (get entry (js "artifactPath") ≫= join_path repositoryRoot) = Ok path ∧ readFile path = Ok bytes ∧
    get entry (js "artifactSha256") = Ok checksum ∧ checksum = VStr (sha256 lib bytes) ∧
    json_parse (JsUtf8.utf8_decode bytes) = Ok artifact ∧
    walk artifact ["bytecode"; "creation"]%string = Ok creation ∧ keccak256 lib creation = Ok hash ∧
    walk entry ["code"; "creationCodeKeccak256"]%string = Ok (VStr hash).

Lemma load_pinned registry id a :
  load lib readFile repositoryRoot registry id = Ok a →
  ∃ entry artifact, a = (id, (entry, artifact)) ∧ pinned registry id entry artifact.
Proof.
  intros H. unfold load in H. passed H as Ht. take H as ap Hap. take H as path Hp. take H as bytes Hb.
  take H as checksum Hc. passed H as Hs. take H as artifact Hj. take H as creation Hw.
  take H as hash Hh. take H as expected He. passed H as Hx. apply Ok_inj in H as <-.
  apply same_value_text in Hs, Hx. subst expected. do 2 eexists. split; [done|]. split.
  - destruct (assoc id registry); [done|discriminate Ht].
  - exists path, bytes, checksum, creation, hash. rewrite Hap. by repeat split.
Qed.

Lemma prepare_pinned argv o config checked artifacts :
  prepare argv = Ok (o, config, checked, artifacts) →
  ∃ registry, ∀ id entry artifact,
    artifact_of artifacts id = Ok (entry, artifact) → pinned registry id entry artifact.
Proof.
  intros H. unfold Deploy.prepare in H. take H as o' Ho. destruct (env_given _ _); [|done].
  take H as config' Hc. take H as ch Hch. take H as registry Hr. take H as registry' Hp.
  take H as arts Hl. apply Ok_inj in H. simplify_eq. exists registry'. intros id entry artifact Ha.
  unfold artifact_of in Ha. destruct (assoc id artifacts) as [ea|] eqn:E; [|done]. simplify_eq.
  apply assoc_elem, list_elem_of_lookup in E as [i Hi]. apply map_res_Ok in Hl.
  destruct (Forall2_lookup_r _ _ _ _ _ Hl Hi) as (id' & _ & Hload).
  apply load_pinned in Hload as (? & ? & Heq & Hpin). by simplify_eq.
Qed.

Lemma openWallet_account deployerAddress a : openWallet deployerAddress = Ok a → a = deployerAddress.
Proof.
  unfold Deploy.openWallet. destruct (env_given _ _); [|done]. intros H.
  take H as bytes Hb. passed H as Hk. take H as account Ha. passed H as He. apply Ok_inj in H as <-.
  by apply jeq_spec in He.
Qed.

(** [simulateContract] returns the request for the call it simulated. *)
Definition simulates : Prop := ∀ c w c' w', simulate net c w = (Ok c', w') → c' = c.

(** What a run may send: nothing, or under --broadcast and after the endpoint
    has answered with the configured chain id, the transactions of the plan, from
    the deployer, with pinned artifacts. *)
Definition authorized (argv : list jstr) (t : list transaction) : Prop :=
  t = [] ∨
  ∃ o config environment chain deployerAddress artifacts registry,
    prepare argv = Ok (o, config, (environment, chain, deployerAddress), artifacts) ∧
    broadcast o = true ∧ openWallet deployerAddress = Ok deployerAddress ∧
    (∃ w observed w', ask_chain_id net w = (Ok observed, w') ∧
       same_value observed (oget chain (js "evmChainId")) = true) ∧
    (∀ id entry artifact,
       artifact_of artifacts id = Ok (entry, artifact) → pinned registry id entry artifact) ∧
    in_order config artifacts deployerAddress (Some deployerAddress) t.

(** C12. Whatever the endpoint answers and however the run ends, it sends nothing
    without --broadcast, a key that controls the deployer and the configured chain
    id; then at most the creation of the factory, of the attestation registry and
    of the reward distributor, in this order and once each, from the deployer, with
    the salts and arguments of the configuration and artifacts whose checksum and
    creation code hash are the pinned ones. *)
Theorem sends_only_the_plan argv r x r' :
  simulates → main argv r = (x, r') →
  ∃ t, transactions (log r') = transactions (log r) ++ t ∧ authorized argv t.
Proof.
  intros Hsim. assert (authorized argv []) as H0 by by left. revert r x r'.
  cut (sends (main argv) (authorized argv) (λ _, True)).
  { intros Hs r x r' H. destruct (Hs r x r' H) as (t & ? & ? & _). eauto. }
  eapply sends_after; [done|by apply sends_lift|].
  intros [[[o config] [[environment chain] deployerAddress]] artifacts] Hprep.
  eapply sends_after; [done|by apply sends_ask|]. intros observed (w & w' & Hobs).
  eapply sends_after; [done|by apply sends_lift|]. intros [] Hid%assert_Ok.
  eapply sends_after; [done|by apply sends_lift|]. intros wallet Hw.
  eapply (sends_before _ _ _ (λ _, True)).
  - eapply sends_weaken; [by apply sends_deploy_contracts| |done]. intros t Ht.
    destruct (broadcast o) eqn:Eb.
    + take Hw as a Ha. apply Ok_inj in Hw as <-. pose proof (openWallet_account _ _ Ha) as ->.
      destruct (prepare_pinned _ _ _ _ _ Hprep) as [registry Hpin].
      right. exists o, config, environment, chain, deployerAddress, artifacts, registry.
      split; [done|]. split; [done|]. split; [done|]. split; [by exists w, observed, w'|]. by split.
    + apply Ok_inj in Hw as <-. left. destruct Ht as (ids & _ & Hf).
      destruct Hf as [|? ? ? ? (? & ? & _)]; [done|discriminate].
  - intros d _. eapply sends_after; [done| |intros _ _; by apply sends_ret].
    unfold report. eapply (sends_after _ _ _ (λ _, True)); [done| |intros _ _; by apply sends_emit].
    destruct (outputPath o); [|by apply sends_ret].
    eapply sends_after; [done|by apply sends_lift|]. intros _ _. by apply sends_emit.
Qed.

(** ** What is on the chain *)

Context (code_at : W → jstr → value).

(** Code that was there is still there. *)
Definition keeps (w w' : W) : Prop := ∀ a, has_code (code_at w a) = true → code_at w' a = code_at w a.

#[export] Instance keeps_preorder : PreOrder keeps.
Proof.
  split; [by intros w a|]. intros w1 w2 w3 H12 H23 a Ha.
  rewrite <- (H12 a Ha). apply H23. by rewrite H12.
Qed.

(** The chain behind the endpoint: an answer about code is the code, and no
    request or transaction removes deployed code. *)
Record keeps_code : Prop := KeepsCode {
  code_answers : ∀ a w v w', ask_code net a w = (Ok v, w') → code_at w' a = v;
  chain_id_keeps : ∀ w, keeps w (snd (ask_chain_id net w));
  code_keeps : ∀ a w, keeps w (snd (ask_code net a w));
  nonce_keeps : ∀ a w, keeps w (snd (ask_nonce net a w));
  simulate_keeps : ∀ c w, keeps w (snd (simulate net c w));
  send_keeps : ∀ t w, keeps w (snd (broadcast_tx net t w));
  receipt_keeps : ∀ h w, keeps w (snd (await_receipt net h w));
}.

Definition kept (r r' : run W) : Prop := keeps (chain r) (chain r').

Context (laws : keeps_code).

(** The contract of a deployment has code with the recorded hash. *)
Definition verified (d : deployment) (w : W) : Prop :=
  ∃ hash, has_code (code_at w (address d)) = true ∧ keccak256 lib (code_at w (address d)) = Ok hash ∧
    runtimeCodeKeccak256 d = VStr hash.

Lemma verified_kept d w w' : keeps w w' → verified d w → verified d w'.
Proof. intros Hk (h & Hc & Hh & Hr). exists h. by rewrite (Hk _ Hc). Qed.

Lemma ask_kept {A} (f : W → result A * W) r x r' :
  (∀ w, keeps w (snd (f w))) → ask f r = (x, r') → kept r r'.
Proof.
  intros Hf H. unfold Deploy.ask in H. specialize (Hf (chain r)). destruct (f (chain r)) as [y w].
  by simplify_eq/=.
Qed.

Lemma send_kept t r x r' : send W net t r = (x, r') → kept r r'.
Proof.
  intros H. unfold send in H. pose proof (send_keeps laws t (chain r)) as Hk.
  destruct (broadcast_tx net t (chain r)) as [y w]. by simplify_eq/=.
Qed.

Lemma ask_code_Ok a r v r' :
  ask (ask_code net a) r = (Ok v, r') → kept r r' ∧ code_at (chain r') a = v.
Proof.
  intros H. split; [eapply ask_kept; [apply (code_keeps laws a)|exact H]|].
  unfold Deploy.ask in H. destruct (ask_code net a (chain r)) as [y w] eqn:E. simplify_eq/=.
  eapply code_answers; [exact laws|exact E].
Qed.

Lemma check_code_Ok code entry message u :
  check_code lib code entry message = Ok u →
  ∃ hash, keccak256 lib code = Ok hash ∧ walk entry ["code"; "runtimeCodeKeccak256"]%string = Ok (VStr hash).
Proof.
  intros H. unfold check_code in H. take H as hash Hh. take H as expected He.
  apply assert_Ok, same_value_text in H as ->. eauto.
Qed.

Lemma finished_Ok a entry r s d :
  finished a entry r s = Ok d →
  address d = a ∧ walk entry ["code"; "runtimeCodeKeccak256"]%string = Ok (runtimeCodeKeccak256 d) ∧
  ∃ c, walk entry ["code"; "creationCodeKeccak256"]%string = Ok c.
Proof. unfold finished. intros H. take H as run Hr. take H as cr Hc. apply Ok_inj in H as <-. eauto. Qed.

(** A deployment that was found or made by a run, at the contract's address. *)
Definition in_place (artifacts : list (jstr * (value * value))) (id : jstr) (d : deployment) (w : W) : Prop :=
  verified d w ∧ ∃ entry artifact c, artifact_of artifacts id = Ok (entry, artifact) ∧
    walk entry ["code"; "runtimeCodeKeccak256"]%string = Ok (runtimeCodeKeccak256 d) ∧
    walk entry ["code"; "creationCodeKeccak256"]%string = Ok c.

Section placed.
Context (config : value) (artifacts : list (jstr * (value * value))).
Context (deployerAddress : jstr) (wallet : option jstr).

Abbreviation factory_address := (factory_address deployerAddress).
Abbreviation in_place := (in_place artifacts).

(** Without a wallet a contract may be only planned. *)
Definition is_planned (d : deployment) : Prop :=
  status d ∈ [js "planned-deployer-create-nonce-0"; js "planned-factory-create2"] ∧ transactionHash d = VNull.

Definition outcome_of (id : jstr) (d : deployment) (w : W) : Prop :=
  in_place id d w ∨ (wallet = None ∧ is_planned d).

Lemma in_place_kept id d w w' : keeps w w' → in_place id d w → in_place id d w'.
Proof. intros Hk [Hv He]. split; [by eapply verified_kept|done]. Qed.

Lemma outcome_kept id d w w' : keeps w w' → outcome_of id d w → outcome_of id d w'.
Proof. intros Hk [Hp|Hp]; [left; by eapply in_place_kept|by right]. Qed.

Lemma found_in_place id entry artifact code m a rc s d w :
  artifact_of artifacts id = Ok (entry, artifact) → code_at w a = code → has_code code = true →
  check_code lib code entry m = Ok () → finished a entry rc s = Ok d → in_place id d w.
Proof.
  intros Ha <- Hc (hash & Hh & Hw)%check_code_Ok (Haddr & Hr & c & Hcr)%finished_Ok.
  split; [|by exists entry, artifact, c]. exists hash. rewrite Haddr. rewrite Hr in Hw.
  apply Ok_inj in Hw. by repeat split.
Qed.

Lemma in_place_base id d b w : in_place id d w → in_place id (with_base d b) w.
Proof. done. Qed.

Lemma assertRuntimeCode_Ok a entry r u r' :
  assertRuntimeCode lib W net a entry r = (Ok u, r') →
  kept r r' ∧ has_code (code_at (chain r') a) = true ∧
  ∃ m, check_code lib (code_at (chain r') a) entry m = Ok ().
Proof.
  intros H. apply act_bind_Ok in H as (code & r1 & H1 & H). apply lift_Ok in H as [H ->].
  apply ask_code_Ok in H1 as [Hk <-]. passed H as Hc. destruct u. eauto.
Qed.

Lemma create_factory_Ok account entry artifact r d r' :
  artifact_of artifacts factory_id = Ok (entry, artifact) →
  create_factory lib W net account factory_address entry artifact r = (Ok d, r') →
  kept r r' ∧ address d = factory_address ∧ in_place factory_id d (chain r').
Proof.
  intros Ha H. unfold create_factory in H. apply act_bind_Ok in H as (data & r0 & Hd & H).
  apply lift_Ok in Hd as [_ ->]. apply act_bind_Ok in H as (hash & r1 & Hs & H).
  apply act_bind_Ok in H as (rc & r2 & Hr & H). apply act_bind_Ok in H as ([] & r3 & Hst & H).
  apply lift_Ok in Hst as [_ ->]. apply act_bind_Ok in H as ([] & r4 & Hca & H).
  apply lift_Ok in Hca as [_ ->]. apply act_bind_Ok in H as ([] & r5 & Hrt & H). apply lift_Ok in H as [H ->].
  apply assertRuntimeCode_Ok in Hrt as (Hk & Hc & m & Hm). split.
  - unfold kept in *. transitivity (chain r1); [by eapply send_kept|]. transitivity (chain r2); [|done].
    eapply ask_kept; [apply (receipt_keeps laws hash)|exact Hr].
  - split; [by apply finished_address in H as []|by eapply found_in_place].
Qed.

Lemma deployFactory_Ok r d r' :
  deployFactory artifacts deployerAddress wallet r = (Ok d, r') →
  kept r r' ∧ address d = factory_address ∧ outcome_of factory_id d (chain r').
Proof.
  intros H. apply act_bind_Ok in H as ([entry artifact] & r0 & Ha & H). apply lift_Ok in Ha as [Ha ->].
  apply act_bind_Ok in H as (existing & r1 & He & H). apply ask_code_Ok in He as [Hk Hc].
  destruct (has_code existing) eqn:Eh.
  - apply lift_Ok in H as [H ->]. passed H as Hch. split; [done|].
    split; [by apply finished_address in H as []|left; by eapply found_in_place].
  - apply act_bind_Ok in H as (nonce & r2 & Hn & H). apply act_bind_Ok in H as ([] & r3 & Hz & H).
    apply lift_Ok in Hz as [_ ->].
    assert (kept r r2) as Hk2 by (unfold kept in *; etransitivity; [exact Hk|];
      eapply ask_kept; [apply (nonce_keeps laws deployerAddress)|exact Hn]).
    unfold outcome_of. destruct wallet as [account|].
    + apply (create_factory_Ok _ _ _ _ _ _ Ha) in H as (Hk3 & Hd & Hp). unfold kept in *.
      split; [by etransitivity|]. auto.
    + apply lift_Ok in H as [H ->]. split; [done|]. pose proof H as [Hd Hs]%finished_address.
      split; [done|]. right. split; [done|]. unfold planned, finished in H. inv_result. split; [left|done].
Qed.

Lemma create_through_factory_Ok id account factoryAddress p entry artifact r d r' :
  artifact_of artifacts id = Ok (entry, artifact) →
  create_through_factory lib W net artifacts id account factoryAddress p entry r = (Ok d, r') →
  kept r r' ∧ address d = plan_address p ∧ in_place id d (chain r').
Proof.
  intros Ha H. unfold create_through_factory in H. apply act_bind_Ok in H as ([fe fa] & r0 & Hfa & H).
  apply lift_Ok in Hfa as [_ ->]. apply act_bind_Ok in H as (abi & r0 & Hd & H). apply lift_Ok in Hd as [_ ->].
  apply act_bind_Ok in H as (expected & r0 & Hd & H). apply lift_Ok in Hd as [_ ->].
  apply act_bind_Ok in H as (request & r1 & Hsim & H). apply act_bind_Ok in H as (hash & r2 & Hs & H).
  apply act_bind_Ok in H as (rc & r3 & Hr & H). apply act_bind_Ok in H as ([] & r4 & Hst & H).
  apply lift_Ok in Hst as [_ ->]. apply act_bind_Ok in H as ([] & r5 & Hrt & H).
  apply act_bind_Ok in H as (d' & r6 & Hf & H). apply lift_Ok in Hf as [Hf ->].
  unfold mret, act_ret in H. injection H as <- <-.
  apply assertRuntimeCode_Ok in Hrt as (Hk & Hc & m & Hm). split.
  - unfold kept in *. transitivity (chain r1).
    { eapply ask_kept; [apply (simulate_keeps laws)|exact Hsim]. }
    transitivity (chain r2); [by eapply send_kept|]. transitivity (chain r3); [|done].
    eapply ask_kept; [apply (receipt_keeps laws hash)|exact Hr].
  - split; [by apply finished_address in Hf as []|]. by eapply in_place_base, found_in_place.
Qed.

Lemma deployViaFactory_Ok id factoryAddress r d r' :
  deployViaFactory config artifacts wallet id factoryAddress r = (Ok d, r') →
  kept r r' ∧ outcome_of id d (chain r') ∧
  ∃ entry artifact p, artifact_of artifacts id = Ok (entry, artifact) ∧
    plan_create2 config id factoryAddress artifact = Ok p ∧ address d = plan_address p.
Proof.
  intros H. apply act_bind_Ok in H as ([entry artifact] & r0 & Ha & H). apply lift_Ok in Ha as [Ha ->].
  apply act_bind_Ok in H as (p & r0 & Hp & H). apply lift_Ok in Hp as [Hp ->].
  apply act_bind_Ok in H as (existing & r1 & He & H). apply ask_code_Ok in He as [Hk Hc].
  cut (kept r r' ∧ outcome_of id d (chain r') ∧ address d = plan_address p).
  { intros (? & ? & ?). split; [done|]. split; [done|]. by exists entry, artifact, p. }
  destruct (has_code existing) eqn:Eh; [|unfold outcome_of; destruct wallet as [account|]].
  - apply act_bind_Ok in H as (d' & r2 & Hf & H). apply lift_Ok in Hf as [Hf ->].
    unfold mret, act_ret in H. injection H as <- <-. passed Hf as Hch.
    split; [done|]. split; [|by apply finished_address in Hf as []].
    left. by eapply in_place_base, found_in_place.
  - apply (create_through_factory_Ok _ _ _ _ _ _ _ _ _ Ha) in H as (Hk2 & Hd & Hin).
    unfold kept in *. split; [by etransitivity|]. auto.
  - apply act_bind_Ok in H as (d' & r2 & Hf & H). apply lift_Ok in Hf as [Hf ->].
    unfold mret, act_ret in H. injection H as <- <-. pose proof Hf as [Hd Hs]%finished_address.
    split; [done|]. split; [|done]. right. split; [done|].
    unfold planned, finished in Hf. inv_result. split; [right; left|done].
Qed.

Lemma deploy_contracts_Ok environment chainv b r rec r' :
  deploy_contracts lib W net config artifacts deployerAddress wallet environment chainv b r = (Ok rec, r') →
  kept r r' ∧ address (factory rec) = factory_address ∧
  outcome_of factory_id (factory rec) (chain r') ∧
  outcome_of attestation_id (attestation_registry rec) (chain r') ∧
  outcome_of distributor_id (reward_distributor rec) (chain r') ∧
  Forall2 (λ id d, ∃ entry artifact p, artifact_of artifacts id = Ok (entry, artifact) ∧
      plan_create2 config id factory_address artifact = Ok p ∧ address d = plan_address p)
    [attestation_id; distributor_id] [attestation_registry rec; reward_distributor rec].
Proof.
  intros H. apply act_bind_Ok in H as (f & r1 & Hf & H). apply deployFactory_Ok in Hf as (K1 & A1 & O1).
  apply act_bind_Ok in H as (a & r2 & Ha & H). apply deployViaFactory_Ok in Ha as (K2 & O2 & P2).
  apply act_bind_Ok in H as (d & r3 & Hd & H). apply deployViaFactory_Ok in Hd as (K3 & O3 & P3).
  unfold mret, act_ret in H. injection H as <- <-. cbn [factory attestation_registry reward_distributor].
  rewrite A1 in P2, P3. unfold kept in *.
  split; [by etransitivity; [exact K1|etransitivity]|]. split; [done|].
  split; [eapply outcome_kept; [|exact O1]; by etransitivity|].
  split; [by eapply outcome_kept|]. split; [done|]. by repeat constructor.
Qed.

(** ** Finding it again *)

(** An endpoint that answers its reads, always with the same chain id. *)
Record answers : Prop := Answers {
  same_chain_id : ∃ id, ∀ w, fst (ask_chain_id net w) = Ok id;
  code_known : ∀ a w, is_ok (fst (ask_code net a w)) = true;
}.

Context (known : answers).

Lemma reuse_code id d w r :
  in_place id d w → keeps w (chain r) →
  ∃ v r' entry artifact, ask (ask_code net (address d)) r = (Ok v, r') ∧ kept r r' ∧ log r' = log r ∧
    has_code v = true ∧ artifact_of artifacts id = Ok (entry, artifact) ∧
    (∀ m, check_code lib v entry m = Ok ()) ∧
    ∃ c, ∀ a, finished a entry None reused = Ok (Deployment reused a (runtimeCodeKeccak256 d) c VNull VNull []).
Proof.
  intros [(hash & Hc & Hh & Hr) (entry & artifact & c & Ha & Hw & Hcr)] Hk.
  destruct (ask (ask_code net (address d)) r) as [x r'] eqn:E.
  assert (∃ v, x = Ok v) as [v ->].
  { unfold Deploy.ask in E. pose proof (code_known known (address d) (chain r)) as Hok.
    destruct (ask_code net (address d) (chain r)) as [y w']. simplify_eq/=. destruct x; [eauto|done]. }
  pose proof E as [Hk' Hv]%ask_code_Ok. exists v, r', entry, artifact. split; [done|]. split; [done|].
  assert (v = code_at w (address d)) as ->.
  { rewrite <- Hv, <- (Hk _ Hc). apply Hk'. by rewrite Hk. }
  split. { unfold Deploy.ask in E. destruct (ask_code net (address d) (chain r)). by simplify_eq/=. }
  split; [done|]. split; [done|]. split.
  - intros m. unfold check_code. rewrite Hh. cbn [mbind result_bind]. rewrite Hw. cbn [mbind result_bind].
    rewrite Hr. unfold assert. by rewrite (proj2 (same_value_text hash (VStr hash)) eq_refl).
  - exists c. intros a. unfold finished. rewrite Hw. cbn [mbind result_bind]. by rewrite Hcr.
Qed.

(** The deployment [d'] of a rerun that found the contract of [d]. *)
Definition reuses (d d' : deployment) : Prop :=
  address d' = address d ∧ status d' = reused ∧ runtimeCodeKeccak256 d' = runtimeCodeKeccak256 d.

Lemma deployFactory_reuses d w r :
  in_place factory_id d w → address d = factory_address → keeps w (chain r) →
  ∃ d' r', deployFactory artifacts deployerAddress wallet r = (Ok d', r') ∧
    kept r r' ∧ log r' = log r ∧ reuses d d'.
Proof.
  intros Hp Had Hk. destruct (reuse_code _ _ _ _ Hp Hk) as (v & r' & entry & artifact & E & K & L & Hc & Ha & Hch & c & Hf).
  eexists _, r'. split; [|split; [exact K|split; [exact L|]]].
  - unfold Deploy.deployFactory, mbind, act_bind, Deploy.lift. rewrite Ha.
    change (getContractAddress lib deployerAddress 0) with factory_address. rewrite <- Had, E, Hc, Hch.
    cbn [result_bind]. by rewrite Hf.
  - by repeat split.
Qed.

Lemma deployViaFactory_reuses id d w r factoryAddress :
  in_place id d w → keeps w (chain r) →
  (∃ entry artifact p, artifact_of artifacts id = Ok (entry, artifact) ∧
     plan_create2 config id factoryAddress artifact = Ok p ∧ address d = plan_address p) →
  ∃ d' r', deployViaFactory config artifacts wallet id factoryAddress r = (Ok d', r') ∧
    kept r r' ∧ log r' = log r ∧ reuses d d'.
Proof.
  intros Hp Hk (entry' & artifact' & p & Ha' & Hplan & Had).
  destruct (reuse_code _ _ _ _ Hp Hk) as (v & r' & entry & artifact & E & K & L & Hc & Ha & Hch & c & Hf).
  rewrite Ha in Ha'. simplify_eq. eexists _, r'. split; [|split; [exact K|split; [exact L|]]].
  - unfold Deploy.deployViaFactory, mbind, act_bind, Deploy.lift. rewrite Ha, Hplan, <- Had, E, Hc, Hch.
    cbn [result_bind]. by rewrite Hf.
  - by repeat split.
Qed.

End placed.

(** ** The whole run *)

Lemma emit_chain e r x r' : emit W e r = (x, r') → chain r' = chain r.
Proof. intros H. apply (f_equal snd) in H. unfold emit in H. cbn [snd] in H. by rewrite <- H. Qed.

Lemma main_Ok argv r rec r' :
  main argv r = (Ok rec, r') →
  ∃ o config environment chainv deployerAddress artifacts wallet observed r1 r2,
    prepare argv = Ok (o, config, (environment, chainv, deployerAddress), artifacts) ∧
    ask (ask_chain_id net) r = (Ok observed, r1) ∧
    same_value observed (oget chainv (js "evmChainId")) = true ∧
    (if broadcast o then a ← openWallet deployerAddress; Ok (Some a) else Ok None) = Ok wallet ∧
    deploy_contracts lib W net config artifacts deployerAddress wallet environment chainv (broadcast o) r1
      = (Ok rec, r2) ∧ chain r' = chain r2.
Proof.
  intros H. apply act_bind_Ok in H as ([[[o config] [[environment chainv] deployerAddress]] artifacts] & r0 & Hp & H).
  apply lift_Ok in Hp as [Hp ->]. apply act_bind_Ok in H as (observed & r1 & Ho & H).
  apply act_bind_Ok in H as ([] & r1' & Hi & H). apply lift_Ok in Hi as [Hi%assert_Ok ->].
  apply act_bind_Ok in H as (wallet & r1' & Hw & H). apply lift_Ok in Hw as [Hw ->].
  apply act_bind_Ok in H as (rec' & r2 & Hd & H). apply act_bind_Ok in H as ([] & r3 & Hr & H).
  unfold mret, act_ret in H. injection H as <- <-.
  exists o, config, environment, chainv, deployerAddress, artifacts, wallet, observed, r1, r2.
  do 5 (split; [done|]). unfold report in Hr. apply act_bind_Ok in Hr as ([] & r4 & Hx & Hr).
  apply emit_chain in Hr. rewrite Hr. destruct (outputPath o).
  - apply act_bind_Ok in Hx as ([] & r5 & Hl & Hx). apply lift_Ok in Hl as [_ ->]. by apply emit_chain in Hx.
  - apply (f_equal snd) in Hx. cbn [snd mret act_ret] in Hx. by rewrite Hx.
Qed.

Lemma report_Ok o rec r :
  (∀ p t, writeFile p t = Ok ()) →
  ∃ r', report W writeFile o rec r = (Ok (), r') ∧ transactions (log r') = transactions (log r).
Proof.
  intros Hw. unfold report, emit, mbind, act_bind, mret, act_ret, Deploy.lift. destruct (outputPath o).
  - rewrite Hw. eexists. split; [reflexivity|]. cbn [log]. rewrite !transactions_app. by rewrite !app_nil_r.
  - eexists. split; [reflexivity|]. cbn [log]. rewrite transactions_app. by rewrite app_nil_r.
Qed.

Definition contracts (rec : deploy_record) : list deployment :=
  [factory rec; attestation_registry rec; reward_distributor rec].

(** Where the plan puts the contracts: the deployer's first address, and the
    CREATE2 addresses of the two plans. *)
Definition at_planned_addresses (config : value) (artifacts : list (jstr * (value * value)))
    (deployerAddress : jstr) (rec : deploy_record) : Prop :=
  address (factory rec) = getContractAddress lib deployerAddress 0 ∧
  Forall2 (λ id d, ∃ entry artifact p, artifact_of artifacts id = Ok (entry, artifact) ∧
      plan_create2 config id (getContractAddress lib deployerAddress 0) artifact = Ok p ∧
      address d = plan_address p)
    [attestation_id; distributor_id] [attestation_registry rec; reward_distributor rec].

(** C26. A run that ends with a record names the planned addresses, and at each of
    them the chain has code with the pinned runtime hash that the record gives;
    only a run without --broadcast may instead report a contract as planned. *)
Theorem recorded_contracts_verified argv r rec r' :
  main argv r = (Ok rec, r') →
  ∃ o config environment chainv deployerAddress artifacts,
    prepare argv = Ok (o, config, (environment, chainv, deployerAddress), artifacts) ∧
    at_planned_addresses config artifacts deployerAddress rec ∧
    Forall2 (λ id d, in_place artifacts id d (chain r') ∨ (broadcast o = false ∧ is_planned d))
      contract_ids (contracts rec).
Proof.
  intros (o & config & environment & chainv & dep & artifacts & wallet & observed & r1 & r2 & Hp & _ & _ & Hw & Hd & Hr)%main_Ok.
  apply deploy_contracts_Ok in Hd as (_ & Ha & O1 & O2 & O3 & Hplan). rewrite <- Hr in O1, O2, O3.
  exists o, config, environment, chainv, dep, artifacts. split; [done|]. split; [done|].
  assert (∀ id d, outcome_of artifacts wallet id d (chain r') →
    in_place artifacts id d (chain r') ∨ (broadcast o = false ∧ is_planned d)) as Hone.
  { intros id d [?|[-> ?]]; [by left|right]. split; [|done]. destruct (broadcast o); [|done].
    take Hw as a Hx. discriminate. }
  unfold contracts, contract_ids. do 3 (constructor; [by apply Hone|]). constructor.
Qed.

(** C22. Reruns are idempotent: after a run with --broadcast has ended with a
    record, the same command on the same chain, or on any later state of it that
    still has the code, ends with a record too, sends nothing, and reports the three
    contracts as reused at the same addresses with the same runtime hashes. *)
Theorem rerun_idempotent argv r rec r' w :
  answers → (∀ p t, writeFile p t = Ok ()) →
  main argv r = (Ok rec, r') → record_broadcast rec = true → keeps (chain r') w →
  ∃ rec' r2, main argv (Run w []) = (Ok rec', r2) ∧ transactions (log r2) = [] ∧
    Forall2 reuses (contracts rec) (contracts rec').
Proof.
  intros Hans Hwrite H Hb Hk. apply main_Ok in H
    as (o & config & environment & chainv & dep & artifacts & wallet & observed & r1 & r2 & Hp & Ho & Hid & Hw & Hd & Hr).
  assert (broadcast o = true) as Hbo.
  { apply act_bind_Ok in Hd as (? & ? & _ & Hd). apply act_bind_Ok in Hd as (? & ? & _ & Hd).
    apply act_bind_Ok in Hd as (? & ? & _ & Hd). injection Hd as <- _. done. }
  apply deploy_contracts_Ok in Hd as (_ & Ha & O1 & O2 & O3 & Hplan). rewrite <- Hr in O1, O2, O3.
  assert (∃ account, wallet = Some account) as [account ->].
  { rewrite Hbo in Hw. take Hw as a Hx. apply Ok_inj in Hw as <-. eauto. }
  destruct O1 as [O1|[? _]]; [|done]. destruct O2 as [O2|[? _]]; [|done]. destruct O3 as [O3|[? _]]; [|done].
  inversion_clear Hplan as [|? ? ? ? P2 Hrest]. inversion_clear Hrest as [|? ? ? ? P3 _].
  destruct (ask (ask_chain_id net) (Run w [])) as [x ra] eqn:Ea.
  assert (x = Ok observed ∧ kept (Run w []) ra ∧ log ra = []) as (-> & Ka & La).
  { destruct (same_chain_id Hans) as [c Hc]. split; [|split].
    - unfold Deploy.ask in Ho, Ea. pose proof (Hc (chain r)) as Hc1. pose proof (Hc (chain (Run w []))) as Hc2.
      destruct (ask_chain_id net (chain r)), (ask_chain_id net (chain (Run w []))). simplify_eq/=. done.
    - eapply ask_kept; [apply (chain_id_keeps laws)|exact Ea].
    - unfold Deploy.ask in Ea. destruct (ask_chain_id net (chain (Run w []))). by simplify_eq/=. }
  unfold kept in Ka. cbn [chain] in Ka.
  destruct (deployFactory_reuses artifacts dep (Some account) Hans (factory rec) (chain r') ra)
    as (f & rb & Ef & Kb & Lb & Rf); [done|done|by etransitivity|].
  destruct (deployViaFactory_reuses config artifacts (Some account) Hans attestation_id (attestation_registry rec)
    (chain r') rb (address f)) as (a & rc & Eat & Kc & Lc & Ra); [done| | |].
  { unfold kept in *. etransitivity; [exact Hk|]. by etransitivity. }
  { destruct Rf as [-> _]. by rewrite Ha. }
  destruct (deployViaFactory_reuses config artifacts (Some account) Hans distributor_id (reward_distributor rec)
    (chain r') rc (address f)) as (d & rd & Ed & Kd & Ld & Rd); [done| | |].
  { unfold kept in *. etransitivity; [exact Hk|]. etransitivity; [exact Ka|]. by etransitivity. }
  { destruct Rf as [-> _]. by rewrite Ha. }
  set (rec' := DeployRecord environment chainv dep true f a d).
  assert (deploy_contracts lib W net config artifacts dep (Some account) environment chainv true ra = (Ok rec', rd)) as E.
  { apply act_bind_Ok. exists f, rb. split; [done|]. apply act_bind_Ok. exists a, rc. split; [done|].
    apply act_bind_Ok. by exists d, rd. }
  destruct (report_Ok o rec' rd Hwrite) as (rz & Er & Hlog). exists rec', rz.
  split; [|split; [by rewrite Hlog, Ld, Lc, Lb, La|do 3 (constructor; [done|]); constructor]].
  apply act_bind_Ok. eexists _, _. split; [by apply lift_Ok|]. cbn beta iota.
  apply act_bind_Ok. exists observed, ra. split; [done|]. apply act_bind_Ok. exists (), ra.
  split; [apply lift_Ok; split; [by apply assert_Ok|done]|].
  apply act_bind_Ok. exists (Some account), ra. split; [by apply lift_Ok|]. rewrite Hbo.
  apply act_bind_Ok. exists rec', rd. split; [done|]. apply act_bind_Ok. by exists (), rz.
Qed.

End facts.

(** ** A deployment on an empty chain *)

Module Samples.

(** Codes by address; a transaction deploys where there is no code yet. *)
Definition world : Type := list (jstr * value).
Definition code_at (w : world) (a : jstr) : value := default VUndef (assoc a w).
Definition put (a : jstr) (v : value) (w : world) : world :=
  match assoc a w with Some _ => w | None => (a, v) :: w end.

Definition digest (v : value) : result jstr :=
  match v with VStr s => Ok (js "k" +++ s) | _ => type_error (js "not bytes") end.

Definition sample_library : library := Library digest (λ _, js "s")
  (λ v, Ok (v_str v)) (λ l, Ok (concat (map v_str l))) (λ _ _, Ok (js "args")) (λ v, Ok (v_str v))
  (λ a _, a +++ js "-0") (λ f s h, f +++ js "/" +++ s) (λ _, Ok (js "dep")).

Definition execute (t : transaction) (w : world) : result jstr * world :=
  match t with
  | CreateContract from data => (Ok (from +++ js "-0"), put (from +++ js "-0") data w)
  | CallContract c =>
      let a := call_address c +++ js "/" +++ call_salt c in
      (Ok a, put a (VStr (tail (v_str (call_runtimeHash c)))) w)
  end.

Definition sample_net : endpoint world := Endpoint world
  (λ w, (Ok (vi 7), w)) (λ a w, (Ok (code_at w a), w))
  (λ _ w, (Ok (vi (Z.of_nat (length w))), w)) (λ c w, (Ok c, w)) execute
  (λ h w, (Ok (Receipt (vs "success") (VStr h) (VStr h) 1), w)).

Definition sample_entry (id : jstr) : value := VObj [
  "id" :=: VStr id; "artifactPath" :=: VStr (id +++ js ".json"); "artifactSha256" :=: vs "s";
  "code" :=: VObj ["creationCodeKeccak256" :=: VStr (js "k" +++ id);
                   "runtimeCodeKeccak256" :=: VStr (js "k" +++ id)]]%js.

Definition sample_artifact (id : jstr) : value := VObj [
  "abi" :=: VArr [VObj ["type" :=: vs "constructor";
                        "inputs" :=: VArr [VObj ["name" :=: vs "delay"; "type" :=: vs "uint64"]]]];
  "bytecode" :=: VObj ["creation" :=: VStr id]]%js.

Definition sample_plan : value := VObj [
  "strategy" :=: vs "factory-create2"; "saltPreimage" :=: vs "salt";
  "constructorArguments" :=: VObj ["delay" :=: vi 5]]%js.

Definition sample_config : value := VObj [
  "configVersion" :=: vs "1.0.0"; "environment" :=: vs "test";
  "chain" :=: VObj ["evmChainId" :=: vi 7; "genesisSha256" :=: VStr (repeat 48%N 64)];
  "authority" :=: VObj ["deployerAddress" :=: vs "dep"];
  "deployments" :=: VObj [(attestation_id, with_field sample_plan (js "saltPreimage") (vs "a"));
                          (distributor_id, with_field sample_plan (js "saltPreimage") (vs "d"))]]%js.

Definition file_of (v : value) : list Z := JsUtf8.utf8_encode (stringify 0 0 v).

Definition sample_files : list (jstr * list Z) :=
  [(js "config", file_of sample_config);
   (js "key", JsUtf8.utf8_encode (js "0x" +++ repeat 49%N 64));
   (js "/r/contracts/deployments/localnet.json",
     file_of (VObj ["entries" :=: VArr (map sample_entry contract_ids)]%js))]
  ++ map (λ id, (js "/r/" +++ id +++ js ".json", file_of (sample_artifact id))) contract_ids.

Definition sample_readFile (path : jstr) : result (list Z) :=
  match assoc path sample_files with Some b => Ok b | None => error (js "ENOENT") end.

Definition sample_env (name : jstr) : option jstr :=
  if name =s? js "TORIUM_DEPLOY_KEY_FILE" then Some (js "key") else Some (js "http://localhost").

Abbreviation sample_main :=
  (main sample_library world sample_net sample_readFile (λ _ _, Ok ()) sample_env (js "/r")).

Definition sample_argv : list jstr := [js "--config"; js "config"; js "--broadcast"; js "--output"; js "out"].
Definition empty : run world := Run [] [].

Definition sample_run : result deploy_record * run world := sample_main sample_argv empty.
Definition sample_record : deploy_record :=
  match fst sample_run with Ok r => r | Throw _ => DeployRecord VNull VNull [] false
    (Deployment [] [] VNull VNull VNull VNull []) (Deployment [] [] VNull VNull VNull VNull [])
    (Deployment [] [] VNull VNull VNull VNull []) end.

Lemma sample_run_ok :
  sample_main sample_argv empty = (Ok sample_record, snd sample_run) ∧
  record_broadcast sample_record = true ∧ length (transactions (log (snd sample_run))) = 3%nat.
Proof. vm_compute. done. Qed.

Lemma put_keeps a v w : keeps world code_at w (put a v w).
Proof.
  intros b Hb. unfold put, code_at in *. destruct (assoc a w) eqn:E; [done|]. cbn [assoc].
  destruct (b =s? a) eqn:Eb; [|done]. apply jeq_spec in Eb as ->. by rewrite E in Hb.
Qed.

Lemma sample_keeps : keeps_code world sample_net code_at.
Proof.
  split; try done; [by intros a w v w' [= <- <-]|]. intros [from data|c] w; apply put_keeps.
Qed.

Lemma sample_answers : answers world sample_net.
Proof. split; [by exists (vi 7)|done]. Qed.

Lemma sends_only_the_plan_witness :
  ∃ t, transactions (log (snd sample_run)) = t ∧
    authorized sample_library world sample_net sample_readFile sample_env (js "/r") sample_argv t.
Proof.
  destruct (sends_only_the_plan sample_library world sample_net sample_readFile (λ _ _, Ok ()) sample_env (js "/r")
    sample_argv empty _ _ ltac:(by intros c w c' w' [= <- <-]) (proj1 sample_run_ok)) as (t & Ht & Ha).
  exists t. split; [exact Ht|exact Ha].
Defined.

Lemma recorded_contracts_verified_witness :
  ∃ o config environment chainv deployerAddress artifacts,
    prepare sample_library sample_readFile sample_env (js "/r") sample_argv
      = Ok (o, config, (environment, chainv, deployerAddress), artifacts) ∧
    at_planned_addresses sample_library config artifacts deployerAddress sample_record ∧
    Forall2 (λ id d, in_place sample_library world code_at artifacts id d (chain (snd sample_run))
                     ∨ (broadcast o = false ∧ is_planned d)) contract_ids (contracts sample_record).
Proof.
  exact (recorded_contracts_verified sample_library world sample_net sample_readFile (λ _ _, Ok ()) sample_env (js "/r")
    code_at sample_keeps sample_argv empty sample_record (snd sample_run) (proj1 sample_run_ok)).
Defined.

Lemma rerun_idempotent_witness :
  ∃ rec' r2, sample_main sample_argv (Run (chain (snd sample_run)) []) = (Ok rec', r2) ∧
    transactions (log r2) = [] ∧ Forall2 reuses (contracts sample_record) (contracts rec').
Proof.
  exact (rerun_idempotent sample_library world sample_net sample_readFile (λ _ _, Ok ()) sample_env (js "/r")
    code_at sample_keeps sample_argv empty sample_record (snd sample_run) (chain (snd sample_run))
    sample_answers (λ _ _, eq_refl) (proj1 sample_run_ok) (proj1 (proj2 sample_run_ok)) (λ a _, eq_refl)).
Defined.

End Samples.
