(* ===== verification/JsPattern.v ===== *)
(** [new RegExp(pattern, flags)] for the patterns of the secret policy: a reader
    of ECMAScript pattern text without the u flag, and the backtracking matcher
    with captures that [String.prototype.matchAll] runs.  The subset has classes,
    escapes, groups, greedy quantifiers, alternation, [^] and [\b]; other syntax is
    reported as a SyntaxError. *)

From S2P Require Import Prelude JsNum JsText.

Open Scope Z_scope.

(** ** Patterns *)

(** A class of code units: ranges, possibly negated. *)
Record class := Class { negated : bool; ranges : list (N * N) }.

Inductive pattern :=
| PEmpty
| PClass (c : class)
| PSeq (a b : pattern)
| PAlt (a b : pattern)
| PRepeat (least : nat) (most : option nat) (a : pattern)
| PCapture (k : nat) (a : pattern)
| PStart
| PBoundary.

Definition one (c : N) : pattern := PClass (Class false [(c, c)]).

Definition digit_ranges : list (N * N) := [(48, 57)%N].
Definition word_ranges : list (N * N) := [(48, 57); (65, 90); (95, 95); (97, 122)]%N.
Definition space_ranges : list (N * N) :=
  [(9, 13); (32, 32); (160, 160); (5760, 5760); (8192, 8202); (8232, 8233); (8239, 8239); (8287, 8287);
   (12288, 12288); (65279, 65279)]%N.

(** ** Reading *)

(** What a letter after a backslash stands for, in and out of a class; other
    characters that are no letters or digits stand for themselves. *)
Definition escape_ranges (c : N) : option (list (N * N)) :=
  if (c =? 115)%N then Some space_ranges
  else if (c =? 100)%N then Some digit_ranges
  else if (c =? 119)%N then Some word_ranges
  else if (c =? 110)%N then Some [(10, 10)%N]
  else if (c =? 114)%N then Some [(13, 13)%N]
  else if (c =? 116)%N then Some [(9, 9)%N]
  else if is_digit c || is_lower c || is_upper c then None
  else Some [(c, c)].

(** The text after a given unit. *)
Definition after (c : N) (s : jstr) : option jstr :=
  match s with d :: r => if (d =? c)%N then Some r else None | [] => None end.

(** One member of a class. *)
Definition class_atom (s : jstr) : option (list (N * N) * jstr) :=
  match s with
  | c :: r =>
      if (c =? 92)%N then match r with d :: r' => rs ← escape_ranges d; Some (rs, r') | [] => None end
      else Some ([(c, c)], r)
  | [] => None
  end.

(** [a-b]. *)
Definition class_range (low high : list (N * N)) : option (N * N) :=
  match low, high with
  | [(a, b)], [(c, d)] => if (a =? b)%N && (c =? d)%N && (a <=? c)%N then Some (a, c) else None
  | _, _ => None
  end.

Fixpoint class_members (fuel : nat) (acc : list (N * N)) (s : jstr) : option (list (N * N) * jstr) :=
  match fuel with
  | O => None
  | S f =>
      match after 93 s with
      | Some r => Some (acc, r)
      | None =>
          '(low, r) ← class_atom s;
          match after 45 r with
          | None => class_members f (acc ++ low) r
          | Some r' =>
              match after 93 r' with
              | Some r'' => Some (acc ++ low ++ [(45, 45)%N], r'')
              | None => '(high, r'') ← class_atom r'; range ← class_range low high; class_members f (acc ++ [range]) r''
              end
          end
      end
  end.

Definition read_class (s : jstr) : option (pattern * jstr) :=
  let body := default s (after 94 s) in
  '(rs, r) ← class_members (S (length body)) [] body;
  Some (PClass (Class (bool_decide (is_Some (after 94 s))) rs), r).

(** The number at the head of a quantifier. *)
Definition read_count (s : jstr) : option (nat * jstr) :=
  match span is_digit s with ([], _) => None | (d, r) => Some (Z.to_nat (Z_of_dec d), r) end.

(** [m}], [m,}] or [m,n}]. *)
Definition read_braces (s : jstr) : option (nat * option nat * jstr) :=
  '(m, r) ← read_count s;
  match after 125 r with
  | Some r => Some (m, Some m, r)
  | None =>
      r ← after 44 r;
      match after 125 r with
      | Some r => Some (m, None, r)
      | None => '(n, r) ← read_count r; r ← after 125 r; Some (m, Some n, r)
      end
  end.

Definition read_quantifier (s : jstr) : option (option (nat * option nat) * jstr) :=
  match s with
  | c :: r =>
      if (c =? 42)%N then Some (Some (O, None), r)
      else if (c =? 43)%N then Some (Some (1%nat, None), r)
      else if (c =? 63)%N then Some (Some (O, Some 1%nat), r)
      else if (c =? 123)%N then '(m, n, r) ← read_braces r; Some (Some (m, n), r)
      else Some (None, s)
  | [] => Some (None, s)
  end.

Definition quantify (q : option (nat * option nat)) (a : pattern) : pattern :=
  match q with Some (m, n) => PRepeat m n a | None => a end.

(** A unit that may stand for itself. *)
Definition is_plain (c : N) : bool := negb (existsb (N.eqb c) [36; 40; 41; 42; 43; 63; 91; 92; 93; 123; 124; 125]%N).

(** An atom without groups: a class, an escape, a dot or a unit. *)
Definition read_unit (s : jstr) : option (pattern * jstr) :=
  match s with
  | c :: r =>
      if (c =? 91)%N then read_class r
      else if (c =? 92)%N then
        match r with d :: r' => rs ← escape_ranges d; Some (PClass (Class false rs), r') | [] => None end
      else if (c =? 46)%N then Some (PClass (Class true [(10, 10); (13, 13); (8232, 8233)]%N), r)
      else if is_plain c then Some (one c, r) else None
  | [] => None
  end.

(** [^] and [\b]. *)
Definition read_assertion (s : jstr) : option (pattern * jstr) :=
  match after 94 s with
  | Some r => Some (PStart, r)
  | None => match after 92 s ≫= after 98 with Some r => Some (PBoundary, r) | None => None end
  end.

Definition ends_terms (s : jstr) : bool :=
  match s with [] => true | c :: _ => (c =? 124)%N || (c =? 41)%N end.

(** Alternatives, terms and atoms; [k] counts the capturing groups opened. *)
Fixpoint read_alternatives (fuel : nat) (k : nat) (s : jstr) : option (pattern * nat * jstr) :=
  match fuel with
  | O => None
  | S f =>
      '(a, k, r) ← read_terms f k s;
      match after 124 r with
      | Some r => '(b, k, r) ← read_alternatives f k r; Some (PAlt a b, k, r)
      | None => Some (a, k, r)
      end
  end
with read_terms (fuel : nat) (k : nat) (s : jstr) : option (pattern * nat * jstr) :=
  match fuel with
  | O => None
  | S f =>
      if ends_terms s then Some (PEmpty, k, s)
      else match read_assertion s with
           | Some (a, r) => '(b, k, r) ← read_terms f k r; Some (PSeq a b, k, r)
           | None =>
               '(a, k, r) ← read_atom f k s;
               '(q, r) ← read_quantifier r;
               '(b, k, r) ← read_terms f k r;
               Some (PSeq (quantify q a) b, k, r)
           end
  end
with read_atom (fuel : nat) (k : nat) (s : jstr) : option (pattern * nat * jstr) :=
  match fuel with
  | O => None
  | S f =>
      match after 40 s with
      | Some r =>
          match after 63 r with
          | Some r => r ← after 58 r; '(a, k, r) ← read_alternatives f k r; r ← after 41 r; Some (a, k, r)
          | None => '(a, k', r) ← read_alternatives f (S k) r; r ← after 41 r; Some (PCapture (S k) a, k', r)
          end
      | None => '(a, r) ← read_unit s; Some (a, k, r)
      end
  end.

(** Every turn of the reader consumes a unit, within three calls. *)
Definition read_fuel (s : jstr) : nat := 3 * length s + 3.

Record regexp := RegExp { source : pattern; global : bool; ignoreCase : bool }.

Definition syntax_error {A} (text : jstr) : result A :=
  Throw (Exn ESyntaxError (js "Invalid regular expression: " +++ text)).

(** [new RegExp(text, flags)] with the flags g and i. *)
Definition new_RegExp (text flags : jstr) : result regexp :=
  match read_alternatives (read_fuel text) 0 text with
  | Some (p, _, []) =>
      if forallb (λ c, (c =? 103)%N || (c =? 105)%N) flags && all_distinct flags
      then Ok (RegExp p (existsb (N.eqb 103) flags) (existsb (N.eqb 105) flags))
      else syntax_error text
  | _ => syntax_error text
  end.

(** ** Matching *)

(** A position in the text: the unit before it, the text from it on, and what
    the groups have captured. *)
Record cursor := Cursor { before : option N; rest : jstr; captures : list (nat * jstr) }.

Definition in_ranges (c : N) (rs : list (N * N)) : bool := existsb (λ '(a, b), in_range a b c) rs.

(** Under the i flag a unit matches when one of its cases is in the ranges. *)
Definition in_class (fold : bool) (cl : class) (c : N) : bool :=
  xorb (negated cl)
    (in_ranges c (ranges cl)
     || (fold && (in_ranges (lower_char c) (ranges cl) || in_ranges (upper_char c) (ranges cl)))).

Definition is_word (c : N) : bool := in_ranges c word_ranges.

Definition at_boundary (s : cursor) : bool :=
  xorb (match before s with Some c => is_word c | None => false end)
       (match rest s with c :: _ => is_word c | [] => false end).

(** Greedy repetition; past the least number of turns a turn that consumes
    nothing does not count. *)
Section repeat.
Context (step : cursor → list cursor).

Fixpoint repeat_more (fuel : nat) (most : option nat) (s : cursor) : list cursor :=
  match fuel, most with
  | O, _ | _, Some O => [s]
  | S f, _ =>
      (List.filter (λ s', Nat.ltb (length (rest s')) (length (rest s))) (step s)
         ≫= repeat_more f (pred <$> most)) ++ [s]
  end.

Fixpoint repeat_least (n : nat) (most : option nat) (s : cursor) : list cursor :=
  match n with
  | O => repeat_more (length (rest s)) most s
  | S m => step s ≫= repeat_least m (pred <$> most)
  end.

End repeat.

(** What was consumed between two positions. *)
Definition consumed (s s' : cursor) : jstr := take (length (rest s) - length (rest s')) (rest s).

(** The positions after a match, in the order of backtracking. *)
Fixpoint run (fold : bool) (p : pattern) (s : cursor) : list cursor :=
  match p with
  | PEmpty => [s]
  | PClass cl =>
      match rest s with
      | c :: r => if in_class fold cl c then [Cursor (Some c) r (captures s)] else []
      | [] => []
      end
  | PSeq a b => run fold a s ≫= run fold b
  | PAlt a b => run fold a s ++ run fold b s
  | PRepeat least most a => repeat_least (run fold a) least most s
  | PCapture k a =>
      map (λ s', Cursor (before s') (rest s') ((k, consumed s s') :: captures s')) (run fold a s)
  | PStart => match before s with None => [s] | Some _ => [] end
  | PBoundary => if at_boundary s then [s] else []
  end.

Record match_result := Match { index : nat; matched : jstr; groups : list (nat * jstr) }.

(** [text.matchAll(regex)] of a global regex, from an index on. *)
Fixpoint match_from (fuel : nat) (r : regexp) (i : nat) (prev : option N) (text : jstr) : list match_result :=
  match fuel with
  | O => []
  | S f =>
      let s := Cursor prev text [] in
      let found := head (run (ignoreCase r) (source r) s) in
      let here := match found with Some s' => [Match i (consumed s s') (captures s')] | None => [] end in
      match found, text with
      | Some s', _ :: _ =>
          if Nat.ltb (length (rest s')) (length text)
          then here ++ match_from f r (i + (length text - length (rest s'))) (before s') (rest s')
          else here ++ match text with c :: t => match_from f r (S i) (Some c) t | [] => [] end
      | None, c :: t => match_from f r (S i) (Some c) t
      | _, [] => here
      end
  end.

Definition matchAll (r : regexp) (text : jstr) : list match_result :=
  match_from (S (length text)) r 0 None text.

(** [match[k]]: the whole match, or the last capture of a group. *)
Fixpoint last_capture (k : nat) (l : list (nat * jstr)) : option jstr :=
  match l with
  | [] => None
  | (k', s) :: l' => if Nat.eqb k k' then Some s else last_capture k l'
  end.

Definition group (m : match_result) (k : nat) : option jstr :=
  match k with O => Some (matched m) | _ => last_capture k (groups m) end.

(** ** Fuel

    The reader and the matcher of patterns never run out of fuel: more of it
    does not change what they return. *)
Local Open Scope nat_scope.

(** Take a hypothesis [_ = Some _] apart. *)
Ltac inv_some :=
  repeat match goal with
  | H : Some _ = Some _ |- _ => injection H as H; subst
  | H : None = Some _ |- _ => discriminate H
  | H : mbind _ _ = Some _ |- _ => apply bind_Some in H; destruct H as (? & ? & H)
  | H : (let '(_, _) := ?x in _) = Some _ |- _ => destruct x
  | H : (if ?b then _ else _) = Some _ |- _ => destruct b eqn:?
  | H : match ?x with Some _ => _ | None => _ end = Some _ |- _ => destruct x eqn:?
  | H : match ?x with [] => _ | _ :: _ => _ end = Some _ |- _ => destruct x eqn:?
  | x : (_ * _)%type |- _ => destruct x
  | H : (_, _) = (_, _) |- _ => injection H as H; subst
  end.

Lemma after_shorter c s r : after c s = Some r → length r < length s.
Proof. unfold after. intros. inv_some. simpl. lia. Qed.

Lemma class_atom_shorter s rs r : class_atom s = Some (rs, r) → length r < length s.
Proof. unfold class_atom. intros. inv_some; simpl; lia. Qed.

(** Collect what the readers that succeeded have consumed. *)
Ltac shorter :=
  repeat match goal with
  | H : after _ _ = Some _ |- _ => apply after_shorter in H
  | H : class_atom _ = Some _ |- _ => apply class_atom_shorter in H
  end.

Lemma class_members_shorter fuel acc s rs r : class_members fuel acc s = Some (rs, r) → length r < length s.
Proof.
  revert acc s. induction fuel as [|f IH]; [done|]. intros acc s H. cbn [class_members] in H.
  inv_some; try apply IH in H; shorter; lia.
Qed.

Lemma class_members_fuel f g acc s :
  length s < f → length s < g → class_members f acc s = class_members g acc s.
Proof.
  revert g acc s. induction f as [|f IH]; [lia|]. intros [|g] acc s Hf Hg; [lia|]. cbn [class_members].
  destruct (after 93 s); [done|]. destruct (class_atom s) as [[low r]|] eqn:Ea; [|done]. cbn [mbind option_bind].
  apply class_atom_shorter in Ea. destruct (after 45 r) as [r'|] eqn:Eb; [|apply IH; lia].
  apply after_shorter in Eb. destruct (after 93 r'); [done|].
  destruct (class_atom r') as [[high r'']|] eqn:Ec; [|done]. apply class_atom_shorter in Ec. cbn [mbind option_bind].
  destruct (class_range low high); [|done]. cbn [mbind option_bind]. apply IH; lia.
Qed.

Lemma read_class_shorter s a r : read_class s = Some (a, r) → length r < length s.
Proof.
  unfold read_class. destruct (after 94 s) as [b|] eqn:E; unfold default, id; intros H; inv_some;
    repeat match goal with H : class_members _ _ _ = Some _ |- _ => apply class_members_shorter in H end; shorter; lia.
Qed.

Lemma read_unit_shorter s a r : read_unit s = Some (a, r) → length r < length s.
Proof.
  unfold read_unit. intros H. inv_some;
    repeat match goal with H : read_class _ = Some _ |- _ => apply read_class_shorter in H end; simpl; lia.
Qed.

Lemma read_assertion_shorter s a r : read_assertion s = Some (a, r) → length r < length s.
Proof. unfold read_assertion. intros H. inv_some; shorter; lia. Qed.

Lemma read_count_shorter s n r : read_count s = Some (n, r) → length r < length s.
Proof.
  unfold read_count. destruct (span is_digit s) as [[|c d] r'] eqn:E; [done|]. intros H. inv_some.
  enough (length s = length (c :: d) + length r) by (simpl in *; lia).
  clear - E. revert c d r E. induction s as [|x s IH]; intros c d r E; cbn [span] in E; [done|].
  destruct (is_digit x); [|done]. destruct (span is_digit s) as [[|y d'] r'] eqn:E'; simplify_eq/=.
  - destruct s as [|z s]; cbn [span] in E'; [by simplify_eq|]. destruct (is_digit z); [|by simplify_eq].
    destruct (span is_digit s). done.
  - f_equal. by eapply IH.
Qed.

Lemma read_quantifier_shorter s q r : read_quantifier s = Some (q, r) → length r <= length s.
Proof.
  unfold read_quantifier, read_braces. intros H. inv_some; simpl; try lia;
    repeat match goal with H : read_count _ = Some _ |- _ => apply read_count_shorter in H end; shorter; simpl in *; lia.
Qed.

#[local] Ltac lengths :=
  repeat match goal with
  | H : read_unit _ = Some _ |- _ => apply read_unit_shorter in H
  | H : read_assertion _ = Some _ |- _ => apply read_assertion_shorter in H
  | H : read_quantifier _ = Some _ |- _ => apply read_quantifier_shorter in H
  end; shorter.

Lemma readers_shorter fuel :
  (∀ k s a k' r, read_alternatives fuel k s = Some (a, k', r) → length r <= length s) ∧
  (∀ k s a k' r, read_terms fuel k s = Some (a, k', r) → length r <= length s) ∧
  (∀ k s a k' r, read_atom fuel k s = Some (a, k', r) → length r < length s).
Proof.
  induction fuel as [|f (IHa & IHt & IHx)]; [done|].
  split; [|split]; intros k s a k' r H; cbn [read_alternatives read_terms read_atom] in H; inv_some;
    repeat match goal with
    | H : read_alternatives f _ _ = Some _ |- _ => apply IHa in H
    | H : read_terms f _ _ = Some _ |- _ => apply IHt in H
    | H : read_atom f _ _ = Some _ |- _ => apply IHx in H
    end; lengths; lia.
Qed.

Lemma readers_fuel n :
  (∀ f g k s, length s <= n → 3 * length s + 3 <= f → 3 * length s + 3 <= g →
     read_alternatives f k s = read_alternatives g k s) ∧
  (∀ f g k s, length s <= n → 3 * length s + 2 <= f → 3 * length s + 2 <= g →
     read_terms f k s = read_terms g k s) ∧
  (∀ f g k s, length s <= n → 3 * length s + 1 <= f → 3 * length s + 1 <= g →
     read_atom f k s = read_atom g k s).
Proof.
  induction n as [n IH] using lt_wf_ind.
  assert (∀ f g k s, length s < n → 3 * length s + 3 <= f → 3 * length s + 3 <= g →
     read_alternatives f k s = read_alternatives g k s) as IHa.
  { intros f g k s Hn. exact (proj1 (IH (length s) Hn) f g k s (Nat.le_refl _)). }
  assert (∀ f g k s, length s < n → 3 * length s + 2 <= f → 3 * length s + 2 <= g →
     read_terms f k s = read_terms g k s) as IHt.
  { intros f g k s Hn. exact (proj1 (proj2 (IH (length s) Hn)) f g k s (Nat.le_refl _)). }
  assert (∀ f g k s, length s <= n → 3 * length s + 1 <= f → 3 * length s + 1 <= g →
     read_atom f k s = read_atom g k s) as Hx.
  { intros [|f] [|g] k s Hn Hf Hg; try lia. cbn [read_atom].
    destruct (after 40 s) as [r|] eqn:E; [|done]. apply after_shorter in E.
    destruct (after 63 r) as [r'|] eqn:E'.
    - apply after_shorter in E'. destruct (after 58 r') as [r''|] eqn:E''; [|done]. apply after_shorter in E''.
      cbn [mbind option_bind]. by rewrite (IHa f g) by lia.
    - by rewrite (IHa f g) by lia. }
  assert (∀ f g k s, length s <= n → 3 * length s + 2 <= f → 3 * length s + 2 <= g →
     read_terms f k s = read_terms g k s) as Ht.
  { intros [|f] [|g] k s Hn Hf Hg; try lia. cbn [read_terms]. destruct (ends_terms s); [done|].
    destruct (read_assertion s) as [[a r]|] eqn:E.
    - apply read_assertion_shorter in E. by rewrite (IHt f g) by lia.
    - rewrite (Hx f g) by lia. destruct (read_atom g k s) as [[[a k'] r]|] eqn:Ea; [|done].
      apply (proj2 (proj2 (readers_shorter g))) in Ea. cbn [mbind option_bind].
      destruct (read_quantifier r) as [[q r']|] eqn:Eq; [|done]. apply read_quantifier_shorter in Eq.
      cbn [mbind option_bind]. by rewrite (IHt f g) by lia. }
  split; [|done].
  intros [|f] [|g] k s Hn Hf Hg; try lia. cbn [read_alternatives]. rewrite (Ht f g) by lia.
  destruct (read_terms g k s) as [[[a k'] r]|] eqn:Ea; [|done]. apply (proj1 (proj2 (readers_shorter g))) in Ea.
  cbn [mbind option_bind]. destruct (after 124 r) as [r'|] eqn:E; [|done]. apply after_shorter in E.
  by rewrite (IHa f g) by lia.
Qed.

(** Reading a pattern with more fuel gives the same. *)
Lemma read_fuel_enough f s : read_fuel s <= f → read_alternatives f 0 s = read_alternatives (read_fuel s) 0 s.
Proof. unfold read_fuel. intros Hf. apply (proj1 (readers_fuel (length s))); lia. Qed.

(** So does searching a text. *)
Lemma match_from_fuel r f g i prev s :
  length s < f → length s < g → match_from f r i prev s = match_from g r i prev s.
Proof.
  revert g i prev s. induction f as [|f IH]; [lia|]. intros [|g] i prev s Hf Hg; [lia|]. cbn [match_from].
  destruct (head _) as [s'|]; destruct s as [|c s]; try done.
  - destruct (Nat.ltb_spec (length (rest s')) (length (c :: s))); f_equal; apply IH; simpl in *; lia.
  - apply IH; simpl in *; lia.
Qed.

Lemma matchAll_fuel r s f : length s < f → match_from f r 0 None s = matchAll r s.
Proof. intros Hf. apply match_from_fuel; [done|lia]. Qed.
