(* ===== verification/SecretScan.v ===== *)
(** chain/scripts/scan-prohibited-secrets.mjs: the scan of tracked files or
    explicit paths for secrets and forbidden files, and the allowlist of exact
    finding counts. *)

From S2P Require Import Prelude JsNum JsText JsValue JsOps JsonText JsPath JsPattern.

Open Scope Z_scope.

(** ** The policy *)

Record rule_source := RuleSource {
  source_id : jstr; source_pattern : jstr; source_flags : jstr; source_group : nat;
}.

Record rule := Rule { rule_id : jstr; regex : regexp; captureGroup : nat }.

Definition compileRule (r : rule_source) : result rule :=
  e ← new_RegExp (source_pattern r) (source_flags r);
  Ok (Rule (source_id r) e (source_group r)).

Record policy := Policy {
  rules : list rule_source;
  maximumFileBytes : Z;
  ignoredDirectoryNames : list jstr;
  forbiddenFileNames : list jstr;
  forbiddenFileExtensions : list jstr;
  forbidRuntimeEnvironmentFiles : bool;
  allowedExampleSuffixes : list jstr;
  archiveExtensions : list jstr;
  allowedPlaceholderValues : list jstr;
  allowlist : value;
}.

Record finding := Finding { finding_rule : jstr; finding_path : jstr; finding_line : Z }.

#[export] Instance finding_eq_dec : EqDecision finding.
Proof. solve_decision. Defined.

(** ** The allowlist *)

Definition check_constraint (constraints : value) (name : string) (expected : bool) : result () :=
  v ← get constraints (js name);
  assert (same_value v (VBool expected)) (js "Expected values to be strictly equal").

(** [typeof v === "string" && v.length > 0 && !v.includes("*")]. *)
Definition is_exact_path (v : value) : bool :=
  match v with VStr s => negb (bool_decide (s = [])) && negb (existsb (N.eqb 42) s) | _ => false end.

(** [Number.isInteger(v) && v >= 1]. *)
Definition is_count (v : value) : bool := v_integer v && num_leb (NInt 1) (v_num v).

Definition validateExpected (contentRuleIds : list jstr) (path : value) (f : value) : result () :=
  rule ← get f (js "rule");
  assert (is_string rule && jmem (v_str rule) contentRuleIds)
    (js "allowlist entry " +++ to_string path +++ js " names " +++ to_string rule
     +++ js ", which is not a content rule; file-policy findings can never be allowlisted");;
  count ← get f (js "count");
  assert (is_count count) (js "allowlist entry " +++ to_string path +++ js " needs an exact expected count").

(** One entry, with the paths seen before it. *)
Definition validateEntry (contentRuleIds : list jstr) (seenPaths : list jstr) (entry : value)
    : result (list jstr) :=
  path ← get entry (js "path");
  assert (is_exact_path path) (js "allowlist entries must name exact repository paths");;
  assert (negb (jmem (v_str path) seenPaths)) (js "duplicate allowlist entry for " +++ to_string path);;
  reason ← get entry (js "reason");
  assert (is_string reason && (40 <=? jlen (v_str reason)))
    (js "allowlist entry " +++ to_string path +++ js " needs a substantive justification");;
  ownerIssue ← get entry (js "ownerIssue");
  assert (is_count ownerIssue) (js "allowlist entry " +++ to_string path +++ js " needs an owning issue");;
  findings ← get entry (js "findings");
  l ← as_array findings;
  assert (negb (bool_decide (l = []))) (js "The expression evaluated to a falsy value");;
  for_each (validateExpected contentRuleIds path) l;;
  Ok (v_str path :: seenPaths).

Definition validateAllowlist (contentRuleIds : list jstr) (allowlist : value) : result () :=
  assert (truthy allowlist) (js "secret policy must declare an allowlist section");;
  constraints ← get allowlist (js "constraints");
  check_constraint constraints "exactCountRequired" true;;
  check_constraint constraints "staleEntriesFail" true;;
  check_constraint constraints "contentRulesOnly" true;;
  check_constraint constraints "wildcardsAllowed" false;;
  check_constraint constraints "justificationRequired" true;;
  entries ← get allowlist (js "entries");
  l ← as_array entries;
  fold_res (validateEntry contentRuleIds) [] l;;
  Ok ().

(** The keys of a path and a rule, with a NUL between them, and of a finding,
    [`${path}:${rule}:${line}`]. *)
Definition group_key (path rule : jstr) : jstr := path +++ [0%N] +++ rule.
Definition line_key (f : finding) : jstr :=
  finding_path f +++ js ":" +++ finding_rule f +++ js ":" +++ dec_of_Z (finding_line f).

(** [byPathAndRule.get(key) ?? []]. *)
Definition matched_by (findings : list finding) (key : jstr) : list finding :=
  List.filter (λ f, group_key (finding_path f) (finding_rule f) =s? key) findings.

Record applied := Applied {
  stale : list finding; suppressedKeys : list jstr; allowlistedCount : Z;
}.

Definition apply_expected (findings : list finding) (path : value) (a : applied) (expected : value) : applied :=
  let key := group_key (to_string path) (to_string (field expected (js "rule"))) in
  let matched := matched_by findings key in
  if strict_eq (VNum (NInt (Z.of_nat (length matched)))) (field expected (js "count"))
  then Applied (stale a) (suppressedKeys a ++ map line_key matched)
         (allowlistedCount a + Z.of_nat (length matched))
  else Applied (stale a ++ [Finding (js "allowlist-entry-stale") (to_string path) 0])
         (suppressedKeys a) (allowlistedCount a).

Definition apply_entry (findings : list finding) (scannedDisplayPaths : list jstr) (a : applied) (entry : value)
    : applied :=
  let path := field entry (js "path") in
  if jmem (to_string path) scannedDisplayPaths
  then fold_left (apply_expected findings path) (v_list (field entry (js "findings"))) a
  else a.

(** What is left to report, and how many findings were allowed; the allowlist
    has been validated when the script started. *)
Definition applyAllowlist (findings : list finding) (scannedDisplayPaths : list jstr) (allowlist : value)
    : list finding * Z :=
  let a := fold_left (apply_entry findings scannedDisplayPaths)
             (v_list (field allowlist (js "entries"))) (Applied [] [] 0) in
  (stale a ++ List.filter (λ f, negb (jmem (line_key f) (suppressedKeys a))) findings, allowlistedCount a).

(** ** Lines *)

(** [text.charCodeAt(i) === 10] starts a line at [i + 1]. *)
Fixpoint newlines_from (i : Z) (text : jstr) : list Z :=
  match text with
  | [] => []
  | c :: t => if (c =? 10)%N then (i + 1) :: newlines_from (i + 1) t else newlines_from (i + 1) t
  end.

Definition lineStarts (text : jstr) : list Z := 0 :: newlines_from 0 text.

(** The loop of the binary search; the interval halves. *)
Fixpoint line_search (fuel : nat) (starts : list Z) (i : Z) (low high : Z) : Z :=
  match fuel with
  | O => low
  | S f =>
      if low <? high then
        let middle := (low + high) / 2 in
        if nth (Z.to_nat middle) starts 0 <=? i then line_search f starts i (middle + 1) high
        else line_search f starts i low middle
      else low
  end.

Definition lineAt (starts : list Z) (i : Z) : Z :=
  Z.max 1 (line_search (length starts) starts i 0 (Z.of_nat (length starts))).

(** ** One file *)

(** What a path names; a directory gives the names in it. *)
Inductive node := File (bytes : list Z) | Directory (names : list jstr) | Symlink | Special.

Section scan.
Context (p : policy) (toLowerCase : jstr → jstr).
Context (root cwd : jstr) (node_at : jstr → option node).

Definition contentRuleIds : list jstr := map source_id (rules p).

Definition normalizedPath (path : jstr) : jstr :=
  let v := path_relative cwd root path in
  if starts_with (js "../") v then path else v.

Definition isArchive (path : jstr) : bool :=
  existsb (λ extension, ends_with extension (toLowerCase path)) (archiveExtensions p).

Definition isAllowedEnvironmentExample (name : jstr) : bool :=
  existsb (λ suffix, ends_with suffix name) (allowedExampleSuffixes p).

Definition is_environment_file (lower : jstr) : bool :=
  forbidRuntimeEnvironmentFiles p &&
  ((lower =s? js ".env") || (lower =s? js ".envrc") || ends_with (js ".env") lower || includes (js ".env.") lower) &&
  negb (isAllowedEnvironmentExample lower).

Definition find_if (b : bool) (rule : string) (path : jstr) : list finding :=
  if b then [Finding (js rule) path 0] else [].

Definition filePolicyFindings (path : jstr) : list finding :=
  let lower := toLowerCase (path_basename path) in
  find_if (existsb (λ name, toLowerCase name =s? lower) (forbiddenFileNames p)) "forbidden-secret-filename" path
  ++ find_if (jmem (path_extname lower) (forbiddenFileExtensions p)) "forbidden-secret-extension" path
  ++ find_if (is_environment_file lower) "runtime-environment-file" path
  ++ find_if (isArchive path) "archive-must-scan-extracted-staging" path.

(** [[A-Z][A-Z0-9_]*]. *)
Definition is_constant_name (s : jstr) : bool :=
  match s with
  | c :: t => is_upper c && forallb (λ c, is_upper c || is_digit c || (c =? 95)%N) t
  | [] => false
  end.

Definition is_environment_reference (s : jstr) : bool :=
  starts_with (js "process.env.") s && is_constant_name (drop 12 s).

Definition is_shell_reference (s : jstr) : bool :=
  starts_with (js "${") s && ends_with (js "}") s
  && is_constant_name (take (length s - 3) (drop 2 s)).

Definition isAllowedPlaceholder (v : jstr) : bool :=
  let normalized := trim v in
  let allowed := allowedPlaceholderValues p in
  (jmem (js "process.env") allowed && is_environment_reference normalized)
  || (jmem (js "${") allowed && is_shell_reference normalized)
  || jmem normalized (List.filter (λ w, negb (w =s? js "process.env") && negb (w =s? js "${")) allowed).

(** [match[rule.captureGroup] ?? match[0]]. *)
Definition candidate (r : rule) (m : match_result) : jstr := default (matched m) (group m (captureGroup r)).

(** [text.matchAll(regex)] needs the g flag. *)
Definition matches_of (r : rule) (text : jstr) : result (list match_result) :=
  if global (regex r) then Ok (matchAll (regex r) text)
  else type_error (js "String.prototype.matchAll called with a non-global RegExp argument").

Definition rule_findings (path text : jstr) (r : rule) : result (list finding) :=
  ms ← matches_of r text;
  Ok (map (λ m, Finding (rule_id r) path (lineAt (lineStarts text) (Z.of_nat (index m))))
        (List.filter (λ m, negb (isAllowedPlaceholder (candidate r m))) ms)).

(** [new Map()] with the last finding per [`${rule}:${path}:${line}`]. *)
Definition unique_key (f : finding) : jstr :=
  finding_rule f +++ js ":" +++ finding_path f +++ js ":" +++ dec_of_Z (finding_line f).

Fixpoint set_finding (f : finding) (l : list finding) : list finding :=
  match l with
  | [] => [f]
  | g :: l' => if unique_key g =s? unique_key f then f :: l' else g :: set_finding f l'
  end.

Definition unique (l : list finding) : list finding := fold_left (λ acc f, set_finding f acc) l [].

(** [buffer.toString("latin1")]. *)
Definition latin1 (bytes : list Z) : jstr := map Z.to_N bytes.

Definition scanBuffer (compiled : list rule) (path : jstr) (bytes : list Z) : result (list finding) :=
  let findings := filePolicyFindings path in
  if maximumFileBytes p <? Z.of_nat (length bytes)
  then Ok (findings ++ [Finding (js "file-too-large-unscanned") path 0])
  else if isArchive path then Ok findings
  else
    ls ← map_res (rule_findings path (latin1 bytes)) compiled;
    Ok (unique (findings ++ concat ls)).

(** ** Which files *)

(** [files.add(path)]. *)
Definition add_file (path : jstr) (files : list jstr) : list jstr :=
  if jmem path files then files else files ++ [path].

Definition enoent {A} (path : jstr) : result A := error (js "ENOENT: no such file or directory, lstat " +++ path).
Definition too_deep : exn := Exn EAssertion (js "out of fuel").

Fixpoint collectExplicitPath (fuel : nat) (acc : list jstr * list finding) (path : jstr)
    : result (list jstr * list finding) :=
  match fuel with
  | O => Throw too_deep
  | S f =>
      let '(files, findings) := acc in
      match node_at path with
      | None => enoent path
      | Some Symlink => Ok (files, findings ++ [Finding (js "symlink-not-scanned") path 0])
      | Some (Directory names) =>
          if jmem (path_basename path) (ignoredDirectoryNames p) then Ok acc
          else fold_res (λ acc entry, collectExplicitPath f acc (path_resolve path entry)) acc (sort_strings names)
      | Some (File _) => Ok (add_file path files, findings)
      | Some Special => Ok acc
      end
  end.

(** The output of git ls-files -z. *)
Context (gitOutput : result jstr).

Definition trackedFiles : result (list jstr) :=
  output ← gitOutput;
  Ok (map (path_resolve root) (List.filter (λ s, negb (bool_decide (s = []))) (split_on 0 output))).

(** ** The scan *)

Record scan_state := ScanState {
  scan_findings : list finding; filesScanned : Z; bytesScanned : Z; displayPaths : list jstr;
}.

Record scan_report := ScanReport {
  filesConsidered : Z; report_scanned : Z; report_bytes : Z; report_findings : list finding;
  allowlistedFindings : Z;
}.

Definition with_findings (s : scan_state) (l : list finding) : scan_state :=
  ScanState (scan_findings s ++ l) (filesScanned s) (bytesScanned s) (displayPaths s).
Definition displayed (s : scan_state) (d : jstr) : scan_state :=
  ScanState (scan_findings s) (filesScanned s) (bytesScanned s) (displayPaths s ++ [d]).
Definition scanned (s : scan_state) (bytes : list Z) : scan_state :=
  ScanState (scan_findings s) (filesScanned s + 1) (bytesScanned s + Z.of_nat (length bytes)) (displayPaths s).

Definition scan_file (compiled : list rule) (s : scan_state) (path : jstr) : result scan_state :=
  match node_at path with
  | None => enoent path
  | Some Symlink => Ok (with_findings s [Finding (js "symlink-not-scanned") path 0])
  | Some (Directory _) | Some Special => Ok (with_findings s [Finding (js "non-regular-file-not-scanned") path 0])
  | Some (File bytes) =>
      let displayPath := normalizedPath path in
      let s := displayed s displayPath in
      if maximumFileBytes p <? Z.of_nat (length bytes) then
        Ok (with_findings (with_findings s (filePolicyFindings displayPath))
              [Finding (js "file-too-large-unscanned") displayPath 0])
      else if isArchive path then Ok (with_findings s (filePolicyFindings displayPath))
      else
        found ← scanBuffer compiled displayPath bytes;
        Ok (with_findings (scanned s bytes) found)
  end.

(** The files to scan, with what was found on the way to them. *)
Definition files_of (fuel : nat) (paths : list jstr) : result (list jstr * list finding) :=
  match paths with
  | [] => tracked ← trackedFiles; Ok (fold_left (λ acc path, add_file path acc) tracked [], [])
  | _ => fold_res (collectExplicitPath fuel) ([], []) paths
  end.

Definition scan_files (compiled : list rule) (files : list jstr) (findings : list finding) : result scan_state :=
  fold_res (scan_file compiled) (ScanState findings 0 0 []) (sort_strings files).

Definition runScan (fuel : nat) (compiled : list rule) (paths : list jstr) : result scan_report :=
  '(files, findings) ← files_of fuel paths;
  s ← scan_files compiled files findings;
  let '(violations, count) := applyAllowlist (scan_findings s) (displayPaths s) (allowlist p) in
  Ok (ScanReport (Z.of_nat (length files)) (filesScanned s) (bytesScanned s) violations count).

(** ** The process *)

Record scan_arguments := ScanArguments { argument_paths : list jstr; argument_selfTest : bool }.

Fixpoint parseArgumentsFrom (a : scan_arguments) (argv : list jstr) : result scan_arguments :=
  match argv with
  | [] => Ok a
  | argument :: rest =>
      if argument =s? js "--self-test" then parseArgumentsFrom (ScanArguments (argument_paths a) true) rest
      else if argument =s? js "--path" then
        match rest with
        | [] | [] :: _ => error (js "--path requires a file or directory")
        | v :: rest' =>
            parseArgumentsFrom (ScanArguments (argument_paths a ++ [path_resolve cwd v]) (argument_selfTest a)) rest'
        end
      else error (js "Unknown argument: " +++ argument)
  end.

Definition parseArguments (argv : list jstr) : result scan_arguments :=
  parseArgumentsFrom (ScanArguments [] false) argv.

Definition public_finding (f : finding) : value := VObj [
  "rule" :=: VStr (finding_rule f);
  "path" :=: VStr (normalizedPath (finding_path f));
  "line" :=: VNum (NInt (finding_line f))]%js.

Definition report_value (selfTest : value) (r : scan_report) : value :=
  let counts := [
    "filesConsidered" :=: vi (filesConsidered r); "filesScanned" :=: vi (report_scanned r);
    "bytesScanned" :=: vi (report_bytes r); "allowlistedFindings" :=: vi (allowlistedFindings r)]%js in
  VObj (["valid" :=: VBool (bool_decide (report_findings r = []))]%js ++ counts ++
        [if bool_decide (report_findings r = []) then "selfTest" :=: selfTest
         else "findings" :=: VArr (map public_finding (report_findings r)); "matchedValuesIncluded" :=: VBool false]%js).

(** The result of the self test, when it passes. *)
Context (runSelfTest : result value).

Definition main (fuel : nat) (argv : list jstr) : result process_outcome :=
  compiled ← map_res compileRule (rules p);
  validateAllowlist contentRuleIds (allowlist p);;
  arguments ← parseArguments argv;
  selfTest ← if argument_selfTest arguments then runSelfTest else Ok VNull;
  scan ← runScan fuel compiled (argument_paths arguments);
  Ok (Process (stringify 2 0 (report_value selfTest scan) +++ [10%N]) []
        (if bool_decide (report_findings scan = []) then 0 else 1)).

End scan.
