(* ===== verification/SecretScanFacts.v ===== *)
(** The secret scan: lines are counted exactly, a buffer has one finding per
    rule and line, and a clean scan means that every match is allowlisted. *)

From S2P Require Import Prelude JsNum JsText JsValue JsOps JsonText JsPath JsPattern SecretScan.

Open Scope Z_scope.

(** ** Lines *)

(** The newlines of a text. *)
Definition newlines (text : jstr) : Z := Z.of_nat (length (List.filter (N.eqb 10) text)).

Lemma newlines_cons c t : newlines (c :: t) = (if (10 =? c)%N then 1 else 0) + newlines t.
Proof. unfold newlines. cbn [List.filter]. destruct (10 =? c)%N; cbn [length]; lia. Qed.

Lemma newlines_nonneg t : 0 ≤ newlines t.
Proof. unfold newlines. lia. Qed.

(** A start at or before [i] is one of a newline before [i]. *)
Lemma newlines_from_spec text b i j :
  (j < length (newlines_from b text))%nat →
  nth j (newlines_from b text) 0 ≤ i ↔ Z.of_nat j < newlines (take (Z.to_nat (i - b)) text).
Proof.
  revert b j. induction text as [|c t IH]; intros b j Hj; cbn [newlines_from] in *; [simpl in Hj; lia|].
  destruct (decide (b < i)) as [Hlt|Hge].
  - replace (Z.to_nat (i - b)) with (S (Z.to_nat (i - (b + 1)))) by lia. cbn [take]. rewrite newlines_cons.
    rewrite (N.eqb_sym 10 c). pose proof (newlines_nonneg (take (Z.to_nat (i - (b + 1))) t)) as Hp.
    destruct (c =? 10)%N; [|by rewrite Z.add_0_l, IH].
    destruct j as [|j]; cbn [nth length] in *; [lia|]. rewrite (IH (b + 1) j) by lia. lia.
  - replace (Z.to_nat (i - b)) with O by lia. cbn [take]. unfold newlines at 1. cbn [List.filter length].
    split; [|lia]. intros Hn. exfalso. revert Hn. destruct (c =? 10)%N.
    + destruct j as [|j]; cbn [nth length] in *; [lia|]. rewrite (IH (b + 1) j) by lia.
      replace (Z.to_nat (i - (b + 1))) with O by lia. unfold newlines. simpl. lia.
    + rewrite (IH (b + 1) j) by done. replace (Z.to_nat (i - (b + 1))) with O by lia. unfold newlines. simpl. lia.
Qed.

Lemma newlines_from_length text b : Z.of_nat (length (newlines_from b text)) = newlines text.
Proof.
  revert b. induction text as [|c t IH]; intros b; [done|]. cbn [newlines_from].
  rewrite newlines_cons, (N.eqb_sym 10 c). specialize (IH (b + 1)). destruct (c =? 10)%N; cbn [length]; lia.
Qed.

Lemma newlines_take n t : newlines (take n t) ≤ newlines t.
Proof.
  revert n. induction t as [|c t IH]; intros [|n]; cbn [take]; try done.
  { apply newlines_nonneg. }
  rewrite !newlines_cons. specialize (IH n). destruct (10 =? c)%N; lia.
Qed.

(** The search finds the number of starts at or before [i]. *)
Lemma line_search_spec fuel starts i c low high :
  (∀ j, 0 ≤ j < Z.of_nat (length starts) → nth (Z.to_nat j) starts 0 ≤ i ↔ j < c) →
  0 ≤ low ≤ c → c ≤ high ≤ Z.of_nat (length starts) → high - low ≤ Z.of_nat fuel →
  line_search fuel starts i low high = c.
Proof.
  intros Hc. revert low high. induction fuel as [|f IH]; intros low high Hl Hh Hf; cbn [line_search]; [lia|].
  destruct (Z.ltb_spec low high); [|lia].
  assert (low ≤ (low + high) / 2 < high) as Hm by (split; [apply Z.div_le_lower_bound|apply Z.div_lt_upper_bound]; lia).
  cbv zeta. set (middle := (low + high) / 2) in *. specialize (Hc middle ltac:(lia)).
  destruct (Z.leb_spec (nth (Z.to_nat middle) starts 0) i); apply IH; lia.
Qed.

(** A line is one more than the newlines before the index. *)
Lemma lineAt_spec text i : 0 ≤ i → lineAt (lineStarts text) i = 1 + newlines (take (Z.to_nat i) text).
Proof.
  intros Hi. unfold lineAt.
  rewrite (line_search_spec _ _ _ (1 + newlines (take (Z.to_nat i) text))).
  - pose proof (newlines_nonneg (take (Z.to_nat i) text)). lia.
  - intros j Hj. unfold lineStarts in *. cbn [length] in Hj.
    pose proof (newlines_nonneg (take (Z.to_nat i) text)) as Hp.
    destruct (Z.to_nat j) as [|k] eqn:E; cbn [nth]; [lia|].
    rewrite (newlines_from_spec text 0 i k) by lia. rewrite Z.sub_0_r. lia.
  - pose proof (newlines_nonneg (take (Z.to_nat i) text)). lia.
  - unfold lineStarts. cbn [length]. pose proof (newlines_from_length text 0).
    pose proof (newlines_take (Z.to_nat i) text). pose proof (newlines_nonneg (take (Z.to_nat i) text)). lia.
  - lia.
Qed.

(** ** One finding per rule and line *)

(** A unit occurs last at one place. *)
Lemma last_split (u : N) (a b c d : jstr) :
  u ∉ c → u ∉ d → a ++ u :: c = b ++ u :: d → a = b ∧ c = d.
Proof.
  revert b. induction a as [|x a IH]; intros [|y b] Hc Hd H; simplify_eq/=; [done| | |].
  - exfalso. apply Hc. apply elem_of_app. right. apply list_elem_of_here.
  - exfalso. apply Hd. apply elem_of_app. right. apply list_elem_of_here.
  - destruct (IH b Hc Hd) as [-> ->]; done.
Qed.

Lemma dec_of_Z_colon z : 0 ≤ z → 58%N ∉ dec_of_Z z.
Proof.
  intros Hz Hin. destruct (canonical_digits _ (dec_of_Z_canonical z Hz)) as [Hd _].
  rewrite Forall_forall in Hd. by apply Hd in Hin.
Qed.

Lemma unique_key_inj f g :
  0 ≤ finding_line f → 0 ≤ finding_line g → finding_path f = finding_path g →
  unique_key f = unique_key g → f = g.
Proof.
  destruct f as [r p l], g as [r' p' l']. cbn [finding_line finding_path]. intros Hl Hl' <- H.
  unfold unique_key, jcat in H. cbn [finding_rule finding_path finding_line] in H.
  change (js ":") with [58%N] in H. cbn [app] in H.
  assert ((r ++ 58%N :: p) ++ 58%N :: dec_of_Z l = (r' ++ 58%N :: p) ++ 58%N :: dec_of_Z l') as H'.
  { rewrite <- !app_assoc. exact H. }
  apply last_split in H' as [Hr Hd]; [|by apply dec_of_Z_colon..].
  apply dec_of_Z_inj in Hd as <-; [|done..]. by apply app_inv_tail in Hr as <-.
Qed.

Lemma elem_of_set_finding f l x :
  (∀ g, g ∈ l → unique_key g = unique_key f → g = f) → x ∈ set_finding f l ↔ x = f ∨ x ∈ l.
Proof.
  induction l as [|g l IH]; intros Hinj; cbn [set_finding].
  { rewrite list_elem_of_singleton, elem_of_nil. tauto. }
  destruct (unique_key g =s? unique_key f) eqn:E; rewrite !elem_of_cons.
  - apply jeq_spec in E. rewrite (Hinj g); [tauto|apply list_elem_of_here|done].
  - rewrite IH; [tauto|]. intros h Hh. apply Hinj. by apply list_elem_of_further.
Qed.

Lemma NoDup_set_finding f l :
  (∀ g, g ∈ l → unique_key g = unique_key f → g = f) → NoDup l → NoDup (set_finding f l).
Proof.
  induction l as [|g l IH]; intros Hinj Hnd; cbn [set_finding]; [apply NoDup_singleton|].
  inversion_clear Hnd as [|? ? Hg Hl]. destruct (unique_key g =s? unique_key f) eqn:E.
  - apply jeq_spec in E. rewrite <- (Hinj g); [by constructor|apply list_elem_of_here|done].
  - assert (∀ h, h ∈ l → unique_key h = unique_key f → h = f) as Hinj'.
    { intros h Hh. apply Hinj. by apply list_elem_of_further. }
    constructor; [|by apply IH]. rewrite elem_of_set_finding by done. intros [->|?]; [|done].
    by rewrite jeq_refl in E.
Qed.

(** Findings whose keys tell them apart. *)
Definition keyed (l : list finding) : Prop :=
  ∀ f g, f ∈ l → g ∈ l → unique_key f = unique_key g → f = g.

Lemma unique_spec l : keyed l → NoDup (unique l) ∧ ∀ x, x ∈ unique l ↔ x ∈ l.
Proof.
  unfold unique. rewrite <- fold_left_rev_right. intros Hk.
  assert (∀ x, x ∈ rev l ↔ x ∈ l) as Hrev by (intros x; rewrite !list_elem_of_In; symmetry; apply in_rev).
  assert (keyed (rev l)) as Hk' by (intros f g Hf%Hrev Hg%Hrev; by apply Hk).
  setoid_rewrite <- Hrev. clear Hk Hrev. induction (rev l) as [|f k IH]; cbn [fold_right].
  { split; [constructor|done]. }
  destruct IH as [Hnd Hin].
  { intros g h Hg Hh. apply Hk'; by apply list_elem_of_further. }
  assert (∀ g, g ∈ fold_right (λ f acc, set_finding f acc) [] k → unique_key g = unique_key f → g = f) as Hinj.
  { intros g Hg%Hin. apply Hk'; [by apply list_elem_of_further|apply list_elem_of_here]. }
  split; [by apply NoDup_set_finding|]. intros x. rewrite elem_of_set_finding, Hin, elem_of_cons by done. done.
Qed.

Section scan.
Context (p : policy) (toLowerCase : jstr → jstr).
Context (root cwd : jstr) (node_at : jstr → option node) (gitOutput : result jstr).

Abbreviation filePolicyFindings := (filePolicyFindings p toLowerCase).
Abbreviation scanBuffer := (scanBuffer p toLowerCase).
Abbreviation scan_file := (scan_file p toLowerCase root cwd node_at).
Abbreviation scan_files := (scan_files p toLowerCase root cwd node_at).
Abbreviation files_of := (files_of p root node_at gitOutput).
Abbreviation runScan := (runScan p toLowerCase root cwd node_at gitOutput).
Abbreviation display := (normalizedPath root cwd).

(** The rules about names, and about what cannot be scanned. *)
Definition name_rules : list jstr :=
  [js "forbidden-secret-filename"; js "forbidden-secret-extension"; js "runtime-environment-file";
   js "archive-must-scan-extracted-staging"].
Definition file_rules : list jstr :=
  name_rules ++ [js "symlink-not-scanned"; js "non-regular-file-not-scanned"; js "file-too-large-unscanned"].

Lemma elem_of_find_if b rule path f : f ∈ find_if b rule path ↔ b = true ∧ f = Finding (js rule) path 0.
Proof.
  unfold find_if. destruct b; [rewrite list_elem_of_singleton|rewrite elem_of_nil]; split;
    [done|by intros [_ ?]|done|by intros [? _]].
Qed.

Lemma policy_finding path f :
  f ∈ filePolicyFindings path → finding_path f = path ∧ finding_line f = 0 ∧ finding_rule f ∈ name_rules.
Proof.
  unfold SecretScan.filePolicyFindings. rewrite !elem_of_app, !elem_of_find_if. unfold name_rules.
  intros [[_ ->]|[[_ ->]|[[_ ->]|[_ ->]]]]; (split; [reflexivity|split; [reflexivity|]]); cbn [finding_rule].
  - apply list_elem_of_here.
  - apply list_elem_of_further, list_elem_of_here.
  - do 2 apply list_elem_of_further. apply list_elem_of_here.
  - do 3 apply list_elem_of_further. apply list_elem_of_here.
Qed.

(** A match that is no placeholder, on its line. *)
Definition flagged (compiled : list rule) (path text : jstr) (f : finding) : Prop :=
  ∃ r m, r ∈ compiled ∧ m ∈ matchAll (regex r) text ∧ isAllowedPlaceholder p (candidate r m) = false ∧
    f = Finding (rule_id r) path (1 + newlines (take (index m) text)).

Lemma elem_of_filter_bool {A} (b : A → bool) l x : x ∈ List.filter b l ↔ x ∈ l ∧ b x = true.
Proof. rewrite !list_elem_of_In. apply filter_In. Qed.

Lemma elem_of_rule_findings path text r l f :
  rule_findings p path text r = Ok l →
  f ∈ l ↔ ∃ m, m ∈ matchAll (regex r) text ∧ isAllowedPlaceholder p (candidate r m) = false ∧
    f = Finding (rule_id r) path (1 + newlines (take (index m) text)).
Proof.
  unfold rule_findings, matches_of. destruct (global (regex r)); [|done]. intros <-%Ok_inj.
  rewrite elem_of_map. setoid_rewrite elem_of_filter_bool.
  setoid_rewrite lineAt_spec; [|lia]. setoid_rewrite Nat2Z.id. setoid_rewrite negb_true_iff.
  split; [intros (m & -> & Hm & Hp)|intros (m & Hm & Hp & ->)]; by exists m.
Qed.

Lemma elem_of_found compiled path text ls f :
  map_res (rule_findings p path text) compiled = Ok ls → f ∈ concat ls ↔ flagged compiled path text f.
Proof.
  intros H%map_res_Ok. unfold flagged. induction H as [|r l compiled ls Hr _ IH]; cbn [concat].
  - rewrite elem_of_nil. split; [done|]. intros (? & ? & Hin & _). by apply elem_of_nil in Hin.
  - rewrite elem_of_app, IH, (elem_of_rule_findings _ _ _ _ _ Hr). split.
    + intros [(m & Hm)|(r' & m & Hin & Hm)].
      * exists r, m. split; [apply list_elem_of_here|done].
      * exists r', m. split; [by apply list_elem_of_further|done].
    + intros (r' & m & [->|Hin]%elem_of_cons & Hm); [left; by exists m|right; by exists r', m].
Qed.

Lemma newlines_line n t : 0 ≤ 1 + newlines (take n t).
Proof. pose proof (newlines_nonneg (take n t)). lia. Qed.

Lemma scanBuffer_spec compiled path bytes l :
  (maximumFileBytes p <? Z.of_nat (length bytes)) = false → isArchive p toLowerCase path = false →
  scanBuffer compiled path bytes = Ok l →
  NoDup l ∧ ∀ f, f ∈ l ↔ f ∈ filePolicyFindings path ∨ flagged compiled path (latin1 bytes) f.
Proof.
  intros Hsize Harch H. unfold SecretScan.scanBuffer in H. rewrite Hsize, Harch in H. take H as ls Hls.
  apply Ok_inj in H as <-. pose proof (λ f, elem_of_found _ _ _ _ f Hls) as Hfound.
  assert (∀ f, f ∈ filePolicyFindings path ++ concat ls →
    finding_path f = path ∧ 0 ≤ finding_line f) as Hshape.
  { intros f. rewrite elem_of_app, Hfound. intros [Hf|(r & m & _ & _ & _ & ->)].
    - apply policy_finding in Hf as (? & -> & _). done.
    - split; [done|apply newlines_line]. }
  destruct (unique_spec (filePolicyFindings path ++ concat ls)) as [Hnd Hin].
  { intros f g Hf Hg. apply Hshape in Hf as [? ?], Hg as [? ?]. apply unique_key_inj; congruence. }
  split; [done|]. intros f. by rewrite Hin, elem_of_app, Hfound.
Qed.

Lemma map_res_total {A B} (f : A → result B) l :
  (∀ x, x ∈ l → ∃ y, f x = Ok y) → ∃ k, map_res f l = Ok k.
Proof.
  induction l as [|x l IH]; intros H; [by exists []|]. cbn [map_res].
  destruct (H x) as [y ->]; [apply list_elem_of_here|]. destruct IH as [k ->]; [|by exists (y :: k)].
  intros z Hz. apply H. by apply list_elem_of_further.
Qed.

(** Scanning a buffer with global rules always ends with its findings: only
    those on the name of the file, with one more for a file that is too large, when
    it is too large or an archive; otherwise, each once, those on its name and one
    for every rule and line on which the rule has a match that is no placeholder, the
    line being one more than the newlines before the match. *)
Theorem buffer_findings_exact compiled path bytes :
  (∀ r, r ∈ compiled → global (regex r) = true) →
  ∃ l, scanBuffer compiled path bytes = Ok l ∧
    if maximumFileBytes p <? Z.of_nat (length bytes)
    then l = filePolicyFindings path ++ [Finding (js "file-too-large-unscanned") path 0]
    else if isArchive p toLowerCase path then l = filePolicyFindings path
    else NoDup l ∧ ∀ f, f ∈ l ↔ f ∈ filePolicyFindings path ∨ flagged compiled path (latin1 bytes) f.
Proof.
  intros Hg. pose proof (scanBuffer_spec compiled path bytes) as Hspec. unfold SecretScan.scanBuffer in *.
  destruct (maximumFileBytes p <? _); [by eexists|]. destruct (isArchive p toLowerCase path); [by eexists|].
  destruct (map_res_total (rule_findings p path (latin1 bytes)) compiled) as [ls Hls].
  { intros r Hr. unfold rule_findings, matches_of. rewrite Hg by done. by eexists. }
  rewrite Hls in *. cbn [mbind result_bind] in *. eexists. split; [done|]. by apply Hspec.
Qed.

(** ** The allowlist *)

Lemma fold_res_each {A S} (f : S → A → result S) s l s' x :
  fold_res f s l = Ok s' → x ∈ l → ∃ s1 s2, f s1 x = Ok s2.
Proof.
  revert s. induction l as [|y l IH]; intros s H Hx; [by apply elem_of_nil in Hx|]. cbn [fold_res] in H.
  take H as s1 H1. apply elem_of_cons in Hx as [->|Hx]; [by exists s, s1|by eapply IH].
Qed.

(** What validation says of an entry. *)
Lemma validated_entry allowlist entry :
  validateAllowlist (contentRuleIds p) allowlist = Ok () → entry ∈ v_list (field allowlist (js "entries")) →
  (∃ path, field entry (js "path") = VStr path) ∧
  ∀ expected, expected ∈ v_list (field entry (js "findings")) →
    ∃ r, field expected (js "rule") = VStr r ∧ r ∈ contentRuleIds p.
Proof.
  intros H Hin. unfold validateAllowlist in H. passed H as Ht. take H as cs Hcs. passed H as Hc1. passed H as Hc2. passed H as Hc3.
  passed H as Hc4. passed H as Hc5.
  take H as es Hes. apply get_Ok in Hes as [_ ->]. take H as l Hl. take H as seen Hf.
  destruct (field allowlist (js "entries")) eqn:E; try done. apply Ok_inj in Hl as ->. cbn [v_list] in Hin.
  destruct (fold_res_each _ _ _ _ _ Hf Hin) as (s1 & s2 & He). unfold validateEntry in He.
  take He as path Hp. apply get_Ok in Hp as [_ ->]. passed He as Hpath. passed He as Hd. take He as reason Hr.
  passed He as Hr'. take He as oi Ho. passed He as Hoi. take He as fs Hfs. apply get_Ok in Hfs as [_ ->].
  take He as k Hk. passed He as Hne. passed He as Hall. split.
  - destruct (field entry (js "path")); try done. by eexists.
  - intros expected Hex. destruct (field entry (js "findings")); try done. apply Ok_inj in Hk as ->. cbn [v_list] in Hex.
    rewrite Forall_forall in Hall. specialize (Hall _ Hex). unfold validateExpected in Hall.
    take Hall as r Hrr. apply get_Ok in Hrr as [_ ->]. passed Hall as Hrule. inv_bool.
    destruct (field expected (js "rule")); try done. eexists. split; [done|]. by apply jmem_spec.
Qed.

(** The keys suppressed are those of findings that an entry expects, in the
    number it expects. *)
Definition suppressed (allowlist : value) (findings : list finding) (k : jstr) : Prop :=
  ∃ entry expected g, entry ∈ v_list (field allowlist (js "entries")) ∧
    expected ∈ v_list (field entry (js "findings")) ∧ g ∈ findings ∧ k = line_key g ∧
    let key := group_key (to_string (field entry (js "path"))) (to_string (field expected (js "rule"))) in
    group_key (finding_path g) (finding_rule g) = key ∧
    strict_eq (VNum (NInt (Z.of_nat (length (matched_by findings key))))) (field expected (js "count")) = true.

Lemma fold_left_invariant {A S} (I : S → Prop) (f : S → A → S) l s :
  I s → (∀ s x, x ∈ l → I s → I (f s x)) → I (fold_left f l s).
Proof.
  revert s. induction l as [|x l IH]; intros s H0 Hs; [done|]. cbn [fold_left]. apply IH.
  - apply Hs; [apply list_elem_of_here|done].
  - intros s' y Hy. apply Hs. by apply list_elem_of_further.
Qed.

Lemma suppressed_keys allowlist findings displayed k :
  k ∈ suppressedKeys (fold_left (apply_entry findings displayed) (v_list (field allowlist (js "entries"))) (Applied [] [] 0)) →
  suppressed allowlist findings k.
Proof.
  revert k. apply (fold_left_invariant (λ a, ∀ k, k ∈ suppressedKeys a → suppressed allowlist findings k)).
  { intros k Hk. by apply elem_of_nil in Hk. }
  intros a entry Hentry Ha. unfold apply_entry. destruct (jmem _ displayed); [|done].
  apply (fold_left_invariant (λ a, ∀ k, k ∈ suppressedKeys a → suppressed allowlist findings k)); [done|].
  intros b expected Hex Hb k. unfold apply_expected. destruct (strict_eq _ _) eqn:E; cbn [suppressedKeys]; [|by apply Hb].
  intros [Hk|Hk]%elem_of_app; [by apply Hb|]. apply elem_of_map in Hk as (g & -> & Hg).
  unfold matched_by in Hg. apply elem_of_filter_bool in Hg as [Hg Hkey%jeq_spec].
  exists entry, expected, g. by repeat split.
Qed.

(** Rule ids that the keys tell apart, and that are no file rules. *)
Definition plain_rules : bool :=
  forallb (λ id, negb (existsb (N.eqb 58) id) && negb (existsb (N.eqb 0) id) && negb (jmem id file_rules))
    (contentRuleIds p).

Definition plain (id : jstr) : Prop := 58%N ∉ id ∧ 0%N ∉ id.

Lemma existsb_elem u (l : jstr) : existsb (N.eqb u) l = false → u ∉ l.
Proof. intros H Hin%list_elem_of_In. apply not_true_iff_false in H. apply H, existsb_exists. exists u. split; [done|apply N.eqb_refl]. Qed.

Lemma plain_rules_spec id : plain_rules = true → id ∈ contentRuleIds p → plain id ∧ id ∉ file_rules.
Proof.
  unfold plain_rules. rewrite forallb_forall. intros H Hin%list_elem_of_In. apply H in Hin. inv_bool.
  split; [split; by apply existsb_elem|by apply jmem_false].
Qed.

Lemma file_rules_plain id : id ∈ file_rules → plain id.
Proof.
  intros Hin. assert (forallb (λ id, negb (existsb (N.eqb 58) id) && negb (existsb (N.eqb 0) id)) file_rules = true) as H
    by by vm_compute.
  rewrite forallb_forall in H. apply list_elem_of_In, H in Hin. inv_bool. split; by apply existsb_elem.
Qed.

(** Findings of the scan: of a known rule, on a line that is not negative. *)
Definition sound_finding (f : finding) : Prop :=
  0 ≤ finding_line f ∧ (finding_rule f ∈ contentRuleIds p ∨ finding_rule f ∈ file_rules).

Lemma sound_plain f : plain_rules = true → sound_finding f → plain (finding_rule f).
Proof. intros Hp [_ [H|H]]; [by apply plain_rules_spec|by apply file_rules_plain]. Qed.

Lemma line_key_inj f g :
  plain_rules = true → sound_finding f → sound_finding g → line_key f = line_key g → f = g.
Proof.
  intros Hp Hf Hg H. destruct (sound_plain f Hp Hf) as [Rf _], (sound_plain g Hp Hg) as [Rg _].
  destruct Hf as [Lf _], Hg as [Lg _]. destruct f as [r pa l], g as [r' pa' l'].
  unfold line_key, jcat in H. cbn [finding_rule finding_path finding_line] in *.
  change (js ":") with [58%N] in H. cbn [app] in H.
  assert ((pa ++ 58%N :: r) ++ 58%N :: dec_of_Z l = (pa' ++ 58%N :: r') ++ 58%N :: dec_of_Z l') as H'.
  { rewrite <- !app_assoc. exact H. }
  apply last_split in H' as [Hr Hd]; [|by apply dec_of_Z_colon..].
  apply dec_of_Z_inj in Hd as <-; [|done..]. by apply last_split in Hr as [-> ->].
Qed.

Lemma group_key_inj pa r pa' r' : plain r → plain r' → group_key pa r = group_key pa' r' → pa = pa' ∧ r = r'.
Proof.
  intros [_ H] [_ H'] E. unfold group_key, jcat in E. cbn [app] in E.
  by apply last_split in E.
Qed.

(** The findings of a path and a rule. *)
Definition of_kind (findings : list finding) (path rule : jstr) : list finding :=
  List.filter (λ f, (finding_path f =s? path) && (finding_rule f =s? rule)) findings.

(** The allowlist has the path with the rule and the number of its findings. *)
Definition allowed (allowlist : value) (findings : list finding) (path rule : jstr) : Prop :=
  ∃ entry expected, entry ∈ v_list (field allowlist (js "entries")) ∧
    expected ∈ v_list (field entry (js "findings")) ∧
    field entry (js "path") = VStr path ∧ field expected (js "rule") = VStr rule ∧
    strict_eq (VNum (NInt (Z.of_nat (length (of_kind findings path rule))))) (field expected (js "count")) = true.

Lemma matched_by_kind findings path rule :
  plain_rules = true → Forall sound_finding findings → plain rule →
  matched_by findings (group_key path rule) = of_kind findings path rule.
Proof.
  intros Hp Hs Hr. unfold matched_by, of_kind. induction Hs as [|f l Hf _ IH]; [done|]. cbn [List.filter]. rewrite IH.
  replace (group_key (finding_path f) (finding_rule f) =s? group_key path rule)
    with ((finding_path f =s? path) && (finding_rule f =s? rule)); [done|].
  apply eq_true_iff_eq. rewrite andb_true_iff, !jeq_spec. split; [by intros [-> ->]|].
  intros H. apply group_key_inj in H; [done|by apply sound_plain|done].
Qed.

(** Nothing is left to report only if everything found is allowed. *)
Lemma clean_allowed allowlist findings displayed n f :
  plain_rules = true → Forall sound_finding findings →
  validateAllowlist (contentRuleIds p) allowlist = Ok () →
  applyAllowlist findings displayed allowlist = ([], n) → f ∈ findings →
  finding_rule f ∈ contentRuleIds p ∧ allowed allowlist findings (finding_path f) (finding_rule f).
Proof.
  intros Hp Hs Hv H Hin. unfold applyAllowlist in H. apply (f_equal fst) in H. cbn [fst] in H.
  apply app_eq_nil in H as [_ H].
  assert (line_key f ∈ suppressedKeys (fold_left (apply_entry findings displayed)
    (v_list (field allowlist (js "entries"))) (Applied [] [] 0))) as Hk.
  { apply jmem_spec. destruct (jmem (line_key f) _) eqn:E; [done|]. exfalso.
    assert (f ∈ @nil finding) as Hf by (rewrite <- H; apply elem_of_filter_bool; by rewrite E).
    by apply elem_of_nil in Hf. }
  rewrite Forall_forall in Hs. pose proof (Hs f Hin) as Hsf.
  apply suppressed_keys in Hk as (entry & expected & g & Hentry & Hex & Hg & Hkey & Hgroup & Hcount).
  apply line_key_inj in Hkey; [|done|done|by apply Hs]. subst g.
  destruct (validated_entry _ _ Hv Hentry) as ((path & Hpath) & Hrules).
  destruct (Hrules _ Hex) as (r & Hr & Hrid). rewrite Hpath, Hr in *. cbn [to_string] in *.
  apply group_key_inj in Hgroup as [<- <-]; [|by apply sound_plain|by apply plain_rules_spec].
  split; [done|]. exists entry, expected. repeat (split; [done|]).
  rewrite matched_by_kind in Hcount; [done|done|by rewrite Forall_forall|by apply sound_plain].
Qed.

(** ** What a scan finds *)

Lemma compiled_ids compiled r :
  map_res compileRule (rules p) = Ok compiled → r ∈ compiled → rule_id r ∈ contentRuleIds p.
Proof.
  intros H%map_res_Ok Hr. unfold contentRuleIds. induction H as [|s r' rs l Hs _ IH]; [by apply elem_of_nil in Hr|].
  cbn [map]. apply elem_of_cons in Hr as [->|Hr]; apply elem_of_cons; [left|right; by apply IH].
  unfold compileRule in Hs. take Hs as e He. by apply Ok_inj in Hs as <-.
Qed.

Lemma file_rule_here (rule : jstr) path : rule ∈ file_rules → sound_finding (Finding rule path 0).
Proof. intros H. split; [done|by right]. Qed.

Lemma policy_sound path f : f ∈ filePolicyFindings path → sound_finding f.
Proof.
  intros (_ & Hl & Hr)%policy_finding. split; [by rewrite Hl|right]. unfold file_rules. apply elem_of_app. by left.
Qed.

Lemma unscanned_rules :
  js "symlink-not-scanned" ∈ file_rules ∧ js "non-regular-file-not-scanned" ∈ file_rules ∧
  js "file-too-large-unscanned" ∈ file_rules.
Proof. rewrite <- !jmem_spec. by vm_compute. Qed.

Lemma archive_found path : isArchive p toLowerCase path = true → ∃ f, f ∈ filePolicyFindings path ∧ finding_rule f ∈ file_rules.
Proof.
  intros H. exists (Finding (js "archive-must-scan-extracted-staging") path 0). split.
  - unfold SecretScan.filePolicyFindings. rewrite !elem_of_app, !elem_of_find_if. by do 3 right.
  - rewrite <- jmem_spec. by vm_compute.
Qed.

(** What scanning one file adds; a displayed path has the extension of the path. *)
Lemma scan_file_spec compiled s path s' :
  map_res compileRule (rules p) = Ok compiled → scan_file compiled s path = Ok s' →
  ∃ k, scan_findings s' = scan_findings s ++ k ∧ Forall sound_finding k ∧
    ((∃ f, f ∈ k ∧ finding_rule f ∈ file_rules) ∨
     ∃ bytes, node_at path = Some (File bytes) ∧ Z.of_nat (length bytes) ≤ maximumFileBytes p ∧
       filePolicyFindings (display path) = [] ∧
       (isArchive p toLowerCase path = isArchive p toLowerCase (display path) →
        isArchive p toLowerCase path = false ∧
        ∀ f, flagged compiled (display path) (latin1 bytes) f → f ∈ k)).
Proof.
  intros Hc H. unfold SecretScan.scan_file in H. destruct unscanned_rules as (U1 & U2 & U3).
  assert (∀ rule d k, rule ∈ file_rules → Forall sound_finding k →
    Forall sound_finding (k ++ [Finding rule d 0]) ∧ ∃ f, f ∈ k ++ [Finding rule d 0] ∧ finding_rule f ∈ file_rules) as Hone.
  { intros rule d k Hr Hk. split.
    - apply Forall_app. split; [done|]. apply list.Forall_singleton. by apply file_rule_here.
    - exists (Finding rule d 0). split; [|done]. apply elem_of_app. right. apply list_elem_of_here. }
  assert (Forall sound_finding (filePolicyFindings (display path))) as Hpol.
  { apply Forall_forall. intros f. apply policy_sound. }
  destruct (node_at path) as [[bytes|names| |]|] eqn:En; [|..|done].
  2:{ apply Ok_inj in H as <-. eexists. split; [reflexivity|]. destruct (Hone _ path [] U2); [done|]. by split; [|left]. }
  2:{ apply Ok_inj in H as <-. eexists. split; [reflexivity|]. destruct (Hone _ path [] U1); [done|]. by split; [|left]. }
  2:{ apply Ok_inj in H as <-. eexists. split; [reflexivity|]. destruct (Hone _ path [] U2); [done|]. by split; [|left]. }
  assert ((∃ f, f ∈ filePolicyFindings (display path) ∧ finding_rule f ∈ file_rules) ∨
    filePolicyFindings (display path) = []) as Hcase.
  { destruct (filePolicyFindings (display path)) as [|f l] eqn:E; [by right|left]. exists f.
    split; [apply list_elem_of_here|]. unfold file_rules. apply elem_of_app. left.
    apply (policy_finding (display path)). rewrite E. apply list_elem_of_here. }
  cbv zeta in H. destruct (maximumFileBytes p <? Z.of_nat (length bytes)) eqn:Es.
  { apply Ok_inj in H as <-. eexists. split; [unfold with_findings; cbn [scan_findings displayed]; by rewrite <- app_assoc|].
    destruct (Hone _ (display path) _ U3 Hpol). by split; [|left]. }
  assert (Z.of_nat (length bytes) ≤ maximumFileBytes p) as Hle by by apply Z.ltb_ge in Es.
  destruct (isArchive p toLowerCase path) eqn:Ea.
  { apply Ok_inj in H as <-. eexists. split; [reflexivity|]. split; [done|].
    destruct (isArchive p toLowerCase (display path)) eqn:Ed.
    - left. by apply archive_found.
    - destruct Hcase as [?|?]; [by left|right]. by exists bytes. }
  take H as found Hf. apply Ok_inj in H as <-. eexists. split; [reflexivity|].
  assert (isArchive p toLowerCase (display path) = true ∨ isArchive p toLowerCase (display path) = false) as [Ed|Ed]
    by (destruct (isArchive p toLowerCase (display path)); auto).
  - unfold SecretScan.scanBuffer in Hf. rewrite Es, Ed in Hf. apply Ok_inj in Hf as <-. split; [done|]. left.
    by apply archive_found.
  - destruct (scanBuffer_spec _ _ _ _ Es Ed Hf) as [_ Hin]. split.
    + apply Forall_forall. intros f [Hf1|(r & m & Hr & _ & _ & ->)]%Hin; [by eapply policy_sound|].
      split; [apply newlines_line|left]. by eapply compiled_ids.
    + destruct Hcase as [(f & Hf1 & Hf2)|Hnil]; [left; exists f; split; [apply Hin; by left|done]|right].
      exists bytes. do 3 (split; [done|]). intros _. split; [done|]. intros f Hfl. apply Hin. by right.
Qed.

(** What a scanned path leaves among the findings. *)
Definition accounted (compiled : list rule) (findings : list finding) (path : jstr) : Prop :=
  (∃ f, f ∈ findings ∧ finding_rule f ∈ file_rules) ∨
  ∃ bytes, node_at path = Some (File bytes) ∧ Z.of_nat (length bytes) ≤ maximumFileBytes p ∧
    filePolicyFindings (display path) = [] ∧
    (isArchive p toLowerCase path = isArchive p toLowerCase (display path) →
     isArchive p toLowerCase path = false ∧
     ∀ f, flagged compiled (display path) (latin1 bytes) f → f ∈ findings).

Lemma accounted_more compiled findings findings' path :
  (∀ f, f ∈ findings → f ∈ findings') → accounted compiled findings path → accounted compiled findings' path.
Proof.
  intros Hsub [(f & Hf & Hr)|(bytes & Hn & Hle & Hpol & Harch)].
  - left. exists f. split; [by apply Hsub|done].
  - right. exists bytes. do 3 (split; [done|]). intros He. destruct (Harch He) as [Ha Hin]. split; [done|].
    intros f Hf. by apply Hsub, Hin.
Qed.

Lemma scan_loop_spec compiled l s0 s :
  map_res compileRule (rules p) = Ok compiled → Forall sound_finding (scan_findings s0) →
  fold_res (scan_file compiled) s0 l = Ok s →
  Forall sound_finding (scan_findings s) ∧ (∀ f, f ∈ scan_findings s0 → f ∈ scan_findings s) ∧
  ∀ path, path ∈ l → accounted compiled (scan_findings s) path.
Proof.
  intros Hc. revert s0. induction l as [|path l IH]; intros s0 Hs H; cbn [fold_res] in H.
  { apply Ok_inj in H as <-. split; [done|]. split; [done|]. intros path Hp. by apply elem_of_nil in Hp. }
  take H as s1 H1. destruct (scan_file_spec _ _ _ _ Hc H1) as (k & Hk & Hks & Hcase).
  destruct (IH s1 ltac:(by rewrite Hk, Forall_app) H) as (Hall & Hsub & Hpaths).
  rewrite Hk in Hsub. split; [done|]. split.
  { intros f Hf. apply Hsub. apply elem_of_app. by left. }
  intros q [->|Hq]%elem_of_cons; [|by apply Hpaths]. apply (accounted_more _ k); [|exact Hcase].
  intros f Hf. apply Hsub, elem_of_app. by right.
Qed.

Lemma scan_files_spec compiled files found s :
  map_res compileRule (rules p) = Ok compiled → Forall sound_finding found →
  scan_files compiled files found = Ok s →
  Forall sound_finding (scan_findings s) ∧
  ∀ path, path ∈ files → accounted compiled (scan_findings s) path.
Proof.
  intros Hc Hf H. apply scan_loop_spec in H as (Hs & _ & Hpaths); [|done|done]. split; [done|].
  intros path Hp. apply Hpaths. by rewrite (sort_strings_perm files).
Qed.

(** What is found on the way to the files. *)
Lemma collect_sound fuel acc path acc' :
  Forall sound_finding (snd acc) → collectExplicitPath p node_at fuel acc path = Ok acc' →
  Forall sound_finding (snd acc').
Proof.
  revert acc path acc'. induction fuel as [|n IH]; [done|]. intros [files findings] path acc' Hs H.
  cbn [collectExplicitPath] in H. destruct (node_at path) as [[bytes|names| |]|]; [|..|done].
  - by apply Ok_inj in H as <-.
  - destruct (jmem _ _); [by apply Ok_inj in H as <-|]. revert H. apply (fold_res_invariant (λ _ acc, Forall sound_finding (snd acc))).
    + done.
    + intros _ x s s' Hs1. by apply IH.
  - apply Ok_inj in H as <-. cbn [snd] in *. apply Forall_app. split; [done|]. apply list.Forall_singleton.
    apply file_rule_here, unscanned_rules.
  - by apply Ok_inj in H as <-.
Qed.

Lemma files_of_sound fuel paths files found :
  files_of fuel paths = Ok (files, found) → Forall sound_finding found.
Proof.
  unfold SecretScan.files_of. destruct paths as [|q qs]; intros H.
  - take H as tracked Ht. apply Ok_inj in H. by injection H as _ <-.
  - change found with (snd (files, found)). revert H.
    apply (fold_res_invariant (λ _ acc, Forall sound_finding (snd acc))); [done|].
    intros _ x s s' Hs1. by apply collect_sound.
Qed.

(** C14. A scan that leaves nothing to report has looked at every file in scope:
    each is a regular file within the size limit whose displayed name breaks no rule
    on names, and unless its display hides the extension, it is no archive and every
    match of a rule in it that is no placeholder is on a path and rule that the
    allowlist names with exactly the number of findings there.  No finding about a
    file itself is ever suppressed. *)
Theorem clean_scan_complete fuel compiled paths report :
  plain_rules = true → map_res compileRule (rules p) = Ok compiled →
  validateAllowlist (contentRuleIds p) (allowlist p) = Ok () →
  runScan fuel compiled paths = Ok report → report_findings report = [] →
  ∃ files found s, files_of fuel paths = Ok (files, found) ∧ scan_files compiled files found = Ok s ∧
    (∀ f, f ∈ scan_findings s → finding_rule f ∉ file_rules) ∧
    ∀ path, path ∈ files →
      ∃ bytes, node_at path = Some (File bytes) ∧ Z.of_nat (length bytes) ≤ maximumFileBytes p ∧
        filePolicyFindings (display path) = [] ∧
        (isArchive p toLowerCase path = isArchive p toLowerCase (display path) →
         isArchive p toLowerCase path = false ∧
         ∀ f, flagged compiled (display path) (latin1 bytes) f →
           allowed (allowlist p) (scan_findings s) (display path) (finding_rule f)).
Proof.
  intros Hp Hc Hv H Hclean. unfold SecretScan.runScan in H. apply bind_Ok in H as ([files found] & Hfiles & H).
  take H as s Hs. destruct (applyAllowlist _ _ _) as [violations n] eqn:Ea. apply Ok_inj in H as <-.
  cbn [report_findings] in Hclean. subst violations.
  destruct (scan_files_spec _ _ _ _ Hc (files_of_sound _ _ _ _ Hfiles) Hs) as (Hsound & Hpaths).
  assert (∀ f, f ∈ scan_findings s → finding_rule f ∉ file_rules) as Hno.
  { intros f Hf. apply plain_rules_spec; [done|]. by eapply clean_allowed. }
  exists files, found, s. do 3 (split; [done|]). intros path Hpath.
  destruct (Hpaths path Hpath) as [(f & Hf & Hr)|(bytes & Hn & Hle & Hpol & Harch)].
  { exfalso. by apply (Hno f). }
  exists bytes. do 3 (split; [done|]). intros He. destruct (Harch He) as [Ha Hin]. split; [done|].
  intros f Hf. pose proof (Hin f Hf) as Hfs. destruct (clean_allowed _ _ _ _ _ Hp Hsound Hv Ea Hfs) as [_ Hal].
  destruct Hf as (r & m & _ & _ & _ & ->). exact Hal.
Qed.

(** Walking a finite tree of directories does not run out of fuel. *)
Lemma collect_total (height : jstr → nat) fuel acc path :
  (∀ q names n, node_at q = Some (Directory names) → n ∈ names → (height (path_resolve q n) < height q)%nat) →
  (height path < fuel)%nat → collectExplicitPath p node_at fuel acc path ≠ Throw too_deep.
Proof.
  intros Hh. revert acc path. induction fuel as [|f IH]; [lia|]. intros [files findings] path Hlt.
  cbn [collectExplicitPath]. destruct (node_at path) as [[bytes|names| |]|] eqn:En; try done.
  destruct (jmem _ _); [done|]. generalize (files, findings) as acc.
  assert (∀ n, n ∈ sort_strings names → (height (path_resolve path n) < f)%nat) as Hn.
  { intros n Hin. rewrite sort_strings_perm in Hin. pose proof (Hh _ _ _ En Hin). lia. }
  clear En. induction (sort_strings names) as [|n l IHl]; intros acc; [done|]. cbn [fold_res].
  destruct (collectExplicitPath p node_at f acc (path_resolve path n)) as [acc'|e] eqn:E.
  - apply IHl. intros m Hm. apply Hn. by apply list_elem_of_further.
  - cbn [mbind result_bind]. rewrite <- E. apply IH, Hn, list_elem_of_here.
Qed.

End scan.

(** ** A small repository *)

Module Samples.

(** The github-token rule of the policy. *)
Definition token_rule : rule_source :=
  RuleSource (js "github-token") (js "gh[pousr]_[A-Za-z0-9_]{20,}") (js "g") 0.

Definition sample_allowlist : value := VObj [
  "constraints" :=: VObj ["exactCountRequired" :=: VBool true; "staleEntriesFail" :=: VBool true;
    "contentRulesOnly" :=: VBool true; "wildcardsAllowed" :=: VBool false; "justificationRequired" :=: VBool true];
  "entries" :=: VArr [VObj ["path" :=: vs "f.txt"; "reason" :=: VStr (repeat 120%N 40); "ownerIssue" :=: vi 1;
    "findings" :=: VArr [VObj ["rule" :=: vs "github-token"; "count" :=: vi 1]]]]]%js.

Definition sample_policy : policy :=
  Policy [token_rule] 1000 [] [js "node_key.json"] [js ".pem"] true [js ".env.example"] [js ".zip"]
    [js "<redacted>"] sample_allowlist.

Definition token (c : N) : list Z := map Z.of_N (js "ghp_") ++ repeat (Z.of_N c) 20.

Definition tree (bytes : list Z) (path : jstr) : option node :=
  if path =s? js "/r" then Some (Directory [js "f.txt"])
  else if path =s? js "/r/f.txt" then Some (File bytes) else None.

Definition sample_scan (bytes : list Z) : result scan_report :=
  match map_res compileRule (rules sample_policy) with
  | Ok compiled => runScan sample_policy to_lower (js "/r") (js "/r") (tree bytes) (Ok []) 2 compiled [js "/r"]
  | Throw e => Throw e
  end.

(** What a run over the directory prints as its exit code. *)
Definition exit_code (bytes : list Z) : option Z :=
  match main sample_policy to_lower (js "/r") (js "/r") (tree bytes) (Ok []) (Ok VNull) 2 [js "--path"; js "/r"] with
  | Ok o => Some (exitCode o)
  | Throw _ => None
  end.

(** The allowlist counts lines, not secrets: with one token allowed in a file,
    a file with that token is clean, a file with another token next to it on the same
    line is clean too, and only a token on another line is reported. *)
Theorem second_secret_on_line_passes :
  exit_code (token 97) = Some 0 ∧ exit_code (token 97 ++ [32] ++ token 98) = Some 0 ∧
  exit_code (token 97 ++ [10] ++ token 98) = Some 1.
Proof. vm_compute. done. Qed.

Definition compiled_sample : list rule :=
  match map_res compileRule (rules sample_policy) with Ok l => l | Throw _ => [] end.

Definition report_of (bytes : list Z) : scan_report :=
  match sample_scan bytes with Ok r => r | Throw _ => ScanReport 0 0 0 [] 0 end.

Lemma sample_scan_clean :
  map_res compileRule (rules sample_policy) = Ok compiled_sample ∧
  validateAllowlist (contentRuleIds sample_policy) (allowlist sample_policy) = Ok () ∧
  runScan sample_policy to_lower (js "/r") (js "/r") (tree (token 97)) (Ok []) 2 compiled_sample [js "/r"]
    = Ok (report_of (token 97)) ∧
  report_findings (report_of (token 97)) = [] ∧ plain_rules sample_policy = true ∧
  allowlistedFindings (report_of (token 97)) = 1.
Proof. vm_compute. done. Qed.

Lemma clean_scan_complete_witness :
  ∃ files found s,
    files_of sample_policy (js "/r") (tree (token 97)) (Ok []) 2 [js "/r"] = Ok (files, found) ∧
    scan_files sample_policy to_lower (js "/r") (js "/r") (tree (token 97)) compiled_sample files found = Ok s.
Proof.
  destruct sample_scan_clean as (Hc & Hv & Hr & Hf & Hp & _).
  destruct (clean_scan_complete sample_policy to_lower (js "/r") (js "/r") (tree (token 97)) (Ok []) 2
    compiled_sample [js "/r"] (report_of (token 97)) Hp Hc Hv Hr Hf) as (files & found & s & Hfiles & Hs & _).
  exists files, found, s. split; [exact Hfiles|exact Hs].
Defined.

Lemma buffer_findings_exact_witness :
  ∃ l, scanBuffer sample_policy to_lower compiled_sample (js "f.txt") (token 97) = Ok l.
Proof.
  destruct (buffer_findings_exact sample_policy to_lower compiled_sample (js "f.txt") (token 97)) as (l & Hl & _).
  - intros r Hr. assert (forallb (λ r, global (regex r)) compiled_sample = true) as H by by vm_compute.
    rewrite forallb_forall in H. apply H. by apply list_elem_of_In.
  - exists l. exact Hl.
Defined.

End Samples.
