(* ===== verification/JsFixed.v ===== *)
(** More of the Number operators: subtraction, product, quotient, [Math.ceil] and
    [toFixed], on the doubles of [JsNum]. *)

From Stdlib Require Import QArith Qround.
From S2P Require Import Prelude JsNum JsText.

Open Scope Z_scope.

Definition num_neg (a : num) : num :=
  match a with
  | NaN => NaN
  | Infinity s => Infinity (negb s)
  | NegZero => NInt 0
  | Fin q => if Qnum q =? 0 then NegZero else Fin (Qopp q)
  end.

Definition num_sub (a b : num) : num := num_add a (num_neg b).

(** The sign bit, and the value of a finite number. *)
Definition is_negative (a : num) : bool :=
  match a with NaN => false | Infinity s => s | NegZero => true | Fin q => Qnum q <? 0 end.
Definition num_q (a : num) : Q := match a with Fin q => q | _ => 0%Q end.
Definition is_zero (a : num) : bool :=
  match a with NegZero => true | Fin q => Qnum q =? 0 | _ => false end.
Definition zero_of (negative : bool) : num := if negative then NegZero else NInt 0.

Definition num_mul (a b : num) : num :=
  let s := xorb (is_negative a) (is_negative b) in
  match a, b with
  | NaN, _ | _, NaN => NaN
  | Infinity _, x | x, Infinity _ => if is_zero x then NaN else Infinity s
  | _, _ => if is_zero a || is_zero b then zero_of s else num_of_Q (num_q a * num_q b)
  end.

Definition num_div (a b : num) : num :=
  let s := xorb (is_negative a) (is_negative b) in
  match a, b with
  | NaN, _ | _, NaN => NaN
  | Infinity _, Infinity _ => NaN
  | Infinity _, _ => Infinity s
  | _, Infinity _ => zero_of s
  | _, _ =>
      if is_zero b then (if is_zero a then NaN else Infinity s)
      else if is_zero a then zero_of s
      else num_of_Q (num_q a / num_q b)
  end.

(** [Math.ceil]. *)
Definition num_ceil (a : num) : num :=
  match a with
  | Fin q => let c := Qceiling q in if (c =? 0) && (Qnum q <? 0) then NegZero else num_of_Q (c # 1)
  | _ => a
  end.

(** The integer nearest to [q * 10 ^ digits], the larger of two. *)
Definition fixed_digits (digits : nat) (q : Q) : Z := Qfloor (q * (10 ^ Z.of_nat digits # 1) + (1 # 2)).

(** [x.toFixed(digits)] for [digits > 0]. *)
Definition to_fixed (digits : nat) (a : num) : jstr :=
  let negative := match a with Fin q => Qnum q <? 0 | _ => false end in
  let m := if negative then Qopp (num_q a) else num_q a in
  match a with
  | NaN | Infinity _ => num_to_string a
  | _ =>
      if 10 ^ 21 * Zpos (Qden m) <=? Qnum m then num_to_string a
      else
        let n := fixed_digits digits m in
        let s := dec_of_Z n in
        let s := repeat 48%N (S digits - length s) ++ s in
        (if negative then js "-" else []) +++ take (length s - digits) s +++ js "." +++ drop (length s - digits) s
  end.

(** ** Rounding is monotone

    Rounding is monotone: so are the conversion of a rational to a double, the
    operators built on it, and [Number(x.toFixed(6))]. *)

(** ** Exponents *)

Lemma pow_shift a b x k :
  0 ≤ k → 0 ≤ x + k → a * 2 ^ Z.max 0 x ≤ b * 2 ^ Z.max 0 (- x) ↔ a * 2 ^ (x + k) ≤ b * 2 ^ k.
Proof.
  intros Hk Hx. set (t := k - Z.max 0 (- x)).
  assert (2 ^ (x + k) = 2 ^ Z.max 0 x * 2 ^ t) as -> by (rewrite <- Z.pow_add_r by lia; f_equal; lia).
  assert (2 ^ k = 2 ^ Z.max 0 (- x) * 2 ^ t) as -> by (rewrite <- Z.pow_add_r by lia; f_equal; lia).
  rewrite !Z.mul_assoc. apply Z.mul_le_mono_pos_r. apply Z.pow_pos_nonneg; lia.
Qed.

Lemma ratio_log2_bounds n d k :
  0 < n → 0 < d → 0 ≤ k → 0 ≤ ratio_log2 n d + k →
  d * 2 ^ (ratio_log2 n d + k) ≤ n * 2 ^ k < d * 2 ^ (ratio_log2 n d + 1 + k).
Proof.
  intros Hn Hd Hk He. split; [apply pow_shift; [done|done|by apply ratio_log2_lower]|].
  unfold ratio_log2 in *. set (e := Z.log2 n - Z.log2 d) in *. destruct (_ <? _) eqn:E in He |- *.
  - apply Z.ltb_lt in E. replace (e - 1 + 1 + k) with (e + k) by lia.
    apply Z.lt_nge. intros H. apply (pow_shift d n e k) in H; lia.
  - pose proof (Z.log2_spec n Hn) as [_ Hn2]. pose proof (Z.log2_spec d Hd) as [Hd1 _].
    pose proof (Z.log2_nonneg n). pose proof (Z.log2_nonneg d).
    apply Z.lt_le_trans with (2 ^ Z.succ (Z.log2 n) * 2 ^ k).
    + apply Z.mul_lt_mono_pos_r; [apply Z.pow_pos_nonneg; lia|done].
    + transitivity (2 ^ Z.log2 d * 2 ^ (e + 1 + k)).
      * rewrite <- !Z.pow_add_r by lia. apply Z.pow_le_mono_r; lia.
      * apply Z.mul_le_mono_nonneg_r; [lia|done].
Qed.

(** The exponent grows with the ratio. *)
Lemma ratio_log2_mono n1 d1 n2 d2 :
  0 < n1 → 0 < d1 → 0 < d2 → n1 * d2 ≤ n2 * d1 → ratio_log2 n1 d1 ≤ ratio_log2 n2 d2.
Proof.
  intros Hn1 Hd1 Hd2 H. assert (0 < n2) as Hn2 by nia.
  set (k := Z.max 0 (- Z.min (ratio_log2 n1 d1) (ratio_log2 n2 d2))).
  pose proof (ratio_log2_bounds n1 d1 k Hn1 Hd1 ltac:(lia) ltac:(lia)) as [L1 _].
  pose proof (ratio_log2_bounds n2 d2 k Hn2 Hd2 ltac:(lia) ltac:(lia)) as [_ U2].
  assert (2 ^ (ratio_log2 n1 d1 + k) < 2 ^ (ratio_log2 n2 d2 + 1 + k)) as Hp.
  { assert (0 < 2 ^ k) by (apply Z.pow_pos_nonneg; lia). nia. }
  apply Z.pow_lt_mono_r_iff in Hp; lia.
Qed.

(** ** Rounding to an integer *)

Lemma round_half_even_mono n1 d1 n2 d2 :
  0 < d1 → 0 < d2 → n1 * d2 ≤ n2 * d1 → round_half_even n1 d1 ≤ round_half_even n2 d2.
Proof.
  intros Hd1 Hd2 H. unfold round_half_even.
  pose proof (Z.div_mod n1 d1 ltac:(lia)) as E1. pose proof (Z.div_mod n2 d2 ltac:(lia)) as E2.
  pose proof (Z.mod_pos_bound n1 d1 Hd1) as B1. pose proof (Z.mod_pos_bound n2 d2 Hd2) as B2.
  set (k1 := n1 / d1) in *. set (k2 := n2 / d2) in *. set (r1 := n1 mod d1) in *. set (r2 := n2 mod d2) in *.
  assert (k1 ≤ k2) as Hk.
  { apply Z.div_le_lower_bound; [done|]. apply (Z.mul_le_mono_pos_r _ _ d1 Hd1).
    assert (d1 * k1 ≤ n1) by lia. assert (d2 * (d1 * k1) ≤ d2 * n1) by (apply Z.mul_le_mono_nonneg_l; lia). lia. }
  destruct (decide (k1 = k2)) as [Heq|Hne].
  - assert (r1 * d2 ≤ r2 * d1) as Hr.
    { rewrite E1, E2, Heq in H. lia. }
    rewrite Heq. clear - Hr Hd1 Hd2.
    destruct (Z.compare_spec (2 * r1) d1), (Z.compare_spec (2 * r2) d2); try (destruct (Z.even k2)); try lia; nia.
  - destruct (2 * r1 ?= d1), (2 * r2 ?= d2); try (destruct (Z.even k1)); try (destruct (Z.even k2)); lia.
Qed.

Lemma round_half_even_upper n d k : 0 < d → n ≤ k * d → round_half_even n d ≤ k.
Proof.
  intros Hd Hk. rewrite <- (round_half_even_exact k). apply round_half_even_mono; lia.
Qed.

(** ** Rounding to a double *)

(** The unit in the last place, the mantissa, and the result in units of the
    least double, 2^-1074. *)
Definition last_unit (n d : Z) : Z := Z.max (ratio_log2 n d - 52) (-1074).
Definition mantissa (n d : Z) : Z :=
  round_half_even (n * 2 ^ Z.max 0 (- last_unit n d)) (d * 2 ^ Z.max 0 (last_unit n d)).
Definition least_units (n d : Z) : Z := mantissa n d * 2 ^ (last_unit n d + 1074).

Lemma last_unit_ge n d : -1074 ≤ last_unit n d.
Proof. unfold last_unit. lia. Qed.

Lemma pow_pos x : 0 ≤ x → 0 < 2 ^ x.
Proof. intros. by apply Z.pow_pos_nonneg. Qed.

(** The ratio is below the next power of two, in its own units. *)
Lemma mantissa_upper n d v :
  0 < n → 0 < d → last_unit n d ≤ v → ratio_log2 n d + 1 ≤ v →
  mantissa n d * 2 ^ (last_unit n d + 1074) ≤ 2 ^ (v + 1074).
Proof.
  intros Hn Hd Hu Hv. pose proof (last_unit_ge n d) as Hl.
  replace (v + 1074) with ((v - last_unit n d) + (last_unit n d + 1074)) by lia.
  rewrite (Z.pow_add_r 2 (v - last_unit n d)) by lia. apply Z.mul_le_mono_nonneg_r; [apply Z.lt_le_incl, pow_pos; lia|].
  set (u := last_unit n d) in *. unfold mantissa. fold u. apply round_half_even_upper.
  { apply Z.mul_pos_pos; [done|apply pow_pos; lia]. }
  set (k := Z.max 0 (- Z.min u (ratio_log2 n d))).
  pose proof (ratio_log2_bounds n d k Hn Hd ltac:(lia) ltac:(lia)) as [_ U].
  rewrite Z.mul_assoc. apply (proj2 (Z.opp_le_mono _ _)).
  enough (n * 2 ^ Z.max 0 (- u) ≤ 2 ^ (v - u) * d * 2 ^ Z.max 0 u) by lia.
  assert (n * 2 ^ k ≤ 2 ^ (v - u) * d * 2 ^ (u + k)) as Hk.
  { transitivity (d * 2 ^ (ratio_log2 n d + 1 + k)); [lia|].
    replace (2 ^ (v - u) * d * 2 ^ (u + k)) with (d * (2 ^ (v - u) * 2 ^ (u + k))) by lia.
    rewrite <- Z.pow_add_r by lia. apply Z.mul_le_mono_nonneg_l; [lia|]. apply Z.pow_le_mono_r; lia. }
  apply Z.le_ngt. intros Hlt. revert Hk. apply Z.lt_nge.
  assert (2 ^ (u + k) = 2 ^ Z.max 0 u * 2 ^ (k - Z.max 0 (- u))) as -> by (rewrite <- Z.pow_add_r by lia; f_equal; lia).
  assert (2 ^ k = 2 ^ Z.max 0 (- u) * 2 ^ (k - Z.max 0 (- u))) as -> by (rewrite <- Z.pow_add_r by lia; f_equal; lia).
  rewrite !Z.mul_assoc. apply Z.mul_lt_mono_pos_r; [apply pow_pos; lia|done].
Qed.

(** A ratio whose unit is not the least has a full mantissa. *)
Lemma mantissa_lower n d :
  0 < n → 0 < d → -1074 < last_unit n d → 2 ^ 52 ≤ mantissa n d.
Proof.
  intros Hn Hd Hu. assert (last_unit n d = ratio_log2 n d - 52) as Eu by (unfold last_unit in *; lia).
  unfold mantissa. set (u := last_unit n d) in *. apply round_half_even_lower.
  { apply Z.mul_pos_pos; [done|apply pow_pos; lia]. }
  set (k := Z.max 0 (- Z.min u (ratio_log2 n d))).
  pose proof (ratio_log2_bounds n d k Hn Hd ltac:(lia) ltac:(lia)) as [L _].
  apply Z.le_ngt. intros Hlt. revert L. apply Z.lt_nge.
  assert (2 ^ (ratio_log2 n d + k) = 2 ^ 52 * 2 ^ Z.max 0 u * 2 ^ (k - Z.max 0 (- u))) as ->
    by (rewrite <- !Z.pow_add_r by lia; f_equal; lia).
  assert (2 ^ k = 2 ^ Z.max 0 (- u) * 2 ^ (k - Z.max 0 (- u))) as -> by (rewrite <- Z.pow_add_r by lia; f_equal; lia).
  rewrite !Z.mul_assoc. apply Z.mul_lt_mono_pos_r; [apply pow_pos; lia|]. lia.
Qed.

Lemma least_units_mono n1 d1 n2 d2 :
  0 < n1 → 0 < d1 → 0 < d2 → n1 * d2 ≤ n2 * d1 → least_units n1 d1 ≤ least_units n2 d2.
Proof.
  intros Hn1 Hd1 Hd2 H. assert (0 < n2) as Hn2 by nia.
  pose proof (ratio_log2_mono n1 d1 n2 d2 Hn1 Hd1 Hd2 H) as He. unfold least_units.
  destruct (decide (last_unit n1 d1 = last_unit n2 d2)) as [Eu|Ne].
  - rewrite <- Eu. apply Z.mul_le_mono_nonneg_r; [apply Z.lt_le_incl, pow_pos; pose proof (last_unit_ge n1 d1); lia|].
    unfold mantissa. rewrite <- Eu. set (u := last_unit n1 d1).
    pose proof (pow_pos (Z.max 0 u) ltac:(lia)). pose proof (pow_pos (Z.max 0 (- u)) ltac:(lia)).
    apply round_half_even_mono; [lia..|].
    replace (n1 * 2 ^ Z.max 0 (- u) * (d2 * 2 ^ Z.max 0 u)) with (n1 * d2 * (2 ^ Z.max 0 (- u) * 2 ^ Z.max 0 u)) by lia.
    replace (n2 * 2 ^ Z.max 0 (- u) * (d1 * 2 ^ Z.max 0 u)) with (n2 * d1 * (2 ^ Z.max 0 (- u) * 2 ^ Z.max 0 u)) by lia.
    apply Z.mul_le_mono_nonneg_r; lia.
  - assert (last_unit n1 d1 < last_unit n2 d2) as Hu by (unfold last_unit in *; lia).
    transitivity (2 ^ (ratio_log2 n2 d2 + 1074)).
    + apply mantissa_upper; [done|done|unfold last_unit in *; lia|]. 
      destruct (decide (ratio_log2 n1 d1 = ratio_log2 n2 d2)) as [E|]; [unfold last_unit in *; rewrite E in *; lia|lia].
    + pose proof (last_unit_ge n1 d1). pose proof (mantissa_lower n2 d2 Hn2 Hd2 ltac:(lia)) as Hm.
      replace (ratio_log2 n2 d2 + 1074) with (52 + (last_unit n2 d2 + 1074)) by (unfold last_unit in *; lia).
      rewrite (Z.pow_add_r 2 52) by lia. apply Z.mul_le_mono_nonneg_r; [apply Z.lt_le_incl, pow_pos; lia|done].
Qed.

(** ** The order of doubles *)

Lemma num_leb_Fin p q : num_leb (Fin p) (Fin q) = true ↔ (p <= q)%Q.
Proof.
  unfold num_leb, num_ltb, num_eqb. rewrite Qle_alt. destruct (p ?= q)%Q; naive_solver.
Qed.

Definition least_den : positive := (2 ^ 1074)%positive.

Lemma least_den_Z : Zpos least_den = 2 ^ 1074.
Proof. unfold least_den. by rewrite Pos2Z.inj_pow. Qed.

Lemma scale_units m u : -1074 ≤ u → (scale m u == m * 2 ^ (u + 1074) # least_den)%Q.
Proof.
  intros Hu. unfold scale. destruct (0 <=? u) eqn:E.
  - apply Z.leb_le in E. unfold Qeq. cbn [Qnum Qden]. rewrite least_den_Z, Z.pow_add_r by lia. lia.
  - apply Z.leb_gt in E. rewrite Qred_correct. unfold Qeq. cbn [Qnum Qden].
    rewrite least_den_Z, Z2Pos.id by (apply pow_pos; lia).
    rewrite <- Z.mul_assoc, <- Z.pow_add_r by lia. do 2 f_equal. lia.
Qed.

Lemma overflow_units n d :
  0 < n → 0 < d →
  (0 <=? last_unit n d) && (2 ^ 1024 <=? mantissa n d * 2 ^ last_unit n d) = (2 ^ 2098 <=? least_units n d).
Proof.
  intros Hn Hd. pose proof (last_unit_ge n d). unfold least_units. destruct (Z.leb_spec 0 (last_unit n d)) as [Hu|Hu]; cbn [andb].
  - rewrite Z.pow_add_r, Z.mul_assoc by lia. change 2098 with (1024 + 1074). rewrite (Z.pow_add_r 2 1024) by lia.
    apply eq_true_iff_eq. rewrite !Z.leb_le. apply Z.mul_le_mono_pos_r, pow_pos. lia.
  - symmetry. apply Z.leb_gt. eapply Z.le_lt_trans.
    + apply (mantissa_upper n d (last_unit n d + 53) Hn Hd); [lia|unfold last_unit; lia].
    + apply Z.pow_lt_mono_r; lia.
Qed.

(** A positive rational becomes Infinity, or the double of its least units. *)
Lemma num_of_Q_cases q :
  0 < Qnum q →
  let V := least_units (Qnum q) (Zpos (Qden q)) in
  (num_of_Q q = Infinity false ∧ 2 ^ 2098 ≤ V) ∨
  (∃ r, num_of_Q q = Fin r ∧ (r == V # least_den)%Q ∧ V < 2 ^ 2098).
Proof.
  intros Hq. cbv zeta. unfold num_of_Q. replace (Qnum q =? 0) with false by lia. replace (Qnum q <? 0) with false by lia.
  rewrite Z.abs_eq by lia. unfold round_magnitude. fold (last_unit (Qnum q) (Zpos (Qden q))). cbv zeta.
  fold (mantissa (Qnum q) (Zpos (Qden q))). rewrite overflow_units by lia.
  destruct (Z.leb_spec (2 ^ 2098) (least_units (Qnum q) (Zpos (Qden q)))) as [H|H]; [by left|right].
  pose proof (scale_units (mantissa (Qnum q) (Zpos (Qden q))) _ (last_unit_ge (Qnum q) (Zpos (Qden q)))) as Hs.
  fold (least_units (Qnum q) (Zpos (Qden q))) in Hs. set (r := scale _ _) in *.
  destruct (Qnum r =? 0) eqn:E; [|by exists r]. exists (0 # 1)%Q. split; [done|]. split; [|done].
  rewrite <- Hs. apply Z.eqb_eq in E. unfold Qeq. cbn [Qnum Qden]. lia.
Qed.

Lemma least_units_nonneg n d : 0 < n → 0 < d → 0 ≤ least_units n d.
Proof.
  intros Hn Hd. pose proof (last_unit_ge n d). unfold least_units, mantissa. apply Z.mul_nonneg_nonneg.
  - apply round_half_even_lower; [apply Z.mul_pos_pos; [done|apply pow_pos; lia]|].
    rewrite Z.mul_0_l. apply Z.mul_nonneg_nonneg; [lia|]. apply Z.lt_le_incl, pow_pos. lia.
  - apply Z.lt_le_incl, pow_pos. lia.
Qed.

Lemma num_of_Q_zero q : Qnum q = 0 → num_of_Q q = NInt 0.
Proof. intros H. unfold num_of_Q. by rewrite H. Qed.

(** Rounding is monotone. *)
Lemma num_of_Q_mono p q : (0 <= p)%Q → (p <= q)%Q → num_leb (num_of_Q p) (num_of_Q q) = true.
Proof.
  intros Hp Hpq. unfold Qle in Hp, Hpq. cbn [Qnum Qden] in Hp. rewrite Z.mul_1_r in Hp. cbn in Hp.
  assert (0 ≤ Qnum q) as Hq by nia.
  destruct (decide (Qnum p = 0)) as [E|Hne].
  - rewrite (num_of_Q_zero p E). destruct (decide (Qnum q = 0)) as [E'|Hne']; [by rewrite (num_of_Q_zero q E')|].
    destruct (num_of_Q_cases q ltac:(lia)) as [[-> _]|(r & -> & Hr & _)]; [done|].
    apply num_leb_Fin. rewrite Hr. unfold Qle. cbn [Qnum Qden]. 
    pose proof (least_units_nonneg (Qnum q) (Zpos (Qden q)) ltac:(lia) ltac:(lia)). lia.
  - assert (0 < Qnum q) as Hq' by nia.
    pose proof (least_units_mono (Qnum p) (Zpos (Qden p)) (Qnum q) (Zpos (Qden q)) ltac:(lia) ltac:(lia) ltac:(lia) Hpq) as Hm.
    destruct (num_of_Q_cases p ltac:(lia)) as [[-> Hbig]|(r & -> & Hr & Hsmall)];
      destruct (num_of_Q_cases q Hq') as [[-> Hbig']|(r' & -> & Hr' & Hsmall')]; [done|lia|done|].
    apply num_leb_Fin. rewrite Hr, Hr'. unfold Qle. cbn [Qnum Qden]. apply Z.mul_le_mono_nonneg_r; lia.
Qed.

(** ** Finite numbers *)

Lemma num_leb_finite a b :
  is_finite a = true → is_finite b = true → num_leb a b = true ↔ (num_q a <= num_q b)%Q.
Proof.
  destruct a as [| | |p], b as [| | |q]; try done; intros _ _; cbn [num_q].
  - unfold num_leb, num_ltb, num_eqb, Qle. cbn [Qnum Qden]. rewrite orb_true_iff, Z.ltb_lt, Z.eqb_eq. lia.
  - unfold num_leb, num_ltb, num_eqb, Qle. cbn [Qnum Qden]. rewrite orb_true_iff, Z.ltb_lt, Z.eqb_eq. lia.
  - apply num_leb_Fin.
Qed.

Lemma num_ltb_finite a b :
  is_finite a = true → is_finite b = true → num_ltb a b = negb (num_leb b a).
Proof.
  destruct a as [| | |p], b as [| | |q]; try done; intros _ _; unfold num_leb, num_ltb, num_eqb.
  - apply eq_true_iff_eq. rewrite negb_true_iff, orb_false_iff, Z.ltb_lt, Z.ltb_ge, Z.eqb_neq. lia.
  - apply eq_true_iff_eq. rewrite negb_true_iff, orb_false_iff, Z.ltb_lt, Z.ltb_ge, Z.eqb_neq. lia.
  - unfold Qcompare. rewrite (Z.compare_antisym (Qnum q * _) (Qnum p * _)). by destruct (_ ?= _).
Qed.

(** ** [toFixed] *)

Lemma span_until (p : N → bool) a c b :
  Forall (λ c, p c = true) a → p c = false → span p (a ++ c :: b) = (a, c :: b).
Proof. intros Ha Hc. induction Ha as [|x a Hx _ IH]; cbn [app span]; [by rewrite Hc|]. by rewrite Hx, IH. Qed.

Lemma trim_nospace s : Forall (λ c, is_space c = false) s → trim s = s.
Proof.
  assert (∀ s, Forall (λ c, is_space c = false) s → trim_start s = s) as Hstart.
  { intros t Ht. unfold trim_start. destruct Ht as [|c t Hc _]; [done|]. cbn [span]. by rewrite Hc. }
  intros Hs. unfold trim. rewrite (Hstart s Hs), Hstart by by apply Forall_reverse. apply reverse_involutive.
Qed.

(** A decimal text with a point reads as its digits over a power of ten. *)
Lemma num_of_point_text c ip fp :
  Forall (λ c, is_digit c = true) (c :: ip) → Forall (λ c, is_digit c = true) fp → fp ≠ [] →
  num_of_string ((c :: ip) ++ 46%N :: fp) = num_of_decimal false ((c :: ip) ++ fp) (- jlen fp).
Proof.
  intros Hi Hf Hne. pose proof (Forall_inv Hi) as Hc. pose proof (Forall_inv_tail Hi) as Hi'.
  assert (∀ d, is_digit d = true → is_space d = false) as Hsp by (intros d Hd; by case_digit Hd).
  unfold num_of_string. rewrite trim_nospace.
  2:{ apply Forall_app. split; [by eapply Forall_impl|]. constructor; [done|by eapply Forall_impl]. }
  cbn [app].
  assert (radix_literal (c :: ip ++ 46%N :: fp) = None) as ->.
  { assert (∀ t, radix_literal (48%N :: 46%N :: t) = None) as Hpoint by done.
    case_digit Hc; try reflexivity. destruct Hi' as [|d ip Hd _]; [apply Hpoint|]. by case_digit Hd. }
  assert (unsigned_decimal false (c :: ip ++ 46%N :: fp) = Some (num_of_decimal false (c :: ip ++ fp) (- jlen fp))) as Hu.
  { unfold unsigned_decimal. replace (_ =s? js "Infinity") with false.
    2:{ symmetry. apply jeq_neq. intros H. apply (f_equal (head (A := N))) in H. cbn in H. by case_digit Hc. }
    change (c :: ip ++ 46%N :: fp) with ((c :: ip) ++ 46%N :: fp). rewrite span_until by done. cbv iota beta.
    rewrite span_all by done. cbn [app]. rewrite bool_decide_eq_false_2 by done. cbn [exponent_part]. done. }
  case_digit Hc; cbn beta iota; by rewrite Hu.
Qed.

Lemma Z_of_dec_zeros k s : Z_of_dec (repeat 48%N k ++ s) = Z_of_dec s.
Proof. unfold Z_of_dec. rewrite fold_left_app. f_equal. induction k as [|k IH]; [done|]. cbn [repeat fold_left]. exact IH. Qed.

Lemma fixed_digits_nonneg digits q : (0 <= q)%Q → 0 ≤ fixed_digits digits q.
Proof.
  intros Hq. unfold fixed_digits. change 0 with (Qfloor 0). apply Qfloor_resp_le.
  apply (Qle_trans _ (0 + 0)); [done|]. apply Qplus_le_compat; [|done].
  apply Qmult_le_0_compat; [done|]. unfold Qle. cbn [Qnum Qden]. pose proof (Z.pow_nonneg 10 (Z.of_nat digits)). lia.
Qed.

(** The number that [x.toFixed(digits)] spells. *)
Definition fixed_value (digits : nat) (q : Q) : Q := fixed_digits digits q # Z.to_pos (10 ^ Z.of_nat digits).

Lemma to_fixed_text digits a :
  is_finite a = true → (0 <= num_q a)%Q → (num_q a < 10 ^ 21 # 1)%Q →
  let s := dec_of_Z (fixed_digits digits (num_q a)) in
  let s := repeat 48%N (S digits - length s) ++ s in
  to_fixed digits a = take (length s - digits) s ++ 46%N :: drop (length s - digits) s.
Proof.
  intros Hf H0 H21. cbv zeta. unfold to_fixed. destruct a as [| | |q]; try done; cbn [num_q] in *.
  unfold Qle in H0. unfold Qlt in H21. cbn [Qnum Qden] in H0, H21.
  replace (Qnum q <? 0) with false by lia. replace (_ <=? Qnum q) with false by lia. done.
Qed.

Lemma to_fixed_reads digits a :
  (0 < digits)%nat → is_finite a = true → (0 <= num_q a)%Q → (num_q a < 10 ^ 21 # 1)%Q →
  num_of_string (to_fixed digits a) = num_of_Q (fixed_value digits (num_q a)).
Proof.
  intros Hd Hf H0 H21. rewrite to_fixed_text by done. unfold fixed_value.
  pose proof (fixed_digits_nonneg digits _ H0) as Hn. set (n := fixed_digits digits (num_q a)) in *.
  set (s := repeat 48%N (S digits - length (dec_of_Z n)) ++ dec_of_Z n).
  assert (Forall (λ c, is_digit c = true) s) as Hs.
  { apply Forall_app. split; [by apply Forall_forall; intros c Hc%list_elem_of_In%repeat_spec; subst c|].
    by apply canonical_digits, dec_of_Z_canonical. }
  assert (S digits <= length s)%nat as Hlen by (unfold s; rewrite length_app, repeat_length; lia).
  assert (Z_of_dec s = n) as Hz by (unfold s; rewrite Z_of_dec_zeros; by apply Z_of_dec_of_Z).
  pose proof (take_drop (length s - digits) s) as Htd.
  assert (Forall (λ c, is_digit c = true) (take (length s - digits) s)) as Ht by by apply Forall_take.
  assert (Forall (λ c, is_digit c = true) (drop (length s - digits) s)) as Hdr by by apply Forall_drop.
  assert (length (drop (length s - digits) s) = digits) as Hl by (rewrite length_drop; lia).
  assert (length (take (length s - digits) s) = (length s - digits)%nat) as Hlt by (rewrite length_take; lia).
  destruct (take (length s - digits) s) as [|c ip] eqn:E; [cbn in Hlt; lia|].
  rewrite num_of_point_text; [|done|done|intros H; rewrite H in Hl; cbn in Hl; lia].
  rewrite Htd. unfold num_of_decimal. rewrite Hz. unfold jlen. rewrite Hl.
  destruct (Z.eqb_spec n 0) as [->|Hne]; [by rewrite num_of_Q_zero|].
  replace (0 <=? - Z.of_nat digits) with false by lia. by rewrite Z.opp_involutive.
Qed.

(** Reading back fixed text is monotone. *)
Lemma fixed_mono digits a b :
  (0 < digits)%nat → is_finite a = true → is_finite b = true → (0 <= num_q a)%Q → (num_q b < 10 ^ 21 # 1)%Q →
  (num_q a <= num_q b)%Q →
  num_leb (num_of_string (to_fixed digits a)) (num_of_string (to_fixed digits b)) = true.
Proof.
  intros Hd Ha Hb H0 H21 Hab. assert (0 <= num_q b)%Q as H0b by by eapply Qle_trans.
  assert (num_q a < 10 ^ 21 # 1)%Q as H21a by by eapply Qle_lt_trans.
  rewrite !to_fixed_reads by done. pose proof (fixed_digits_nonneg digits _ H0) as Hn.
  apply num_of_Q_mono; unfold fixed_value, Qle; cbn [Qnum Qden]; [lia|].
  apply Z.mul_le_mono_nonneg_r; [lia|]. unfold fixed_digits. apply Qfloor_resp_le.
  apply Qplus_le_compat; [|apply Qle_refl]. apply Qmult_le_compat_r; [done|].
  unfold Qle. cbn [Qnum Qden]. pose proof (Z.pow_nonneg 10 (Z.of_nat digits)). lia.
Qed.
