(* ===== verification/SampleSummary.v ===== *)
(** chain/performance/summarize-samples.mjs: the summary of the transaction
    samples of a case: counts by outcome, throughput, latency percentiles and gas. *)

From Stdlib Require Import QArith.
From S2P Require Import Prelude JsNum JsText JsUtf8 JsValue JsOps JsonText JsFixed.

Open Scope Z_scope.

Definition OUTCOMES : list jstr :=
  [js "success"; js "expected-revert"; js "unexpected-revert"; js "submission-failed"; js "dropped"].

Record case_counts := CaseCounts {
  sample : Z; includedCommitted : Z; committedSuccess : Z; committedRevert : Z;
  unexpectedRevert : Z; submissionFailed : Z; dropped : Z;
}.

(** [counts[toCountKey(outcome)] += 1]. *)
Definition count_outcome (outcome : jstr) (c : case_counts) : case_counts :=
  let plus name n := if outcome =s? js name then n + 1 else n in
  CaseCounts (sample c) (includedCommitted c) (plus "success"%string (committedSuccess c))
    (plus "expected-revert"%string (committedRevert c)) (plus "unexpected-revert"%string (unexpectedRevert c))
    (plus "submission-failed"%string (submissionFailed c)) (plus "dropped"%string (dropped c)).

Definition count_included (c : case_counts) : case_counts :=
  CaseCounts (sample c) (includedCommitted c + 1) (committedSuccess c) (committedRevert c)
    (unexpectedRevert c) (submissionFailed c) (dropped c).

(** [Number(value.toFixed(6))]. *)
Definition round (a : num) : num := num_of_string (to_fixed 6 a).

Definition nonneg_finite (v : value) : bool := v_finite v && negb (num_ltb (v_num v) (NInt 0)).

Definition assertNonNegativeFinite (v : value) (label : jstr) : result () :=
  if nonneg_finite v then Ok () else range_error (label +++ js " must be finite and non-negative").

Definition assertNonNegativeSafeInteger (v : value) (label : jstr) : result () :=
  if v_safe_integer v && negb (num_ltb (v_num v) (NInt 0)) then Ok ()
  else range_error (label +++ js " must be a non-negative safe integer").

Definition numbered (index : nat) (text : string) : jstr :=
  js "sample " +++ dec_of_Z (Z.of_nat index) +++ js " " +++ js text.

Definition given (v : value) : bool := negb (is_undefined v).

Definition collectLatency (s : value) (name : string) (target : list num) (index : nat) : result (list num) :=
  let v := field s (js name) in
  if given v then
    assertNonNegativeFinite v (numbered index name);;
    Ok (target ++ [v_num v])
  else Ok target.

Definition assertLatencyOrder (s : value) (index : nat) : result () :=
  let acknowledgement := field s (js "acknowledgementLatencyMilliseconds") in
  let inclusion := field s (js "inclusionLatencyMilliseconds") in
  let receipt := field s (js "receiptLatencyMilliseconds") in
  if given acknowledgement && given inclusion && js_gt acknowledgement inclusion
  then range_error (numbered index "acknowledgement latency exceeds inclusion latency")
  else if given inclusion && given receipt && js_gt inclusion receipt
  then range_error (numbered index "inclusion latency exceeds receipt latency")
  else Ok ().

(** What the loop over the samples keeps. *)
Record tally := Tally {
  counts : case_counts;
  acknowledgementLatencies : list num;
  inclusionLatencies : list num;
  receiptLatencies : list num;
  gasValues : list num;
}.

Definition committed_outcome (outcome : jstr) : bool :=
  jmem outcome [js "success"; js "expected-revert"; js "unexpected-revert"].

Definition add_sample (t : tally) (index : nat) (s : value) : result tally :=
  (if is_object s then Ok () else type_error (numbered index "must be an object"));;
  let outcome := field s (js "outcome") in
  (if is_string outcome && jmem (v_str outcome) OUTCOMES then Ok ()
   else type_error (numbered index "has an unsupported outcome"));;
  let included := field s (js "included") in
  (if is_boolean included then Ok () else type_error (numbered index "included must be boolean"));;
  (if strict_eq included (VBool (committed_outcome (v_str outcome))) then Ok ()
   else type_error (numbered index "inclusion and outcome are inconsistent"));;
  let c := count_outcome (v_str outcome) (counts t) in
  c ← if truthy included then Ok (count_included c)
      else if given (field s (js "inclusionLatencyMilliseconds"))
              || given (field s (js "receiptLatencyMilliseconds"))
      then type_error (numbered index "non-included outcome cannot have inclusion or receipt latency")
      else Ok c;
  acknowledgements ← collectLatency s "acknowledgementLatencyMilliseconds" (acknowledgementLatencies t) index;
  inclusions ← collectLatency s "inclusionLatencyMilliseconds" (inclusionLatencies t) index;
  receipts ← collectLatency s "receiptLatencyMilliseconds" (receiptLatencies t) index;
  assertLatencyOrder s index;;
  let gas := field s (js "gasUsed") in
  gasValues ← if given gas then
                (if truthy included then Ok () else type_error (numbered index "gasUsed requires inclusion"));;
                assertNonNegativeSafeInteger gas (numbered index "gasUsed");;
                Ok (gasValues t ++ [v_num gas])
              else Ok (gasValues t);
  Ok (Tally c acknowledgements inclusions receipts gasValues).

Fixpoint add_samples (t : tally) (index : nat) (samples : list value) : result tally :=
  match samples with
  | [] => Ok t
  | s :: rest => t' ← add_sample t index s; add_samples t' (S index) rest
  end.

(** ** Numbers *)

(** [values.sort((left, right) => left - right)] on finite numbers: stable, by
    value. *)
Fixpoint insert_num (a : num) (l : list num) : list num :=
  match l with
  | [] => [a]
  | b :: l' => if num_ltb b a then b :: insert_num a l' else a :: l
  end.

Definition sort_nums (l : list num) : list num := fold_right insert_num [] l.

Definition sum (l : list num) : num := fold_left num_add l (NInt 0).

(** The doubles 0.5 and 0.95. *)
Definition half : num := num_of_Q (1 # 2)%Q.
Definition ninety_five : num := num_of_Q (95 # 100)%Q.

Definition num_length (l : list num) : num := NInt (Z.of_nat (length l)).

(** [Math.max(0, Math.ceil(percentile * sorted.length) - 1)]. *)
Definition rank_index (sorted : list num) (percentile : num) : num :=
  num_max (NInt 0) (num_sub (num_ceil (num_mul percentile (num_length sorted))) (NInt 1)).

Definition nearestRank (sorted : list num) (percentile : num) : num :=
  nth (Z.to_nat (num_Z (rank_index sorted percentile))) sorted NaN.

Record number_summary := NumberSummary {
  sampleCount : Z; minimum : value; p50 : value; p95 : value; maximum : value; mean : value;
}.

Definition summarizeNumbers (values : list num) : number_summary :=
  match values with
  | [] => NumberSummary 0 VNull VNull VNull VNull VNull
  | _ =>
      let sorted := sort_nums values in
      let total := sum sorted in
      NumberSummary (Z.of_nat (length sorted))
        (VNum (round (nth 0 sorted NaN))) (VNum (round (nearestRank sorted half)))
        (VNum (round (nearestRank sorted ninety_five))) (VNum (round (List.last sorted NaN)))
        (VNum (round (num_div total (num_length sorted))))
  end.

(** ** The summary *)

Record summary := Summary {
  caseId : jstr; workloadId : jstr; case_counts_of : case_counts; elapsedMilliseconds : num;
  includedCommittedTps : num; successfulTps : num;
  acknowledgement : number_summary; inclusion : number_summary; receipt : number_summary;
  gas_sampleCount : Z; gas_total : num; gas_mean : value;
}.

Definition is_name (v : value) : bool :=
  match v with VStr s => negb (bool_decide (s = [])) | _ => false end.

Definition empty_tally (n : Z) : tally := Tally (CaseCounts n 0 0 0 0 0 0) [] [] [] [].

Definition per_second (n : Z) (elapsed : num) : num :=
  round (num_div (NInt n) (num_div elapsed (NInt 1000))).

Definition summarizeCaseSamples (input : value) : result summary :=
  (if is_object input then Ok () else type_error (js "input must be an object"));;
  let caseId := field input (js "caseId") in
  let workloadId := field input (js "workloadId") in
  let startedAt := field input (js "startedAtMilliseconds") in
  let endedAt := field input (js "endedAtMilliseconds") in
  let samples := field input (js "samples") in
  (if is_name caseId then Ok () else type_error (js "caseId must be a non-empty string"));;
  (if is_name workloadId then Ok () else type_error (js "workloadId must be a non-empty string"));;
  assertNonNegativeFinite startedAt (js "startedAtMilliseconds");;
  assertNonNegativeFinite endedAt (js "endedAtMilliseconds");;
  (if num_leb (v_num endedAt) (v_num startedAt)
   then range_error (js "endedAtMilliseconds must be greater than startedAtMilliseconds") else Ok ());;
  (if is_array samples && negb (bool_decide (v_list samples = [])) then Ok ()
   else type_error (js "samples must be a non-empty array"));;
  t ← add_samples (empty_tally (Z.of_nat (length (v_list samples)))) 0 (v_list samples);
  let elapsed := num_sub (v_num endedAt) (v_num startedAt) in
  let gasTotal := sum (gasValues t) in
  Ok (Summary (v_str caseId) (v_str workloadId) (counts t) elapsed
    (per_second (includedCommitted (counts t)) elapsed) (per_second (committedSuccess (counts t)) elapsed)
    (summarizeNumbers (acknowledgementLatencies t)) (summarizeNumbers (inclusionLatencies t))
    (summarizeNumbers (receiptLatencies t))
    (Z.of_nat (length (gasValues t))) (round gasTotal)
    (match gasValues t with [] => VNull | _ => VNum (round (num_div gasTotal (num_length (gasValues t)))) end)).

(** ** The report of the command *)

Definition counts_value (c : case_counts) : value := VObj [
  "sample" :=: vi (sample c); "includedCommitted" :=: vi (includedCommitted c);
  "committedSuccess" :=: vi (committedSuccess c); "committedRevert" :=: vi (committedRevert c);
  "unexpectedRevert" :=: vi (unexpectedRevert c); "submissionFailed" :=: vi (submissionFailed c);
  "dropped" :=: vi (dropped c)]%js.

Definition number_value (n : number_summary) : value := VObj [
  "sampleCount" :=: vi (sampleCount n); "minimum" :=: minimum n; "p50" :=: p50 n; "p95" :=: p95 n;
  "maximum" :=: maximum n; "mean" :=: mean n]%js.

Definition summary_value (s : summary) : value := VObj [
  "caseType" :=: vs "transaction"; "caseId" :=: VStr (caseId s); "workloadId" :=: VStr (workloadId s);
  "counts" :=: counts_value (case_counts_of s);
  "elapsedMilliseconds" :=: VNum (elapsedMilliseconds s);
  "includedCommittedTps" :=: VNum (includedCommittedTps s); "successfulTps" :=: VNum (successfulTps s);
  "latencyMilliseconds" :=: VObj [
    "acknowledgement" :=: number_value (acknowledgement s); "inclusion" :=: number_value (inclusion s);
    "receipt" :=: number_value (receipt s)];
  "gasUsed" :=: VObj ["sampleCount" :=: vi (gas_sampleCount s); "total" :=: VNum (gas_total s); "mean" :=: gas_mean s];
  "limitations" :=: VArr [vs "exploratory-local-summary-only"; vs "no-p99-or-formal-confidence-claim"]]%js.

(** The command: the path is the first argument. *)
Definition main (readFile : jstr → result (list Z)) (argv : list jstr) : result jstr :=
  match argv with
  | [] | [] :: _ => error (js "usage: summarize-samples.mjs <samples.json>")
  | inputPath :: _ =>
      bytes ← readFile inputPath;
      input ← json_parse (utf8_decode bytes);
      s ← summarizeCaseSamples input;
      Ok (stringify 2 0 (summary_value s) +++ [10%N])
  end.
