(* ===== verification/SampleSummaryFacts.v ===== *)
(** The sample summary: counts are exact, and the percentiles reported are
    samples, in order. *)

From Stdlib Require Import QArith Qround.
From S2P Require Import Prelude JsNum JsText JsValue JsOps JsFixed SampleSummary.

Open Scope Z_scope.

(** ** Sorting *)

(** Finite numbers from 0 up, below the range that [toFixed] spells out. *)
Definition ordinary (a : num) : Prop := is_finite a = true ∧ (0 <= num_q a)%Q ∧ (num_q a < 10 ^ 21 # 1)%Q.

Definition num_le (a b : num) : Prop := (num_q a <= num_q b)%Q.

#[export] Instance num_le_trans : Transitive num_le.
Proof. intros a b c. apply Qle_trans. Qed.

Lemma insert_perm a l : insert_num a l ≡ₚ a :: l.
Proof.
  induction l as [|b l IH]; [done|]. cbn [insert_num]. destruct (num_ltb b a); [|done].
  rewrite IH. by constructor.
Qed.

Lemma sort_perm l : sort_nums l ≡ₚ l.
Proof. induction l as [|a l IH]; [done|]. cbn [sort_nums fold_right]. rewrite insert_perm. by constructor. Qed.

Lemma insert_sorted a l :
  is_finite a = true → Forall (λ b, is_finite b = true) l → StronglySorted num_le l → StronglySorted num_le (insert_num a l).
Proof.
  intros Ha Hl Hs. induction Hs as [|b l Hs IH Hb]; cbn [insert_num]; [by repeat constructor|].
  inversion_clear Hl as [|? ? Hfb Hfl]. rewrite num_ltb_finite by done. destruct (num_leb a b) eqn:E; cbn [negb].
  - apply (num_leb_finite a b Ha Hfb) in E. constructor; [by constructor|]. constructor; [done|].
    eapply Forall_impl; [exact Hb|]. intros c Hc. unfold num_le in *. by eapply Qle_trans.
  - constructor; [by apply IH|]. rewrite insert_perm. constructor; [|done].
    unfold num_le. apply Qlt_le_weak, Qnot_le_lt. intros Hle. apply (num_leb_finite a b Ha Hfb) in Hle. congruence.
Qed.

Lemma sort_sorted l : Forall (λ b, is_finite b = true) l → StronglySorted num_le (sort_nums l).
Proof.
  induction 1 as [|a l Ha Hl IH]; cbn [sort_nums fold_right]; [constructor|].
  apply insert_sorted; [done| |done]. by rewrite sort_perm.
Qed.

Lemma sorted_nth l i j :
  StronglySorted num_le l → (i <= j)%nat → (j < length l)%nat → num_le (nth i l NaN) (nth j l NaN).
Proof.
  intros Hs. revert i j. induction Hs as [|a l Hs IH Ha]; intros i j Hij Hj; [cbn in Hj; lia|].
  destruct i as [|i], j as [|j]; cbn [nth length] in *; try lia; [apply Qle_refl| |apply IH; lia].
  rewrite Forall_forall in Ha. apply Ha, list_elem_of_In, nth_In. lia.
Qed.

(** ** Ranks *)

Lemma num_of_Q_nonneg q : (0 <= q)%Q → num_leb (NInt 0) (num_of_Q q) = true.
Proof. intros Hq. by apply (num_of_Q_mono 0 q). Qed.

(** A rational from 0 to an integer below 2^53 rounds into the same range. *)
Lemma num_of_Q_within q n :
  (0 <= q)%Q → (q <= n # 1)%Q → Z.abs n < 2 ^ 53 →
  ∃ r, num_of_Q q = Fin r ∧ (0 <= r)%Q ∧ (r <= n # 1)%Q.
Proof.
  intros H0 Hn Hb. pose proof (num_of_Q_mono q (n # 1) H0 Hn) as Hu. pose proof (num_of_Q_nonneg q H0) as Hl.
  rewrite num_of_Q_int in Hu by done.
  assert (∀ s, num_of_Q q = Infinity s → False) as Hinf by (intros [] E; rewrite E in *; done).
  destruct (num_of_Q q) as [|s| |r] eqn:E; [done|by exfalso; eapply Hinf| |].
  - exfalso. unfold num_of_Q in E. unfold Qle in H0. cbn in H0.
    destruct (Qnum q =? 0); [done|]. destruct (round_magnitude _ _) as [r|]; [|done].
    replace (Qnum q <? 0) with false in E by lia. by destruct (Qnum r =? 0).
  - exists r. split; [done|]. split; by apply num_leb_Fin.
Qed.

(** The rank of a percentile [p] from 0 to 1. *)
Lemma rank_index_spec l p q :
  p = Fin q → (0 <= q)%Q → (q <= 1)%Q → Qnum q ≠ 0 → (0 < length l)%nat → Z.of_nat (length l) < 2 ^ 53 →
  ∃ r, num_of_Q (q * (Z.of_nat (length l) # 1)) = Fin r ∧ (0 <= r)%Q ∧ (r <= Z.of_nat (length l) # 1)%Q ∧
    rank_index l p = NInt (Z.max 0 (Qceiling r - 1)).
Proof.
  intros -> H0 H1 Hq Hl Hb. set (n := Z.of_nat (length l)) in *.
  destruct (num_of_Q_within (q * (n # 1)) n) as (r & Er & Hr0 & Hrn).
  - apply Qmult_le_0_compat; [done|]. unfold Qle. cbn [Qnum Qden]. lia.
  - apply (Qle_trans _ (1 * (n # 1))); [|rewrite Qmult_1_l; apply Qle_refl].
    apply Qmult_le_compat_r; [done|]. unfold Qle. cbn [Qnum Qden]. lia.
  - lia.
  - exists r. do 3 (split; [done|]). unfold rank_index, num_length. fold n.
    assert (num_mul (Fin q) (NInt n) = Fin r) as ->.
    { unfold num_mul, NInt, is_zero, num_q. cbn [Qnum].
      replace (Qnum q =? 0) with false by lia. replace (n =? 0) with false by lia. exact Er. }
    assert (0 ≤ Qceiling r ≤ n) as Hc.
    { pose proof (Qceiling_resp_le 0 r Hr0) as Hc0. pose proof (Qceiling_resp_le r (inject_Z n) Hrn) as Hcn.
      rewrite Qceiling_Z in Hcn. change (Qceiling 0) with 0 in Hc0. lia. }
    assert (num_ceil (Fin r) = NInt (Qceiling r)) as ->.
    { unfold num_ceil. unfold Qle in Hr0. cbn [Qnum Qden] in Hr0. replace (Qnum r <? 0) with false by lia.
      rewrite andb_false_r. apply num_of_Q_int. lia. }
    assert (num_sub (NInt (Qceiling r)) (NInt 1) = NInt (Qceiling r - 1)) as ->.
    { unfold num_sub, num_neg, NInt. cbn [Qnum]. change (1 =? 0) with false. cbv iota. unfold num_add.
      change (Fin (Qceiling r - 1 # 1)) with (NInt (Qceiling r - 1)).
      rewrite <- (num_of_Q_int (Qceiling r - 1)) by lia. f_equal. unfold Qplus, Qopp. cbn [Qnum Qden]. f_equal; lia. }
    unfold num_max, NInt. unfold num_ltb, Qcompare. cbn [Qnum Qden]. rewrite Z.mul_0_l, Z.mul_1_r.
    destruct (Z.compare_spec 0 (Qceiling r - 1)); do 2 f_equal; lia.
Qed.

Lemma half_value : half = Fin (1 # 2).
Proof. by vm_compute. Qed.

Definition q95 : Q := num_q ninety_five.
Lemma ninety_five_value : ninety_five = Fin q95.
Proof. by vm_compute. Qed.

(** The two ranks are within the samples and in order. *)
Lemma ranks_ordered l :
  (0 < length l)%nat → Z.of_nat (length l) < 2 ^ 53 →
  ∃ i j, (i <= j)%nat ∧ (j < length l)%nat ∧
    nearestRank l half = nth i l NaN ∧ nearestRank l ninety_five = nth j l NaN.
Proof.
  intros Hl Hb.
  destruct (rank_index_spec l half (1 # 2) half_value) as (r1 & E1 & H10 & H1n & R1); [done|done|done|done|done|].
  destruct (rank_index_spec l ninety_five q95 ninety_five_value) as (r2 & E2 & H20 & H2n & R2);
    [by vm_compute|by vm_compute|by vm_compute|done|done|].
  assert (r1 <= r2)%Q as Hr.
  { apply num_leb_Fin. rewrite <- E1, <- E2. apply num_of_Q_mono.
    - apply Qmult_le_0_compat; [done|]. unfold Qle. cbn [Qnum Qden]. lia.
    - apply Qmult_le_compat_r; [by vm_compute|]. unfold Qle. cbn [Qnum Qden]. lia. }
  apply Qceiling_resp_le in Hr.
  pose proof (Qceiling_resp_le r2 (inject_Z (Z.of_nat (length l))) H2n) as Hn. rewrite Qceiling_Z in Hn.
  unfold nearestRank. rewrite R1, R2. unfold num_Z, NInt, num_int. unfold default, id.
  eexists _, _. split; [|split; [|by split]]; lia.
Qed.

(** ** Summaries of numbers *)

(** A summary of no numbers, or of some: four of them, rounded, in order, the
    first and the last the least and the greatest. *)
Definition summarizes (l : list num) (n : number_summary) : Prop :=
  sampleCount n = Z.of_nat (length l) ∧
  (l = [] → minimum n = VNull ∧ p50 n = VNull ∧ p95 n = VNull ∧ maximum n = VNull ∧ mean n = VNull) ∧
  (l ≠ [] → ∃ a b c d, a ∈ l ∧ b ∈ l ∧ c ∈ l ∧ d ∈ l ∧
    (∀ x, x ∈ l → num_le a x ∧ num_le x d) ∧
    minimum n = VNum (round a) ∧ p50 n = VNum (round b) ∧ p95 n = VNum (round c) ∧ maximum n = VNum (round d) ∧
    num_leb (round a) (round b) = true ∧ num_leb (round b) (round c) = true ∧ num_leb (round c) (round d) = true).

Lemma round_mono a b : ordinary a → ordinary b → num_le a b → num_leb (round a) (round b) = true.
Proof. intros (Ha & Ha0 & _) (Hb & _ & Hb1) H. unfold round. apply fixed_mono; try done. lia. Qed.

Lemma elem_of_sort l y : y ∈ sort_nums l ↔ y ∈ l.
Proof. by rewrite (sort_perm l). Qed.

Lemma nth_sorted_elem l i : (i < length l)%nat → nth i (sort_nums l) NaN ∈ l.
Proof.
  intros Hi. apply elem_of_sort. apply list_elem_of_In, nth_In. by rewrite (Permutation_length (sort_perm l)).
Qed.

Lemma last_nth (l : list num) : List.last l NaN = nth (length l - 1) l NaN.
Proof.
  induction l as [|a [|b l] IH]; [done|done|]. cbn [List.last] in *. rewrite IH. cbn [length nth].
  by replace (S (S (length l)) - 1)%nat with (S (S (length l) - 1)) by lia.
Qed.

Lemma summarizeNumbers_spec l :
  Forall ordinary l → Z.of_nat (length l) < 2 ^ 53 → summarizes l (summarizeNumbers l).
Proof.
  intros Ho Hb. pose proof (Permutation_length (sort_perm l)) as Hlen.
  assert (StronglySorted num_le (sort_nums l)) as Hs.
  { apply sort_sorted. eapply Forall_impl; [exact Ho|]. by intros a (? & _). }
  destruct l as [|x l]; [by repeat split|].
  destruct (ranks_ordered (sort_nums (x :: l))) as (i & j & Hij & Hj & Ei & Ej); [rewrite Hlen; cbn; lia|by rewrite Hlen|].
  set (k := x :: l) in *. assert (0 < length k)%nat as Hk by (cbn; lia).
  unfold summarizeNumbers. change (match k with [] => _ | _ :: _ => ?b end) with b.
  rewrite Ei, Ej, last_nth, Hlen in *. split; [done|]. split; [done|]. intros _.
  assert (∀ m n, (m <= n)%nat → (n < length k)%nat → num_le (nth m (sort_nums k) NaN) (nth n (sort_nums k) NaN)) as Hle.
  { intros m n Hmn Hn. apply sorted_nth; [done|done|by rewrite Hlen]. }
  exists (nth 0 (sort_nums k) NaN), (nth i (sort_nums k) NaN), (nth j (sort_nums k) NaN), (nth (length k - 1) (sort_nums k) NaN).
  assert (∀ m, (m < length k)%nat → nth m (sort_nums k) NaN ∈ k) as Hin by (intros m; apply nth_sorted_elem).
  rewrite Forall_forall in Ho.
  do 4 (split; [apply Hin; lia|]). split.
  { intros y Hy. apply elem_of_sort in Hy. apply list_elem_of_In, (In_nth _ _ NaN) in Hy as (m & Hm & <-).
    rewrite Hlen in Hm. split; apply Hle; lia. }
  do 4 (split; [done|]). repeat split; (apply round_mono; [apply Ho, Hin; lia|apply Ho, Hin; lia|apply Hle; lia]).
Qed.

(** ** The loop over the samples *)

(** What the samples give for a latency, and how many have an outcome. *)
Definition latencies (name : string) (samples : list value) : list num :=
  samples ≫= λ s, if given (field s (js name)) then [v_num (field s (js name))] else [].
Definition outcomes (name : string) (samples : list value) : Z :=
  Z.of_nat (length (List.filter (λ s, strict_eq (field s (js "outcome")) (VStr (js name))) samples)).

Definition latency_names : list string :=
  ["acknowledgementLatencyMilliseconds"; "inclusionLatencyMilliseconds"; "receiptLatencyMilliseconds"]%string.

(** A sample that is accepted: of a known outcome, included exactly when that is
    committed, with latencies that are finite, not negative, in order, and those of
    inclusion only when included. *)
Record accepted (s : value) : Prop := Accepted {
  known_outcome : ∃ o, field s (js "outcome") = VStr o ∧ o ∈ OUTCOMES ∧
                  field s (js "included") = VBool (committed_outcome o);
  finite_latencies : ∀ name, name ∈ latency_names → given (field s (js name)) = true →
                     nonneg_finite (field s (js name)) = true;
  ordered_latencies : assertLatencyOrder s 0 = Ok ();
  only_included : ∀ name, name ∈ tail latency_names → given (field s (js name)) = true →
                  field s (js "included") = VBool true;
}.

Lemma collectLatency_Ok s name target i target' :
  collectLatency s name target i = Ok target' →
  target' = target ++ latencies name [s] ∧
  (given (field s (js name)) = true → nonneg_finite (field s (js name)) = true).
Proof.
  unfold collectLatency, latencies. cbn [mbind list_bind]. rewrite app_nil_r.
  destruct (given (field s (js name))); intros H; [|apply Ok_inj in H as <-; by rewrite app_nil_r].
  unfold assertNonNegativeFinite in H. destruct (nonneg_finite _); [|done]. by apply Ok_inj in H as <-.
Qed.

Lemma order_index s i j : assertLatencyOrder s i = Ok () → assertLatencyOrder s j = Ok ().
Proof. unfold assertLatencyOrder. destruct (_ && _); [done|]. by destruct (_ && _). Qed.

(** One sample: what the counts and the lists become. *)
Lemma add_sample_Ok t i s t' :
  add_sample t i s = Ok t' →
  accepted s ∧
  (∃ o, field s (js "outcome") = VStr o ∧
     counts t' = (if committed_outcome o then count_included else id) (count_outcome o (counts t))) ∧
  acknowledgementLatencies t' = acknowledgementLatencies t ++ latencies "acknowledgementLatencyMilliseconds" [s] ∧
  inclusionLatencies t' = inclusionLatencies t ++ latencies "inclusionLatencyMilliseconds" [s] ∧
  receiptLatencies t' = receiptLatencies t ++ latencies "receiptLatencyMilliseconds" [s].
Proof.
  unfold add_sample. intros H. take H as u0 H0. destruct (is_object s); [|done]. clear u0 H0. cbv zeta in H.
  take H as u1 H1. destruct (field s (js "outcome")) as [| | | |o| |] eqn:Eo; try done. cbn [is_string v_str andb] in *.
  destruct (jmem o OUTCOMES) eqn:Em; [|done]. apply jmem_spec in Em. clear u1 H1.
  take H as u2 H2. destruct (field s (js "included")) as [| |b| | | |] eqn:Ei; try done. clear u2 H2.
  take H as u3 H3. cbn [strict_eq] in H3. destruct (Bool.eqb b (committed_outcome o)) eqn:Eb; [|done]. clear u3 H3.
  apply Bool.eqb_true_iff in Eb as ->. cbn [truthy] in H.
  take H as c Hc. take H as ack Ha. take H as inc Hi. take H as rec Hr.
  passed H as Hord. take H as gas Hg. apply Ok_inj in H as <-.
  apply collectLatency_Ok in Ha as [-> Fa], Hi as [-> Fi], Hr as [-> Fr]. cbn [counts acknowledgementLatencies inclusionLatencies receiptLatencies].
  split; [|split; [|done]].
  - split.
    + by exists o.
    + intros name Hn. unfold latency_names in Hn. by apply elem_of_cons in Hn as [->|[->|[->|Hn%elem_of_nil]%elem_of_cons]%elem_of_cons].
    + by eapply order_index.
    + intros name Hn Hg'. rewrite Ei. destruct (committed_outcome o); [done|]. exfalso.
      unfold latency_names in Hn. cbn [tail] in Hn. apply elem_of_cons in Hn as [->|[->|Hn%elem_of_nil]%elem_of_cons];
        [| |done]; rewrite Hg' in Hc; [done|]. by rewrite orb_true_r in Hc.
  - exists o. split; [done|]. destruct (committed_outcome o); [by apply Ok_inj in Hc as <-|].
    destruct (_ || _); [done|]. by apply Ok_inj in Hc as <-.
Qed.

Lemma latencies_app name l k : latencies name (l ++ k) = latencies name l ++ latencies name k.
Proof. apply bind_app. Qed.

(** The counts after the samples [l]. *)
Definition counted (c0 c : case_counts) (l : list value) : Prop :=
  sample c = sample c0 ∧
  committedSuccess c = committedSuccess c0 + outcomes "success" l ∧
  committedRevert c = committedRevert c0 + outcomes "expected-revert" l ∧
  unexpectedRevert c = unexpectedRevert c0 + outcomes "unexpected-revert" l ∧
  submissionFailed c = submissionFailed c0 + outcomes "submission-failed" l ∧
  dropped c = dropped c0 + outcomes "dropped" l ∧
  includedCommitted c = includedCommitted c0
    + (outcomes "success" l + outcomes "expected-revert" l + outcomes "unexpected-revert" l) ∧
  Z.of_nat (length l) = outcomes "success" l + outcomes "expected-revert" l + outcomes "unexpected-revert" l
    + outcomes "submission-failed" l + outcomes "dropped" l.

Lemma outcomes_cons name s o l :
  field s (js "outcome") = VStr o →
  outcomes name (s :: l) = (if o =s? js name then 1 else 0) + outcomes name l.
Proof.
  intros H. unfold outcomes. cbn [List.filter]. rewrite H. cbn [strict_eq].
  destruct (o =s? js name); cbn [length]; lia.
Qed.

Lemma count_step o c0 s :
  field s (js "outcome") = VStr o → o ∈ OUTCOMES →
  counted c0 ((if committed_outcome o then count_included else id) (count_outcome o c0)) [s].
Proof.
  intros H Ho. unfold counted. rewrite !(outcomes_cons _ s o []) by done.
  unfold OUTCOMES in Ho. repeat (apply elem_of_cons in Ho as [->|Ho]); [..|by apply elem_of_nil in Ho]; clear H;
    unfold count_outcome; cbv zeta;
    repeat match goal with
    | |- context [js ?a =s? js ?b] => let v := eval vm_compute in (js a =s? js b) in change (js a =s? js b) with v
    | |- context [committed_outcome ?a] =>
        let v := eval vm_compute in (committed_outcome a) in change (committed_outcome a) with v
    end; cbv iota; unfold outcomes, count_included, id; destruct c0 as [n0 n1 n2 n3 n4 n5 n6];
    cbn [sample includedCommitted committedSuccess committedRevert unexpectedRevert submissionFailed dropped
         List.filter length]; repeat split; lia.
Qed.

Lemma counted_trans c0 c1 c2 l k : counted c0 c1 l → counted c1 c2 k → counted c0 c2 (l ++ k).
Proof.
  unfold counted. intros H1 H2. assert (∀ name, outcomes name (l ++ k) = outcomes name l + outcomes name k) as Happ.
  { intros name. unfold outcomes. rewrite List.filter_app, length_app. lia. }
  rewrite !Happ, length_app. lia.
Qed.

Lemma add_samples_Ok t i l t' :
  add_samples t i l = Ok t' →
  Forall accepted l ∧ counted (counts t) (counts t') l ∧
  acknowledgementLatencies t' = acknowledgementLatencies t ++ latencies "acknowledgementLatencyMilliseconds" l ∧
  inclusionLatencies t' = inclusionLatencies t ++ latencies "inclusionLatencyMilliseconds" l ∧
  receiptLatencies t' = receiptLatencies t ++ latencies "receiptLatencyMilliseconds" l.
Proof.
  revert t i. induction l as [|s l IH]; intros t i H; cbn [add_samples] in H.
  { apply Ok_inj in H as <-. rewrite !app_nil_r. repeat split; try done; unfold outcomes; cbn [List.filter length]; lia. }
  take H as t1 H1. apply add_sample_Ok in H1 as (Ha & (o & Ho & Hc) & A1 & I1 & R1).
  destruct (IH _ _ H) as (Hl & Hcl & A2 & I2 & R2).
  split; [by constructor|]. split.
  - apply (counted_trans _ (counts t1) _ [s] l); [|done]. rewrite Hc.
    destruct (known_outcome _ Ha) as (o' & Ho' & Hin & _). rewrite Ho in Ho'. simplify_eq. by apply count_step.
  - rewrite A2, I2, R2, A1, I1, R1, <- !app_assoc. change (s :: l) with ([s] ++ l). by rewrite !latencies_app.
Qed.

(** Where the summary of an input comes from. *)
Lemma summarize_Ok input s :
  summarizeCaseSamples input = Ok s →
  let l := v_list (field input (js "samples")) in
  l ≠ [] ∧ Forall accepted l ∧ counted (CaseCounts (Z.of_nat (length l)) 0 0 0 0 0 0) (case_counts_of s) l ∧
  acknowledgement s = summarizeNumbers (latencies "acknowledgementLatencyMilliseconds" l) ∧
  inclusion s = summarizeNumbers (latencies "inclusionLatencyMilliseconds" l) ∧
  receipt s = summarizeNumbers (latencies "receiptLatencyMilliseconds" l).
Proof.
  unfold summarizeCaseSamples. intros H. cbv zeta in *. passed H as H1. passed H as H2. passed H as H3.
  passed H as H4. passed H as H5. passed H as H6. passed H as H7. take H as t Ht. apply Ok_inj in H as <-.
  destruct (is_array _ && negb (bool_decide _)) eqn:E in H7; [|done].
  apply andb_true_iff in E as [_ E]. apply negb_true_iff, bool_decide_eq_false in E.
  apply add_samples_Ok in Ht as (Hall & Hc & Ha & Hi & Hr). split; [done|]. split; [done|]. split; [done|].
  cbn [acknowledgement inclusion receipt]. by rewrite Ha, Hi, Hr.
Qed.

(** The counts of a summary are exact: of the samples of the input, each
    outcome as many as have it, the included ones those of a committed outcome, and
    together all of them; and every sample counted has latencies that are finite, not
    negative and in order, of inclusion and receipt only when it was included. *)
Theorem summary_counts_exact input s :
  summarizeCaseSamples input = Ok s →
  let l := v_list (field input (js "samples")) in
  let c := case_counts_of s in
  l ≠ [] ∧ Forall accepted l ∧ sample c = Z.of_nat (length l) ∧
  committedSuccess c = outcomes "success" l ∧ committedRevert c = outcomes "expected-revert" l ∧
  unexpectedRevert c = outcomes "unexpected-revert" l ∧ submissionFailed c = outcomes "submission-failed" l ∧
  dropped c = outcomes "dropped" l ∧
  includedCommitted c = committedSuccess c + committedRevert c + unexpectedRevert c ∧
  sample c = includedCommitted c + submissionFailed c + dropped c.
Proof.
  intros (Hne & Hall & Hc & _)%summarize_Ok. cbv zeta. split; [done|]. split; [done|]. unfold counted in Hc.
  cbn [sample includedCommitted committedSuccess committedRevert unexpectedRevert submissionFailed dropped] in Hc.
  clear Hne Hall. lia.
Qed.

Lemma latencies_ordinary name l :
  Forall accepted l → name ∈ latency_names →
  (∀ x, x ∈ latencies name l → (num_q x < 10 ^ 21 # 1)%Q) → Forall ordinary (latencies name l).
Proof.
  intros Hall Hn Hb. apply Forall_forall. intros x Hx. pose proof (Hb x Hx) as Hxb.
  unfold latencies in Hx. apply list_elem_of_bind in Hx as (s & Hx & Hs). rewrite Forall_forall in Hall.
  destruct (given (field s (js name))) eqn:E; [|by apply elem_of_nil in Hx]. apply list_elem_of_singleton in Hx as ->.
  pose proof (finite_latencies _ (Hall s Hs) name Hn E) as Hf. unfold nonneg_finite in Hf. inv_bool.
  assert (is_finite (v_num (field s (js name))) = true) as Hfin by (destruct (field s (js name)); done).
  split; [done|]. split; [|done]. rewrite num_ltb_finite in * by done.
  match goal with H : negb (num_leb _ _) = false |- _ => apply negb_false_iff in H; apply num_leb_finite in H; [exact H|done|done] end.
Qed.

(** The percentiles of a summary are sound: of latencies below 10^21 ms, the
    minimum, the 50th and 95th percentile and the maximum reported are latencies of
    samples, rounded to six places, the first the least and the last the greatest, and
    as reported they are in order; a latency that no sample gives is reported as
    null. *)
Theorem percentiles_ordered input s :
  summarizeCaseSamples input = Ok s →
  let l := v_list (field input (js "samples")) in
  (∀ name x, name ∈ latency_names → x ∈ latencies name l → (num_q x < 10 ^ 21 # 1)%Q) →
  Z.of_nat (length l) < 2 ^ 53 →
  summarizes (latencies "acknowledgementLatencyMilliseconds" l) (acknowledgement s) ∧
  summarizes (latencies "inclusionLatencyMilliseconds" l) (inclusion s) ∧
  summarizes (latencies "receiptLatencyMilliseconds" l) (receipt s).
Proof.
  intros (Hne & Hall & _ & -> & -> & ->)%summarize_Ok l Hb Hlen.
  assert (∀ name, name ∈ latency_names → summarizes (latencies name l) (summarizeNumbers (latencies name l))) as Hone.
  { intros name Hn. apply summarizeNumbers_spec; [by apply latencies_ordinary; [| |intros x; apply Hb]|].
    eapply Z.le_lt_trans; [|exact Hlen]. apply inj_le. clear. unfold latencies.
    induction l as [|v l IH]; [done|]. cbn [mbind list_bind length] in *. rewrite length_app.
    destruct (given _); cbn [length]; lia. }
  unfold latency_names in Hone.
  split; [|split]; apply Hone; [apply list_elem_of_here|apply list_elem_of_further, list_elem_of_here|
    do 2 apply list_elem_of_further; apply list_elem_of_here].
Qed.

(** ** A case of three samples *)

Module Samples.

Definition sample_input : value := VObj [
  "caseId" :=: vs "c"; "workloadId" :=: vs "w"; "startedAtMilliseconds" :=: vi 0; "endedAtMilliseconds" :=: vi 2000;
  "samples" :=: VArr [
    VObj ["outcome" :=: vs "success"; "included" :=: VBool true; "acknowledgementLatencyMilliseconds" :=: vi 3;
          "inclusionLatencyMilliseconds" :=: vi 40; "gasUsed" :=: vi 21000];
    VObj ["outcome" :=: vs "dropped"; "included" :=: VBool false; "acknowledgementLatencyMilliseconds" :=: vi 2];
    VObj ["outcome" :=: vs "expected-revert"; "included" :=: VBool true;
          "acknowledgementLatencyMilliseconds" :=: vi 1; "inclusionLatencyMilliseconds" :=: vi 20]]]%js.

Definition sample_summary : summary :=
  match summarizeCaseSamples sample_input with
  | Ok s => s
  | Throw _ => let n := NumberSummary 0 VNull VNull VNull VNull VNull in
      Summary [] [] (CaseCounts 0 0 0 0 0 0 0) NaN NaN NaN n n n 0 NaN VNull
  end.

Lemma sample_summarized :
  summarizeCaseSamples sample_input = Ok sample_summary ∧
  includedCommittedTps sample_summary = NInt 1 ∧ p50 (acknowledgement sample_summary) = vi 2.
Proof. vm_compute. done. Qed.

Lemma summary_counts_exact_witness :
  sample (case_counts_of sample_summary) = 3 ∧
  sample (case_counts_of sample_summary) = includedCommitted (case_counts_of sample_summary)
    + submissionFailed (case_counts_of sample_summary) + dropped (case_counts_of sample_summary).
Proof.
  destruct (summary_counts_exact sample_input sample_summary (proj1 sample_summarized))
    as (_ & _ & H & _ & _ & _ & _ & _ & _ & Hall).
  split; [exact H|exact Hall].
Defined.

Definition sample_bounds : bool :=
  forallb (λ name, forallb (λ x, negb (Qle_bool (10 ^ 21 # 1) (num_q x)))
    (latencies name (v_list (field sample_input (js "samples"))))) latency_names.

Lemma percentiles_ordered_witness :
  summarizes (latencies "acknowledgementLatencyMilliseconds" (v_list (field sample_input (js "samples"))))
    (acknowledgement sample_summary).
Proof.
  apply (percentiles_ordered sample_input sample_summary (proj1 sample_summarized)).
  - intros name x Hn Hx. assert (sample_bounds = true) as H by by vm_compute.
    unfold sample_bounds in H. rewrite forallb_forall in H. apply list_elem_of_In in Hn, Hx.
    specialize (H name Hn). rewrite forallb_forall in H. specialize (H x Hx).
    apply Qnot_le_lt. intros Hle. apply Qle_bool_iff in Hle. rewrite Hle in H. discriminate H.
  - reflexivity.
Defined.

End Samples.
