(* ===== verification/GeneratedFiles.v ===== *)
(** What the scripts of src/contracts/scripts/ share about the files that the
    repository generates: JSON with its keys in collation order, checksums, the
    text that must not appear in them, and lookups in documents. *)

From S2P Require Import Prelude JsNum JsText JsUtf8 JsValue JsOps JsonText JsPath Deploy.

Open Scope Z_scope.

(** ** Documents *)

(** [assert.equal(a, b, msg)], and with its own message. *)
Definition equal (a b : value) (msg : jstr) : result () := assert (same_value a b) msg.
Definition not_equal : jstr := js "Expected values to be strictly equal".
Definition not_deep_equal : jstr := js "Expected values to be strictly deep-equal".
Definition not_matched : jstr := js "The input did not match the regular expression".

(** [assert.equal(v.a.b, w)] and [assert.deepEqual(v.a.b, w)]. *)
Definition equal_at (v : value) (ks : list string) (w : value) : result () :=
  x ← walk v ks; equal x w not_equal.
Definition deep_equal_at (v : value) (ks : list string) (w : value) : result () :=
  x ← walk v ks; assert (deep_equal x w) not_deep_equal.

Definition is_id (id : jstr) (entry : value) : result bool :=
  k ← get entry (js "id"); Ok (strict_eq k (VStr id)).

(** [l.find((x) => x[k] === w)]. *)
Definition find_by (k : string) (w : value) (v : value) : result value :=
  l ← as_array v; find_res (λ x, y ← get x (js k); Ok (strict_eq y w)) l.

(** [l.filter(f)] where [f] may throw. *)
Fixpoint filter_res (f : value → result bool) (l : list value) : result (list value) :=
  match l with
  | [] => Ok []
  | x :: l' => b ← f x; r ← filter_res f l'; Ok (if b : bool then x :: r else r)
  end.

(** [Object.keys(v)]. *)
Definition own_keys (v : value) : result (list jstr) :=
  let indices n := map (λ i, dec_of_Z (Z.of_nat i)) (seq 0 n) in
  match v with
  | VUndef | VNull => type_error (js "Cannot convert undefined or null to object")
  | VObj fs => Ok (map fst fs)
  | VArr l => Ok (indices (length l))
  | VStr s => Ok (indices (length s))
  | _ => Ok []
  end.

(** The code points of a string, each as its code units. *)
Fixpoint code_points (s : jstr) : list jstr :=
  match s with
  | [] => []
  | h :: ((l :: s') as r) => if is_high h && is_low l then [h; l] :: code_points s' else [h] :: code_points r
  | [h] => [[h]]
  end.

(** [[...v]]. *)
Definition spread (v : value) : result (list value) :=
  match v with
  | VArr l => Ok l
  | VStr s => Ok (map VStr (code_points s))
  | _ => type_error (js "object is not iterable")
  end.

(** Whether the sorted names are the sorted strings of [l]. *)
Definition same_strings (names : list jstr) (l : list value) : bool :=
  forallb is_string l && bool_decide (sort_strings names = sort_strings (map v_str l)).

(** ** Stable JSON *)

Section stable.
(** Whether [left.localeCompare(right)] is at most 0. *)
Context (collate : jstr → jstr → bool).

Definition entry_before {A} (a b : jstr * A) : Prop := collate (fst a) (fst b) = true.

#[export] Instance entry_before_dec A : RelDecision (@entry_before A).
Proof. intros a b. unfold entry_before. apply _. Defined.

(** [Object.fromEntries(entries)]. *)
Definition fromEntries {A} (entries : list (jstr * A)) : list (jstr * A) :=
  fold_left (λ fs kv, set_own (fst kv) (snd kv) fs) entries [].

(** The entries are sorted by key, so their values may be mapped first. *)
Fixpoint stableValue (v : value) : value :=
  match v with
  | VArr l => VArr (map stableValue l)
  | VObj fs => VObj (fromEntries (merge_sort entry_before (map (λ '(key, item), (key, stableValue item)) fs)))
  | _ => v
  end.

(** [`${JSON.stringify(stableValue(v), null, 2)}\n`]. *)
Definition jsonText (v : value) : jstr := stringify 2 0 (stableValue v) +++ [10%N].

(** [sha256(value)] of a string and of bytes. *)
Definition sha256_text (lib : library) (s : jstr) : jstr := sha256 lib (utf8_encode s).

Definition abiSha256 (lib : library) (abi : value) : result jstr :=
  if is_undefined abi then type_error (js "The data argument must be of type string")
  else Ok (sha256_text lib (stringify 0 0 (stableValue abi))).

End stable.

(** ** Text that must not be generated *)

Inductive unsafe := ForbiddenText (text : jstr) | CredentialHeader | TimestampField.

Definition is_line_end (c : N) : bool := (c =? 10)%N || (c =? 13)%N || (c =? 8232)%N || (c =? 8233)%N.

(** Case folding as far as it reaches the letters of the patterns: the Kelvin
    sign folds to k and the long s to s. *)
Definition fold_case (c : N) : N :=
  if (c =? 8490)%N then 107%N else if (c =? 383)%N then 115%N else lower_char c.

(** What follows the prefix [p], read through [f]. *)
Fixpoint after (f : N → N) (p s : jstr) : option jstr :=
  match p, s with
  | [], _ => Some s
  | x :: p', y :: s' => if (x =? f y)%N then after f p' s' else None
  | _ :: _, [] => None
  end.

(** [\s*:] *)
Definition spaces_colon (s : jstr) : bool :=
  match snd (span is_space s) with c :: _ => (c =? 58)%N | [] => false end.

Definition followed_by (f : N → N) (p : jstr) (k : jstr → bool) (s : jstr) : bool :=
  match after f p s with Some r => k r | None => false end.

(** [/^(?:authorization|cookie)\s*:/imu]; [start] tells whether [s] begins a line. *)
Definition credential_names : list jstr := [js "authorization"; js "cookie"].
Fixpoint has_credential_header (start : bool) (s : jstr) : bool :=
  (start && existsb (λ p, followed_by fold_case p spaces_colon s) credential_names)
  || match s with [] => false | c :: s' => has_credential_header (is_line_end c) s' end.

(** ["(?:generatedAt|createdAt|updatedAt|timestamp)"\s*:] *)
Definition timestamp_keys : list jstr := [js "generatedAt"; js "createdAt"; js "updatedAt"; js "timestamp"].
Fixpoint has_timestamp_field (s : jstr) : bool :=
  existsb (λ p, followed_by id (34%N :: p ++ [34%N]) spaces_colon s) timestamp_keys
  || match s with [] => false | _ :: s' => has_timestamp_field s' end.

Definition forbidden_texts (repositoryRoot : jstr) : list jstr :=
  [repositoryRoot; js "/Users/"; js "/home/"; js "PRIVATE KEY"; js "PRIVATE_KEY"; js "MNEMONIC"; js "SEED_PHRASE"].

(** The first thing wrong with the text, in the order it is looked for. *)
Definition unsafe_text (toUpperCase : jstr → jstr) (repositoryRoot contents : jstr) : option unsafe :=
  match List.find (λ v, includes (toUpperCase v) (toUpperCase contents)) (forbidden_texts repositoryRoot) with
  | Some v => Some (ForbiddenText v)
  | None =>
      if has_credential_header true contents then Some CredentialHeader
      else if has_timestamp_field contents then Some TimestampField
      else None
  end.

(** ** Hexadecimal text *)

(** [/^[0-9a-f]{64}$/u], after 0x when [prefixed]. *)
Definition is_hash_text (prefixed : bool) (v : value) : bool :=
  match v with
  | VStr s =>
      if prefixed then
        match s with
        | 48%N :: 120%N :: ds => Nat.eqb (length ds) 64 && forallb is_lower_hex ds
        | _ => false
        end
      else Nat.eqb (length s) 64 && forallb is_lower_hex s
  | _ => false
  end.

(** [/^0x(?:[0-9a-f]{2})*$/u], with capital digits too when [any_case]. *)
Definition is_bytes_text (any_case : bool) (s : jstr) : bool :=
  match s with
  | 48%N :: 120%N :: ds => Nat.even (length ds) && forallb (if any_case then is_hex else is_lower_hex) ds
  | _ => false
  end.
