(* ===== verification/GeneratedFilesFacts.v ===== *)
(** Facts on generated files: lookups and [assert.deepEqual], the canonical form
    of stable JSON, and what the search for forbidden text tells. *)

From S2P Require Import Prelude JsNum JsText JsUtf8 JsValue JsOps JsonText JsPath Deploy GeneratedFiles.

Open Scope Z_scope.

(** ** Own properties *)

Lemma assoc_set_own {A} k k' (v : A) fs :
  assoc k' (set_own k v fs) = if k' =s? k then Some v else assoc k' fs.
Proof.
  induction fs as [|[k1 v1] fs IH]; cbn [set_own assoc]; [done|].
  destruct (k =s? k1) eqn:E.
  - apply jeq_spec in E as <-. cbn [assoc]. by destruct (k' =s? k).
  - destruct (index_before k k1); [done|]. cbn [assoc]. rewrite IH. destruct (k' =s? k1) eqn:E1; [|done].
    apply jeq_spec in E1 as ->. destruct (k1 =s? k) eqn:E2; [|done].
    apply jeq_spec in E2. apply jeq_neq in E. congruence.
Qed.

Lemma assoc_in_nodup {A} k (v : A) fs : NoDup (map fst fs) → assoc k fs = Some v ↔ (k, v) ∈ fs.
Proof.
  intros Hn. split; [apply assoc_elem|]. induction fs as [|[k1 v1] fs IH]; [by intros ?%elem_of_nil|].
  cbn [map fst] in Hn. apply NoDup_cons in Hn as [Hk Hn]. cbn [assoc]. intros [[= -> ->]|H]%elem_of_cons.
  - by rewrite jeq_refl.
  - assert ((k =s? k1) = false) as ->; [|by apply IH]. apply jeq_neq. intros ->.
    apply Hk, elem_of_map. by exists (k1, v).
Qed.

Lemma assoc_map_snd {A B} (f : A → B) k fs :
  assoc k (map (λ '(k, x), (k, f x)) fs) = f <$> assoc k fs.
Proof. induction fs as [|[k1 x] fs IH]; [done|]. cbn. by destruct (k =s? k1). Qed.

Lemma assoc_perm {A} k (fs gs : list (jstr * A)) : NoDup (map fst fs) → fs ≡ₚ gs → assoc k fs = assoc k gs.
Proof.
  intros Hn Hp. assert (NoDup (map fst gs)) as Hg by by rewrite <- Hp.
  destruct (assoc k fs) as [v|] eqn:E.
  - symmetry. apply assoc_in_nodup; [done|]. rewrite <- Hp. by apply assoc_elem.
  - destruct (assoc k gs) as [v|] eqn:E'; [|done]. apply assoc_elem in E'. rewrite <- Hp in E'.
    by rewrite (proj2 (assoc_in_nodup k v fs Hn) E') in E.
Qed.

Lemma map_fst_map {A B} (f : A → B) (fs : list (jstr * A)) :
  map fst (map (λ '(k, x), (k, f x)) fs) = map fst fs.
Proof. rewrite map_map. apply map_ext. by intros [k x]. Qed.

(** ** Deep equality *)

Lemma deep_equal_arr l k :
  deep_equal (VArr l) (VArr k) = true ↔ Forall2 (λ x y, deep_equal x y = true) l k.
Proof.
  revert k. induction l as [|x l IH]; intros [|y k]; try (split; [done|by inversion 1]).
  rewrite Forall2_cons, <- IH. cbn [deep_equal]. apply andb_true_iff.
Qed.

Lemma deep_equal_obj fs gs :
  deep_equal (VObj fs) (VObj gs) = true ↔
  length fs = length gs ∧ Forall (λ kv, ∃ y, assoc (fst kv) gs = Some y ∧ deep_equal (snd kv) y = true) fs.
Proof.
  cbn [deep_equal]. rewrite andb_true_iff, Nat.eqb_eq. apply and_iff_compat_l.
  induction fs as [|[k x] fs IH]; [by split|]. rewrite Forall_cons, <- IH, andb_true_iff. cbn [fst snd].
  apply and_iff_compat_r. destruct (assoc k gs) as [y|]; split; [eauto| |done|by intros (? & ? & _)].
  by intros (? & [= <-] & ?).
Qed.

Lemma deep_equal_obj_inv fs w : deep_equal (VObj fs) w = true → ∃ gs, w = VObj gs.
Proof. destruct w; try done. eauto. Qed.

(** What [deepEqual] says of a member. *)
Lemma deep_equal_member fs gs k x :
  deep_equal (VObj fs) (VObj gs) = true → assoc k fs = Some x →
  ∃ y, assoc k gs = Some y ∧ deep_equal x y = true.
Proof.
  intros [_ H]%deep_equal_obj Hk%assoc_elem. rewrite Forall_forall in H. apply (H _ Hk).
Qed.

Lemma deep_equal_text s w : deep_equal (VStr s) w = true ↔ w = VStr s.
Proof. destruct w; cbn [deep_equal]; try done. rewrite jeq_spec. split; [by intros ->|by intros [= ->]]. Qed.

Lemma deep_equal_num n w : deep_equal (VNum n) w = true ↔ w = VNum n.
Proof.
  destruct w; cbn [deep_equal]; try done. unfold num_is. rewrite bool_decide_eq_true.
  split; [by intros ->|by intros [= ->]].
Qed.

Lemma deep_equal_refl v : json_data v = true → deep_equal v v = true.
Proof.
  induction v as [| |b|n|s|l IH|fs IH] using value_induct; intros Hv; try done.
  - cbn [deep_equal]. by destruct b.
  - by apply deep_equal_num.
  - by apply deep_equal_text.
  - apply deep_equal_arr. apply json_data_arr in Hv. rewrite Forall_forall in IH, Hv.
    apply Forall2_same_length_lookup_2; [done|]. intros i x y Hx Hy. simplify_eq.
    apply list_elem_of_lookup_2 in Hx. by apply IH, Hv.
  - apply json_data_obj in Hv as [Hn Hv]. apply deep_equal_obj. split; [done|].
    rewrite Forall_forall in *. intros [k x] Hx. exists x.
    split; [by apply assoc_in_nodup|]. apply (IH (k, x) Hx), (Hv (k, x) Hx).
Qed.

(** ** Stable JSON *)

(** A property of every key at every depth. *)
Fixpoint every_key (p : jstr → bool) (v : value) : bool :=
  match v with
  | VArr l => forallb (every_key p) l
  | VObj fs => forallb (λ '(k, x), p k && every_key p x) fs
  | _ => true
  end.

Lemma every_key_arr p l : every_key p (VArr l) = true ↔ Forall (λ x, every_key p x = true) l.
Proof. apply forallb_spec. Qed.

Lemma every_key_obj p fs :
  every_key p (VObj fs) = true ↔ Forall (λ kv, p (fst kv) = true ∧ every_key p (snd kv) = true) fs.
Proof.
  cbn [every_key]. rewrite forallb_spec. apply Forall_iff. intros [k x]. apply andb_true_iff.
Qed.

(** The collation behind [localeCompare]: a total preorder that tells the [plain]
    keys apart. *)
Record collates (collate : jstr → jstr → bool) (plain : jstr → bool) : Prop := Collates {
  collate_total : ∀ a b, collate a b = true ∨ collate b a = true;
  collate_trans : ∀ a b c, collate a b = true → collate b c = true → collate a c = true;
  collate_plain : ∀ a b, plain a = true → plain b = true → collate a b = true → collate b a = true → a = b;
}.

Section stable.
Context (collate : jstr → jstr → bool) (plain : jstr → bool) (laws : collates collate plain).

Abbreviation stableValue := (stableValue collate).
Abbreviation before := (entry_before collate).

#[local] Instance before_total A : Total (@GeneratedFiles.entry_before collate A).
Proof. intros a b. apply (collate_total _ _ laws). Qed.

#[local] Instance before_trans A : Transitive (@GeneratedFiles.entry_before collate A).
Proof. intros a b c. apply (collate_trans _ _ laws). Qed.

(** Entries with distinct keys that are no array indices are listed as sorted. *)
Lemma fromEntries_fresh {A} (l : list (jstr * A)) :
  NoDup (map fst l) → Forall (λ kv, array_index (fst kv) = None) l → fromEntries l = l.
Proof.
  unfold fromEntries. intros Hn Hp.
  cut (∀ acc, NoDup (map fst (acc ++ l)) → fold_left (λ fs kv, set_own (fst kv) (snd kv) fs) l acc = acc ++ l).
  { intros Hc. by apply (Hc []). }
  clear Hn. induction Hp as [|[k x] l Hk Hp IH]; intros acc Hn; cbn [fold_left]; [by rewrite app_nil_r|].
  cbn [fst snd] in *. rewrite set_own_fresh; [|done|by eapply NoDup_snoc_fresh].
  rewrite IH, <- app_assoc; [done|]. by rewrite <- app_assoc.
Qed.

(** What [stableValue] makes of an object: its members, sorted. *)
Definition stable_members (fs : list (jstr * value)) : list (jstr * value) :=
  merge_sort before (map (λ '(key, item), (key, stableValue item)) fs).

Lemma stable_members_perm fs : stable_members fs ≡ₚ map (λ '(key, item), (key, stableValue item)) fs.
Proof. apply merge_sort_Permutation. Qed.

Lemma stable_members_keys fs : map fst (stable_members fs) ≡ₚ map fst fs.
Proof. by rewrite stable_members_perm, map_fst_map. Qed.

Lemma stableValue_obj fs :
  json_data (VObj fs) = true → stableValue (VObj fs) = VObj (stable_members fs).
Proof.
  intros [Hn Hp]%json_data_obj. cbn [GeneratedFiles.stableValue]. f_equal. apply fromEntries_fresh.
  - by rewrite stable_members_keys.
  - rewrite stable_members_perm. apply Forall_map. eapply Forall_impl; [exact Hp|]. by intros [k x] [].
Qed.

Lemma stableValue_arr l : stableValue (VArr l) = VArr (map stableValue l).
Proof. done. Qed.

Lemma json_data_stable v : json_data v = true → json_data (stableValue v) = true.
Proof.
  induction v as [| |b|n|s|l IH|fs IH] using value_induct; intros Hv; try done.
  - rewrite stableValue_arr. apply json_data_arr, Forall_map. apply json_data_arr in Hv.
    rewrite Forall_forall in *. auto.
  - rewrite stableValue_obj by done. apply json_data_obj in Hv as [Hn Hp]. apply json_data_obj.
    split; [by rewrite stable_members_keys|]. rewrite stable_members_perm. apply Forall_map.
    rewrite Forall_forall in *. intros [k x] Hx. split; [apply (Hp (k, x) Hx)|].
    apply (IH (k, x) Hx), (Hp (k, x) Hx).
Qed.

(** Properties survive: [stableValue(v).k] is [stableValue(v.k)]. *)
Lemma assoc_stable fs k :
  json_data (VObj fs) = true → assoc k (stable_members fs) = stableValue <$> assoc k fs.
Proof.
  intros [Hn _]%json_data_obj. rewrite (assoc_perm k _ _ ltac:(by rewrite stable_members_keys) (stable_members_perm fs)).
  apply assoc_map_snd.
Qed.

Lemma field_stable v k : json_data v = true → field (stableValue v) k = stableValue (field v k).
Proof.
  destruct v as [| |b|n|s|l|fs]; intros Hv; try done.
  - unfold field. cbn [GeneratedFiles.stableValue]. by destruct (k =s? js "length").
  - rewrite stableValue_arr. unfold field. rewrite length_map. by destruct (k =s? js "length").
  - rewrite stableValue_obj by done. unfold field. rewrite assoc_stable by done. by destruct (assoc k fs).
Qed.

(** Sorting leaves no choice: members in another order have the same stable form. *)
Lemma stable_members_eq fs gs :
  json_data (VObj fs) = true → json_data (VObj gs) = true →
  every_key plain (VObj fs) = true → every_key plain (VObj gs) = true →
  stable_members fs = stable_members gs ↔
  map (λ '(k, x), (k, stableValue x)) fs ≡ₚ map (λ '(k, x), (k, stableValue x)) gs.
Proof.
  intros [Hf _]%json_data_obj [Hg _]%json_data_obj Kf%every_key_obj Kg%every_key_obj. split.
  { intros H. by rewrite <- !stable_members_perm, H. }
  intros H. apply (StronglySorted_unique_strong before).
  - intros [k x] [k' x'] Hx Hx' H1 H2. rewrite stable_members_perm in Hx, Hx'. rewrite <- H in Hx'.
    assert (k = k') as <-.
    { unfold entry_before in H1, H2. apply (collate_plain _ _ laws); try done.
      - apply elem_of_map in Hx as ([k1 x1] & [= -> ->] & Hx). rewrite Forall_forall in Kf. apply (Kf (k1, x1) Hx).
      - apply elem_of_map in Hx' as ([k1 x1] & [= -> ->] & Hx'). rewrite Forall_forall in Kf. apply (Kf (k1, x1) Hx'). }
    apply assoc_in_nodup in Hx, Hx'; try by rewrite map_fst_map. by simplify_eq.
  - apply (StronglySorted_merge_sort before).
  - apply (StronglySorted_merge_sort before).
  - by rewrite !stable_members_perm.
Qed.

(** Two values have one stable form exactly when they are deeply equal. *)
Lemma stableValue_eq v : ∀ w,
  json_data v = true → json_data w = true → every_key plain v = true → every_key plain w = true →
  stableValue v = stableValue w ↔ deep_equal v w = true.
Proof.
  induction v as [| |b|n|s|l IH|fs IH] using value_induct; intros w Hv Hw Kv Kw; try done.
  - destruct w; by split.
  - destruct w; try (split; done). cbn. rewrite Bool.eqb_true_iff. split; [by intros [= ->]|by intros ->].
  - rewrite deep_equal_num. destruct w; by split.
  - rewrite deep_equal_text. destruct w; by split.
  - destruct w as [| |b|n|s|k|gs]; try (split; done).
    rewrite !stableValue_arr, deep_equal_arr. apply json_data_arr in Hv, Hw. apply every_key_arr in Kv, Kw.
    transitivity (map stableValue l = map stableValue k); [split; [by intros [= ->]|by intros ->]|].
    revert k Hw Kw. induction IH as [|x l Hx _ IHl]; intros [|y k] Hw Kw; try (split; [done|by inversion 1]).
    apply Forall_cons in Hv as [Hv1 Hv], Hw as [Hw1 Hw], Kv as [Kv1 Kv], Kw as [Kw1 Kw].
    rewrite Forall2_cons, <- (Hx y), <- IHl by done. cbn [map].
    split; [by intros [= -> ->]|by intros [-> ->]].
  - destruct w as [| |b|n|s|k|gs]; try (split; done).
    rewrite !stableValue_obj by done. rewrite deep_equal_obj.
    transitivity (stable_members fs = stable_members gs); [split; [by intros [= ->]|by intros ->]|].
    rewrite stable_members_eq by done. apply json_data_obj in Hv as [Hn Hv], Hw as [Hm Hw].
    apply every_key_obj in Kv, Kw. rewrite Forall_forall in IH, Hv, Hw, Kv, Kw.
    assert (∀ k x, (k, x) ∈ fs → ∀ y, assoc k gs = Some y → stableValue x = stableValue y ↔ deep_equal x y = true) as Hsub.
    { intros k x Hx y Hy%assoc_elem. apply (IH (k, x) Hx);
        [apply (Hv _ Hx)|apply (Hw _ Hy)|apply (Kv _ Hx)|apply (Kw _ Hy)]. }
    rewrite Forall_forall. split.
    + intros Hp. split; [by apply Permutation_length in Hp; rewrite !length_map in Hp|]. intros [k x] Hx.
      assert (assoc k (map (λ '(k, x), (k, stableValue x)) fs) = assoc k (map (λ '(k, x), (k, stableValue x)) gs)) as Ha.
      { apply assoc_perm; [by rewrite map_fst_map|done]. }
      rewrite !assoc_map_snd in Ha.
      rewrite (proj2 (assoc_in_nodup k x fs Hn) Hx) in Ha. destruct (assoc k gs) as [y|] eqn:E; [|done].
      exists y. split; [done|]. apply (Hsub k); [done|done|]. by simplify_eq/=.
    + intros [Hlen Hin]. apply submseteq_length_Permutation; [|by rewrite !length_map, Hlen].
      apply NoDup_submseteq; [by apply (NoDup_fmap_1 fst); setoid_rewrite map_fst_map|].
      intros [k x'] ([k' x] & [= -> ->] & Hx)%elem_of_map. destruct (Hin _ Hx) as (y & Hy & Hd).
      cbn [fst snd] in Hy, Hd. apply (Hsub _ _ Hx _ Hy) in Hd. rewrite Hd. apply elem_of_map.
      exists (k', y). split; [done|by apply assoc_elem].
Qed.

Lemma jsonText_read v : json_data v = true → json_parse (jsonText collate v) = Ok (stableValue v).
Proof. intros Hv. apply json_parse_line. by apply json_data_stable. Qed.

Lemma stringify_inj gap v w : json_data v = true → json_data w = true → stringify gap 0 v = stringify gap 0 w → v = w.
Proof.
  intros Hv Hw H. pose proof (json_parse_stringify gap v Hv) as E. rewrite H, json_parse_stringify in E by done.
  by simplify_eq.
Qed.

(** C24. The generated JSON is canonical: two documents of JSON data (safe
    integers, distinct keys that are no array indices) with plain keys, which the
    collation tells apart, have the same text exactly when [assert.deepEqual]
    accepts them, whatever the order of their members, and the same goes for the
    text that an ABI checksum is taken of. *)
Theorem stable_json_canonical v w :
  json_data v = true → json_data w = true → every_key plain v = true → every_key plain w = true →
  (jsonText collate v = jsonText collate w ↔ deep_equal v w = true) ∧
  (stringify 0 0 (stableValue v) = stringify 0 0 (stableValue w) ↔ deep_equal v w = true).
Proof.
  intros Hv Hw Kv Kw. rewrite <- (stableValue_eq v w) by done. split.
  - split; [|by intros H; unfold jsonText; rewrite H]. intros H.
    apply Ok_inj. by rewrite <- !jsonText_read, H.
  - split; [|by intros ->]. by apply stringify_inj; apply json_data_stable.
Qed.

End stable.
