(* ===== verification/TestnetRegistry.v ===== *)
(** src/contracts/scripts/validate-testnet-registry.mjs: the offline check of the
    public testnet registry against the pinned artifacts, the configuration of
    the deployment and the addresses that it determines; and the schema that the
    registry has to fit, as a decision on documents. *)

From S2P Require Import Prelude JsNum JsText JsUtf8 JsValue JsOps JsonText JsPath Deploy GeneratedFiles.

Open Scope Z_scope.

Definition native_id : jstr := js "torium-native".

(** The ids of the registry, sorted. *)
Definition testnet_ids : list jstr := [attestation_id; distributor_id; factory_id; native_id].

(** A Map keyed by [entry.id]: a key that is already there keeps its place. *)
Fixpoint map_set (k v : value) (m : list (value * value)) : list (value * value) :=
  match m with
  | [] => [(k, v)]
  | (k', v') :: m' => if strict_eq k k' then (k', v) :: m' else (k', v') :: map_set k v m'
  end.

Fixpoint map_get (id : jstr) (m : list (value * value)) : value :=
  match m with
  | [] => VUndef
  | (k, v) :: m' => if strict_eq k (VStr id) then v else map_get id m'
  end.

(** [new Map(v.entries.map((entry) => [entry.id, entry]))]. *)
Definition by_id (v : value) : result (list (value * value)) :=
  entries ← get v (js "entries");
  l ← as_array entries;
  pairs ← map_res (λ entry, id ← get entry (js "id"); Ok (id, entry)) l;
  Ok (fold_left (λ m kv, map_set (fst kv) (snd kv) m) pairs []).

(** [v[k]] with the elements of arrays and strings. *)
Definition element (v : value) (k : jstr) : value :=
  match v, array_index k with
  | VArr l, Some i => default VUndef (l !! Z.to_nat i)
  | VStr s, Some i => from_option (λ c, VStr [c]) VUndef (s !! Z.to_nat i)
  | _, _ => field v k
  end.

Section testnet.
Context (lib : library).
(** A compiled schema: whether a document is valid, and the errors otherwise. *)
Context (ajv : value → result (value → bool * value)).
Context (readFile : jstr → result (list Z)) (repositoryRoot : jstr).

Abbreviation readJson := (readRepositoryJson readFile repositoryRoot).

Record testnet_files := TestnetFiles {
  registry : value; config : value; localnet : value; identifiers : value; genesisManifest : value;
}.

(** The registry and what it is compared with, once it fits its schema. *)
Definition readTestnet : result testnet_files :=
  registry ← readJson (js "contracts/deployments/testnet.json");
  schema ← readJson (js "contracts/deployments/deployment-registry-testnet-v1.schema.json");
  config ← readJson (js "contracts/config/testnet-deployment-v1.json");
  localnet ← readJson (js "contracts/deployments/localnet.json");
  identifiers ← readJson (js "chain/config/identifiers.json");
  genesisManifest ← readJson (js "chain/genesis/testnet/manifest.json");
  validate ← ajv schema;
  let '(valid, errors) := validate registry in
  assert valid (js "testnet registry schema validation failed: " +++ stringify 0 0 errors);;
  Ok (TestnetFiles registry config localnet identifiers genesisManifest).

(** The chain of the registry is the canonical testnet, and its authority that
    of the configuration; the deployer. *)
Definition checkTestnetChain (f : testnet_files) : result jstr :=
  networks ← get (identifiers f) (js "networks");
  identity ← find_by "environment" (vs "testnet") networks;
  assert (truthy identity) (js "canonical testnet identifiers are missing");;
  cosmos ← walk (registry f) ["chain"; "cosmosChainId"]%string;
  c ← walk identity ["cosmos"; "chainId"]%string;
  equal cosmos c not_equal;;
  evm ← walk (registry f) ["chain"; "evmChainId"]%string;
  e ← walk identity ["evm"; "chainId"]%string;
  equal evm e not_equal;;
  c ← get (genesisManifest f) (js "cosmos_chain_id");
  equal cosmos c not_equal;;
  e ← get (genesisManifest f) (js "evm_chain_id");
  equal evm e not_equal;;
  genesis ← walk (registry f) ["chain"; "genesisSha256"]%string;
  g ← get (genesisManifest f) (js "genesis_sha256");
  equal genesis g not_equal;;
  authority ← get (registry f) (js "authority");
  a ← get (config f) (js "authority");
  assert (deep_equal authority a) not_deep_equal;;
  deployer ← get authority (js "deployerAddress");
  getAddress lib deployer.

Section entries.
Context (registryById localnetById : list (value * value)) (config : value) (deployerAddress : jstr).

Definition checkTestnetNative : result () :=
  let native := map_get native_id registryById in
  a ← get native (js "address");
  pinned ← get (map_get native_id localnetById) (js "address");
  equal a pinned not_equal;;
  equal_at native ["codeIdentity"]%string (vs "protocol-precompile-no-evm-bytecode");;
  equal_at native ["deployment"]%string VNull.

(** One turn of the loop over the contracts: the code of the entry is that of
    the localnet registry and of its artifact. *)
Definition checkTestnetCode (id : jstr) : result (jstr * value) :=
  let entry := map_get id registryById in
  let pinned := map_get id localnetById in
  assert (truthy pinned) (js "localnet registry entry " +++ id +++ js " is missing");;
  name ← get entry (js "contractName");
  pinnedName ← get pinned (js "contractName");
  equal name pinnedName not_equal;;
  path ← walk entry ["codeIdentity"; "artifactPath"]%string;
  pinnedPath ← get pinned (js "artifactPath");
  equal path pinnedPath not_equal;;
  creationHash ← walk entry ["codeIdentity"; "creationCodeKeccak256"]%string;
  pinnedCreation ← walk pinned ["code"; "creationCodeKeccak256"]%string;
  equal creationHash pinnedCreation
    (id +++ js " creation code hash differs from the localnet code identity");;
  runtimeHash ← walk entry ["codeIdentity"; "runtimeCodeKeccak256"]%string;
  pinnedRuntime ← walk pinned ["code"; "runtimeCodeKeccak256"]%string;
  equal runtimeHash pinnedRuntime
    (id +++ js " runtime code hash differs from the localnet code identity");;
  file ← join_path repositoryRoot path;
  artifact ← Deploy.readJson readFile file;
  creation ← walk artifact ["bytecode"; "creation"]%string;
  hash ← keccak256 lib creation;
  equal (VStr hash) creationHash
    (id +++ js " generated artifact creation code differs from the recorded hash");;
  url ← walk entry ["verification"; "explorerUrl"]%string;
  a ← get entry (js "address");
  match url with
  | VStr u =>
      assert (ends_with (js "/address/" +++ to_string a) u)
        (id +++ js " explorer URL does not reference the recorded address");;
      Ok (id, artifact)
  | _ => type_error (js "endsWith is not a function")
  end.

Definition checkTestnetFactory : result jstr :=
  let factory := map_get factory_id registryById in
  equal_at factory ["deployment"; "strategy"]%string (vs "deployer-create-nonce-0");;
  from ← walk factory ["deployment"; "deployerAddress"]%string;
  fromAddress ← getAddress lib from;
  equal (VStr fromAddress) (VStr deployerAddress) not_equal;;
  a ← get factory (js "address");
  factoryAddress ← getAddress lib a;
  equal (VStr factoryAddress) (VStr (getContractAddress lib deployerAddress 0))
    (js "factory address does not match the nonce-zero CREATE prediction");;
  Ok factoryAddress.

(** ** Constructor arguments, as the deployment encodes them *)

Definition recorded_value (id : jstr) (configured input : value) : result argument :=
  name ← get input (js "name");
  type ← get input (js "type");
  let v := element configured (to_string name) in
  if strict_eq type (vs "address") then a ← getAddress lib v; Ok (AddressArgument a)
  else
    assert (v_safe_integer v && num_ltb (NInt 0) (v_num v))
      (id +++ js " constructor argument " +++ to_string name +++ js " must be a positive integer");;
    Ok (UintArgument (v_Z v)).

Definition encodeRecordedArguments (id : jstr) (artifact configured : value) : result jstr :=
  abi ← get artifact (js "abi");
  items ← as_array abi;
  constructor ← find_constructor items;
  let inputs := nullish (oget constructor (js "inputs")) (VArr []) in
  n ← get inputs (js "length");
  if strict_eq n (vi 0) then
    assert (deep_equal configured (VArr []))
      (id +++ js " takes no constructor arguments but the registry records some");;
    Ok (js "0x")
  else
    names ← own_keys configured;
    inputs ← as_array inputs;
    inputNames ← map_res (λ input, get input (js "name")) inputs;
    assert (same_strings names inputNames)
      (id +++ js " constructor argument names differ from the generated ABI");;
    values ← map_res (recorded_value id configured) inputs;
    encodeAbiParameters lib inputs values.

(** One turn of the loop over what the factory deploys. *)
Definition checkTestnetCreate2 (artifacts : list (jstr * value)) (factoryAddress : jstr) (id : jstr) : result () :=
  let entry := map_get id registryById in
  deployments ← get config (js "deployments");
  plan ← get deployments id;
  assert (truthy plan) (js "deployment plan " +++ id +++ js " is missing from the configuration");;
  strategy ← walk entry ["deployment"; "strategy"]%string;
  planned ← get plan (js "strategy");
  equal strategy planned not_equal;;
  equal strategy (vs "factory-create2") not_equal;;
  from ← walk entry ["deployment"; "factoryAddress"]%string;
  fromAddress ← getAddress lib from;
  equal (VStr fromAddress) (VStr factoryAddress) not_equal;;
  saltPreimage ← walk entry ["deployment"; "saltPreimage"]%string;
  plannedPreimage ← get plan (js "saltPreimage");
  equal saltPreimage plannedPreimage not_equal;;
  salt ← walk entry ["deployment"; "salt"]%string;
  saltHex ← stringToHex lib plannedPreimage;
  saltHash ← keccak256 lib (VStr saltHex);
  equal salt (VStr saltHash) (id +++ js " salt does not match its recorded preimage");;
  recorded ← walk entry ["deployment"; "constructorArguments"]%string;
  configured ← get plan (js "constructorArguments");
  assert (deep_equal recorded configured)
    (id +++ js " constructor arguments differ from the reviewed configuration");;
  let artifact := default VUndef (assoc id artifacts) in
  creation ← walk artifact ["bytecode"; "creation"]%string;
  encoded ← encodeRecordedArguments id artifact recorded;
  initCode ← concatHex lib [creation; VStr encoded];
  initCodeHash ← walk entry ["deployment"; "initCodeHash"]%string;
  hash ← keccak256 lib (VStr initCode);
  equal initCodeHash (VStr hash)
    (id +++ js " init code hash does not match the pinned artifact and arguments");;
  a ← get entry (js "address");
  recordedAddress ← getAddress lib a;
  equal (VStr recordedAddress) (VStr (getCreate2Address lib factoryAddress saltHash hash))
    (id +++ js " address does not match the CREATE2 prediction").

(** The treasury is not the operations authority, and every role is assigned as
    the constructor assigns it. *)
Definition checkTestnetRoles : result () :=
  let distributor := map_get distributor_id registryById in
  arguments ← walk distributor ["deployment"; "constructorArguments"]%string;
  treasury ← get arguments (js "treasury_");
  treasuryAddress ← getAddress lib treasury;
  admin ← get arguments (js "initialAdmin_");
  adminAddress ← getAddress lib admin;
  assert (negb (treasuryAddress =s? adminAddress))
    (js "the testnet treasury must be distinct from the operations authority");;
  publisher ← get arguments (js "initialPublisher_");
  pauser ← get arguments (js "initialPauser_");
  clawback ← get arguments (js "initialClawbackOperator_");
  roles ← get distributor (js "roles");
  l ← as_array roles;
  assignments ← map_res (λ role, k ← get role (js "role"); v ← get role (js "assignment"); Ok (to_string k, v)) l;
  assert (deep_equal (VObj (fromEntries assignments))
    (VObj ["DEFAULT_ADMIN_ROLE" :=: admin; "EPOCH_PUBLISHER_ROLE" :=: publisher;
           "PAUSER_ROLE" :=: pauser; "CLAWBACK_ROLE" :=: clawback]%js))
    (js "recorded role assignments differ from the constructor arguments").

End entries.

Definition success : jstr :=
  js "Validated testnet deployment registry: pinned code identity, recomputed CREATE/CREATE2 addresses, and reviewed configuration agree.".

(** The whole script: what it prints. *)
Definition validateTestnetRegistry : result jstr :=
  f ← readTestnet;
  deployerAddress ← checkTestnetChain f;
  localnetById ← by_id (localnet f);
  registryById ← by_id (registry f);
  assert (forallb is_string (map fst registryById) &&
          bool_decide (sort_strings (map v_str (map fst registryById)) = testnet_ids))
    (js "testnet registry entries differ from the expected component set");;
  checkTestnetNative registryById localnetById;;
  artifacts ← map_res (checkTestnetCode registryById localnetById) [factory_id; attestation_id; distributor_id];
  factoryAddress ← checkTestnetFactory registryById deployerAddress;
  for_each (checkTestnetCreate2 registryById (config f) artifacts factoryAddress) [attestation_id; distributor_id];;
  checkTestnetRoles registryById;;
  Ok success.

End testnet.

(** ** The schema of the registry *)

(** Whether a value fits a schema: the keywords of JSON Schema that the schema of
    the registry uses. *)
Definition json_schema : Type := value → bool.

Definition s_const (c : value) : json_schema := λ v, strict_eq v c.
Definition s_enum (l : list string) : json_schema := λ v, existsb (λ s, strict_eq v (vs s)) l.
Definition s_pattern (p : jstr → bool) : json_schema := λ v, is_string v && p (v_str v).

(** A length is counted in code points. *)
Definition s_string (minLength : nat) : json_schema := s_pattern (λ s, Nat.leb minLength (length (code_points s))).
Definition s_integer (minimum : Z) : json_schema := λ v, v_integer v && num_leb (NInt minimum) (v_num v).
Definition s_array (minItems : nat) (items : json_schema) : json_schema := λ v,
  match v with VArr l => Nat.leb minItems (length l) && forallb items l | _ => false end.
Definition s_one_of (l : list json_schema) : json_schema := λ v, Nat.eqb (length (List.filter (λ s, s v) l)) 1.

(** An object that has every required property and no other than the named ones. *)
Definition s_object (required : list string) (properties : list (string * json_schema)) : json_schema := λ v,
  match v with
  | VObj fs =>
      forallb (λ k, negb (is_undefined (field v (js k)))) required
      && forallb (λ p, is_undefined (field v (js (fst p))) || snd p (field v (js (fst p)))) properties
      && forallb (λ f, existsb (λ p, fst f =s? js (fst p)) properties) fs
  | _ => false
  end.

(** An object whose properties, whatever their names, all fit. *)
Definition s_record (minProperties : nat) (property : json_schema) : json_schema := λ v,
  match v with VObj fs => Nat.leb minProperties (length fs) && forallb (λ f, property (snd f)) fs | _ => false end.

Definition prefixed_hex (is_digit : N → bool) (n : nat) (s : jstr) : bool :=
  starts_with (js "0x") s && Nat.eqb (length s) (2 + n) && forallb is_digit (drop 2 s).

(** [^0x[0-9a-fA-F]{40}$] and [^0x[0-9a-f]{64}$] *)
Definition is_registry_address (s : jstr) : bool := prefixed_hex is_hex 40 s.
Definition is_hash32 (s : jstr) : bool := prefixed_hex is_lower_hex 64 s.

(** [^contracts/generated/abi/[A-Za-z0-9]+\.json$] *)
Definition is_abi_path (s : jstr) : bool :=
  let prefix := js "contracts/generated/abi/" in
  let suffix := js ".json" in
  let name := take (length s - length prefix - length suffix) (drop (length prefix) s) in
  starts_with prefix s && ends_with suffix s && Nat.ltb (length prefix + length suffix) (length s)
  && forallb (λ c, is_upper c || is_lower c || is_digit c) name.

(** [^torium\.[a-z0-9.-]+\.v[0-9]+$]: read from the end, the digits, the v behind a
    dot, and a name. *)
Definition is_salt_preimage (s : jstr) : bool :=
  let prefix := js "torium." in
  starts_with prefix s &&
  match span is_digit (reverse (drop (length prefix) s)) with
  | (_ :: _, 118%N :: 46%N :: (_ :: _) as name) =>
      forallb (λ c, is_lower c || is_digit c || (c =? 46)%N || (c =? 45)%N) name
  | _ => false
  end.

(** [^[A-Z_]+$] *)
Definition is_role_name (s : jstr) : bool := negb (bool_decide (s = [])) && forallb (λ c, is_upper c || (c =? 95)%N) s.

(** [^https://explorer\.testnet\.torium\.network/address/0x[0-9a-fA-F]{40}$] *)
Definition is_explorer_url (s : jstr) : bool :=
  let prefix := js "https://explorer.testnet.torium.network/address/" in
  starts_with prefix s && is_registry_address (drop (length prefix) s).

Definition s_address : json_schema := s_pattern is_registry_address.
Definition s_hash32 : json_schema := s_pattern is_hash32.

Definition s_code_identity : json_schema := s_one_of [
  s_const (vs "protocol-precompile-no-evm-bytecode");
  s_object ["artifactPath"; "creationCodeKeccak256"; "runtimeCodeKeccak256"]%string
    [("artifactPath", s_pattern is_abi_path); ("creationCodeKeccak256", s_hash32);
     ("runtimeCodeKeccak256", s_hash32)]%string].

Definition s_constructor_arguments : json_schema := s_one_of [
  (λ v, match v with VArr [] => true | _ => false end);
  s_record 1 (s_one_of [s_integer 1; s_address])].

Definition s_deployment : json_schema := s_one_of [
  s_const VNull;
  s_object ["strategy"; "deployerAddress"; "deployerNonce"; "transactionHash"; "blockNumber"]%string
    [("strategy", s_const (vs "deployer-create-nonce-0")); ("deployerAddress", s_address);
     ("deployerNonce", s_const (vs "0")); ("transactionHash", s_hash32); ("blockNumber", s_integer 1)]%string;
  s_object ["strategy"; "factoryAddress"; "salt"; "saltPreimage"; "initCodeHash"; "constructorArguments";
            "transactionHash"; "blockNumber"]%string
    [("strategy", s_const (vs "factory-create2")); ("factoryAddress", s_address); ("salt", s_hash32);
     ("saltPreimage", s_pattern is_salt_preimage); ("initCodeHash", s_hash32);
     ("constructorArguments", s_constructor_arguments); ("transactionHash", s_hash32);
     ("blockNumber", s_integer 1)]%string].

Definition s_role : json_schema := s_object ["role"; "assignment"; "authority"]%string
  [("role", s_pattern is_role_name); ("assignment", s_address);
   ("authority", s_enum ["delayed-admin-transfer"; "default-admin-managed"])]%string.

Definition s_verification : json_schema := s_one_of [
  s_object ["kind"; "genesisStatePath"; "observedInGenesis"]%string
    [("kind", s_const (vs "genesis-registration"));
     ("genesisStatePath", s_const (vs "app_state.erc20.native_precompiles"));
     ("observedInGenesis", s_const (VBool true))]%string;
  s_object ["kind"; "observedOnChain"; "explorerUrl"]%string
    [("kind", s_const (vs "broadcast-and-runtime-code-hash")); ("observedOnChain", s_const (VBool true));
     ("explorerUrl", s_pattern is_explorer_url)]%string].

Definition s_entry : json_schema := s_object
  ["id"; "contractName"; "classification"; "address"; "implementationVersion"; "codeIdentity"; "deployment";
   "verification"]%string
  [("id", s_string 4); ("contractName", s_string 4);
   ("classification", s_enum ["protocol-precompile"; "post-genesis-create"; "post-genesis-deterministic"]);
   ("address", s_address); ("implementationVersion", s_string 3); ("codeIdentity", s_code_identity);
   ("deployment", s_deployment); ("roles", s_array 1 s_role); ("verification", s_verification)]%string.

Definition s_chain : json_schema := s_object ["cosmosChainId"; "evmChainId"; "genesisSha256"]%string
  [("cosmosChainId", s_const (vs "torium-testnet-1")); ("evmChainId", s_const (vi 1414484564));
   ("genesisSha256", s_const (vs "7eb5e332d6a697a1621fedce6b4a378616d3fd6675331a914a1de4492f609dcd"))]%string.

Definition s_authority : json_schema := s_object ["deployerAddress"; "provenance"; "note"]%string
  [("deployerAddress", s_address); ("provenance", s_string 32); ("note", s_string 16)]%string.

Definition fits_testnet_schema : json_schema := s_object
  ["$schema"; "schemaVersion"; "environment"; "generatedBy"; "registryVersion"; "releaseStatus"; "configPath";
   "chain"; "authority"; "entries"]%string
  [("$schema", s_const (vs "./deployment-registry-testnet-v1.schema.json")); ("schemaVersion", s_const (vi 1));
   ("environment", s_const (vs "testnet")); ("generatedBy", s_string 16);
   ("registryVersion", s_const (vs "0.1.0"));
   ("releaseStatus", s_const (vs "deployed-valueless-public-testnet"));
   ("configPath", s_const (vs "contracts/config/testnet-deployment-v1.json")); ("chain", s_chain);
   ("authority", s_authority); ("entries", s_array 4 s_entry)]%string.
