(* ===== verification/TestnetRegistryFacts.v ===== *)
(** The testnet registry and the deployment script: an accepted registry names
    the contracts that a run over the same files deploys. *)

From S2P Require Import Prelude JsNum JsText JsUtf8 JsValue JsOps JsonText JsPath Deploy DeployFacts GeneratedFiles GeneratedFilesFacts TestnetRegistry.

Open Scope Z_scope.

(** ** Entries by id *)

Lemma equal_Ok a b m u : equal a b m = Ok u ↔ same_value a b = true.
Proof. apply assert_Ok. Qed.

Lemma same_value_text_r v s : same_value v (VStr s) = true ↔ v = VStr s.
Proof. destruct v; cbn [same_value strict_eq]; try done. rewrite jeq_spec. split; [by intros ->|by intros [= ->]]. Qed.

Lemma map_get_set id k v m :
  map_get id (map_set k v m) = if strict_eq k (VStr id) then v else map_get id m.
Proof.
  induction m as [|[k' v'] m IH]; cbn [map_set map_get]; [done|].
  destruct (strict_eq k k') eqn:E; cbn [map_get].
  - destruct (strict_eq k (VStr id)) eqn:E2.
    + apply strict_eq_str in E2 as ->. destruct k'; try discriminate E. cbn [strict_eq] in *.
      apply jeq_spec in E as ->. by rewrite jeq_refl.
    + destruct (strict_eq k' (VStr id)) eqn:E3; [|done]. apply strict_eq_str in E3 as ->. by rewrite E2 in E.
  - rewrite IH. destruct (strict_eq k' (VStr id)) eqn:E3; [|done].
    destruct (strict_eq k (VStr id)) eqn:E2; [|done]. apply strict_eq_str in E2 as ->, E3 as ->.
    cbn [strict_eq] in E. by rewrite jeq_refl in E.
Qed.

(** Every entry of the document has a string as its id. *)
Definition text_ids (registry : value) : Prop :=
  Forall (λ entry, is_string (field entry (js "id")) = true) (v_list (field registry (js "entries"))).

(** The deployment's object of entries and the validator's Map agree. *)
Lemma pin_by_id registry fs m id :
  pin registry = Ok fs → by_id registry = Ok m → text_ids registry → default VUndef (assoc id fs) = map_get id m.
Proof.
  intros Hp Hb Ht. unfold pin in Hp. take Hp as entries He. take Hp as l Hl.
  unfold by_id in Hb. rewrite He in Hb. cbn [mbind result_bind] in Hb. rewrite Hl in Hb. cbn [mbind result_bind] in Hb.
  take Hb as pairs Hm. apply Ok_inj in Hb as <-. apply get_Ok in He as [_ ->].
  unfold text_ids in Ht. destruct (field registry (js "entries")); try done. apply Ok_inj in Hl as ->. cbn [v_list] in Ht.
  cut (∀ acc m0, default VUndef (assoc id acc) = map_get id m0 →
    fold_res (λ acc entry, i ← get entry (js "id"); Ok (set_own (to_string i) entry acc)) acc l = Ok fs →
    default VUndef (assoc id fs) = map_get id (fold_left (λ m kv, map_set (fst kv) (snd kv) m) pairs m0)).
  { intros Hc. by apply (Hc [] []). }
  clear Hp. revert pairs Hm. induction Ht as [|e l Hs Ht IH]; intros pairs Hm acc m0 Hi Hf.
  { apply Ok_inj in Hm as <-, Hf as <-. done. }
  cbn [map_res] in Hm. take Hm as y Hy. take Hm as ys Hys. apply Ok_inj in Hm as <-.
  take Hy as k Hk. apply Ok_inj in Hy as <-. cbn [fold_res] in Hf. rewrite Hk in Hf. cbn [mbind result_bind] in Hf.
  apply get_Ok in Hk as [_ ->]. destruct (field e (js "id")) as [| | | |s| |] eqn:E; try done.
  cbn [fold_left fst snd]. eapply IH; [done| |exact Hf]. rewrite map_get_set, assoc_set_own.
  cbn [to_string strict_eq]. destruct (id =s? s) eqn:Es; inv_bool; subst; [by rewrite jeq_refl|].
  assert ((s =s? id) = false) as -> by by apply jeq_neq. done.
Qed.

(** ** Constructor arguments *)

Section facts.
Context (lib : library) (ajv : value → result (value → bool * value)).
Context (readFile : jstr → result (list Z)) (env : jstr → option jstr) (repositoryRoot : jstr).

(** viem's [getAddress] takes strings. *)
Definition address_texts : Prop := ∀ v a, getAddress lib v = Ok a → is_string v = true.

Lemma element_obj fs k : element (VObj fs) k = field (VObj fs) k.
Proof. unfold element. by destruct (array_index k). Qed.

Lemma deep_equal_field fs w k x :
  deep_equal (VObj fs) w = true → field (VObj fs) k = x → x ≠ VUndef → deep_equal x (field w k) = true.
Proof.
  intros H Hx Hu. destruct (deep_equal_obj_inv _ _ H) as [gs ->]. cbn [field] in *.
  destruct (assoc k fs) as [y|] eqn:E; [|by subst]. change (y = x) in Hx. subst y.
  destruct (deep_equal_member _ _ _ _ H E) as (y & -> & Hd). done.
Qed.

(** Deeply equal arguments are encoded alike. *)
Lemma recorded_value_eq id fs configured input x y :
  address_texts → deep_equal (VObj fs) configured = true →
  recorded_value lib id (VObj fs) input = Ok x → constructor_value lib id configured input = Ok y → x = y.
Proof.
  intros Htext Hd Hx Hy. unfold recorded_value in Hx. unfold constructor_value in Hy.
  take Hx as name Hn. take Hx as type Ht. rewrite Hn, Ht in Hy. cbn [mbind result_bind] in Hy.
  rewrite element_obj in Hx. set (v := field (VObj fs) (to_string name)) in *.
  assert (v ≠ VUndef → deep_equal v (field configured (to_string name)) = true) as He
    by (intros; by eapply (deep_equal_field fs)).
  destruct (strict_eq type (vs "address")).
  - take Hx as a Ha. apply Ok_inj in Hx as <-. pose proof (Htext _ _ Ha) as Hs. destruct v; try done.
    specialize (He ltac:(done)). apply deep_equal_text in He. rewrite He, Ha in Hy. by apply Ok_inj in Hy.
  - passed Hx as Hg. apply Ok_inj in Hx as <-. apply andb_true_iff in Hg as [Hg _]. destruct v; try done.
    specialize (He ltac:(done)). apply deep_equal_num in He. rewrite He in Hy.
    passed Hy as Hg'. by apply Ok_inj in Hy.
Qed.

Lemma recorded_values_eq id fs configured inputs x y :
  address_texts → deep_equal (VObj fs) configured = true →
  map_res (recorded_value lib id (VObj fs)) inputs = Ok x →
  map_res (constructor_value lib id configured) inputs = Ok y → x = y.
Proof.
  intros Htext Hd Hx%map_res_Ok Hy%map_res_Ok. revert y Hy.
  induction Hx as [|i a l k Ha _ IH]; intros y Hy; inversion_clear Hy; [done|].
  f_equal; [by eapply recorded_value_eq|auto].
Qed.

(** The validator's encoder gives what the deployment encodes. *)
Lemma encode_recorded_eq id artifact recorded configured x y :
  address_texts → deep_equal recorded configured = true →
  encodeRecordedArguments lib id artifact recorded = Ok x →
  encodeConstructorArguments lib id artifact configured = Ok y → x = y.
Proof.
  intros Htext Hd Hx Hy. unfold encodeRecordedArguments in Hx. unfold encodeConstructorArguments in Hy.
  take Hx as abi Ha. take Hx as items Hi. take Hx as c Hc. take Hx as n Hn.
  rewrite Ha in Hy. cbn [mbind result_bind] in Hy. rewrite Hi in Hy. cbn [mbind result_bind] in Hy.
  rewrite Hc in Hy. cbn [mbind result_bind] in Hy. rewrite Hn in Hy. cbn [mbind result_bind] in Hy.
  destruct (strict_eq n (vi 0)).
  - passed Hx as G1. passed Hy as G2. apply Ok_inj in Hx as <-. by apply Ok_inj in Hy.
  - take Hx as names Hk. take Hx as inputs Hin. take Hx as inames Hnm. passed Hx as G1. take Hx as values Hv.
    passed Hy as Ho. rewrite Hin in Hy. cbn [mbind result_bind] in Hy. rewrite Hnm in Hy. cbn [mbind result_bind] in Hy.
    passed Hy as G2. take Hy as values' Hv'. destruct configured; try done.
    destruct recorded; try done. rewrite (recorded_values_eq _ _ _ _ _ _ Htext Hd Hv Hv') in Hx.
    rewrite Hx in Hy. by apply Ok_inj in Hy.
Qed.

(** ** What the checks say *)

(** The entry of a contract that the factory deploys, as the plan has it. *)
Definition registered (entry : value) (p : create2_plan) : Prop :=
  (∃ a, get entry (js "address") = Ok a ∧ getAddress lib a = Ok (plan_address p)) ∧
  walk entry ["deployment"; "salt"]%string = Ok (VStr (plan_salt p)) ∧
  ∃ hash, keccak256 lib (VStr (plan_initCode p)) = Ok hash ∧
    walk entry ["deployment"; "initCodeHash"]%string = Ok (VStr hash).

Lemma create2_registered registryById config artifacts factoryAddress id artifact p :
  address_texts → assoc id artifacts = Some artifact →
  checkTestnetCreate2 lib registryById config artifacts factoryAddress id = Ok () →
  plan_create2 lib config id factoryAddress artifact = Ok p → registered (map_get id registryById) p.
Proof.
  intros Htext Ha Hc Hp. unfold checkTestnetCreate2 in Hc. unfold plan_create2 in Hp. rewrite Ha in Hc. cbn zeta in Hc.
  take Hc as deployments Hd. rewrite Hd in Hp. cbn [mbind result_bind] in Hp.
  take Hc as plan Hpl. rewrite Hpl in Hp. cbn [mbind result_bind] in Hp. passed Hc as Ht. passed Hp as Ht'.
  take Hc as strategy Hs. take Hc as planned Hpn. rewrite Hpn in Hp. cbn [mbind result_bind] in Hp. passed Hp as Hps.
  passed Hc as E1. passed Hc as E2. take Hc as from Hf. take Hc as fromAddress Hfa. passed Hc as E3.
  take Hc as preimage Hpre. take Hc as pre2 Hpre2. rewrite Hpre2 in Hp. cbn [mbind result_bind] in Hp. passed Hc as E4.
  take Hc as salt Hsalt. take Hc as saltHex Hsh. rewrite Hsh in Hp. cbn [mbind result_bind] in Hp.
  take Hc as saltHash Hk. rewrite Hk in Hp. cbn [mbind result_bind] in Hp. passed Hc as E5.
  take Hc as recorded Hr. take Hc as configured Hcf. passed Hc as E6. change (default VUndef (Some artifact)) with artifact in Hc.
  take Hc as creation Hcr. rewrite Hcr in Hp. cbn [mbind result_bind] in Hp. rewrite Hcf in Hp. cbn [mbind result_bind] in Hp.
  take Hc as encoded He. take Hp as encoded' He'. rewrite <- (encode_recorded_eq _ _ _ _ _ _ Htext E6 He He') in Hp.
  take Hc as initCode Hi. rewrite Hi in Hp. cbn [mbind result_bind] in Hp. take Hc as initCodeHash Hih.
  take Hc as hash Hh. rewrite Hh in Hp. cbn [mbind result_bind] in Hp. apply Ok_inj in Hp as <-. passed Hc as E7.
  take Hc as a Hadr. take Hc as ra Hra. apply equal_Ok in E5, E7, Hc. apply same_value_text_r in E5, E7, Hc.
  injection Hc as ->. rewrite E5 in Hsalt. rewrite E7 in Hih. split; [by exists a|].
  split; [exact Hsalt|by exists hash].
Qed.

(** The localnet registry, the configuration and the artifacts of a prepared run. *)
Lemma prepare_Ok argv o config environment chainv deployer artifacts :
  prepare lib readFile env repositoryRoot argv = Ok (o, config, (environment, chainv, deployer), artifacts) →
  Deploy.readJson readFile (configPath o) = Ok config ∧
  (∃ d, walk config ["authority"; "deployerAddress"]%string = Ok d ∧ getAddress lib d = Ok deployer) ∧
  ∃ registry fs, readRepositoryJson readFile repositoryRoot (js "contracts/deployments/localnet.json") = Ok registry ∧
    pin registry = Ok fs ∧ map_res (load lib readFile repositoryRoot fs) contract_ids = Ok artifacts.
Proof.
  intros H. unfold prepare in H. take H as o' Ho. destruct (env_given _ _); [|done].
  take H as config' Hc. take H as ch Hch. take H as registry Hr. take H as fs Hp. take H as arts Hl.
  apply Ok_inj in H. simplify_eq. split; [done|]. split.
  - unfold checkConfig in Hch. take Hch as v Hv. passed Hch as E1. take Hch as e He. passed Hch as E2.
    take Hch as c Hcn. passed Hch as E3. take Hch as g Hg. passed Hch as E4. take Hch as d Hd. take Hch as a Ha.
    apply Ok_inj in Hch. simplify_eq. by exists d.
  - by exists registry, fs.
Qed.

Lemma checkTestnetChain_authority f deployer :
  checkTestnetChain lib f = Ok deployer →
  ∃ a b d, get (registry f) (js "authority") = Ok a ∧ get (config f) (js "authority") = Ok b ∧
    deep_equal a b = true ∧ get a (js "deployerAddress") = Ok d ∧ getAddress lib d = Ok deployer.
Proof.
  intros H. unfold checkTestnetChain in H. take H as n Hn. take H as i Hi. passed H as E0.
  take H as x1 H1. take H as x2 H2. passed H as E1. take H as x3 H3. take H as x4 H4. passed H as E2.
  take H as x5 H5. passed H as E3. take H as x6 H6. passed H as E4. take H as x7 H7. take H as x8 H8. passed H as E5.
  take H as a Ha. take H as b Hb. passed H as E6. take H as d Hd. by exists a, b, d.
Qed.

(** The deployer is the same for both. *)
Lemma same_deployer f deployer d deployer' :
  address_texts → checkTestnetChain lib f = Ok deployer →
  walk (config f) ["authority"; "deployerAddress"]%string = Ok d → getAddress lib d = Ok deployer' →
  deployer' = deployer.
Proof.
  intros Htext (a & b & v & _ & Hb & Hd & Hv & Ha)%checkTestnetChain_authority Hw Hg.
  pose proof (Htext _ _ Ha) as Hs. apply get_Ok in Hv as [_ ->].
  destruct a as [| |bb|n|s|l|fs]; try done.
  set (x := field (VObj fs) (js "deployerAddress")) in *. destruct x as [| | | |s| |] eqn:E; try done.
  assert (deep_equal (VStr s) (field b (js "deployerAddress")) = true) as He
    by (eapply deep_equal_field; [exact Hd|exact E|done]).
  apply deep_equal_text in He. unfold walk in Hw. rewrite Hb in Hw. cbn [mbind result_bind] in Hw.
  take Hw as d' Hd'. apply get_Ok in Hd' as [_ ->]. rewrite He in Hw. apply Ok_inj in Hw as <-.
  rewrite Ha in Hg. by apply Ok_inj in Hg.
Qed.

(** The artifact that the loop over the contracts keeps. *)
Lemma checkTestnetCode_artifact registryById localnetById id x :
  checkTestnetCode lib readFile repositoryRoot registryById localnetById id = Ok x →
  ∃ artifact path file, x = (id, artifact) ∧ get (map_get id localnetById) (js "artifactPath") = Ok path ∧
    join_path repositoryRoot path = Ok file ∧ Deploy.readJson readFile file = Ok artifact.
Proof.
  intros H. unfold checkTestnetCode in H. passed H as E0. take H as n Hn. take H as pn Hpn. passed H as E1.
  take H as path Hp. take H as pp Hpp. passed H as E2. take H as c Hc. take H as pc Hpc. passed H as E3.
  take H as r Hr. take H as pr Hpr. passed H as E4. take H as file Hf. take H as artifact Ha.
  take H as cr Hcr. take H as h Hh. passed H as E5. take H as u Hu. take H as a Hadr.
  destruct u; try done. passed H as E6. apply Ok_inj in H as <-. exists artifact, pp, file.
  split; [done|]. destruct path; try done. apply equal_Ok, same_value_text in E2 as ->. by repeat split.
Qed.

(** ** The registry and a run *)

Definition deployment_config : jstr := js "contracts/config/testnet-deployment-v1.json".

(** The artifact that a prepared run works with is the one that was validated. *)
Lemma artifact_validated registry fs m registryById id entry artifact x :
  pin registry = Ok fs → by_id registry = Ok m → text_ids registry →
  load lib readFile repositoryRoot fs id = Ok (id, (entry, artifact)) →
  checkTestnetCode lib readFile repositoryRoot registryById m id = Ok x → x = (id, artifact).
Proof.
  intros Hp Hb Ht (e & a & [= <- <-] & Ha & path & bytes & cs & cr & h & Hpath & Hbytes & _ & _ & Hj & _)%load_pinned Hc.
  apply checkTestnetCode_artifact in Hc as (artifact' & path' & file & -> & Hpath' & Hfile & Hjson).
  rewrite <- (pin_by_id _ _ _ id Hp Hb Ht), Ha in Hpath'. change (default VUndef (Some entry)) with entry in Hpath'.
  rewrite Hpath' in Hpath. cbn [mbind result_bind] in Hpath. rewrite Hfile in Hpath. apply Ok_inj in Hpath as ->.
  unfold Deploy.readJson in Hjson. rewrite Hbytes in Hjson. cbn [mbind result_bind] in Hjson.
  rewrite Hj in Hjson. by apply Ok_inj in Hjson as ->.
Qed.

Lemma load_artifact_of fs artifacts id entry artifact :
  map_res (load lib readFile repositoryRoot fs) contract_ids = Ok artifacts →
  artifact_of artifacts id = Ok (entry, artifact) →
  load lib readFile repositoryRoot fs id = Ok (id, (entry, artifact)).
Proof.
  intros Hl%map_res_Ok Ha. unfold artifact_of in Ha. destruct (assoc id artifacts) as [ea|] eqn:E; [|done].
  simplify_eq. apply assoc_elem, list_elem_of_lookup in E as [i Hi].
  destruct (Forall2_lookup_r _ _ _ _ _ Hl Hi) as (id' & _ & Hload).
  pose proof Hload as (? & ? & Heq & _)%load_pinned. by simplify_eq.
Qed.

Lemma validated_artifacts registryById m ids arts id x :
  NoDup ids → map_res (checkTestnetCode lib readFile repositoryRoot registryById m) ids = Ok arts → id ∈ ids →
  (∀ y, checkTestnetCode lib readFile repositoryRoot registryById m id = Ok y → y = (id, x)) → assoc id arts = Some x.
Proof.
  intros Hn H%map_res_Ok Hid Hx.
  assert (map fst arts = ids) as Hk.
  { clear Hn Hid Hx. induction H as [|i y l k Hy _ IH]; [done|]. cbn [map]. f_equal; [|done].
    by apply checkTestnetCode_artifact in Hy as (? & ? & ? & -> & _). }
  apply assoc_in_nodup; [by rewrite Hk|]. apply list_elem_of_lookup in Hid as [i Hi].
  destruct (Forall2_lookup_l _ _ _ _ _ H Hi) as (y & Hy & Hc). rewrite <- (Hx y Hc). by eapply list_elem_of_lookup_2.
Qed.

(** The registry that was validated, with its entries by id. *)
Definition recorded_entry (id : jstr) (entry : value) : Prop :=
  ∃ registry m, readRepositoryJson readFile repositoryRoot (js "contracts/deployments/testnet.json") = Ok registry ∧
    by_id registry = Ok m ∧ map_get id m = entry.

(** What the registry records of the plan's contracts. *)
Definition registry_has_plan (config : value) (artifacts : list (jstr * (value * value))) (deployer : jstr) : Prop :=
  (∃ entry a, recorded_entry factory_id entry ∧ get entry (js "address") = Ok a ∧
     getAddress lib a = Ok (getContractAddress lib deployer 0)) ∧
  Forall (λ id, ∃ entry, recorded_entry id entry ∧ ∀ localEntry artifact p,
     artifact_of artifacts id = Ok (localEntry, artifact) →
     plan_create2 lib config id (getContractAddress lib deployer 0) artifact = Ok p → registered entry p)
    [attestation_id; distributor_id].

Lemma validated_registry_plan msg argv o config environment chainv deployer artifacts localnet :
  address_texts →
  validateTestnetRegistry lib ajv readFile repositoryRoot = Ok msg →
  prepare lib readFile env repositoryRoot argv = Ok (o, config, (environment, chainv, deployer), artifacts) →
  readRepositoryJson readFile repositoryRoot deployment_config = Deploy.readJson readFile (configPath o) →
  readRepositoryJson readFile repositoryRoot (js "contracts/deployments/localnet.json") = Ok localnet →
  text_ids localnet →
  registry_has_plan config artifacts deployer.
Proof.
  intros Htext H Hp Hcfg Hloc Hids. apply prepare_Ok in Hp as (Hc & (d & Hd & Hg) & registry & fs & Hreg & Hpin & Hload).
  rewrite Hloc in Hreg. apply Ok_inj in Hreg as <-. unfold validateTestnetRegistry in H.
  take H as f Hf. take H as dep Hdep. take H as lm Hlm. take H as rm Hrm. passed H as E0. passed H as E1.
  take H as arts Harts. take H as fa Hfa. passed H as E2. passed H as E3.
  assert (TestnetRegistry.config f = config ∧ TestnetRegistry.localnet f = localnet ∧
    readRepositoryJson readFile repositoryRoot (js "contracts/deployments/testnet.json") = Ok (TestnetRegistry.registry f))
    as (Ec & El & Er).
  { unfold readTestnet in Hf. take Hf as r0 Hr0. take Hf as s0 Hs0. take Hf as c0 Hc0. take Hf as l0 Hl0.
    take Hf as i0 Hi0. take Hf as g0 Hg0. take Hf as vd Hvd. destruct vd as [valid errs]. passed Hf as E. apply Ok_inj in Hf as <-.
    cbn [TestnetRegistry.config TestnetRegistry.localnet TestnetRegistry.registry].
    unfold deployment_config in Hcfg. rewrite Hcfg, Hc in Hc0. rewrite Hloc in Hl0.
    apply Ok_inj in Hc0, Hl0. by subst. }
  rewrite <- Ec in Hd. pose proof (same_deployer _ _ _ _ Htext Hdep Hd Hg) as ->. rewrite El in Hlm.
  assert (fa = getContractAddress lib dep 0 ∧ ∃ a, get (map_get factory_id rm) (js "address") = Ok a ∧ getAddress lib a = Ok fa)
    as [-> (a & Ha1 & Ha2)].
  { unfold checkTestnetFactory in Hfa. passed Hfa as F1. take Hfa as x1 G1. take Hfa as x2 G2. passed Hfa as F2.
    take Hfa as a Ga. take Hfa as ad Gad. passed Hfa as F3. apply Ok_inj in Hfa as <-.
    apply equal_Ok, same_value_text in F3. split; [by injection F3|by exists a]. }
  split.
  { exists (map_get factory_id rm), a. split; [by exists (TestnetRegistry.registry f), rm|done]. }
  apply Forall_forall. intros id Hid. exists (map_get id rm). split; [by exists (TestnetRegistry.registry f), rm|].
  intros le artifact p Hart Hplan. rewrite Forall_forall in E2. specialize (E2 id Hid).
  eapply create2_registered; [done| |exact E2|rewrite Ec; exact Hplan].
  eapply validated_artifacts; [|exact Harts| |].
  - by apply (bool_decide_unpack _); vm_compute.
  - right. exact Hid.
  - intros y Hy. eapply artifact_validated; [exact Hpin|exact Hlm|exact Hids| |exact Hy].
    by eapply load_artifact_of.
Qed.

Context (W : Type) (net : endpoint W) (writeFile : jstr → jstr → result ()) (code_at : W → jstr → value).

(** The registry entries of the contracts of a record. *)
Definition recorded_addresses (rec : deploy_record) : Prop :=
  Forall2 (λ id d, ∃ entry a, recorded_entry id entry ∧ get entry (js "address") = Ok a ∧
      getAddress lib a = Ok (address d)) contract_ids (contracts rec).

Lemma validated_run msg argv r rec r' localnet :
  address_texts → keeps_code W net code_at →
  validateTestnetRegistry lib ajv readFile repositoryRoot = Ok msg →
  readRepositoryJson readFile repositoryRoot (js "contracts/deployments/localnet.json") = Ok localnet →
  text_ids localnet →
  (∀ o, parseArguments argv = Ok o →
     readRepositoryJson readFile repositoryRoot deployment_config = Deploy.readJson readFile (configPath o)) →
  main lib W net readFile writeFile env repositoryRoot argv r = (Ok rec, r') →
  recorded_addresses rec ∧
  ∃ o config environment chainv dep artifacts,
    prepare lib readFile env repositoryRoot argv = Ok (o, config, (environment, chainv, dep), artifacts) ∧
    Forall (λ id, ∃ entry localEntry artifact p,
      recorded_entry id entry ∧ artifact_of artifacts id = Ok (localEntry, artifact) ∧
      plan_create2 lib config id (address (factory rec)) artifact = Ok p ∧ registered entry p)
    [attestation_id; distributor_id].
Proof.
  intros Htext Hlaws Hv Hloc Hids Hcfg (o & config & environment & chainv & dep & artifacts & wallet & observed & r1 & r2 & Hp & _ & _ & _ & Hd & _)%main_Ok.
  apply (deploy_contracts_Ok lib W net readFile writeFile env repositoryRoot code_at Hlaws) in Hd as (_ & Ha & _ & _ & _ & Hplan).
  assert (parseArguments argv = Ok o) as Ho%Hcfg.
  { unfold prepare in Hp. take Hp as o' Ho. destruct (env_given _ _); [|done]. inv_result. congruence. }
  pose proof (validated_registry_plan _ _ _ _ _ _ _ _ _ Htext Hv Hp Ho Hloc Hids) as [(fe & fa & Hfe & Hfa & Hga) Hr].
  inversion_clear Hplan as [|? ? ? ? (e1 & a1 & p1 & A1 & P1 & D1) Hrest].
  inversion_clear Hrest as [|? ? ? ? (e2 & a2 & p2 & A2 & P2 & D2) _].
  apply Forall_cons in Hr as [(n1 & N1 & R1) Hr]. apply Forall_cons in Hr as [(n2 & N2 & R2) _].
  specialize (R1 _ _ _ A1 P1). specialize (R2 _ _ _ A2 P2). change (factory_address lib dep) with (getContractAddress lib dep 0) in *.
  split.
  - constructor; [exists fe, fa; by rewrite Ha|]. destruct R1 as [(x1 & G1 & G1') _], R2 as [(x2 & G2 & G2') _].
    constructor; [exists n1, x1; by rewrite D1|]. constructor; [exists n2, x2; by rewrite D2|constructor].
  - exists o, config, environment, chainv, dep, artifacts. split; [done|]. rewrite Ha. constructor; [by exists n1, e1, a1, p1|].
    constructor; [by exists n2, e2, a2, p2|constructor].
Qed.

(** C15. An accepted testnet registry is the record of the deployment: whatever the
    chain, when a run of the deployment script over the same files ends with a
    record, the addresses of its three contracts are, up to letter case, those of the
    registry, whose salts and init code hashes are the ones the run works with. *)
Theorem validated_registry_is_deployed msg argv r rec r' localnet :
  address_texts → keeps_code W net code_at →
  validateTestnetRegistry lib ajv readFile repositoryRoot = Ok msg →
  readRepositoryJson readFile repositoryRoot (js "contracts/deployments/localnet.json") = Ok localnet →
  text_ids localnet →
  (∀ o, parseArguments argv = Ok o →
     readRepositoryJson readFile repositoryRoot deployment_config = Deploy.readJson readFile (configPath o)) →
  main lib W net readFile writeFile env repositoryRoot argv r = (Ok rec, r') →
  Forall2 (λ id d, ∃ entry a, recorded_entry id entry ∧ get entry (js "address") = Ok a ∧
      getAddress lib a = Ok (address d)) contract_ids (contracts rec) ∧
  ∃ o config environment chainv dep artifacts,
    prepare lib readFile env repositoryRoot argv = Ok (o, config, (environment, chainv, dep), artifacts) ∧
    Forall (λ id, ∃ entry localEntry artifact p,
      recorded_entry id entry ∧ artifact_of artifacts id = Ok (localEntry, artifact) ∧
      plan_create2 lib config id (address (factory rec)) artifact = Ok p ∧ registered entry p)
    [attestation_id; distributor_id].
Proof. apply validated_run. Qed.

End facts.

(** ** A registry and the run that it records *)

Module TestnetSamples.
Import DeployFacts.Samples.

Definition text_library : library := Library digest (λ _, js "s")
  (λ v, Ok (v_str v)) (λ l, Ok (concat (map v_str l))) (λ _ _, Ok (js "args"))
  (λ v, match v with VStr s => Ok s | _ => type_error (js "invalid address") end)
  (λ a _, a +++ js "-0") (λ f s h, f +++ js "/" +++ s) (λ _, Ok (js "dep")).

Definition address_input (name : string) : value := VObj ["name" :=: vs name; "type" :=: vs "address"]%js.

Definition testnet_artifact (id : jstr) : value := VObj [
  "abi" :=: VArr [VObj ["type" :=: vs "constructor";
    "inputs" :=: VArr (map address_input ["treasury_"; "initialAdmin_"; "initialPublisher_";
                                          "initialPauser_"; "initialClawbackOperator_"]%string)]];
  "bytecode" :=: VObj ["creation" :=: VStr id]]%js.

Definition testnet_arguments : value := VObj [
  "treasury_" :=: vs "t"; "initialAdmin_" :=: vs "a"; "initialPublisher_" :=: vs "p";
  "initialPauser_" :=: vs "q"; "initialClawbackOperator_" :=: vs "c"]%js.

Definition testnet_plan (preimage : string) : value := VObj [
  "strategy" :=: vs "factory-create2"; "saltPreimage" :=: vs preimage;
  "constructorArguments" :=: testnet_arguments]%js.

Definition testnet_config : value :=
  with_field sample_config (js "deployments")
    (VObj [(attestation_id, testnet_plan "a"); (distributor_id, testnet_plan "d")]).

Definition native_entry : value := VObj [
  "id" :=: VStr native_id; "address" :=: vs "0x4";
  "codeIdentity" :=: vs "protocol-precompile-no-evm-bytecode"; "deployment" :=: VNull]%js.

Definition testnet_entry (id a : jstr) (deployment : list (jstr * value)) (roles : list value) : value := VObj [
  "id" :=: VStr id; "address" :=: VStr a;
  "codeIdentity" :=: VObj ["artifactPath" :=: VStr (id +++ js ".json");
    "creationCodeKeccak256" :=: VStr (js "k" +++ id); "runtimeCodeKeccak256" :=: VStr (js "k" +++ id)];
  "deployment" :=: VObj deployment; "roles" :=: VArr roles;
  "verification" :=: VObj ["explorerUrl" :=: VStr (js "https://explorer/address/" +++ a)]]%js.

Definition through_factory (id : jstr) (preimage : string) : list (jstr * value) := [
  "strategy" :=: vs "factory-create2"; "factoryAddress" :=: vs "dep-0";
  "saltPreimage" :=: vs preimage; "salt" :=: VStr (js "k" +++ js preimage);
  "constructorArguments" :=: testnet_arguments; "initCodeHash" :=: VStr (js "k" +++ id +++ js "args")]%js.

Definition role (name assignment : string) : value := VObj ["role" :=: vs name; "assignment" :=: vs assignment]%js.

Definition testnet_registry : value := VObj [
  "chain" :=: VObj ["cosmosChainId" :=: vs "test-1"; "evmChainId" :=: vi 7; "genesisSha256" :=: vs "g"];
  "authority" :=: VObj ["deployerAddress" :=: vs "dep"];
  "entries" :=: VArr [native_entry;
    testnet_entry factory_id (js "dep-0")
      ["strategy" :=: vs "deployer-create-nonce-0"; "deployerAddress" :=: vs "dep"] [];
    testnet_entry attestation_id (js "dep-0/ka") (through_factory attestation_id "a") [];
    testnet_entry distributor_id (js "dep-0/kd") (through_factory distributor_id "d")
      [role "PAUSER_ROLE" "q"; role "DEFAULT_ADMIN_ROLE" "a"; role "EPOCH_PUBLISHER_ROLE" "p"; role "CLAWBACK_ROLE" "c"]]]%js.

Definition testnet_localnet : value := VObj ["entries" :=: VArr (native_entry :: map sample_entry contract_ids)]%js.

Definition testnet_identifiers : value := VObj ["networks" :=: VArr [
  VObj ["environment" :=: vs "localnet"];
  VObj ["environment" :=: vs "testnet"; "cosmos" :=: VObj ["chainId" :=: vs "test-1"];
        "evm" :=: VObj ["chainId" :=: vi 7]]]]%js.

Definition testnet_manifest : value := VObj [
  "cosmos_chain_id" :=: vs "test-1"; "evm_chain_id" :=: vi 7; "genesis_sha256" :=: vs "g"]%js.

Definition testnet_documents : list (jstr * list Z) :=
  [(js "/r/contracts/config/testnet-deployment-v1.json", file_of testnet_config);
   (js "/r/contracts/deployments/testnet.json", file_of testnet_registry);
   (js "/r/contracts/deployments/deployment-registry-testnet-v1.schema.json", file_of (VObj []));
   (js "/r/contracts/deployments/localnet.json", file_of testnet_localnet);
   (js "/r/chain/config/identifiers.json", file_of testnet_identifiers);
   (js "/r/chain/genesis/testnet/manifest.json", file_of testnet_manifest);
   (js "key", JsUtf8.utf8_encode (js "0x" +++ repeat 49%N 64))]
  ++ map (λ id, (js "/r/" +++ id +++ js ".json", file_of (testnet_artifact id))) contract_ids.

Definition testnet_readFile (path : jstr) : result (list Z) :=
  match assoc path testnet_documents with Some b => Ok b | None => error (js "ENOENT") end.

Definition accept_all (schema : value) : result (value → bool * value) := Ok (λ _, (true, VNull)).

Definition testnet_argv : list jstr :=
  [js "--config"; js "/r/contracts/config/testnet-deployment-v1.json"; js "--broadcast"].

Abbreviation testnet_main :=
  (main text_library world sample_net testnet_readFile (λ _ _, Ok ()) sample_env (js "/r")).

Definition testnet_run : result deploy_record * run world := testnet_main testnet_argv empty.
Definition testnet_record : deploy_record :=
  match fst testnet_run with Ok r => r | Throw _ => sample_record end.

Lemma testnet_accepted : validateTestnetRegistry text_library accept_all testnet_readFile (js "/r") = Ok success.
Proof. vm_compute. reflexivity. Qed.

Lemma testnet_run_ok :
  testnet_main testnet_argv empty = (Ok testnet_record, snd testnet_run) ∧
  length (transactions (log (snd testnet_run))) = 3%nat.
Proof. vm_compute. done. Qed.

Lemma testnet_localnet_read :
  readRepositoryJson testnet_readFile (js "/r") (js "contracts/deployments/localnet.json") = Ok testnet_localnet.
Proof. vm_compute. reflexivity. Qed.

Lemma testnet_text_ids : text_ids testnet_localnet.
Proof. unfold text_ids. apply Forall_forall. rewrite <- Forall_forall. vm_compute. repeat constructor. Qed.

Lemma text_library_addresses : address_texts text_library.
Proof. by intros [] a. Qed.

Lemma validated_registry_is_deployed_witness :
  Forall2 (λ id d, ∃ entry a, recorded_entry testnet_readFile (js "/r") id entry ∧
      get entry (js "address") = Ok a ∧ getAddress text_library a = Ok (address d))
    contract_ids (contracts testnet_record).
Proof.
  apply (proj1 (validated_registry_is_deployed text_library accept_all testnet_readFile sample_env (js "/r")
    world sample_net (λ _ _, Ok ()) code_at success testnet_argv empty testnet_record (snd testnet_run) testnet_localnet
    text_library_addresses sample_keeps testnet_accepted testnet_localnet_read testnet_text_ids
    ltac:(intros o Ho; vm_compute in Ho; apply Ok_inj in Ho as <-; vm_compute; reflexivity) (proj1 testnet_run_ok))).
Defined.

End TestnetSamples.
