(* ===== verification/LocalnetRegistry.v ===== *)
(** src/contracts/scripts/validate-registry.mjs: the offline check of the localnet
    registry, the artifacts it pins, the checksum file and the text of everything
    that is generated. *)

From S2P Require Import Prelude JsNum JsText JsUtf8 JsValue JsOps JsonText JsPath Deploy GeneratedFiles.

Open Scope Z_scope.

(** ** Paths *)

Definition registry_file : jstr := js "contracts/deployments/localnet.json".
Definition schema_file : jstr := js "contracts/deployments/deployment-registry-v1.schema.json".
Definition checksums_file : jstr := js "contracts/deployments/SHA256SUMS".
Definition components_file : jstr := js "contracts/config/components-v1.json".
Definition components_schema_file : jstr := js "contracts/config/components-v1.schema.json".
Definition identifiers_file : jstr := js "chain/config/identifiers.json".
Definition genesis_file : jstr := js "chain/genesis/localnet/genesis.json".
Definition genesis_manifest_file : jstr := js "chain/genesis/localnet/manifest.json".
Definition toolchain_file : jstr := js "chain/toolchain.json".
Definition gas_snapshot_file : jstr := js "contracts/gas-snapshots/attestation-registry-v1.snapshot".

(** The files of the repository that are generated from others. *)
Definition sdk_files : list jstr := [
  js "packages/torium-sdk/src/generated/contracts/abis.ts";
  js "packages/torium-sdk/src/generated/contracts/deployments.ts";
  js "packages/torium-sdk/src/generated/contracts/index.ts";
  js "apps/developer-docs/content/generated/contracts-localnet-foundation.json"].

Definition canonical_files : list jstr := [
  registry_file;
  js "contracts/generated/abi/IToriumNative.json";
  js "contracts/generated/abi/ToriumCreate2Factory.json";
  js "contracts/generated/abi/ToriumRewardDistributor.json";
  js "contracts/generated/abi/ToriumAttestationRegistry.json"] ++ sdk_files.

Definition generator : value := vs "contracts/scripts/generate-artifacts.mjs".
Definition native_text : jstr := js "torium-native".

(** ** Text *)

(** [/^[a-z0-9][a-z0-9.-]*$/u] *)
Definition is_version_text (v : value) : bool :=
  let word c := is_lower c || is_digit c in
  match v with
  | VStr (c :: s) => word c && forallb (λ x, word x || (x =? 46)%N || (x =? 45)%N) s
  | _ => false
  end.

(** What is left of [s] without the suffix [p]. *)
Definition before_suffix (p s : jstr) : option jstr := option_map (@reverse N) (after id (reverse p) (reverse s)).

(** [/^contracts\/generated\/abi\/.+\.json$/u] *)
Definition is_artifact_path (v : value) : bool :=
  match v with
  | VStr s =>
      match after id (js "contracts/generated/abi/") s with
      | Some r =>
          match before_suffix (js ".json") r with
          | Some (c :: m) => forallb (λ x, negb (is_line_end x)) (c :: m)
          | _ => false
          end
      | None => false
      end
  | _ => false
  end.

(** [s.trimEnd()]. *)
Definition trim_end (s : jstr) : jstr := reverse (trim_start (reverse s)).

(** [line.match(/^([0-9a-f]{64})  ([^\s]+)$/u)]: the hash and the path. *)
Definition checksum_line (line : jstr) : option (jstr * jstr) :=
  let hash := take 64 line in
  match drop 64 line with
  | 32%N :: 32%N :: ((_ :: _) as path) =>
      if Nat.eqb (length hash) 64 && forallb is_lower_hex hash && forallb (λ c, negb (is_space c)) path
      then Some (hash, path) else None
  | _ => None
  end.

(** [assert.match(value, pattern, label)] for a hash. *)
Definition assertHash (v : value) (prefixed : bool) (label : jstr) : result () :=
  assert (is_hash_text prefixed v) (label +++ js " must be lowercase canonical hex").

(** [a.includes(x)] of an array or a string. *)
Definition includes_value (a x : value) : result bool :=
  match a with
  | VArr l => Ok (existsb (λ y, strict_eq y x) l)
  | VStr s => Ok (includes (to_string x) s)
  | _ => type_error (js "includes is not a function")
  end.

Definition assertExactKeys (v expected : value) (label : jstr) : result () :=
  names ← own_keys v;
  l ← spread expected;
  assert (same_strings names l) (label +++ js " has missing or unknown fields").

Definition texts (l : list string) : value := VArr (map vs l).

(** ** ABI *)

(** [parameters.map(({ name, type }) => [name, type])] and, for a constructor,
    [({ name, type })]. *)
Definition shape (parameters : value) : result value :=
  l ← as_array parameters;
  k ← map_res (λ p, name ← get p (js "name"); type ← get p (js "type"); Ok (VArr [name; type])) l;
  Ok (VArr k).

Definition constructor_shape (inputs : value) : result value :=
  l ← as_array inputs;
  k ← map_res (λ p, name ← get p (js "name"); type ← get p (js "type");
                    Ok (VObj ["name" :=: name; "type" :=: type]%js)) l;
  Ok (VArr k).

Definition is_function (item : value) : result bool :=
  type ← get item (js "type"); Ok (strict_eq type (vs "function")).

Definition assertAbiFunction (abi : value) (name : string) (inputs outputs : value) : result () :=
  l ← as_array abi;
  matches ← filter_res (λ item, f ← is_function item;
              if f : bool then n ← get item (js "name"); Ok (strict_eq n (vs name)) else Ok false) l;
  assert (Nat.eqb (length matches) 1) (js name +++ js " must have one unambiguous ABI entry");;
  let entry := default VUndef (head matches) in
  i ← get entry (js "inputs"); si ← shape i;
  assert (deep_equal si inputs) (js name +++ js " inputs differ");;
  o ← get entry (js "outputs"); so ← shape o;
  assert (deep_equal so outputs) (js name +++ js " outputs differ").

Definition pairs (l : list (string * string)) : value := VArr (map (λ p, texts [fst p; snd p]) l).

Definition commitment_parameters : value := pairs [
  ("schemaId", "bytes32"); ("schemaVersion", "uint32"); ("subject", "bytes32"); ("referenceHash", "bytes32");
  ("contentHash", "bytes32"); ("metadataHash", "bytes32"); ("metadataUriHash", "bytes32"); ("supersedes", "bytes32")]%string.

(** The functions of the attestation registry: name, inputs and outputs. *)
Definition attestation_functions : list (string * value * value) := [
  ("attest", commitment_parameters, pairs [("attestationId", "bytes32")]);
  ("computeCommitment", commitment_parameters, pairs [(EmptyString, "bytes32")]);
  ("computeAttestationId", pairs [("issuer", "address"); ("issuerNonce", "uint256"); ("commitment", "bytes32")],
    pairs [(EmptyString, "bytes32")]);
  ("revoke", pairs [("attestationId", "bytes32"); ("revocationReasonHash", "bytes32")], pairs []);
  ("verify", pairs [("attestationId", "bytes32"); ("expectedIssuer", "address"); ("expectedCommitment", "bytes32")],
    pairs [(EmptyString, "bool")])]%string.

Definition forbidden_functions : list string :=
  ["owner"; "transferOwnership"; "grantRole"; "revokeRole"; "renounceRole"; "pause"; "unpause"]%string.

Section localnet.
Context (lib : library).
(** viem's [isAddress] with strict checksums, a compiled schema, and the string
    functions that depend on Unicode data. *)
Context (isAddress : value → result bool).
Context (ajv : value → result (value → bool * value)).
Context (toLowerCase toUpperCase : jstr → jstr) (collate : jstr → jstr → bool).
Context (readFile : jstr → result (list Z)) (repositoryRoot : jstr).

(** ** Files *)

Definition absolute (relativePath : jstr) : result jstr :=
  assert (negb (is_absolute relativePath)) not_equal;;
  assert (negb (includes (js "..") relativePath)) not_equal;;
  Ok (path_join [repositoryRoot; relativePath]).

(** A path that a document names. *)
Definition path_text (v : value) : result jstr :=
  match v with
  | VStr s => Ok s
  | _ => type_error (js "The path argument must be of type string")
  end.

Definition readBytes (relativePath : jstr) : result (list Z) :=
  p ← absolute relativePath; readFile p.
Definition readText (relativePath : jstr) : result jstr :=
  bytes ← readBytes relativePath; Ok (utf8_decode bytes).
Definition readDocument (relativePath : jstr) : result value :=
  text ← readText relativePath; json_parse text.

Definition rejectUnsafeText (relativePath contents : jstr) : result () :=
  match unsafe_text toUpperCase repositoryRoot contents with
  | Some (ForbiddenText v) =>
      Throw (Exn EAssertion (relativePath +++ js " contains forbidden generated text: " +++ v))
  | Some CredentialHeader =>
      Throw (Exn EAssertion (relativePath +++ js " contains a forbidden HTTP credential header"))
  | Some TimestampField =>
      Throw (Exn EAssertion (relativePath +++ js " contains a nondeterministic timestamp field"))
  | None => Ok ()
  end.

Definition assertChecksummedAddress (v : value) (label : jstr) : result () :=
  b ← isAddress v;
  assert b (label +++ js " is invalid");;
  a ← getAddress lib v;
  equal v (VStr a) (label +++ js " must be EIP-55 checksummed").

(** The documents, in the order they are read. *)
Record documents := Documents {
  registry : value; schema : value; components : value; componentsSchema : value;
  identifiers : value; genesis : value; genesisManifest : value; toolchain : value;
}.

Definition readDocuments : result documents :=
  registry ← readDocument registry_file;
  schema ← readDocument schema_file;
  components ← readDocument components_file;
  componentsSchema ← readDocument components_schema_file;
  identifiers ← readDocument identifiers_file;
  genesis ← readDocument genesis_file;
  genesisManifest ← readDocument genesis_manifest_file;
  toolchain ← readDocument toolchain_file;
  Ok (Documents registry schema components componentsSchema identifiers genesis genesisManifest toolchain).

Section checks.
Context (d : documents).

Definition entry (id : jstr) : result value :=
  entries ← get (registry d) (js "entries");
  v ← find_by "id" (VStr id) entries;
  assert (truthy v) (js "missing registry entry: " +++ id);;
  Ok v.

Definition component (id : jstr) : result value :=
  l ← get (components d) (js "components");
  v ← find_by "id" (VStr id) l;
  assert (truthy v) (js "missing component decision: " +++ id);;
  Ok v.

(** [v.map((x) => x.id)] *)
Definition ids (v : value) : result value :=
  l ← as_array v; k ← map_res (λ x, get x (js "id")) l; Ok (VArr k).

Definition fits (schema document : value) (what : jstr) : result () :=
  validate ← ajv schema;
  let '(valid, errors) := validate document in
  assert valid (what +++ js " JSON Schema validation failed: " +++ stringify 0 0 errors).

(** ** Schemas and the component decision *)

Definition checkDocuments : result () :=
  fits (schema d) (registry d) (js "registry");;
  fits (componentsSchema d) (components d) (js "component");;
  required ← get (schema d) (js "required");
  assertExactKeys (registry d) required (js "registry");;
  equal_at (schema d) ["additionalProperties"]%string (VBool false);;
  equal_at (registry d) ["$schema"]%string (vs "./deployment-registry-v1.schema.json");;
  equal_at (registry d) ["schemaVersion"]%string (vi 1);;
  equal_at (registry d) ["registryVersion"]%string (vs "0.1.0");;
  equal_at (registry d) ["generatedBy"]%string generator;;
  equal_at (registry d) ["environment"]%string (vs "localnet");;
  equal_at (registry d) ["releaseStatus"]%string (vs "local-only-valueless");;
  deep_equal_at (components d) ["genesisPredeployPolicy"]%string (VObj [
    "toriumAuthoredSolidityPredeploys" :=: VArr [];
    "futureAdditionRequiresAdr" :=: VBool true;
    "requiredEvidence" :=: texts ["deterministic-state-allocation"; "bytecode-and-storage-hash-fixtures";
       "upgrade-and-migration-rules"; "evm-conformance-coverage"]%string]%js).

Definition owner_issue (id : jstr) : Z :=
  if id =s? factory_id then 108 else if id =s? distributor_id then 109 else 110.

Definition planned_component (id : jstr) : value := VObj [
  "id" :=: VStr id;
  "classification" :=: vs "post-genesis-deterministic";
  "status" :=: vs "planned";
  "ownerIssue" :=: vi (owner_issue id);
  "upgradeModel" :=: vs "immutable-versioned-redeployment";
  "genesisRequired" :=: VBool false]%js.

Definition checkComponents : result () :=
  l ← get (components d) (js "components");
  k ← ids l;
  assert (deep_equal k (texts ["upstream-evm-precompiles"; "cosmos-evm-precompiles"; "torium-native";
            "torium-create2-factory"; "reward-distributor"; "attestation-registry"]%string))
    (js "component decision must retain the exact reviewed v1 component order");;
  for_each (λ id, c ← component id;
      assert (deep_equal c (planned_component id)) (id +++ js " must remain a planned post-genesis component"))
    [factory_id; distributor_id; attestation_id].

(** ** Chain and toolchain *)

Definition checkChain : result () :=
  chain ← get (registry d) (js "chain");
  assertExactKeys chain (texts ["cosmosChainId"; "evmChainId"; "genesisSha256"]%string) (js "registry.chain");;
  networks ← get (identifiers d) (js "networks");
  localnet ← find_by "environment" (vs "localnet") networks;
  assert (truthy localnet) (js "canonical localnet identifiers are missing");;
  cosmos ← get chain (js "cosmosChainId");
  c ← walk localnet ["cosmos"; "chainId"]%string;
  equal cosmos c not_equal;;
  evm ← get chain (js "evmChainId");
  e ← walk localnet ["evm"; "chainId"]%string;
  equal evm e not_equal;;
  equal_at (genesisManifest d) ["cosmos_chain_id"]%string cosmos;;
  equal_at (genesisManifest d) ["evm_chain_id"]%string evm;;
  hash ← get chain (js "genesisSha256");
  assertHash hash false (js "chain genesis SHA-256");;
  bytes ← readBytes genesis_file;
  equal hash (VStr (sha256 lib bytes)) (js "registry genesis checksum differs from canonical localnet genesis");;
  equal_at (genesis d) ["chain_id"]%string cosmos.

Definition checkToolchain : result () :=
  t ← get (registry d) (js "toolchain");
  foundryVersion ← walk (toolchain d) ["contracts"; "foundry"; "version"]%string;
  foundryImage ← walk (toolchain d) ["contracts"; "foundry"; "image"]%string;
  solidityVersion ← walk (toolchain d) ["contracts"; "solidity"; "version"]%string;
  solidityLongVersion ← walk (toolchain d) ["contracts"; "solidity"; "longVersion"]%string;
  solidityImage ← walk (toolchain d) ["contracts"; "solidity"; "image"]%string;
  openZeppelin ← walk (toolchain d) ["contracts"; "openZeppelin"; "version"]%string;
  assert (deep_equal t (VObj [
    "foundryVersion" :=: foundryVersion; "foundryImage" :=: foundryImage;
    "solidityVersion" :=: solidityVersion; "solidityLongVersion" :=: solidityLongVersion;
    "solidityImage" :=: solidityImage; "evmVersion" :=: vs "prague";
    "optimizerEnabled" :=: VBool true; "optimizerRuns" :=: vi 200; "viaIr" :=: VBool false;
    "bytecodeHash" :=: vs "none"; "cborMetadata" :=: VBool false;
    "openZeppelinVersion" :=: openZeppelin]%js)) not_deep_equal.

(** ** Entries *)

Definition lower_text (v : value) : result jstr :=
  match v with VStr s => Ok (toLowerCase s) | _ => type_error (js "toLowerCase is not a function") end.

Definition checkEntries : result () :=
  entries ← get (registry d) (js "entries");
  k ← ids entries;
  assert (deep_equal k (texts ["torium-native"; "torium-create2-factory"; "reward-distributor";
            "attestation-registry"]%string))
    (js "registry must contain the active native precompile and reviewed post-genesis plans");;
  l ← as_array entries;
  addresses ← map_res (λ e, get e (js "address")) l;
  lower ← map_res lower_text (List.filter (λ a, negb (is_null a)) addresses);
  assert (all_distinct lower) (js "registry addresses must be unique").

Definition validateCommonEntry (allowNullAddress : bool) (v : value) : result () :=
  required ← walk (schema d) ["$defs"; "entry"; "required"]%string;
  id ← get v (js "id");
  assertExactKeys v required (js "registry entry " +++ to_string id);;
  a ← get v (js "address");
  (if allowNullAddress then equal a VNull (to_string id +++ js " address must remain unassigned")
   else assertChecksummedAddress a (to_string id +++ js " address"));;
  version ← get v (js "implementationVersion");
  assert (is_version_text version) not_matched;;
  path ← get v (js "artifactPath");
  assert (is_artifact_path path) not_matched;;
  assert (negb (is_absolute (v_str path))) not_equal;;
  sha ← get v (js "artifactSha256");
  assertHash sha false (to_string id +++ js " artifact SHA-256");;
  abi ← get v (js "abiSha256");
  assertHash abi false (to_string id +++ js " ABI SHA-256").

Definition checkNative (native : value) : result () :=
  c ← component native_text;
  equal_at c ["classification"]%string (vs "protocol-precompile");;
  equal_at c ["status"]%string (vs "active");;
  equal_at native ["classification"]%string (vs "protocol-precompile");;
  equal_at native ["status"]%string (vs "active");;
  equal_at native ["implementationVersion"]%string (vs "protocol-v1");;
  equal_at native ["upgradeModel"]%string (vs "protocol-upgrade");;
  equal_at native ["contractName"]%string (vs "IToriumNative");;
  equal_at native ["deployment"]%string VNull;;
  deep_equal_at native ["roles"]%string (VArr []);;
  source ← walk native ["code"; "interfaceSourceSha256"]%string;
  deep_equal_at native ["code"]%string
    (VObj ["kind" :=: vs "protocol-precompile"; "interfaceSourceSha256" :=: source]%js);;
  assertHash source false (js "native source hash");;
  deep_equal_at native ["configuration"]%string (VObj [
    "module" :=: vs "erc20"; "denom" :=: vs "atorium"; "decimals" :=: vi 18;
    "genesisStatePath" :=: vs "app_state.erc20.native_precompiles"]%js);;
  deep_equal_at native ["verification"]%string (VObj [
    "kind" :=: vs "genesis-and-call-conformance"; "observedInGenesis" :=: VBool true;
    "evidencePath" :=: vs "chain/tests/e2e/run.sh"]%js);;
  precompile ← walk (genesisManifest d) ["native_asset"; "solidity_precompile_address"]%string;
  canonical ← getAddress lib precompile;
  equal_at native ["address"]%string (VStr canonical);;
  precompiles ← walk (genesis d) ["app_state"; "erc20"; "native_precompiles"]%string;
  a ← get native (js "address");
  present ← includes_value precompiles a;
  assert present (js "native precompile is absent from canonical genesis");;
  n ← walk (genesis d) ["app_state"; "evm"; "preinstalls"; "length"]%string;
  equal n (vi 0) (js "Torium-authored Solidity genesis predeploys are forbidden in v0").

(** [assertExactKeys(code, ...)], its kind and its hashes, of a contract. *)
Definition checkCode (v : value) (label : jstr) : result () :=
  code ← get v (js "code");
  assertExactKeys code (texts ["kind"; "creationCodeKeccak256"; "runtimeCodeKeccak256"]%string) (label +++ js ".code");;
  equal_at code ["kind"]%string (vs "evm-bytecode");;
  creation ← get code (js "creationCodeKeccak256");
  assertHash creation true (label +++ js " creation-code hash");;
  runtime ← get code (js "runtimeCodeKeccak256");
  assertHash runtime true (label +++ js " runtime-code hash").

Definition checkFactory (factory : value) : result () :=
  c ← component factory_id;
  equal_at c ["classification"]%string (vs "post-genesis-deterministic");;
  equal_at c ["status"]%string (vs "planned");;
  equal_at factory ["classification"]%string (vs "post-genesis-create");;
  equal_at factory ["status"]%string (vs "planned");;
  equal_at factory ["implementationVersion"]%string (vs "1.0.0");;
  equal_at factory ["upgradeModel"]%string (vs "immutable-versioned-redeployment");;
  equal_at factory ["contractName"]%string (vs "ToriumCreate2Factory");;
  deep_equal_at factory ["roles"]%string (VArr []);;
  checkCode factory (js "factory");;
  deep_equal_at factory ["configuration"]%string
    (VObj ["constructorArguments" :=: VArr []; "constructorArgumentsAbi" :=: vs "0x"]%js);;
  deep_equal_at factory ["verification"]%string
    (VObj ["kind" :=: vs "planned-runtime-code-hash"; "observedOnChain" :=: VBool false]%js);;
  plan ← get factory (js "deployment");
  assertExactKeys plan (texts ["strategy"; "deployerAddress"; "deployerNonce"; "expectedAddress";
      "transactionHash"; "broadcast"]%string) (js "factory.deployment");;
  strategy ← get plan (js "strategy");
  nonce ← get plan (js "deployerNonce");
  transaction ← get plan (js "transactionHash");
  broadcast ← get plan (js "broadcast");
  assert (deep_equal
      (VObj ["strategy" :=: strategy; "deployerNonce" :=: nonce;
             "transactionHash" :=: transaction; "broadcast" :=: broadcast]%js)
      (VObj ["strategy" :=: vs "fixture-deployer-create-v1"; "deployerNonce" :=: vs "0";
             "transactionHash" :=: VNull; "broadcast" :=: VBool false]%js))
    (js "factory must remain an unbroadcast nonce-0 post-genesis plan");;
  deployer ← get plan (js "deployerAddress");
  assertChecksummedAddress deployer (js "factory deployer");;
  expected ← get plan (js "expectedAddress");
  assertChecksummedAddress expected (js "factory expected address");;
  accounts ← get (genesisManifest d) (js "development_accounts");
  fixture ← find_by "name" (vs "deployer") accounts;
  assert (truthy fixture) (js "canonical localnet deployer fixture is missing");;
  fixtureAddress ← get fixture (js "evm_address");
  canonical ← getAddress lib fixtureAddress;
  equal deployer (VStr canonical) not_equal;;
  let expectedAddress := VStr (getContractAddress lib (v_str deployer) 0) in
  equal_at factory ["address"]%string expectedAddress;;
  equal expected expectedAddress not_equal.

(** The checks that the two addressless plans share. *)
Definition checkPlan (id : jstr) (name : string) (v : value) : result () :=
  c ← component id;
  equal_at c ["classification"]%string (vs "post-genesis-deterministic");;
  equal_at c ["status"]%string (vs "planned");;
  equal_at v ["contractName"]%string (vs name);;
  equal_at v ["address"]%string VNull;;
  equal_at v ["classification"]%string (vs "post-genesis-deterministic");;
  equal_at v ["status"]%string (vs "planned");;
  equal_at v ["implementationVersion"]%string (vs "1.0.0");;
  equal_at v ["upgradeModel"]%string (vs "immutable-versioned-redeployment");;
  equal_at v ["deployment"]%string VNull.

Definition role_plan (name authority : string) : value := VObj [
  "role" :=: vs name; "assignment" :=: vs "unassigned"; "authority" :=: vs authority]%js.

Definition constructor_input (name type : string) : value :=
  VObj ["name" :=: vs name; "type" :=: vs type]%js.

Definition checkReward (reward : value) : result () :=
  checkPlan distributor_id "ToriumRewardDistributor" reward;;
  deep_equal_at reward ["configuration"]%string (VObj [
    "constructorArguments" :=: VNull; "constructorArgumentsAbi" :=: VNull;
    "constructorSchema" :=: VArr [
      constructor_input "defaultAdminDelay_" "uint48"; constructor_input "initialAdmin_" "address";
      constructor_input "initialPublisher_" "address"; constructor_input "initialPauser_" "address";
      constructor_input "initialClawbackOperator_" "address"; constructor_input "treasury_" "address";
      constructor_input "publicationDelay_" "uint64"; constructor_input "clawbackDelay_" "uint64"];
    "fundingModel" :=: vs "exact-native-value-equals-merkle-sum-root";
    "publisherAllocationTrust" :=: vs "trusted-off-chain-dataset";
    "treasuryModel" :=: vs "fixed-constructor-address-delayed-expiry-clawback"]%js);;
  deep_equal_at reward ["roles"]%string (VArr [
    role_plan "DEFAULT_ADMIN_ROLE" "delayed-admin-transfer";
    role_plan "EPOCH_PUBLISHER_ROLE" "default-admin-managed";
    role_plan "PAUSER_ROLE" "default-admin-managed";
    role_plan "CLAWBACK_ROLE" "default-admin-managed"]);;
  deep_equal_at reward ["verification"]%string (VObj [
    "kind" :=: vs "artifact-and-static-tests-only"; "observedOnChain" :=: VBool false;
    "deploymentEvidence" :=: VNull]%js);;
  checkCode reward (js "reward").

Definition gas_snapshot_hash : value := vs "6ab8387de23d8fafa0e38169911a7a4feb38dbf682254479022acfa770ea512e".

Definition checkAttestation (attestation : value) : result () :=
  checkPlan attestation_id "ToriumAttestationRegistry" attestation;;
  deep_equal_at attestation ["roles"]%string (VArr []);;
  deep_equal_at attestation ["configuration"]%string (VObj [
    "constructorArguments" :=: VArr []; "constructorArgumentsAbi" :=: vs "0x";
    "issuerAuthorization" :=: vs "permissionless-msg-sender";
    "canonicalHashAlgorithm" :=: vs "torium-attestation-canonical-bytes-v1";
    "commitmentFieldOrder" :=: texts ["schemaId"; "schemaVersion:uint32"; "subject"; "referenceHash";
       "contentHash"; "metadataHash"; "metadataUriHash"; "supersedes"]%string;
    "identifierDomain" :=: vs "chain-id-registry-address-issuer-nonce-commitment";
    "replayProtection" :=: vs "issuer-scoped-payload-excluding-supersedes-permanent";
    "supersessionConstraint" :=: vs "same-issuer-schema-id-and-subject";
    "storageModel" :=: vs "hashes-and-minimal-identifiers-only";
    "benchmarkPlan" :=: VObj [
       "status" :=: vs "committed-pinned-snapshot";
       "command" :=: vs "make -C contracts gas-snapshot-check";
       "stableCases" :=: texts ["testGasAttest()"; "testGasSupersede()"; "testGasRevoke()"]%string;
       "evidencePath" :=: VStr gas_snapshot_file;
       "evidenceSha256" :=: gas_snapshot_hash]]%js);;
  deep_equal_at attestation ["verification"]%string (VObj [
    "kind" :=: vs "artifact-and-static-tests-only"; "observedOnChain" :=: VBool false;
    "deploymentEvidence" :=: VNull;
    "benchmarkEvidence" :=: VObj [
       "kind" :=: vs "foundry-gas-snapshot"; "path" :=: VStr gas_snapshot_file;
       "sha256" :=: gas_snapshot_hash; "checkCommand" :=: vs "make -C contracts gas-snapshot-check"]]%js);;
  bytes ← readBytes gas_snapshot_file;
  evidence ← walk attestation ["configuration"; "benchmarkPlan"; "evidenceSha256"]%string;
  equal (VStr (sha256 lib bytes)) evidence (js "attestation gas snapshot checksum differs");;
  checkCode attestation (js "attestation").

(** ** Artifacts *)

(** [assert.equal(a.path, b.path')]. *)
Definition equal_paths (a : value) (ks : list string) (b : value) (ks' : list string) : result () :=
  x ← walk a ks; y ← walk b ks'; equal x y not_equal.

Definition bytecode_text (v : value) : bool :=
  match v with VStr s => is_bytes_text false s | _ => false end.

(** [assert.equal(artifact.bytecode[name], keccak256(artifact.bytecode[code]))]. *)
Definition check_bytecode_hash (artifact : value) (code name : string) : result () :=
  recorded ← walk artifact ["bytecode"; name]%string;
  v ← walk artifact ["bytecode"; code]%string;
  hash ← keccak256 lib v;
  equal recorded (VStr hash) not_equal.

Definition checkCompiler (artifact : value) (id : jstr) : result () :=
  compiler ← get artifact (js "compiler");
  assertExactKeys compiler (texts ["name"; "version"; "longVersion"; "image"; "evmVersion"; "optimizer";
     "viaIr"; "bytecodeHash"; "cborMetadata"]%string) (id +++ js " compiler");;
  equal_at compiler ["name"]%string (vs "solc");;
  equal_paths compiler ["version"]%string (registry d) ["toolchain"; "solidityVersion"]%string;;
  equal_paths compiler ["longVersion"]%string (registry d) ["toolchain"; "solidityLongVersion"]%string;;
  equal_paths compiler ["image"]%string (registry d) ["toolchain"; "solidityImage"]%string;;
  equal_paths compiler ["evmVersion"]%string (registry d) ["toolchain"; "evmVersion"]%string;;
  optimizer ← get compiler (js "optimizer");
  enabled ← walk (registry d) ["toolchain"; "optimizerEnabled"]%string;
  runs ← walk (registry d) ["toolchain"; "optimizerRuns"]%string;
  assert (deep_equal optimizer (VObj ["enabled" :=: enabled; "runs" :=: runs]%js)) not_deep_equal;;
  equal_paths compiler ["viaIr"]%string (registry d) ["toolchain"; "viaIr"]%string;;
  equal_paths compiler ["bytecodeHash"]%string (registry d) ["toolchain"; "bytecodeHash"]%string;;
  equal_paths compiler ["cborMetadata"]%string (registry d) ["toolchain"; "cborMetadata"]%string.

Definition artifact_notice : value :=
  vs "DO NOT EDIT: generated from canonical Solidity source and pinned Foundry output.".

Definition checkArtifact (registryEntry artifact : value) : result () :=
  name ← get registryEntry (js "id");
  let id := to_string name in
  assertExactKeys artifact (texts ["notice"; "schemaVersion"; "generatedBy"; "contractName"; "sourceName";
     "sourceSha256"; "compiler"; "abi"; "bytecode"]%string) (id +++ js " artifact");;
  equal_at artifact ["notice"]%string artifact_notice;;
  equal_at artifact ["schemaVersion"]%string (vi 1);;
  equal_at artifact ["generatedBy"]%string generator;;
  equal_paths artifact ["contractName"]%string registryEntry ["contractName"]%string;;
  checkCompiler artifact id;;
  abi ← get artifact (js "abi");
  checksum ← abiSha256 collate lib abi;
  recorded ← get registryEntry (js "abiSha256");
  equal (VStr checksum) recorded (id +++ js " ABI checksum differs");;
  assert (is_array abi) (id +++ js " ABI must be an array");;
  bytecode ← get artifact (js "bytecode");
  assertExactKeys bytecode (texts ["creation"; "runtime"; "creationCodeKeccak256"; "runtimeCodeKeccak256"]%string)
    (id +++ js " bytecode");;
  creation ← get bytecode (js "creation");
  assert (bytecode_text creation) not_matched;;
  runtime ← get bytecode (js "runtime");
  assert (bytecode_text runtime) not_matched;;
  check_bytecode_hash artifact "creation" "creationCodeKeccak256";;
  check_bytecode_hash artifact "runtime" "runtimeCodeKeccak256";;
  source ← get artifact (js "sourceSha256");
  assertHash source false (id +++ js " source hash").

Definition validateArtifact (registryEntry : value) : result value :=
  path ← get registryEntry (js "artifactPath");
  p ← path_text path;
  text ← readText p;
  recorded ← get registryEntry (js "artifactSha256");
  equal (VStr (sha256_text lib text)) recorded not_equal;;
  artifact ← json_parse text;
  checkArtifact registryEntry artifact;;
  sourceName ← get artifact (js "sourceName");
  s ← path_text sourceName;
  sourceText ← readBytes s;
  equal_at artifact ["sourceSha256"]%string (VStr (sha256 lib sourceText));;
  rejectUnsafeText p text;;
  Ok artifact.

(** Whether the bytecode is empty. *)
Definition check_empty (artifact : value) (code : string) (empty : bool) : result () :=
  v ← walk artifact ["bytecode"; code]%string;
  assert (Bool.eqb (strict_eq v (vs "0x")) empty) not_equal.

Definition check_code_hashes (v artifact : value) : result () :=
  equal_paths v ["code"; "creationCodeKeccak256"]%string artifact ["bytecode"; "creationCodeKeccak256"]%string;;
  equal_paths v ["code"; "runtimeCodeKeccak256"]%string artifact ["bytecode"; "runtimeCodeKeccak256"]%string.

(** The four artifacts: native, factory, reward and attestation. *)
Definition checkBytecode (entries artifacts : value * value * value * value) : result () :=
  let '(native, factory, reward, attestation) := entries in
  let '(nativeArtifact, factoryArtifact, rewardArtifact, attestationArtifact) := artifacts in
  equal_at nativeArtifact ["bytecode"; "creation"]%string (vs "0x");;
  equal_at nativeArtifact ["bytecode"; "runtime"]%string (vs "0x");;
  equal_paths nativeArtifact ["sourceSha256"]%string native ["code"; "interfaceSourceSha256"]%string;;
  for_each (λ a, check_empty a "creation" false;; check_empty a "runtime" false)
    [factoryArtifact; rewardArtifact; attestationArtifact];;
  check_bytecode_hash factoryArtifact "creation" "creationCodeKeccak256";;
  check_bytecode_hash factoryArtifact "runtime" "runtimeCodeKeccak256";;
  check_code_hashes factory factoryArtifact;;
  check_code_hashes reward rewardArtifact;;
  check_code_hashes attestation attestationArtifact.

Definition checkAbis (reward rewardArtifact attestationArtifact : value) : result () :=
  rewardAbi ← get rewardArtifact (js "abi");
  rewardConstructor ← find_by "type" (vs "constructor") rewardAbi;
  assert (truthy rewardConstructor) (js "reward ABI constructor is missing");;
  inputs ← get rewardConstructor (js "inputs");
  got ← constructor_shape inputs;
  schema ← walk reward ["configuration"; "constructorSchema"]%string;
  assert (deep_equal got schema) (js "reward constructor schema differs from the generated ABI");;
  abi ← get attestationArtifact (js "abi");
  constructor ← find_by "type" (vs "constructor") abi;
  equal (nullish (oget (oget constructor (js "inputs")) (js "length")) (vi 0)) (vi 0)
    (js "attestation registry must not require constructor authority or configuration");;
  items ← as_array abi;
  functions ← filter_res is_function items;
  names ← map_res (λ item, get item (js "name")) functions;
  for_each (λ f, assert (negb (existsb (λ n, strict_eq n (vs f)) names))
      (js "attestation ABI unexpectedly exposes privileged function: " +++ js f)) forbidden_functions;;
  for_each (λ f, let '(name, i, o) := f in assertAbiFunction abi name i o) attestation_functions.

(** ** Checksums *)

Definition parse_checksum (line : jstr) : result (jstr * jstr) :=
  match checksum_line line with
  | Some p => Ok p
  | None => Throw (Exn EAssertion (js "invalid SHA256SUMS line: " +++ line))
  end.

Definition checkChecksum (item : jstr * jstr) : result () :=
  let '(hash, relativePath) := item in
  assert (negb (is_absolute relativePath)) not_equal;;
  assert (negb (includes (js "..") relativePath)) not_equal;;
  assert (negb (relativePath =s? checksums_file)) not_equal;;
  bytes ← readBytes relativePath;
  assert (sha256 lib bytes =s? hash) (js "checksum differs for " +++ relativePath).

Definition validateChecksums : result () :=
  text ← readText checksums_file;
  assert (ends_with [10%N] text) not_equal;;
  parsed ← map_res parse_checksum (split_on 10 (trim_end text));
  let paths := map snd parsed in
  assert (bool_decide (paths = sort_strings paths)) (js "SHA256SUMS paths must be sorted");;
  assert (all_distinct paths) (js "SHA256SUMS contains duplicate paths");;
  assert (bool_decide (paths = sort_strings canonical_files))
    (js "SHA256SUMS must cover every canonical generated consumer exactly once");;
  for_each checkChecksum parsed.

(** ** The whole script *)

Definition checkText (path : value) : result () :=
  p ← path_text path;
  text ← readText p;
  rejectUnsafeText p text.

Definition registry_success : jstr :=
  js "Validated deterministic localnet registry: active native precompile, unbroadcast factory plan, and addressless reward/attestation plans.".

Definition validateAll : result jstr :=
  checkDocuments;;
  checkComponents;;
  checkChain;;
  checkToolchain;;
  checkEntries;;
  native ← entry native_text;
  factory ← entry factory_id;
  reward ← entry distributor_id;
  attestation ← entry attestation_id;
  validateCommonEntry false native;;
  validateCommonEntry false factory;;
  validateCommonEntry true reward;;
  validateCommonEntry true attestation;;
  checkNative native;;
  checkFactory factory;;
  checkReward reward;;
  checkAttestation attestation;;
  nativeArtifact ← validateArtifact native;
  factoryArtifact ← validateArtifact factory;
  rewardArtifact ← validateArtifact reward;
  attestationArtifact ← validateArtifact attestation;
  checkBytecode (native, factory, reward, attestation)
    (nativeArtifact, factoryArtifact, rewardArtifact, attestationArtifact);;
  checkAbis reward rewardArtifact attestationArtifact;;
  validateChecksums;;
  nativePath ← get native (js "artifactPath");
  factoryPath ← get factory (js "artifactPath");
  rewardPath ← get reward (js "artifactPath");
  attestationPath ← get attestation (js "artifactPath");
  for_each checkText (VStr registry_file :: [nativePath; factoryPath; rewardPath; attestationPath] ++ map VStr sdk_files);;
  Ok registry_success.

End checks.

(** What the script prints. *)
Definition validateRegistry : result jstr := d ← readDocuments; validateAll d.

End localnet.
