(* ===== verification/LocalnetRegistryFacts.v ===== *)
(** What an accepted localnet registry guarantees: the deployment script can load
    it, and the checksum file is determined by the files that it covers. *)

From S2P Require Import Prelude JsNum JsText JsUtf8 JsValue JsOps JsonText JsPath Deploy DeployFacts GeneratedFiles GeneratedFilesFacts TestnetRegistry TestnetRegistryFacts LocalnetRegistry.

Open Scope Z_scope.

Section facts.
Context (lib : library) (isAddress : value → result bool) (ajv : value → result (value → bool * value)).
Context (toLowerCase toUpperCase : jstr → jstr) (collate : jstr → jstr → bool).
Context (readFile : jstr → result (list Z)) (repositoryRoot : jstr).

Abbreviation readBytes := (readBytes readFile repositoryRoot).
Abbreviation readText := (readText readFile repositoryRoot).
Abbreviation readDocument := (readDocument readFile repositoryRoot).
Abbreviation validateArtifact := (validateArtifact lib toUpperCase collate readFile repositoryRoot).
Abbreviation validateRegistry := (validateRegistry lib isAddress ajv toLowerCase toUpperCase collate readFile repositoryRoot).
Abbreviation validateChecksums := (validateChecksums lib readFile repositoryRoot).

(** ** Reading *)

Lemma absolute_Ok p q : absolute repositoryRoot p = Ok q → q = path_join [repositoryRoot; p].
Proof. intros H. unfold absolute in H. passed H as H1. passed H as H2. by apply Ok_inj in H. Qed.

Lemma readBytes_Ok p b : readBytes p = Ok b → readFile (path_join [repositoryRoot; p]) = Ok b.
Proof. intros H. unfold LocalnetRegistry.readBytes in H. take H as q Hq. by apply absolute_Ok in Hq as ->. Qed.

Lemma readDocument_Ok p v : readDocument p = Ok v → readRepositoryJson readFile repositoryRoot p = Ok v.
Proof.
  intros H. unfold LocalnetRegistry.readDocument in H. take H as t Ht. unfold LocalnetRegistry.readText in Ht. take Ht as b Hb.
  apply Ok_inj in Ht as <-. apply readBytes_Ok in Hb. unfold readRepositoryJson, Deploy.readJson. by rewrite Hb.
Qed.

(** ** The entries of the registry *)

Definition registry_ids : list jstr := [native_text; factory_id; distributor_id; attestation_id].

Lemma ids_exact v k : ids v = Ok k → deep_equal k (texts ["torium-native"; "torium-create2-factory";
    "reward-distributor"; "attestation-registry"]%string) = true →
  ∃ l, v = VArr l ∧ Forall2 (λ e id, get e (js "id") = Ok (VStr id)) l registry_ids.
Proof.
  intros H Hd. unfold ids in H. take H as l Hl. take H as ks Hk. apply Ok_inj in H as <-.
  destruct v; try done. apply Ok_inj in Hl as ->. exists l. split; [done|].
  apply map_res_Ok in Hk. unfold texts in Hd. apply deep_equal_arr in Hd.
  assert (Forall2 (λ x id, x = VStr id) ks registry_ids) as Hks.
  { change (map vs _) with (map VStr registry_ids) in Hd. apply Forall2_fmap_r in Hd.
    eapply Forall2_impl; [exact Hd|]. intros x id Hx. destruct x; try done. cbn [deep_equal compose] in Hx. by inv_bool; subst. }
  eapply Forall2_trans; [|exact Hk|exact Hks]. intros e x id Hg ->. exact Hg.
Qed.

(** The four entries, by id. *)
Record four_entries (registry native factory reward attestation : value) : Prop := FourEntries {
  four_list : get registry (js "entries") = Ok (VArr [native; factory; reward; attestation]);
  native_has_id : get native (js "id") = Ok (VStr native_text);
  factory_has_id : get factory (js "id") = Ok (VStr factory_id);
  reward_has_id : get reward (js "id") = Ok (VStr distributor_id);
  attestation_has_id : get attestation (js "id") = Ok (VStr attestation_id);
}.

Lemma checkEntries_four d :
  checkEntries toLowerCase d = Ok () → ∃ n f r a, four_entries (registry d) n f r a.
Proof.
  intros H. unfold checkEntries in H. take H as entries He. take H as k Hk. passed H as Hd.
  destruct (ids_exact _ _ Hk Hd) as (l & -> & Hl). unfold registry_ids in Hl.
  apply Forall2_cons_inv_r in Hl as (n & l1 & Hn & Hl & ->). apply Forall2_cons_inv_r in Hl as (f & l2 & Hf & Hl & ->).
  apply Forall2_cons_inv_r in Hl as (r & l3 & Hr & Hl & ->). apply Forall2_cons_inv_r in Hl as (a & l4 & Ha & Hl & ->).
  apply Forall2_nil_inv_r in Hl as ->.
  by exists n, f, r, a.
Qed.

Section four.
Context (d : documents) (n f r a : value) (four : four_entries (registry d) n f r a).

Lemma find_by_cons k w x l y :
  get x (js k) = Ok y →
  find_by k w (VArr (x :: l)) = if strict_eq y w then Ok x else find_by k w (VArr l).
Proof. intros H. unfold find_by. cbn [as_array mbind result_bind find_res]. by rewrite H. Qed.

Lemma entry_find id :
  entry d id = (v ← (if native_text =s? id then Ok n else if factory_id =s? id then Ok f else
                     if distributor_id =s? id then Ok r else if attestation_id =s? id then Ok a else Ok VUndef);
                assert (truthy v) (js "missing registry entry: " +++ id);; Ok v).
Proof.
  unfold entry. rewrite (four_list _ _ _ _ _ four). cbn [mbind result_bind]. unfold find_by. cbn [as_array mbind result_bind find_res].
  rewrite (native_has_id _ _ _ _ _ four), (factory_has_id _ _ _ _ _ four), (reward_has_id _ _ _ _ _ four),
    (attestation_has_id _ _ _ _ _ four). cbn [mbind result_bind strict_eq].
  by destruct (native_text =s? id), (factory_id =s? id), (distributor_id =s? id), (attestation_id =s? id).
Qed.

Lemma entry_four :
  (∀ v, entry d native_text = Ok v → v = n) ∧ (∀ v, entry d factory_id = Ok v → v = f ∧ truthy f = true) ∧
  (∀ v, entry d distributor_id = Ok v → v = r ∧ truthy r = true) ∧ (∀ v, entry d attestation_id = Ok v → v = a ∧ truthy a = true).
Proof.
  assert (∀ x msg v, (y ← Ok x; assert (truthy y) msg;; Ok y) = Ok v → v = x ∧ truthy x = true) as Hx.
  { intros x msg v H. cbn [mbind result_bind] in H. passed H as Ht. by apply Ok_inj in H as ->. }
  split; [|split; [|split]]; intros v H; rewrite entry_find in H.
  - by apply Hx in H as [].
  - change (native_text =s? factory_id) with false in H. change (factory_id =s? factory_id) with true in H. by apply Hx in H.
  - change (native_text =s? distributor_id) with false in H. change (factory_id =s? distributor_id) with false in H.
    change (distributor_id =s? distributor_id) with true in H. by apply Hx in H.
  - change (native_text =s? attestation_id) with false in H. change (factory_id =s? attestation_id) with false in H.
    change (distributor_id =s? attestation_id) with false in H. change (attestation_id =s? attestation_id) with true in H.
    by apply Hx in H.
Qed.

Definition pinned_entries : list (jstr * value) :=
  [(native_text, n); (factory_id, f); (distributor_id, r); (attestation_id, a)].

Lemma pin_four : pin (registry d) = Ok pinned_entries.
Proof.
  unfold pin. rewrite (four_list _ _ _ _ _ four). cbn [mbind result_bind as_array fold_res].
  rewrite (native_has_id _ _ _ _ _ four). cbn [mbind result_bind].
  rewrite (factory_has_id _ _ _ _ _ four). cbn [mbind result_bind].
  rewrite (reward_has_id _ _ _ _ _ four). cbn [mbind result_bind].
  rewrite (attestation_has_id _ _ _ _ _ four). cbn [mbind result_bind]. vm_compute. reflexivity.
Qed.

Lemma text_ids_four : text_ids (registry d).
Proof.
  unfold text_ids. pose proof (four_list _ _ _ _ _ four) as [_ <-]%get_Ok. cbn [v_list].
  assert (∀ v id, get v (js "id") = Ok (VStr id) → is_string (field v (js "id")) = true) as Hs
    by (intros v id [_ <-]%get_Ok; done).
  repeat constructor; eapply Hs; [apply (native_has_id _ _ _ _ _ four)|apply (factory_has_id _ _ _ _ _ four)
    |apply (reward_has_id _ _ _ _ _ four)|apply (attestation_has_id _ _ _ _ _ four)].
Qed.

End four.

(** ** Artifacts *)

(** A file that decodes without loss. *)
Definition utf8_file (p : value) : Prop :=
  ∀ s b, p = VStr s → readFile (path_join [repositoryRoot; s]) = Ok b → utf8_encode (utf8_decode b) = b.

Lemma equal_paths_Ok a ks b ks' u :
  equal_paths a ks b ks' = Ok u → ∃ x y, walk a ks = Ok x ∧ walk b ks' = Ok y ∧ same_value x y = true.
Proof. intros H. unfold equal_paths in H. take H as x Hx. take H as y Hy. apply equal_Ok in H. by exists x, y. Qed.

Lemma check_bytecode_hash_Ok artifact code name u :
  check_bytecode_hash lib artifact code name = Ok u →
  ∃ v hash, walk artifact ["bytecode"; code]%string = Ok v ∧ keccak256 lib v = Ok hash ∧
    walk artifact ["bytecode"; name]%string = Ok (VStr hash).
Proof.
  intros H. unfold check_bytecode_hash in H. take H as r Hr. take H as v Hv. take H as h Hh.
  apply equal_Ok, same_value_text_r in H as ->. by exists v, h.
Qed.

Lemma checkArtifact_hashes d e artifact u :
  checkArtifact lib collate d e artifact = Ok u →
  check_bytecode_hash lib artifact "creation" "creationCodeKeccak256" = Ok () ∧
  check_bytecode_hash lib artifact "runtime" "runtimeCodeKeccak256" = Ok ().
Proof.
  intros H. unfold checkArtifact in H. take H as name Hn. passed H as E1. passed H as E2. passed H as E3. passed H as E4.
  passed H as E5. passed H as E6. take H as abi Ha. take H as cs Hc. take H as rec Hr. passed H as E7. passed H as E8.
  take H as bc Hb. passed H as E9. take H as c Hcr. passed H as E10. take H as r Hru. passed H as E11.
  passed H as E12. passed H as E13. done.
Qed.

Lemma validateArtifact_Ok d e artifact :
  validateArtifact d e = Ok artifact →
  ∃ p b, get e (js "artifactPath") = Ok (VStr p) ∧ readFile (path_join [repositoryRoot; p]) = Ok b ∧
    get e (js "artifactSha256") = Ok (VStr (sha256_text lib (utf8_decode b))) ∧
    json_parse (utf8_decode b) = Ok artifact ∧ checkArtifact lib collate d e artifact = Ok ().
Proof.
  intros H. unfold LocalnetRegistry.validateArtifact in H. take H as path Hpath. take H as p Hp. take H as text Htext.
  take H as rec Hrec. passed H as E1. take H as art Hart. passed H as E2. take H as sn Hsn. take H as s Hs.
  take H as st Hst. passed H as E3. passed H as E4. apply Ok_inj in H as ->. unfold LocalnetRegistry.readText in Htext.
  take Htext as b Hb. apply Ok_inj in Htext as <-. apply readBytes_Ok in Hb. destruct path; try done.
  apply Ok_inj in Hp as ->. apply equal_Ok, same_value_text in E1 as ->. by exists p, b.
Qed.

(** An artifact that was validated is one the deployment script can load. *)
Lemma validated_loads d e artifact fs id :
  validateArtifact d e = Ok artifact → check_code_hashes e artifact = Ok () → truthy e = true → assoc id fs = Some e →
  (∀ p, get e (js "artifactPath") = Ok p → utf8_file p) →
  load lib readFile repositoryRoot fs id = Ok (id, (e, artifact)).
Proof.
  intros (p & b & Hp & Hb & Hs & Hj & Hc)%validateArtifact_Ok Hh Ht Ha Hu.
  apply checkArtifact_hashes in Hc as [(v & hash & Hv & Hk & Hr)%check_bytecode_hash_Ok _].
  unfold check_code_hashes in Hh. passed Hh as H1. apply equal_paths_Ok in H1 as (x & y & Hx & Hy & Hxy).
  rewrite Hr in Hy. apply Ok_inj in Hy as <-. apply same_value_text_r in Hxy as ->.
  unfold load. rewrite Ha. change (default VUndef (Some e)) with e. rewrite Ht. cbn [assert mbind result_bind].
  rewrite Hp. cbn [mbind result_bind join_path]. rewrite Hb. cbn [mbind result_bind]. rewrite Hs. cbn [mbind result_bind].
  unfold sha256_text. rewrite (Hu _ Hp _ _ eq_refl Hb). unfold assert at 1. rewrite (proj2 (same_value_text _ _) eq_refl).
  cbn [mbind result_bind]. rewrite Hj. cbn [mbind result_bind]. rewrite Hv. cbn [mbind result_bind]. rewrite Hk.
  cbn [mbind result_bind]. rewrite Hx. cbn [mbind result_bind]. unfold assert.
  by rewrite (proj2 (same_value_text _ _) eq_refl).
Qed.

Lemma validateCommonEntry_path d b e u :
  validateCommonEntry lib isAddress d b e = Ok u →
  ∀ p, get e (js "artifactPath") = Ok p → is_artifact_path p = true.
Proof.
  intros H p Hp. unfold validateCommonEntry in H. take H as rq Hrq. take H as id Hid. passed H as E1.
  take H as a Ha. passed H as E2. take H as v Hv. passed H as E3. take H as q Hq. passed H as E4. congruence.
Qed.

(** What the whole script has checked about the four entries. *)
Record accepted (d : documents) (n f r a fa ra aa : value) : Prop := Accepted {
  accepted_four : four_entries (registry d) n f r a;
  factory_valid : validateArtifact d f = Ok fa ∧ check_code_hashes f fa = Ok () ∧ truthy f = true;
  reward_valid : validateArtifact d r = Ok ra ∧ check_code_hashes r ra = Ok () ∧ truthy r = true;
  attestation_valid : validateArtifact d a = Ok aa ∧ check_code_hashes a aa = Ok () ∧ truthy a = true;
  artifact_paths : ∀ e p, e ∈ [f; r; a] → get e (js "artifactPath") = Ok p → is_artifact_path p = true;
}.

Lemma validateAll_accepted d msg :
  validateAll lib isAddress ajv toLowerCase toUpperCase collate readFile repositoryRoot d = Ok msg →
  (∃ n f r a fa ra aa, accepted d n f r a fa ra aa) ∧ validateChecksums = Ok ().
Proof.
  intros H. unfold validateAll in H. passed H as C1. passed H as C2. passed H as C3. passed H as C4. passed H as C5.
  apply checkEntries_four in C5 as (n & f & r & a & four).
  destruct (entry_four d n f r a four) as (Hn & Hf & Hr & Ha).
  take H as n' Hn'. take H as f' Hf'. take H as r' Hr'. take H as a' Ha'.
  apply Hn in Hn' as ->. apply Hf in Hf' as [-> Tf]. apply Hr in Hr' as [-> Tr]. apply Ha in Ha' as [-> Ta].
  passed H as V1. passed H as V2. passed H as V3. passed H as V4. passed H as K1. passed H as K2. passed H as K3. passed H as K4.
  take H as na Na. take H as fa Fa. take H as ra Ra. take H as aa Aa. passed H as B. passed H as A. passed H as S.
  split; [|done]. exists n, f, r, a, fa, ra, aa. unfold checkBytecode in B.
  passed B as B1. passed B as B2. passed B as B3. passed B as B4. passed B as B5. passed B as B6. passed B as B7. passed B as B8.
  split; [done|by repeat split..|].
  intros e p [->|[->|[->|[]%elem_of_nil]%elem_of_cons]%elem_of_cons]%elem_of_cons;
    by eapply validateCommonEntry_path.
Qed.

Lemma validated_checksums msg : validateRegistry = Ok msg → validateChecksums = Ok ().
Proof. intros H. unfold LocalnetRegistry.validateRegistry in H. take H as d Hd. by apply validateAll_accepted in H as [_ H]. Qed.

(** C21. An accepted localnet registry can be deployed: over the same files, if those
    of the artifacts are well-formed UTF-8, the deployment script finds the three
    contracts in the registry, and their artifacts pass its checksum and creation
    code checks, so that nothing but its arguments, its environment and its
    configuration can still stop it before it asks the endpoint. *)
Theorem validated_registry_deploys msg :
  validateRegistry = Ok msg → (∀ p, is_artifact_path p = true → utf8_file p) →
  ∃ localnet artifacts,
    readRepositoryJson readFile repositoryRoot registry_file = Ok localnet ∧ text_ids localnet ∧
    map fst artifacts = contract_ids ∧
    ∀ env argv o config checked,
      parseArguments argv = Ok o → env_given env "TORIUM_DEPLOY_RPC_URL" ≠ None →
      Deploy.readJson readFile (configPath o) = Ok config → checkConfig lib config = Ok checked →
      prepare lib readFile env repositoryRoot argv = Ok (o, config, checked, artifacts).
Proof.
  intros H Hu. unfold LocalnetRegistry.validateRegistry in H. take H as d Hd.
  assert (readRepositoryJson readFile repositoryRoot registry_file = Ok (registry d)) as Hreg.
  { unfold readDocuments in Hd. take Hd as r0 R0. take Hd as r1 R1. take Hd as r2 R2. take Hd as r3 R3. take Hd as r4 R4.
    take Hd as r5 R5. take Hd as r6 R6. take Hd as r7 R7. apply Ok_inj in Hd as <-. by apply readDocument_Ok in R0. }
  apply validateAll_accepted in H as [(n & f & r & a & fa & ra & aa & [four [F1 [F2 F3]] [R1 [R2 R3]] [A1 [A2 A3]] Hpath]) _].
  exists (registry d), [(factory_id, (f, fa)); (attestation_id, (a, aa)); (distributor_id, (r, ra))].
  split; [done|]. split; [by eapply text_ids_four|]. split; [done|].
  intros env argv o config checked Ho He Hc Hch. unfold prepare. rewrite Ho. cbn [mbind result_bind].
  destruct (env_given env _); [|done]. rewrite Hc. cbn [mbind result_bind]. rewrite Hch. cbn [mbind result_bind].
  change (js "contracts/deployments/localnet.json") with registry_file. rewrite Hreg. cbn [mbind result_bind].
  rewrite (pin_four d n f r a four). cbn [mbind result_bind]. unfold contract_ids. cbn [map_res].
  rewrite (validated_loads d f fa (pinned_entries n f r a) factory_id F1 F2 F3 eq_refl) by (intros; apply Hu; eapply Hpath; [|done]; set_solver).
  rewrite (validated_loads d a aa (pinned_entries n f r a) attestation_id A1 A2 A3 eq_refl) by (intros; apply Hu; eapply Hpath; [|done]; set_solver).
  rewrite (validated_loads d r ra (pinned_entries n f r a) distributor_id R1 R2 R3 eq_refl) by (intros; apply Hu; eapply Hpath; [|done]; set_solver).
  done.
Qed.

(** ** The checksum file *)

(** A line of the file. *)
Definition checksum_text (hash path : jstr) : jstr := hash +++ js "  " +++ path.

Lemma checksum_line_spec line hash path :
  checksum_line line = Some (hash, path) ↔
  line = checksum_text hash path ∧ is_hash_text false (VStr hash) = true ∧ path ≠ [] ∧
  forallb (λ c, negb (is_space c)) path = true.
Proof.
  unfold checksum_line, checksum_text. split.
  - intros H. repeat (case_match; try discriminate H). injection H as <- <-.
    match goal with H : _ && _ && _ = true |- _ => apply andb_true_iff in H as [Hh Hs] end.
    match goal with H : drop 64 line = _ |- _ => rename H into E end.
    split; [rewrite <- (take_drop 64 line) at 1; by rewrite E|]. by split.
  - intros (-> & Hh & Hp & Hs). cbn [is_hash_text] in Hh. pose proof Hh as [Hl _]%andb_true_iff. apply Nat.eqb_eq in Hl.
    change (hash +++ js "  " +++ path) with (hash ++ [32%N; 32%N] ++ path).
    rewrite take_app_length', drop_app_length' by done. destruct path as [|c path]; [done|]. cbn [app].
    by rewrite Hh, Hs.
Qed.

(** The paths that the file must list. *)
Definition listed : list jstr := sort_strings canonical_files.

Definition listable (p : jstr) : bool :=
  negb (is_absolute p) && negb (includes (js "..") p) && negb (p =s? checksums_file)
  && negb (bool_decide (p = [])) && forallb (λ c, negb (is_space c)) p.

Lemma listed_listable : Forall (λ p, listable p = true) listed.
Proof. apply forallb_spec. vm_compute. reflexivity. Qed.

Lemma listed_sorted : listed = sort_strings listed.
Proof. apply sort_strings_eq. by rewrite (sort_strings_perm canonical_files). Qed.

Lemma listed_distinct : all_distinct listed = true.
Proof. vm_compute. reflexivity. Qed.

(** node:crypto's hexadecimal digests. *)
Definition hex_digests : Prop := ∀ b, is_hash_text false (VStr (sha256 lib b)) = true.

Definition checksum_lines (paths : list jstr) (bodies : list (list Z)) : list jstr :=
  zip_with (λ p b, checksum_text (sha256 lib b) p) paths bodies.

Lemma checkChecksum_Ok hash path :
  checkChecksum lib readFile repositoryRoot (hash, path) = Ok () ↔
  negb (is_absolute path) && negb (includes (js "..") path) && negb (path =s? checksums_file) = true ∧
  ∃ b, readBytes path = Ok b ∧ hash = sha256 lib b.
Proof.
  unfold checkChecksum. rewrite !seq_Ok, !assert_Ok, !andb_true_iff, bind_Ok. split.
  - intros (H1 & H2 & H3 & b & Hb & He). rewrite assert_Ok in He. apply jeq_spec in He as <-.
    split; [done|]. by exists b.
  - intros ([[H1 H2] H3] & b & Hb & ->). do 3 (split; [done|]). exists b. split; [done|].
    apply assert_Ok. apply jeq_refl.
Qed.

Lemma parse_checksum_Ok line item :
  parse_checksum line = Ok item ↔ checksum_line line = Some item.
Proof. unfold parse_checksum. destruct (checksum_line line); [|done]. split; [by intros [= ->]|by intros [= ->]]. Qed.

(** What the lines say once they are parsed and the files read. *)
Lemma parsed_lines lines parsed :
  map_res parse_checksum lines = Ok parsed → Forall (λ x, checkChecksum lib readFile repositoryRoot x = Ok ()) parsed →
  ∃ bodies, Forall2 (λ p b, readBytes p = Ok b) (map snd parsed) bodies ∧ lines = checksum_lines (map snd parsed) bodies.
Proof.
  intros H%map_res_Ok Hc. induction H as [|line [hash path] lines parsed Hl _ IH]; [by exists []|].
  apply Forall_cons in Hc as [(_ & b & Hb & ->)%checkChecksum_Ok Hc]. destruct (IH Hc) as (bodies & Hr & ->).
  apply parse_checksum_Ok, checksum_line_spec in Hl as (-> & _). exists (b :: bodies). split; [by constructor|done].
Qed.

Lemma lines_parsed paths bodies :
  hex_digests → Forall (λ p, listable p = true) paths → Forall2 (λ p b, readBytes p = Ok b) paths bodies →
  let parsed := zip_with (λ p b, (sha256 lib b, p)) paths bodies in
  map_res parse_checksum (checksum_lines paths bodies) = Ok parsed ∧ map snd parsed = paths ∧
  Forall (λ x, checkChecksum lib readFile repositoryRoot x = Ok ()) parsed ∧
  Forall (λ l, 10%N ∉ l) (checksum_lines paths bodies).
Proof.
  intros Hx Hl Hr. induction Hr as [|p b paths bodies Hb _ IH]; [by repeat split|].
  apply Forall_cons in Hl as [Hp Hl]. destruct (IH Hl) as (H1 & H2 & H3 & H4). unfold checksum_lines in *.
  cbn [zip_with]. unfold listable in Hp. apply andb_true_iff in Hp as [Hp Hs]. apply andb_true_iff in Hp as [Hp Hne].
  apply negb_true_iff, bool_decide_eq_false in Hne.
  assert (parse_checksum (checksum_text (sha256 lib b) p) = Ok (sha256 lib b, p)) as Hparse.
  { apply parse_checksum_Ok, checksum_line_spec. split; [done|]. split; [apply Hx|done]. }
  cbn [map_res]. rewrite Hparse. cbn [mbind result_bind]. rewrite H1. cbn [mbind result_bind]. cbn [map snd]. rewrite H2.
  split; [done|]. split; [done|]. split.
  - constructor; [|done]. apply checkChecksum_Ok. split; [done|by exists b].
  - constructor; [|done]. change (checksum_text (sha256 lib b) p) with (sha256 lib b ++ [32%N; 32%N] ++ p).
    rewrite !elem_of_app. intros [Hin|[Hin|Hin]].
    + pose proof (Hx b) as Hd. cbn [is_hash_text] in Hd. apply andb_true_iff in Hd as [_ Hd%forallb_spec].
      rewrite Forall_forall in Hd. by apply Hd in Hin.
    + set_solver.
    + apply forallb_spec in Hs. rewrite Forall_forall in Hs. by apply Hs in Hin.
Qed.

(** A file of those lines is accepted. *)
Lemma checksums_accepted text bodies :
  hex_digests → readText checksums_file = Ok text → ends_with [10%N] text = true →
  Forall2 (λ p b, readBytes p = Ok b) listed bodies → trim_end text = join [10%N] (checksum_lines listed bodies) →
  validateChecksums = Ok ().
Proof.
  intros Hx Ht He Hb Hj. destruct (lines_parsed listed bodies Hx listed_listable Hb) as (H1 & H2 & H3 & H4).
  assert (split_on 10 (trim_end text) = checksum_lines listed bodies) as Hsplit.
  { rewrite Hj. apply split_join; [|done]. inversion Hb; done. }
  unfold LocalnetRegistry.validateChecksums. rewrite Ht. cbn [mbind result_bind]. rewrite He. cbn [assert mbind result_bind].
  rewrite Hsplit, H1. cbn [mbind result_bind]. rewrite H2. change (sort_strings canonical_files) with listed.
  rewrite !seq_Ok. rewrite !assert_Ok, !bool_decide_eq_true. split; [apply listed_sorted|].
  split; [apply listed_distinct|]. split; [done|]. by apply for_each_Ok.
Qed.

(** C25. The checksum file is what its coverage determines: it is accepted exactly
    when, up to white space at its end, it is the list of the nine generated files
    in code-unit order, each with the SHA-256 of its bytes, one per line. *)
Theorem checksums_exact :
  hex_digests →
  validateChecksums = Ok () ↔
  ∃ text bodies, readText checksums_file = Ok text ∧ ends_with [10%N] text = true ∧
    Forall2 (λ p b, readBytes p = Ok b) listed bodies ∧
    trim_end text = join [10%N] (checksum_lines listed bodies).
Proof.
  intros Hx. split.
  - intros H. unfold LocalnetRegistry.validateChecksums in H. take H as text Ht. passed H as He.
    take H as parsed Hp. passed H as G1. passed H as G2. passed H as G3. apply bool_decide_eq_true in G3.
    apply for_each_Ok in H. destruct (parsed_lines _ _ Hp H) as (bodies & Hb & Hl).
    rewrite G3 in Hb, Hl. exists text, bodies. split; [done|]. split; [done|]. split; [done|].
    change listed with (sort_strings canonical_files). by rewrite <- Hl, join_split.
  - intros (text & bodies & Ht & He & Hb & Hj). by eapply checksums_accepted.
Qed.

End facts.
