(* ===== verification/GenerateArtifacts.v ===== *)
(** src/contracts/scripts/generate-artifacts.mjs: the artifacts, the localnet
    registry, the SDK modules, the documentation manifest and the checksum file
    made from the Foundry output; and how they are written or checked. *)

From stdpp Require Import gmap.
From S2P Require Import Prelude JsNum JsText JsUtf8 JsValue JsOps JsonText JsPath Deploy GeneratedFiles LocalnetRegistry.

Open Scope Z_scope.

(** ** Command line *)

Record generate_options := GenerateOptions { checkOnly : bool; artifactsRoot : jstr }.

Fixpoint parse_generate (check : bool) (root : jstr) (arguments : list jstr) : result (bool * jstr) :=
  match arguments with
  | [] => Ok (check, root)
  | argument :: rest =>
      if argument =s? js "--check" then parse_generate true root rest
      else if argument =s? js "--artifacts" then
        match rest with
        | (_ :: _) as v :: rest' => parse_generate check v rest'
        | _ => error (js "--artifacts requires a contracts-relative path.")
        end
      else error (js "Unknown argument: " +++ argument)
  end.

Definition parseGenerate (arguments : list jstr) : result generate_options :=
  '(check, root) ← parse_generate false (js ".work/out") arguments;
  let normalized := path_normalize (replace_char 92 [slash] root) in
  throw_if (is_absolute normalized || (normalized =s? js "..") || starts_with (js "../") normalized)
    (js "--artifacts must stay below the contracts directory.");;
  Ok (GenerateOptions check (default normalized (after id (js "./") normalized))).

(** ** Text *)

Definition dquote (s : jstr) : jstr := 34%N :: s ++ [34%N].

(** [s.split(/\r?\n/u)]: a line feed ends a line and takes a carriage return
    before it. *)
Definition strip_return (line : jstr) : jstr :=
  match reverse line with 13%N :: r => reverse r | _ => line end.
Definition split_lines (s : jstr) : list jstr :=
  let lines := split_on 10 s in
  map strip_return (removelast lines) ++ [List.last lines []].

(** [/^[1-9][0-9]*$/u] *)
Definition is_positive_dec (s : jstr) : bool :=
  match s with c :: r => in_range 49 57 c && forallb is_digit r | [] => false end.

(** [v ?? ""] under a pattern. *)
Definition pattern_text (v : value) : jstr := to_string (nullish v (VStr [])).
Definition is_hash_value (prefixed : bool) (v : value) : bool := is_hash_text prefixed (VStr (pattern_text v)).

Definition find_if_any (k : string) (w : value) (v : value) : result value :=
  if is_nullish v then Ok VUndef else find_by k w v.

Definition generatedHeader (generator : jstr) : jstr :=
  js "/** DO NOT EDIT: generated by " +++ generator +++ js ". */" +++ [10%N].

Definition generator_path : jstr := js "contracts/scripts/generate-artifacts.mjs".

(** ** Foundry output *)

Section generate.
Context (lib : library) (keccakBytes : list Z → jstr).
Context (toUpperCase : jstr → jstr) (collate : jstr → jstr → bool).

(** The compiler record, once foundry.toml has the pinned settings. *)
Definition required_settings (version : jstr) : list jstr := [
  js "solc_version = " +++ dquote version;
  js "auto_detect_solc = false";
  js "evm_version = " +++ dquote (js "prague");
  js "optimizer = true";
  js "optimizer_runs = 200";
  js "via_ir = false";
  js "bytecode_hash = " +++ dquote (js "none");
  js "cbor_metadata = false";
  js "ffi = false"].

Definition buildCompiler (manifest : value) (foundryConfiguration : jstr) : result value :=
  contracts ← get manifest (js "contracts");
  let solidity := oget contracts (js "solidity") in
  throw_if (negb (truthy (oget solidity (js "version"))) || negb (truthy (oget solidity (js "longVersion")))
            || negb (truthy (oget (oget contracts (js "foundry")) (js "version"))))
    (js "Contract compiler toolchain is incomplete.");;
  for_each (λ setting, throw_if (negb (jmem setting (split_lines foundryConfiguration)))
      (js "foundry.toml is missing pinned setting: " +++ setting))
    (required_settings (to_string (oget solidity (js "version"))));;
  Ok (VObj [
    "name" :=: vs "solc";
    "version" :=: oget solidity (js "version");
    "longVersion" :=: oget solidity (js "longVersion");
    "image" :=: oget solidity (js "image");
    "evmVersion" :=: vs "prague";
    "optimizer" :=: VObj ["enabled" :=: VBool true; "runs" :=: vi 200];
    "viaIr" :=: VBool false;
    "bytecodeHash" :=: vs "none";
    "cborMetadata" :=: VBool false]%js).

(** [v?.a?.b]. *)
Definition oget_path (v : value) (ks : list string) : value := fold_left (λ w k, oget w (js k)) ks v.

Definition differs (a b : value) : bool := negb (strict_eq a b).

Definition validateCompilerMetadata (cwd : jstr) (input : value) (contractName sourceName : jstr)
    (sourceBytes : list Z) (compiler : value) : result () :=
  metadata ← get input (js "metadata");
  let settings := oget metadata (js "settings") in
  let foundrySourceName := path_relative cwd (js "contracts") sourceName in
  throw_if (differs (oget_path metadata ["compiler"; "version"]%string) (oget compiler (js "longVersion")))
    (contractName +++ js " compiler metadata differs from " +++ to_string (oget compiler (js "longVersion")) +++ js ".");;
  throw_if (differs (oget settings (js "evmVersion")) (oget compiler (js "evmVersion"))
      || differs (oget_path settings ["optimizer"; "enabled"]%string) (oget_path compiler ["optimizer"; "enabled"]%string)
      || differs (oget_path settings ["optimizer"; "runs"]%string) (oget_path compiler ["optimizer"; "runs"]%string)
      || differs (nullish (oget settings (js "viaIR")) (VBool false)) (oget compiler (js "viaIr"))
      || differs (oget_path settings ["metadata"; "bytecodeHash"]%string) (oget compiler (js "bytecodeHash"))
      || differs (oget_path settings ["metadata"; "appendCBOR"]%string) (oget compiler (js "cborMetadata")))
    (contractName +++ js " Foundry compiler settings are ambiguous.");;
  throw_if (differs (oget (oget settings (js "compilationTarget")) foundrySourceName) (VStr contractName))
    (contractName +++ js " compilation target metadata is invalid.");;
  throw_if (differs (oget (oget (oget metadata (js "sources")) foundrySourceName) (js "keccak256"))
                    (VStr (keccakBytes sourceBytes)))
    (contractName +++ js " Foundry artifact was not compiled from the current canonical source.").

(** [Object.keys(v).length] of a truthy value. *)
Definition key_count (v : value) : nat :=
  match v with VObj fs => length fs | VArr l => length l | VStr s => length s | _ => 0%nat end.

Definition assertNoLinkReferences (input : value) (contractName : jstr) : result () :=
  for_each (λ x : string * value, let '(label, references) := x in
      throw_if (truthy references && negb (Nat.eqb (key_count references) 0))
        (contractName +++ js " " +++ js label +++ js " bytecode contains unresolved link references."))
    [("creation", oget_path input ["bytecode"; "linkReferences"]);
     ("runtime", oget_path input ["deployedBytecode"; "linkReferences"])]%string.

Definition normalizeHex (v : value) (label : jstr) : result jstr :=
  match v with
  | VStr s =>
      let normalized := if starts_with (js "0x") s then s else js "0x" +++ s in
      throw_if (negb (is_bytes_text true normalized)) (label +++ js " is not byte-aligned hex.");;
      Ok (to_lower normalized)
  | _ => error (label +++ js " is missing.")
  end.

(** The record of a contract, before its keys are sorted. *)
Definition artifact_record (cwd : jstr) (input : value) (contractName sourceName : jstr) (sourceBytes : list Z)
    (compiler : value) : result value :=
  validateCompilerMetadata cwd input contractName sourceName sourceBytes compiler;;
  creation ← normalizeHex (oget_path input ["bytecode"; "object"]%string) (contractName +++ js " creation bytecode");
  runtime ← normalizeHex (oget_path input ["deployedBytecode"; "object"]%string) (contractName +++ js " runtime bytecode");
  assertNoLinkReferences input contractName;;
  abi ← get input (js "abi");
  creationHash ← keccak256 lib (VStr creation);
  runtimeHash ← keccak256 lib (VStr runtime);
  Ok (VObj [
    "notice" :=: artifact_notice;
    "schemaVersion" :=: vi 1;
    "generatedBy" :=: generator;
    "contractName" :=: VStr contractName;
    "sourceName" :=: VStr sourceName;
    "sourceSha256" :=: VStr (sha256 lib sourceBytes);
    "compiler" :=: compiler;
    "abi" :=: abi;
    "bytecode" :=: VObj [
      "creation" :=: VStr creation; "runtime" :=: VStr runtime;
      "creationCodeKeccak256" :=: VStr creationHash; "runtimeCodeKeccak256" :=: VStr runtimeHash]]%js).

Definition normalizeArtifact (cwd : jstr) (input : value) (contractName sourceName : jstr) (sourceBytes : list Z)
    (compiler : value) : result value :=
  record ← artifact_record cwd input contractName sourceName sourceBytes compiler;
  Ok (stableValue collate record).

(** ** Reference fixtures *)

Definition validateRewardFixture (fixture : value) : result () :=
  throw_if (differs (oget fixture (js "schemaVersion")) (vi 1)
    || differs (oget fixture (js "generatedBy")) (vs "contracts/scripts/generate-reward-fixture.mjs")
    || differs (oget_path fixture ["treeFormat"; "id"]%string) (vs "torium-merkle-sum-v1")
    || differs (oget_path fixture ["treeFormat"; "leafHash"]%string)
         (vs "keccak256(abi.encode(uint256 epochId,uint256 index,address account,uint256 amount))")
    || differs (oget_path fixture ["treeFormat"; "parentHash"]%string)
         (vs "keccak256(abi.encode(bytes32 leftHash,uint256 leftSum,bytes32 rightHash,uint256 rightSum))")
    || negb (is_positive_dec (pattern_text (oget fixture (js "epochId"))))
    || negb (is_hash_value true (oget fixture (js "merkleRoot")))
    || negb (is_positive_dec (pattern_text (oget fixture (js "rootSum"))))
    || negb (v_safe_integer (oget fixture (js "claimCount")))
    || num_leb (v_num (oget fixture (js "claimCount"))) (NInt 0)
    || differs (oget fixture (js "claimCount")) (oget_path fixture ["claims"; "length"]%string)
    || differs (oget_path fixture ["integrity"; "algorithm"]%string) (vs "sha256")
    || negb (is_hash_value false (oget_path fixture ["integrity"; "outputPayloadSha256"]%string)))
    (js "Reward reference fixture format or integrity metadata is invalid.").

Definition expected_algorithm : value := VObj [
  "id" :=: vs "torium-attestation-canonical-bytes-v1";
  "digest" :=: vs "keccak256";
  "textEncoding" :=: vs "UTF-8";
  "byteDerivation" :=: vs "exact-decoded-string-to-utf8-without-transformation";
  "jsonCanonicalization" :=: vs "none";
  "unicodeNormalization" :=: vs "none-caller-responsibility";
  "uriCanonicalization" :=: vs "none-exact-utf8";
  "commitmentEncoding" :=: vs "abi.encode(bytes32 schemaId,uint32 schemaVersion,bytes32 subject,bytes32 referenceHash,bytes32 contentHash,bytes32 metadataHash,bytes32 metadataUriHash,bytes32 supersedes)";
  "attestationIdEncoding" :=: vs "abi.encode(uint256 chainId,address registry,address issuer,uint256 issuerNonce,bytes32 commitment)"]%js.

Definition expected_non_claims : value := texts [
  "no-rfc8785-jcs-json-canonicalization"; "no-unicode-normalization"; "no-uri-normalization";
  "hashes-do-not-prove-authenticity-truth-or-availability"; "hashes-do-not-provide-confidentiality";
  "low-entropy-inputs-are-dictionary-attackable";
  "do-not-place-sensitive-large-or-personal-payloads-on-chain"]%string.

Definition expected_vectors : value :=
  texts ["json-key-order-ab"; "json-key-order-ba"; "unicode-nfc"; "unicode-nfd"]%string.

(** Whether two values have one JSON text; undefined has none. *)
Definition json_differs (a b : value) : bool :=
  is_undefined a || negb (stringify 0 0 a =s? stringify 0 0 b).

Definition vector_invalid (vector : value) : result bool :=
  expected ← get vector (js "expected");
  Ok (existsb (λ k, negb (is_hash_value true (oget expected (js k))))
    ["contentHash"; "metadataHash"; "metadataUriHash"; "commitment"; "attestationId"]%string).

(** [l.some(f)] where [f] may throw. *)
Fixpoint some_res (f : value → result bool) (l : list value) : result bool :=
  match l with
  | [] => Ok false
  | x :: l' => b ← f x; if b : bool then Ok true else some_res f l'
  end.

Definition validateAttestationFixture (fixture : value) : result () :=
  let vectors := oget fixture (js "vectors") in
  vectorNames ← (if is_nullish vectors then Ok VUndef
                 else l ← as_array vectors; k ← map_res (λ v, get v (js "name")) l; Ok (VArr k));
  let invalid := differs (oget fixture (js "schemaVersion")) (vi 1)
    || differs (oget fixture (js "vectorSet")) (vs "torium-attestation-canonical-hash-v1")
    || differs (oget fixture (js "verifiedBy")) (vs "contracts/scripts/validate-attestation-vectors.mjs")
    || json_differs (stableValue collate (oget fixture (js "algorithm"))) (stableValue collate expected_algorithm)
    || json_differs (oget fixture (js "nonClaims")) expected_non_claims
    || json_differs vectorNames expected_vectors in
  invalid ← (if invalid then Ok true else l ← as_array vectors; some_res vector_invalid l);
  throw_if invalid (js "Attestation canonical-hash fixture format or non-claims are invalid.").

(** ** The localnet registry *)

(** Everything that the generator reads, and the compiler record. *)
Record generator_inputs := GeneratorInputs {
  in_toolchain : value; in_identifiers : value; in_foundryConfig : jstr; in_genesisManifest : value;
  in_genesisBytes : list Z; in_native : value; in_factory : value; in_reward : value;
  in_rewardFixture : value; in_rewardFixtureBytes : list Z; in_attestation : value;
  in_attestationFixture : value; in_attestationFixtureBytes : list Z; in_gasSnapshotBytes : list Z;
  in_testnetRegistry : value;
}.

(** An artifact with its path and text. *)
Record pinned_artifact := PinnedArtifact { artifact_path : jstr; artifact_value : value; artifact_text : jstr }.

Definition pin_artifact (path : jstr) (artifact : value) : pinned_artifact :=
  PinnedArtifact path artifact (jsonText collate artifact).

Record artifact_set := ArtifactSet {
  native_pin : pinned_artifact; factory_pin : pinned_artifact;
  reward_pin : pinned_artifact; attestation_pin : pinned_artifact;
}.

Definition code_record (artifact : value) : result value :=
  creation ← walk artifact ["bytecode"; "creationCodeKeccak256"]%string;
  runtime ← walk artifact ["bytecode"; "runtimeCodeKeccak256"]%string;
  Ok (VObj ["kind" :=: vs "evm-bytecode"; "creationCodeKeccak256" :=: creation; "runtimeCodeKeccak256" :=: runtime]%js).

(** What the four entries have in common. *)
Definition registry_entry (id : jstr) (name : string) (address : value) (classification status version upgradeModel : string)
    (p : pinned_artifact) (abi : jstr) (code deployment configuration roles verification : value) : value := VObj [
  "id" :=: VStr id;
  "contractName" :=: vs name;
  "address" :=: address;
  "classification" :=: vs classification;
  "status" :=: vs status;
  "implementationVersion" :=: vs version;
  "upgradeModel" :=: vs upgradeModel;
  "artifactPath" :=: VStr (artifact_path p);
  "artifactSha256" :=: VStr (sha256_text lib (artifact_text p));
  "abiSha256" :=: VStr abi;
  "code" :=: code;
  "deployment" :=: deployment;
  "configuration" :=: configuration;
  "roles" :=: roles;
  "verification" :=: verification]%js.

Definition pinned_abi (p : pinned_artifact) : result jstr :=
  abi ← get (artifact_value p) (js "abi"); abiSha256 collate lib abi.

Definition native_registry_entry (p : pinned_artifact) (nativeAddress : jstr) : result value :=
  abi ← pinned_abi p;
  source ← get (artifact_value p) (js "sourceSha256");
  Ok (registry_entry native_text "IToriumNative" (VStr nativeAddress) "protocol-precompile" "active" "protocol-v1"
    "protocol-upgrade" p abi
    (VObj ["kind" :=: vs "protocol-precompile"; "interfaceSourceSha256" :=: source]%js)
    VNull
    (VObj ["module" :=: vs "erc20"; "denom" :=: vs "atorium"; "decimals" :=: vi 18;
           "genesisStatePath" :=: vs "app_state.erc20.native_precompiles"]%js)
    (VArr [])
    (VObj ["kind" :=: vs "genesis-and-call-conformance"; "observedInGenesis" :=: VBool true;
           "evidencePath" :=: vs "chain/tests/e2e/run.sh"]%js)).

Definition factory_registry_entry (p : pinned_artifact) (deployerAddress factoryAddress : jstr) : result value :=
  abi ← pinned_abi p;
  code ← code_record (artifact_value p);
  Ok (registry_entry factory_id "ToriumCreate2Factory" (VStr factoryAddress) "post-genesis-create" "planned" "1.0.0"
    "immutable-versioned-redeployment" p abi code
    (VObj ["strategy" :=: vs "fixture-deployer-create-v1"; "deployerAddress" :=: VStr deployerAddress;
           "deployerNonce" :=: vs "0"; "expectedAddress" :=: VStr factoryAddress;
           "transactionHash" :=: VNull; "broadcast" :=: VBool false]%js)
    (VObj ["constructorArguments" :=: VArr []; "constructorArgumentsAbi" :=: vs "0x"]%js)
    (VArr [])
    (VObj ["kind" :=: vs "planned-runtime-code-hash"; "observedOnChain" :=: VBool false]%js)).

Definition reward_registry_entry (p : pinned_artifact) : result value :=
  abi ← pinned_abi p;
  code ← code_record (artifact_value p);
  Ok (registry_entry distributor_id "ToriumRewardDistributor" VNull "post-genesis-deterministic" "planned" "1.0.0"
    "immutable-versioned-redeployment" p abi code VNull
    (VObj [
      "constructorArguments" :=: VNull; "constructorArgumentsAbi" :=: VNull;
      "constructorSchema" :=: VArr [
        constructor_input "defaultAdminDelay_" "uint48"; constructor_input "initialAdmin_" "address";
        constructor_input "initialPublisher_" "address"; constructor_input "initialPauser_" "address";
        constructor_input "initialClawbackOperator_" "address"; constructor_input "treasury_" "address";
        constructor_input "publicationDelay_" "uint64"; constructor_input "clawbackDelay_" "uint64"];
      "fundingModel" :=: vs "exact-native-value-equals-merkle-sum-root";
      "publisherAllocationTrust" :=: vs "trusted-off-chain-dataset";
      "treasuryModel" :=: vs "fixed-constructor-address-delayed-expiry-clawback"]%js)
    (VArr [
      role_plan "DEFAULT_ADMIN_ROLE" "delayed-admin-transfer";
      role_plan "EPOCH_PUBLISHER_ROLE" "default-admin-managed";
      role_plan "PAUSER_ROLE" "default-admin-managed";
      role_plan "CLAWBACK_ROLE" "default-admin-managed"])
    (VObj ["kind" :=: vs "artifact-and-static-tests-only"; "observedOnChain" :=: VBool false;
           "deploymentEvidence" :=: VNull]%js)).

Definition attestation_registry_entry (p : pinned_artifact) (snapshotHash : jstr) : result value :=
  abi ← pinned_abi p;
  code ← code_record (artifact_value p);
  Ok (registry_entry attestation_id "ToriumAttestationRegistry" VNull "post-genesis-deterministic" "planned" "1.0.0"
    "immutable-versioned-redeployment" p abi code VNull
    (VObj [
      "constructorArguments" :=: VArr []; "constructorArgumentsAbi" :=: vs "0x";
      "issuerAuthorization" :=: vs "permissionless-msg-sender";
      "canonicalHashAlgorithm" :=: vs "torium-attestation-canonical-bytes-v1";
      "commitmentFieldOrder" :=: texts ["schemaId"; "schemaVersion:uint32"; "subject"; "referenceHash";
         "contentHash"; "metadataHash"; "metadataUriHash"; "supersedes"]%string;
      "identifierDomain" :=: vs "chain-id-registry-address-issuer-nonce-commitment";
      "replayProtection" :=: vs "issuer-scoped-payload-excluding-supersedes-permanent";
      "supersessionConstraint" :=: vs "same-issuer-schema-id-and-subject";
      "storageModel" :=: vs "hashes-and-minimal-identifiers-only";
      "benchmarkPlan" :=: VObj [
         "status" :=: vs "committed-pinned-snapshot";
         "command" :=: vs "make -C contracts gas-snapshot-check";
         "stableCases" :=: texts ["testGasAttest()"; "testGasSupersede()"; "testGasRevoke()"]%string;
         "evidencePath" :=: VStr gas_snapshot_file;
         "evidenceSha256" :=: VStr snapshotHash]]%js)
    (VArr [])
    (VObj ["kind" :=: vs "artifact-and-static-tests-only"; "observedOnChain" :=: VBool false;
           "deploymentEvidence" :=: VNull;
           "benchmarkEvidence" :=: VObj [
              "kind" :=: vs "foundry-gas-snapshot"; "path" :=: VStr gas_snapshot_file;
              "sha256" :=: VStr snapshotHash; "checkCommand" :=: vs "make -C contracts gas-snapshot-check"]]%js)).

Definition toolchain_record (toolchain compiler : value) : result value :=
  foundryVersion ← walk toolchain ["contracts"; "foundry"; "version"]%string;
  foundryImage ← walk toolchain ["contracts"; "foundry"; "image"]%string;
  solidityVersion ← walk toolchain ["contracts"; "solidity"; "version"]%string;
  solidityLongVersion ← walk toolchain ["contracts"; "solidity"; "longVersion"]%string;
  solidityImage ← walk toolchain ["contracts"; "solidity"; "image"]%string;
  enabled ← walk compiler ["optimizer"; "enabled"]%string;
  runs ← walk compiler ["optimizer"; "runs"]%string;
  openZeppelin ← walk toolchain ["contracts"; "openZeppelin"; "version"]%string;
  Ok (VObj [
    "foundryVersion" :=: foundryVersion; "foundryImage" :=: foundryImage;
    "solidityVersion" :=: solidityVersion; "solidityLongVersion" :=: solidityLongVersion;
    "solidityImage" :=: solidityImage; "evmVersion" :=: oget compiler (js "evmVersion");
    "optimizerEnabled" :=: enabled; "optimizerRuns" :=: runs; "viaIr" :=: oget compiler (js "viaIr");
    "bytecodeHash" :=: oget compiler (js "bytecodeHash"); "cborMetadata" :=: oget compiler (js "cborMetadata");
    "openZeppelinVersion" :=: openZeppelin]%js).

(** The localnet network, once the identifiers are complete and agree with the
    genesis manifest. *)
Definition find_localnet (i : generator_inputs) : result value :=
  networks ← get (in_identifiers i) (js "networks");
  localnet ← find_if_any "environment" (vs "localnet") networks;
  throw_if (negb (truthy localnet) || negb (v_safe_integer (oget_path localnet ["evm"; "chainId"]%string))
            || negb (is_string (oget_path localnet ["cosmos"; "chainId"]%string)))
    (js "Canonical localnet identifiers are incomplete.");;
  evm ← get (in_genesisManifest i) (js "evm_chain_id");
  cosmos ← get (in_genesisManifest i) (js "cosmos_chain_id");
  throw_if (differs evm (oget_path localnet ["evm"; "chainId"]%string)
            || differs cosmos (oget_path localnet ["cosmos"; "chainId"]%string))
    (js "Canonical identifiers and localnet genesis manifest disagree.");;
  Ok localnet.

Definition registry_record (i : generator_inputs) (localnet compiler : value) (a : artifact_set) : result value :=
  accounts ← get (in_genesisManifest i) (js "development_accounts");
  deployer ← find_if_any "name" (vs "deployer") accounts;
  throw_if (negb (truthy deployer)) (js "Localnet deployer fixture is missing.");;
  asset ← get (in_genesisManifest i) (js "native_asset");
  nativeAddress ← getAddress lib (nullish (oget asset (js "solidity_precompile_address")) (VStr []));
  deployerText ← get deployer (js "evm_address");
  deployerAddress ← getAddress lib deployerText;
  let factoryAddress := getContractAddress lib deployerAddress 0 in
  cosmos ← walk localnet ["cosmos"; "chainId"]%string;
  evm ← walk localnet ["evm"; "chainId"]%string;
  toolchain ← toolchain_record (in_toolchain i) compiler;
  native ← native_registry_entry (native_pin a) nativeAddress;
  factory ← factory_registry_entry (factory_pin a) deployerAddress factoryAddress;
  reward ← reward_registry_entry (reward_pin a);
  attestation ← attestation_registry_entry (attestation_pin a) (sha256 lib (in_gasSnapshotBytes i));
  Ok (VObj [
    "$schema" :=: vs "./deployment-registry-v1.schema.json";
    "schemaVersion" :=: vi 1;
    "registryVersion" :=: vs "0.1.0";
    "generatedBy" :=: generator;
    "environment" :=: vs "localnet";
    "releaseStatus" :=: vs "local-only-valueless";
    "chain" :=: VObj ["cosmosChainId" :=: cosmos; "evmChainId" :=: evm;
                      "genesisSha256" :=: VStr (sha256 lib (in_genesisBytes i))];
    "toolchain" :=: toolchain;
    "entries" :=: VArr [native; factory; reward; attestation]]%js).

Definition build_registry (i : generator_inputs) (localnet compiler : value) (a : artifact_set) : result value :=
  record ← registry_record i localnet compiler a;
  Ok (stableValue collate record).

(** ** SDK modules *)

Definition export_abi (name : string) (abi : jstr) : jstr :=
  js "export const " +++ js name +++ js " = " +++ abi +++ js " as const satisfies Abi;" +++ [10%N].

Definition renderSdkAbis (nativeAbi factoryAbi rewardAbi attestationAbi : value) : jstr :=
  let text v := stringify 2 0 (stableValue collate v) in
  generatedHeader generator_path +++ js "import type { Abi } from " +++ dquote (js "viem") +++ js ";" +++ [10; 10]%N
  +++ export_abi "toriumNativeAbi" (text nativeAbi) +++ [10%N]
  +++ export_abi "toriumCreate2FactoryAbi" (text factoryAbi) +++ [10%N]
  +++ export_abi "toriumRewardDistributorAbi" (text rewardAbi) +++ [10%N]
  +++ export_abi "toriumAttestationRegistryAbi" (text attestationAbi).

(** The testnet entry of a contract, with the code that the localnet entry pins. *)
Definition testnet_entry (testnet : value) (id : jstr) : result value :=
  entries ← get testnet (js "entries");
  v ← find_by "id" (VStr id) entries;
  throw_if (negb (truthy v)) (js "missing testnet registry entry: " +++ id);;
  Ok v.

Definition check_testnet_code (testnet : value) (x : jstr * value) : result () :=
  let '(id, localnetEntry) := x in
  deployed ← testnet_entry testnet id;
  runtime ← walk deployed ["codeIdentity"; "runtimeCodeKeccak256"]%string;
  pinned ← walk localnetEntry ["code"; "runtimeCodeKeccak256"]%string;
  throw_if (differs runtime pinned)
    (js "testnet registry " +++ id +++ js " runtime code hash differs from the canonical artifact").

(** The properties of [v] under the given names, with those names. *)
Definition pick (v : value) (ks : list string) : result (list (jstr * value)) :=
  map_res (λ k, x ← get v (js k); Ok (js k, x)) ks.

Definition sdk_registry (header : list (jstr * value)) (native factory reward attestation : list (jstr * value)) : value :=
  VObj (header ++ ["contracts" :=: VObj [
    "toriumNative" :=: VObj native; "toriumCreate2Factory" :=: VObj factory;
    "toriumRewardDistributor" :=: VObj reward; "toriumAttestationRegistry" :=: VObj attestation]]%js).

Definition sdk_header (v : value) : result (list (jstr * value)) :=
  pick v ["schemaVersion"; "registryVersion"; "environment"; "releaseStatus"; "chain"]%string.

Definition localnet_sdk_registry (registry native factory reward attestation : value) : result value :=
  header ← sdk_header registry;
  n ← pick native ["address"; "status"; "implementationVersion"; "abiSha256"]%string;
  f ← pick factory ["address"; "status"; "implementationVersion"; "abiSha256"]%string;
  fr ← walk factory ["code"; "runtimeCodeKeccak256"]%string;
  r ← pick reward ["status"; "implementationVersion"; "abiSha256"]%string;
  rr ← walk reward ["code"; "runtimeCodeKeccak256"]%string;
  a ← pick attestation ["status"; "implementationVersion"; "abiSha256"]%string;
  ar ← walk attestation ["code"; "runtimeCodeKeccak256"]%string;
  issuer ← walk attestation ["configuration"; "issuerAuthorization"]%string;
  Ok (stableValue collate (sdk_registry header n
    (f ++ ["runtimeCodeKeccak256" :=: fr; "broadcast" :=: VBool false; "transactionHash" :=: VNull]%js)
    (["address" :=: VNull] ++ r ++ ["runtimeCodeKeccak256" :=: rr; "broadcast" :=: VBool false;
       "transactionHash" :=: VNull; "roleAssignments" :=: vs "unassigned"])%js
    (["address" :=: VNull] ++ a ++ ["runtimeCodeKeccak256" :=: ar; "broadcast" :=: VBool false;
       "transactionHash" :=: VNull; "roleAssignments" :=: vs "none"; "issuerAuthorization" :=: issuer])%js)).

(** The record of a deployed contract in the testnet module. *)
Definition deployed_record (deployed localnetEntry : value) : result (list (jstr * value)) :=
  address ← get deployed (js "address");
  version ← get deployed (js "implementationVersion");
  abi ← get localnetEntry (js "abiSha256");
  runtime ← walk deployed ["codeIdentity"; "runtimeCodeKeccak256"]%string;
  transaction ← walk deployed ["deployment"; "transactionHash"]%string;
  Ok ["address" :=: address; "status" :=: vs "deployed"; "implementationVersion" :=: version;
      "abiSha256" :=: abi; "runtimeCodeKeccak256" :=: runtime; "broadcast" :=: VBool true;
      "transactionHash" :=: transaction]%js.

Definition testnet_sdk_registry (testnet native factory reward attestation : value)
    (tNative tFactory tReward tAttestation : value) : result value :=
  header ← sdk_header testnet;
  address ← get tNative (js "address");
  version ← get tNative (js "implementationVersion");
  abi ← get native (js "abiSha256");
  f ← deployed_record tFactory factory;
  r ← deployed_record tReward reward;
  a ← deployed_record tAttestation attestation;
  issuer ← walk attestation ["configuration"; "issuerAuthorization"]%string;
  Ok (stableValue collate (sdk_registry header
    ["address" :=: address; "status" :=: vs "active"; "implementationVersion" :=: version; "abiSha256" :=: abi]%js
    f
    (r ++ ["roleAssignments" :=: vs "single-operations-authority"])%js
    (a ++ ["roleAssignments" :=: vs "none"; "issuerAuthorization" :=: issuer])%js)).

Definition export_registry (name type : string) (v : value) : jstr :=
  js "export const " +++ js name +++ js " = " +++ stringify 2 0 v +++ js " as const;" +++ [10; 10]%N
  +++ js "export type " +++ js type +++ js " = typeof " +++ js name +++ js ";" +++ [10%N].

Definition renderSdkDeployments (registry testnet : value) : result jstr :=
  entries ← get registry (js "entries");
  native ← find_by "id" (VStr native_text) entries;
  factory ← find_by "id" (VStr factory_id) entries;
  reward ← find_by "id" (VStr distributor_id) entries;
  attestation ← find_by "id" (VStr attestation_id) entries;
  for_each (check_testnet_code testnet) [(factory_id, factory); (distributor_id, reward); (attestation_id, attestation)];;
  tNative ← testnet_entry testnet native_text;
  tAddress ← get tNative (js "address");
  address ← get native (js "address");
  throw_if (differs tAddress address) (js "testnet native precompile address differs from canonical");;
  tFactory ← testnet_entry testnet factory_id;
  tReward ← testnet_entry testnet distributor_id;
  tAttestation ← testnet_entry testnet attestation_id;
  v ← localnet_sdk_registry registry native factory reward attestation;
  t ← testnet_sdk_registry testnet native factory reward attestation tNative tFactory tReward tAttestation;
  Ok (generatedHeader generator_path
    +++ export_registry "toriumLocalnetContractRegistry" "ToriumLocalnetContractRegistry" v +++ [10%N]
    +++ export_registry "toriumTestnetContractRegistry" "ToriumTestnetContractRegistry" t).

Definition sdkIndex : jstr :=
  generatedHeader generator_path
  +++ js "export * from " +++ dquote (js "./abis.js") +++ js ";" +++ [10%N]
  +++ js "export * from " +++ dquote (js "./deployments.js") +++ js ";" +++ [10%N].

(** ** Documentation manifest *)

Definition reward_fixture_file : jstr := js "contracts/fixtures/rewards/example.fixture.json".
Definition attestation_fixture_file : jstr := js "contracts/fixtures/attestations/canonical-hash-v1.json".

Definition fixture_records (i : generator_inputs) : result value :=
  treeFormat ← walk (in_rewardFixture i) ["treeFormat"; "id"]%string;
  r ← pick (in_rewardFixture i) ["epochId"; "merkleRoot"; "rootSum"; "claimCount"]%string;
  payload ← walk (in_rewardFixture i) ["integrity"; "outputPayloadSha256"]%string;
  vectorSet ← get (in_attestationFixture i) (js "vectorSet");
  algorithm ← walk (in_attestationFixture i) ["algorithm"; "id"]%string;
  count ← walk (in_attestationFixture i) ["vectors"; "length"]%string;
  verifiedBy ← get (in_attestationFixture i) (js "verifiedBy");
  nonClaims ← get (in_attestationFixture i) (js "nonClaims");
  Ok (VArr [
    VObj (["kind" :=: vs "offline-reference-vector"; "path" :=: VStr reward_fixture_file;
           "sha256" :=: VStr (sha256 lib (in_rewardFixtureBytes i)); "treeFormat" :=: treeFormat]%js
          ++ r ++ ["outputPayloadSha256" :=: payload]%js);
    VObj ["kind" :=: vs "offline-canonical-hash-vector-set"; "path" :=: VStr attestation_fixture_file;
          "sha256" :=: VStr (sha256 lib (in_attestationFixtureBytes i)); "vectorSet" :=: vectorSet;
          "algorithm" :=: algorithm; "vectorCount" :=: count; "verifiedBy" :=: verifiedBy;
          "nonClaims" :=: nonClaims]%js]).

Definition trust_boundary (entry id : value) : result value :=
  if strict_eq id (VStr distributor_id) then
    funding ← walk entry ["configuration"; "fundingModel"]%string;
    publisher ← walk entry ["configuration"; "publisherAllocationTrust"]%string;
    treasury ← walk entry ["configuration"; "treasuryModel"]%string;
    Ok (VObj ["funding" :=: funding; "publisherAllocation" :=: publisher; "treasury" :=: treasury]%js)
  else if strict_eq id (VStr attestation_id) then
    hashing ← walk entry ["configuration"; "canonicalHashAlgorithm"]%string;
    Ok (VObj ["canonicalHashing" :=: hashing; "privacy" :=: vs "hashes-are-not-anonymization-or-confidentiality";
              "issuerAuthenticity" :=: vs "transaction-sender-address-only"; "truth" :=: vs "not-asserted";
              "legalTimestamp" :=: vs "not-asserted"]%js)
  else Ok VUndef.

Definition address_evidence (status address : value) : value :=
  if strict_eq status (vs "active") then vs "canonical-genesis"
  else if is_null address then vs "not-assigned-or-deployed" else vs "predicted-not-deployed".

Definition component_record (entry : value) : result value :=
  h ← pick entry ["id"; "status"; "classification"; "address"]%string;
  id ← get entry (js "id");
  status ← get entry (js "status");
  address ← get entry (js "address");
  r ← pick entry ["implementationVersion"; "artifactPath"; "artifactSha256"; "abiSha256"]%string;
  deployment ← get entry (js "deployment");
  trust ← trust_boundary entry id;
  Ok (VObj (h ++ ["addressEvidence" :=: address_evidence status address]%js ++ r
    ++ ["transactionHash" :=: nullish (oget deployment (js "transactionHash")) VNull;
        "trustBoundary" :=: trust]%js)).

Definition docs_manifest (i : generator_inputs) (registry : value) : result value :=
  environment ← get registry (js "environment");
  releaseStatus ← get registry (js "releaseStatus");
  fixtures ← fixture_records i;
  entries ← get registry (js "entries");
  l ← as_array entries;
  components ← map_res component_record l;
  Ok (VObj [
    "notice" :=: vs "DO NOT EDIT: generated contract foundation; predicted addresses are not deployments.";
    "schemaVersion" :=: vi 1;
    "generatedBy" :=: generator;
    "source" :=: VStr registry_file;
    "environment" :=: environment;
    "releaseStatus" :=: releaseStatus;
    "publicDeployment" :=: VBool false;
    "referenceFixtures" :=: fixtures;
    "benchmarkEvidence" :=: VArr [VObj [
       "kind" :=: vs "foundry-gas-snapshot"; "path" :=: VStr gas_snapshot_file;
       "sha256" :=: VStr (sha256 lib (in_gasSnapshotBytes i));
       "checkCommand" :=: vs "make -C contracts gas-snapshot-check";
       "ciGate" :=: vs "deferred-to-issue-126"]];
    "components" :=: VArr components]%js).

(** ** Everything that is generated *)

Definition abis_file : jstr := js "packages/torium-sdk/src/generated/contracts/abis.ts".
Definition deployments_file : jstr := js "packages/torium-sdk/src/generated/contracts/deployments.ts".
Definition index_file : jstr := js "packages/torium-sdk/src/generated/contracts/index.ts".
Definition docs_file : jstr := js "apps/developer-docs/content/generated/contracts-localnet-foundation.json".

Definition native_source : jstr := js "contracts/src/interfaces/IToriumNative.sol".
Definition factory_source : jstr := js "contracts/src/deployment/ToriumCreate2Factory.sol".
Definition reward_source : jstr := js "contracts/src/rewards/ToriumRewardDistributor.sol".
Definition attestation_source : jstr := js "contracts/src/attestations/ToriumAttestationRegistry.sol".

(** What a read of a file gives. *)
Inductive reading := Found (bytes : list Z) | NotFound | Unreadable (e : exn).

Context (read : jstr → reading) (cwd repositoryRoot : jstr).
(** The module resolution of contracts/package.json, and Prettier at a path. *)
Context (resolve : jstr → result jstr) (prettier : jstr → jstr → result jstr).

Definition absoluteOutput (relativePath : jstr) : result jstr :=
  throw_if (is_absolute relativePath || includes (js "..") relativePath)
    (js "Generated path must be repository-relative: " +++ relativePath);;
  Ok (path_join [repositoryRoot; relativePath]).

Definition enoent (path : jstr) : exn := Exn EError (js "ENOENT: no such file or directory, open " +++ path).

Definition read_file (path : jstr) : result (list Z) :=
  match read path with
  | Found bytes => Ok bytes
  | NotFound => Throw (enoent path)
  | Unreadable e => Throw e
  end.

Definition readInput (relativePath : jstr) : result (list Z) :=
  p ← absoluteOutput relativePath; read_file p.
Definition readInputText (relativePath : jstr) : result jstr :=
  bytes ← readInput relativePath; Ok (utf8_decode bytes).
Definition readInputJson (relativePath : jstr) : result value :=
  text ← readInputText relativePath; json_parse text.

Definition readFoundryArtifact (relativePath contractName : jstr) : result value :=
  p ← absoluteOutput relativePath;
  match read p with
  | Found bytes => json_parse (utf8_decode bytes)
  | NotFound => error (js "Missing Foundry artifact for " +++ contractName +++ js ": " +++ relativePath
                       +++ js ". Run the pinned contract build first.")
  | Unreadable e => Throw e
  end.

Definition foundry_path (root name : jstr) : jstr :=
  js "contracts/" +++ root +++ js "/" +++ name +++ js ".sol/" +++ name +++ js ".json".

Definition native_name : jstr := js "IToriumNative".
Definition factory_name : jstr := js "ToriumCreate2Factory".
Definition reward_name : jstr := js "ToriumRewardDistributor".
Definition attestation_name : jstr := js "ToriumAttestationRegistry".

Definition readFoundry (root name : jstr) : result value := readFoundryArtifact (foundry_path root name) name.

(** The inputs; when several reads fail, the first of them is reported here. *)
Definition readInputs (root : jstr) : result generator_inputs :=
  toolchain ← readInputJson toolchain_file;
  identifiers ← readInputJson identifiers_file;
  foundryConfig ← readInputText (js "contracts/foundry.toml");
  genesisManifest ← readInputJson genesis_manifest_file;
  genesisBytes ← readInput genesis_file;
  native ← readFoundry root native_name;
  factory ← readFoundry root factory_name;
  reward ← readFoundry root reward_name;
  rewardFixture ← readInputJson reward_fixture_file;
  rewardFixtureBytes ← readInput reward_fixture_file;
  attestation ← readFoundry root attestation_name;
  attestationFixture ← readInputJson attestation_fixture_file;
  attestationFixtureBytes ← readInput attestation_fixture_file;
  gasSnapshotBytes ← readInput gas_snapshot_file;
  testnetRegistry ← readInputJson (js "contracts/deployments/testnet.json");
  Ok (GeneratorInputs toolchain identifiers foundryConfig genesisManifest genesisBytes native factory reward
        rewardFixture rewardFixtureBytes attestation attestationFixture attestationFixtureBytes
        gasSnapshotBytes testnetRegistry).

Definition normalize_from (input : value) (name source : jstr) (compiler : value) : result value :=
  sourceBytes ← readInput source;
  normalizeArtifact cwd input name source sourceBytes compiler.

(** Whether the bytecode of the artifact is empty in either form. *)
Definition code_is (code : string) (artifact : value) : value := field (field artifact (js "bytecode")) (js code).
Definition no_code (v : value) : bool := strict_eq v (vs "0x").

Definition build_artifacts (i : generator_inputs) (compiler : value) : result artifact_set :=
  native ← normalize_from (in_native i) native_name native_source compiler;
  factory ← normalize_from (in_factory i) factory_name factory_source compiler;
  reward ← normalize_from (in_reward i) reward_name reward_source compiler;
  attestation ← normalize_from (in_attestation i) attestation_name attestation_source compiler;
  throw_if (negb (no_code (code_is "creation" native)) || negb (no_code (code_is "runtime" native)))
    (js "IToriumNative must remain an interface-only artifact.");;
  throw_if (no_code (code_is "creation" factory) || no_code (code_is "runtime" factory))
    (js "ToriumCreate2Factory must contain deployable bytecode.");;
  throw_if (no_code (code_is "creation" reward) || no_code (code_is "runtime" reward))
    (js "ToriumRewardDistributor must contain deployable bytecode.");;
  throw_if (no_code (code_is "creation" attestation) || no_code (code_is "runtime" attestation))
    (js "ToriumAttestationRegistry must contain deployable bytecode.");;
  Ok (ArtifactSet
    (pin_artifact (js "contracts/generated/abi/IToriumNative.json") native)
    (pin_artifact (js "contracts/generated/abi/ToriumCreate2Factory.json") factory)
    (pin_artifact (js "contracts/generated/abi/ToriumRewardDistributor.json") reward)
    (pin_artifact (js "contracts/generated/abi/ToriumAttestationRegistry.json") attestation)).

Definition formatTypeScript (source : jstr) (manifest : value) : result jstr :=
  packagePath ← resolve (js "prettier/package.json");
  bytes ← read_file packagePath;
  package ← json_parse (utf8_decode bytes);
  version ← get package (js "version");
  pinned ← walk manifest ["quality"; "prettier"; "version"]%string;
  throw_if (differs version pinned)
    (js "Prettier " +++ to_string version +++ js " differs from pinned " +++ to_string pinned +++ js ".");;
  prettierPath ← resolve (js "prettier");
  prettier prettierPath source.

Definition checksum_entry (x : jstr * jstr) : jstr := sha256_text lib (snd x) +++ js "  " +++ fst x.

Definition checksums_of (generated : list (jstr * jstr)) : jstr :=
  join [10%N] (map checksum_entry (merge_sort (entry_before collate) generated)) +++ [10%N].

Definition rejectUnsafeGenerated (x : jstr * jstr) : result () :=
  let '(relativePath, contents) := x in
  match unsafe_text toUpperCase repositoryRoot contents with
  | Some (ForbiddenText v) => error (relativePath +++ js " contains forbidden generated text: " +++ v)
  | Some CredentialHeader => error (relativePath +++ js " contains a forbidden HTTP credential header.")
  | Some TimestampField => error (relativePath +++ js " contains a nondeterministic timestamp field.")
  | None => Ok ()
  end.

(** The text of every generated file, by path and in the order they are written. *)
Definition generate (root : jstr) : result (list (jstr * jstr)) :=
  i ← readInputs root;
  localnet ← find_localnet i;
  compiler ← buildCompiler (in_toolchain i) (in_foundryConfig i);
  a ← build_artifacts i compiler;
  validateRewardFixture (in_rewardFixture i);;
  validateAttestationFixture (in_attestationFixture i);;
  registry ← build_registry i localnet compiler a;
  nativeAbi ← get (artifact_value (native_pin a)) (js "abi");
  factoryAbi ← get (artifact_value (factory_pin a)) (js "abi");
  rewardAbi ← get (artifact_value (reward_pin a)) (js "abi");
  attestationAbi ← get (artifact_value (attestation_pin a)) (js "abi");
  sdkAbis ← formatTypeScript (renderSdkAbis nativeAbi factoryAbi rewardAbi attestationAbi) (in_toolchain i);
  deployments ← renderSdkDeployments registry (in_testnetRegistry i);
  sdkDeployments ← formatTypeScript deployments (in_toolchain i);
  index ← formatTypeScript sdkIndex (in_toolchain i);
  docs ← docs_manifest i registry;
  let generated := [
    (artifact_path (native_pin a), artifact_text (native_pin a));
    (artifact_path (factory_pin a), artifact_text (factory_pin a));
    (artifact_path (reward_pin a), artifact_text (reward_pin a));
    (artifact_path (attestation_pin a), artifact_text (attestation_pin a));
    (registry_file, jsonText collate registry);
    (abis_file, sdkAbis); (deployments_file, sdkDeployments); (index_file, index);
    (docs_file, jsonText collate docs)] in
  let all := generated ++ [(checksums_file, checksums_of generated)] in
  for_each rejectUnsafeGenerated all;;
  Ok all.

End generate.

(** ** The file system *)

Abbreviation disk := (gmap jstr (list Z)).

Inductive operation :=
| ReadFile (path : jstr)
| MakeDirectory (path : jstr)
| WriteFile (path : jstr) (bytes : list Z)
| Rename (from to : jstr)
| Remove (path : jstr).

(** [path.dirname] of a path that does not end in a slash. *)
Definition path_dirname (p : jstr) : jstr :=
  match snd (span (λ c, negb (c =? slash)%N) (reverse p)) with
  | [] => js "."
  | [_] => [slash]
  | _ :: r => reverse r
  end.

Section writing.
(** Which operations fail, and what a write that fails leaves of its file. *)
Context (fault : disk → operation → option exn) (torn : jstr → list Z → option (list Z)).
Context (processId : Z) (repositoryRoot : jstr).

(** Steps that read and change the disk; one that throws keeps what was done. *)
Definition io (A : Type) : Type := disk → result A * disk.

#[export] Instance io_ret : MRet io := λ A a s, (Ok a, s).
#[export] Instance io_bind : MBind io := λ A B f m s,
  let '(x, s') := m s in match x with Ok a => f a s' | Throw e => (Throw e, s') end.

Definition pure {A} (x : result A) : io A := λ s, (x, s).

(** An operation that succeeds with the change [f], unless it fails. *)
Definition perform (o : operation) (f failed : disk → disk) : io () := λ s,
  match fault s o with Some e => (Throw e, failed s) | None => (Ok (), f s) end.

Definition read_disk (s : disk) (path : jstr) : reading :=
  match fault s (ReadFile path) with
  | Some e => Unreadable e
  | None => match s !! path with Some b => Found b | None => NotFound end
  end.

Definition mkdir (path : jstr) : io () := perform (MakeDirectory path) id id.

Definition writeBytes (path : jstr) (b : list Z) : io () :=
  perform (WriteFile path b) (<[path := b]>)
    (λ s, match torn path b with Some t => <[path := t]> s | None => s end).

Definition rename (from to : jstr) : io () := λ s,
  match fault s (Rename from to) with
  | Some e => (Throw e, s)
  | None => match s !! from with
            | Some b => (Ok (), <[to := b]> (delete from s))
            | None => (Throw (enoent from), s)
            end
  end.

(** [rm] with [force]: a missing file is no error. *)
Definition removeFile (path : jstr) : io () := perform (Remove path) (delete path) id.

(** [try { body } finally { cleanup }]: what the cleanup throws comes first. *)
Definition finally {A} (body : io A) (cleanup : io ()) : io A := λ s,
  let '(x, s1) := body s in
  let '(y, s2) := cleanup s1 in
  match y with Ok _ => (x, s2) | Throw e => (Throw e, s2) end.

Definition temporary (destination : jstr) : jstr := destination +++ js ".tmp-" +++ dec_of_Z processId.

Definition atomicWrite (relativePath contents : jstr) : io () :=
  destination ← pure (absoluteOutput repositoryRoot relativePath);
  mkdir (path_dirname destination);;
  finally
    (writeBytes (temporary destination) (utf8_encode contents);;
     rename (temporary destination) destination)
    (removeFile (temporary destination)).

Fixpoint write_all (generated : list (jstr * jstr)) : io () :=
  match generated with
  | [] => mret ()
  | (relativePath, contents) :: rest => atomicWrite relativePath contents;; write_all rest
  end.

(** ** Drift *)

Definition readOptional (relativePath : jstr) : io (option jstr) := λ s,
  (p ← absoluteOutput repositoryRoot relativePath;
   match read_disk s p with
   | Found b => Ok (Some (utf8_decode b))
   | NotFound => Ok None
   | Unreadable e => Throw e
   end, s).

(** The paths whose file is not what was generated. *)
Fixpoint drift (generated : list (jstr * jstr)) : io (list jstr) :=
  match generated with
  | [] => mret []
  | (relativePath, expected) :: rest =>
      actual ← readOptional relativePath;
      r ← drift rest;
      mret (if bool_decide (actual = Some expected) then r else relativePath :: r)
  end.

Context (lib : library) (keccakBytes : list Z → jstr) (toUpperCase : jstr → jstr) (collate : jstr → jstr → bool).
Context (cwd : jstr) (resolve : jstr → result jstr) (prettier : jstr → jstr → result jstr).

Definition generate_on (s : disk) (root : jstr) : result (list (jstr * jstr)) :=
  generate lib keccakBytes toUpperCase collate (read_disk s) cwd repositoryRoot resolve prettier root.

(** The whole script: what it prints. *)
Definition generateArtifacts (argv : list jstr) : io jstr :=
  o ← pure (parseGenerate argv);
  generated ← (λ s, (generate_on s (artifactsRoot o), s));
  let size := dec_of_Z (Z.of_nat (length generated)) in
  if checkOnly o then
    d ← drift generated;
    pure (throw_if (negb (bool_decide (d = [])))
      (js "Generated contract artifacts drifted: " +++ join (js ", ") d
       +++ js ". Run the generator and review the result."));;
    mret (js "Verified " +++ size +++ js " generated contract files.")
  else
    write_all generated;;
    mret (js "Generated " +++ size +++ js " deterministic contract files.").

End writing.
