(* ===== verification/GenerateArtifactsFacts.v ===== *)
(** What a run of the artifact generator does to the disk, that a check after it
    finds no drift, and that what it writes passes the checks of the validator and
    of the deployment script. *)

From stdpp Require Import gmap.
From S2P Require Import Prelude JsNum JsText JsUtf8 JsValue JsOps JsonText JsPath Deploy DeployFacts GeneratedFiles GeneratedFilesFacts TestnetRegistry TestnetRegistryFacts LocalnetRegistry LocalnetRegistryFacts GenerateArtifacts.

Open Scope Z_scope.

(** ** Telling files apart *)

(** The last two segments of a relative path. *)
Definition last_two (rel : jstr) : option (jstr * jstr) :=
  match reverse (split_on slash rel) with
  | b :: a :: _ => Some (a, b)
  | _ => None
  end.

Lemma join_two sep x l a b : join [sep] (x :: l ++ [a; b]) = join [sep] (x :: l) ++ sep :: a ++ sep :: b.
Proof.
  revert x. induction l as [|y l IH]; intros x; [done|].
  change (join [sep] (x :: (y :: l) ++ [a; b])) with (x ++ [sep] ++ join [sep] (y :: l ++ [a; b])).
  change (join [sep] (x :: y :: l)) with (x ++ [sep] ++ join [sep] (y :: l)). by rewrite IH, <- !app_assoc.
Qed.

Lemma last_two_split rel a b : last_two rel = Some (a, b) → ∃ l, split_on slash rel = l ++ [a; b].
Proof.
  unfold last_two. intros H. destruct (reverse (split_on slash rel)) as [|b' [|a' r]] eqn:E; try done. simplify_eq.
  exists (reverse r). rewrite <- (reverse_involutive (split_on slash rel)), E, !reverse_cons, <- app_assoc. done.
Qed.

Lemma last_two_app x a b :
  slash ∉ a → slash ∉ b → last_two (x ++ slash :: a ++ slash :: b) = Some (a, b).
Proof.
  intros Ha Hb. unfold last_two. rewrite !split_on_sep, (split_on_line slash a), (split_on_line slash b) by done.
  by rewrite !reverse_app.
Qed.

Section paths.
Context (root : jstr) (absolute_root : is_absolute root = true).

Definition dest (rel : jstr) : jstr := path_join [root; rel].

Lemma dest_tail rel a b : last_two rel = Some (a, b) → clean a = true → clean b = true → tail_of (dest rel) a b.
Proof.
  intros Hl Ha Hb. pose proof (last_two_split _ _ _ Hl) as [l E].
  apply (path_join_tail root rel (join [slash] (root :: l))); [done| | |done|done].
  - intros ->. destruct l as [|? [|? ?]]; discriminate E.
  - rewrite <- join_two, <- E. destruct (split_on_cons slash rel) as (w & ws & E2). rewrite E2.
    change (join [slash] (root :: w :: ws)) with (root ++ [slash] ++ join [slash] (w :: ws)). by rewrite <- E2, join_split.
Qed.

(** A path whose last two segments survive normalization. *)
Definition tailed (rel : jstr) : bool :=
  match last_two rel with Some (a, b) => clean a && clean b | None => false end.

Lemma tailed_dest rel : tailed rel = true → ∃ a b, last_two rel = Some (a, b) ∧ tail_of (dest rel) a b.
Proof.
  unfold tailed. destruct (last_two rel) as [[a b]|] eqn:E; [|done]. intros [Ha Hb]%andb_true_iff.
  exists a, b. split; [done|by apply dest_tail].
Qed.

Lemma dest_differ rel rel' :
  tailed rel = true → tailed rel' = true → last_two rel ≠ last_two rel' → dest rel ≠ dest rel'.
Proof.
  intros (a & b & E & T)%tailed_dest (a' & b' & E' & T')%tailed_dest Hne H. rewrite H in T.
  destruct (tail_of_inj _ _ _ _ _ T T') as [-> ->]. congruence.
Qed.

Context (processId : Z) (valid_process : 0 ≤ processId).

Abbreviation temporary := (temporary processId).

(** A name that no temporary file has: it does not end in a digit. *)
Definition durable (rel : jstr) : bool :=
  match last_two rel with
  | Some (_, b) => match reverse b with c :: _ => negb (is_digit c) | [] => false end
  | None => false
  end.

Lemma process_digits : Forall (λ c, is_digit c = true) (dec_of_Z processId) ∧ dec_of_Z processId ≠ [].
Proof.
  pose proof (dec_of_Z_canonical processId valid_process) as Hc. split; [by apply canonical_digits|].
  by intros E; rewrite E in Hc.
Qed.

Lemma temporary_tail p a b : tail_of p a b → tail_of (temporary p) a (b ++ js ".tmp-" ++ dec_of_Z processId).
Proof.
  intros H. apply tail_of_append; [|done]. change (js ".tmp-") with [46; 116; 109; 112; 45]%N.
  rewrite elem_of_app. intros [Hin|Hin].
  - unfold slash in Hin. rewrite !elem_of_cons, elem_of_nil in Hin. naive_solver.
  - destruct process_digits as [Hd _]. rewrite Forall_forall in Hd. by apply Hd in Hin.
Qed.

Lemma dest_not_temporary rel rel' :
  tailed rel = true → durable rel = true → tailed rel' = true → dest rel ≠ temporary (dest rel').
Proof.
  intros (a & b & E & T)%tailed_dest Hd (a' & b' & E' & T')%tailed_dest H. rewrite H in T.
  apply temporary_tail in T'. destruct (tail_of_inj _ _ _ _ _ T T') as [_ ->].
  unfold durable in Hd. rewrite E in Hd. destruct process_digits as [Hf Hne].
  destruct (dec_of_Z processId) as [|c l _] using rev_ind; [done|].
  rewrite !app_assoc, reverse_snoc in Hd. apply Forall_app in Hf as [_ Hf]. apply Forall_cons in Hf as [Hc _].
  by rewrite Hc in Hd.
Qed.

Lemma temporary_not_dest p : temporary p ≠ p.
Proof.
  intros H. apply (f_equal length) in H. unfold GenerateArtifacts.temporary, jcat in H. rewrite !length_app in H.
  change (length (js ".tmp-")) with 5%nat in H. lia.
Qed.

End paths.

(** ** Writing *)

(** Outside [P] the disk is what it was. *)
Definition only_differ (P : jstr → Prop) (s s' : disk) : Prop := ∀ q, ¬ P q → s' !! q = s !! q.

Lemma only_differ_refl P s : only_differ P s s.
Proof. done. Qed.

Lemma only_differ_trans (P : jstr → Prop) s1 s2 s3 : only_differ P s1 s2 → only_differ P s2 s3 → only_differ P s1 s3.
Proof. intros H1 H2 q Hq. by rewrite H2, H1. Qed.

Lemma only_differ_weaken (P Q : jstr → Prop) s s' : (∀ q, P q → Q q) → only_differ P s s' → only_differ Q s s'.
Proof. intros HPQ H q Hq. apply H. auto. Qed.

Section writing.
Context (fault : disk → operation → option exn) (torn : jstr → list Z → option (list Z)).
Context (processId : Z) (root : jstr).

Abbreviation temporary := (temporary processId).
Abbreviation atomicWrite := (atomicWrite fault torn processId root).
Abbreviation write_all := (write_all fault torn processId root).
Abbreviation dest := (dest root).

Lemma absoluteOutput_Ok rel p : absoluteOutput root rel = Ok p → p = dest rel.
Proof. intros H. unfold absoluteOutput in H. passed H as Hg. by apply Ok_inj in H. Qed.

(** The files that writing [rel] may touch. *)
Definition touched (rel : jstr) (q : jstr) : Prop := q = dest rel ∨ q = temporary (dest rel).

Lemma writeBytes_differ p b s x s' : writeBytes fault torn p b s = (x, s') → only_differ (eq p) s s' ∧ (x = Ok () → s' !! p = Some b).
Proof.
  unfold writeBytes, perform. destruct (fault s (WriteFile p b)); intros [= <- <-].
  - split; [|done]. intros q Hq. cbn beta. destruct (torn p b); [|done]. by rewrite lookup_insert_ne.
  - split; [|intros _; apply lookup_insert_eq]. intros q Hq. by rewrite lookup_insert_ne.
Qed.

Lemma rename_differ from to s x s' :
  rename fault from to s = (x, s') → from ≠ to →
  only_differ (λ q, q = from ∨ q = to) s s' ∧
  (s' !! to = s !! to ∨ s' !! to = s !! from) ∧ (x = Ok () → s' !! to = s !! from ∧ s !! from ≠ None ∧ s' !! from = None).
Proof.
  unfold rename. intros H Hne. destruct (fault s (Rename from to)); [simplify_eq; split; [done|]; split; [by left|done]|].
  destruct (s !! from) as [b|] eqn:E; simplify_eq; [|split; [done|]; split; [by left|done]].
  split; [intros q Hq; rewrite lookup_insert_ne by naive_solver; apply lookup_delete_ne; naive_solver|].
  rewrite lookup_insert_eq. split; [by right|]. intros _. split; [done|]. split; [done|].
  rewrite lookup_insert_ne by done. apply lookup_delete_eq.
Qed.

(** A write leaves the old file or puts the new one in its place, whatever fails. *)
Lemma atomicWrite_atomic rel contents s x s' :
  atomicWrite rel contents s = (x, s') →
  only_differ (touched rel) s s' ∧
  (s' !! dest rel = s !! dest rel ∨ s' !! dest rel = Some (utf8_encode contents)) ∧
  (x = Ok () → s' !! dest rel = Some (utf8_encode contents) ∧ s' !! temporary (dest rel) = None).
Proof.
  intros H. unfold GenerateArtifacts.atomicWrite, mbind, io_bind, pure in H.
  destruct (absoluteOutput root rel) as [p|e] eqn:E; [|simplify_eq; split; [done|]; split; [by left|done]].
  apply absoluteOutput_Ok in E as ->. unfold mkdir, perform in H.
  destruct (fault s (MakeDirectory (path_dirname (dest rel)))); [simplify_eq; split; [done|]; split; [by left|done]|].
  unfold finally in H. cbn [id] in H. pose proof (temporary_not_dest processId (dest rel)) as Hne.
  set (t := temporary (dest rel)) in *. set (d := dest rel) in *.
  assert (∃ y s1, (let '(x0, s'0) := writeBytes fault torn t (utf8_encode contents) s in
      match x0 with Ok _ => rename fault t d s'0 | Throw e => (Throw e, s'0) end) = (y, s1) ∧
    only_differ (touched rel) s s1 ∧ (s1 !! d = s !! d ∨ s1 !! d = Some (utf8_encode contents)) ∧
    (y = Ok () → s1 !! d = Some (utf8_encode contents))) as (y & s1 & E1 & D1 & O1 & N1).
  { destruct (writeBytes fault torn t (utf8_encode contents) s) as [z s0] eqn:E0.
    apply writeBytes_differ in E0 as [D0 N0]. assert (s0 !! d = s !! d) as Ed by by apply D0.
    assert (only_differ (touched rel) s s0) as D0'
      by (eapply only_differ_weaken; [|exact D0]; intros q <-; by right).
    destruct z as [[]|e]; [|exists (Throw e), s0; split; [done|]; split; [done|]; split; [by left|done]].
    destruct (rename fault t d s0) as [z s1] eqn:E1. apply rename_differ in E1 as (D1 & O1 & N1); [|done].
    exists z, s1. split; [done|]. rewrite (N0 eq_refl) in O1, N1. rewrite Ed in O1. split; [|split; [done|naive_solver]].
    eapply only_differ_trans; [exact D0'|]. eapply only_differ_weaken; [|exact D1]. intros q [->| ->]; [by right|by left]. }
  rewrite E1 in H. unfold removeFile, perform in H.
  destruct (fault s1 (Remove t)); simplify_eq.
  - split; [done|]. split; [done|]. done.
  - rewrite lookup_delete_ne by done. split; [|split; [done|]].
    + eapply only_differ_trans; [exact D1|]. intros q Hq. apply lookup_delete_ne. intros <-. apply Hq. by right.
    + intros ->. split; [auto|]. apply lookup_delete_eq.
Qed.

(** The outputs and their temporary files are all different. *)
Record separate (generated : list (jstr * jstr)) : Prop := Separate {
  distinct_outputs : NoDup (map (λ x, dest (fst x)) generated);
  distinct_temporaries : ∀ x y, x ∈ generated → y ∈ generated → dest (fst x) ≠ temporary (dest (fst y));
}.

Lemma separate_cons x l : separate (x :: l) → separate l ∧ ∀ y, y ∈ l → ¬ touched (fst x) (dest (fst y)) ∧ ¬ touched (fst y) (dest (fst x)).
Proof.
  intros [Hn Ht]. cbn [map] in Hn. apply NoDup_cons in Hn as [Hx Hn]. split.
  - split; [done|]. intros y z Hy Hz. apply Ht; by right.
  - intros y Hy. assert (dest (fst y) ≠ dest (fst x)) as Hne.
    { intros E. apply Hx. rewrite <- E. apply elem_of_map. by exists y. }
    split; intros [E|E]; [done|by eapply Ht in E; [|right|left]|done|by eapply Ht in E; [|left|right]].
Qed.

(** What writing the files leaves: nothing else is touched, every file is the old
    or the new one, and all are new when nothing failed. *)
Definition written (generated : list (jstr * jstr)) (s s' : disk) (done : bool) : Prop :=
  only_differ (λ q, ∃ x, x ∈ generated ∧ touched (fst x) q) s s' ∧
  ∀ x, x ∈ generated →
    (s' !! dest (fst x) = s !! dest (fst x) ∨ s' !! dest (fst x) = Some (utf8_encode (snd x))) ∧
    (done = true → s' !! dest (fst x) = Some (utf8_encode (snd x))).

Lemma write_all_written generated s x s' :
  separate generated → write_all generated s = (x, s') → written generated s s' (is_ok x).
Proof.
  intros Hsep. revert s. induction generated as [|[rel c] l IH]; intros s H.
  { unfold GenerateArtifacts.write_all, mret, io_ret in H. simplify_eq. split; [done|]. by intros x Hx%elem_of_nil. }
  cbn [GenerateArtifacts.write_all] in H. unfold mbind, io_bind in H.
  apply separate_cons in Hsep as [Hsep Hfree]. specialize (IH Hsep).
  destruct (atomicWrite rel c s) as [y s1] eqn:E. apply atomicWrite_atomic in E as (D1 & O1 & N1).
  assert (∀ z, z ∈ l → s1 !! dest (fst z) = s !! dest (fst z)) as Hkeep by (intros z Hz; by apply D1, Hfree).
  destruct y as [[]|e].
  - apply IH in H as [D2 H]. split.
    + eapply only_differ_trans; [eapply only_differ_weaken; [|exact D1]|eapply only_differ_weaken; [|exact D2]].
      * intros q Hq. exists (rel, c). split; [left|done].
      * intros q (z & Hz & Hq). exists z. split; [by right|done].
    + intros z [->|Hz]%elem_of_cons.
      * assert (s' !! dest rel = s1 !! dest rel) as Ek.
        { apply D2. intros (y & Hy & Hq). by apply (Hfree y Hy). }
        cbn [fst snd]. rewrite Ek. destruct (N1 eq_refl) as [Hn _]. split; [by right|done].
      * rewrite <- (Hkeep z Hz). by apply H.
  - simplify_eq. split.
    + eapply only_differ_weaken; [|exact D1]. intros q Hq. exists (rel, c). split; [left|done].
    + intros z [->|Hz]%elem_of_cons; [by split|]. split; [left; by apply Hkeep|done].
Qed.

End writing.

(** ** What is generated *)

Definition output_files : list jstr := [
  js "contracts/generated/abi/IToriumNative.json";
  js "contracts/generated/abi/ToriumCreate2Factory.json";
  js "contracts/generated/abi/ToriumRewardDistributor.json";
  js "contracts/generated/abi/ToriumAttestationRegistry.json";
  registry_file; abis_file; deployments_file; index_file; docs_file; checksums_file].

(** The fixed inputs, and the Foundry output below [root]. *)
Definition input_files : list jstr := [
  toolchain_file; identifiers_file; js "contracts/foundry.toml"; genesis_manifest_file; genesis_file;
  reward_fixture_file; attestation_fixture_file; gas_snapshot_file; js "contracts/deployments/testnet.json";
  native_source; factory_source; reward_source; attestation_source].

Definition contract_names : list jstr := [native_name; factory_name; reward_name; attestation_name].

Section generation.
Context (lib : library) (keccakBytes : list Z → jstr) (toUpperCase : jstr → jstr) (collate : jstr → jstr → bool).
Context (cwd root : jstr) (resolve : jstr → result jstr) (prettier : jstr → jstr → result jstr).

Abbreviation generate read := (generate lib keccakBytes toUpperCase collate read cwd root resolve prettier).
Abbreviation build_artifacts read := (build_artifacts lib keccakBytes collate read cwd root).
Abbreviation registry_record := (registry_record lib collate).

(** The artifact of a contract, as the generator made it from its inputs. *)
Definition made_from (input compiler record : value) (p : pinned_artifact) : Prop :=
  artifact_value p = stableValue collate record ∧ artifact_text p = jsonText collate (artifact_value p) ∧
  ∃ name source bytes, artifact_record lib keccakBytes cwd input name source bytes compiler = Ok record.

Record artifacts_made (i : generator_inputs) (c : value) (a : artifact_set) (nr fr rr ar : value) : Prop := ArtifactsMade {
  made_native : made_from (in_native i) c nr (native_pin a);
  made_factory : made_from (in_factory i) c fr (factory_pin a);
  made_reward : made_from (in_reward i) c rr (reward_pin a);
  made_attestation : made_from (in_attestation i) c ar (attestation_pin a);
  made_paths : [artifact_path (native_pin a); artifact_path (factory_pin a); artifact_path (reward_pin a);
                artifact_path (attestation_pin a)] = take 4 output_files;
}.

Lemma normalize_from_record read input name source compiler v :
  normalize_from lib keccakBytes collate read cwd root input name source compiler = Ok v →
  ∃ record, v = stableValue collate record ∧
    ∃ name source bytes, artifact_record lib keccakBytes cwd input name source bytes compiler = Ok record.
Proof.
  intros H. unfold normalize_from in H. take H as b Hb. unfold normalizeArtifact in H. take H as r Hr.
  apply Ok_inj in H as <-. exists r. split; [done|]. by eexists _, _, _.
Qed.

Lemma build_artifacts_made read i compiler a :
  build_artifacts read i compiler = Ok a → ∃ nr fr rr ar, artifacts_made i compiler a nr fr rr ar.
Proof.
  intros H. unfold GenerateArtifacts.build_artifacts in H. take H as n Hn. take H as f Hf. take H as r Hr. take H as t Ht.
  passed H as E1. passed H as E2. passed H as E3. passed H as E4. apply Ok_inj in H as <-.
  apply normalize_from_record in Hn as (nr & -> & Hn), Hf as (fr & -> & Hf), Hr as (rr & -> & Hr), Ht as (ar & -> & Ht).
  exists nr, fr, rr, ar. by split.
Qed.

(** Everything that is written, from its parts. *)
Definition outputs (a : artifact_set) (record : value) (abis deployments index : jstr) (docs : value) : list (jstr * jstr) := [
  (artifact_path (native_pin a), artifact_text (native_pin a));
  (artifact_path (factory_pin a), artifact_text (factory_pin a));
  (artifact_path (reward_pin a), artifact_text (reward_pin a));
  (artifact_path (attestation_pin a), artifact_text (attestation_pin a));
  (registry_file, jsonText collate (stableValue collate record));
  (abis_file, abis); (deployments_file, deployments); (index_file, index); (docs_file, jsonText collate docs)].

Lemma generate_Ok read r all :
  generate read r = Ok all →
  ∃ i localnet compiler a record abis deployments index docs,
    readInputs read root r = Ok i ∧ find_localnet i = Ok localnet ∧ buildCompiler (in_toolchain i) (in_foundryConfig i) = Ok compiler ∧
    build_artifacts read i compiler = Ok a ∧ registry_record i localnet compiler a = Ok record ∧
    all = outputs a record abis deployments index docs
          ++ [(checksums_file, checksums_of lib collate (outputs a record abis deployments index docs))].
Proof.
  intros H. unfold GenerateArtifacts.generate in H. take H as i Hi. take H as l Hl. take H as c Hc. take H as a Ha.
  passed H as E1. passed H as E2. take H as reg Hreg. take H as x1 X1. take H as x2 X2. take H as x3 X3. take H as x4 X4.
  take H as abis Habis. take H as dep Hdep. take H as deps Hdeps. take H as index Hindex. take H as docs Hdocs.
  cbn zeta in H. passed H as E3. apply Ok_inj in H as <-. unfold build_registry in Hreg. take Hreg as rec Hrec.
  apply Ok_inj in Hreg as <-. by exists i, l, c, a, rec, abis, deps, index, docs.
Qed.

Lemma generate_files read r all : generate read r = Ok all → map fst all = output_files.
Proof.
  intros (i & l & c & a & rec & abis & deps & index & docs & _ & _ & _ & Ha & _ & ->)%generate_Ok.
  apply build_artifacts_made in Ha as (nr & fr & rr & ar & [_ _ _ _ Hp]). unfold outputs. cbn [app map fst].
  injection Hp as -> -> -> ->. done.
Qed.

Context (absolute_root : is_absolute root = true) (processId : Z) (valid_process : 0 ≤ processId).

Lemma output_files_ok : Forall (λ rel, tailed rel = true ∧ durable rel = true) output_files ∧ NoDup (map last_two output_files).
Proof.
  split.
  - eapply Forall_impl; [apply forallb_spec; instantiate (1 := λ rel, tailed rel && durable rel); vm_compute; reflexivity|].
    by intros rel [? ?]%andb_true_iff.
  - apply (bool_decide_unpack _). vm_compute. exact I.
Qed.

Lemma outputs_separate generated : map fst generated = output_files → separate processId root generated.
Proof.
  intros Hf. destruct output_files_ok as [Hok Hn]. rewrite <- Hf in Hok, Hn. rewrite Forall_forall in Hok.
  assert (∀ x, x ∈ generated → tailed (fst x) = true ∧ durable (fst x) = true) as Hx
    by (intros x Hx; apply Hok, elem_of_map; by exists x).
  split.
  - clear Hf Hok. induction generated as [|x l IH]; [constructor|]. cbn [map] in *. apply NoDup_cons in Hn as [Hne Hn].
    apply NoDup_cons. split; [|apply IH; [done|]; intros y Hy; apply Hx; by right].
    intros (y & E & Hy)%elem_of_map. apply dest_differ in E; [done|done|apply Hx; left|apply Hx; by right|].
    intros E2. apply Hne. rewrite E2. apply elem_of_map. exists (fst y). split; [done|]. apply elem_of_map. by exists y.
  - intros x y Hx' Hy. destruct (Hx x Hx') as [T D], (Hx y Hy) as [T' _]. by apply dest_not_temporary.
Qed.

Context (fault : disk → operation → option exn) (torn : jstr → list Z → option (list Z)).

Abbreviation generate_on := (generate_on fault root lib keccakBytes toUpperCase collate cwd resolve prettier).
Abbreviation generateArtifacts :=
  (generateArtifacts fault torn processId root lib keccakBytes toUpperCase collate cwd resolve prettier).

Lemma drift_disk generated s x s' : drift fault root generated s = (x, s') → s' = s.
Proof.
  revert s x s'. induction generated as [|[rel c] l IH]; intros s x s' H.
  { unfold drift, mret, io_ret in H. by simplify_eq. }
  cbn [drift] in H. unfold mbind, io_bind, readOptional in H.
  destruct (_ ≫= _) as [o|e]; [|by simplify_eq]. destruct (drift fault root l s) as [[r|e] s1] eqn:E;
    apply IH in E as ->; [unfold mret, io_ret in H|]; by simplify_eq.
Qed.

(** C20. Generation is atomic file by file: whatever operations fail, the generator
    touches only its ten outputs and their temporary files; each output has its old
    content or the whole of the new one, and the new one when the run succeeds. A
    run with --check, a bad command line or a failed generation changes nothing. *)
Theorem generation_atomic argv s x s' :
  generateArtifacts argv s = (x, s') →
  match parseGenerate argv with
  | Throw _ => s' = s
  | Ok o =>
      match generate_on s (artifactsRoot o) with
      | Throw _ => s' = s
      | Ok generated => map fst generated = output_files ∧
          if checkOnly o then s' = s else written processId root generated s s' (is_ok x)
      end
  end.
Proof.
  intros H. unfold GenerateArtifacts.generateArtifacts, mbind, io_bind, pure in H.
  destruct (parseGenerate argv) as [o|e]; [|by simplify_eq].
  destruct (generate_on s (artifactsRoot o)) as [all|e] eqn:E; [|by simplify_eq].
  pose proof (generate_files _ _ _ E) as Hf. split; [done|]. destruct (checkOnly o).
  - destruct (drift fault root all s) as [[d|e] s1] eqn:Ed; apply drift_disk in Ed as ->; [|by simplify_eq].
    by destruct (throw_if _ _); unfold mret, io_ret in H; simplify_eq.
  - destruct (write_all fault torn processId root all s) as [y s1] eqn:Ew.
    apply write_all_written in Ew; [|by apply outputs_separate].
    destruct y as [[]|e]; unfold mret, io_ret in H; by simplify_eq.
Qed.

(** ** Checking after writing *)

Definition is_input (r rel : jstr) : Prop := rel ∈ input_files ∨ ∃ name, name ∈ contract_names ∧ rel = foundry_path r name.

Lemma foundry_path_tail r name :
  name ∈ contract_names → last_two (foundry_path r name) = Some (name +++ js ".sol", name +++ js ".json").
Proof.
  intros Hn. assert (∀ a b, foundry_path r name = (js "contracts/" ++ r) ++ slash :: a ++ slash :: b →
    clean a = true → clean b = true → last_two (foundry_path r name) = Some (a, b)) as Hl.
  { intros a b -> Ha Hb. apply last_two_app; by apply clean_free. }
  unfold contract_names in Hn. rewrite !elem_of_cons, elem_of_nil in Hn.
  destruct Hn as [->|[->|[->|[->|[]]]]]; (apply Hl; [unfold foundry_path, jcat; rewrite <- app_assoc; reflexivity
    |vm_compute; reflexivity..]).
Qed.

(** An input has other last segments than every output, and its name does not end
    in a digit. *)
Lemma input_apart r rel out :
  is_input r rel → out ∈ output_files → tailed rel = true ∧ durable rel = true ∧ last_two rel ≠ last_two out.
Proof.
  intros Hr Ho.
  assert (∀ ab, (let '(a, b) := ab in clean a && clean b &&
      match reverse b with c :: _ => negb (is_digit c) | [] => false end) && 
      forallb (λ o, negb (bool_decide (last_two o = Some ab))) output_files = true → last_two rel = Some ab →
    tailed rel = true ∧ durable rel = true ∧ last_two rel ≠ last_two out) as Hgen.
  { intros [a b] H E. apply andb_true_iff in H as [H1 H2]. apply andb_true_iff in H1 as [H1 H3].
    unfold tailed, durable. rewrite E. split; [done|]. split; [done|]. apply forallb_spec in H2.
    rewrite Forall_forall in H2. specialize (H2 _ Ho). apply negb_true_iff, bool_decide_eq_false in H2. congruence. }
  destruct Hr as [Hr|(name & Hn & ->)].
  - assert (forallb (λ rel, match last_two rel with
      | Some (a, b) => (clean a && clean b && match reverse b with c :: _ => negb (is_digit c) | [] => false end) &&
          forallb (λ o, negb (bool_decide (last_two o = Some (a, b)))) output_files
      | None => false end) input_files = true) as Hall by (vm_compute; reflexivity).
    apply forallb_spec in Hall. rewrite Forall_forall in Hall. specialize (Hall _ Hr).
    destruct (last_two rel) as [[a b]|] eqn:E; [|done]. by apply (Hgen (a, b)).
  - pose proof (foundry_path_tail r name Hn) as E. apply (Hgen (name +++ js ".sol", name +++ js ".json")); [|done].
    unfold contract_names in Hn. rewrite !elem_of_cons, elem_of_nil in Hn.
    destruct Hn as [->|[->|[->|[->|[]]]]]; vm_compute; reflexivity.
Qed.

Lemma input_untouched r rel out : is_input r rel → out ∈ output_files → ¬ touched processId root out (dest root rel).
Proof.
  intros Hr Ho. destruct (input_apart r rel out Hr Ho) as (T & D & Hne).
  pose proof (proj1 output_files_ok) as Hok. rewrite Forall_forall in Hok. destruct (Hok _ Ho) as [T' _].
  intros [E|E]; [by apply dest_differ in E|by apply dest_not_temporary in E].
Qed.

Section congruence.
Context (read1 read2 : jstr → reading) (r : jstr).
Context (same_inputs : ∀ rel, is_input r rel → read1 (dest root rel) = read2 (dest root rel)).
Context (same_package : ∀ p, resolve (js "prettier/package.json") = Ok p → read1 p = read2 p).

Lemma bind_ext {A B} (m m' : result A) (f g : A → result B) : m = m' → (∀ a, f a = g a) → (m ≫= f) = (m' ≫= g).
Proof. intros ->. destruct m'; [intros H; apply H|done]. Qed.

Lemma readInput_ext rel : is_input r rel → readInput read1 root rel = readInput read2 root rel.
Proof.
  intros Hr. unfold readInput. destruct (absoluteOutput root rel) as [p|e] eqn:E; [|done].
  apply absoluteOutput_Ok in E as ->. cbn [mbind result_bind]. unfold read_file. by rewrite same_inputs.
Qed.

Lemma readInputText_ext rel : is_input r rel → readInputText read1 root rel = readInputText read2 root rel.
Proof. intros Hr. unfold readInputText. by rewrite readInput_ext. Qed.

Lemma readInputJson_ext rel : is_input r rel → readInputJson read1 root rel = readInputJson read2 root rel.
Proof. intros Hr. unfold readInputJson. by rewrite readInputText_ext. Qed.

Lemma readFoundry_ext name : name ∈ contract_names → readFoundry read1 root r name = readFoundry read2 root r name.
Proof.
  intros Hn. unfold readFoundry, readFoundryArtifact.
  destruct (absoluteOutput root (foundry_path r name)) as [p|e] eqn:E; [|done].
  apply absoluteOutput_Ok in E as ->. cbn [mbind result_bind]. rewrite same_inputs; [done|]. right. by exists name.
Qed.

Lemma fixed_input rel : bool_decide (rel ∈ input_files) = true → is_input r rel.
Proof. intros H. left. by apply bool_decide_eq_true in H. Qed.

Lemma readInputs_ext : readInputs read1 root r = readInputs read2 root r.
Proof.
  unfold readInputs.
  do 3 (apply bind_ext; [first [apply readInputJson_ext|apply readInputText_ext]; apply fixed_input; vm_compute; reflexivity|intros ?]).
  apply bind_ext; [apply readInputJson_ext, fixed_input; vm_compute; reflexivity|intros ?].
  apply bind_ext; [apply readInput_ext, fixed_input; vm_compute; reflexivity|intros ?].
  do 3 (apply bind_ext; [apply readFoundry_ext; set_solver|intros ?]).
  apply bind_ext; [apply readInputJson_ext, fixed_input; vm_compute; reflexivity|intros ?].
  apply bind_ext; [apply readInput_ext, fixed_input; vm_compute; reflexivity|intros ?].
  apply bind_ext; [apply readFoundry_ext; set_solver|intros ?].
  apply bind_ext; [apply readInputJson_ext, fixed_input; vm_compute; reflexivity|intros ?].
  do 2 (apply bind_ext; [apply readInput_ext, fixed_input; vm_compute; reflexivity|intros ?]).
  by apply bind_ext; [apply readInputJson_ext, fixed_input; vm_compute; reflexivity|intros ?].
Qed.

Lemma build_artifacts_ext i compiler : build_artifacts read1 i compiler = build_artifacts read2 i compiler.
Proof.
  unfold GenerateArtifacts.build_artifacts, normalize_from.
  rewrite !readInput_ext by (apply fixed_input; vm_compute; reflexivity). done.
Qed.

Lemma formatTypeScript_ext source manifest :
  formatTypeScript read1 resolve prettier source manifest = formatTypeScript read2 resolve prettier source manifest.
Proof.
  unfold formatTypeScript. destruct (resolve (js "prettier/package.json")) as [p|e]; [|done].
  cbn [mbind result_bind]. unfold read_file. by rewrite same_package.
Qed.

(** The generator depends on the disk through its inputs only. *)
Lemma generate_ext : generate read1 r = generate read2 r.
Proof.
  unfold GenerateArtifacts.generate. rewrite readInputs_ext. apply bind_ext; [done|]. intros i. apply bind_ext; [done|].
  intros localnet. apply bind_ext; [done|]. intros compiler. rewrite build_artifacts_ext. apply bind_ext; [done|]. intros a.
  do 7 (apply bind_ext; [done|intros ?]). apply bind_ext; [apply formatTypeScript_ext|]. intros abis.
  apply bind_ext; [done|]. intros deployments. apply bind_ext; [apply formatTypeScript_ext|]. intros deps.
  apply bind_ext; [apply formatTypeScript_ext|]. done.
Qed.

End congruence.

(** ** After a run that wrote everything *)

Context (reads_work : ∀ s p, fault s (ReadFile p) = None).
(** Prettier's package description is not one of the files that are generated. *)
Context (package_apart : ∀ p rel, resolve (js "prettier/package.json") = Ok p → rel ∈ output_files →
  ¬ touched processId root rel p).

Lemma generateArtifacts_wrote argv s msg s' r :
  parseGenerate argv = Ok (GenerateOptions false r) → generateArtifacts argv s = (Ok msg, s') →
  ∃ generated, generate_on s r = Ok generated ∧ map fst generated = output_files ∧
    written processId root generated s s' true.
Proof.
  intros Hp H. unfold GenerateArtifacts.generateArtifacts, mbind, io_bind, pure in H. rewrite Hp in H.
  cbn [artifactsRoot checkOnly] in H. destruct (generate_on s r) as [all|e] eqn:E; [|by simplify_eq].
  pose proof (generate_files _ _ _ E) as Hf. exists all. split; [done|]. split; [done|].
  destruct (write_all fault torn processId root all s) as [y s1] eqn:Ew.
  apply write_all_written in Ew; [|by apply outputs_separate]. destruct y as [[]|e]; [|by simplify_eq].
  unfold mret, io_ret in H. by simplify_eq.
Qed.

Lemma read_disk_at s p : read_disk fault s p = match s !! p with Some b => Found b | None => NotFound end.
Proof. unfold read_disk. by rewrite reads_work. Qed.

(** The inputs are still there. *)
Lemma generate_on_written generated s s' r :
  map fst generated = output_files → written processId root generated s s' true → generate_on s' r = generate_on s r.
Proof.
  intros Hf [D _]. apply generate_ext.
  - intros rel Hr. rewrite !read_disk_at. rewrite D; [done|]. intros (x & Hx & Ht).
    eapply input_untouched; [exact Hr| |exact Ht]. rewrite <- Hf. apply elem_of_map. by exists x.
  - intros p Hp. rewrite !read_disk_at. rewrite D; [done|]. intros (x & Hx & Ht).
    eapply package_apart; [exact Hp| |exact Ht]. rewrite <- Hf. apply elem_of_map. by exists x.
Qed.

(** Text that survives being written and read. *)
Definition survives (x : jstr * jstr) : Prop := utf8_decode (utf8_encode (snd x)) = snd x.

#[export] Instance survives_dec x : Decision (survives x).
Proof. unfold survives. apply _. Defined.

Lemma output_absolute rel : rel ∈ output_files → absoluteOutput root rel = Ok (dest root rel).
Proof.
  intros H. unfold absoluteOutput.
  assert (forallb (λ rel, negb (is_absolute rel || includes (js "..") rel)) output_files = true) as Hall by (vm_compute; reflexivity).
  apply forallb_spec in Hall. rewrite Forall_forall in Hall. specialize (Hall _ H). apply negb_true_iff in Hall.
  by rewrite Hall.
Qed.

Lemma drift_written all l s : 
  (∀ x, x ∈ l → fst x ∈ output_files ∧ s !! dest root (fst x) = Some (utf8_encode (snd x))) → all = l →
  drift fault root all s = (Ok (map fst (List.filter (λ x, negb (bool_decide (survives x))) l)), s).
Proof.
  intros Hl ->. induction l as [|[rel c] l IH]; [done|]. cbn [drift]. unfold mbind, io_bind, readOptional.
  destruct (Hl (rel, c) ltac:(left)) as [Ho Hs]. cbn [fst snd] in Ho, Hs. rewrite (output_absolute rel Ho).
  cbn [mbind result_bind]. rewrite read_disk_at, Hs. rewrite IH by (intros x Hx; apply Hl; by right).
  unfold mret, io_ret. cbn [List.filter]. unfold survives at 2. cbn [snd].
  destruct (decide (utf8_decode (utf8_encode c) = c)) as [E|E].
  - rewrite !bool_decide_eq_true_2; [done|done|by rewrite E].
  - rewrite !bool_decide_eq_false_2; [done|done|congruence].
Qed.

(** C23. A check after a run that wrote the files regenerates the same texts, changes
    nothing, and succeeds exactly when every text survives UTF-8, which fails only
    for unpaired surrogates; otherwise it names the files that drifted. *)
Theorem generate_then_check argv argv' r s msg s' :
  parseGenerate argv = Ok (GenerateOptions false r) → parseGenerate argv' = Ok (GenerateOptions true r) →
  generateArtifacts argv s = (Ok msg, s') →
  ∃ generated, generate_on s r = Ok generated ∧
    (Forall survives generated →
       generateArtifacts argv' s' = (Ok (js "Verified 10 generated contract files."), s')) ∧
    (∀ msg', generateArtifacts argv' s' = (Ok msg', s') → Forall survives generated) ∧
    snd (generateArtifacts argv' s') = s'.
Proof.
  intros Hp Hp' H. destruct (generateArtifacts_wrote _ _ _ _ _ Hp H) as (all & Hg & Hf & Hw). exists all. split; [done|].
  assert (length all = 10%nat) as Hlen by by rewrite <- (length_map fst all), Hf.
  set (d := map fst (List.filter (λ x, negb (bool_decide (survives x))) all)).
  assert (generateArtifacts argv' s' = match throw_if (negb (bool_decide (d = [])))
      (js "Generated contract artifacts drifted: " +++ join (js ", ") d +++ js ". Run the generator and review the result.") with
    | Ok _ => (Ok (js "Verified 10 generated contract files."), s') | Throw e => (Throw e, s') end) as Hrun.
  { unfold GenerateArtifacts.generateArtifacts, mbind, io_bind, pure. rewrite Hp'. cbn [artifactsRoot checkOnly].
    rewrite (generate_on_written _ _ _ _ Hf Hw), Hg. rewrite (drift_written all all s').
    - unfold mret, io_ret. subst d. destruct (throw_if _ _); [|done]. by rewrite Hlen.
    - intros x Hx. split; [rewrite <- Hf; apply elem_of_map; by exists x|]. destruct Hw as [_ Hw]. by apply Hw.
    - done. }
  assert (d = [] ↔ Forall survives all) as Hd.
  { subst d. clear. induction all as [|x l IH]; [by split|]. rewrite Forall_cons, <- IH. cbn [List.filter].
    destruct (decide (survives x)) as [E|E].
    - rewrite bool_decide_eq_true_2 by done. cbn [negb]. naive_solver.
    - rewrite bool_decide_eq_false_2 by done. cbn [negb map]. naive_solver. }
  rewrite Hrun. split; [|split].
  - intros Hs%Hd. by rewrite bool_decide_eq_true_2.
  - intros msg'. destruct (bool_decide (d = [])) eqn:E; [intros _; apply Hd; by apply bool_decide_eq_true in E|done].
  - by destruct (throw_if _ _).
Qed.

(** ** What was written can be deployed *)

(** A generated document as it is read back: its keys are sorted twice. *)
Definition reread (v : value) : value := stableValue collate (stableValue collate v).

Lemma get_reread v k w : json_data v = true → get v (js k) = Ok w → get (reread v) (js k) = Ok (reread w).
Proof.
  intros Hv [Hn ->]%get_Ok. pose proof (json_data_stable collate v Hv) as Hs. unfold get, reread.
  rewrite !(field_stable collate) by done.
  assert (∀ v, is_nullish (stableValue collate v) = is_nullish v) as Hx by by intros [].
  by rewrite !Hx, Hn.
Qed.

Lemma json_data_get v k w : json_data v = true → is_object v = true → get v (js k) = Ok w → w ≠ VUndef → json_data w = true.
Proof.
  intros Hv Ho [_ ->]%get_Ok Hu. destruct v as [| | | | | |fs]; try done. apply json_data_obj in Hv as [_ Hf].
  unfold field in *. destruct (assoc (js k) fs) as [x|] eqn:E; [|done]. apply assoc_elem in E.
  rewrite Forall_forall in Hf. by destruct (Hf _ E).
Qed.

Lemma walk_reread v k k' x w :
  json_data v = true → is_object v = true → get v (js k) = Ok x → is_object x = true → get x (js k') = Ok w →
  walk (reread v) [k; k'] = Ok (reread w).
Proof.
  intros Hv Ho Hx Hox Hw. cbn [walk]. rewrite (get_reread _ _ _ Hv Hx). cbn [mbind result_bind].
  rewrite (get_reread x k' w); [done| |done]. eapply json_data_get; [exact Hv|done|exact Hx|by destruct x].
Qed.

Lemma reread_text s : reread (VStr s) = VStr s.
Proof. done. Qed.

(** The bytecode in an artifact. *)
Lemma artifact_record_code cwd' input name source bytes compiler record :
  artifact_record lib keccakBytes cwd' input name source bytes compiler = Ok record →
  is_object record = true ∧ ∃ creation hash bytecode, keccak256 lib (VStr creation) = Ok hash ∧
    get record (js "bytecode") = Ok bytecode ∧ is_object bytecode = true ∧
    get bytecode (js "creation") = Ok (VStr creation) ∧ get bytecode (js "creationCodeKeccak256") = Ok (VStr hash).
Proof.
  intros H. unfold artifact_record in H. passed H as E1. take H as c Hc. take H as r Hr. passed H as E2.
  take H as abi Ha. take H as ch Hch. take H as rh Hrh. apply Ok_inj in H as <-. split; [done|].
  by exists c, ch, (VObj ["creation" :=: VStr c; "runtime" :=: VStr r;
      "creationCodeKeccak256" :=: VStr ch; "runtimeCodeKeccak256" :=: VStr rh]%js).
Qed.

(** An entry of the registry, for the artifact that it pins. *)
Definition pins (id : jstr) (p : pinned_artifact) (e : value) : Prop :=
  is_object e = true ∧ get e (js "id") = Ok (VStr id) ∧ get e (js "artifactPath") = Ok (VStr (artifact_path p)) ∧
  get e (js "artifactSha256") = Ok (VStr (sha256_text lib (artifact_text p))) ∧
  ∃ code, get e (js "code") = Ok code ∧ is_object code = true ∧
    ∀ w, walk (artifact_value p) ["bytecode"; "creationCodeKeccak256"]%string = Ok w →
      get code (js "creationCodeKeccak256") = Ok w.

Lemma registry_entry_pins id name address classification status version upgrade p abi code deployment configuration roles verification :
  is_object code = true →
  (∀ w, walk (artifact_value p) ["bytecode"; "creationCodeKeccak256"]%string = Ok w →
     get code (js "creationCodeKeccak256") = Ok w) →
  pins id p (registry_entry lib id name address classification status version upgrade p abi code deployment configuration roles verification).
Proof. intros Hc Hw. split; [done|]. do 3 (split; [done|]). by exists code. Qed.

Lemma code_record_Ok artifact code :
  code_record artifact = Ok code → is_object code = true ∧
  ∀ w, walk artifact ["bytecode"; "creationCodeKeccak256"]%string = Ok w → get code (js "creationCodeKeccak256") = Ok w.
Proof.
  intros H. unfold code_record in H. take H as c Hc. take H as r Hr. apply Ok_inj in H as <-. split; [done|].
  intros w Hw. rewrite Hc in Hw. by apply Ok_inj in Hw as <-.
Qed.

Lemma registry_record_entries i localnet compiler a record :
  registry_record i localnet compiler a = Ok record →
  is_object record = true ∧ ∃ n f r t, get record (js "entries") = Ok (VArr [n; f; r; t]) ∧
    get n (js "id") = Ok (VStr native_text) ∧ pins factory_id (factory_pin a) f ∧
    pins distributor_id (reward_pin a) r ∧ pins attestation_id (attestation_pin a) t.
Proof.
  intros H. unfold GenerateArtifacts.registry_record in H. take H as ac Hac. take H as dp Hdp. passed H as E1.
  take H as asset Has. take H as na Hna. take H as dt Hdt. take H as da Hda. cbn zeta in H. take H as cs Hcs. take H as ev Hev.
  take H as tc Htc. take H as n Hn. take H as f Hf. take H as r Hr. take H as t Ht. apply Ok_inj in H as <-.
  split; [done|]. exists n, f, r, t. split; [done|]. split.
  { unfold native_registry_entry in Hn. take Hn as x Hx. take Hn as y Hy. by apply Ok_inj in Hn as <-. }
  unfold factory_registry_entry in Hf. take Hf as x Hx. take Hf as c1 C1. apply Ok_inj in Hf as <-.
  unfold reward_registry_entry in Hr. take Hr as y Hy. take Hr as c2 C2. apply Ok_inj in Hr as <-.
  unfold attestation_registry_entry in Ht. take Ht as z Hz. take Ht as c3 C3. apply Ok_inj in Ht as <-.
  apply code_record_Ok in C1 as [O1 W1], C2 as [O2 W2], C3 as [O3 W3].
  split; [|split]; by apply registry_entry_pins.
Qed.

(** An artifact prints without loss when its ABI and its compiler record do. *)
Lemma artifact_record_data cwd' input name source bytes compiler record :
  artifact_record lib keccakBytes cwd' input name source bytes compiler = Ok record → json_data compiler = true →
  (∀ abi, get input (js "abi") = Ok abi → json_data abi = true) → json_data record = true.
Proof.
  intros H Hc Ha. unfold artifact_record in H. passed H as E1. take H as c C. take H as r R. passed H as E2.
  take H as abi Habi. take H as ch Hch. take H as rh Hrh. apply Ok_inj in H as <-. apply Ha in Habi.
  apply json_data_obj. split; [apply all_distinct_spec; vm_compute; reflexivity|]. repeat (constructor; [by split|]). constructor.
Qed.

(** Loading a contract from the files that were written. *)
Lemma written_loads (readFile : jstr → result (list Z)) fs id p e input compiler record :
  made_from input compiler record p → json_data record = true → pins id p e → json_data e = true →
  survives (artifact_path p, artifact_text p) →
  readFile (dest root (artifact_path p)) = Ok (utf8_encode (artifact_text p)) → assoc id fs = Some (reread e) →
  load lib readFile root fs id = Ok (id, (reread e, reread record)).
Proof.
  intros (Hval & Htext & name & source & bytes & Hrec) Hjr (Ho & Hid & Hpath & Hsha & code & Hcode & Hco & Hcw) Hje Hs Hread Ha.
  apply artifact_record_code in Hrec as (Hor & creation & hash & bytecode & Hk & Hb & Hob & Hc & Hh).
  assert (walk (artifact_value p) ["bytecode"; "creationCodeKeccak256"]%string = Ok (VStr hash)) as Hw.
  { rewrite Hval. unfold walk. destruct (get_Ok _ _ _ Hb) as [N1 F1].
    assert (get (stableValue collate record) (js "bytecode") = Ok (stableValue collate bytecode)) as ->.
    { unfold get. rewrite (field_stable collate), <- F1 by done. by destruct record. }
    cbn [mbind result_bind]. assert (json_data bytecode = true) as Hjb
      by (eapply json_data_get; [exact Hjr|done|exact Hb|by destruct bytecode]).
    destruct (get_Ok _ _ _ Hh) as [N2 F2]. unfold get. rewrite (field_stable collate), <- F2 by done.
    by destruct bytecode. }
  specialize (Hcw _ Hw). unfold load. rewrite Ha. change (default VUndef (Some (reread e))) with (reread e).
  assert (truthy (reread e) = true) as -> by by destruct e. cbn [assert mbind result_bind].
  rewrite (get_reread _ _ _ Hje Hpath), reread_text. cbn [mbind result_bind join_path].
  change (path_join [root; artifact_path p]) with (dest root (artifact_path p)). rewrite Hread. cbn [mbind result_bind].
  rewrite (get_reread _ _ _ Hje Hsha), reread_text. cbn [mbind result_bind].
  unfold sha256_text. unfold assert at 1. rewrite (proj2 (same_value_text _ _) eq_refl). cbn [mbind result_bind].
  unfold survives in Hs. cbn [snd] in Hs. rewrite Hs, Htext, Hval.
  rewrite (jsonText_read collate) by by apply (json_data_stable collate). cbn [mbind result_bind].
  change (stableValue collate (stableValue collate record)) with (reread record).
  rewrite (walk_reread record "bytecode" "creation" bytecode (VStr creation)) by done. rewrite reread_text. cbn [mbind result_bind].
  rewrite Hk. cbn [mbind result_bind].
  rewrite (walk_reread e "code" "creationCodeKeccak256" code (VStr hash)) by done. rewrite reread_text. cbn [mbind result_bind].
  unfold assert. by rewrite (proj2 (same_value_text _ _) eq_refl).
Qed.

(** A run that wrote everything, and the files as others read them afterwards. *)
Section wrote.
Context (s s' : disk) (r : jstr) (generated : list (jstr * jstr)).
Context (made : generate_on s r = Ok generated) (complete : written processId root generated s s' true).
Context (text_survives : Forall survives generated).

Definition readFile : jstr → result (list Z) := read_file (read_disk fault s').

Lemma written_file rel text : (rel, text) ∈ generated → readFile (dest root rel) = Ok (utf8_encode text).
Proof.
  intros Hx. unfold readFile, read_file. rewrite read_disk_at. destruct complete as [_ Hw].
  pose proof (proj2 (Hw _ Hx) eq_refl) as E. cbn [fst snd] in E. by rewrite E.
Qed.

Lemma written_survives x : x ∈ generated → survives x.
Proof. intros Hx. by apply (proj1 (Forall_forall _ _) text_survives). Qed.

(** Whether everything that goes into the registry and the artifacts prints without
    loss: nothing is undefined, and every number is a safe integer. *)
Definition lossless : Prop := ∀ i localnet compiler a record,
  readInputs (read_disk fault s) root r = Ok i → find_localnet i = Ok localnet →
  buildCompiler (in_toolchain i) (in_foundryConfig i) = Ok compiler →
  build_artifacts (read_disk fault s) i compiler = Ok a → registry_record i localnet compiler a = Ok record →
  json_data record = true ∧ json_data compiler = true ∧
  ∀ input abi, input ∈ [in_factory i; in_reward i; in_attestation i] → get input (js "abi") = Ok abi → json_data abi = true.

Context (printable : lossless).

Lemma entry_data fs n f g t :
  json_data fs = true → is_object fs = true → get fs (js "entries") = Ok (VArr [n; f; g; t]) →
  json_data f = true ∧ json_data g = true ∧ json_data t = true.
Proof.
  intros Hj Ho He. assert (json_data (VArr [n; f; g; t]) = true) as Ha by by eapply json_data_get.
  apply json_data_arr in Ha. rewrite !Forall_cons in Ha. naive_solver.
Qed.

(** C19. What the generator writes can be deployed: after a run that wrote everything,
    the deployment script finds the three contracts in the generated registry, and
    their generated artifacts pass its checksum and creation code checks, so that
    nothing but its arguments, its environment and its configuration can still stop
    it before it asks the endpoint. *)
Theorem generated_files_deploy :
  ∃ localnet artifacts,
    readRepositoryJson readFile root registry_file = Ok localnet ∧ text_ids localnet ∧
    map fst artifacts = contract_ids ∧
    ∀ env argv o config checked,
      parseArguments argv = Ok o → env_given env "TORIUM_DEPLOY_RPC_URL" ≠ None →
      Deploy.readJson readFile (configPath o) = Ok config → checkConfig lib config = Ok checked →
      prepare lib readFile env root argv = Ok (o, config, checked, artifacts).
Proof.
  pose proof made as (i & l & c & a & rec & abis & deps & index & docs & Hi & Hl & Hc & Ha & Hrec & Hall)%generate_Ok.
  destruct (printable _ _ _ _ _ Hi Hl Hc Ha Hrec) as (Hjr & Hjc & Hja).
  apply build_artifacts_made in Ha as (nr & fr & rr & ar & [_ Mf Mr Ma _]).
  destruct (registry_record_entries _ _ _ _ _ Hrec) as (Hor & n & f & g & t & He & Hn & Pf & Pg & Pt).
  destruct (entry_data _ _ _ _ _ Hjr Hor He) as (Jf & Jg & Jt).
  assert (four_entries (reread rec) (reread n) (reread f) (reread g) (reread t)) as four.
  { assert (json_data (VArr [n; f; g; t]) = true) as Hd by exact (json_data_get _ _ _ Hjr Hor He ltac:(done)).
    apply json_data_arr in Hd. apply Forall_cons in Hd as [Jn _].
    split; [exact (get_reread _ _ _ Hjr He)|exact (get_reread _ _ _ Jn Hn)|..].
    - destruct Pf as (_ & Hid & _). exact (get_reread _ _ _ Jf Hid).
    - destruct Pg as (_ & Hid & _). exact (get_reread _ _ _ Jg Hid).
    - destruct Pt as (_ & Hid & _). exact (get_reread _ _ _ Jt Hid). }
  set (d := Documents (reread rec) VNull VNull VNull VNull VNull VNull VNull).
  assert (readRepositoryJson readFile root registry_file = Ok (reread rec)) as Hreg.
  { assert ((registry_file, jsonText collate (stableValue collate rec)) ∈ generated) as Hin by (rewrite Hall; unfold outputs; set_solver).
    unfold readRepositoryJson, Deploy.readJson. change (path_join [root; registry_file]) with (dest root registry_file).
    rewrite (written_file _ _ Hin). cbn [mbind result_bind]. pose proof (written_survives _ Hin) as Hs.
    unfold survives in Hs. cbn [snd] in Hs. rewrite Hs. apply (jsonText_read collate). by apply (json_data_stable collate). }
  assert (∀ input p rec id e, (artifact_path p, artifact_text p) ∈ generated → made_from input c rec p →
    input ∈ [in_factory i; in_reward i; in_attestation i] →
    pins id p e → json_data e = true → assoc id (pinned_entries (reread n) (reread f) (reread g) (reread t)) = Some (reread e) →
    load lib readFile root (pinned_entries (reread n) (reread f) (reread g) (reread t)) id = Ok (id, (reread e, reread rec))) as Hload.
  { intros input p rec' id e Hin Hm Hi' Hp Hje Has. eapply written_loads; [done| |done..|by apply written_survives|by apply written_file|done].
    destruct Hm as (_ & _ & name & source & bytes & Hrec'). eapply artifact_record_data; [done..|]. intros abi. by apply Hja. }
  exists (reread rec), [(factory_id, (reread f, reread fr)); (attestation_id, (reread t, reread ar)); (distributor_id, (reread g, reread rr))].
  split; [done|]. split; [exact (text_ids_four d _ _ _ _ four)|]. split; [done|].
  intros env argv o config checked Ho Hev Hcf Hch. unfold prepare. rewrite Ho. cbn [mbind result_bind].
  destruct (env_given env _); [|done]. rewrite Hcf. cbn [mbind result_bind]. rewrite Hch. cbn [mbind result_bind].
  change (js "contracts/deployments/localnet.json") with registry_file. rewrite Hreg. cbn [mbind result_bind].
  rewrite (pin_four d _ _ _ _ four : pin (reread rec) = _). cbn [mbind result_bind]. unfold contract_ids. cbn [map_res].
  rewrite (Hload (in_factory i) (factory_pin a) fr factory_id f), (Hload (in_attestation i) (attestation_pin a) ar attestation_id t),
    (Hload (in_reward i) (reward_pin a) rr distributor_id g); try done.
  all: first [by (rewrite Hall; unfold outputs; set_solver)|set_solver].
Qed.

(** ** The checksum file *)

Context (plain : jstr → bool) (laws : collates collate plain).
(** The collation orders the names of the generated files by code units. *)
Context (file_order : ∀ p q, p ∈ canonical_files → q ∈ canonical_files → collate p q = jstr_leb p q).

Definition sorted_files (l : list (jstr * jstr)) : list (jstr * jstr) := merge_sort (entry_before collate) l.

Lemma sorted_files_listed l : map fst l = take 9 output_files → map fst (sorted_files l) = listed.
Proof.
  intros Hl. assert (map fst (sorted_files l) ≡ₚ canonical_files) as Hp.
  { unfold sorted_files. rewrite merge_sort_Permutation, Hl. apply sort_strings_eq. vm_compute. reflexivity. }
  apply (StronglySorted_unique jstr_le).
  - assert (StronglySorted (entry_before collate) (sorted_files l)) as Hs.
    { unfold sorted_files. pose proof (before_total collate plain laws jstr). pose proof (before_trans collate plain laws jstr).
      apply (StronglySorted_merge_sort (entry_before collate)). }
    assert (Forall (λ x, fst x ∈ canonical_files) (sorted_files l)) as Hin.
    { apply Forall_forall. intros x Hx. rewrite <- Hp. apply elem_of_map. by exists x. }
    clear Hp Hl. induction Hs as [|x k Hs IH Hx]; [constructor|]. apply Forall_cons in Hin as [Hx' Hin].
    cbn [map]. constructor; [by apply IH|]. apply Forall_map. rewrite Forall_forall in *. intros y Hy.
    unfold jstr_le. rewrite <- file_order; [by apply Hx|done|by apply Hin].
  - rewrite listed_sorted. apply (StronglySorted_merge_sort jstr_le).
  - rewrite Hp. symmetry. apply sort_strings_perm.
Qed.

Lemma trim_end_line b c : is_space c = false → trim_end ((b ++ [c]) ++ [10%N]) = b ++ [c].
Proof.
  intros Hc. unfold trim_end, trim_start. rewrite !reverse_snoc.
  change (span is_space (10%N :: c :: reverse b)) with
    (let '(u, v) := span is_space (c :: reverse b) in (10%N :: u, v)).
  cbn [span]. rewrite Hc. cbn [snd]. rewrite reverse_cons, reverse_involutive. done.
Qed.

Lemma join_last sep l x : ∃ y, join [sep] (l ++ [x]) = y ++ x.
Proof.
  induction l as [|z l [y IH]]; [by exists []|]. destruct l as [|z' l].
  - exists (z ++ [sep]). cbn [app join]. unfold jcat. by rewrite <- app_assoc.
  - exists (z ++ [sep] ++ y). change (join [sep] ((z :: z' :: l) ++ [x])) with (z ++ [sep] ++ join [sep] ((z' :: l) ++ [x])).
    by rewrite IH, <- !app_assoc.
Qed.

Lemma checksum_lines_entries l :
  checksum_lines lib (map fst l) (map (λ x, utf8_encode (snd x)) l) = map (checksum_entry lib) l.
Proof. induction l as [|[p c] l IH]; [done|]. cbn [map]. unfold checksum_lines in *. cbn [zip_with]. by rewrite IH. Qed.

Lemma checksums_trimmed l :
  map fst l = listed → trim_end (join [10%N] (map (checksum_entry lib) l) +++ [10%N]) = join [10%N] (map (checksum_entry lib) l).
Proof.
  intros Hl. destruct l as [|x k _] using rev_ind; [done|]. rewrite map_app. cbn [map].
  destruct (join_last 10 (map (checksum_entry lib) k) (checksum_entry lib x)) as [y ->].
  assert (∃ z c, fst x = z ++ [c] ∧ is_space c = false) as (z & c & Hx & Hc).
  { assert (Forall (λ p, match reverse p with c :: _ => negb (is_space c) | [] => false end = true) listed) as Hf
      by (apply forallb_spec; vm_compute; reflexivity).
    rewrite <- Hl, map_app, Forall_app in Hf. destruct Hf as [_ Hf]. apply Forall_cons in Hf as [Hf _].
    destruct (fst x) as [|c z _] using rev_ind; [done|]. rewrite reverse_snoc in Hf. exists z, c. split; [done|].
    by apply negb_true_iff in Hf. }
  unfold checksum_entry, jcat. rewrite Hx, !app_assoc. by apply trim_end_line.
Qed.

(** The generated checksum file passes the validator: after a run that wrote
    everything, SHA256SUMS lists every generated file once, in the order and with
    the digest of the bytes that the validator computes. *)
Theorem generated_checksums_validate : hex_digests lib → validateChecksums lib readFile root = Ok ().
Proof.
  intros Hx. pose proof made as (i & l & c & a & rec & abis & deps & index & docs & _ & _ & _ & Ha & _ & Hall)%generate_Ok.
  pose proof (generate_files _ _ _ made) as Hf. set (out := outputs a rec abis deps index docs) in *.
  assert (map fst out = take 9 output_files) as Hout.
  { rewrite Hall, map_app in Hf. apply (f_equal (take 9)) in Hf. rewrite <- Hf. by rewrite take_app_length'. }
  pose proof (sorted_files_listed out Hout) as Hl.
  assert (∀ rel text, (rel, text) ∈ generated → readBytes readFile root rel = Ok (utf8_encode text)) as Hread.
  { intros rel text Hin. unfold readBytes, absolute.
    assert (forallb (λ rel, negb (is_absolute rel) && negb (includes (js "..") rel)) output_files = true) as Habs by (vm_compute; reflexivity).
    apply forallb_spec in Habs. rewrite Forall_forall in Habs.
    assert (rel ∈ output_files) as Ho by (rewrite <- Hf; apply elem_of_map; by exists (rel, text)).
    apply Habs in Ho. apply andb_true_iff in Ho as [H1 H2]. rewrite H1, H2. cbn [assert mbind result_bind].
    by apply written_file. }
  apply (checksums_accepted lib id id collate readFile root
    (checksums_of lib collate out) (map (λ x, utf8_encode (snd x)) (sorted_files out))).
  - exact Hx.
  - unfold readText. assert ((checksums_file, checksums_of lib collate out) ∈ generated) as Hin by (rewrite Hall; apply elem_of_app; right; by apply list_elem_of_singleton).
    rewrite (Hread _ _ Hin). cbn [mbind result_bind]. pose proof (written_survives _ Hin) as Hs. unfold survives in Hs.
    cbn [snd] in Hs. by rewrite Hs.
  - apply ends_with_spec. by eexists.
  - rewrite <- Hl. assert (∀ x, x ∈ sorted_files out → x ∈ generated) as Hsub.
    { intros x Hin. unfold sorted_files in Hin. rewrite merge_sort_Permutation in Hin. rewrite Hall. apply elem_of_app. by left. }
    clear Hl. induction (sorted_files out) as [|[p t] k IH]; [constructor|]. cbn [map]. constructor.
    + apply Hread, Hsub. left.
    + apply IH. intros x Hin. apply Hsub. by right.
  - rewrite <- Hl, checksum_lines_entries. by apply checksums_trimmed.
Qed.

End wrote.
End generation.
