(* ===== verification/GenerateSamples.v ===== *)
(** A small repository: its artifacts, registry, SDK modules, documentation manifest
    and checksum file are generated, checked, validated and loaded for deployment. *)

From stdpp Require Import gmap.
From S2P Require Import Prelude JsNum JsText JsUtf8 JsValue JsOps JsonText JsPath Deploy DeployFacts GeneratedFiles GeneratedFilesFacts TestnetRegistryFacts LocalnetRegistry LocalnetRegistryFacts GenerateArtifacts GenerateArtifactsFacts.

Open Scope Z_scope.

(** ** A library *)

Definition sample_root : jstr := js "/srv/tree".
Definition gas_snapshot : list Z := utf8_encode (js "testGasAttest() (gas: 1)").

(** [n] lowercase hexadecimal digits of [z]. *)
Fixpoint digits (n : nat) (z : Z) : jstr :=
  match n with
  | 0%nat => []
  | S n' => digits n' (z / 16) ++ [hex_digit (z mod 16)]
  end.

Definition checksum (b : list Z) : jstr :=
  digits 64 (fold_left (λ h x, Z.land (h * 31 + x + 7) 1073741823) b 1).

(** The checksum of the gas snapshot is the one that the validator names. *)
Definition sample_sha256 (b : list Z) : jstr :=
  if bool_decide (b = gas_snapshot) then v_str gas_snapshot_hash else checksum b.

Definition sample_keccak (b : list Z) : jstr := js "0x" +++ checksum b.

Definition sample_lib : library := Library
  (λ v, match v with VStr s => Ok (sample_keccak (utf8_encode s)) | _ => type_error (js "not bytes") end)
  sample_sha256
  (λ v, Ok (v_str v)) (λ l, Ok (concat (map v_str l))) (λ _ _, Ok (js "0x"))
  (λ v, match v with VStr s => Ok s | _ => type_error (js "invalid address") end)
  (λ a n, js "0x" +++ digits 40 (Z.of_nat (length a) + n)) (λ f s h, f +++ s +++ h) (λ _, Ok (js "0x")).

Lemma digits_hex n z : length (digits n z) = n ∧ forallb is_lower_hex (digits n z) = true.
Proof.
  revert z. induction n as [|n IH]; intros z; [done|]. cbn [digits]. destruct (IH (z / 16)) as [Hl Hh].
  rewrite length_app, forallb_app, Hl, Hh. split; [cbn; lia|]. cbn [forallb].
  pose proof (Z.mod_pos_bound z 16 ltac:(lia)) as Hb. set (m := z mod 16) in *. clearbody m.
  assert (m = 0 ∨ m = 1 ∨ m = 2 ∨ m = 3 ∨ m = 4 ∨ m = 5 ∨ m = 6 ∨ m = 7 ∨ m = 8 ∨ m = 9 ∨ m = 10 ∨ m = 11 ∨ m = 12
    ∨ m = 13 ∨ m = 14 ∨ m = 15) as Hm by lia.
  by repeat destruct Hm as [->|Hm]; subst.
Qed.

Lemma sample_digests : hex_digests sample_lib.
Proof.
  intros b. cbn [sha256 sample_lib]. unfold sample_sha256. case_bool_decide; [vm_compute; reflexivity|].
  unfold is_hash_text, checksum. destruct (digits_hex 64 (fold_left (λ h x, Z.land (h * 31 + x + 7) 1073741823) b 1)) as [Hl Hh].
  by rewrite Hl, Hh.
Qed.

Lemma code_unit_collates : collates jstr_leb (λ _, true).
Proof.
  split.
  - intros a b. exact (jstr_le_total a b).
  - intros a b c. exact (jstr_le_trans a b c).
  - intros a b _ _. exact (jstr_le_antisymm a b).
Qed.

(** ** Its inputs *)

Definition sample_toolchain : value := VObj [
  "contracts" :=: VObj [
    "foundry" :=: VObj ["version" :=: vs "1.0.0"; "image" :=: vs "foundry"];
    "solidity" :=: VObj ["version" :=: vs "0.8.30"; "longVersion" :=: vs "0.8.30+commit"; "image" :=: vs "solc"];
    "openZeppelin" :=: VObj ["version" :=: vs "5.4.0"]];
  "quality" :=: VObj ["prettier" :=: VObj ["version" :=: vs "3.6.2"]]]%js.

Definition sample_identifiers : value := VObj ["networks" :=: VArr [VObj [
  "environment" :=: vs "localnet"; "cosmos" :=: VObj ["chainId" :=: vs "torium-1"];
  "evm" :=: VObj ["chainId" :=: vi 7]]]]%js.

Definition sample_foundry : jstr := join [13; 10]%N (required_settings (js "0.8.30")).

Definition sample_native : string := "0xaa".

Definition sample_manifest : value := VObj [
  "cosmos_chain_id" :=: vs "torium-1"; "evm_chain_id" :=: vi 7;
  "native_asset" :=: VObj ["solidity_precompile_address" :=: vs sample_native];
  "development_accounts" :=: VArr [VObj ["name" :=: vs "faucet"];
     VObj ["name" :=: vs "deployer"; "evm_address" :=: vs "0xdd"]]]%js.

Definition sample_genesis : value := VObj [
  "chain_id" :=: vs "torium-1";
  "app_state" :=: VObj [
    "erc20" :=: VObj ["native_precompiles" :=: VArr [vs sample_native]];
    "evm" :=: VObj ["preinstalls" :=: VArr []]]]%js.

Definition sample_source (name : jstr) : list Z := utf8_encode (js "contract " +++ name).

Definition sample_output (name source target code : jstr) (abi : list value) : value := VObj [
  "abi" :=: VArr abi;
  "bytecode" :=: VObj ["object" :=: VStr code; "linkReferences" :=: VObj []];
  "deployedBytecode" :=: VObj ["object" :=: VStr code; "linkReferences" :=: VObj []];
  "metadata" :=: VObj [
    "compiler" :=: VObj ["version" :=: vs "0.8.30+commit"];
    "settings" :=: VObj [
      "evmVersion" :=: vs "prague"; "optimizer" :=: VObj ["enabled" :=: VBool true; "runs" :=: vi 200];
      "metadata" :=: VObj ["bytecodeHash" :=: vs "none"; "appendCBOR" :=: VBool false];
      "compilationTarget" :=: VObj [(target, VStr name)]];
    "sources" :=: VObj [(target, VObj ["keccak256" :=: VStr (sample_keccak (sample_source name))])]]]%js.

Definition reward_inputs : list value := [
  constructor_input "defaultAdminDelay_" "uint48"; constructor_input "initialAdmin_" "address";
  constructor_input "initialPublisher_" "address"; constructor_input "initialPauser_" "address";
  constructor_input "initialClawbackOperator_" "address"; constructor_input "treasury_" "address";
  constructor_input "publicationDelay_" "uint64"; constructor_input "clawbackDelay_" "uint64"].

(** A parameter of a shape is an array of its name and its type. *)
Definition parameter (p : value) : value :=
  match p with VArr [n; t] => VObj ["type" :=: t; "name" :=: n]%js | _ => VNull end.
Definition parameters (p : value) : value := match p with VArr l => VArr (map parameter l) | _ => VNull end.

Definition attestation_abi : list value := map (λ f : string * value * value, let '(name, i, o) := f in
  VObj ["type" :=: vs "function"; "name" :=: vs name; "inputs" :=: parameters i; "outputs" :=: parameters o]%js)
  attestation_functions.

Definition sample_rewards : value := VObj [
  "schemaVersion" :=: vi 1; "generatedBy" :=: vs "contracts/scripts/generate-reward-fixture.mjs";
  "treeFormat" :=: VObj [
    "id" :=: vs "torium-merkle-sum-v1";
    "leafHash" :=: vs "keccak256(abi.encode(uint256 epochId,uint256 index,address account,uint256 amount))";
    "parentHash" :=: vs "keccak256(abi.encode(bytes32 leftHash,uint256 leftSum,bytes32 rightHash,uint256 rightSum))"];
  "epochId" :=: vs "1"; "merkleRoot" :=: VStr (sample_keccak []); "rootSum" :=: vs "10";
  "claimCount" :=: vi 1; "claims" :=: VArr [VNull];
  "integrity" :=: VObj ["algorithm" :=: vs "sha256"; "outputPayloadSha256" :=: VStr (checksum [])]]%js.

Definition sample_vector (name : value) : value := VObj [
  "name" :=: name;
  "expected" :=: VObj (map (λ k, (js k, VStr (sample_keccak [])))
    ["contentHash"; "metadataHash"; "metadataUriHash"; "commitment"; "attestationId"]%string)]%js.

Definition sample_attestations : value := VObj [
  "schemaVersion" :=: vi 1; "vectorSet" :=: vs "torium-attestation-canonical-hash-v1";
  "verifiedBy" :=: vs "contracts/scripts/validate-attestation-vectors.mjs";
  "algorithm" :=: expected_algorithm; "nonClaims" :=: expected_non_claims;
  "vectors" :=: match expected_vectors with VArr l => VArr (map sample_vector l) | _ => VNull end]%js.

Definition sample_code (code : jstr) : value := VObj ["runtimeCodeKeccak256" :=: VStr (sample_keccak (utf8_encode code))]%js.

Definition sample_deployed (id a code : jstr) : value := VObj [
  "id" :=: VStr id; "address" :=: VStr a; "implementationVersion" :=: vs "1.0.0"; "codeIdentity" :=: sample_code code;
  "deployment" :=: VObj ["transactionHash" :=: vs "0x1"]]%js.

Definition factory_code : jstr := js "0x6001".
Definition reward_code : jstr := js "0x6002".
Definition attestation_code : jstr := js "0x6003".

Definition sample_testnet : value := VObj [
  "schemaVersion" :=: vi 1; "registryVersion" :=: vs "0.2.0"; "environment" :=: vs "testnet";
  "releaseStatus" :=: vs "testnet"; "chain" :=: VObj ["evmChainId" :=: vi 8];
  "entries" :=: VArr [
    VObj ["id" :=: VStr native_text; "address" :=: vs sample_native; "implementationVersion" :=: vs "protocol-v1"];
    sample_deployed factory_id (js "0xf") factory_code; sample_deployed distributor_id (js "0xd") reward_code;
    sample_deployed attestation_id (js "0xa") attestation_code]]%js.

Definition json_file (path : jstr) (v : value) : jstr * list Z := (path_join [sample_root; path], utf8_encode (stringify 0 0 v)).
Definition bytes_file (path : jstr) (b : list Z) : jstr * list Z := (path_join [sample_root; path], b).

Definition output_root : jstr := js ".work/out".

Definition output_file (name source target code : jstr) (abi : list value) : list (jstr * list Z) := [
  json_file (foundry_path output_root name) (sample_output name source target code abi);
  bytes_file source (sample_source name)].

Definition sample_package : jstr := js "/srv/modules/prettier/package.json".

Definition sample_disk : gmap jstr (list Z) := list_to_map ([
  json_file toolchain_file sample_toolchain; json_file identifiers_file sample_identifiers;
  bytes_file (js "contracts/foundry.toml") (utf8_encode sample_foundry);
  json_file genesis_manifest_file sample_manifest; json_file genesis_file sample_genesis;
  json_file reward_fixture_file sample_rewards; json_file attestation_fixture_file sample_attestations;
  bytes_file gas_snapshot_file gas_snapshot; json_file (js "contracts/deployments/testnet.json") sample_testnet;
  (sample_package, utf8_encode (stringify 0 0 (VObj ["version" :=: vs "3.6.2"]%js)))]
  ++ output_file native_name native_source (js "src/interfaces/IToriumNative.sol") (js "0x") []
  ++ output_file factory_name factory_source (js "src/deployment/ToriumCreate2Factory.sol") factory_code []
  ++ output_file reward_name reward_source (js "src/rewards/ToriumRewardDistributor.sol") reward_code
       [VObj ["type" :=: vs "constructor"; "inputs" :=: VArr reward_inputs]%js]
  ++ output_file attestation_name attestation_source (js "src/attestations/ToriumAttestationRegistry.sol")
       attestation_code attestation_abi).

(** ** A run *)

Definition no_fault (s : gmap jstr (list Z)) (o : operation) : option exn := None.
Definition no_torn (path : jstr) (b : list Z) : option (list Z) := None.
Definition sample_resolve (name : jstr) : result jstr := Ok (js "/srv/modules/" +++ name).

Abbreviation sample_generate :=
  (generateArtifacts no_fault no_torn 7 sample_root sample_lib sample_keccak to_upper jstr_leb (js "/srv")
    sample_resolve (λ _ source, Ok source)).
Abbreviation sample_generate_on :=
  (generate_on no_fault sample_root sample_lib sample_keccak to_upper jstr_leb (js "/srv")
    sample_resolve (λ _ source, Ok source)).

Abbreviation sample_run := (sample_generate [] sample_disk).
Abbreviation sample_after := (snd sample_run).
Abbreviation sample_made := (sample_generate_on sample_disk output_root).

Definition ok_or {A} (d : A) (x : result A) : A := match x with Ok a => a | Throw _ => d end.
Abbreviation sample_generated := (ok_or [] sample_made).

(** What a review reads besides. *)

Definition sample_schema : value := VObj [
  "required" :=: texts ["entries"; "toolchain"; "chain"; "releaseStatus"; "environment"; "generatedBy";
     "registryVersion"; "schemaVersion"; "$schema"]%string;
  "additionalProperties" :=: VBool false;
  "$defs" :=: VObj ["entry" :=: VObj ["required" :=: texts ["id"; "contractName"; "address"; "classification"; "status";
     "implementationVersion"; "upgradeModel"; "artifactPath"; "artifactSha256"; "abiSha256"; "code"; "deployment";
     "configuration"; "roles"; "verification"]%string]]]%js.

Definition sample_components : value := VObj [
  "genesisPredeployPolicy" :=: VObj [
    "toriumAuthoredSolidityPredeploys" :=: VArr []; "futureAdditionRequiresAdr" :=: VBool true;
    "requiredEvidence" :=: texts ["deterministic-state-allocation"; "bytecode-and-storage-hash-fixtures";
       "upgrade-and-migration-rules"; "evm-conformance-coverage"]%string];
  "components" :=: VArr [
    VObj ["id" :=: vs "upstream-evm-precompiles"]; VObj ["id" :=: vs "cosmos-evm-precompiles"];
    VObj ["id" :=: VStr native_text; "classification" :=: vs "protocol-precompile"; "status" :=: vs "active"];
    planned_component factory_id; planned_component distributor_id; planned_component attestation_id]]%js.

Definition review_files : list (jstr * list Z) := [
  json_file schema_file sample_schema; json_file components_file sample_components;
  json_file components_schema_file (VObj [])].

Definition reviewed (after : gmap jstr (list Z)) (path : jstr) : result (list Z) :=
  match assoc path review_files with Some b => Ok b | None => readFile no_fault after path end.

Abbreviation sample_validate after := (validateRegistry sample_lib (λ _, Ok true) TestnetSamples.accept_all id to_upper
  jstr_leb (reviewed after) sample_root).

Definition generated_message : jstr := js "Generated 10 deterministic contract files.".

Definition utf8 (b : list Z) : Prop := utf8_encode (utf8_decode b) = b.

(** Whether a message or a text is the expected one. *)
Definition says (x : result jstr) (message : jstr) : bool := match x with Ok m => m =s? message | Throw _ => false end.

(** Everything that is evaluated about the run. *)
Definition run_checks (made : result (list (jstr * jstr))) (run : result jstr * gmap jstr (list Z)) : bool :=
  is_ok made && forallb (λ x, bool_decide (survives x)) (ok_or [] made) && says (fst run) generated_message
  && bool_decide (map_Forall (λ _ b, utf8_encode (utf8_decode b) = b) (snd run))
  && says (sample_validate (snd run)) registry_success.

Lemma says_Ok x m : says x m = true → x = Ok m.
Proof. destruct x; [|done]. by intros ->%jeq_spec. Qed.

Lemma run_checks_spec made run : run_checks made run = true →
  is_ok made = true ∧ Forall survives (ok_or [] made) ∧ fst run = Ok generated_message ∧
  map_Forall (λ _, utf8) (snd run) ∧ sample_validate (snd run) = Ok registry_success.
Proof.
  unfold run_checks. rewrite !andb_true_iff. intros [[[[H1 H2] H3] H4] H5].
  apply forallb_spec in H2. apply bool_decide_eq_true in H4. apply says_Ok in H3, H5.
  split; [done|]. split; [|done]. eapply Forall_impl; [exact H2|]. intros x. apply bool_decide_eq_true.
Qed.

Lemma ok_or_Ok {A} (d : A) x : is_ok x = true → x = Ok (ok_or d x).
Proof. by destruct x. Qed.
Lemma ran {A B} (p : A * B) x : fst p = x → p = (x, snd p).
Proof. by destruct p; cbn; intros ->. Qed.

Lemma sample_run_checks : run_checks sample_made sample_run = true.
Proof. vm_compute. reflexivity. Qed.

Lemma generator_runs : sample_run = (Ok generated_message, sample_after).
Proof. exact (ran sample_run _ (proj1 (proj2 (proj2 (run_checks_spec _ _ sample_run_checks))))). Qed.

Lemma sample_absolute : is_absolute sample_root = true.
Proof. vm_compute. reflexivity. Qed.

Lemma sample_process : 0 ≤ 7.
Proof. lia. Qed.

Lemma sample_reads s p : no_fault s (ReadFile p) = None.
Proof. reflexivity. Qed.

Lemma sample_package_apart p rel :
  sample_resolve (js "prettier/package.json") = Ok p → rel ∈ output_files → ¬ touched 7 sample_root rel p.
Proof.
  intros [= <-] Hr Ht.
  assert (forallb (λ rel, negb (sample_package =s? dest sample_root rel)
    && negb (sample_package =s? temporary 7 (dest sample_root rel))) output_files = true) as Hall by (vm_compute; reflexivity).
  apply forallb_spec in Hall. rewrite Forall_forall in Hall. apply Hall in Hr. apply andb_true_iff in Hr as [H1 H2].
  apply negb_true_iff in H1, H2. destruct Ht as [Ht|Ht]; rewrite <- Ht in *; [by rewrite jeq_refl in H1|by rewrite jeq_refl in H2].
Qed.

Lemma sample_writes : parseGenerate [] = Ok (GenerateOptions false output_root).
Proof. vm_compute. reflexivity. Qed.

Lemma sample_checks : parseGenerate [js "--check"; js "--artifacts"; js "./.work/out"] = Ok (GenerateOptions true output_root).
Proof. vm_compute. reflexivity. Qed.

Lemma sample_made_ok : sample_made = Ok sample_generated.
Proof. exact (ok_or_Ok [] sample_made (proj1 (run_checks_spec _ _ sample_run_checks))). Qed.

Lemma sample_complete : written 7 sample_root sample_generated sample_disk sample_after true.
Proof.
  destruct (generateArtifacts_wrote sample_lib sample_keccak to_upper jstr_leb (js "/srv") sample_root sample_resolve
    (λ _ source, Ok source) sample_absolute 7 sample_process no_fault no_torn _ _ _ _ _ sample_writes generator_runs)
    as (g & Hg & _ & Hw).
  rewrite sample_made_ok in Hg. by apply Ok_inj in Hg as <-.
Qed.

Lemma sample_survives : Forall survives sample_generated.
Proof. exact (proj1 (proj2 (run_checks_spec _ _ sample_run_checks))). Qed.

(** ** The witnesses about the generator *)

Lemma generation_atomic_witness : map fst sample_generated = output_files.
Proof.
  pose proof (generation_atomic sample_lib sample_keccak to_upper jstr_leb (js "/srv") sample_root sample_resolve
    (λ _ source, Ok source) sample_absolute 7 sample_process no_fault no_torn [] sample_disk _ sample_after generator_runs) as H.
  rewrite sample_writes in H. cbn [artifactsRoot] in H. rewrite sample_made_ok in H. exact (proj1 H).
Defined.

Lemma generate_then_check_witness :
  sample_generate [js "--check"; js "--artifacts"; js "./.work/out"] sample_after
  = (Ok (js "Verified 10 generated contract files."), sample_after).
Proof.
  destruct (generate_then_check sample_lib sample_keccak to_upper jstr_leb (js "/srv") sample_root sample_resolve
    (λ _ source, Ok source) sample_absolute 7 sample_process no_fault no_torn sample_reads sample_package_apart
    [] _ output_root sample_disk _ sample_after sample_writes sample_checks generator_runs) as (g & Hg & Hok & _).
  apply Hok. rewrite sample_made_ok in Hg. apply Ok_inj in Hg as <-. exact sample_survives.
Defined.

Lemma generated_checksums_validate_witness :
  validateChecksums sample_lib (readFile no_fault sample_after) sample_root = Ok ().
Proof.
  exact (generated_checksums_validate sample_lib sample_keccak to_upper jstr_leb (js "/srv") sample_root sample_resolve
    (λ _ source, Ok source) 7 no_fault sample_reads
    sample_disk sample_after output_root sample_generated sample_made_ok sample_complete sample_survives
    (λ _, true) code_unit_collates (λ _ _ _ _, eq_refl) sample_digests).
Defined.

(** Whether what comes out of a computation, if anything does, passes a test. *)
Definition passes {A} (x : result A) (f : A → bool) : bool := match x with Ok a => f a | Throw _ => true end.

Lemma passes_Ok {A} (x : result A) f a : x = Ok a → passes x f = true → f a = true.
Proof. by intros ->. Qed.

Definition lossless_b : bool :=
  passes (readInputs (read_disk no_fault sample_disk) sample_root output_root) (λ i,
  passes (find_localnet i) (λ localnet,
  passes (buildCompiler (in_toolchain i) (in_foundryConfig i)) (λ compiler,
  passes (build_artifacts sample_lib sample_keccak jstr_leb (read_disk no_fault sample_disk) (js "/srv") sample_root i compiler) (λ a,
  passes (registry_record sample_lib jstr_leb i localnet compiler a) (λ record,
    json_data record && json_data compiler
    && forallb (λ input, passes (get input (js "abi")) json_data) [in_factory i; in_reward i; in_attestation i]))))).

Lemma sample_lossless : lossless sample_lib sample_keccak jstr_leb (js "/srv") sample_root no_fault sample_disk output_root.
Proof.
  intros i localnet compiler a record Hi Hl Hc Ha Hr.
  assert (lossless_b = true) as H by (vm_compute; reflexivity). unfold lossless_b in H.
  apply (passes_Ok _ _ _ Hi), (passes_Ok _ _ _ Hl), (passes_Ok _ _ _ Hc), (passes_Ok _ _ _ Ha), (passes_Ok _ _ _ Hr) in H.
  apply andb_true_iff in H as [H Hf]. apply andb_true_iff in H as [H1 H2]. split; [done|]. split; [done|].
  intros input abi Hin Hg. apply forallb_spec in Hf. rewrite Forall_forall in Hf. exact (passes_Ok _ _ _ Hg (Hf _ Hin)).
Qed.

Lemma generated_files_deploy_witness :
  ∃ localnet, readRepositoryJson (readFile no_fault sample_after) sample_root registry_file = Ok localnet ∧ text_ids localnet.
Proof.
  destruct (generated_files_deploy sample_lib sample_keccak to_upper jstr_leb (js "/srv") sample_root sample_resolve
    (λ _ source, Ok source) sample_absolute 7 sample_process no_fault no_torn sample_reads sample_package_apart
    sample_disk sample_after output_root sample_generated sample_made_ok sample_complete sample_survives sample_lossless)
    as (localnet & artifacts & H1 & H2 & _).
  exact (ex_intro _ localnet (conj H1 H2)).
Defined.

(** ** The same repository, reviewed *)

Lemma sample_validated : sample_validate sample_after = Ok registry_success.
Proof. exact (proj2 (proj2 (proj2 (proj2 (run_checks_spec _ _ sample_run_checks))))). Qed.

Lemma readFile_Ok (m : gmap jstr (list Z)) p b : readFile no_fault m p = Ok b → m !! p = Some b.
Proof.
  unfold readFile, read_file, read_disk. cbn [no_fault]. destruct (m !! p); [|done]. by intros [= ->].
Qed.

Lemma sample_utf8 p : is_artifact_path p = true → utf8_file (reviewed sample_after) sample_root p.
Proof.
  intros _ s b -> H. unfold reviewed in H.
  assert (Forall (λ x, utf8 (snd x)) review_files) as Hr by (apply (bool_decide_unpack _); vm_compute; exact I).
  pose proof (proj1 (proj2 (proj2 (proj2 (run_checks_spec _ _ sample_run_checks))))) as Ha.
  destruct (assoc _ review_files) as [x|] eqn:E.
  - apply Ok_inj in H as <-. apply assoc_elem in E. rewrite Forall_forall in Hr. exact (Hr _ E).
  - apply readFile_Ok in H. exact (Ha _ _ H).
Qed.

Lemma validated_registry_deploys_witness :
  ∃ localnet artifacts,
    readRepositoryJson (reviewed sample_after) sample_root registry_file = Ok localnet ∧ map fst artifacts = contract_ids ∧
    length (A := jstr * (value * value)) artifacts = 3%nat.
Proof.
  destruct (validated_registry_deploys sample_lib (λ _, Ok true) TestnetSamples.accept_all id to_upper
    jstr_leb (reviewed sample_after) sample_root registry_success sample_validated sample_utf8)
    as (localnet & artifacts & H1 & _ & H3 & _).
  exists localnet, artifacts. refine (conj H1 (conj H3 _)). rewrite <- (length_map fst), H3. reflexivity.
Defined.

Lemma checksums_exact_witness :
  ∃ text, readText (reviewed sample_after) sample_root checksums_file = Ok text ∧ ends_with [10%N] text = true.
Proof.
  destruct (proj1 (checksums_exact sample_lib id to_upper jstr_leb (reviewed sample_after) sample_root sample_digests)
    (validated_checksums _ _ _ _ _ _ _ _ _ sample_validated)) as (text & bodies & H1 & H2 & _).
  exact (ex_intro _ text (conj H1 H2)).
Defined.

(** ** Canonical text *)

Definition two_orders (swap : bool) : value :=
  let a := ("address" :=: vs "0x1")%js in let b := ("decimals" :=: vi 18)%js in
  VArr [VObj (if swap then [b; a] else [a; b]); VBool true].

Lemma stable_json_canonical_witness :
  two_orders true ≠ two_orders false ∧ jsonText jstr_leb (two_orders true) = jsonText jstr_leb (two_orders false).
Proof.
  split; [discriminate|].
  exact (proj2 (proj1 (stable_json_canonical jstr_leb (λ _, true) code_unit_collates (two_orders true) (two_orders false)
    ltac:(vm_compute; reflexivity) ltac:(vm_compute; reflexivity) ltac:(vm_compute; reflexivity) ltac:(vm_compute; reflexivity)))
    ltac:(vm_compute; reflexivity)).
Defined.
