(* ===== verification/NetworkArtifacts.v ===== *)
(** src/chain/releases/generate-network-artifacts-v0.mjs: the bundle of network
    metadata made from the canonical documents, its checksum file, what it must
    satisfy, and how both files are written or checked. *)

From stdpp Require Import gmap.
From S2P Require Import Prelude JsNum JsText JsUtf8 JsValue JsOps JsonText JsPath Deploy GeneratedFiles TestnetRegistry LocalnetRegistry GenerateArtifacts.

Open Scope Z_scope.

(** ** Object literals *)

(** The members of a literal are evaluated in order. *)
Definition literal (members : list (string * result value)) : result value :=
  fs ← map_res (λ p : string * result value, v ← snd p; Ok (js (fst p), v)) members;
  Ok (VObj fs).

Definition text (s : string) : result value := Ok (vs s).
Definition flag (b : bool) : result value := Ok (VBool b).
Definition none : result value := Ok VNull.
Definition empty_array : result value := Ok (VArr []).

(** [...v] in an object literal. *)
Definition spread_members (v : value) : list (jstr * value) :=
  let indexed l := imap (λ i x, (dec_of_Z (Z.of_nat i), x)) l in
  match v with
  | VObj fs => fs
  | VArr l => indexed l
  | VStr s => indexed (map (λ c, VStr [c]) s)
  | _ => []
  end.

(** ** Sources *)

Definition source_paths : list (string * string) := [
  ("identifiers", "chain/config/identifiers.json");
  ("identifierAvailability", "chain/config/identifier-availability.json");
  ("protocol", "chain/config/protocol-v1.json");
  ("genesis", "chain/genesis/localnet/genesis.json");
  ("genesisManifest", "chain/genesis/localnet/manifest.json");
  ("testnetGenesisManifest", "chain/genesis/testnet/manifest.json");
  ("testnetContracts", "contracts/deployments/testnet.json");
  ("recovery", "chain/recovery/recovery-v0.json");
  ("governance", "chain/config/governance-v1.json");
  ("nodeRoles", "chain/profiles/node-roles-v0.json");
  ("sdk", "packages/torium-sdk/package.json");
  ("contracts", "contracts/deployments/localnet.json");
  ("explorerSelection", "chain/explorer/selection-v1.json");
  ("explorerStack", "chain/explorer/stack-v0.json")]%string.

(** The path of a source as a value; every name that is used is listed. *)
Definition source_path (id : string) : result value :=
  Ok (from_option VStr VUndef (assoc (js id) (map (λ p, (js (fst p), js (snd p))) source_paths))).

Record source := Source { source_id : jstr; relativePath : jstr; source_bytes : list Z; source_value : value }.

(** What the version of each kind of source is; all of them are evaluated. *)
Definition sourceVersion (id : jstr) (v : value) : result value :=
  let schema := x ← get v (js "schema_version"); Ok (VStr (js "schema-" +++ to_string x)) in
  versions ← literal [
    ("identifiers", get v (js "manifestVersion")); ("identifierAvailability", get v (js "checkedAt"));
    ("protocol", get v (js "protocolVersion")); ("genesis", text "sha256");
    ("genesisManifest", schema); ("testnetGenesisManifest", schema);
    ("testnetContracts", get v (js "registryVersion")); ("recovery", get v (js "recoveryVersion"));
    ("governance", get v (js "contractVersion")); ("nodeRoles", get v (js "profileVersion"));
    ("sdk", get v (js "version")); ("contracts", get v (js "registryVersion"));
    ("explorerSelection", get v (js "selectionVersion")); ("explorerStack", get v (js "stackVersion"))]%string;
  get versions id.

(** ** The number of a chain in base 16 *)

Section bundle.
Context (lib : library) (ajv : value → result (value → bool * value)).
(** How a number that is not a safe integer prints in base 16. *)
Context (radix16 : num → jstr).

(** [v.toString(16)] *)
Definition to_string_16 (v : value) : result jstr :=
  match v with
  | VUndef | VNull => type_error (js "Cannot read properties of undefined")
  | VNum n => Ok (if v_safe_integer v then
                    (if num_Z n <? 0 then js "-" else []) +++ hex_of_Z (Z.abs (num_Z n))
                  else radix16 n)
  | _ => Ok (to_string v)
  end.

Context (readFile : jstr → result (list Z)) (root : jstr).

Definition bundle_directory : jstr := path_join [root; js "chain/releases"].
Definition beside (name : string) : jstr := path_join [bundle_directory; js name].
Definition outputPath : jstr := beside "network-artifacts-v0.json".
Definition checksumsPath : jstr := beside "SHA256SUMS".

Definition read_source (p : string * string) : result source :=
  bytes ← readFile (path_join [root; js (snd p)]);
  v ← json_parse (utf8_decode bytes);
  Ok (Source (js (fst p)) (js (snd p)) bytes v).

Section sources.
Context (entries : list source).

(** [entries[id].value] *)
Definition entry_value (id : string) : value :=
  match List.find (λ s, source_id s =s? js id) entries with Some s => source_value s | None => VUndef end.
Definition entry_bytes (id : string) : list Z :=
  match List.find (λ s, source_id s =s? js id) entries with Some s => source_bytes s | None => [] end.

Definition network (environment : string) : result value :=
  networks ← get (entry_value "identifiers") (js "networks");
  v ← find_by "environment" (vs environment) networks;
  assert (truthy v) (js "missing " +++ js environment +++ js " identifier");;
  Ok v.

(** ** Parts of an environment *)

Definition networkIdentifiers (v : value) : result value := literal [
  ("displayName", get v (js "displayName"));
  ("cosmosChainId", walk v ["cosmos"; "chainId"]);
  ("evmChainId", walk v ["evm"; "chainId"]);
  ("evmChainIdHex", walk v ["evm"; "chainIdHex"]);
  ("networkId", walk v ["evm"; "networkId"]);
  ("caip2", walk v ["evm"; "caip2"]);
  ("shortName", walk v ["evm"; "shortName"]);
  ("nativeCurrencySymbol", get v (js "nativeCurrencySymbol"));
  ("registryStatus", walk v ["evm"; "registryStatus"])]%string.

Definition nativeCurrency (v : value) : result value :=
  environment ← get v (js "environment");
  let isMainnet := strict_eq environment (vs "mainnet") in
  let identifiers := entry_value "identifiers" in
  literal [
    ("name", walk identifiers ["currency"; if isMainnet then "mainnet" else "nonValueNetworks"; "name"]);
    ("symbol", get v (js "nativeCurrencySymbol"));
    ("baseDenom", walk identifiers ["currency"; "baseDenom"]);
    ("decimals", walk identifiers ["currency"; "decimals"]);
    ("valueStatus", text (if isMainnet then "not-launched-no-value-claim" else "valueless-non-market-network"))]%string.

Definition emptyStateSync : result value := literal [
  ("status", text "HOLD-unconfigured-untrusted"); ("enabled", flag false);
  ("rpcServers", empty_array); ("snapshotServers", empty_array);
  ("trustHeight", none); ("trustHash", none); ("trustPeriodSeconds", none);
  ("mustBeLessThanUnbondingSeconds",
    walk (entry_value "recovery") ["stateSync"; "mustBeLessThanUnbondingSeconds"])]%string.

Definition emptyPeerDiscovery : result value := literal [
  ("status", text "HOLD-unpublished"); ("seeds", empty_array); ("persistentPeers", empty_array);
  ("published", flag false); ("privatePeerDataAllowed", flag false)]%string.

Definition unsigned (status : string) : result value := literal [
  ("status", text status); ("algorithm", none); ("keyId", none); ("value", none);
  ("requiredForPublicArtifact", flag true)]%string.

(** The chain to add to a wallet; the URLs are [rpcUrls] and [blockExplorerUrls]. *)
Definition eip3085 (v : value) (rpcUrls blockExplorerUrls : result value) : result value :=
  let identifiers := entry_value "identifiers" in
  literal [
    ("chainId", walk v ["evm"; "chainIdHex"]);
    ("chainName", get v (js "displayName"));
    ("nativeCurrency", literal [
       ("name", walk identifiers ["currency"; "nonValueNetworks"; "name"]);
       ("symbol", get v (js "nativeCurrencySymbol"));
       ("decimals", walk identifiers ["currency"; "decimals"])]);
    ("rpcUrls", rpcUrls);
    ("blockExplorerUrls", blockExplorerUrls)]%string.

Definition reservedEnvironment (v : value) : result value := literal [
  ("status", text "reserved-unpublished-no-genesis");
  ("public", get v (js "public"));
  ("identifiers", networkIdentifiers v);
  ("nativeCurrency", nativeCurrency v);
  ("genesis", none);
  ("endpoints", literal [
     ("rpcUrls", empty_array); ("webSocketUrls", empty_array); ("blockExplorerUrls", empty_array);
     ("publishable", flag false)]);
  ("wallet", none);
  ("peerDiscovery", emptyPeerDiscovery);
  ("stateSync", emptyStateSync);
  ("snapshot", none)]%string.

Definition contractAddress (contractsRegistry : value) (id : jstr) : result value :=
  entries ← get contractsRegistry (js "entries");
  entry ← find_by "id" (VStr id) entries;
  assert (truthy entry) (js "testnet contracts registry entry " +++ id +++ js " is missing");;
  get entry (js "address").

(** [[manifest.public_endpoints[k]]] *)
Definition endpoint_list (manifest : value) (k : string) : result value :=
  url ← walk manifest ["public_endpoints"; k]%string; Ok (VArr [url]).

Definition testnet_contracts (contractsRegistry : value) : result value := literal [
  ("registryPath", source_path "testnetContracts");
  ("releaseStatus", get contractsRegistry (js "releaseStatus"));
  ("toriumNative", contractAddress contractsRegistry native_id);
  ("create2Factory", contractAddress contractsRegistry factory_id);
  ("attestationRegistry", contractAddress contractsRegistry attestation_id);
  ("rewardDistributor", contractAddress contractsRegistry distributor_id)]%string.

Definition liveTestnetEnvironment (v manifest contractsRegistry : value) : result value :=
  let endpoints := endpoint_list manifest in
  literal [
    ("status", text "active-valueless-public-testnet");
    ("public", flag true);
    ("identifiers", networkIdentifiers v);
    ("nativeCurrency", nativeCurrency v);
    ("genesis", literal [
       ("manifestPath", source_path "testnetGenesisManifest");
       ("sha256", get manifest (js "genesis_sha256"));
       ("canonicalHashAlgorithm", text "sha256");
       ("fileDistribution", text "withheld-while-public-p2p-peering-is-closed");
       ("signature", unsigned "HOLD-unsigned-hash-anchored-in-git-history")]);
    ("endpoints", literal [
       ("rpcUrls", endpoints "evmJsonRpc"); ("webSocketUrls", endpoints "evmWebSocket");
       ("blockExplorerUrls", endpoints "blockExplorer"); ("faucetUrls", endpoints "faucet");
       ("publishable", flag true)]);
    ("wallet", literal [
       ("eip3085", eip3085 v (endpoints "evmJsonRpc") (endpoints "blockExplorer"));
       ("iconAsset", faucet ← walk manifest ["public_endpoints"; "faucet"];
                     Ok (VStr (to_string faucet +++ js "/logo.png")));
       ("iconStatus", text "published-faucet-hosted-registry-submissions-pending")]);
    ("contracts", testnet_contracts contractsRegistry);
    ("peerDiscovery", emptyPeerDiscovery);
    ("stateSync", emptyStateSync);
    ("snapshot", none)]%string.

Definition localnetEnvironment (localnet : value) : result value :=
  let identifiers := entry_value "identifiers" in
  let recovery := entry_value "recovery" in
  let defaults := walk identifiers ["walletMetadata"; "localnetDefaults"]%string in
  let envelope k := walk recovery ["snapshots"; "developerRuntimeEnvelope"; k]%string in
  literal [
    ("status", text "active-valueless-local-development");
    ("public", flag false);
    ("identifiers", networkIdentifiers localnet);
    ("nativeCurrency", nativeCurrency localnet);
    ("genesis", literal [
       ("path", source_path "genesis");
       ("sha256", get (entry_value "genesisManifest") (js "genesis_sha256"));
       ("canonicalHashAlgorithm", text "sha256");
       ("signature", unsigned "HOLD-unsigned-local-only")]);
    ("endpoints", d ← defaults; Ok (VObj (set_own (js "publishable") (VBool false) (spread_members d))));
    ("wallet", literal [
       ("eip3085", eip3085 localnet (d ← defaults; get d (js "rpcUrls")) (d ← defaults; get d (js "blockExplorerUrls")));
       ("iconAsset", none);
       ("iconStatus", text "HOLD-not-selected")]);
    ("peerDiscovery", emptyPeerDiscovery);
    ("stateSync", emptyStateSync);
    ("snapshot", literal [
       ("format", envelope "format"); ("status", envelope "status"); ("signed", envelope "signed");
       ("publicPublicationAllowed", envelope "publicPublicationAllowed");
       ("operatorRestoreAllowed", envelope "operatorRestoreAllowed")])]%string.

(** ** The bundle *)

Definition sources_record : result value :=
  fs ← map_res (λ s,
    version ← sourceVersion (source_id s) (source_value s);
    Ok (source_id s, VObj ["path" :=: VStr (relativePath s); "version" :=: version;
                           "sha256" :=: VStr (sha256 lib (source_bytes s))]%js)) entries;
  Ok (VObj fs).

Definition scope_record : result value := literal [
  ("environment", text "local-development-and-valueless-public-testnet"); ("valueStatus", text "valueless");
  ("publicPublicationAllowed", flag true); ("liveDeploymentAllowed", flag true);
  ("backendIntegrationInScope", flag false); ("bridgeInScope", flag false); ("l2InScope", flag false)]%string.

(** [`${a}/${b}`] *)
Definition slashed (a : value) (k : string) (b : value) (k' : string) : result value :=
  x ← get a (js k); y ← get b (js k'); Ok (VStr (to_string x +++ js "/" +++ to_string y)).

Definition compatibility_record : result value :=
  let governance := entry_value "governance" in
  let selection := entry_value "explorerSelection" in
  let stack := entry_value "explorerStack" in
  literal [
    ("minimumNodeVersion", none);
    ("minimumNodeVersionStatus", text "HOLD-not-ratified");
    ("protocolVersion", get (entry_value "protocol") (js "protocolVersion"));
    ("sdk", literal [("version", get (entry_value "sdk") (js "version"));
                     ("status", text "published-to-npm-with-provenance")]);
    ("contracts", literal [("version", get (entry_value "contracts") (js "registryVersion"));
                           ("status", get (entry_value "contracts") (js "releaseStatus"))]);
    ("explorer", literal [
       ("version", slashed selection "selectionVersion" stack "stackVersion");
       ("status", slashed selection "status" stack "status")]);
    ("nodeRoles", literal [("version", get (entry_value "nodeRoles") (js "profileVersion"));
                           ("status", get (entry_value "nodeRoles") (js "status"))]);
    ("recovery", literal [("version", get (entry_value "recovery") (js "recoveryVersion"));
                          ("status", get (entry_value "recovery") (js "status"))]);
    ("upgrade", literal [
       ("governanceContractVersion", get governance (js "contractVersion"));
       ("planName", walk governance ["upgrade"; "planName"]);
       ("preUpgradeVersion", walk governance ["upgrade"; "preUpgradeVersion"]);
       ("postUpgradeVersion", walk governance ["upgrade"; "postUpgradeVersion"]);
       ("operatorChecksumPreflightRequired",
         walk governance ["authorizationRules"; "normalOperatorProcedureRequiresChecksumPreflight"])]);
    ("localnetFormatRehearsal", literal [
       ("status", text "metadata-generated-chain-start-HOLD"); ("bundleGenerated", flag true);
       ("bundleValidated", flag true); ("chainStartRehearsedFromBundle", flag false)])]%string.

Definition change_policy : result value := literal [
  ("currentBundle", literal [
     ("requiresRestart", flag false); ("requiresMigration", flag false); ("networkDiscontinuity", flag false);
     ("note", text "records the live torium-testnet-1 identity and endpoints; canonical localnet inputs are unchanged")]);
  ("publicGenesisReplacement", literal [
     ("requiresNewCosmosChainId", flag true); ("requiresNewEvmChainId", flag true);
     ("requiresBundleVersionIncrement", flag true); ("networkDiscontinuityRequired", flag true)]);
  ("identifierAvailability", literal [
     ("evidencePath", source_path "identifierAvailability"); ("datedEvidenceOnly", flag true);
     ("recheckBeforePublication", flag true)]);
  ("privateData", literal [
     ("peerIdsAllowed", flag false); ("privateIpsAllowed", flag false); ("keysAllowed", flag false);
     ("signerStateAllowed", flag false)])]%string.

Definition release_readiness : result value := literal [
  ("ready", flag false); ("status", text "testnet-published-mainnet-hold"); ("checksumsComplete", flag true);
  ("signatureComplete", flag false); ("publicMetadataComplete", flag true);
  ("localnetChainStartRehearsalComplete", flag false)]%string.

Definition holds : value := texts [
  "Public genesis signature algorithm and custody are not selected; the testnet genesis is hash-anchored in git history, unsigned.";
  "Devnet and mainnet genesis artifacts do not exist.";
  "Devnet and mainnet RPC, WebSocket and explorer endpoints are unpublished.";
  "Seed, persistent-peer and trusted state-sync values are unpublished for every environment; testnet public P2P peering is closed.";
  "The testnet genesis file is withheld from the repository while P2P peering is closed because its genesis transactions embed validator node IDs; chain/genesis/testnet/manifest.json carries the authoritative sha256.";
  "The testnet chain ID is registered in ethereum-lists/chains (PR 8633, merged 2026-08-24); the registry icon, wallet asset registries and the mainnet chain ID remain unfiled.";
  "Testnet system contracts are deployed but unexercised beyond deployment verification; no reward epoch has been published and no third-party integration exists.";
  "Localnet chain-start consumption is rehearsed by chain/releases/rehearse-chain-start-v0.sh (2026-07-29); devnet and mainnet consumption stays unexercised.";
  "Explorer runtime compatibility contracts remain local-conditional while the live testnet explorer runs Blockscout.";
  "Identifier availability must be rechecked immediately before any new environment publication."]%string.

(** [assert.equal] of two expressions. *)
Definition same (a b : result value) : result () := x ← a; y ← b; equal x y not_equal.

Definition environments (localnet testnet : value) : result value := literal [
  ("localnet", localnetEnvironment localnet);
  ("devnet", v ← network "devnet"; reservedEnvironment v);
  ("testnet", liveTestnetEnvironment testnet (entry_value "testnetGenesisManifest") (entry_value "testnetContracts"));
  ("mainnet", v ← network "mainnet"; reservedEnvironment v)]%string.

Definition buildArtifact : result value :=
  let manifest := entry_value "testnetGenesisManifest" in
  localnet ← network "localnet";
  testnet ← network "testnet";
  let genesisHash := get (entry_value "genesisManifest") (js "genesis_sha256") in
  same (Ok (VStr (sha256 lib (entry_bytes "genesis")))) genesisHash;;
  same (walk (entry_value "contracts") ["chain"; "genesisSha256"]%string) genesisHash;;
  same (get manifest (js "cosmos_chain_id")) (walk testnet ["cosmos"; "chainId"]%string);;
  same (get manifest (js "evm_chain_id")) (walk testnet ["evm"; "chainId"]%string);;
  same (walk (entry_value "testnetContracts") ["chain"; "evmChainId"]%string) (walk testnet ["evm"; "chainId"]%string);;
  same (walk (entry_value "testnetContracts") ["chain"; "genesisSha256"]%string) (get manifest (js "genesis_sha256"));;
  literal [
    ("$schema", text "./network-artifacts-v0.schema.json");
    ("schemaVersion", Ok (vi 1));
    ("bundleVersion", text "0.2.0-testnet.2");
    ("status", text "generated-localnet-bundle-and-live-testnet-record");
    ("ownerIssue", Ok (vi 123));
    ("generatedBy", text "node chain/releases/generate-network-artifacts-v0.mjs --write");
    ("scope", scope_record);
    ("sources", sources_record);
    ("environments", environments localnet testnet);
    ("compatibility", compatibility_record);
    ("changePolicy", change_policy);
    ("releaseReadiness", release_readiness);
    ("holds", Ok holds)]%string.

End sources.

(** ** What a bundle satisfies *)

(** [new Set(l).size] is the length of [l]. *)
Fixpoint distinct_values (l : list value) : bool :=
  match l with
  | [] => true
  | x :: l' => negb (existsb (strict_eq x) l') && distinct_values l'
  end.

(** [/^https:\/\/[a-z.]+torium\.network$/u], with another scheme. *)
Definition is_public_url (scheme : string) (s : jstr) : bool :=
  match after id (js scheme +++ js "://") s with
  | Some r =>
      match before_suffix (js "torium.network") r with
      | Some ((_ :: _) as host) => forallb (λ c, is_lower c || (c =? 46)%N) host
      | _ => false
      end
  | None => false
  end.

(** [assert.match]; a value that is no string does not match. *)
Definition matches (v : value) (p : jstr → bool) : result () :=
  assert (match v with VStr s => p s | _ => false end) not_matched.

Definition is_local_url (s : jstr) : bool := starts_with (js "http://127.0.0.1:") s.

Definition identifier_of (environment : value) (k : string) : result value := walk environment ["identifiers"; k]%string.

Definition check_environment (item : value) : result () :=
  networkId ← identifier_of item "networkId";
  evmChainId ← identifier_of item "evmChainId";
  equal networkId evmChainId not_equal;;
  hex ← identifier_of item "evmChainIdHex";
  digits ← to_string_16 evmChainId;
  equal hex (VStr (js "0x" +++ digits)) not_equal;;
  caip2 ← identifier_of item "caip2";
  equal caip2 (VStr (js "eip155:" +++ to_string evmChainId)) not_equal;;
  deep_equal_at item ["peerDiscovery"; "seeds"]%string (VArr []);;
  deep_equal_at item ["peerDiscovery"; "persistentPeers"]%string (VArr []).

Definition check_reserved (artifact : value) (name : string) : result () :=
  item ← walk artifact ["environments"; name]%string;
  equal_at item ["genesis"]%string VNull;;
  equal_at item ["endpoints"; "publishable"]%string (VBool false);;
  deep_equal_at item ["endpoints"; "rpcUrls"]%string (VArr []);;
  deep_equal_at item ["endpoints"; "webSocketUrls"]%string (VArr []);;
  deep_equal_at item ["endpoints"; "blockExplorerUrls"]%string (VArr []).

(** [[...a.b, ...]] *)
Definition spread_at (v : value) (ks : list string) : result (list value) := x ← walk v ks; spread x.

Definition check_live (testnet : value) : result () :=
  equal_at testnet ["public"]%string (VBool true);;
  hash ← walk testnet ["genesis"; "sha256"]%string;
  assert (is_hash_text false hash) not_matched;;
  equal_at testnet ["genesis"; "signature"; "value"]%string VNull;;
  rpc ← spread_at testnet ["endpoints"; "rpcUrls"]%string;
  explorer ← spread_at testnet ["endpoints"; "blockExplorerUrls"]%string;
  faucet ← spread_at testnet ["endpoints"; "faucetUrls"]%string;
  for_each (λ url, matches url (is_public_url "https")) (rpc ++ explorer ++ faucet);;
  sockets ← spread_at testnet ["endpoints"; "webSocketUrls"]%string;
  for_each (λ url, matches url (is_public_url "wss")) sockets;;
  same (walk testnet ["wallet"; "eip3085"; "chainId"]%string) (identifier_of testnet "evmChainIdHex");;
  urls ← walk testnet ["endpoints"; "rpcUrls"]%string;
  deep_equal_at testnet ["wallet"; "eip3085"; "rpcUrls"]%string urls;;
  explorers ← walk testnet ["endpoints"; "blockExplorerUrls"]%string;
  deep_equal_at testnet ["wallet"; "eip3085"; "blockExplorerUrls"]%string explorers.

Definition assertSemantics (artifact : value) : result () :=
  environments ← get artifact (js "environments");
  let items := match environments with VObj fs => map snd fs | _ => [] end in
  cosmos ← map_res (λ item, identifier_of item "cosmosChainId") items;
  assert (Nat.eqb (length items) 4 && distinct_values cosmos) not_equal;;
  evm ← map_res (λ item, identifier_of item "evmChainId") items;
  assert (distinct_values evm) not_equal;;
  for_each check_environment items;;
  for_each (check_reserved artifact) ["devnet"; "mainnet"]%string;;
  equal_at artifact ["environments"; "localnet"; "public"]%string (VBool false);;
  equal_at artifact ["environments"; "localnet"; "endpoints"; "publishable"]%string (VBool false);;
  urls ← walk artifact ["environments"; "localnet"; "endpoints"; "rpcUrls"]%string;
  (if is_nullish urls then type_error (js "Cannot read properties of undefined") else Ok ());;
  matches (element urls (js "0")) is_local_url;;
  equal_at artifact ["environments"; "localnet"; "genesis"; "signature"; "value"]%string VNull;;
  testnet ← walk artifact ["environments"; "testnet"]%string;
  check_live testnet;;
  equal_at artifact ["releaseReadiness"; "ready"]%string (VBool false).

(** ** The two files *)

(** The text of the bundle and of the checksum file, once everything is checked. *)
Definition build_bundle : result (jstr * jstr) :=
  entries ← map_res read_source source_paths;
  schemaBytes ← readFile (beside "network-artifacts-v0.schema.json");
  schema ← json_parse (utf8_decode schemaBytes);
  artifact ← buildArtifact entries;
  let serialized := stringify 2 0 artifact +++ [10%N] in
  readme ← readFile (beside "README.md");
  generatorBytes ← readFile (beside "generate-network-artifacts-v0.mjs");
  let checksumFiles := [
    (sha256 lib readme, js "README.md"); (sha256 lib generatorBytes, js "generate-network-artifacts-v0.mjs");
    (sha256_text lib serialized, js "network-artifacts-v0.json");
    (sha256 lib schemaBytes, js "network-artifacts-v0.schema.json")] in
  let checksums := join [10%N] (map (λ x, fst x +++ js "  " +++ snd x) checksumFiles) +++ [10%N] in
  validate ← ajv schema;
  let '(valid, errors) := validate artifact in
  assert valid (js "network artifact schema validation failed: " +++ stringify 0 0 errors);;
  assertSemantics artifact;;
  Ok (serialized, checksums).

End bundle.

(** ** The whole script *)

Section script.
Context (lib : library) (ajv : value → result (value → bool * value)) (radix16 : num → jstr) (root : jstr).
Context (fault : gmap jstr (list Z) → operation → option exn) (torn : jstr → list Z → option (list Z)).

Definition bundle_on (s : gmap jstr (list Z)) : result (jstr * jstr) :=
  build_bundle lib ajv radix16 (read_file (read_disk fault s)) root.

(** [assert.equal(await readFile(path, "utf8"), expected)]. *)
Definition check_file (path expected : jstr) : io () := λ s,
  (bytes ← read_file (read_disk fault s) path; assert (utf8_decode bytes =s? expected) not_equal, s).

(** What the script prints. *)
Definition networkArtifacts (argv : list jstr) : io jstr :=
  generated ← (λ s, (bundle_on s, s));
  let '(serialized, checksums) := generated : jstr * jstr in
  let '(argument, extraArguments) := match argv with [] => (js "--check", []) | a :: rest => (a, rest) end in
  pure (assert (match extraArguments with [] => true | _ => false end) (js "only one option is supported"));;
  if argument =s? js "--write" then
    writeBytes fault torn (outputPath root) (utf8_encode serialized);;
    writeBytes fault torn (checksumsPath root) (utf8_encode checksums);;
    mret (js "network artifacts v0 generated")
  else if argument =s? js "--check" then
    check_file (outputPath root) serialized;;
    check_file (checksumsPath root) checksums;;
    mret (js "network artifacts v0 are current")
  else pure (error (js "unsupported option " +++ argument)).

End script.
