(* ===== verification/NetworkArtifactsFacts.v ===== *)
(** The bundle of network metadata: the contract addresses that it publishes are
    those of the deployment, as long as no id occurs twice in the registry; what
    happens when one does; and a check after a write finds both files current. *)

From stdpp Require Import gmap.
From S2P Require Import Prelude JsNum JsText JsUtf8 JsValue JsOps JsonText JsPath Deploy DeployFacts GeneratedFiles GeneratedFilesFacts TestnetRegistry TestnetRegistryFacts LocalnetRegistry LocalnetRegistryFacts GenerateArtifacts GenerateArtifactsFacts NetworkArtifacts.

Open Scope Z_scope.

(** ** Members of object literals *)

Fixpoint member (k : string) (members : list (string * result value)) : option (result value) :=
  match members with
  | [] => None
  | (k', x) :: rest => if js k =s? js k' then Some x else member k rest
  end.

Lemma literal_member k x members v :
  literal members = Ok v → member k members = Some x → ∃ w, x = Ok w ∧ get v (js k) = Ok w.
Proof.
  unfold literal. intros H Hm. take H as fs Hfs. apply Ok_inj in H as <-. apply map_res_Ok in Hfs.
  cut (∃ w, x = Ok w ∧ assoc (js k) fs = Some w).
  { intros (w & -> & Hw). exists w. split; [done|]. unfold get. cbn [is_nullish field]. by rewrite Hw. }
  induction Hfs as [|[k' y] [k2 w] members fs Hy _ IH]; [done|]. cbn [fst snd] in Hy. take Hy as w' Hw.
  apply Ok_inj in Hy as [= <- <-]. cbn [member assoc] in *. destruct (js k =s? js k').
  - injection Hm as <-. by exists w'.
  - by apply IH.
Qed.

(** ** Entries of the registry *)

(** No two entries of the registry have the same id. *)
Definition distinct_ids (registry : value) : Prop :=
  NoDup (map (λ entry, field entry (js "id")) (v_list (field registry (js "entries")))).

Lemma map_get_other id pairs m :
  Forall (λ kv : value * value, fst kv ≠ VStr id) pairs →
  map_get id (fold_left (λ m kv, map_set (fst kv) (snd kv) m) pairs m) = map_get id m.
Proof.
  intros H. revert m. induction H as [|[k v] pairs Hk _ IH]; intros m; [done|]. cbn [fold_left fst snd] in *.
  rewrite IH, map_get_set. destruct (strict_eq k (VStr id)) eqn:E; [|done]. by apply strict_eq_str in E.
Qed.

(** The first entry with an id is the one that a Map keeps. *)
Lemma find_by_id registry m id v :
  distinct_ids registry → by_id registry = Ok m →
  (entries ← get registry (js "entries"); find_by "id" (VStr id) entries) = Ok v → map_get id m = v.
Proof.
  unfold distinct_ids, by_id. intros Hd Hm Hf. take Hm as entries He. rewrite He in Hf. cbn [mbind result_bind] in Hf.
  apply get_Ok in He as [_ ->]. take Hm as l Hl. unfold find_by in Hf. rewrite Hl in Hf. cbn [mbind result_bind] in Hf.
  destruct (field registry (js "entries")) as [| | | | |l'|]; try done. apply Ok_inj in Hl as ->. cbn [v_list] in Hd.
  take Hm as pairs Hp. apply Ok_inj in Hm as <-. apply map_res_Ok in Hp.
  change VUndef with (map_get id []). assert (∀ m0, map_get id m0 = VUndef →
    map_get id (fold_left (λ m kv, map_set (fst kv) (snd kv) m) pairs m0) = v) as Hg; [|by apply Hg].
  induction Hp as [|e kv l pairs Hkv Hrest IH]; intros m0 H0; [by apply Ok_inj in Hf as <-|].
  take Hkv as k Hk. apply Ok_inj in Hkv as <-. cbn [find_res fold_left fst snd] in *. rewrite Hk in Hf.
  apply get_Ok in Hk as [_ ->]. cbn [mbind result_bind map] in *. apply NoDup_cons in Hd as [Hn Hd].
  destruct (strict_eq (field e (js "id")) (VStr id)) eqn:E.
  - apply Ok_inj in Hf as <-. rewrite map_get_other, map_get_set, E; [done|].
    apply strict_eq_str in E. rewrite E in Hn. clear - Hn Hrest.
    induction Hrest as [|e kv l pairs Hkv _ IH]; [constructor|]. cbn [map] in Hn. apply not_elem_of_cons in Hn as [Hne Hn].
    constructor; [|by apply IH]. take Hkv as k Hk. apply Ok_inj in Hkv as <-. apply get_Ok in Hk as [_ ->].
    cbn [fst]. congruence.
  - apply IH; [done|done|]. by rewrite map_get_set, E.
Qed.

Lemma contractAddress_Ok registry id a m :
  distinct_ids registry → by_id registry = Ok m → contractAddress registry id = Ok a →
  get (map_get id m) (js "address") = Ok a.
Proof.
  intros Hd Hm H. unfold contractAddress in H. take H as entries He. take H as e Hf. passed H as Ht.
  rewrite (find_by_id registry m id e Hd Hm); [done|]. by rewrite He.
Qed.

(** ** What is published *)

Section facts.
Context (lib : library) (ajv : value → result (value → bool * value)) (radix16 : num → jstr).
Context (readFile : jstr → result (list Z)) (root : jstr).

Lemma find_source id ps es p :
  Forall2 (λ p s, read_source readFile root p = Ok s) ps es →
  List.find (λ p : string * string, js (fst p) =s? js id) ps = Some p →
  ∃ s, List.find (λ s, source_id s =s? js id) es = Some s ∧ read_source readFile root p = Ok s.
Proof.
  intros H. induction H as [|p' s ps es Hs _ IH]; [done|]. cbn [List.find]. intros Hf.
  assert (source_id s = js (fst p')) as ->.
  { unfold read_source in Hs. take Hs as b Hb. take Hs as v Hv. by apply Ok_inj in Hs as <-. }
  destruct (js (fst p') =s? js id); [|by apply IH]. injection Hf as ->. by exists s.
Qed.

(** The value of a source is the document in its file. *)
Lemma entry_value_read entries id path :
  map_res (read_source readFile root) source_paths = Ok entries →
  List.find (λ p : string * string, js (fst p) =s? js id) source_paths = Some (id, path) →
  readRepositoryJson readFile root (js path) = Ok (entry_value entries id).
Proof.
  intros He%map_res_Ok Hf. destruct (find_source _ _ _ _ He Hf) as (s & Hs & Hr). unfold entry_value. rewrite Hs.
  unfold read_source in Hr. take Hr as b Hb. take Hr as v Hv. apply Ok_inj in Hr as <-.
  unfold readRepositoryJson, Deploy.readJson. cbn [snd] in Hb. rewrite Hb. exact Hv.
Qed.

(** An address in the bundle. *)
Definition published (artifact : value) (k : string) : result value :=
  walk artifact ["environments"; "testnet"; "contracts"; k]%string.

Definition published_names : list (string * jstr) :=
  [("create2Factory", factory_id); ("attestationRegistry", attestation_id); ("rewardDistributor", distributor_id)]%string.

Lemma buildArtifact_published entries artifact :
  buildArtifact lib entries = Ok artifact →
  Forall (λ p, ∃ a, published artifact (fst p) = Ok a ∧
    contractAddress (entry_value entries "testnetContracts") (snd p) = Ok a) published_names.
Proof.
  intros H. unfold buildArtifact in H. take H as l Hl. take H as t Ht. cbn zeta in H.
  passed H as E1. passed H as E2. passed H as E3. passed H as E4. passed H as E5. passed H as E6.
  destruct (literal_member "environments" _ _ _ H eq_refl) as (environments & Henv & G1).
  unfold NetworkArtifacts.environments in Henv. destruct (literal_member "testnet" _ _ _ Henv eq_refl) as (testnet & Hte & G2).
  unfold liveTestnetEnvironment in Hte. destruct (literal_member "contracts" _ _ _ Hte eq_refl) as (contracts & Hco & G3).
  unfold testnet_contracts in Hco.
  assert (∀ k id, member k [
    ("registryPath", source_path "testnetContracts");
    ("releaseStatus", get (entry_value entries "testnetContracts") (js "releaseStatus"));
    ("toriumNative", contractAddress (entry_value entries "testnetContracts") native_id);
    ("create2Factory", contractAddress (entry_value entries "testnetContracts") factory_id);
    ("attestationRegistry", contractAddress (entry_value entries "testnetContracts") attestation_id);
    ("rewardDistributor", contractAddress (entry_value entries "testnetContracts") distributor_id)]%string
      = Some (contractAddress (entry_value entries "testnetContracts") id) →
    ∃ a, published artifact k = Ok a ∧ contractAddress (entry_value entries "testnetContracts") id = Ok a) as Hk.
  { intros k id Hm. destruct (literal_member k _ _ _ Hco Hm) as (a & Ha & G4). exists a. split; [|done].
    unfold published. cbn [walk]. rewrite G1. cbn [mbind result_bind]. rewrite G2. cbn [mbind result_bind].
    rewrite G3. cbn [mbind result_bind]. by rewrite G4. }
  repeat constructor; by apply Hk.
Qed.

Lemma build_bundle_Ok serialized checksums :
  build_bundle lib ajv radix16 readFile root = Ok (serialized, checksums) →
  ∃ entries artifact, map_res (read_source readFile root) source_paths = Ok entries ∧
    buildArtifact lib entries = Ok artifact ∧ assertSemantics radix16 artifact = Ok () ∧
    serialized = stringify 2 0 artifact +++ [10%N].
Proof.
  intros H. unfold build_bundle in H. take H as entries He. take H as sb Hsb. take H as sc Hsc. take H as a Ha.
  take H as rb Hrb. take H as gb Hgb. cbn zeta in H. take H as vd Hvd. destruct (vd a) as [valid errs].
  passed H as E1. passed H as E2. apply Ok_inj in H as [= <- <-]. exists entries, a.
  split; [done|]. split; [done|]. by split.
Qed.

Context (env : jstr → option jstr).
Context (W : Type) (net : endpoint W) (writeFile : jstr → jstr → result ()) (code_at : W → jstr → value).

(** C16. Published addresses are deployed addresses: when the testnet registry passes
    its validator and no id occurs in it twice, the contract addresses in the bundle
    of network metadata are, up to letter case, those that a completed run of the
    deployment script over the same files recorded. *)
Theorem published_addresses_deployed validator msg argv r rec r' localnet serialized checksums :
  address_texts lib → keeps_code W net code_at →
  validateTestnetRegistry lib validator readFile root = Ok msg →
  readRepositoryJson readFile root (js "contracts/deployments/localnet.json") = Ok localnet → text_ids localnet →
  (∀ o, parseArguments argv = Ok o →
     readRepositoryJson readFile root deployment_config = Deploy.readJson readFile (configPath o)) →
  main lib W net readFile writeFile env root argv r = (Ok rec, r') →
  (∀ registry, readRepositoryJson readFile root (js "contracts/deployments/testnet.json") = Ok registry →
     distinct_ids registry) →
  build_bundle lib ajv radix16 readFile root = Ok (serialized, checksums) →
  ∃ artifact, serialized = stringify 2 0 artifact +++ [10%N] ∧
    Forall2 (λ p d, ∃ a, published artifact (fst p) = Ok a ∧ getAddress lib a = Ok (address d))
      published_names (contracts rec).
Proof.
  intros Htext Hlaws Hv Hloc Hids Hcfg Hrun Hd (entries & artifact & He & Ha & _ & Hser)%build_bundle_Ok.
  destruct (validated_run lib validator readFile env root W net writeFile code_at msg argv r rec r' localnet
    Htext Hlaws Hv Hloc Hids Hcfg Hrun) as [Hrec _].
  exists artifact. split; [done|]. apply buildArtifact_published in Ha.
  pose proof (entry_value_read entries "testnetContracts" "contracts/deployments/testnet.json" He eq_refl) as Hreg.
  assert (∀ id entry a, recorded_entry readFile root id entry → contractAddress (entry_value entries "testnetContracts") id = Ok a →
    get entry (js "address") = Ok a) as Hsame.
  { intros id entry a (registry & m & Hr & Hm & <-) Hc. rewrite Hr in Hreg. apply Ok_inj in Hreg as ->.
    by eapply contractAddress_Ok; [apply Hd|..]. }
  assert (∀ id e y a, recorded_entry readFile root id e → get e (js "address") = Ok y →
    contractAddress (entry_value entries "testnetContracts") id = Ok a → a = y) as Heq
    by (intros id0 e0 x0 y0 Hre Hg Hc; pose proof (Hsame _ _ _ Hre Hc) as Hg'; rewrite Hg in Hg'; by apply Ok_inj in Hg').
  unfold recorded_addresses, contract_ids in Hrec. revert Ha Hrec. generalize (contracts rec). intros ds Ha Hrec.
  unfold published_names in *. apply Forall_cons in Ha as [(a1 & P1 & C1) Ha].
  apply Forall_cons in Ha as [(a2 & P2 & C2) Ha]. apply Forall_cons in Ha as [(a3 & P3 & C3) _].
  inversion_clear Hrec as [|? ? ? ? (e1 & x1 & R1 & G1 & D1) Hrec1].
  inversion_clear Hrec1 as [|? ? ? ? (e2 & x2 & R2 & G2 & D2) Hrec2].
  inversion_clear Hrec2 as [|? ? ? ? (e3 & x3 & R3 & G3 & D3) Hrec3]. inversion_clear Hrec3.
  cbn [fst snd] in *. rewrite (Heq _ _ _ _ R1 G1 C1) in P1. rewrite (Heq _ _ _ _ R2 G2 C2) in P2.
  rewrite (Heq _ _ _ _ R3 G3 C3) in P3. constructor; [by exists x1|]. constructor; [by exists x2|]. constructor; [by exists x3|constructor].
Qed.

End facts.

(** ** An id that occurs twice *)

(** The registry with a copy of an entry in front of the others, at another address. *)
Definition doubled (registry entry : value) (a : jstr) : value :=
  with_field registry (js "entries")
    (VArr (with_field entry (js "address") (VStr a) :: v_list (field registry (js "entries")))).

Lemma field_with_field fs k w k' :
  field (with_field (VObj fs) k w) k' = if k' =s? k then w else field (VObj fs) k'.
Proof. cbn [with_field field]. rewrite assoc_set_own. by destruct (k' =s? k). Qed.

Lemma get_with_field fs k w k' :
  get (with_field (VObj fs) k w) k' = Ok (if k' =s? k then w else field (VObj fs) k').
Proof. unfold get. rewrite <- field_with_field. done. Qed.

Lemma set_own_members {A} k (w : A) fs f : f ∈ set_own k w fs → f = (k, w) ∨ f ∈ fs.
Proof.
  induction fs as [|[k' w'] fs IH]; cbn [set_own]; [intros ->%list_elem_of_singleton; by left|].
  repeat case_match; rewrite ?elem_of_cons; naive_solver.
Qed.

Lemma s_object_Ok required properties v : s_object required properties v = true ↔
  ∃ fs, v = VObj fs ∧ Forall (λ k, is_undefined (field v (js k)) = false) required ∧
    Forall (λ p : string * json_schema, is_undefined (field v (js (fst p))) = true ∨ snd p (field v (js (fst p))) = true) properties ∧
    Forall (λ f : jstr * value, Exists (λ p : string * json_schema, fst f = js (fst p)) properties) fs.
Proof.
  unfold s_object. destruct v as [| | | | | |fs]; try (split; [done|by intros (? & ? & _)]).
  rewrite !andb_true_iff, !forallb_spec. split.
  - intros [[H1 H2] H3]. exists fs. split; [done|]. split_and!.
    + eapply Forall_impl; [exact H1|]. by intros k ?%negb_true_iff.
    + eapply Forall_impl; [exact H2|]. by intros p ?%orb_true_iff.
    + eapply Forall_impl; [exact H3|]. intros f (p & Hp%list_elem_of_In & E%jeq_spec)%existsb_exists.
      apply Exists_exists. by exists p.
  - intros (fs' & [= <-] & H1 & H2 & H3). split_and!.
    + eapply Forall_impl; [exact H1|]. intros k. apply negb_true_iff.
    + eapply Forall_impl; [exact H2|]. intros p. apply orb_true_iff.
    + eapply Forall_impl; [exact H3|]. intros f (p & Hp & E)%Exists_exists. apply existsb_exists.
      exists p. split; [by apply list_elem_of_In|by apply jeq_spec].
Qed.

(** A named property may take any value that fits. *)
Lemma s_object_with required properties v k w :
  s_object required properties v = true → is_undefined w = false →
  Exists (λ p : string * json_schema, k = js (fst p)) properties →
  Forall (λ p : string * json_schema, k = js (fst p) → snd p w = true) properties →
  s_object required properties (with_field v k w) = true.
Proof.
  rewrite !s_object_Ok. intros (fs & -> & H1 & H2 & H3) Hw Hk Hs. eexists. split; [reflexivity|]. split_and!.
  - eapply Forall_impl; [exact H1|]. intros k' Hk'. rewrite field_with_field. by destruct (js k' =s? k).
  - apply Forall_forall. intros p Hp. rewrite Forall_forall in H2. rewrite Forall_forall in Hs. rewrite field_with_field.
    destruct (js (fst p) =s? k) eqn:E; [|by apply H2]. right. apply Hs; [done|]. symmetry. by apply jeq_spec.
  - apply Forall_forall. rewrite Forall_forall in H3. intros f [->|Hf]%set_own_members; [done|by apply H3].
Qed.

Lemma s_object_property required properties v k s :
  s_object required properties v = true → (k, s) ∈ properties → k ∈ required → s (field v (js k)) = true.
Proof.
  intros (fs & _ & H1 & H2 & _)%s_object_Ok Hp Hk. rewrite Forall_forall in H1. rewrite Forall_forall in H2. specialize (H1 _ Hk).
  destruct (H2 _ Hp) as [H|H]; cbn [fst snd] in H; [congruence|done].
Qed.

(** Nothing but the named properties is there. *)
Lemma s_object_closed required properties v k :
  s_object required properties v = true → Forall (λ p : string * json_schema, k ≠ js (fst p)) properties →
  field v k = VUndef.
Proof.
  intros (fs & -> & _ & _ & H)%s_object_Ok Hk. cbn [field]. destruct (assoc k fs) as [w|] eqn:E; [|done].
  apply assoc_elem in E. rewrite Forall_forall in H. apply H, Exists_exists in E as (p & Hp & E). cbn [fst] in E.
  rewrite Forall_forall in Hk. by destruct (Hk p Hp).
Qed.

Lemma s_entry_at e a : s_entry e = true → is_registry_address a = true →
  s_entry (with_field e (js "address") (VStr a)) = true.
Proof.
  intros He Ha. apply s_object_with; [done|done| |].
  - apply Exists_exists. exists ("address"%string, s_address). split; [set_solver|done].
  - apply Forall_forall. intros p Hp. repeat (apply elem_of_cons in Hp as [->|Hp]; [cbn [fst snd]; intros E|]);
      first [discriminate E | by apply elem_of_nil in Hp | exact Ha].
Qed.

(** The entries of a registry that fits. *)
Lemma fits_entries R : fits_testnet_schema R = true →
  ∃ fs l, R = VObj fs ∧ field R (js "entries") = VArr l ∧ (4 ≤ length l)%nat ∧ Forall (λ e, s_entry e = true) l.
Proof.
  intros H. pose proof H as (fs & HR & _)%s_object_Ok.
  assert (s_array 4 s_entry (field R (js "entries")) = true) as Ha
    by (eapply s_object_property; [exact H|set_solver|set_solver]).
  unfold s_array in Ha. destruct (field R (js "entries")) as [| | | | |l|] eqn:E; try done.
  apply andb_true_iff in Ha as [Hn%Nat.leb_le Hl%forallb_spec]. by exists fs, l.
Qed.

Lemma s_entry_id e : s_entry e = true → ∃ fs s, e = VObj fs ∧ field e (js "id") = VStr s.
Proof.
  intros H. pose proof H as (fs & He & _)%s_object_Ok.
  assert (s_string 4 (field e (js "id")) = true) as Hs by (eapply s_object_property; [exact H|set_solver|set_solver]).
  unfold s_string, s_pattern in Hs. destruct (field e (js "id")) as [| | | |s| |] eqn:E; try done. by exists fs, s.
Qed.

(** The schema does not see that an id occurs twice. *)
Lemma doubled_fits R e a :
  fits_testnet_schema R = true → e ∈ v_list (field R (js "entries")) → is_registry_address a = true →
  fits_testnet_schema (doubled R e a) = true.
Proof.
  intros HR He Ha. destruct (fits_entries R HR) as (fs & l & -> & El & Hn & Hl).
  unfold doubled. rewrite El in *. cbn [v_list] in *. apply s_object_with; [done|done| |].
  - apply Exists_exists. exists ("entries"%string, s_array 4 s_entry). split; [set_solver|done].
  - apply Forall_forall. intros p Hp. repeat (apply elem_of_cons in Hp as [->|Hp]; [cbn [fst snd]; intros E|]);
      first [discriminate E | by apply elem_of_nil in Hp | idtac].
    cbn [s_array length]. apply andb_true_iff. split; [apply Nat.leb_le; lia|]. apply forallb_spec.
    constructor; [|done]. apply s_entry_at; [|done]. rewrite Forall_forall in Hl. by apply Hl.
Qed.

(** *** The Map of the registry *)

Definition folded (pairs m : list (value * value)) : list (value * value) :=
  fold_left (λ m kv, map_set (fst kv) (snd kv) m) pairs m.

Definition names_id (id : jstr) (kv : value * value) : bool := strict_eq (fst kv) (VStr id).

(** What is found under an id that some pair has does not depend on the Map before. *)
Lemma folded_get_named id pairs m m' :
  existsb (names_id id) pairs = true → map_get id (folded pairs m) = map_get id (folded pairs m').
Proof.
  revert m m'. induction pairs as [|[k v] pairs IH]; intros m m'; [done|]. cbn [existsb folded fold_left fst snd].
  intros H. destruct (existsb (names_id id) pairs) eqn:E; [by apply IH|]. rewrite orb_false_r in H. unfold names_id in H.
  cbn [fst] in H. unfold folded. rewrite !map_get_other, !map_get_set, H; [done|..].
  all: apply Forall_forall; intros kv Hkv Hk; apply not_true_iff_false in E; apply E, existsb_exists;
    exists kv; split; [by apply list_elem_of_In|by apply strict_eq_str].
Qed.

Lemma folded_get_unnamed id pairs m :
  existsb (names_id id) pairs = false → map_get id (folded pairs m) = map_get id m.
Proof.
  intros E. apply map_get_other, Forall_forall. intros kv Hkv Hk. apply not_true_iff_false in E. apply E, existsb_exists.
  exists kv. split; [by apply list_elem_of_In|by apply strict_eq_str].
Qed.

(** A pair in front changes nothing, if its id comes again. *)
Lemma folded_again id id0 v pairs : existsb (names_id id0) pairs = true →
  map_get id (folded ((VStr id0, v) :: pairs) []) = map_get id (folded pairs []).
Proof.
  intros H. cbn [folded fold_left fst snd]. destruct (existsb (names_id id) pairs) eqn:E.
  - by apply folded_get_named.
  - change (map_get id (folded pairs (map_set (VStr id0) v [])) = map_get id (folded pairs [])).
    rewrite !folded_get_unnamed, map_get_set by done. destruct (strict_eq (VStr id0) (VStr id)) eqn:E2; [|done].
    apply strict_eq_str in E2 as [= ->]. congruence.
Qed.

Definition text_key (v : value) : Prop := is_string v = true.

Lemma map_set_keys k v m : text_key k → NoDup (map fst m) →
  NoDup (map fst (map_set k v m)) ∧ ∀ x, x ∈ map fst (map_set k v m) ↔ x = k ∨ x ∈ map fst m.
Proof.
  intros Hk. assert (∀ k', strict_eq k k' = true ↔ k = k') as Heq.
  { intros k'. destruct k; try done. split; [|intros <-; apply jeq_refl]. destruct k'; try done. intros H. f_equal. by apply jeq_spec. }
  induction m as [|[k' v'] m IH]; cbn [map_set map fst]; intros Hn.
  - split; [apply NoDup_singleton|]. intros x. rewrite list_elem_of_singleton, elem_of_nil. tauto.
  - destruct (strict_eq k k') eqn:E.
    + apply Heq in E as <-. split; [done|]. intros x. cbn [map fst]. rewrite elem_of_cons. tauto.
    + apply NoDup_cons in Hn as [Hk' Hn]. destruct (IH Hn) as [H1 H2]. cbn [map fst]. split.
      * apply NoDup_cons. split; [|done]. rewrite H2. intros [->|?]; [|done]. apply not_true_iff_false in E. by apply E, Heq.
      * intros x. rewrite !elem_of_cons, H2. tauto.
Qed.

Lemma folded_keys pairs m : Forall text_key (map fst pairs) → NoDup (map fst m) →
  NoDup (map fst (folded pairs m)) ∧ ∀ x, x ∈ map fst (folded pairs m) ↔ x ∈ map fst pairs ∨ x ∈ map fst m.
Proof.
  revert m. induction pairs as [|[k v] pairs IH]; intros m Hp Hn.
  - split; [done|]. intros x. cbn [folded fold_left map]. rewrite elem_of_nil. tauto.
  - cbn [map fst] in Hp. apply Forall_cons in Hp as [Hk Hp]. destruct (map_set_keys k v m Hk Hn) as [H1 H2].
    destruct (IH (map_set k v m) Hp H1) as [H3 H4]. cbn [folded fold_left fst snd map]. split; [exact H3|].
    intros x. unfold folded in H4. rewrite H4, H2, elem_of_cons. tauto.
Qed.

(** The keys are those of the pairs, in some order. *)
Lemma folded_again_keys id v pairs : Forall text_key (map fst pairs) → existsb (names_id id) pairs = true →
  map fst (folded ((VStr id, v) :: pairs) []) ≡ₚ map fst (folded pairs []).
Proof.
  intros Hp Hin. destruct (folded_keys pairs [] Hp NoDup_nil_2) as [N1 E1].
  destruct (folded_keys ((VStr id, v) :: pairs) []) as [N2 E2]; [by constructor|constructor|].
  apply NoDup_Permutation; [done|done|]. intros x. rewrite E1, E2. cbn [map fst]. rewrite elem_of_cons.
  apply existsb_exists in Hin as ([k w] & Hkw%list_elem_of_In & Hk%strict_eq_str). cbn [fst] in Hk. subst k.
  assert (VStr id ∈ map fst pairs) by (apply elem_of_map; by exists (VStr id, w)). naive_solver.
Qed.

(** The entries by id, for a registry that fits its schema and for a doubled one. *)
Lemma doubled_by_id R e a id m : fits_testnet_schema R = true → e ∈ v_list (field R (js "entries")) →
  field e (js "id") = VStr id → by_id R = Ok m →
  ∃ m', by_id (doubled R e a) = Ok m' ∧ (∀ i, map_get i m' = map_get i m) ∧ map fst m' ≡ₚ map fst m.
Proof.
  intros HR He Hid Hm. destruct (fits_entries R HR) as (fs & l & -> & El & _ & Hl).
  unfold by_id in *. change (get (VObj fs) (js "entries")) with (Ok (field (VObj fs) (js "entries"))) in Hm.
  rewrite El in Hm, He. cbn [mbind result_bind as_array v_list] in *. take Hm as pairs Hp. apply Ok_inj in Hm as <-.
  rewrite Forall_forall in Hl. destruct (s_entry_id e (Hl e He)) as (es & s & -> & _).
  exists (folded ((VStr id, with_field (VObj es) (js "address") (VStr a)) :: pairs) []).
  assert (Forall2 (λ entry kv, kv = (field entry (js "id"), entry)) l pairs) as H2.
  { apply map_res_Ok in Hp. eapply Forall2_impl; [exact Hp|]. intros x kv H. cbn beta in H. take H as i Hi.
    apply Ok_inj in H as <-. by apply get_Ok in Hi as [_ ->]. }
  assert (Forall text_key (map fst pairs)) as Hkeys.
  { apply Forall_map, Forall_forall. intros kv Hkv. apply list_elem_of_lookup in Hkv as [n Hn].
    destruct (Forall2_lookup_r _ _ _ _ _ H2 Hn) as (x & Hx & ->). cbn [fst].
    destruct (s_entry_id x) as (? & s' & _ & E); [apply Hl; by eapply list_elem_of_lookup_2|]. by rewrite E. }
  assert (existsb (names_id id) pairs = true) as Hin.
  { apply list_elem_of_lookup in He as [n Hn]. destruct (Forall2_lookup_l _ _ _ _ _ H2 Hn) as (kv & Hkv & ->).
    apply existsb_exists. eexists. split; [apply list_elem_of_In; by eapply list_elem_of_lookup_2|].
    apply strict_eq_str. exact Hid. }
  split_and!; [|intros i; by apply folded_again|by apply folded_again_keys].
  unfold doubled. rewrite El. cbn [v_list]. rewrite get_with_field, jeq_refl.
  cbn [mbind result_bind as_array map_res]. rewrite get_with_field.
  change (js "id" =s? js "address") with false. cbn iota. rewrite Hid. cbn [mbind result_bind]. by rewrite Hp.
Qed.

Lemma doubled_get R e a k : fits_testnet_schema R = true → (k =s? js "entries") = false →
  get (doubled R e a) k = get R k.
Proof.
  intros HR Hk. destruct (fits_entries R HR) as (fs & l & -> & _). unfold doubled. by rewrite get_with_field, Hk.
Qed.

(** The readers of the doubled registry find the copy. *)
Lemma doubled_found R e a id : fits_testnet_schema R = true → e ∈ v_list (field R (js "entries")) →
  field e (js "id") = VStr id →
  (entries ← get (doubled R e a) (js "entries"); find_by "id" (VStr id) entries) = Ok (with_field e (js "address") (VStr a)) ∧
  get (with_field e (js "address") (VStr a)) (js "address") = Ok (VStr a) ∧ truthy (with_field e (js "address") (VStr a)) = true.
Proof.
  intros HR He Hid. destruct (fits_entries R HR) as (fs & l & -> & El & _ & Hl). rewrite El in He. cbn [v_list] in He.
  rewrite Forall_forall in Hl. destruct (s_entry_id e (Hl e He)) as (es & s & -> & _).
  unfold doubled. rewrite get_with_field, jeq_refl. cbn [mbind result_bind]. unfold find_by.
  cbn [as_array mbind result_bind find_res]. rewrite !get_with_field.
  change (js "id" =s? js "address") with false. rewrite Hid, jeq_refl. cbn [mbind result_bind strict_eq]. by rewrite jeq_refl.
Qed.

Section twice.
Context (lib : library) (ajv : value → result (value → bool * value)).
Context (readFile readFile' : jstr → result (list Z)) (root : jstr) (absolute_root : is_absolute root = true).

Definition testnet_path : jstr := js "contracts/deployments/testnet.json".
Definition testnet_schema_path : jstr := js "contracts/deployments/deployment-registry-testnet-v1.schema.json".

(** Ajv decides the schema of the registry as the keywords say. *)
Definition decides_testnet_schema : Prop := ∀ schema validate doc,
  readRepositoryJson readFile root testnet_schema_path = Ok schema → ajv schema = Ok validate →
  fst (validate doc) = fits_testnet_schema doc.

Context (decided : decides_testnet_schema).
Context (R e : value) (a id : jstr).
Context (R_read : readRepositoryJson readFile root testnet_path = Ok R).
Context (e_in : e ∈ v_list (field R (js "entries"))) (e_id : field e (js "id") = VStr id).
Context (a_address : is_registry_address a = true).
Context (same_files : ∀ p, p ≠ dest root testnet_path → readFile' p = readFile p).
Context (R_read' : readRepositoryJson readFile' root testnet_path = Ok (doubled R e a)).

Lemma other_document p : tailed p = true → last_two p ≠ last_two testnet_path →
  readRepositoryJson readFile' root p = readRepositoryJson readFile root p.
Proof.
  intros Hp Hne. unfold readRepositoryJson, Deploy.readJson. rewrite same_files; [done|].
  by apply dest_differ.
Qed.

Lemma readTestnet_doubled f : readTestnet ajv readFile root = Ok f →
  fits_testnet_schema R = true ∧ TestnetRegistry.registry f = R ∧
  readTestnet ajv readFile' root =
    Ok (TestnetFiles (doubled R e a) (TestnetRegistry.config f) (TestnetRegistry.localnet f) (TestnetRegistry.identifiers f) (TestnetRegistry.genesisManifest f)).
Proof.
  intros H. unfold readTestnet in H. fold testnet_path in H. fold testnet_schema_path in H.
  rewrite R_read in H. cbn [mbind result_bind] in H. take H as schema Hs. take H as config Hc. take H as localnet Hl.
  take H as identifiers Hi. take H as manifest Hm. take H as validate Hv.
  pose proof (decided _ _ R Hs Hv) as HR. pose proof (decided _ _ (doubled R e a) Hs Hv) as HR'.
  destruct (validate R) as [valid errors] eqn:E. cbn [fst] in HR. passed H as Hvalid.
  rewrite Hvalid in HR. apply Ok_inj in H as <-. symmetry in HR. split; [done|]. split; [done|].
  rewrite doubled_fits in HR' by done. unfold readTestnet. fold testnet_path. fold testnet_schema_path.
  rewrite R_read'. cbn [mbind result_bind]. rewrite !other_document by (vm_compute; done || discriminate).
  rewrite Hs, Hc, Hl, Hi, Hm. cbn [mbind result_bind]. rewrite Hv. cbn [mbind result_bind].
  destruct (validate (doubled R e a)) as [valid' errors']. cbn [fst] in HR'. by rewrite HR'.
Qed.

Lemma checkTestnetChain_doubled f : fits_testnet_schema R = true → TestnetRegistry.registry f = R →
  checkTestnetChain lib (TestnetFiles (doubled R e a) (TestnetRegistry.config f) (TestnetRegistry.localnet f) (TestnetRegistry.identifiers f) (TestnetRegistry.genesisManifest f))
  = checkTestnetChain lib f.
Proof.
  intros HR <-. unfold checkTestnetChain. cbn [TestnetRegistry.registry TestnetRegistry.config TestnetRegistry.identifiers TestnetRegistry.genesisManifest walk].
  by rewrite !(doubled_get _ e a _ HR) by (vm_compute; reflexivity).
Qed.

(** Follows one more step of [H] in the goal. *)
Ltac follow H :=
  let G := fresh "G" in apply bind_Ok in H; destruct H as (? & G & H); rewrite G; clear G; cbn [mbind result_bind].

(** An artifact is not the registry: the registry has no bytecode. *)
Lemma artifact_elsewhere file artifact creation : fits_testnet_schema R = true →
  Deploy.readJson readFile file = Ok artifact → walk artifact ["bytecode"; "creation"]%string = Ok creation →
  Deploy.readJson readFile' file = Ok artifact.
Proof.
  intros HR Ha Hw. unfold Deploy.readJson in *. rewrite same_files; [done|]. intros ->.
  unfold readRepositoryJson, Deploy.readJson, testnet_path in R_read. unfold dest, testnet_path in Ha. rewrite R_read in Ha.
  apply Ok_inj in Ha as <-. unfold walk in Hw. take Hw as b Hb. apply get_Ok in Hb as [_ ->].
  rewrite (s_object_closed _ _ _ (js "bytecode") HR) in Hw; [done|].
  apply Forall_forall. intros p Hp. repeat (apply elem_of_cons in Hp as [->|Hp]; [done|]). by apply elem_of_nil in Hp.
Qed.

Lemma checkTestnetCode_doubled m m' localnetById i x : fits_testnet_schema R = true →
  (∀ j, map_get j m' = map_get j m) →
  checkTestnetCode lib readFile root m localnetById i = Ok x →
  checkTestnetCode lib readFile' root m' localnetById i = Ok x.
Proof.
  intros HR Hm H. unfold checkTestnetCode in *. rewrite Hm. cbv zeta in *. do 14 follow H.
  take H as artifact Ha. take H as creation Hw. rewrite (artifact_elsewhere _ _ _ HR Ha Hw). cbn [mbind result_bind].
  rewrite Hw. exact H.
Qed.

Lemma same_checks m m' : (∀ j, map_get j m' = map_get j m) →
  (∀ l, checkTestnetNative m' l = checkTestnetNative m l) ∧
  (∀ d, checkTestnetFactory lib m' d = checkTestnetFactory lib m d) ∧
  (∀ c l d i, checkTestnetCreate2 lib m' c l d i = checkTestnetCreate2 lib m c l d i) ∧
  checkTestnetRoles lib m' = checkTestnetRoles lib m.
Proof.
  intros Hm. split_and!; intros.
  - unfold checkTestnetNative. by rewrite Hm.
  - unfold checkTestnetFactory. by rewrite Hm.
  - unfold checkTestnetCreate2. by rewrite Hm.
  - unfold checkTestnetRoles. by rewrite Hm.
Qed.

(** The validator accepts the doubled registry. *)
Lemma doubled_accepted msg : validateTestnetRegistry lib ajv readFile root = Ok msg →
  fits_testnet_schema R = true ∧ validateTestnetRegistry lib ajv readFile' root = Ok msg.
Proof.
  intros H. unfold validateTestnetRegistry in *. take H as f Hf.
  destruct (readTestnet_doubled f Hf) as (HR & Hreg & Hf'). split; [done|]. rewrite Hf'. cbn [mbind result_bind].
  rewrite checkTestnetChain_doubled by done. cbn [TestnetRegistry.localnet TestnetRegistry.registry TestnetRegistry.config].
  follow H. take H as pins Hpins. rewrite Hpins. cbn [mbind result_bind]. take H as m Hm. rewrite Hreg in Hm. destruct (doubled_by_id R e a id m HR e_in e_id Hm) as (m' & -> & Hget & Hkeys).
  cbn [mbind result_bind]. destruct (same_checks m m' Hget) as (S1 & S2 & S3 & S4). passed H as G.
  apply andb_true_iff in G as [G1%forallb_spec G2%bool_decide_eq_true].
  assert (forallb is_string (map fst m') && bool_decide (sort_strings (map v_str (map fst m')) = testnet_ids) = true) as ->.
  { apply andb_true_iff. split; [apply forallb_spec; by rewrite Hkeys|]. apply bool_decide_eq_true. rewrite <- G2.
    apply sort_strings_eq. by rewrite Hkeys. }
  cbn [assert mbind result_bind]. rewrite S1. follow H. take H as artifacts Ha.
  assert (map_res (checkTestnetCode lib readFile' root m' pins) [factory_id; attestation_id; distributor_id] = Ok artifacts) as ->.
  { apply map_res_Ok. apply map_res_Ok in Ha. eapply Forall2_impl; [exact Ha|]. intros i y Hy. by eapply checkTestnetCode_doubled. }
  cbn [mbind result_bind]. rewrite S2. follow H. cbn [for_each] in *. rewrite !S3, S4. exact H.
Qed.
End twice.

(** C38. No check sees that an id occurs twice in the testnet registry. Take any
    registry that the validator accepts, with Ajv deciding the repository's schema as
    its keywords say, and put in front a copy of one of its entries with any other
    well-formed address: the validator accepts the new registry as well, with the
    same message, since it keeps the last entry with an id, while the SDK generator
    and the bundle of network metadata take the first: the copy's address, which
    nothing compared with anything, is what they publish. *)
Theorem duplicate_id_published lib ajv radix16 readFile readFile' root msg R e a id :
  is_absolute root = true → decides_testnet_schema ajv readFile root →
  validateTestnetRegistry lib ajv readFile root = Ok msg →
  readRepositoryJson readFile root testnet_path = Ok R →
  e ∈ v_list (field R (js "entries")) → field e (js "id") = VStr id → is_registry_address a = true →
  (∀ p, p ≠ dest root testnet_path → readFile' p = readFile p) →
  readRepositoryJson readFile' root testnet_path = Ok (doubled R e a) →
  validateTestnetRegistry lib ajv readFile' root = Ok msg ∧
  (entry ← testnet_entry (doubled R e a) id; get entry (js "address")) = Ok (VStr a) ∧
  ∀ k serialized checksums, (k, id) ∈ published_names →
    build_bundle lib ajv radix16 readFile' root = Ok (serialized, checksums) →
    ∃ artifact, serialized = stringify 2 0 artifact +++ [10%N] ∧ published artifact k = Ok (VStr a).
Proof.
  intros Hroot Hdec Hv HR He Hid Ha Hfiles HR'.
  destruct (doubled_accepted lib ajv readFile readFile' root Hroot Hdec R e a id HR He Hid Ha Hfiles HR' msg Hv) as [Hfit Hok].
  destruct (doubled_found R e a id Hfit He Hid) as (Hfind & Hget & Htruthy). split; [done|]. split.
  - unfold testnet_entry. destruct (get (doubled R e a) (js "entries")) as [entries|]; [|done].
    cbn [mbind result_bind] in *. rewrite Hfind. cbn [mbind result_bind]. by rewrite Htruthy.
  - intros k serialized checksums Hk (entries & artifact & Hread & Hb & _ & ->)%build_bundle_Ok.
    exists artifact. split; [done|]. apply buildArtifact_published in Hb. rewrite Forall_forall in Hb.
    destruct (Hb _ Hk) as (x & Hx & Hc). cbn [fst snd] in *. rewrite Hx. f_equal.
    pose proof (entry_value_read readFile' root entries "testnetContracts" "contracts/deployments/testnet.json" Hread eq_refl) as E.
    fold testnet_path in E. rewrite HR' in E. apply Ok_inj in E. rewrite <- E in Hc. unfold contractAddress in Hc.
    destruct (get (doubled R e a) (js "entries")) as [l|]; [|done]. cbn [mbind result_bind] in *. rewrite Hfind in Hc.
    cbn [mbind result_bind] in Hc. rewrite Htruthy in Hc. cbn [assert mbind result_bind] in Hc. rewrite Hget in Hc.
    by apply Ok_inj in Hc as ->.
Qed.

(** ** Checking after writing *)

Lemma map_res_same {A B} (f g : A → result B) l : (∀ x, x ∈ l → f x = g x) → map_res f l = map_res g l.
Proof.
  induction l as [|x l IH]; intros H; [done|]. cbn [map_res]. rewrite (H x), IH; [done| |left].
  intros y Hy. apply H. by right.
Qed.

Definition beside_names : list string :=
  ["network-artifacts-v0.schema.json"; "README.md"; "generate-network-artifacts-v0.mjs"]%string.

Section script.
Context (lib : library) (ajv : value → result (value → bool * value)) (radix16 : num → jstr) (root : jstr).

(** The files that the bundle is made from. *)
Definition read_paths : list jstr :=
  map (λ p : string * string, dest root (js (snd p))) source_paths ++ map (beside root) beside_names.

Lemma build_bundle_same read1 read2 :
  (∀ p, p ∈ read_paths → read1 p = read2 p) →
  build_bundle lib ajv radix16 read1 root = build_bundle lib ajv radix16 read2 root.
Proof.
  intros H. unfold build_bundle.
  assert (∀ name, name ∈ beside_names → read1 (beside root name) = read2 (beside root name)) as Hb.
  { intros name Hn. apply H, elem_of_app. right. apply elem_of_map. by exists name. }
  rewrite (map_res_same (read_source read1 root) (read_source read2 root)).
  - destruct (map_res _ source_paths); [|done]. cbn [mbind result_bind].
    rewrite (Hb "network-artifacts-v0.schema.json"%string) by (unfold beside_names; set_solver).
    rewrite (Hb "README.md"%string) by (unfold beside_names; set_solver).
    by rewrite (Hb "generate-network-artifacts-v0.mjs"%string) by (unfold beside_names; set_solver).
  - intros p Hp. unfold read_source. rewrite (H (path_join [root; js (snd p)])); [done|].
    apply elem_of_app. left. apply elem_of_map. by exists p.
Qed.

Context (absolute_root : is_absolute root = true).

Lemma join_end sep l a b : join [sep] (l ++ [a; b]) = join [sep] (l ++ [a]) ++ sep :: b.
Proof.
  induction l as [|x l IH]; [done|]. destruct l as [|y l]; [cbn [app join]; unfold jcat; by rewrite <- !app_assoc|].
  change (join [sep] ((x :: y :: l) ++ [a; b])) with (x ++ [sep] ++ join [sep] ((y :: l) ++ [a; b])).
  change (join [sep] ((x :: y :: l) ++ [a])) with (x ++ [sep] ++ join [sep] ((y :: l) ++ [a])).
  by rewrite IH, <- !app_assoc.
Qed.

Lemma beside_tail name : clean (js name) = true → tail_of (beside root name) (js "releases") (js name).
Proof.
  intros Hn. assert (tail_of (bundle_directory root) (js "chain") (js "releases")) as (l & E & _)
    by (apply dest_tail; [done|vm_compute; reflexivity..]).
  unfold beside. apply (path_join_tail _ _ (slash :: join [slash] (l ++ [js "chain"]))); [|by destruct (js name)| |vm_compute; reflexivity|done].
  - by rewrite E.
  - rewrite E, join_end. cbn [app]. f_equal. by rewrite <- app_assoc.
Qed.

Definition output_names : list string := ["network-artifacts-v0.json"; "SHA256SUMS"]%string.

Lemma read_not_output p name : p ∈ read_paths → name ∈ output_names → p ≠ beside root name.
Proof.
  intros Hp Hn Heq. assert (clean (js name) = true) as Hc.
  { assert (forallb (λ n, clean (js n)) output_names = true) as H by (vm_compute; reflexivity).
    apply forallb_spec in H. rewrite Forall_forall in H. by apply H. }
  pose proof (beside_tail name Hc) as Ht. unfold read_paths in Hp. apply elem_of_app in Hp as [Hp|Hp]; apply elem_of_map in Hp as (q & -> & Hq).
  - assert (forallb (λ p : string * string, tailed (js (snd p))
      && match last_two (js (snd p)) with Some (a, _) => negb (a =s? js "releases") | None => false end) source_paths = true)
      as H by (vm_compute; reflexivity).
    apply forallb_spec in H. rewrite Forall_forall in H. apply H in Hq. apply andb_true_iff in Hq as [H1 H2].
    destruct (tailed_dest root absolute_root _ H1) as (a & b & E & T). rewrite E in H2. rewrite Heq in T.
    destruct (tail_of_inj _ _ _ _ _ T Ht) as [-> _]. by rewrite jeq_refl in H2.
  - assert (forallb (λ n, clean (js n) && negb (existsb (λ m, js n =s? js m) output_names)) beside_names = true)
      as H by (vm_compute; reflexivity).
    apply forallb_spec in H. rewrite Forall_forall in H. apply H in Hq. apply andb_true_iff in Hq as [H1 H2].
    apply beside_tail in H1. rewrite Heq in H1. destruct (tail_of_inj _ _ _ _ _ H1 Ht) as [_ E]. apply negb_true_iff in H2.
    rewrite <- not_true_iff_false, existsb_exists in H2. apply H2. exists name. split; [by apply list_elem_of_In|].
    rewrite E. apply jeq_refl.
Qed.

Context (fault : gmap jstr (list Z) → operation → option exn) (torn : jstr → list Z → option (list Z)).
Context (reads_work : ∀ s p, fault s (ReadFile p) = None).

Abbreviation bundle_on := (bundle_on lib ajv radix16 root fault).
Abbreviation networkArtifacts := (networkArtifacts lib ajv radix16 root fault torn).

Lemma check_file_Ok (s : gmap jstr (list Z)) path text :
  s !! path = Some (utf8_encode text) → utf8_decode (utf8_encode text) = text →
  check_file fault path text s = (Ok (), s).
Proof.
  intros Hs Ht. unfold check_file, read_file. rewrite (read_disk_at fault reads_work), Hs. cbn [mbind result_bind].
  by rewrite Ht, jeq_refl.
Qed.

(** The bundle is checked as it was written: after a run with --write, a run with
    --check, or without an option, builds the same bundle from the same sources,
    finds both files current when their texts survive UTF-8, and changes nothing. *)
Theorem bundle_write_then_check s msg s' argv :
  networkArtifacts [js "--write"] s = (Ok msg, s') → argv = [] ∨ argv = [js "--check"] →
  ∃ serialized checksums, bundle_on s = Ok (serialized, checksums) ∧ bundle_on s' = bundle_on s ∧
    snd (networkArtifacts argv s') = s' ∧
    (utf8_decode (utf8_encode serialized) = serialized → utf8_decode (utf8_encode checksums) = checksums →
       networkArtifacts argv s' = (Ok (js "network artifacts v0 are current"), s')).
Proof.
  intros H Hargv. unfold NetworkArtifacts.networkArtifacts, mbind, io_bind, pure in H.
  destruct (bundle_on s) as [[ser ch]|e] eqn:E; [|done]. exists ser, ch. split; [done|].
  change (js "--write" =s? js "--write") with true in H. cbn [assert] in H. unfold writeBytes, perform in H.
  destruct (fault s _); [done|]. destruct (fault _ _); [done|]. unfold mret, io_ret in H. injection H as <- <-.
  set (s1 := <[checksumsPath root:=utf8_encode ch]> _).
  assert (bundle_on s1 = Ok (ser, ch)) as E1.
  { rewrite <- E. apply build_bundle_same. intros p Hp. unfold read_file. rewrite !(read_disk_at fault reads_work). subst s1.
    rewrite !lookup_insert_ne; [done| |]; intros Hq; symmetry in Hq; revert Hq; apply read_not_output; try done; unfold output_names; set_solver. }
  split; [done|]. assert (s1 !! checksumsPath root = Some (utf8_encode ch)) as L2 by (subst s1; by rewrite lookup_insert_eq).
  assert (s1 !! outputPath root = Some (utf8_encode ser)) as L1.
  { subst s1. rewrite lookup_insert_ne; [by rewrite lookup_insert_eq|]. intros Hq. symmetry in Hq. revert Hq.
    intros Hq. assert (tail_of (outputPath root) (js "releases") (js "SHA256SUMS")) as T1
      by (rewrite Hq; apply beside_tail; vm_compute; reflexivity).
    assert (tail_of (outputPath root) (js "releases") (js "network-artifacts-v0.json")) as T2 by (apply beside_tail; vm_compute; reflexivity).
    by destruct (tail_of_inj _ _ _ _ _ T1 T2). }
  assert (∀ k, networkArtifacts argv s1 = k → k = (check_file fault (outputPath root) ser;;
      check_file fault (checksumsPath root) ch;; mret (js "network artifacts v0 are current")) s1) as Hrun.
  { intros k <-. unfold NetworkArtifacts.networkArtifacts, mbind, io_bind, pure. rewrite E1. by destruct Hargv as [-> | ->]. }
  rewrite (Hrun _ eq_refl). split.
  - unfold mbind, io_bind. unfold check_file. by repeat case_match; simplify_eq.
  - intros S1 S2. unfold mbind, io_bind. rewrite (check_file_Ok s1 _ _ L1 S1), (check_file_Ok s1 _ _ L2 S2). done.
Qed.

End script.
