(* ===== verification/NetworkSamples.v ===== *)
(** A bundle of network metadata for the deployment of [TestnetSamples]; the testnet
    registry of the repository, and that registry with an id that occurs twice. *)

From stdpp Require Import gmap.
From S2P Require Import Prelude JsNum JsText JsUtf8 JsValue JsOps JsonText JsPath Deploy DeployFacts GeneratedFiles GeneratedFilesFacts TestnetRegistry TestnetRegistryFacts LocalnetRegistry LocalnetRegistryFacts GenerateArtifacts GenerateArtifactsFacts NetworkArtifacts NetworkArtifactsFacts.
Import DeployFacts.Samples TestnetSamples.

Open Scope Z_scope.

(** ** Documents *)

Definition genesis_hash : jstr := repeat 97%N 64.

Definition with_hash (v : value) : value :=
  with_field v (js "chain") (with_field (field v (js "chain")) (js "genesisSha256") (VStr genesis_hash)).

Definition bundle_registry : value :=
  with_field (with_field (with_hash testnet_registry) (js "registryVersion") (vs "0.2.0")) (js "releaseStatus") (vs "testnet").

Definition bundle_localnet : value := VObj [
  "registryVersion" :=: vs "0.1.0"; "releaseStatus" :=: vs "local"; "chain" :=: VObj ["genesisSha256" :=: vs "s"];
  "entries" :=: field testnet_localnet (js "entries")]%js.

Definition sample_network (environment : string) (public : bool) (cosmos : string) (id : Z) (hex : string) : value := VObj [
  "environment" :=: vs environment; "public" :=: VBool public; "displayName" :=: vs environment;
  "nativeCurrencySymbol" :=: vs "tTOR"; "cosmos" :=: VObj ["chainId" :=: vs cosmos];
  "evm" :=: VObj ["chainId" :=: vi id; "chainIdHex" :=: vs hex; "networkId" :=: vi id;
    "caip2" :=: VStr (js "eip155:" +++ dec_of_Z id); "shortName" :=: vs environment; "registryStatus" :=: vs "reserved"]]%js.

Definition url_list (url : string) : value := VArr [vs url].

Definition bundle_identifiers : value := VObj [
  "manifestVersion" :=: vs "1"; 
  "networks" :=: VArr [sample_network "localnet" false "local-1" 6 "0x6"; sample_network "devnet" false "dev-1" 16 "0x10";
    sample_network "testnet" true "test-1" 7 "0x7"; sample_network "mainnet" true "main-1" 255 "0xff"];
  "currency" :=: VObj ["baseDenom" :=: vs "atorium"; "decimals" :=: vi 18;
    "mainnet" :=: VObj ["name" :=: vs "Torium"]; "nonValueNetworks" :=: VObj ["name" :=: vs "Test Torium"]];
  "walletMetadata" :=: VObj ["localnetDefaults" :=: VObj [
    "rpcUrls" :=: url_list "http://127.0.0.1:8545"; "webSocketUrls" :=: url_list "ws://127.0.0.1:8546";
    "blockExplorerUrls" :=: VArr []]]]%js.

Definition bundle_manifest : value := VObj [
  "schema_version" :=: vi 1; "cosmos_chain_id" :=: vs "test-1"; "evm_chain_id" :=: vi 7; "genesis_sha256" :=: VStr genesis_hash;
  "public_endpoints" :=: VObj ["evmJsonRpc" :=: vs "https://rpc.torium.network"; "evmWebSocket" :=: vs "wss://ws.torium.network";
    "blockExplorer" :=: vs "https://explorer.torium.network"; "faucet" :=: vs "https://faucet.torium.network"]]%js.

Definition bundle_documents (registry : value) : list (jstr * list Z) := map (λ x, (js "/r/" +++ js (fst x), file_of (snd x))) [
  ("contracts/deployments/testnet.json", registry);
  ("contracts/deployments/localnet.json", bundle_localnet);
  ("chain/config/identifiers.json", bundle_identifiers);
  ("chain/genesis/testnet/manifest.json", bundle_manifest);
  ("chain/config/identifier-availability.json", VObj []);
  ("chain/config/protocol-v1.json", VObj []);
  ("chain/genesis/localnet/genesis.json", VObj []);
  ("chain/genesis/localnet/manifest.json", VObj ["genesis_sha256" :=: vs "s"]%js);
  ("chain/recovery/recovery-v0.json", VObj ["stateSync" :=: VObj []; "snapshots" :=: VObj ["developerRuntimeEnvelope" :=: VObj []]]%js);
  ("chain/config/governance-v1.json", VObj ["upgrade" :=: VObj []; "authorizationRules" :=: VObj []]%js);
  ("chain/profiles/node-roles-v0.json", VObj []);
  ("packages/torium-sdk/package.json", VObj ["version" :=: vs "1.0.0"]%js);
  ("chain/explorer/selection-v1.json", VObj []); ("chain/explorer/stack-v0.json", VObj []);
  ("chain/releases/network-artifacts-v0.schema.json", VObj []);
  ("chain/releases/README.md", VObj []); ("chain/releases/generate-network-artifacts-v0.mjs", VObj [])]%string.

Definition bundle_readFile (registry : value) (path : jstr) : result (list Z) :=
  match assoc path (bundle_documents registry) with Some b => Ok b | None => testnet_readFile path end.

Lemma bundle_root : is_absolute (js "/r") = true.
Proof. vm_compute. reflexivity. Qed.

(** ** The published addresses *)

Abbreviation sample_bundle := (build_bundle text_library accept_all (λ _, []) (bundle_readFile bundle_registry) (js "/r")).
Definition bundle_texts : jstr * jstr := match sample_bundle with Ok x => x | Throw _ => ([], []) end.

Abbreviation bundle_main :=
  (main text_library world sample_net (bundle_readFile bundle_registry) (λ _ _, Ok ()) sample_env (js "/r")).
Definition bundle_run : result deploy_record * run world := bundle_main testnet_argv empty.
Definition bundle_record : deploy_record := match fst bundle_run with Ok r => r | Throw _ => sample_record end.

Lemma bundle_accepted :
  validateTestnetRegistry text_library accept_all (bundle_readFile bundle_registry) (js "/r") = Ok success.
Proof. vm_compute. reflexivity. Qed.

Lemma bundle_localnet_read :
  readRepositoryJson (bundle_readFile bundle_registry) (js "/r") (js "contracts/deployments/localnet.json") = Ok bundle_localnet.
Proof. vm_compute. reflexivity. Qed.

Lemma bundle_text_ids : text_ids bundle_localnet.
Proof. exact testnet_text_ids. Qed.

Lemma bundle_config o : parseArguments testnet_argv = Ok o →
  readRepositoryJson (bundle_readFile bundle_registry) (js "/r") deployment_config
  = Deploy.readJson (bundle_readFile bundle_registry) (configPath o).
Proof. intros Ho. vm_compute in Ho. apply Ok_inj in Ho as <-. vm_compute. reflexivity. Qed.

Lemma bundle_run_ok : bundle_main testnet_argv empty = (Ok bundle_record, snd bundle_run).
Proof. vm_compute. reflexivity. Qed.

Lemma bundle_distinct registry :
  readRepositoryJson (bundle_readFile bundle_registry) (js "/r") (js "contracts/deployments/testnet.json") = Ok registry →
  distinct_ids registry.
Proof.
  assert (readRepositoryJson (bundle_readFile bundle_registry) (js "/r") (js "contracts/deployments/testnet.json")
    = Ok bundle_registry) as -> by (vm_compute; reflexivity).
  intros [= <-]. unfold distinct_ids.
  assert (map (λ entry, field entry (js "id")) (v_list (field bundle_registry (js "entries")))
    = VStr <$> [native_id; factory_id; attestation_id; distributor_id]) as -> by (vm_compute; reflexivity).
  apply NoDup_fmap_2; [by intros x y [= ->]|]. apply (bool_decide_unpack _). vm_compute. exact I.
Qed.

Lemma bundle_texts_ok : sample_bundle = Ok bundle_texts.
Proof. vm_compute. reflexivity. Qed.

Lemma published_addresses_deployed_witness :
  ∃ artifact, fst bundle_texts = stringify 2 0 artifact +++ [10%N] ∧
    Forall2 (λ p d, ∃ a, published artifact (fst p) = Ok a ∧ getAddress text_library a = Ok (address d))
      published_names (contracts bundle_record).
Proof.
  exact (published_addresses_deployed text_library accept_all (λ _, []) (bundle_readFile bundle_registry) (js "/r") sample_env
    world sample_net (λ _ _, Ok ()) code_at accept_all success testnet_argv empty bundle_record (snd bundle_run) bundle_localnet
    (fst bundle_texts) (snd bundle_texts) text_library_addresses sample_keeps bundle_accepted bundle_localnet_read
    bundle_text_ids bundle_config bundle_run_ok bundle_distinct bundle_texts_ok).
Defined.

(** ** The registry of the repository, and an id that occurs twice *)

(** contracts/deployments/testnet.json, and the parts of the other documents that it
    is compared with. *)
Definition operations : value := vs "0x4af1a912c5260E7D8c6f24fca492569eC71c6FDd".

Definition testnet_authority : value := VObj [
  "deployerAddress" :=: operations;
  "provenance" :=: vs "operator-held ethsecp256k1 key created 2026-08-23 in the torium-testnet-1 operations keyring; the private key lives only in the operations secrets store and never enters this repository";
  "note" :=: vs "single operations authority for the valueless public testnet; not a production authority model"]%js.

Definition native_recorded : value := VObj [
  "id" :=: vs "torium-native";
  "contractName" :=: vs "IToriumNative";
  "classification" :=: vs "protocol-precompile";
  "address" :=: vs "0xEeeeeEeeeEeEeeEeEeEeeEEEeeeeEeeeeeeeEEeE";
  "implementationVersion" :=: vs "protocol-v1";
  "codeIdentity" :=: vs "protocol-precompile-no-evm-bytecode";
  "deployment" :=: VNull;
  "verification" :=: VObj ["kind" :=: vs "genesis-registration"; "genesisStatePath" :=: vs "app_state.erc20.native_precompiles"; "observedInGenesis" :=: VBool true]]%js.

Definition code_identity (artifactPath creation runtime : string) : value := VObj [
  "artifactPath" :=: vs artifactPath; "creationCodeKeccak256" :=: vs creation;
  "runtimeCodeKeccak256" :=: vs runtime]%js.

Definition on_explorer (url : string) : value := VObj [
  "kind" :=: vs "broadcast-and-runtime-code-hash"; "observedOnChain" :=: VBool true; "explorerUrl" :=: vs url]%js.

Definition distributor_arguments : value := VObj [
  "defaultAdminDelay_" :=: vi 86400;
  "initialAdmin_" :=: operations;
  "initialPublisher_" :=: operations;
  "initialPauser_" :=: operations;
  "initialClawbackOperator_" :=: operations;
  "treasury_" :=: vs "0x496268fB738890d2075018878f010E6581F9Ab47";
  "publicationDelay_" :=: vi 3600;
  "clawbackDelay_" :=: vi 86400]%js.

Definition granted (role authority : string) : value := VObj [
  "role" :=: vs role; "assignment" :=: operations; "authority" :=: vs authority]%js.

Definition factory_recorded : value := VObj [
  "id" :=: vs "torium-create2-factory";
  "contractName" :=: vs "ToriumCreate2Factory";
  "classification" :=: vs "post-genesis-create";
  "address" :=: vs "0x2334774dFdE49c611C3a270B0F391a7cf581AfF7";
  "implementationVersion" :=: vs "1.0.0";
  "codeIdentity" :=: code_identity "contracts/generated/abi/ToriumCreate2Factory.json"
    "0xee161de04cad95593df8b92ae29766ea677b84e9a6533a4f523b45e7ede8104d"
    "0x1c8443d4510a3e5ab30fadbca17e932276bf09c93a6c6cbce40081cbf0273e55";
  "deployment" :=: VObj [
    "strategy" :=: vs "deployer-create-nonce-0";
    "deployerAddress" :=: operations;
    "deployerNonce" :=: vs "0";
    "transactionHash" :=: vs "0xee4deb08bb3f65943beaf46f5a9f3b3e781d20b8a65ee5658783bd8c85a4e196";
    "blockNumber" :=: vi 264];
  "verification" :=: on_explorer "https://explorer.testnet.torium.network/address/0x2334774dFdE49c611C3a270B0F391a7cf581AfF7"]%js.

Definition attestation_recorded : value := VObj [
  "id" :=: vs "attestation-registry";
  "contractName" :=: vs "ToriumAttestationRegistry";
  "classification" :=: vs "post-genesis-deterministic";
  "address" :=: vs "0x17e64A025e33865005B2cC793b093Dc2DB57bdc4";
  "implementationVersion" :=: vs "1.0.0";
  "codeIdentity" :=: code_identity "contracts/generated/abi/ToriumAttestationRegistry.json"
    "0x63764414c6540d9a26f0a83049d8d2bf06a6906334d9454024dfb5f76ef5b8ee"
    "0x5b116d7520ab2a3f5129d62096841e0def2df8d82ad5c9bfb82ec189bca10705";
  "deployment" :=: VObj [
    "strategy" :=: vs "factory-create2";
    "factoryAddress" :=: vs "0x2334774dFdE49c611C3a270B0F391a7cf581AfF7";
    "salt" :=: vs "0x5a6ff4e921dc1ca6098dc22652b8da9399b8a69c2ab7f5715dad5ea751128220";
    "saltPreimage" :=: vs "torium.attestation-registry.v1";
    "initCodeHash" :=: vs "0x63764414c6540d9a26f0a83049d8d2bf06a6906334d9454024dfb5f76ef5b8ee";
    "constructorArguments" :=: VArr [];
    "transactionHash" :=: vs "0xa31c71df63da325b3e08776b706a6ce6351f0734507c721f87462d7f1ed9acab";
    "blockNumber" :=: vi 266];
  "verification" :=: on_explorer "https://explorer.testnet.torium.network/address/0x17e64A025e33865005B2cC793b093Dc2DB57bdc4"]%js.

Definition distributor_recorded : value := VObj [
  "id" :=: vs "reward-distributor";
  "contractName" :=: vs "ToriumRewardDistributor";
  "classification" :=: vs "post-genesis-deterministic";
  "address" :=: vs "0xA836D3Dc1339B69313bf23dBAe67501Ea730Fe34";
  "implementationVersion" :=: vs "1.0.0";
  "codeIdentity" :=: code_identity "contracts/generated/abi/ToriumRewardDistributor.json"
    "0x9bbe4570571fd415bf06261d8a7b03df86028bf10643552c9bbf45e8daf2c839"
    "0xb62ef55f634464915f38d47b62b694265eb18c1e91c3b95adc045f0ab805968a";
  "deployment" :=: VObj [
    "strategy" :=: vs "factory-create2";
    "factoryAddress" :=: vs "0x2334774dFdE49c611C3a270B0F391a7cf581AfF7";
    "salt" :=: vs "0x586e61b27cc0a9f754c6c41b103502d937ce1081019795a2d7704dc9655a1e03";
    "saltPreimage" :=: vs "torium.reward-distributor.v1";
    "initCodeHash" :=: vs "0x380b8376660ab8fc6764175962a6a742d84e87f02e9f69bb07a91cbe1e829734";
    "constructorArguments" :=: distributor_arguments;
    "transactionHash" :=: vs "0x5dad404451aefec47d394c017566761fbceee98d8f5321947ec7f8ebbd1a536e";
    "blockNumber" :=: vi 267];
  "roles" :=: VArr [
    granted "DEFAULT_ADMIN_ROLE" "delayed-admin-transfer";
    granted "EPOCH_PUBLISHER_ROLE" "default-admin-managed";
    granted "PAUSER_ROLE" "default-admin-managed";
    granted "CLAWBACK_ROLE" "default-admin-managed"];
  "verification" :=: on_explorer "https://explorer.testnet.torium.network/address/0xA836D3Dc1339B69313bf23dBAe67501Ea730Fe34"]%js.

Definition recorded_registry : value := VObj [
  "$schema" :=: vs "./deployment-registry-testnet-v1.schema.json";
  "schemaVersion" :=: vi 1;
  "environment" :=: vs "testnet";
  "generatedBy" :=: vs "contracts/script/deploy-testnet.mjs broadcast on 2026-09-13 (genesis 2 redeploy), promoted by review";
  "registryVersion" :=: vs "0.1.0";
  "releaseStatus" :=: vs "deployed-valueless-public-testnet";
  "configPath" :=: vs "contracts/config/testnet-deployment-v1.json";
  "chain" :=: VObj ["cosmosChainId" :=: vs "torium-testnet-1"; "evmChainId" :=: vi 1414484564; "genesisSha256" :=: vs "7eb5e332d6a697a1621fedce6b4a378616d3fd6675331a914a1de4492f609dcd"];
  "authority" :=: testnet_authority;
  "entries" :=: VArr [native_recorded; factory_recorded; attestation_recorded; distributor_recorded]]%js.

Definition recorded_config : value := VObj [
  "authority" :=: testnet_authority;
  "deployments" :=: VObj [
    "torium-create2-factory" :=: VObj ["strategy" :=: vs "deployer-create-nonce-0"; "constructorArguments" :=: VArr []];
    "attestation-registry" :=: VObj ["strategy" :=: vs "factory-create2"; "saltPreimage" :=: vs "torium.attestation-registry.v1"; "constructorArguments" :=: VArr []];
    "reward-distributor" :=: VObj ["strategy" :=: vs "factory-create2"; "saltPreimage" :=: vs "torium.reward-distributor.v1"; "constructorArguments" :=: distributor_arguments]]]%js.

(** The localnet entry with the code of a recorded one. *)
Definition pinned_to (entry : value) : value := VObj [
  "id" :=: field entry (js "id"); "contractName" :=: field entry (js "contractName"); "address" :=: field entry (js "address");
  "artifactPath" :=: field (field entry (js "codeIdentity")) (js "artifactPath");
  "code" :=: field entry (js "codeIdentity")]%js.

Definition recorded_localnet : value := with_field bundle_localnet (js "entries")
  (VArr (map pinned_to (v_list (field recorded_registry (js "entries"))))).

Definition recorded_identifiers : value := with_field bundle_identifiers (js "networks")
  (VArr [sample_network "localnet" false "local-1" 6 "0x6"; sample_network "devnet" false "dev-1" 16 "0x10";
    sample_network "testnet" true "torium-testnet-1" 1414484564 "0x544f5254"; sample_network "mainnet" true "main-1" 255 "0xff"]).

Definition recorded_manifest : value := fold_left (λ v kw, with_field v (fst kw) (snd kw)) [
  "cosmos_chain_id" :=: vs "torium-testnet-1"; "evm_chain_id" :=: vi 1414484564;
  "genesis_sha256" :=: field (field recorded_registry (js "chain")) (js "genesisSha256")]%js bundle_manifest.

(** Artifacts with a short code in place of the compiled one. *)
Definition short_artifact (code : string) (inputs : list value) : value := VObj [
  "abi" :=: VArr [VObj ["type" :=: vs "constructor"; "inputs" :=: VArr inputs]];
  "bytecode" :=: VObj ["creation" :=: vs code]]%js.

Definition input (type name : string) : value := VObj ["name" :=: vs name; "type" :=: vs type]%js.

Definition recorded_documents (registry : value) : list (jstr * list Z) := map (λ x, (js "/r/" +++ js (fst x), file_of (snd x))) [
  ("contracts/deployments/testnet.json", registry);
  ("contracts/deployments/deployment-registry-testnet-v1.schema.json", VObj ["$id" :=: vs "deployment-registry-testnet-v1"]%js);
  ("contracts/config/testnet-deployment-v1.json", recorded_config);
  ("contracts/deployments/localnet.json", recorded_localnet);
  ("chain/config/identifiers.json", recorded_identifiers);
  ("chain/genesis/testnet/manifest.json", recorded_manifest);
  ("contracts/generated/abi/ToriumCreate2Factory.json", short_artifact "0x01" []);
  ("contracts/generated/abi/ToriumAttestationRegistry.json", short_artifact "0x02" []);
  ("contracts/generated/abi/ToriumRewardDistributor.json", short_artifact "0x03"
    (map (input "uint48") ["defaultAdminDelay_"; "publicationDelay_"; "clawbackDelay_"] ++
     map (input "address") ["initialAdmin_"; "initialPublisher_"; "initialPauser_"; "initialClawbackOperator_"; "treasury_"]))]%string.

Definition recorded_readFile (registry : value) (path : jstr) : result (list Z) :=
  match assoc path (recorded_documents registry) with Some b => Ok b | None => bundle_readFile bundle_registry path end.

(** A library that knows the recorded hashes and addresses: those of the short codes,
    of the salts' preimages, and of the code behind the encoded arguments. *)
Definition recorded_hashes : list (jstr * jstr) := map (λ x, (js (fst x), js (snd x))) [
  ("0x01", "0xee161de04cad95593df8b92ae29766ea677b84e9a6533a4f523b45e7ede8104d");
  ("0x02", "0x63764414c6540d9a26f0a83049d8d2bf06a6906334d9454024dfb5f76ef5b8ee");
  ("0x03", "0x9bbe4570571fd415bf06261d8a7b03df86028bf10643552c9bbf45e8daf2c839");
  ("torium.attestation-registry.v1", "0x5a6ff4e921dc1ca6098dc22652b8da9399b8a69c2ab7f5715dad5ea751128220");
  ("torium.reward-distributor.v1", "0x586e61b27cc0a9f754c6c41b103502d937ce1081019795a2d7704dc9655a1e03");
  ("0x020x", "0x63764414c6540d9a26f0a83049d8d2bf06a6906334d9454024dfb5f76ef5b8ee");
  ("0x0304", "0x380b8376660ab8fc6764175962a6a742d84e87f02e9f69bb07a91cbe1e829734")]%string.

Definition recorded_address (salt : jstr) : jstr :=
  default [] (assoc salt (map (λ e, (v_str (field (field e (js "deployment")) (js "salt")), v_str (field e (js "address"))))
    [attestation_recorded; distributor_recorded])).

Definition recorded_library : library := Library
  (λ v, match assoc (v_str v) recorded_hashes with Some h => Ok h | None => type_error (js "unknown preimage") end)
  (λ _, js "s") (λ v, Ok (v_str v)) (λ l, Ok (concat (map v_str l))) (λ _ _, Ok (js "04"))
  (λ v, match v with VStr s => Ok s | _ => type_error (js "invalid address") end)
  (λ _ _, v_str (field factory_recorded (js "address"))) (λ _ salt _, recorded_address salt) (λ _, Ok (js "dep")).

(** Ajv, by the identity of the schema. *)
Definition recorded_ajv (schema : value) : result (value → bool * value) :=
  Ok (λ doc, (if is_undefined (field schema (js "$id")) then true else fits_testnet_schema doc, VNull)).

Abbreviation recorded_validates registry :=
  (validateTestnetRegistry recorded_library recorded_ajv (recorded_readFile registry) (js "/r")).

Example recorded_fits : fits_testnet_schema recorded_registry = true.
Proof. vm_compute. reflexivity. Qed.

Example short_address_refused :
  fits_testnet_schema (doubled recorded_registry factory_recorded (js "0xbad")) = false.
Proof. vm_compute. reflexivity. Qed.

Lemma recorded_accepted : recorded_validates recorded_registry = Ok success.
Proof. vm_compute. reflexivity. Qed.

(** The factory once more, at the address of the treasury. *)
Definition treasury : jstr := js "0x496268fB738890d2075018878f010E6581F9Ab47".
Definition doubled_registry : value := doubled recorded_registry factory_recorded treasury.

Lemma recorded_files p : p ≠ dest (js "/r") testnet_path →
  recorded_readFile doubled_registry p = recorded_readFile recorded_registry p.
Proof.
  intros Hp. unfold recorded_readFile, recorded_documents. cbn [map fst snd assoc].
  destruct (p =s? _) eqn:E; [|done]. destruct Hp. apply jeq_spec in E as ->. vm_compute. reflexivity.
Qed.

Lemma recorded_decided : decides_testnet_schema recorded_ajv (recorded_readFile recorded_registry) (js "/r").
Proof.
  intros schema validate doc Hs [= <-].
  assert (readRepositoryJson (recorded_readFile recorded_registry) (js "/r") testnet_schema_path
    = Ok (VObj ["$id" :=: vs "deployment-registry-testnet-v1"]%js)) as E by (vm_compute; reflexivity).
  rewrite E in Hs. apply Ok_inj in Hs as <-. reflexivity.
Qed.

Lemma factory_listed : factory_recorded ∈ v_list (field recorded_registry (js "entries")).
Proof. right. left. Qed.

Abbreviation doubled_bundle :=
  (build_bundle recorded_library recorded_ajv (λ _, []) (recorded_readFile doubled_registry) (js "/r")).
Definition doubled_texts : jstr * jstr := match doubled_bundle with Ok x => x | Throw _ => ([], []) end.

Lemma doubled_texts_ok : doubled_bundle = Ok doubled_texts.
Proof. vm_compute. reflexivity. Qed.

(** The registry of the repository with the factory doubled is accepted, and the
    bundle that is built from it has the treasury as its factory. *)
Lemma duplicate_id_published_witness :
  recorded_validates doubled_registry = Ok success ∧
  ∃ artifact, fst doubled_texts = stringify 2 0 artifact +++ [10%N] ∧
    published artifact "create2Factory" = Ok (VStr treasury).
Proof.
  destruct (duplicate_id_published recorded_library recorded_ajv (λ _, []) (recorded_readFile recorded_registry)
    (recorded_readFile doubled_registry) (js "/r") success recorded_registry factory_recorded treasury factory_id
    bundle_root recorded_decided recorded_accepted ltac:(vm_compute; reflexivity) factory_listed eq_refl
    ltac:(vm_compute; reflexivity) recorded_files ltac:(vm_compute; reflexivity)) as (Hok & _ & Hpub).
  split; [exact Hok|]. apply (Hpub "create2Factory"%string (fst doubled_texts) (snd doubled_texts)); [left|].
  rewrite doubled_texts_ok. by destruct doubled_texts.
Defined.

(** ** Writing and checking *)

Definition bundle_disk : gmap jstr (list Z) := list_to_map (bundle_documents bundle_registry).
Definition never (s : gmap jstr (list Z)) (o : operation) : option exn := None.

Abbreviation bundle_script := (networkArtifacts text_library accept_all (λ _, []) (js "/r") never (λ _ _, None)).
Abbreviation bundle_written := (bundle_script [js "--write"] bundle_disk).

Lemma bundle_never s p : never s (ReadFile p) = None.
Proof. reflexivity. Qed.

Lemma bundle_write_ok : bundle_written = (Ok (js "network artifacts v0 generated"), snd bundle_written).
Proof.
  assert (∀ (x : result jstr * gmap jstr (list Z)) y, fst x = y → x = (y, snd x)) as H by (by intros [? ?] ? <-).
  refine (H bundle_written _ _). vm_compute. reflexivity.
Qed.

Lemma bundle_disk_texts : bundle_on text_library accept_all (λ _, []) (js "/r") never bundle_disk = Ok bundle_texts.
Proof. vm_compute. reflexivity. Qed.

Lemma bundle_write_then_check_witness :
  bundle_script [] (snd bundle_written) = (Ok (js "network artifacts v0 are current"), snd bundle_written).
Proof.
  destruct (bundle_write_then_check text_library accept_all (λ _, []) (js "/r") bundle_root never (λ _ _, None) bundle_never
    bundle_disk _ (snd bundle_written) [] bundle_write_ok (or_introl eq_refl)) as (ser & ch & Hb & _ & _ & Hok).
  rewrite bundle_disk_texts in Hb. apply Ok_inj in Hb.
  assert (ser = fst bundle_texts) as Hs by exact (f_equal fst (eq_sym Hb)).
  assert (ch = snd bundle_texts) as Hc by exact (f_equal snd (eq_sym Hb)).
  apply Hok; [rewrite Hs|rewrite Hc]; vm_compute; reflexivity.
Defined.
