(* ===== verification/UpgradeBinary.v ===== *)
(** src/chain/operator/verify-upgrade-binary.mjs: whether the binary of an upgrade
    is the one that the on-chain plan names, before an operator installs it. *)

From S2P Require Import Prelude JsNum JsText JsUtf8 JsValue JsOps JsonText JsPath Deploy GeneratedFiles.

Open Scope Z_scope.

(** ** Processes *)

(** What [spawnSync] returns; missing output is empty, and the status of a process
    that a signal ended is missing. *)
Record spawned := Spawned {
  spawn_error : option jstr; spawn_status : option Z; spawn_stdout : jstr; spawn_stderr : jstr;
}.

(** How the script stops: with a message of its own, by showing its usage, or with
    an exception that nothing catches. *)
Inductive stop := Failed (message : jstr) | Usage | Uncaught (e : exn).

Inductive attempt (A : Type) := Done (a : A) | Stopped (s : stop).
Arguments Done {A} a.
Arguments Stopped {A} s.

#[export] Instance attempt_ret : MRet attempt := @Done.
#[export] Instance attempt_bind : MBind attempt := λ A B f m,
  match m with Done a => f a | Stopped s => Stopped s end.

Definition fail {A} (message : jstr) : attempt A := Stopped (Failed message).
Definition fail_if (b : bool) (message : jstr) : attempt () := if b then fail message else Done ().

(** An expression outside of any [try]. *)
Definition eval {A} (x : result A) : attempt A :=
  match x with Ok a => Done a | Throw e => Stopped (Uncaught e) end.

(** [try { x } catch (error) { fail(`${message}${error.message}`) }] *)
Definition attempt_or {A} (message : jstr) (x : result A) : attempt A :=
  match x with Ok a => Done a | Throw e => fail (message +++ exn_message e) end.

Definition usage : jstr := join [10%N] [
  js "Usage:";
  js "  node chain/operator/verify-upgrade-binary.mjs --plan-info FILE --binary FILE [--expected-profile post]";
  js "  node chain/operator/verify-upgrade-binary.mjs --plan-info FILE --docker-image IMAGE [--expected-profile post]"].

Definition with_usage (message : jstr) : jstr := message +++ [10%N] +++ usage.

(** ** Command line *)

Record upgrade_options := UpgradeOptions {
  expectedProfile : jstr; planInfo : option jstr; binary : option jstr; dockerImage : option jstr;
}.

Definition with_option (argument v : jstr) (o : upgrade_options) : option upgrade_options :=
  if argument =s? js "--plan-info" then Some (UpgradeOptions (expectedProfile o) (Some v) (binary o) (dockerImage o))
  else if argument =s? js "--binary" then Some (UpgradeOptions (expectedProfile o) (planInfo o) (Some v) (dockerImage o))
  else if argument =s? js "--docker-image" then Some (UpgradeOptions (expectedProfile o) (planInfo o) (binary o) (Some v))
  else if argument =s? js "--expected-profile" then Some (UpgradeOptions v (planInfo o) (binary o) (dockerImage o))
  else None.

Fixpoint parse_upgrade (o : upgrade_options) (arguments : list jstr) : attempt upgrade_options :=
  match arguments with
  | [] => Done o
  | argument :: rest =>
      if (argument =s? js "--help") || (argument =s? js "-h") then Stopped Usage
      else match rest with
           | [] => fail (js "missing value for " +++ argument)
           | v :: rest' =>
               if bool_decide (v = []) || starts_with (js "--") v then fail (js "missing value for " +++ argument)
               else match with_option argument v o with
                    | Some o' => parse_upgrade o' rest'
                    | None => fail (with_usage (js "unknown argument " +++ argument))
                    end
           end
  end.

(** The options, with the path of the plan. *)
Definition upgradeOptions (arguments : list jstr) : attempt (upgrade_options * jstr) :=
  o ← parse_upgrade (UpgradeOptions (js "post") None None None) arguments;
  match planInfo o with
  | None => fail (with_usage (js "--plan-info is required"))
  | Some p =>
      fail_if (Bool.eqb (bool_decide (is_Some (binary o))) (bool_decide (is_Some (dockerImage o))))
        (with_usage (js "select exactly one of --binary or --docker-image"));;
      fail_if (negb (jmem (expectedProfile o) [js "post"; js "failed-rehearsal"]))
        (js "--expected-profile must be post or failed-rehearsal");;
      Done (o, p)
  end.

(** ** The plan *)

Definition planKeys : list jstr := [
  js "binarySha256"; js "migrationSha256"; js "planName"; js "protocolVersion"; js "schemaVersion"; js "targetVersion"].

Definition reviewed_migration : jstr := js "47f5aa5306c8a116260395bb9f0a9ac0a7c8ddb96f9f6ac56af7156a65f8355d".

(** Whether the document is an object with exactly the keys of a plan. *)
Definition has_plan_keys (plan : value) : bool :=
  match plan with
  | VObj fs => bool_decide (sort_strings (map fst fs) = planKeys)
  | _ => false
  end.

Definition is_present_text (v : value) : bool := match v with VStr (_ :: _) => true | _ => false end.

Definition checkPlanInfo (plan : value) : attempt () :=
  fail_if (negb (has_plan_keys plan)) (js "plan info must contain exactly the torium-upgrade-info-v1 fields");;
  fail_if (negb (strict_eq (field plan (js "schemaVersion")) (vi 1))
           || negb (strict_eq (field plan (js "planName")) (vs "torium-local-v1")))
    (js "plan identity is not torium-local-v1 schema 1");;
  fail_if (negb (is_present_text (field plan (js "targetVersion")))) (js "targetVersion is required");;
  fail_if (negb (is_present_text (field plan (js "protocolVersion")))) (js "protocolVersion is required");;
  fail_if (negb (is_present_text (field plan (js "migrationSha256")))) (js "migrationSha256 is required");;
  fail_if (negb (is_present_text (field plan (js "binarySha256")))) (js "binarySha256 is required");;
  fail_if (negb (is_hash_text false (field plan (js "binarySha256")))
           || negb (is_hash_text false (field plan (js "migrationSha256"))))
    (js "plan checksums must be lowercase SHA-256");;
  fail_if (negb (strict_eq (field plan (js "migrationSha256")) (VStr reviewed_migration)))
    (js "plan migration checksum is not the reviewed torium-local-v1 migration").

(** ** The binary *)

Section upgrade.
Context (spawn : jstr → list jstr → spawned) (readFile : jstr → result (list Z)) (sha256 : list Z → jstr) (cwd : jstr).

Definition exit_text (status : option Z) : jstr := match status with Some z => dec_of_Z z | None => js "null" end.

Definition run_command (command : jstr) (arguments : list jstr) : attempt jstr :=
  let r := spawn command arguments in
  match spawn_error r with
  | Some message => fail (command +++ js " could not start: " +++ message)
  | None =>
      fail_if (negb (bool_decide (spawn_status r = Some 0)))
        (command +++ js " exited " +++ exit_text (spawn_status r) +++ js ": "
         +++ trim (if bool_decide (spawn_stderr r = []) then spawn_stdout r else spawn_stderr r));;
      Done (trim (spawn_stdout r))
  end.

Definition resolve (p : jstr) : jstr := path_resolve cwd p.

(** [s.split(/\s+/u)[0]] *)
Definition first_word (s : jstr) : jstr := fst (span (λ c, negb (is_space c)) s).

(** The version output and the SHA-256 of a binary, or of the one in an image. *)
Definition inspect_binary (path : jstr) : attempt (jstr * jstr) :=
  metadataText ← run_command (resolve path) [js "version"];
  bytes ← attempt_or (js "cannot read binary: ") (readFile (resolve path));
  Done (metadataText, sha256 bytes).

Definition inspect_image (image : jstr) : attempt (jstr * jstr) :=
  metadataText ← run_command (js "docker") [js "run"; js "--rm"; js "--entrypoint"; js "toriumd"; image; js "version"];
  digest ← run_command (js "docker")
    [js "run"; js "--rm"; js "--entrypoint"; js "sha256sum"; image; js "/usr/local/bin/toriumd"];
  Done (metadataText, first_word digest).

(** The texts and the source; exactly one of the two options is given. *)
Definition inspect_upgrade (o : upgrade_options) : attempt (jstr * jstr * jstr) :=
  match binary o, dockerImage o with
  | Some path, _ => '(m, h) ← inspect_binary path; Done (m, h, resolve path)
  | None, Some image => '(m, h) ← inspect_image image; Done (m, h, image)
  | None, None => fail []
  end.

(** What the binary says of itself, against the plan. *)
Definition checkMetadata (metadata plan : value) (profile binarySha256 : jstr) : attempt () :=
  fail_if (negb (strict_eq (VStr binarySha256) (field plan (js "binarySha256"))))
    (js "binary SHA-256 " +++ binarySha256 +++ js " does not match plan " +++ to_string (field plan (js "binarySha256")));;
  name ← eval (get metadata (js "name"));
  fail_if (negb (strict_eq name (vs "Torium")) || negb (strict_eq (field metadata (js "binary")) (vs "toriumd")))
    (js "binary identity is not Torium/toriumd");;
  fail_if (negb (strict_eq (field metadata (js "version")) (field plan (js "targetVersion"))))
    (js "binary version " +++ to_string (field metadata (js "version")) +++ js " does not match target "
     +++ to_string (field plan (js "targetVersion")));;
  fail_if (negb (strict_eq (field metadata (js "protocolVersion")) (field plan (js "protocolVersion"))))
    (js "binary protocol " +++ to_string (field metadata (js "protocolVersion")) +++ js " does not match plan "
     +++ to_string (field plan (js "protocolVersion")));;
  fail_if (negb (strict_eq (field metadata (js "upgradeProfile")) (VStr profile)))
    (js "binary profile " +++ to_string (field metadata (js "upgradeProfile")) +++ js " does not match expected " +++ profile).

Definition upgrade_report (plan metadata : value) (binarySha256 source : jstr) : value := VObj [
  "status" :=: vs "verified";
  "planName" :=: field plan (js "planName");
  "targetVersion" :=: field plan (js "targetVersion");
  "protocolVersion" :=: field plan (js "protocolVersion");
  "upgradeProfile" :=: field metadata (js "upgradeProfile");
  "binarySha256" :=: VStr binarySha256;
  "source" :=: VStr source]%js.

Definition verifyUpgrade (arguments : list jstr) : attempt value :=
  '(o, p) ← upgradeOptions arguments;
  plan ← attempt_or (js "cannot read plan info: ") (bytes ← readFile (resolve p); json_parse (utf8_decode bytes));
  checkPlanInfo plan;;
  '(metadataText, binarySha256, source) ← inspect_upgrade o;
  metadata ← attempt_or (js "binary version output is not JSON: ") (json_parse metadataText);
  checkMetadata metadata plan (expectedProfile o) binarySha256;;
  Done (upgrade_report plan metadata binarySha256 source).

(** The process; what an uncaught exception prints is its message here. *)
Definition verify_upgrade_binary (arguments : list jstr) : process_outcome :=
  match verifyUpgrade arguments with
  | Done report => Process (stringify 2 0 report +++ [10%N]) [] 0
  | Stopped Usage => Process (usage +++ [10%N]) [] 0
  | Stopped (Failed message) => Process [] (js "Torium upgrade preflight failed: " +++ message +++ [10%N]) 1
  | Stopped (Uncaught e) => Process [] (exn_message e +++ [10%N]) 1
  end.

End upgrade.
