(* ===== verification/UpgradeBinaryFacts.v ===== *)
(** The upgrade preflight: a binary is verified exactly when it is the one that the
    plan names, the plan is for the reviewed migration, and the binary says so
    itself; every other run ends with exit code 1 and nothing on standard output. *)

From S2P Require Import Prelude JsNum JsText JsUtf8 JsValue JsOps JsonText JsPath Deploy GeneratedFiles UpgradeBinary.

Open Scope Z_scope.

(** ** Attempts *)

Lemma attempt_bind_Done {A B} (m : attempt A) (f : A → attempt B) b :
  m ≫= f = Done b ↔ ∃ a, m = Done a ∧ f a = Done b.
Proof. destruct m as [a|s]; cbn; [naive_solver|]. split; [done|by intros (? & ? & _)]. Qed.

Lemma attempt_seq_Done {B} (m : attempt ()) (k : attempt B) b : m ≫= (λ _, k) = Done b ↔ m = Done () ∧ k = Done b.
Proof. rewrite attempt_bind_Done. split; [by intros ([] & H)|intros H; by exists ()]. Qed.

Lemma fail_unless_Done b m : fail_if b m = Done () ↔ b = false.
Proof. by destruct b. Qed.

Lemma attempt_or_Done {A} m (x : result A) a : attempt_or m x = Done a ↔ x = Ok a.
Proof. destruct x; cbn; [naive_solver|done]. Qed.

Lemma strict_text v s : negb (strict_eq v (VStr s)) = false ↔ v = VStr s.
Proof. rewrite negb_false_iff. apply strict_eq_str. Qed.

Lemma hash_text v s : v = VStr s → negb (is_hash_text false v) = false ↔ length s = 64%nat ∧ forallb is_lower_hex s = true.
Proof. intros ->. cbn [is_hash_text]. by rewrite negb_false_iff, andb_true_iff, Nat.eqb_eq. Qed.

(** ** What is verified *)

(** A plan for the reviewed migration, with its target, protocol and digest. *)
Record reviewed_plan (plan : value) (target protocol digest : jstr) : Prop := ReviewedPlan {
  plan_keys : ∃ fs, plan = VObj fs ∧ sort_strings (map fst fs) = planKeys;
  plan_schema : ∃ n, field plan (js "schemaVersion") = VNum n ∧ num_eqb n (NInt 1) = true;
  plan_name : field plan (js "planName") = vs "torium-local-v1";
  plan_target : field plan (js "targetVersion") = VStr target ∧ target ≠ [];
  plan_protocol : field plan (js "protocolVersion") = VStr protocol ∧ protocol ≠ [];
  plan_migration : field plan (js "migrationSha256") = VStr reviewed_migration;
  plan_digest : field plan (js "binarySha256") = VStr digest ∧ length digest = 64%nat ∧ forallb is_lower_hex digest = true;
}.

Lemma present_text v : negb (is_present_text v) = false ↔ ∃ s, v = VStr s ∧ s ≠ [].
Proof.
  destruct v as [| | | |[|c s]| |]; cbn; split; try done; try (intros (? & ? & ?); congruence). intros _. by eexists.
Qed.

Lemma checkPlanInfo_Done plan : checkPlanInfo plan = Done () ↔ ∃ target protocol digest, reviewed_plan plan target protocol digest.
Proof.
  unfold checkPlanInfo, vs. rewrite !attempt_seq_Done, !fail_unless_Done, !orb_false_iff, !present_text, !strict_text. split.
  - intros (H1 & (H2 & H3) & (t & Ht & Nt) & (p & Hp & Np) & _ & (d & Hd & _) & (H4 & _) & H5).
    exists t, p, d. rewrite (hash_text _ _ Hd) in H4.
    assert (∃ n, field plan (js "schemaVersion") = VNum n ∧ num_eqb n (NInt 1) = true) as Hs.
    { apply negb_false_iff in H2. destruct (field plan (js "schemaVersion")); try done. by eexists. }
    assert (∃ fs, plan = VObj fs ∧ sort_strings (map fst fs) = planKeys) as Hf.
    { destruct plan as [| | | | | |fs]; try done. exists fs. split; [done|]. apply negb_false_iff in H1. by apply bool_decide_eq_true in H1. }
    by constructor.
  - intros (t & p & d & [(fs & -> & Hk) (n & Hn & H1) H2 [Ht Nt] [Hp Np] H3 (Hd & Hl & Hx)]).
    unfold vs in H2. rewrite Hn, H3. split; [|split; [|split; [by eexists|split; [by eexists|split; [by eexists|split]]]]].
    + cbn [has_plan_keys]. by rewrite bool_decide_eq_true_2.
    + split; [by apply negb_false_iff|done].
    + exists d. split; [done|]. by intros ->.
    + split; [|done]. split; [by apply (hash_text _ _ Hd)|vm_compute; reflexivity].
Qed.

(** What the binary says of itself. *)
Record identifies (metadata : value) (target protocol profile : jstr) : Prop := Identifies {
  says_name : field metadata (js "name") = VStr (js "Torium");
  says_binary : field metadata (js "binary") = VStr (js "toriumd");
  says_version : field metadata (js "version") = VStr target;
  says_protocol : field metadata (js "protocolVersion") = VStr protocol;
  says_profile : field metadata (js "upgradeProfile") = VStr profile;
}.

Lemma eval_get v k (f : value → attempt ()) :
  (eval (get v k) ≫= f) = Done () ↔ is_nullish v = false ∧ f (field v k) = Done ().
Proof. unfold get. destruct (is_nullish v); cbn; [split; [done|by intros [? _]]|naive_solver]. Qed.

Lemma checkMetadata_Done metadata plan profile h target protocol digest :
  reviewed_plan plan target protocol digest →
  checkMetadata metadata plan profile h = Done () ↔ h = digest ∧ identifies metadata target protocol profile.
Proof.
  intros [_ _ _ [Ht _] [Hp _] _ [Hd _]]. unfold checkMetadata, vs.
  rewrite attempt_seq_Done, fail_unless_Done, eval_get, !attempt_seq_Done, !fail_unless_Done, !orb_false_iff, Hd, Ht, Hp, !strict_text. split.
  - intros ([= ->] & _ & (H1 & H2) & H3 & H4 & H5). split; [done|by constructor].
  - intros [-> [H1 H2 H3 H4 H5]]. split; [done|]. split; [by destruct metadata|done].
Qed.

Section upgrade.
Context (spawn : jstr → list jstr → spawned) (readFile : jstr → result (list Z)) (sha256 : list Z → jstr) (cwd : jstr).

(** A process that ended well, and what it printed. *)
Definition printed (command : jstr) (arguments : list jstr) (out : jstr) : Prop :=
  let r := spawn command arguments in spawn_error r = None ∧ spawn_status r = Some 0 ∧ trim (spawn_stdout r) = out.

Lemma run_command_Done command arguments out :
  run_command spawn command arguments = Done out ↔ printed command arguments out.
Proof.
  unfold run_command, printed. destruct (spawn_error _); [split; [done|by intros [? _]]|].
  rewrite attempt_seq_Done, fail_unless_Done, negb_false_iff, bool_decide_eq_true. naive_solver.
Qed.

(** Where the version output and the digest come from: the bytes of the binary
    itself, or the binary of an image. *)
Definition inspected (o : upgrade_options) (metadataText digest source : jstr) : Prop :=
  (∃ path bytes, binary o = Some path ∧ dockerImage o = None ∧ source = resolve cwd path ∧
     printed source [js "version"] metadataText ∧ readFile source = Ok bytes ∧ digest = sha256 bytes) ∨
  (∃ image sum, binary o = None ∧ dockerImage o = Some image ∧ source = image ∧
     printed (js "docker") [js "run"; js "--rm"; js "--entrypoint"; js "toriumd"; image; js "version"] metadataText ∧
     printed (js "docker") [js "run"; js "--rm"; js "--entrypoint"; js "sha256sum"; image; js "/usr/local/bin/toriumd"] sum ∧
     digest = first_word sum).

Lemma upgradeOptions_one arguments o p : upgradeOptions arguments = Done (o, p) →
  (∃ path, binary o = Some path ∧ dockerImage o = None) ∨ (∃ image, binary o = None ∧ dockerImage o = Some image).
Proof.
  unfold upgradeOptions. rewrite attempt_bind_Done. intros (o' & _ & H). destruct (planInfo o'); [|done].
  rewrite !attempt_seq_Done, fail_unless_Done in H. destruct H as (He & _ & [= <- <-]).
  destruct (binary o') as [path|], (dockerImage o') as [image|]; try done; [left|right]; by eexists.
Qed.

Lemma inspect_upgrade_Done arguments o p m h source : upgradeOptions arguments = Done (o, p) →
  inspect_upgrade spawn readFile sha256 cwd o = Done (m, h, source) ↔ inspected o m h source.
Proof.
  intros [(path & Hb & Hi)|(image & Hb & Hi)]%upgradeOptions_one; unfold inspect_upgrade, inspected; rewrite Hb, Hi.
  - rewrite attempt_bind_Done. unfold inspect_binary. split.
    + intros ([m' h'] & H & [= <- <- <-]). left. rewrite attempt_bind_Done in H. destruct H as (t & Ht%run_command_Done & H).
      rewrite attempt_bind_Done in H. destruct H as (b & Hr%attempt_or_Done & [= <- <-]). by exists path, b.
    + intros [(path' & b & [= <-] & _ & -> & Ht & Hr & ->)|(? & ? & ? & _)]; [|done].
      exists (m, sha256 b). split; [|done]. apply attempt_bind_Done. exists m. split; [by apply run_command_Done|].
      apply attempt_bind_Done. exists b. split; [by apply attempt_or_Done|done].
  - rewrite attempt_bind_Done. unfold inspect_image. split.
    + intros ([m' h'] & H & [= <- <- <-]). right. rewrite attempt_bind_Done in H. destruct H as (t & Ht%run_command_Done & H).
      rewrite attempt_bind_Done in H. destruct H as (b & Hr%run_command_Done & [= <- <-]). by exists image, b.
    + intros [(? & ? & ? & _)|(image' & b & _ & [= <-] & -> & Ht & Hr & ->)]; [done|].
      exists (m, first_word b). split; [|done]. apply attempt_bind_Done. exists m. split; [by apply run_command_Done|].
      apply attempt_bind_Done. exists b. split; [by apply run_command_Done|done].
Qed.

(** The whole condition, for the report that is printed. *)
Definition verified (arguments : list jstr) (report : value) : Prop :=
  ∃ o p bytes plan target protocol digest metadataText source metadata,
    upgradeOptions arguments = Done (o, p) ∧
    readFile (resolve cwd p) = Ok bytes ∧ json_parse (utf8_decode bytes) = Ok plan ∧
    reviewed_plan plan target protocol digest ∧
    inspected o metadataText digest source ∧ json_parse metadataText = Ok metadata ∧
    identifies metadata target protocol (expectedProfile o) ∧
    report = VObj [
      "status" :=: vs "verified"; "planName" :=: vs "torium-local-v1"; "targetVersion" :=: VStr target;
      "protocolVersion" :=: VStr protocol; "upgradeProfile" :=: VStr (expectedProfile o);
      "binarySha256" :=: VStr digest; "source" :=: VStr source]%js.

Lemma verifyUpgrade_Done arguments report :
  verifyUpgrade spawn readFile sha256 cwd arguments = Done report ↔ verified arguments report.
Proof.
  unfold verifyUpgrade, verified. rewrite attempt_bind_Done. split.
  - intros ([o p] & Ho & H). rewrite attempt_bind_Done in H. destruct H as (plan & Hplan%attempt_or_Done & H).
    rewrite attempt_seq_Done in H. destruct H as (Hc%checkPlanInfo_Done & H). destruct Hc as (t & pr & d & Hp).
    rewrite attempt_bind_Done in H. destruct H as ([[m h] source] & Hi & H). apply (inspect_upgrade_Done _ _ _ _ _ _ Ho) in Hi.
    rewrite attempt_bind_Done in H. destruct H as (md & Hm%attempt_or_Done & H).
    rewrite attempt_seq_Done in H. destruct H as (Hc & [= <-]). apply (checkMetadata_Done _ _ _ _ _ _ _ Hp) in Hc as [-> Hid].
    destruct (readFile (resolve cwd p)) as [bytes|] eqn:Hr; [|done]. exists o, p, bytes, plan, t, pr, d, m, source, md.
    do 7 (split; [done|]). destruct Hp as [_ _ Hn [Ht _] [Hpr _] _ _], Hid as [_ _ _ _ Hpf].
    unfold upgrade_report. by rewrite Hn, Ht, Hpr, Hpf.
  - intros (o & p & bytes & plan & t & pr & d & m & source & md & Ho & Hr & Hj & Hp & Hi & Hm & Hid & ->).
    exists (o, p). split; [done|]. apply attempt_bind_Done. exists plan. split; [apply attempt_or_Done; by rewrite Hr|].
    apply attempt_seq_Done. split; [apply checkPlanInfo_Done; by exists t, pr, d|].
    apply attempt_bind_Done. exists (m, d, source). split; [by apply (inspect_upgrade_Done _ _ _ _ _ _ Ho)|].
    apply attempt_bind_Done. exists md. split; [by apply attempt_or_Done|].
    apply attempt_seq_Done. split; [by apply (checkMetadata_Done _ _ _ _ _ _ _ Hp)|].
    destruct Hp as [_ _ Hn [Ht _] [Hpr _] _ _], Hid as [_ _ _ _ Hpf]. unfold upgrade_report. by rewrite Hn, Ht, Hpr, Hpf.
Qed.

(** Nothing after the command line shows the usage. *)
Definition no_usage {A} (m : attempt A) : Prop := m ≠ Stopped Usage.

Lemma no_usage_bind {A B} (m : attempt A) (f : A → attempt B) : no_usage m → (∀ a, no_usage (f a)) → no_usage (m ≫= f).
Proof. unfold no_usage. intros Hm Hf. destruct m as [a|s]; cbn; [apply Hf|congruence]. Qed.

Lemma no_usage_basic : (∀ b m, no_usage (fail_if b m)) ∧ (∀ A (x : result A), no_usage (eval x)) ∧
  (∀ A m (x : result A), no_usage (attempt_or m x)) ∧ (∀ A m, no_usage (@fail A m)) ∧ (∀ A (a : A), no_usage (Done a)).
Proof.
  unfold no_usage. repeat split; try done.
  - by intros [].
  - by intros A [].
  - by intros A m [].
Qed.

Ltac solve_no_usage :=
  repeat first [apply no_usage_basic | apply no_usage_bind; [|intros ?] | progress case_match].

Lemma verifyUpgrade_usage arguments :
  verifyUpgrade spawn readFile sha256 cwd arguments = Stopped Usage → upgradeOptions arguments = Stopped Usage.
Proof.
  unfold verifyUpgrade. destruct (upgradeOptions arguments) as [[o p]|s]; [|by intros [= ->]]. cbn [mbind attempt_bind]. intros H.
  exfalso. revert H. refine ((_ : no_usage _)). apply no_usage_bind; [apply no_usage_basic|]. intros plan.
  apply no_usage_bind; [unfold checkPlanInfo; solve_no_usage|]. intros [].
  apply no_usage_bind; [unfold inspect_upgrade, inspect_binary, inspect_image, run_command; solve_no_usage|]. intros [[m h] source].
  apply no_usage_bind; [apply no_usage_basic|]. intros md.
  apply no_usage_bind; [unfold checkMetadata; solve_no_usage|]. intros []. apply no_usage_basic.
Qed.

(** C17. The preflight decides exactly: it prints a report and exits with 0 when the
    plan is a complete plan for the reviewed migration, the digest of the very bytes
    of the binary is the plan's, and the binary names itself Torium with the plan's
    version and protocol and the expected profile; it shows its usage only when
    asked; and in every other case, whatever fails, it exits with 1 and prints nothing
    on standard output. *)
Theorem upgrade_outcome arguments :
  let out := verify_upgrade_binary spawn readFile sha256 cwd arguments in
  (∃ report, verified arguments report ∧ out = Process (stringify 2 0 report +++ [10%N]) [] 0) ∨
  (out = Process (usage +++ [10%N]) [] 0 ∧ upgradeOptions arguments = Stopped Usage) ∨
  (exitCode out = 1 ∧ stdout out = [] ∧ ∀ report, ¬ verified arguments report).
Proof.
  unfold verify_upgrade_binary. destruct (verifyUpgrade _ _ _ _ arguments) as [report|s] eqn:E; cbn zeta.
  - left. exists report. split; [by apply verifyUpgrade_Done|done].
  - assert (∀ report, ¬ verified arguments report) as Hn.
    { intros report H%verifyUpgrade_Done. by rewrite E in H. }
    destruct s as [m| |e]; [by right; right| |by right; right].
    right. left. split; [done|]. by apply verifyUpgrade_usage.
Qed.

End upgrade.

(** ** A plan and its binary *)

Module UpgradeSamples.

Definition plan_digest : jstr := repeat 97%N 64.

Definition sample_plan : value := VObj [
  "schemaVersion" :=: vi 1; "planName" :=: vs "torium-local-v1"; "targetVersion" :=: vs "1.1.0";
  "protocolVersion" :=: vs "2"; "migrationSha256" :=: VStr reviewed_migration; "binarySha256" :=: VStr plan_digest]%js.

Definition sample_metadata : value := VObj [
  "name" :=: vs "Torium"; "binary" :=: vs "toriumd"; "version" :=: vs "1.1.0"; "protocolVersion" :=: vs "2";
  "upgradeProfile" :=: vs "post"]%js.

Definition sample_spawn (command : jstr) (arguments : list jstr) : spawned :=
  Spawned None (Some 0) (stringify 0 0 sample_metadata +++ [10%N]) [].

Definition sample_read (path : jstr) : result (list Z) :=
  if path =s? js "/op/plan.json" then Ok (utf8_encode (stringify 0 0 sample_plan))
  else if path =s? js "/op/toriumd" then Ok [1] else error (js "ENOENT").

Abbreviation preflight digest := (verify_upgrade_binary sample_spawn sample_read (λ _, digest) (js "/op")).

Definition sample_arguments : list jstr := [js "--plan-info"; js "plan.json"; js "--binary"; js "toriumd"].

Example preflight_verifies : exitCode (preflight plan_digest sample_arguments) = 0.
Proof. vm_compute. reflexivity. Qed.

Example preflight_other_binary : exitCode (preflight (repeat 98%N 64) sample_arguments) = 1.
Proof. vm_compute. reflexivity. Qed.

Example preflight_other_profile :
  exitCode (preflight plan_digest (sample_arguments ++ [js "--expected-profile"; js "failed-rehearsal"])) = 1.
Proof. vm_compute. reflexivity. Qed.

End UpgradeSamples.
