(* ===== verification/Toolchain.v ===== *)
(** src/chain/scripts/check-toolchain.mjs: the pins of the toolchain manifest, the
    versions of the host's programs, and the versions inside the pinned images. *)

From S2P Require Import Prelude JsNum JsText JsUtf8 JsValue JsOps JsonText JsPath Deploy GeneratedFiles TestnetRegistry LocalnetRegistry GenerateArtifacts UpgradeBinary.

Open Scope Z_scope.

(** ** Versions *)

Definition take_digits (s : jstr) : jstr * jstr := span is_digit s.

(** [(\d+)\.(\d+)\.(\d+)(?:[^0-9]|$)] at the start of [s]: digits are taken greedily,
    and what follows them is never a digit, so nothing is given back. *)
Definition triple_at (s : jstr) : option (jstr * jstr * jstr) :=
  match take_digits s with
  | ((_ :: _) as a, 46%N :: r1) =>
      match take_digits r1 with
      | ((_ :: _) as b, 46%N :: r2) =>
          match take_digits r2 with
          | ((_ :: _) as c, _) => Some (a, b, c)
          | _ => None
          end
      | _ => None
      end
  | _ => None
  end.

(** The first match of the pattern: after a character that is not a digit. *)
Fixpoint triple_after (s : jstr) : option (jstr * jstr * jstr) :=
  match s with
  | [] => None
  | c :: r =>
      match (if is_digit c then None else triple_at r) with
      | Some t => Some t
      | None => triple_after r
      end
  end.

Definition versionTuple (s : jstr) : option (num * num * num) :=
  match (match triple_at s with Some t => Some t | None => triple_after s end) with
  | Some (a, b, c) => Some (num_of_string a, num_of_string b, num_of_string c)
  | None => None
  end.

Definition tuple_list (t : num * num * num) : list num := let '(a, b, c) := t in [a; b; c].

(** The loop over the components. *)
Fixpoint at_least_from (actual minimum : list num) : bool :=
  match actual, minimum with
  | l :: actual', r :: minimum' =>
      if num_ltb r l then true else if num_ltb l r then false else at_least_from actual' minimum'
  | _, _ => true
  end.

(** [minimum] is what the manifest has; [match] is a method of strings. *)
Definition atLeast (actual : jstr) (minimum : value) : result bool :=
  match minimum with
  | VStr m =>
      Ok (match versionTuple actual, versionTuple m with
          | Some t, Some u => at_least_from (tuple_list t) (tuple_list u)
          | _, _ => false
          end)
  | _ => type_error (js "value.match is not a function")
  end.

(** ** Checks *)

Record check := Check { check_name : jstr; passed : bool; required : bool; detail : jstr }.

Definition record (name : string) (passed : bool) (detail : jstr) : check := Check (js name) passed true detail.

(** [a && b && ...]: what follows a false is not evaluated. *)
Fixpoint all_of (l : list (result bool)) : result bool :=
  match l with
  | [] => Ok true
  | x :: l' => b ← x; if b : bool then all_of l' else Ok false
  end.

Definition is_same (a b : result value) : result bool := x ← a; y ← b; Ok (strict_eq x y).

(** [`${v}`] *)
Definition shown (v : result value) : result jstr := x ← v; Ok (to_string x).

(** [`k1=${v1}; k2=${v2}`] *)
Fixpoint detail_of (l : list (string * result value)) : result jstr :=
  match l with
  | [] => Ok []
  | [(k, v)] => x ← shown v; Ok (js k +++ js "=" +++ x)
  | (k, v) :: l' => x ← shown v; r ← detail_of l'; Ok (js k +++ js "=" +++ x +++ js "; " +++ r)
  end.

(** [v?.[key]]: the key is evaluated only if there is something to look in. *)
Definition oat (v : value) (key : result jstr) : result value :=
  if is_nullish v then Ok VUndef else k ← key; Ok (element v k).

(** [/@sha256:[a-f0-9]{64}$/.test(image)] *)
Definition is_pinned_image (s : jstr) : bool :=
  (72 <=? Z.of_nat (length s)) && starts_with (js "@sha256:") (drop (length s - 72) s)
  && forallb is_lower_hex (drop (length s - 64) s).

(** [/^sha512-/.test(v?.integrity ?? "")] *)
Definition has_integrity (v : value) : bool :=
  starts_with (js "sha512-") (pattern_text (oget v (js "integrity"))).

Section toolchain.
Context (spawn : jstr → list jstr → spawned) (readFile : jstr → result (list Z)) (root : jstr).

Definition read_text (path : string) : result jstr :=
  b ← readFile (root +++ js "/" +++ js path); Ok (utf8_decode b).
Definition read_json (path : string) : result value := t ← read_text path; json_parse t.

(** The output of a program, with what it printed on standard error. *)
Definition command_output (r : spawned) : jstr := trim (spawn_stdout r +++ [10%N] +++ spawn_stderr r).

Definition command_detail (r : spawned) (missing : string) : jstr :=
  match spawn_error r with
  | Some message => message
  | None => if bool_decide (command_output r = []) then js missing else command_output r
  end.

Definition succeeded (r : spawned) : bool := bool_decide (spawn_status r = Some 0).

Definition checkMinimum (name : string) (program : jstr) (arguments : list jstr) (minimum : result value) : result check :=
  m ← minimum;
  let r := spawn program arguments in
  passed ← (if succeeded r then atLeast (command_output r) m else Ok false);
  Ok (record name passed (command_detail r "command produced no version")).

Definition checkImage (name : string) (image entrypoint : result value) (arguments : result (list jstr))
    (expected : result value) : result check :=
  i ← image;
  e ← entrypoint;
  a ← arguments;
  x ← expected;
  let r := spawn (js "docker") ([js "run"; js "--rm"; js "--entrypoint"; to_string e; to_string i] ++ a) in
  Ok (record name (succeeded r && includes (to_string x) (command_output r))
        (command_detail r "container produced no version")).

Section checks.
Context (manifest : value).

Definition at_ (ks : list string) : result value := walk manifest ks.

(** ** The manifest *)

Definition manifest_images : list (list string) := [
  ["runtimes"; "node"; "image"]; ["runtimes"; "go"; "image"]; ["protobuf"; "image"];
  ["contracts"; "foundry"; "image"]; ["contracts"; "solidity"; "image"];
  ["quality"; "golangciLint"; "image"]; ["quality"; "protolint"; "image"]; ["quality"; "shfmt"; "image"]]%string.

Definition schema_check : result check :=
  v ← at_ ["schemaVersion"]%string;
  Ok (record "manifest schema" (strict_eq v (vi 1)) (js "schemaVersion=" +++ to_string v)).

Definition digest_check : result check :=
  images ← map_res at_ manifest_images;
  Ok (record "container digest policy" (forallb (λ i, is_pinned_image (to_string i)) images)
        (js "all canonical tool images must use sha256 digests")).

Definition pnpm_check (packageJson : value) : result check :=
  let manager := get packageJson (js "packageManager") in
  passed ← is_same manager (v ← at_ ["runtimes"; "pnpm"; "version"]%string; Ok (VStr (js "pnpm@" +++ to_string v)));
  d ← detail_of [("packageManager", manager)]%string;
  Ok (record "pnpm pin" passed d).

Definition node_pin_check : result check :=
  let version := at_ ["runtimes"; "node"; "version"]%string in
  let pin path := t ← read_text path; Ok (VStr (trim t)) in
  passed ← all_of [is_same (pin "chain/.node-version"%string) version; is_same (pin "chain/.nvmrc"%string) version];
  d ← detail_of [("expected", version)]%string;
  Ok (record "chain Node pin files" passed d).

Definition upstream_check (pins : value) : result check :=
  let evm := at_ ["chain"; "cosmosEvm"]%string in
  let sdk := at_ ["chain"; "cosmosSdk"]%string in
  let bft := at_ ["chain"; "cometBft"]%string in
  let go := at_ ["runtimes"; "go"; "version"]%string in
  passed ← all_of [
    is_same evm (walk pins ["baseline"; "release"]%string);
    is_same sdk (walk pins ["baseline"; "modules"; "cosmosSdk"]%string);
    is_same bft (walk pins ["baseline"; "modules"; "cometBft"]%string);
    is_same go (walk pins ["baseline"; "go"]%string)];
  d ← detail_of [("Cosmos EVM", evm); ("Cosmos SDK", sdk); ("CometBFT", bft); ("Go", go)]%string;
  Ok (record "Cosmos EVM dependency pins" passed d).

Definition contract (ks : list string) : result value := at_ ("contracts"%string :: ks).
Definition foundry_version : result value := contract ["foundry"; "version"]%string.
Definition zeppelin_version : result value := contract ["openZeppelin"; "version"]%string.
Definition zeppelin_package : result jstr := shown (contract ["openZeppelin"; "package"]%string).
Definition solhint_version : result value := contract ["solhint"; "version"]%string.
Definition ajv_version : result value := contract ["schemaValidator"; "version"]%string.
Definition prettier_version : result value := at_ ["quality"; "prettier"; "version"]%string.

Definition ends_in (v : result value) (suffix : result jstr) : result bool :=
  x ← v;
  match x with
  | VStr s => p ← suffix; Ok (ends_with p s)
  | _ => type_error (js "endsWith is not a function")
  end.

Definition contract_toolchain_check : result check :=
  passed ← all_of [
    is_same foundry_version (Ok (vs "1.7.1"));
    is_same (contract ["solidity"; "version"]) (Ok (vs "0.8.30"));
    is_same (contract ["solidity"; "longVersion"]) (Ok (vs "0.8.30+commit.73712a01"));
    is_same (contract ["solidity"; "binaryPath"]) (Ok (vs "/usr/bin/solc"));
    is_same zeppelin_version (Ok (vs "5.6.1"));
    is_same solhint_version (Ok (vs "5.0.5"));
    is_same (contract ["formatter"; "foundryVersion"]) foundry_version;
    is_same (contract ["coverage"; "foundryVersion"]) foundry_version;
    is_same (contract ["analysis"; "foundryVersion"]) foundry_version;
    is_same ajv_version (Ok (vs "8.17.1"));
    ends_in (contract ["openZeppelin"; "release"]) (v ← shown zeppelin_version; Ok (js "/v" +++ v));
    is_same (contract ["coverage"; "minimumLinePercent"]) (Ok (vi 90));
    (s ← contract ["analysis"; "severities"]; Ok (negb (json_differs s (texts ["high"; "med"]))))]%string;
  d ← detail_of [("Foundry", foundry_version); ("solc", contract ["solidity"; "version"]);
                 ("OpenZeppelin", zeppelin_version); ("Solhint", solhint_version)]%string;
  Ok (record "contract toolchain pins" passed d).

(** [package.dependencies?.[openZeppelin.package]] and [package.devDependencies?.name]. *)
Definition zeppelin_in (package : value) : result value :=
  deps ← get package (js "dependencies"); oat deps zeppelin_package.
Definition dev_dependency (package : value) (name : string) : result value :=
  deps ← get package (js "devDependencies"); oat deps (Ok (js name)).

Definition dependency_check (contractsPackage : value) : result check :=
  let ajv := dev_dependency contractsPackage "ajv"%string in
  let prettier := dev_dependency contractsPackage "prettier"%string in
  let solhint := dev_dependency contractsPackage "solhint"%string in
  let zeppelin := zeppelin_in contractsPackage in
  passed ← all_of [
    is_same (get contractsPackage (js "private")) (Ok (VBool true));
    is_same zeppelin zeppelin_version; is_same ajv ajv_version; is_same prettier prettier_version;
    is_same solhint solhint_version];
  d ← detail_of [("Ajv", ajv); ("OpenZeppelin", zeppelin); ("Prettier", prettier); ("Solhint", solhint)]%string;
  Ok (record "contract dependency manifest" passed d).

(** [v?.a?.[k]] of the root package of the lock file. *)
Definition locked_zeppelin (lockRoot : value) : result value := oat (oget lockRoot (js "dependencies")) zeppelin_package.
Definition locked_dev (lockRoot : value) (name : string) : result value :=
  oat (oget lockRoot (js "devDependencies")) (Ok (js name)).

Definition lock_check (contractsLock lockRoot zeppelin solhint prettier ajv : value) : result check :=
  let version v := Ok (oget v (js "version")) : result value in
  passed ← all_of [
    is_same (get contractsLock (js "lockfileVersion")) (Ok (vi 3));
    is_same (locked_zeppelin lockRoot) zeppelin_version;
    is_same (locked_dev lockRoot "solhint") solhint_version;
    is_same (locked_dev lockRoot "ajv") ajv_version;
    is_same (locked_dev lockRoot "prettier") prettier_version;
    is_same (version zeppelin) zeppelin_version; Ok (has_integrity zeppelin);
    is_same (version ajv) ajv_version; Ok (has_integrity ajv);
    is_same (version prettier) prettier_version; Ok (has_integrity prettier);
    is_same (version solhint) solhint_version; Ok (has_integrity solhint)]%string;
  d ← detail_of [("lockfileVersion", get contractsLock (js "lockfileVersion")); ("Ajv", version ajv);
                 ("OpenZeppelin", version zeppelin); ("Prettier", version prettier); ("Solhint", version solhint)]%string;
  Ok (record "contract dependency lock" passed d).

Definition validateManifest : result (list check) :=
  c1 ← schema_check;
  c2 ← digest_check;
  packageJson ← read_json "package.json"%string;
  contractsPackage ← read_json "contracts/package.json"%string;
  contractsLock ← read_json "contracts/package-lock.json"%string;
  packages ← get contractsLock (js "packages");
  lockRoot ← oat packages (Ok []);
  zeppelin ← oat packages (p ← zeppelin_package; Ok (js "node_modules/" +++ p));
  solhint ← oat packages (Ok (js "node_modules/solhint"));
  prettier ← oat packages (Ok (js "node_modules/prettier"));
  ajv ← oat packages (Ok (js "node_modules/ajv"));
  pins ← read_json "chain/poc/upstream-baseline/pins.json"%string;
  c3 ← pnpm_check packageJson;
  c4 ← node_pin_check;
  c5 ← upstream_check pins;
  c6 ← contract_toolchain_check;
  c7 ← dependency_check contractsPackage;
  c8 ← lock_check contractsLock lockRoot zeppelin solhint prettier ajv;
  Ok [c1; c2; c3; c4; c5; c6; c7; c8].

(** ** The host and the images *)

Definition host_checks (hostNode : jstr) : result (list check) :=
  git ← checkMinimum "host git" (js "git") [js "--version"] (at_ ["hostMinimums"; "git"]%string);
  docker ← checkMinimum "host Docker" (js "docker") [js "version"; js "--format"; js "{{.Client.Version}}"]
    (at_ ["hostMinimums"; "docker"]%string);
  compose ← checkMinimum "host Docker Compose" (js "docker") [js "compose"; js "version"; js "--short"]
    (at_ ["hostMinimums"; "dockerCompose"]%string);
  passed ← atLeast hostNode (vs "22.0.0");
  canonical ← shown (at_ ["runtimes"; "node"; "version"]%string);
  Ok [git; docker; compose;
      record "host Node bootstrap" passed
        (js "host=" +++ hostNode +++ js "; canonical=" +++ canonical
         +++ js "; canonical commands run in the pinned container")].

Definition prefixed (prefix : string) (v : result value) : result value :=
  x ← shown v; Ok (VStr (js prefix +++ x)).

Definition program (s : string) : result value := Ok (vs s).
Definition arguments_ (l : list string) : result (list jstr) := Ok (map js l).

Definition corepack (version : result value) : result (list jstr) :=
  v ← shown version;
  Ok [js "-lc"; js "corepack prepare pnpm@" +++ v +++ js " --activate >/dev/null && corepack pnpm --version"].

Definition image_checks : result (list check) :=
  let node := at_ ["runtimes"; "node"; "image"]%string in
  let protobuf := at_ ["protobuf"; "image"]%string in
  let pnpm := at_ ["runtimes"; "pnpm"; "version"]%string in
  let version := arguments_ ["--version"]%string in
  map_res id [
    checkImage "canonical Node image" node (program "node") version
      (prefixed "v" (at_ ["runtimes"; "node"; "version"]));
    checkImage "canonical pnpm" node (program "sh") (corepack pnpm) pnpm;
    checkImage "canonical Go image" (at_ ["runtimes"; "go"; "image"]) (program "go") (arguments_ ["version"])
      (prefixed "go" (at_ ["runtimes"; "go"; "version"]));
    checkImage "Buf generator" protobuf (program "buf") version (at_ ["protobuf"; "bufVersion"]);
    checkImage "protobuf clang-format" protobuf (program "clang-format") version (at_ ["protobuf"; "clangFormatVersion"]);
    checkImage "Foundry" (contract ["foundry"; "image"]) (program "cast") version foundry_version;
    checkImage "Solidity compiler" (contract ["solidity"; "image"]) (contract ["solidity"; "binaryPath"]) version
      (contract ["solidity"; "version"]);
    checkImage "golangci-lint" (at_ ["quality"; "golangciLint"; "image"]) (program "golangci-lint") (arguments_ ["version"])
      (at_ ["quality"; "golangciLint"; "version"]);
    checkImage "protolint" (at_ ["quality"; "protolint"; "image"]) (program "protolint") (arguments_ ["version"])
      (at_ ["quality"; "protolint"; "version"]);
    checkImage "shfmt" (at_ ["quality"; "shfmt"; "image"]) (program "shfmt") version
      (at_ ["quality"; "shfmt"; "version"])]%string.

(** ** The report *)

Definition failed_checks (checks : list check) : list check :=
  List.filter (λ c, required c && negb (passed c)) checks.

Definition check_value (c : check) : value := VObj [
  "name" :=: VStr (check_name c); "passed" :=: VBool (passed c); "required" :=: VBool (required c);
  "detail" :=: VStr (detail c)]%js.

Definition check_line (c : check) : jstr :=
  (if passed c then js "PASS " else js "FAIL ") +++ check_name c +++ js ": " +++ detail c +++ [10%N].

(** What is printed, and whether everything passed. *)
Definition report_text (jsonOutput : bool) (mode : string) (canonicalNode canonicalGo : value) (checks : list check) : jstr :=
  let failed := failed_checks checks in
  let ok := bool_decide (failed = []) in
  if jsonOutput then
    stringify 2 0 (VObj [
      "passed" :=: VBool ok; "mode" :=: vs mode; "canonicalNode" :=: canonicalNode; "canonicalGo" :=: canonicalGo;
      "checks" :=: VArr (map check_value checks)]%js) +++ [10%N]
  else
    js "Torium chain toolchain (" +++ js mode +++ js ")" +++ [10; 10]%N +++ concat (map check_line checks)
    +++ [10%N] +++ (if ok then js "Toolchain validation passed."
                    else dec_of_Z (Z.of_nat (length failed)) +++ js " required check(s) failed.") +++ [10%N].

Definition all_checks (hostNode : jstr) (verifyImages : bool) : result (list check) :=
  pins ← validateManifest;
  host ← host_checks hostNode;
  images ← (if verifyImages then image_checks else Ok []);
  Ok (pins ++ host ++ images).

End checks.

(** [process.version] without its v. *)
Definition host_node (version : jstr) : jstr := default version (after id (js "v") version).

Definition checkToolchainReport (version : jstr) (arguments : list jstr) : result (jstr * list check) :=
  manifest ← read_json "chain/toolchain.json"%string;
  let verifyImages := jmem (js "--verify-images") arguments in
  checks ← all_checks manifest (host_node version) verifyImages;
  canonicalNode ← walk manifest ["runtimes"; "node"; "version"]%string;
  canonicalGo ← walk manifest ["runtimes"; "go"; "version"]%string;
  Ok (report_text (jmem (js "--json") arguments) (if verifyImages then "full" else "host-and-manifest")%string
        canonicalNode canonicalGo checks, checks).

(** The process; an exception that nothing catches ends it with 1. *)
Definition check_toolchain (version : jstr) (arguments : list jstr) : process_outcome :=
  match checkToolchainReport version arguments with
  | Ok (text, checks) => Process text [] (if bool_decide (failed_checks checks = []) then 0 else 1)
  | Throw e => Process [] (exn_message e +++ [10%N]) 1
  end.

End toolchain.
