(* ===== verification/ToolchainFacts.v ===== *)
(** The toolchain check: versions are ordered as numbers, whatever surrounds them,
    and a run that exits with 0 found every pin, every host version and, when it was
    asked to, every image as the manifest has them. *)

From S2P Require Import Prelude JsNum JsText JsUtf8 JsValue JsOps JsonText JsPath JsFixed Deploy GeneratedFiles TestnetRegistry LocalnetRegistry GenerateArtifacts UpgradeBinary Toolchain.

Open Scope Z_scope.

(** ** Versions *)

Lemma digits_not_spaced s : is_canonical_dec s = true → radix_literal s = None.
Proof.
  destruct s as [|c s]; [done|]. intros Hs. pose proof (canonical_digits _ Hs) as [Hd _]. simpl in Hs.
  destruct (N.eqb_spec c 48) as [->|Hc].
  - apply bool_decide_eq_true in Hs. by subst.
  - apply Forall_cons in Hd as [Hc' _]. case_digit Hc'; done.
Qed.

Lemma digits_not_infinity s : Forall (λ c, is_digit c = true) s → s ≠ [] → (s =s? js "Infinity") = false.
Proof.
  intros Hs Hne. apply bool_decide_eq_false_2. intros ->. apply Forall_cons in Hs as [Hc _]. by vm_compute in Hc.
Qed.

(** [Number(s)] of a printed integer that a number can hold. *)
Lemma num_of_dec z : 0 ≤ z < 2 ^ 53 → num_of_string (dec_of_Z z) = NInt z.
Proof.
  intros Hz. pose proof (dec_of_Z_canonical z (proj1 Hz)) as Hcan. pose proof (canonical_digits _ Hcan) as [Hd Hne].
  assert (unsigned_decimal false (dec_of_Z z) = Some (NInt z)) as Hu.
  { unfold unsigned_decimal. rewrite (digits_not_infinity _ Hd Hne), span_all by done. cbn beta iota zeta.
    rewrite app_nil_r, bool_decide_eq_false_2 by done. cbn [exponent_part].
    unfold num_of_decimal. rewrite Z_of_dec_of_Z by lia. change (0 - jlen []) with 0.
    destruct (z =? 0) eqn:E; [apply Z.eqb_eq in E; by subst|].
    change (10 ^ 0) with 1. change (0 <=? 0) with true. cbn beta iota.
    by rewrite Z.mul_1_r, num_of_Q_int by lia. }
  unfold num_of_string. rewrite trim_digits, digits_not_spaced by done.
  destruct (dec_of_Z z) as [|c s] eqn:E; [done|]. apply Forall_cons in Hd as [Hc _].
  case_digit Hc; by rewrite Hu.
Qed.

Definition version_text (a b c : Z) : jstr := dec_of_Z a +++ js "." +++ dec_of_Z b +++ js "." +++ dec_of_Z c.

(** What may follow a version: nothing, or anything that is not a digit. *)
Definition ends_digits (s : jstr) : Prop := match s with [] => True | c :: _ => is_digit c = false end.

Lemma take_digits_dec z s : 0 ≤ z → ends_digits s →
  take_digits (dec_of_Z z ++ s) = (dec_of_Z z, s) ∧ ∃ c r, dec_of_Z z = c :: r.
Proof.
  intros Hz Hs. pose proof (canonical_digits _ (dec_of_Z_canonical z Hz)) as [Hd Hne].
  split; [|destruct (dec_of_Z z); [done|by do 2 eexists]]. unfold take_digits. destruct s as [|c s].
  - rewrite app_nil_r. by apply span_all.
  - by apply span_until.
Qed.

Lemma triple_at_text a b c s : 0 ≤ a → 0 ≤ b → 0 ≤ c → ends_digits s →
  triple_at (version_text a b c ++ s) = Some (dec_of_Z a, dec_of_Z b, dec_of_Z c).
Proof.
  intros Ha Hb Hc Hs. unfold version_text, triple_at. change (js ".") with [46%N].
  rewrite <- !app_assoc. cbn [app].
  edestruct (take_digits_dec a) as [-> (ca & ra & ->)]; [done| |].
  2: edestruct (take_digits_dec b) as [-> (cb & rb & ->)]; [done| |].
  3: edestruct (take_digits_dec c s) as [-> (cc & rc & ->)]; [done..|].
  all: done.
Qed.

Lemma triple_at_start c s : is_digit c = false → triple_at (c :: s) = None.
Proof. intros Hc. unfold triple_at, take_digits. cbn [span]. by rewrite Hc. Qed.

(** A version is found behind any text without digits. *)
Lemma versionTuple_text prefix a b c suffix :
  Forall (λ x, is_digit x = false) prefix → ends_digits suffix →
  0 ≤ a < 2 ^ 53 → 0 ≤ b < 2 ^ 53 → 0 ≤ c < 2 ^ 53 →
  versionTuple (prefix ++ version_text a b c ++ suffix) = Some (NInt a, NInt b, NInt c).
Proof.
  intros Hp Hs Ha Hb Hc. unfold versionTuple.
  pose proof (triple_at_text a b c suffix (proj1 Ha) (proj1 Hb) (proj1 Hc) Hs) as Ht.
  destruct prefix as [|x prefix]; cbn [app].
  - by rewrite Ht, !num_of_dec.
  - rewrite triple_at_start by by inversion Hp.
    assert (triple_after (x :: prefix ++ version_text a b c ++ suffix)
            = Some (dec_of_Z a, dec_of_Z b, dec_of_Z c)) as ->; [|by rewrite !num_of_dec].
    revert x Hp. induction prefix as [|y prefix IH]; intros x Hp; apply Forall_cons in Hp as [Hx Hp]; cbn [triple_after app].
    + by rewrite Hx, Ht.
    + rewrite Hx, triple_at_start by by inversion Hp. by apply IH.
Qed.

(** The order of versions. *)
Definition at_least_version (v m : Z * Z * Z) : Prop :=
  let '(a, b, c) := v in let '(x, y, z) := m in
  x < a ∨ (x = a ∧ (y < b ∨ (y = b ∧ z ≤ c))).

Lemma at_least_ints a b c x y z :
  at_least_from [NInt a; NInt b; NInt c] [NInt x; NInt y; NInt z] = true ↔ at_least_version (a, b, c) (x, y, z).
Proof.
  cbn [at_least_from at_least_version]. rewrite !(num_ltb_int (NInt _) (NInt _) _ _ eq_refl eq_refl).
  destruct (x <? a) eqn:E1; [split; [lia|done]|]. destruct (a <? x) eqn:E2; [split; [done|lia]|].
  destruct (y <? b) eqn:E3; [split; [lia|done]|]. destruct (b <? y) eqn:E4; [split; [done|lia]|].
  destruct (z <? c) eqn:E5; [split; [lia|done]|]. destruct (c <? z) eqn:E6; split; done || lia.
Qed.

(** What [atLeast] answers for the output of a program, for components that numbers
    hold exactly: versions compare as numbers, never as texts. *)
Lemma atLeast_numeric prefix a b c suffix x y z :
  Forall (λ ch, is_digit ch = false) prefix → ends_digits suffix →
  Forall (λ n, 0 ≤ n < 2 ^ 53) [a; b; c; x; y; z] →
  ∃ r, atLeast (prefix ++ version_text a b c ++ suffix) (VStr (version_text x y z)) = Ok r ∧
    (r = true ↔ at_least_version (a, b, c) (x, y, z)).
Proof.
  intros Hp Hs Hn. repeat (apply Forall_cons in Hn as [? Hn]). eexists. split; [|apply at_least_ints].
  unfold atLeast. rewrite versionTuple_text by done.
  pose proof (versionTuple_text [] x y z [] (Forall_nil_2 _) I) as Hm. cbn [app] in Hm. rewrite app_nil_r in Hm.
  by rewrite Hm.
Qed.

(** ** Checks that pass *)

Lemma all_of_true l : all_of l = Ok true ↔ Forall (λ r, r = Ok true) l.
Proof.
  induction l as [|[[]|e] l IH]; cbn; [split; [constructor|done]| | |].
  - rewrite IH, Forall_cons. naive_solver.
  - split; [done|]. by intros [? _]%Forall_cons.
  - split; [done|]. by intros [? _]%Forall_cons.
Qed.

(** Two values that exist and that [===] equates. *)
Definition agrees (a b : result value) : Prop := ∃ x y, a = Ok x ∧ b = Ok y ∧ strict_eq x y = true.

Lemma is_same_true a b : is_same a b = Ok true → agrees a b.
Proof. destruct a as [x|], b as [y|]; cbn; try done. intros [= H]. by exists x, y. Qed.

Lemma is_same_text a s : is_same a (Ok (VStr s)) = Ok true → a = Ok (VStr s).
Proof. intros (x & y & -> & [= <-] & H)%is_same_true. by apply strict_eq_str in H as ->. Qed.

Lemma failed_none checks : Forall (λ c, required c = true) checks → failed_checks checks = [] → Forall (λ c, passed c = true) checks.
Proof.
  unfold failed_checks. induction 1 as [|[n [] r d] l Hr _ IH]; cbn in *; [done| |by subst].
  rewrite andb_false_r. intros H. constructor; [done|by apply IH].
Qed.

Section toolchain.
Context (spawn : jstr → list jstr → spawned) (readFile : jstr → result (list Z)) (root : jstr).

(** Every check is required. *)
Definition all_required (l : list check) : Prop := Forall (λ c, required c = true) l.

Lemma record_passed name b d (c : check) : Ok (record name b d) = Ok c → required c = true ∧ passed c = b.
Proof. by intros [= <-]. Qed.

Lemma image_required name i e a x c : checkImage spawn name i e a x = Ok c → required c = true.
Proof. unfold checkImage. intros (? & _ & (? & _ & (? & _ & (? & _ & H)%bind_Ok)%bind_Ok)%bind_Ok)%bind_Ok. by eapply record_passed. Qed.

(** What a passed image check ran and saw. *)
Lemma image_passed name i e a x c : checkImage spawn name i e a x = Ok c → passed c = true →
  ∃ i' e' a' x', i = Ok i' ∧ e = Ok e' ∧ a = Ok a' ∧ x = Ok x' ∧
    let r := spawn (js "docker") ([js "run"; js "--rm"; js "--entrypoint"; to_string e'; to_string i'] ++ a') in
    spawn_status r = Some 0 ∧ includes (to_string x') (command_output r) = true.
Proof.
  unfold checkImage. intros (i' & -> & (e' & -> & (a' & -> & (x' & -> & H)%bind_Ok)%bind_Ok)%bind_Ok)%bind_Ok Hp.
  apply record_passed in H as [_ H]. rewrite H in Hp. apply andb_true_iff in Hp as [Hs Hi].
  apply bool_decide_eq_true in Hs. by exists i', e', a', x'.
Qed.

Lemma minimum_required name p a m c : checkMinimum spawn name p a m = Ok c → required c = true.
Proof. unfold checkMinimum. intros (? & _ & (? & _ & H)%bind_Ok)%bind_Ok. by eapply record_passed. Qed.

(** What a passed minimum check ran and saw. *)
Lemma minimum_passed name p a m c : checkMinimum spawn name p a m = Ok c → passed c = true →
  ∃ v, m = Ok v ∧ spawn_status (spawn p a) = Some 0 ∧ atLeast (command_output (spawn p a)) v = Ok true.
Proof.
  unfold checkMinimum. intros (v & -> & (b & Hb & H)%bind_Ok)%bind_Ok Hp. apply record_passed in H as [_ H].
  rewrite Hp in H. subst b. destruct (succeeded (spawn p a)) eqn:Hs; [|done]. apply bool_decide_eq_true in Hs. by exists v.
Qed.

(** ** What the manifest and the packages have to say *)

(** The versions and settings of [contracts] that were reviewed. *)
Definition reviewed : list (list string * value) := [
  (["foundry"; "version"], vs "1.7.1"); (["solidity"; "version"], vs "0.8.30");
  (["solidity"; "longVersion"], vs "0.8.30+commit.73712a01"); (["solidity"; "binaryPath"], vs "/usr/bin/solc");
  (["openZeppelin"; "version"], vs "5.6.1"); (["solhint"; "version"], vs "5.0.5");
  (["formatter"; "foundryVersion"], vs "1.7.1"); (["coverage"; "foundryVersion"], vs "1.7.1");
  (["analysis"; "foundryVersion"], vs "1.7.1"); (["schemaValidator"; "version"], vs "8.17.1");
  (["coverage"; "minimumLinePercent"], vi 90)]%string.

(** Where the manifest and the upstream pins have to agree. *)
Definition upstream : list (list string * list string) := [
  (["chain"; "cosmosEvm"], ["baseline"; "release"]);
  (["chain"; "cosmosSdk"], ["baseline"; "modules"; "cosmosSdk"]);
  (["chain"; "cometBft"], ["baseline"; "modules"; "cometBft"]);
  (["runtimes"; "go"; "version"], ["baseline"; "go"])]%string.

(** The manifest has the reviewed contents, as do the files that repeat them. *)
Record manifest_reviewed (manifest packageJson pins : value) : Prop := {
  mr_schema : agrees (at_ manifest ["schemaVersion"]%string) (Ok (vi 1));
  mr_images ks : ks ∈ manifest_images → ∃ i, at_ manifest ks = Ok i ∧ is_pinned_image (to_string i) = true;
  mr_contracts : Forall (λ r, agrees (contract manifest r.1) (Ok r.2)) reviewed;
  mr_release : ∃ release, contract manifest ["openZeppelin"; "release"]%string = Ok (VStr release) ∧
    ends_with (js "/v5.6.1") release = true;
  mr_severities : ∃ severities, contract manifest ["analysis"; "severities"]%string = Ok severities ∧
    json_differs severities (texts ["high"; "med"]%string) = false;
  mr_pnpm : ∃ version, at_ manifest ["runtimes"; "pnpm"; "version"]%string = Ok version ∧
    get packageJson (js "packageManager") = Ok (VStr (js "pnpm@" +++ to_string version));
  mr_node : Forall (λ path, ∃ t, read_text readFile root path = Ok t ∧
    at_ manifest ["runtimes"; "node"; "version"]%string = Ok (VStr (trim t))) ["chain/.node-version"; "chain/.nvmrc"]%string;
  mr_upstream : Forall (λ u, agrees (at_ manifest u.1) (walk pins u.2)) upstream
}.

(** The package declares a dependency at version [v]; the lock file has it at that
    version in its root and, with an integrity, as an installed package. *)
Record pinned_dependency (package lock : value) (section name : jstr) (v : result value) : Prop := {
  pd_declared : agrees (deps ← get package section; oat deps (Ok name)) v;
  pd_locked : ∃ packages lockRoot entry,
    get lock (js "packages") = Ok packages ∧
    oat packages (Ok []) = Ok lockRoot ∧ agrees (oat (oget lockRoot section) (Ok name)) v ∧
    oat packages (Ok (js "node_modules/" +++ name)) = Ok entry ∧
    agrees (Ok (oget entry (js "version"))) v ∧ has_integrity entry = true
}.

Record packages_pinned (manifest package lock : value) : Prop := {
  pp_private : get package (js "private") = Ok (VBool true);
  pp_lockfile : agrees (get lock (js "lockfileVersion")) (Ok (vi 3));
  pp_zeppelin : ∃ name, contract manifest ["openZeppelin"; "package"]%string = Ok name ∧
    pinned_dependency package lock (js "dependencies") (to_string name) (Ok (vs "5.6.1"));
  pp_ajv : pinned_dependency package lock (js "devDependencies") (js "ajv") (Ok (vs "8.17.1"));
  pp_solhint : pinned_dependency package lock (js "devDependencies") (js "solhint") (Ok (vs "5.0.5"));
  pp_prettier : pinned_dependency package lock (js "devDependencies") (js "prettier") (prettier_version manifest)
}.

(** Opens [x ← m; k] in [H]: the value of [m] and its equation. *)
Ltac step_Ok H := apply bind_Ok in H as (? & ? & H).

Lemma check_of_Ok {A} (m : result bool) (d : result A) name text (c : check) :
  (b ← m; x ← d; Ok (record name b (text x))) = Ok c → required c = true ∧ (passed c = true → m = Ok true).
Proof. intros H. do 2 step_Ok H. apply record_passed in H as [Hr Hp]. split; [done|]. congruence. Qed.

Lemma digest_check_passed manifest c : digest_check manifest = Ok c → required c = true ∧
  (passed c = true → ∀ ks, ks ∈ manifest_images → ∃ i, at_ manifest ks = Ok i ∧ is_pinned_image (to_string i) = true).
Proof.
  unfold digest_check. intros (images & Hi%map_res_Ok & [Hr Hp]%record_passed)%bind_Ok. split; [done|].
  intros Hc ks Hks. rewrite Hp in Hc. apply list_elem_of_lookup in Hks as [n Hn].
  destruct (Forall2_lookup_l _ _ _ _ _ Hi Hn) as (i & Hl & Ha). exists i. split; [done|].
  rewrite forallb_forall in Hc. apply Hc. apply list_elem_of_In. by eapply list_elem_of_lookup_2.
Qed.

Lemma schema_check_passed manifest c : schema_check manifest = Ok c → required c = true ∧
  (passed c = true → agrees (at_ manifest ["schemaVersion"]%string) (Ok (vi 1))).
Proof.
  unfold schema_check. intros (v & Hv & [Hr Hp]%record_passed)%bind_Ok. split; [done|]. intros H.
  rewrite H in Hp. by exists v, (vi 1).
Qed.

(** All conjuncts of a check that passed. *)
Ltac conjuncts H := apply all_of_true in H; repeat (let Hi := fresh "Hi" in apply Forall_cons in H as [Hi H]); clear H.

Lemma pnpm_check_passed manifest packageJson c : pnpm_check manifest packageJson = Ok c → required c = true ∧
  (passed c = true → ∃ version, at_ manifest ["runtimes"; "pnpm"; "version"]%string = Ok version ∧
     get packageJson (js "packageManager") = Ok (VStr (js "pnpm@" +++ to_string version))).
Proof.
  unfold pnpm_check. cbv zeta. intros [Hr H]%check_of_Ok. split; [done|].
  intros (x & y & Hx & (v & Hv & [= <-])%bind_Ok & E%strict_eq_str)%H%is_same_true. exists v. by rewrite Hx, E.
Qed.

Lemma node_pin_check_passed manifest c : node_pin_check readFile root manifest = Ok c → required c = true ∧
  (passed c = true → Forall (λ path, ∃ t, read_text readFile root path = Ok t ∧
     at_ manifest ["runtimes"; "node"; "version"]%string = Ok (VStr (trim t))) ["chain/.node-version"; "chain/.nvmrc"]%string).
Proof.
  unfold node_pin_check. cbv zeta. intros [Hr H]%check_of_Ok. split; [done|]. intros Hp. specialize (H Hp). conjuncts H.
  repeat constructor;
    match goal with Hi : is_same (t ← ?m; _) _ = _ |- ∃ t, ?m = _ ∧ _ =>
      destruct (is_same_true _ _ Hi) as (x & y & (t & Ht & [= <-])%bind_Ok & Hy & E); exists t; split; [done|];
      rewrite Hy; f_equal; destruct y; try done; cbn in E; apply jeq_spec in E; by subst end.
Qed.

Lemma upstream_check_passed manifest pins c : upstream_check manifest pins = Ok c → required c = true ∧
  (passed c = true → Forall (λ u, agrees (at_ manifest u.1) (walk pins u.2)) upstream).
Proof.
  unfold upstream_check. cbv zeta. intros [Hr H]%check_of_Ok. split; [done|]. intros Hp. specialize (H Hp). conjuncts H.
  unfold upstream. repeat (apply Forall_cons; split; [by apply is_same_true|]). by apply Forall_nil_2.
Qed.

(** The pinned versions. *)
Lemma contract_toolchain_check_passed manifest c : contract_toolchain_check manifest = Ok c → required c = true ∧
  (passed c = true →
     Forall (λ r, agrees (contract manifest r.1) (Ok r.2)) reviewed ∧
     (∃ release, contract manifest ["openZeppelin"; "release"]%string = Ok (VStr release) ∧
        ends_with (js "/v5.6.1") release = true) ∧
     (∃ severities, contract manifest ["analysis"; "severities"]%string = Ok severities ∧
        json_differs severities (texts ["high"; "med"]%string) = false) ∧
     zeppelin_version manifest = Ok (vs "5.6.1") ∧ solhint_version manifest = Ok (vs "5.0.5") ∧
     ajv_version manifest = Ok (vs "8.17.1")).
Proof.
  unfold contract_toolchain_check. intros [Hr H]%check_of_Ok. split; [done|]. intros Hp. specialize (H Hp). conjuncts H.
  assert (foundry_version manifest = Ok (vs "1.7.1")) as Ef by by apply is_same_text.
  assert (zeppelin_version manifest = Ok (vs "5.6.1")) as Ez by by apply is_same_text.
  rewrite Ef in Hi5, Hi6, Hi7. rewrite Ez in Hi9. split_and!.
  - unfold reviewed. repeat (apply Forall_cons; split; [by apply is_same_true|]). by apply Forall_nil_2.
  - apply bind_Ok in Hi9 as (release & Hrel & E). destruct release as [| | | |release| |]; try done.
    exists release. split; [done|]. cbn in E. by apply Ok_inj in E.
  - apply bind_Ok in Hi11 as (s & Hs & E%Ok_inj%negb_true_iff). by exists s.
  - done.
  - by apply is_same_text.
  - by apply is_same_text.
Qed.

Lemma dependency_check_passed manifest package c : dependency_check manifest package = Ok c → required c = true ∧
  (passed c = true →
     get package (js "private") = Ok (VBool true) ∧
     is_same (zeppelin_in manifest package) (zeppelin_version manifest) = Ok true ∧
     is_same (dev_dependency package "ajv"%string) (ajv_version manifest) = Ok true ∧
     is_same (dev_dependency package "prettier"%string) (prettier_version manifest) = Ok true ∧
     is_same (dev_dependency package "solhint"%string) (solhint_version manifest) = Ok true).
Proof.
  unfold dependency_check. cbv zeta. intros [Hr H]%check_of_Ok. split; [done|]. intros Hp. specialize (H Hp). conjuncts H.
  split_and!; try done. apply is_same_true in Hi as (x & y & -> & [= <-] & E). by apply strict_eq_bool in E as ->.
Qed.

(** One dependency in the lock file: its version in the root, and the entry's
    version and integrity. *)
Definition locked_at (locked : result value) (entry : value) (v : result value) : Prop :=
  is_same locked v = Ok true ∧ is_same (Ok (oget entry (js "version"))) v = Ok true ∧ has_integrity entry = true.

Lemma lock_check_passed manifest lock root_ zeppelin solhint prettier ajv c :
  lock_check manifest lock root_ zeppelin solhint prettier ajv = Ok c → required c = true ∧
  (passed c = true →
     agrees (get lock (js "lockfileVersion")) (Ok (vi 3)) ∧
     locked_at (locked_zeppelin manifest root_) zeppelin (zeppelin_version manifest) ∧
     locked_at (locked_dev root_ "ajv"%string) ajv (ajv_version manifest) ∧
     locked_at (locked_dev root_ "prettier"%string) prettier (prettier_version manifest) ∧
     locked_at (locked_dev root_ "solhint"%string) solhint (solhint_version manifest)).
Proof.
  unfold lock_check. cbv zeta. intros [Hr H]%check_of_Ok. split; [done|]. intros Hp. specialize (H Hp). conjuncts H.
  split; [by apply is_same_true|]. repeat split; first [assumption | by apply Ok_inj].
Qed.

(** The name of the OpenZeppelin package is read wherever a version is found. *)
Lemma zeppelin_named manifest package : zeppelin_in manifest package = Ok (vs "5.6.1") →
  ∃ name, contract manifest ["openZeppelin"; "package"]%string = Ok name ∧ zeppelin_package manifest = Ok (to_string name).
Proof.
  unfold zeppelin_in, oat. intros (deps & _ & H)%bind_Ok. destruct (is_nullish deps); [done|].
  apply bind_Ok in H as (k & Hk & _). rewrite Hk. unfold zeppelin_package, shown in Hk.
  apply bind_Ok in Hk as (name & Hn & [= <-]). by exists name.
Qed.

Lemma pinned_of package lock section name v packages lockRoot entry :
  get lock (js "packages") = Ok packages → oat packages (Ok []) = Ok lockRoot →
  oat packages (Ok (js "node_modules/" +++ name)) = Ok entry →
  is_same (deps ← get package section; oat deps (Ok name)) v = Ok true →
  locked_at (oat (oget lockRoot section) (Ok name)) entry v → pinned_dependency package lock section name v.
Proof.
  intros Hp Hl He Hd (Hr%is_same_true & Hv%is_same_true & Hi). split; [by apply is_same_true|].
  by exists packages, lockRoot, entry.
Qed.

(** What the pin checks of a run that passes say. *)
Lemma validateManifest_passed manifest checks : validateManifest readFile root manifest = Ok checks →
  all_required checks ∧
  (Forall (λ c, passed c = true) checks →
     ∃ packageJson package lock pins,
       read_json readFile root "package.json" = Ok packageJson ∧
       read_json readFile root "contracts/package.json" = Ok package ∧
       read_json readFile root "contracts/package-lock.json" = Ok lock ∧
       read_json readFile root "chain/poc/upstream-baseline/pins.json" = Ok pins ∧
       manifest_reviewed manifest packageJson pins ∧ packages_pinned manifest package lock).
Proof.
  unfold validateManifest.
  intros (c1 & [R1 P1]%schema_check_passed & H)%bind_Ok. apply bind_Ok in H as (c2 & [R2 P2]%digest_check_passed & H).
  apply bind_Ok in H as (packageJson & Hjson & H). apply bind_Ok in H as (package & Hpackage & H).
  apply bind_Ok in H as (lock & Hlock & H). apply bind_Ok in H as (packages & Hpackages & H).
  apply bind_Ok in H as (lockRoot & Hroot & H). apply bind_Ok in H as (zeppelin & Hzeppelin & H).
  apply bind_Ok in H as (solhint & Hsolhint & H). apply bind_Ok in H as (prettier & Hprettier & H).
  apply bind_Ok in H as (ajv & Hajv & H). apply bind_Ok in H as (pins & Hpins & H).
  apply bind_Ok in H as (c3 & [R3 P3]%pnpm_check_passed & H). apply bind_Ok in H as (c4 & [R4 P4]%node_pin_check_passed & H).
  apply bind_Ok in H as (c5 & [R5 P5]%upstream_check_passed & H).
  apply bind_Ok in H as (c6 & [R6 P6]%contract_toolchain_check_passed & H).
  apply bind_Ok in H as (c7 & [R7 P7]%dependency_check_passed & H).
  apply bind_Ok in H as (c8 & [R8 P8]%lock_check_passed & H). apply Ok_inj in H as <-.
  split; [by repeat constructor|]. intros Hp. repeat (let H := fresh in apply Forall_cons in Hp as [H Hp]).
  destruct P6 as (Hreviewed & Hrelease & Hseverities & Ez & Es & Ea); [done|].
  destruct P7 as (Hprivate & Dz & Da & Dp & Ds); [done|]. destruct P8 as (Hversion & Lz & La & Lp & Ls); [done|].
  exists packageJson, package, lock, pins. do 4 (split; [done|]). split; [by split; auto|].
  rewrite Ez in Dz, Lz. rewrite Ea in Da, La. rewrite Es in Ds, Ls.
  destruct (zeppelin_named manifest package) as (name & Hname & Ek); [by apply is_same_text|].
  unfold zeppelin_in in Dz. unfold locked_zeppelin in Lz. rewrite Ek in Dz, Lz, Hzeppelin.
  split; [done|done|exists name; split; [done|]|..]; by eapply pinned_of.
Qed.

(** The programs of the host whose versions have a minimum. *)
Definition host_programs : list (string * list string * string) := [
  ("git", ["--version"], "git"); ("docker", ["version"; "--format"; "{{.Client.Version}}"], "docker");
  ("docker", ["compose"; "version"; "--short"], "dockerCompose")]%string.

Definition host_program_ready (manifest : value) (h : string * list string * string) : Prop :=
  let '(program, arguments, key) := h in
  let r := spawn (js program) (map js arguments) in
  ∃ minimum, at_ manifest ["hostMinimums"; key]%string = Ok minimum ∧ spawn_status r = Some 0 ∧
    atLeast (command_output r) minimum = Ok true.

Lemma host_checks_passed manifest hostNode checks : host_checks spawn manifest hostNode = Ok checks →
  all_required checks ∧
  (Forall (λ c, passed c = true) checks →
     Forall (host_program_ready manifest) host_programs ∧ atLeast hostNode (vs "22.0.0") = Ok true).
Proof.
  unfold host_checks. intros H. apply bind_Ok in H as (git & Hgit & H). apply bind_Ok in H as (docker & Hdocker & H).
  apply bind_Ok in H as (compose & Hcompose & H). apply bind_Ok in H as (b & Hb & H). step_Ok H. apply Ok_inj in H as <-.
  split.
  - repeat constructor; by eapply minimum_required.
  - intros Hp. repeat (apply Forall_cons in Hp as [? Hp]). split; [|cbn in *; congruence].
    repeat constructor; cbn [host_program_ready map];
      match goal with Hc : checkMinimum _ _ _ _ (at_ _ ?ks) = Ok ?c, Hpc : passed ?c = true |- context [at_ _ ?ks] =>
        by apply (minimum_passed _ _ _ _ _ Hc) in Hpc end.
Qed.

(** The images that are asked for their own version: where the image is in the
    manifest, what is run, and the version text to find. *)
Definition image_programs : list (list string * string * list string * string * list string) := [
  (["runtimes"; "node"; "image"], "node", ["--version"], "v", ["runtimes"; "node"; "version"]);
  (["runtimes"; "go"; "image"], "go", ["version"], "go", ["runtimes"; "go"; "version"]);
  (["protobuf"; "image"], "buf", ["--version"], "", ["protobuf"; "bufVersion"]);
  (["protobuf"; "image"], "clang-format", ["--version"], "", ["protobuf"; "clangFormatVersion"]);
  (["contracts"; "foundry"; "image"], "cast", ["--version"], "", ["contracts"; "foundry"; "version"]);
  (["quality"; "golangciLint"; "image"], "golangci-lint", ["version"], "", ["quality"; "golangciLint"; "version"]);
  (["quality"; "protolint"; "image"], "protolint", ["version"], "", ["quality"; "protolint"; "version"]);
  (["quality"; "shfmt"; "image"], "shfmt", ["--version"], "", ["quality"; "shfmt"; "version"])]%string.

Definition image_ready (manifest : value) (h : list string * string * list string * string * list string) : Prop :=
  let '(image, program, arguments, prefix, version) := h in
  ∃ i v, at_ manifest image = Ok i ∧ at_ manifest version = Ok v ∧
    let r := spawn (js "docker") (map js ["run"; "--rm"; "--entrypoint"; program]%string ++ to_string i :: map js arguments) in
    spawn_status r = Some 0 ∧ includes (js prefix +++ to_string v) (command_output r) = true.

(** The version to find is the manifest's, or that behind a prefix. *)
Lemma image_passed_ready manifest name image p args prefix version expected c :
  (expected = at_ manifest version ∧ prefix = ""%string) ∨ expected = prefixed prefix (at_ manifest version) →
  checkImage spawn name (at_ manifest image) (program p) (arguments_ args) expected = Ok c → passed c = true →
  image_ready manifest (image, p, args, prefix, version).
Proof.
  intros Hx Hc Hp. destruct (image_passed _ _ _ _ _ _ Hc Hp) as (i & e & a & x & Hi & [= <-] & [= <-] & He & Hs & Hin).
  destruct Hx as [[-> ->]| ->].
  - by exists i, x.
  - unfold prefixed, shown in He. destruct (at_ manifest version) as [v|] eqn:Ev; [|done].
    cbn in He. apply Ok_inj in He as <-. by exists i, v.
Qed.

(** pnpm is asked through Corepack, in the Node image. *)
Definition pnpm_ready (manifest : value) : Prop :=
  ∃ i v, at_ manifest ["runtimes"; "node"; "image"]%string = Ok i ∧
    at_ manifest ["runtimes"; "pnpm"; "version"]%string = Ok v ∧
    let r := spawn (js "docker") (map js ["run"; "--rm"; "--entrypoint"; "sh"]%string ++
      [to_string i; js "-lc"; js "corepack prepare pnpm@" +++ to_string v +++ js " --activate >/dev/null && corepack pnpm --version"]) in
    spawn_status r = Some 0 ∧ includes (to_string v) (command_output r) = true.

(** The Solidity compiler is at the path that the manifest has. *)
Definition solidity_ready (manifest : value) (path version : jstr) : Prop :=
  ∃ i, contract manifest ["solidity"; "image"]%string = Ok i ∧
    let r := spawn (js "docker") (map js ["run"; "--rm"; "--entrypoint"]%string ++ [path; to_string i; js "--version"]) in
    spawn_status r = Some 0 ∧ includes version (command_output r) = true.

(** Every program found in its image at the manifest's version. *)
Definition images_ready (manifest : value) : Prop :=
  Forall (image_ready manifest) image_programs ∧ pnpm_ready manifest ∧
  ∃ path version, contract manifest ["solidity"; "binaryPath"]%string = Ok path ∧
    contract manifest ["solidity"; "version"]%string = Ok version ∧
    solidity_ready manifest (to_string path) (to_string version).

Lemma pnpm_passed_ready manifest name c :
  checkImage spawn name (at_ manifest ["runtimes"; "node"; "image"]%string) (program "sh")
    (corepack (at_ manifest ["runtimes"; "pnpm"; "version"]%string)) (at_ manifest ["runtimes"; "pnpm"; "version"]%string)
    = Ok c → passed c = true → pnpm_ready manifest.
Proof.
  intros Hc Hp. destruct (image_passed _ _ _ _ _ _ Hc Hp) as (i & e & a & x & Hi & [= <-] & Ha & Hx & Hs & Hin).
  unfold corepack, shown in Ha. rewrite Hx in Ha. apply Ok_inj in Ha as <-. by exists i, x.
Qed.

Lemma solidity_passed_ready manifest name c :
  checkImage spawn name (contract manifest ["solidity"; "image"]%string) (contract manifest ["solidity"; "binaryPath"]%string)
    (arguments_ ["--version"]%string) (contract manifest ["solidity"; "version"]%string) = Ok c → passed c = true →
  ∃ path version, contract manifest ["solidity"; "binaryPath"]%string = Ok path ∧
    contract manifest ["solidity"; "version"]%string = Ok version ∧
    solidity_ready manifest (to_string path) (to_string version).
Proof.
  intros Hc Hp. destruct (image_passed _ _ _ _ _ _ Hc Hp) as (i & e & a & x & Hi & He & [= <-] & Hx & Hs & Hin).
  exists e, x. split_and!; [done..|]. by exists i.
Qed.

Lemma image_checks_passed manifest checks : image_checks spawn manifest = Ok checks →
  all_required checks ∧ (Forall (λ c, passed c = true) checks → images_ready manifest).
Proof.
  unfold image_checks. cbv zeta. intros H%map_res_Ok. unfold id in H.
  repeat (apply Forall2_cons_inv_l in H as (? & ? & ? & H & ->)). apply Forall2_nil_inv_l in H as ->. split.
  - repeat constructor; by eapply image_required.
  - intros Hp. repeat (apply Forall_cons in Hp as [? Hp]). split; [|split].
    + repeat constructor; (eapply image_passed_ready; [|eassumption|done]); first [by left | by right].
    + by eapply pnpm_passed_ready.
    + by eapply solidity_passed_ready.
Qed.

(** ** A run *)

(** A run exits with 0 exactly when the whole report is computed and every check in
    it passed. *)
Lemma toolchain_exit_zero version arguments :
  exitCode (check_toolchain spawn readFile root version arguments) = 0 ↔
  ∃ text checks, checkToolchainReport spawn readFile root version arguments = Ok (text, checks) ∧ failed_checks checks = [].
Proof.
  unfold check_toolchain. destruct (checkToolchainReport _ _ _ _ _) as [[text checks]|e]; cbn.
  - destruct (bool_decide_reflect (failed_checks checks = [])) as [Hf|Hf]; split; try done.
    + intros _. by exists text, checks.
    + intros (? & ? & [= <- <-] & ?). done.
  - split; [done|]. by intros (? & ? & ? & _).
Qed.

(** C18. A toolchain check that exits with 0 found all that it is meant to: a
    manifest of schema 1 with every image pinned to a SHA-256 digest, the reviewed
    contract toolchain, and pnpm, Node and upstream pins that the other files repeat;
    OpenZeppelin, Ajv, Solhint and Prettier in the private contracts package and,
    with an integrity, in its lock file; git, Docker and Compose at the manifest's
    minimum versions, on Node 22.0.0 or later; and, when asked to verify images,
    every one of the ten programs, pnpm and the Solidity compiler included, printing
    the manifest's version in its pinned image. *)
Theorem toolchain_success version arguments :
  exitCode (check_toolchain spawn readFile root version arguments) = 0 →
  ∃ manifest packageJson package lock pins,
    read_json readFile root "chain/toolchain.json" = Ok manifest ∧
    read_json readFile root "package.json" = Ok packageJson ∧
    read_json readFile root "contracts/package.json" = Ok package ∧
    read_json readFile root "contracts/package-lock.json" = Ok lock ∧
    read_json readFile root "chain/poc/upstream-baseline/pins.json" = Ok pins ∧
    manifest_reviewed manifest packageJson pins ∧
    packages_pinned manifest package lock ∧
    Forall (host_program_ready manifest) host_programs ∧
    atLeast (host_node version) (vs "22.0.0") = Ok true ∧
    (jmem (js "--verify-images") arguments = true → images_ready manifest).
Proof.
  intros (text & checks & H & Hf)%toolchain_exit_zero. unfold checkToolchainReport in H.
  apply bind_Ok in H as (manifest & Hm & H). cbv zeta in H. apply bind_Ok in H as (checks' & Hc & H). do 2 step_Ok H.
  assert (checks' = checks) as -> by (apply Ok_inj in H; by simplify_eq). clear H.
  unfold all_checks in Hc. apply bind_Ok in Hc as (pinned & [Rp Pp]%validateManifest_passed & Hc).
  apply bind_Ok in Hc as (host & [Rh Ph]%host_checks_passed & Hc). apply bind_Ok in Hc as (images & Hi & Hc).
  apply Ok_inj in Hc as <-.
  assert (all_required images ∧ (Forall (λ c, passed c = true) images →
    jmem (js "--verify-images") arguments = true → images_ready manifest)) as [Ri Pi].
  { destruct (jmem _ arguments); [|apply Ok_inj in Hi as <-; by split; [apply Forall_nil_2|]]. apply image_checks_passed in Hi as [? Hi].
    split; [done|]. intros Hp _. by apply Hi. }
  apply failed_none in Hf; [|by repeat apply Forall_app_2]. rewrite !Forall_app in Hf. destruct Hf as (Fp & Fh & Fi).
  destruct (Pp Fp) as (packageJson & package & lock & pins & Q1 & Q2 & Q3 & Q4 & Hr & Hd). destruct (Ph Fh) as [Hh Hn].
  exists manifest, packageJson, package, lock, pins. do 9 (split; [assumption|]). exact (Pi Fi).
Qed.

End toolchain.

(** ** A pinned toolchain *)

Module ToolchainSamples.

Definition pinned (name : string) : value := VStr (js name +++ js "@sha256:" +++ repeat 97%N 64).
Definition versioned (v : string) : value := VObj ["version" :=: vs v]%js.
Definition pin (v image : string) : value := VObj ["version" :=: vs v; "image" :=: pinned image]%js.

Definition sample_manifest : value := VObj [
  "schemaVersion" :=: vi 1;
  "runtimes" :=: VObj ["node" :=: pin "22.23.1" "node"; "pnpm" :=: versioned "10.27.0"; "go" :=: pin "1.25.9" "golang"];
  "hostMinimums" :=: VObj ["git" :=: vs "2.40.0"; "docker" :=: vs "27.0.0"; "dockerCompose" :=: vs "2.30.0"];
  "chain" :=: VObj ["cosmosEvm" :=: vs "v0.7.0"; "cosmosSdk" :=: vs "v0.54.3"; "cometBft" :=: vs "v0.39.3"];
  "protobuf" :=: VObj ["image" :=: pinned "builder"; "bufVersion" :=: vs "1.64.0"; "clangFormatVersion" :=: vs "21.1.2"];
  "contracts" :=: VObj [
    "foundry" :=: pin "1.7.1" "foundry";
    "solidity" :=: VObj ["version" :=: vs "0.8.30"; "longVersion" :=: vs "0.8.30+commit.73712a01";
      "image" :=: pinned "solc"; "binaryPath" :=: vs "/usr/bin/solc"];
    "openZeppelin" :=: VObj ["version" :=: vs "5.6.1"; "package" :=: vs "@openzeppelin/contracts";
      "release" :=: vs "https://example.invalid/tag/v5.6.1"];
    "solhint" :=: versioned "5.0.5";
    "formatter" :=: VObj ["foundryVersion" :=: vs "1.7.1"];
    "coverage" :=: VObj ["foundryVersion" :=: vs "1.7.1"; "minimumLinePercent" :=: vi 90];
    "analysis" :=: VObj ["foundryVersion" :=: vs "1.7.1"; "severities" :=: VArr [vs "high"; vs "med"]];
    "schemaValidator" :=: versioned "8.17.1"];
  "quality" :=: VObj ["golangciLint" :=: pin "2.10.1" "golangci"; "protolint" :=: pin "0.44.0" "protolint";
    "shfmt" :=: pin "3.13.1" "shfmt"; "prettier" :=: versioned "3.8.1"]]%js.

Definition sample_dependencies : list (jstr * value) := [
  "dependencies" :=: VObj ["@openzeppelin/contracts" :=: vs "5.6.1"];
  "devDependencies" :=: VObj ["ajv" :=: vs "8.17.1"; "prettier" :=: vs "3.8.1"; "solhint" :=: vs "5.0.5"]]%js.

Definition locked (v : string) : value := VObj ["version" :=: vs v; "integrity" :=: vs "sha512-AAAA"]%js.

Definition sample_files : list (jstr * value) := [
  "/r/chain/toolchain.json" :=: sample_manifest;
  "/r/package.json" :=: VObj ["packageManager" :=: vs "pnpm@10.27.0"];
  "/r/contracts/package.json" :=: VObj (("private" :=: VBool true) :: sample_dependencies);
  "/r/contracts/package-lock.json" :=: VObj ["lockfileVersion" :=: vi 3; "packages" :=: VObj [
    "" :=: VObj sample_dependencies;
    "node_modules/@openzeppelin/contracts" :=: locked "5.6.1"; "node_modules/ajv" :=: locked "8.17.1";
    "node_modules/prettier" :=: locked "3.8.1"; "node_modules/solhint" :=: locked "5.0.5"]];
  "/r/chain/poc/upstream-baseline/pins.json" :=: VObj ["baseline" :=: VObj ["release" :=: vs "v0.7.0"; "go" :=: vs "1.25.9";
    "modules" :=: VObj ["cosmosSdk" :=: vs "v0.54.3"; "cometBft" :=: vs "v0.39.3"]]]]%js.

Definition sample_readFile (path : jstr) : result (list Z) :=
  if jmem path [js "/r/chain/.node-version"; js "/r/chain/.nvmrc"] then Ok (utf8_encode (js "22.23.1" +++ [10%N]))
  else match assoc path sample_files with Some v => Ok (utf8_encode (stringify 2 0 v)) | None => error (js "ENOENT") end.

(** Git is at [git]; every image prints the versions of all programs. *)
Definition sample_output (git : string) (program : jstr) (arguments : list jstr) : string :=
  if program =s? js "git" then "git version " ++ git
  else if jmem (js "run") arguments then
    "v22.23.1 10.27.0 go1.25.9 1.64.0 21.1.2 1.7.1 0.8.30 2.10.1 0.44.0 3.13.1"
  else if jmem (js "compose") arguments then "5.1.2" else "29.4.0".

Definition sample_spawn (git : string) (program : jstr) (arguments : list jstr) : spawned :=
  Spawned None (Some 0) (js (sample_output git program arguments)) [].

Abbreviation run git version := (exitCode (check_toolchain (sample_spawn git) sample_readFile (js "/r") (js version) [js "--verify-images"])).

Example old_git_fails : run "2.9.5" "v24.1.0" = 1.
Proof. vm_compute. reflexivity. Qed.

Example old_node_fails : run "2.53.0" "v20.19.0" = 1.
Proof. vm_compute. reflexivity. Qed.

Example atLeast_prerelease : atLeast (js "git version 2.40.0-rc1") (vs "2.40.0") = Ok true.
Proof. vm_compute. reflexivity. Qed.

Lemma toolchain_success_witness : run "2.53.0" "v24.1.0" = 0 ∧
  atLeast (host_node (js "v24.1.0")) (vs "22.0.0") = Ok true ∧ ∃ manifest, images_ready (sample_spawn "2.53.0") manifest.
Proof.
  assert (run "2.53.0" "v24.1.0" = 0) as H by (vm_compute; reflexivity). split; [exact H|].
  destruct (toolchain_success _ _ _ _ _ H) as (m & _ & _ & _ & _ & _ & _ & _ & _ & _ & _ & _ & _ & Hn & Hi).
  split; [exact Hn|]. exists m. by apply Hi.
Defined.

End ToolchainSamples.
