(* ===== verification/AuditBundle.v ===== *)
(** contracts/scripts/generate-audit-bundle.mjs: the manifest of the audit inputs,
    with the checksum of every file in scope, the commit they are compared with,
    the settings, coverage and dependencies, and the checksum file. *)

From stdpp Require Import gmap.
From S2P Require Import Prelude JsNum JsText JsUtf8 JsValue JsOps JsonText JsPath JsRegex Deploy GeneratedFiles GenerateArtifacts NetworkArtifacts.

Open Scope Z_scope.

(** ** Command line *)

(** Whether the run only checks. *)
Definition parse_audit (argv : list jstr) : result bool :=
  match argv with
  | [] => Ok false
  | [a] => if a =s? js "--check" then Ok true else error (js "usage: generate-audit-bundle.mjs [--check]")
  | _ => error (js "usage: generate-audit-bundle.mjs [--check]")
  end.

(** ** Repository paths *)

Definition falsy_value : jstr := js "The expression evaluated to a falsy value".

(** The path of a repository file: relative, with no way up. *)
Definition assertRepositoryPath (v : value) : result jstr :=
  match v with
  | VStr s =>
      assert (negb (bool_decide (s = [])) && negb (is_absolute s)) falsy_value;;
      assert (s =s? join [slash] (split_on slash s)) not_equal;;
      assert (negb (jmem (js "..") (split_on slash s))) falsy_value;;
      Ok s
  | _ => assert false not_equal;; Ok []
  end.

(** ** The configuration *)

(** [/^[a-z0-9]+(?:-[a-z0-9]+)*$/u]: words between single hyphens. *)
Definition is_bundle_id (s : jstr) : bool :=
  forallb (λ w, negb (bool_decide (w = [])) && forallb (λ c, is_lower c || is_digit c) w) (split_on 45 s).

(** [/^[A-Za-z][A-Za-z0-9]*$/u] *)
Definition is_contract_name (s : jstr) : bool :=
  match s with
  | c :: r => (is_upper c || is_lower c) && forallb (λ d, is_upper d || is_lower d || is_digit d) r
  | [] => false
  end.

(** [assert.deepEqual(Object.keys(v).sort(), names)] *)
Definition exact_keys (v : value) (names : list string) : result () :=
  ks ← own_keys v;
  assert (bool_decide (sort_strings ks = map js names)) not_deep_equal.

(** [v.length > n] *)
Definition longer_than (v : value) (n : Z) : result bool :=
  l ← get v (js "length"); Ok (js_gt l (vi n)).

(** [Number.isInteger(v)] and [v > 0]. *)
Definition assert_count (v : value) : result () :=
  assert (v_integer v) falsy_value;;
  assert (js_gt v (vi 0)) falsy_value.

Definition validateOverride (override : value) : result () :=
  exact_keys override ["contract"; "invariantDepth"; "invariantRuns"; "reason"; "source"]%string;;
  matches (field override (js "contract")) is_contract_name;;
  assertRepositoryPath (field override (js "source"));;
  assert_count (field override (js "invariantRuns"));;
  assert_count (field override (js "invariantDepth"));;
  b ← longer_than (field override (js "reason")) 40;
  assert b falsy_value.

Definition validateExclusion (exclusion : value) : result () :=
  exact_keys exclusion ["path"; "reason"]%string;;
  p ← longer_than (field exclusion (js "path")) 0;
  r ← (if p : bool then longer_than (field exclusion (js "reason")) 0 else Ok false);
  assert r falsy_value.

Definition assert_array (config : value) (k : string) : result () :=
  assert (is_array (field config (js k))) falsy_value.
Definition items (config : value) (k : string) : list value := v_list (field config (js k)).

Definition validateConfig (config : value) : result () :=
  v ← get config (js "schemaVersion");
  equal v (vi 1) not_equal;;
  matches (field config (js "bundleId")) is_bundle_id;;
  equal (field config (js "hashAlgorithm")) (vs "sha256") not_equal;;
  assertRepositoryPath (field config (js "coverageSummary"));;
  assert_array config "testConfigurationOverrides";;
  for_each validateOverride (items config "testConfigurationOverrides");;
  assert_array config "sourceFiles";;
  assert_array config "sourceTrees";;
  assert_array config "directDependencies";;
  assert_array config "exclusions";;
  for_each validateExclusion (items config "exclusions").

(** ** Texts *)

(** [s.indexOf(p)] *)
Fixpoint index_of (p s : jstr) : option nat :=
  if starts_with p s then Some O
  else match s with [] => None | _ :: r => S <$> index_of p r end.

(** The text of a number as a pattern: digits stand for themselves, and in the text
    of one of 10^21 or more a point and a plus sign are operators. *)
Fixpoint number_pattern (s : jstr) : matcher :=
  match s with
  | [] => λ c, [c]
  | 101%N :: 43%N :: r => seq_of (plus_of (unit_of (N.eqb 101))) (number_pattern r)
  | 46%N :: r => seq_of dot_of (number_pattern r)
  | c :: r => seq_of (unit_of (N.eqb c)) (number_pattern r)
  end.

Definition at_end : matcher := λ s, match snd s with [] => [s] | _ => [] end.
Definition any_text : matcher := star_of (point_of (λ _, true) true).

Definition invariant_pattern (runs depth : value) : matcher :=
  seq_of (text_of (js "forge-config: default.invariant.runs = "))
    (seq_of (number_pattern (to_string runs))
      (seq_of (plus_of space_of)
        (seq_of any_text
          (seq_of (text_of (js "forge-config: default.invariant.depth = "))
            (seq_of (number_pattern (to_string depth)) (seq_of (star_of space_of) at_end)))))).

Definition checkOverrideText (override : value) (text : jstr) : result () :=
  let contract := to_string (field override (js "contract")) in
  match index_of (js "contract " +++ contract) text with
  | None => assert false (contract +++ js " is missing from " +++ to_string (field override (js "source")))
  | Some i =>
      assert (test (invariant_pattern (field override (js "invariantRuns")) (field override (js "invariantDepth")))
                (drop (i - 240) (take i text)))
        (contract +++ js " inline invariant config differs from audit config")
  end.

Definition splitNonemptyLines (s : jstr) : list jstr :=
  List.filter (λ line, negb (bool_decide (line = []))) (split_lines s).

(** ** Coverage *)

(** [/^\| Total\s+\|/u] *)
Definition is_total_row (line : jstr) : bool :=
  match after id (js "| Total") line with
  | Some (c :: r) => is_space c && match span is_space r with (_, 124%N :: _) => true | _ => false end
  | _ => false
  end.

(** [\d+] at the start. *)
Definition digits_at (s : jstr) : option (jstr * jstr) :=
  match span is_digit s with ((_ :: _) as d, r) => Some (d, r) | _ => None end.

(** [(\d+(?:\.\d+)?)] at the start. *)
Definition percent_at (s : jstr) : option (jstr * jstr) :=
  '(d, r) ← digits_at s;
  match r with
  | 46%N :: r' => match digits_at r' with Some (f, r'') => Some (d +++ [46%N] +++ f, r'') | None => Some (d, r) end
  | _ => Some (d, r)
  end.

(** [/^(\d+(?:\.\d+)?)% \((\d+)\/(\d+)\)$/u] *)
Definition coverage_match (s : jstr) : option (jstr * jstr * jstr) :=
  '(percent, r) ← percent_at s;
  r ← after id (js "% (") r;
  '(covered, r) ← digits_at r;
  r ← after id (js "/") r;
  '(total, r) ← digits_at r;
  if bool_decide (r = js ")") then Some (percent, covered, total) else None.

Definition parseCoverageMetric (v : jstr) (label : string) : result value :=
  match coverage_match v with
  | Some (percent, covered, total) =>
      Ok (VObj ["percent" :=: VNum (num_of_string percent); "covered" :=: VNum (num_of_string covered);
                "total" :=: VNum (num_of_string total)]%js)
  | None => assert false (js "invalid " +++ js label +++ js " coverage metric: " +++ v);; Ok VUndef
  end.

Definition coverage_of (repositoryPath source : jstr) : result value :=
  match List.find is_total_row (split_lines source) with
  | Some totalLine =>
      let cells := map trim (take 4 (drop 2 (split_on 124 totalLine))) in
      match cells with
      | [lines; statements; branches; functions] =>
          literal [
            ("source", Ok (VStr repositoryPath)); ("normalized", Ok (VBool true));
            ("lines", parseCoverageMetric lines "lines"); ("statements", parseCoverageMetric statements "statements");
            ("branches", parseCoverageMetric branches "branches"); ("functions", parseCoverageMetric functions "functions")]%string
      | _ => assert false (js "coverage Total row has unexpected columns");; Ok VUndef
      end
  | None => assert false (repositoryPath +++ js " has no Total coverage row");; Ok VUndef
  end.

(** ** foundry.toml *)

(** [line.replace(/\s+#.*$/u, "")]: the first run of white space before a [#] from
    which the rest is one line. *)
Fixpoint strip_comment (line : jstr) : jstr :=
  match line with
  | [] => []
  | c :: r =>
      if is_space c && match span is_space r with
                       | (_, 35%N :: rest) => negb (existsb is_line_end rest)
                       | _ => false
                       end
      then [] else c :: strip_comment r
  end.

Definition parseTomlScalar (v : jstr) : result value :=
  if v =s? js "true" then Ok (VBool true)
  else if v =s? js "false" then Ok (VBool false)
  else if negb (bool_decide (v = [])) && forallb is_digit v then Ok (VNum (num_of_string v))
  else match v with
       | 34%N :: _ | 91%N :: _ => json_parse v
       | _ => error (js "unsupported TOML value: " +++ v)
       end.

(** [/^([a-z_]+)\s*=\s*(.+)$/u] *)
Definition setting_match (line : jstr) : option (jstr * jstr) :=
  match span (λ c, is_lower c || (c =? 95)%N) line with
  | ((_ :: _) as key, r) =>
      match span is_space r with
      | (_, 61%N :: r') =>
          let v := snd (span is_space r') in
          if negb (bool_decide (v = [])) && forallb (λ c, negb (is_line_end c)) v then Some (key, v) else None
      | _ => None
      end
  | _ => None
  end.

(** Assigning to [__proto__] makes no member. *)
Definition set_setting (key : jstr) (v : value) (settings : list (jstr * value)) : list (jstr * value) :=
  if key =s? js "__proto__" then settings else set_own key v settings.

Definition profile_line (profileName : jstr) (state : list (jstr * value) * bool) (rawLine : jstr)
    : result (list (jstr * value) * bool) :=
  let '(settings, inProfile) := state in
  let line := trim (strip_comment rawLine) in
  if starts_with (js "[") line && ends_with (js "]") line
  then Ok (settings, line =s? js "[" +++ profileName +++ js "]")
  else if negb inProfile || bool_decide (line = []) then Ok state
  else match setting_match line with
       | None => assert false (js "unsupported foundry.toml line: " +++ rawLine);; Ok state
       | Some (key, v) => x ← parseTomlScalar v; Ok (set_setting key x settings, inProfile)
       end.

Definition parseFoundryProfile (source : jstr) (profileName : string) : result value :=
  '(settings, _) ← fold_res (profile_line (js profileName)) ([], false) (split_lines source);
  assert (negb (bool_decide (settings = []))) (js "[" +++ js profileName +++ js "] is missing");;
  Ok (VObj settings).

(** ** The repository *)

Inductive kind := RegularFile | DirectoryKind | SymbolicLink | OtherKind.

(** What the file system answers: the kind of what is at a path itself, the names
    and kinds in a directory, and the content of a file. *)
Record tree := Tree {
  lstat : jstr → result kind; readdir : jstr → result (list (jstr * kind)); readFile : jstr → result (list Z);
}.

Record git_metadata := GitMetadata {
  sourceCommit : jstr; sourceTree : jstr; trackedAtHead : list jstr; changedFromHead : list jstr;
}.

Record audit_file := AuditFile { file_path : jstr; file_bytes : Z; file_sha256 : jstr }.

Definition is_regular (k : kind) : bool := match k with RegularFile => true | _ => false end.
Definition out_of_fuel : exn := Exn EAssertion (js "out of fuel").

(** [paths.add(path)] *)
Definition add_path (paths : list jstr) (path : jstr) : list jstr := if jmem path paths then paths else paths ++ [path].

(** [/^[0-9a-f]{40}(?:[0-9a-f]{24})?$/u] *)
Definition is_object_id (s : jstr) : bool :=
  (Nat.eqb (length s) 40 || Nat.eqb (length s) 64) && forallb is_lower_hex s.

Section audit.
Context (lib : library).
(** Whether [left.localeCompare(right, "en")] is at most 0. *)
Context (collate : jstr → jstr → bool).

Definition path_before (a b : jstr) : Prop := collate a b = true.
#[export] Instance path_before_dec : RelDecision path_before := λ a b, decide (collate a b = true).
Definition file_before (a b : audit_file) : Prop := path_before (file_path a) (file_path b).
#[export] Instance file_before_dec : RelDecision file_before := λ a b, decide (path_before (file_path a) (file_path b)).

Context (t : tree) (execGit : list jstr → result jstr) (environment : jstr → option jstr) (repositoryRoot cwd : jstr).

Definition resolveRepositoryPath (repositoryPath : jstr) : result jstr :=
  let absolutePath := path_resolve repositoryRoot repositoryPath in
  assert (starts_with (repositoryRoot +++ [slash]) absolutePath) (js "path escapes repository: " +++ repositoryPath);;
  Ok absolutePath.

Definition toRepositoryPath (absolutePath : jstr) : result jstr :=
  assertRepositoryPath (VStr (path_relative cwd repositoryRoot absolutePath)).

Definition assertRegularFile (repositoryPath : jstr) : result () :=
  p ← resolveRepositoryPath repositoryPath;
  k ← lstat t p;
  assert (is_regular k) (repositoryPath +++ js " is not a regular file").

Definition readRepositoryBytes (repositoryPath : value) : result (list Z) :=
  s ← assertRepositoryPath repositoryPath;
  assertRegularFile s;;
  p ← resolveRepositoryPath s;
  readFile t p.

Definition readRepositoryText (repositoryPath : value) : result jstr :=
  b ← readRepositoryBytes repositoryPath; Ok (utf8_decode b).

Definition read_document (path : string) : result value := s ← readRepositoryText (vs path); json_parse s.

Definition validateTestConfigurationOverrides (overrides : list value) : result () :=
  for_each (λ override,
    text ← readRepositoryText (field override (js "source"));
    checkOverrideText override text) overrides.

(** ** The scope *)

Fixpoint walkFiles (fuel : nat) (directory : jstr) : result (list jstr) :=
  match fuel with
  | O => Throw out_of_fuel
  | S f =>
      entries ← readdir t directory;
      results ← fold_res (λ acc entry,
        let '(name, k) := entry : jstr * kind in
        let absolutePath := path_join [directory; name] in
        match k with
        | SymbolicLink => error (js "symlink is not allowed in audit scope: " +++ absolutePath)
        | DirectoryKind => l ← walkFiles f absolutePath; Ok (acc ++ l)
        | RegularFile => Ok (acc ++ [absolutePath])
        | OtherKind => Ok acc
        end) [] entries;
      Ok (merge_sort path_before results)
  end.

Definition add_source_file (paths : list jstr) (repositoryPath : value) : result (list jstr) :=
  s ← assertRepositoryPath repositoryPath;
  assertRegularFile s;;
  Ok (add_path paths s).

(** [extensions.includes(path.extname(absolutePath))] *)
Definition has_extension (extensions : list value) (absolutePath : jstr) : bool :=
  existsb (strict_eq (VStr (path_extname absolutePath))) extensions.

Definition add_tree_file (extensions : list value) (paths : list jstr) (absolutePath : jstr) : result (list jstr) :=
  if has_extension extensions absolutePath then s ← toRepositoryPath absolutePath; Ok (add_path paths s) else Ok paths.

Definition add_source_tree (fuel : nat) (paths : list jstr) (source_tree : value) : result (list jstr) :=
  exact_keys source_tree ["extensions"; "path"]%string;;
  s ← assertRepositoryPath (field source_tree (js "path"));
  let extensions := field source_tree (js "extensions") in
  assert (is_array extensions && negb (bool_decide (v_list extensions = []))) falsy_value;;
  absoluteTree ← resolveRepositoryPath s;
  found ← walkFiles fuel absoluteTree;
  fold_res (add_tree_file (v_list extensions)) paths found.

Definition collectSourcePaths (fuel : nat) (config : value) : result (list jstr) :=
  paths ← fold_res add_source_file [] (items config "sourceFiles");
  paths ← fold_res (add_source_tree fuel) paths (items config "sourceTrees");
  Ok (merge_sort path_before paths).

Definition collectCoverageEvidence (repositoryPath : value) : result value :=
  source ← readRepositoryText repositoryPath;
  coverage_of (v_str repositoryPath) source.

(** ** The commit *)

Definition git (arguments : list string) (allowEmpty : bool) : result jstr :=
  output ← execGit (map js arguments);
  let output := trim output in
  assert (allowEmpty || negb (bool_decide (output = [])))
    (js "git " +++ js (default EmptyString (head arguments)) +++ js " returned no output");;
  Ok output.

Definition supplied (name : string) : jstr := default [] (environment (js name)).
Definition is_supplied (name : string) : bool := negb (bool_decide (supplied name = [])).
Definition supplied_names : list string := [
  "TORIUM_AUDIT_SOURCE_COMMIT"; "TORIUM_AUDIT_SOURCE_TREE"; "TORIUM_AUDIT_TRACKED_PATHS_FILE";
  "TORIUM_AUDIT_CHANGED_PATHS_FILE"]%string.

Definition supplied_lines (name : string) : result (list jstr) :=
  b ← readFile t (supplied name); Ok (splitNonemptyLines (utf8_decode b)).

Definition collectGitMetadata : result git_metadata :=
  if existsb is_supplied supplied_names then
    assert (forallb is_supplied supplied_names) (js "incomplete audit Git metadata environment");;
    matches (VStr (supplied "TORIUM_AUDIT_SOURCE_COMMIT")) is_object_id;;
    matches (VStr (supplied "TORIUM_AUDIT_SOURCE_TREE")) is_object_id;;
    tracked ← supplied_lines "TORIUM_AUDIT_TRACKED_PATHS_FILE";
    changed ← supplied_lines "TORIUM_AUDIT_CHANGED_PATHS_FILE";
    Ok (GitMetadata (supplied "TORIUM_AUDIT_SOURCE_COMMIT") (supplied "TORIUM_AUDIT_SOURCE_TREE") tracked changed)
  else
    commit ← git ["rev-parse"; "HEAD"]%string false;
    treeId ← git ["rev-parse"; "HEAD^{tree}"]%string false;
    tracked ← git ["ls-tree"; "-r"; "--name-only"; "HEAD"]%string false;
    changed ← git ["diff"; "--name-only"; "HEAD"]%string true;
    Ok (GitMetadata commit treeId (split_on 10 tracked) (splitNonemptyLines changed)).

(** Why a path does not have the content of the commit, if it has not. *)
Definition exception_state (g : git_metadata) (repositoryPath : jstr) : option string :=
  if negb (jmem repositoryPath (trackedAtHead g)) then Some "not-in-source-commit"%string
  else if jmem repositoryPath (changedFromHead g) then Some "differs-from-source-commit"%string
  else None.

Definition collectCommitCoverageExceptions (sourcePaths : list jstr) (g : git_metadata) : list value :=
  omap (λ p, state ← exception_state g p; Some (VObj ["path" :=: VStr p; "state" :=: vs state]%js)) sourcePaths.

(** ** Dependencies *)

(** The names in order; comparing two values calls a method of strings. *)
Definition dependency_names (config : value) : result (list jstr) :=
  match items config "directDependencies" with
  | [v] => Ok [to_string v]
  | l => names ← map_res (λ v, match v with VStr s => Ok s | _ => type_error (js "left.localeCompare is not a function") end) l;
         Ok (merge_sort path_before names)
  end.

Definition dependency_group (root : value) (name : jstr) : option string :=
  let has k := has_own (nullish (field root (js k)) (VObj [])) name in
  if has "dependencies"%string then Some "dependencies"%string
  else if has "devDependencies"%string then Some "devDependencies"%string
  else None.

Definition dependency_record (lockfile root : value) (name : jstr) : result value :=
  match dependency_group root name with
  | None => assert false (name +++ js " is not a direct dependency");; Ok VUndef
  | Some group =>
      let requested := field (field root (js group)) name in
      let locked := field (field lockfile (js "packages")) (js "node_modules/" +++ name) in
      assert (truthy locked) (name +++ js " is not present in package-lock.json");;
      equal requested (field locked (js "version")) (name +++ js " must use an exact direct version pin");;
      Ok (VObj ["name" :=: VStr name; "dependencyGroup" :=: vs group; "requested" :=: requested;
                "version" :=: field locked (js "version"); "resolved" :=: field locked (js "resolved");
                "integrity" :=: field locked (js "integrity"); "license" :=: field locked (js "license")]%js)
  end.

Definition collectDependencies (config lockfile : value) : result value :=
  packages ← get lockfile (js "packages");
  let root := oget packages [] in
  assert (truthy root) (js "package-lock root package is missing");;
  names ← dependency_names config;
  records ← map_res (dependency_record lockfile root) names;
  Ok (VArr records).

(** ** The manifest *)

Definition audit_entry (repositoryPath : jstr) : result audit_file :=
  b ← readRepositoryBytes (VStr repositoryPath);
  Ok (AuditFile repositoryPath (Z.of_nat (length b)) (sha256 lib b)).

Definition file_value (f : audit_file) : value := VObj [
  "path" :=: VStr (file_path f); "kind" :=: vs "source"; "bytes" :=: VNum (NInt (file_bytes f));
  "sha256" :=: VStr (file_sha256 f)]%js.

Definition scope_line (f : audit_file) : jstr :=
  file_sha256 f +++ js " " +++ dec_of_Z (file_bytes f) +++ js " " +++ file_path f.
Definition scope_text (files : list audit_file) : jstr := join [10%N] (map scope_line files) +++ [10%N].
Definition scopeDigest (files : list audit_file) : jstr := sha256_text lib (scope_text files).

Definition count_value {A} (l : list A) : value := VNum (NInt (Z.of_nat (length l))).

Definition provenance_record (g : git_metadata) (files : list audit_file) (exceptions : list value) : value := VObj [
  "sourceCommit" :=: VStr (sourceCommit g);
  "sourceTree" :=: VStr (sourceTree g);
  "sourceCommitIsRuntimeMetadata" :=: VBool true;
  "primaryContentIdentity" :=: vs "scopeDigestSha256";
  "scopeDigestSha256" :=: VStr (scopeDigest files);
  "allRequiredSourceFilesMatchSourceCommit" :=: VBool (bool_decide (exceptions = []));
  "sourceCommitCoverageExceptions" :=: VArr exceptions;
  "networkRequired" :=: VBool false;
  "liveDeploymentOrRpcEvidenceIncluded" :=: VBool false]%js.

Definition compiler_record (toolchain foundryProfile : value) : result value :=
  let solidity k := (k, walk toolchain ["contracts"; "solidity"; k]%string) in
  let foundry k := (k, walk toolchain ["contracts"; "foundry"; k]%string) in
  literal [
    ("solidity", literal [solidity "version"; solidity "longVersion"; solidity "image"; solidity "binaryPath"]);
    ("foundry", literal [foundry "version"; foundry "image"]);
    ("settings", Ok foundryProfile)]%string.

Definition runtime_record (toolchain : value) : result value :=
  let node k := (k, walk toolchain ["runtimes"; "node"; k]%string) in
  literal [("node", literal [node "version"; node "image"])]%string.

Definition manifest_record (config : value) (g : git_metadata) (toolchain lockfile foundryProfile fuzz invariant coverage : value)
    (sourcePaths : list jstr) (files : list audit_file) : result value :=
  literal [
    ("schemaVersion", Ok (vi 1));
    ("bundleId", get config (js "bundleId"));
    ("hashAlgorithm", get config (js "hashAlgorithm"));
    ("provenance", Ok (provenance_record g files (collectCommitCoverageExceptions sourcePaths g)));
    ("compiler", compiler_record toolchain foundryProfile);
    ("runtime", runtime_record toolchain);
    ("testEvidence", literal [
       ("configuration", literal [
          ("fuzz", Ok fuzz); ("invariant", Ok invariant); ("overrides", get config (js "testConfigurationOverrides"))]);
       ("coverage", Ok coverage)]);
    ("dependencies", collectDependencies config lockfile);
    ("scope", literal [
       ("includedFileCount", Ok (count_value files)); ("requiredSourceFileCount", Ok (count_value sourcePaths));
       ("exclusions", get config (js "exclusions"))]);
    ("files", Ok (VArr (map file_value files)))]%string.

Definition manifest_file : jstr := js "contracts/.artifacts/audit/audit-manifest.json".

Definition checksum_text (entry : jstr * jstr) : jstr :=
  snd entry +++ js "  " +++ path_relative cwd (js "contracts/.artifacts/audit") (fst entry).

Definition checksums_text (manifestText : jstr) (files : list audit_file) : jstr :=
  join [10%N] (map checksum_text (merge_sort (entry_before collate)
    ((manifest_file, sha256_text lib manifestText) :: map (λ f, (file_path f, file_sha256 f)) files))) +++ [10%N].

Definition contractsRoot : jstr := path_join [repositoryRoot; js "contracts"].
Definition configPath : jstr := path_join [contractsRoot; js "scripts/audit-bundle.config.json"].

(** The manifest, its text and the text of the checksum file. *)
Definition buildBundle (fuel : nat) : result (value * jstr * jstr) :=
  configBytes ← readFile t configPath;
  config ← json_parse (utf8_decode configBytes);
  validateConfig config;;
  validateTestConfigurationOverrides (items config "testConfigurationOverrides");;
  sourcePaths ← collectSourcePaths fuel config;
  assert (negb (bool_decide (sourcePaths = []))) (js "audit source scope is empty");;
  coverage ← collectCoverageEvidence (field config (js "coverageSummary"));
  g ← collectGitMetadata;
  toolchain ← read_document "chain/toolchain.json";
  lockfile ← read_document "contracts/package-lock.json";
  foundrySource ← readRepositoryText (vs "contracts/foundry.toml");
  foundryProfile ← parseFoundryProfile foundrySource "profile.default";
  fuzzProfile ← parseFoundryProfile foundrySource "fuzz";
  invariantProfile ← parseFoundryProfile foundrySource "invariant";
  version ← walk toolchain ["contracts"; "solidity"; "version"]%string;
  equal (field foundryProfile (js "solc_version")) version
    (js "foundry.toml and chain/toolchain.json Solidity versions differ");;
  entries ← map_res audit_entry sourcePaths;
  let files := merge_sort file_before entries in
  manifest ← manifest_record config g toolchain lockfile foundryProfile fuzzProfile invariantProfile coverage sourcePaths files;
  let manifestText := stringify 2 0 manifest +++ [10%N] in
  Ok (manifest, manifestText, checksums_text manifestText files).

End audit.

(** ** The whole script *)

Section script.
Context (lib : library) (collate : jstr → jstr → bool) (execGit : list jstr → result jstr)
  (environment : jstr → option jstr) (repositoryRoot cwd : jstr).
(** How the file system answers when the generated files are as in the store, and
    which operations fail. *)
Context (tree_of : gmap jstr (list Z) → tree).
Context (fault : gmap jstr (list Z) → operation → option exn) (torn : jstr → list Z → option (list Z)).

Definition outputDirectory : jstr := path_join [contractsRoot repositoryRoot; js ".artifacts/audit"].
Definition manifestPath : jstr := path_join [outputDirectory; js "audit-manifest.json"].
Definition auditChecksumsPath : jstr := path_join [outputDirectory; js "SHA256SUMS"].

Definition assertFileEquals (filePath expected : jstr) : io () := λ s,
  (b ← readFile (tree_of s) filePath;
   assert (utf8_decode b =s? expected) (path_relative cwd repositoryRoot filePath +++ js " is stale; regenerate it"), s).

Definition audit_size (manifest : value) : jstr := dec_of_Z (Z.of_nat (length (v_list (field manifest (js "files"))))).
Definition audit_commit (manifest : value) : jstr := to_string (field (field manifest (js "provenance")) (js "sourceCommit")).

(** What the script prints. *)
Definition auditBundle (fuel : nat) (argv : list jstr) : io jstr :=
  checkOnly ← pure (parse_audit argv);
  built ← (λ s, (buildBundle lib collate (tree_of s) execGit environment repositoryRoot cwd fuel, s));
  let '(manifest, manifestText, checksumsText) := built : value * jstr * jstr in
  if checkOnly : bool then
    assertFileEquals manifestPath manifestText;;
    assertFileEquals auditChecksumsPath checksumsText;;
    mret (js "Verified " +++ audit_size manifest +++ js " audit inputs at " +++ audit_commit manifest +++ js ".")
  else
    mkdir fault outputDirectory;;
    writeBytes fault torn manifestPath (utf8_encode manifestText);;
    writeBytes fault torn auditChecksumsPath (utf8_encode checksumsText);;
    mret (js "Generated " +++ audit_size manifest +++ js " audit input checksums at " +++ audit_commit manifest +++ js ".").

End script.
