(* ===== verification/AuditBundleFacts.v ===== *)
(** The audit bundle: its scope is exactly the files that the configuration names
    and those below its trees, each with the digest of its bytes, and its scope
    digest determines them. *)

From stdpp Require Import gmap.
From S2P Require Import Prelude JsNum JsText JsUtf8 JsValue JsOps JsonText JsPath Deploy GeneratedFiles LocalnetRegistryFacts GenerateArtifacts GenerateArtifactsFacts NetworkArtifacts NetworkArtifactsFacts GenerateSamples AuditBundle.

Open Scope Z_scope.

(** ** Repository paths *)

(** A relative path without a segment that leads up. *)
Definition repository_path (s : jstr) : Prop := s ≠ [] ∧ is_absolute s = false ∧ js ".." ∉ split_on slash s.

Lemma assertRepositoryPath_Ok v s : assertRepositoryPath v = Ok s ↔ v = VStr s ∧ repository_path s.
Proof.
  unfold assertRepositoryPath, repository_path. destruct v as [| | | |x| |]; try (split; [done|by intros [? _]]).
  rewrite !seq_Ok, !assert_Ok, andb_true_iff, !negb_true_iff, bool_decide_eq_false, jmem_false, join_split, jeq_refl.
  naive_solver.
Qed.

(** ** Sets of paths *)

Lemma add_path_elem l x p : p ∈ add_path l x ↔ p ∈ l ∨ p = x.
Proof.
  unfold add_path. destruct (jmem x l) eqn:E; [|rewrite elem_of_app, list_elem_of_singleton; done].
  apply jmem_spec in E. naive_solver.
Qed.

Lemma add_path_NoDup l x : NoDup l → NoDup (add_path l x).
Proof. unfold add_path. destruct (jmem x l) eqn:E; [done|]. intros H. apply NoDup_snoc; [done|]. by apply jmem_false. Qed.

(** ** Walking *)

Section tree.
Context (collate : jstr → jstr → bool) (t : tree).

(** An entry of kind [k] in a directory or in one of its directories. *)
Inductive reaches (k : kind) : jstr → jstr → Prop :=
| reaches_here d entries name :
    readdir t d = Ok entries → (name, k) ∈ entries → reaches k d (path_join [d; name])
| reaches_down d entries name p :
    readdir t d = Ok entries → (name, DirectoryKind) ∈ entries → reaches k (path_join [d; name]) p → reaches k d p.

(** Directories nest at most [n] deep below [d]. *)
Fixpoint shallow (n : nat) (d : jstr) : Prop :=
  ∀ entries name, readdir t d = Ok entries → (name, DirectoryKind) ∈ entries →
    match n with O => False | S m => shallow m (path_join [d; name]) end.

Definition walk_step (f : nat) (d : jstr) (acc : list jstr) (entry : jstr * kind) : result (list jstr) :=
  let '(name, k) := entry : jstr * kind in
  let absolutePath := path_join [d; name] in
  match k with
  | SymbolicLink => error (js "symlink is not allowed in audit scope: " +++ absolutePath)
  | DirectoryKind => l ← walkFiles collate t f absolutePath; Ok (acc ++ l)
  | RegularFile => Ok (acc ++ [absolutePath])
  | OtherKind => Ok acc
  end.

Lemma walkFiles_S f d : walkFiles collate t (S f) d =
  (entries ← readdir t d; results ← fold_res (walk_step f d) [] entries; Ok (merge_sort (path_before collate) results)).
Proof. reflexivity. Qed.

(** The walk lists the regular files below a directory, and there is no link. *)
Lemma walkFiles_spec f d l : walkFiles collate t f d = Ok l →
  (∀ p, p ∈ l ↔ reaches RegularFile d p) ∧ ∀ p, ¬ reaches SymbolicLink d p.
Proof.
  revert d l. induction f as [|f IH]; intros d l; [done|]. rewrite walkFiles_S.
  intros (entries & Hd & (results & Hf & [= <-])%bind_Ok)%bind_Ok.
  assert ((∀ p, p ∈ results ↔ (∃ name, p = path_join [d; name] ∧ (name, RegularFile) ∈ entries)
                            ∨ ∃ name, (name, DirectoryKind) ∈ entries ∧ reaches RegularFile (path_join [d; name]) p)
    ∧ (∀ name, (name, SymbolicLink) ∉ entries)
    ∧ ∀ name p, (name, DirectoryKind) ∈ entries → ¬ reaches SymbolicLink (path_join [d; name]) p) as (Hr & Hl & Hs).
  { revert Hf. apply (fold_res_invariant (λ done acc,
      (∀ p, p ∈ acc ↔ (∃ name, p = path_join [d; name] ∧ (name, RegularFile) ∈ done)
                    ∨ ∃ name, (name, DirectoryKind) ∈ done ∧ reaches RegularFile (path_join [d; name]) p)
      ∧ (∀ name, (name, SymbolicLink) ∉ done)
      ∧ ∀ name p, (name, DirectoryKind) ∈ done → ¬ reaches SymbolicLink (path_join [d; name]) p)).
    - split; [|split]; [intros p|intros name|intros name p]; set_solver.
    - intros done [name k] acc acc' (Ha & Hb & Hc) Hstep. unfold walk_step in Hstep. cbv zeta in Hstep.
      destruct k; [| |done|]; [| apply bind_Ok in Hstep as (l & Hw & Hstep); apply IH in Hw as [Hw Hn] |];
        apply Ok_inj in Hstep as <-; (split; [|split]); [intros p|intros n|intros n p|intros p|intros n|intros n p|intros p|intros n|intros n p];
        rewrite ?elem_of_app, ?Ha, ?Hw, ?list_elem_of_singleton; set_solver. }
  split.
  - intros p. rewrite merge_sort_Permutation, Hr. split.
    + intros [(name & -> & Hn)|(name & Hn & Hp)]; [by eapply reaches_here|by eapply reaches_down].
    + inversion 1 as [? entries' name Hd' Hn|? entries' name ? Hd' Hn Hp]; subst; rewrite Hd in Hd'; simplify_eq;
        [left|right]; by exists name.
  - intros p. inversion 1 as [? entries' name Hd' Hn|? entries' name ? Hd' Hn Hp]; subst; rewrite Hd in Hd'; simplify_eq.
    + by apply (Hl name).
    + by apply (Hs name p).
Qed.

Lemma walk_steps_ext f f' d entries :
  (∀ name, (name, DirectoryKind) ∈ entries →
     walkFiles collate t f (path_join [d; name]) = walkFiles collate t f' (path_join [d; name])) →
  ∀ acc, fold_res (walk_step f d) acc entries = fold_res (walk_step f' d) acc entries.
Proof.
  induction entries as [|[name k] entries IH]; intros H acc; [done|]. cbn [fold_res].
  assert (walk_step f d acc (name, k) = walk_step f' d acc (name, k)) as ->.
  { unfold walk_step. destruct k; try done. cbv zeta. by rewrite (H name) by left. }
  destruct (walk_step f' d acc (name, k)); [|done]. apply IH. intros x Hx. apply H. by right.
Qed.

(** Fuel above the nesting of the directories changes nothing. *)
Lemma walkFiles_fuel n d f : shallow n d → (n < f)%nat → walkFiles collate t f d = walkFiles collate t (S n) d.
Proof.
  revert d f. induction n as [|n IH]; intros d [|f] Hs Hf; try lia; rewrite !walkFiles_S;
    (destruct (readdir t d) as [entries|e] eqn:Hd; [|done]); cbn [mbind result_bind].
  - by rewrite (walk_steps_ext f 0) by (intros name Hn; destruct (Hs _ _ Hd Hn)).
  - by rewrite (walk_steps_ext f (S n)) by (intros name Hn; apply IH; [exact (Hs _ _ Hd Hn)|lia]).
Qed.

End tree.

(** ** The scope *)

Section audit.
Context (lib : library) (collate : jstr → jstr → bool) (repositoryRoot cwd : jstr).

(** What the configuration puts in scope. *)
Definition in_scope (t : tree) (config : value) (p : jstr) : Prop :=
  VStr p ∈ items config "sourceFiles" ∨
  ∃ source_tree dir a, source_tree ∈ items config "sourceTrees" ∧ field source_tree (js "path") = VStr dir ∧
    reaches t RegularFile (path_resolve repositoryRoot dir) a ∧
    has_extension (v_list (field source_tree (js "extensions"))) a = true ∧
    p = path_relative cwd repositoryRoot a.

(** No symbolic link below a directory of the scope. *)
Definition no_links (t : tree) (config : value) : Prop :=
  ∀ source_tree dir a, source_tree ∈ items config "sourceTrees" → field source_tree (js "path") = VStr dir →
    ¬ reaches t SymbolicLink (path_resolve repositoryRoot dir) a.

(** A path of a regular file inside the repository, with its size and digest. *)
Definition audited (t : tree) (f : audit_file) : Prop :=
  let a := path_resolve repositoryRoot (file_path f) in
  repository_path (file_path f) ∧ starts_with (repositoryRoot +++ [slash]) a = true ∧ lstat t a = Ok RegularFile ∧
  ∃ bytes, readFile t a = Ok bytes ∧ file_bytes f = Z.of_nat (length bytes) ∧ file_sha256 f = sha256 lib bytes.

Lemma resolve_Ok p a : resolveRepositoryPath repositoryRoot p = Ok a ↔
  a = path_resolve repositoryRoot p ∧ starts_with (repositoryRoot +++ [slash]) a = true.
Proof.
  unfold resolveRepositoryPath. rewrite seq_Ok, assert_Ok. split; [by intros [? [= <-]]|by intros [-> ?]].
Qed.

Lemma audit_entry_Ok t p f : audit_entry lib t repositoryRoot p = Ok f → file_path f = p ∧ audited t f.
Proof.
  unfold audit_entry, readRepositoryBytes. intros (b & Hb & [= <-])%bind_Ok. split; [done|].
  apply bind_Ok in Hb as (s & Hs & Hb). apply assertRepositoryPath_Ok in Hs as [[= <-] Hs].
  apply seq_Ok in Hb as [Hr (a & Ha & Hb)%bind_Ok]. apply resolve_Ok in Ha as [-> Hin].
  apply bind_Ok in Hr as (a & Ha & (k & Hk & Hkr%assert_Ok)%bind_Ok). apply resolve_Ok in Ha as [-> _].
  split; [done|]. split; [done|]. split; [by destruct k|]. by exists b.
Qed.

Lemma add_tree_files_spec extensions l : ∀ paths paths',
  fold_res (add_tree_file repositoryRoot cwd extensions) paths l = Ok paths' →
  (NoDup paths → NoDup paths') ∧
  ∀ p, p ∈ paths' ↔ p ∈ paths ∨ ∃ a, a ∈ l ∧ has_extension extensions a = true ∧ p = path_relative cwd repositoryRoot a.
Proof.
  induction l as [|a l IH]; intros paths paths'; cbn [fold_res].
  { intros [= <-]. split; [done|]. set_solver. }
  intros (q & Hq & H)%bind_Ok. apply IH in H as [Hn Hp]. unfold add_tree_file in Hq.
  destruct (has_extension extensions a) eqn:E; [|apply Ok_inj in Hq as <-; split; [done|]].
  - apply bind_Ok in Hq as (s & Hs & [= <-]). unfold toRepositoryPath in Hs.
    apply assertRepositoryPath_Ok in Hs as [[= <-] _]. split.
    + intros. by apply Hn, add_path_NoDup.
    + intros p. rewrite Hp, add_path_elem. setoid_rewrite elem_of_cons. naive_solver.
  - intros p. rewrite Hp. setoid_rewrite elem_of_cons. naive_solver congruence.
Qed.

Lemma add_source_files_spec t l : ∀ paths paths',
  fold_res (add_source_file t repositoryRoot) paths l = Ok paths' →
  (NoDup paths → NoDup paths') ∧ ∀ p, p ∈ paths' ↔ p ∈ paths ∨ VStr p ∈ l.
Proof.
  induction l as [|v l IH]; intros paths paths'; cbn [fold_res].
  { intros [= <-]. split; [done|]. set_solver. }
  intros (q & Hq & H)%bind_Ok. apply IH in H as [Hn Hp]. unfold add_source_file in Hq.
  apply bind_Ok in Hq as (s & Hs & Hq). apply assertRepositoryPath_Ok in Hs as [-> _].
  apply seq_Ok in Hq as [_ [= <-]]. split.
  - intros. by apply Hn, add_path_NoDup.
  - intros p. rewrite Hp, add_path_elem, elem_of_cons. naive_solver.
Qed.

Lemma add_source_trees_spec t fuel l : ∀ paths paths',
  fold_res (add_source_tree collate t repositoryRoot cwd fuel) paths l = Ok paths' →
  (NoDup paths → NoDup paths') ∧
  (∀ p, p ∈ paths' ↔ p ∈ paths ∨ ∃ source_tree dir a, source_tree ∈ l ∧ field source_tree (js "path") = VStr dir ∧
     reaches t RegularFile (path_resolve repositoryRoot dir) a ∧
     has_extension (v_list (field source_tree (js "extensions"))) a = true ∧ p = path_relative cwd repositoryRoot a) ∧
  ∀ source_tree dir a, source_tree ∈ l → field source_tree (js "path") = VStr dir →
    ¬ reaches t SymbolicLink (path_resolve repositoryRoot dir) a.
Proof.
  induction l as [|v l IH]; intros paths paths'; cbn [fold_res].
  { intros [= <-]. split; [done|]. set_solver. }
  intros (q & Hq & H)%bind_Ok. apply IH in H as (Hn & Hp & Hl). unfold add_source_tree in Hq.
  apply seq_Ok in Hq as [_ Hq]. apply bind_Ok in Hq as (dir & Hdir & Hq). apply assertRepositoryPath_Ok in Hdir as [Hdir _].
  cbv zeta in Hq. apply seq_Ok in Hq as [_ (a & Ha & (found & Hw & Hq)%bind_Ok)%bind_Ok]. apply resolve_Ok in Ha as [-> _].
  apply walkFiles_spec in Hw as [Hw Hno]. apply add_tree_files_spec in Hq as [Hqn Hqp]. split; [|split].
  - intros. by apply Hn, Hqn.
  - intros p. rewrite Hp, Hqp. setoid_rewrite elem_of_cons. setoid_rewrite Hw. split.
    + intros [[?|(x & ? & ? & ?)]|(tr & d & x & ? & ?)]; [by left|right; exists v, dir, x; naive_solver|right; exists tr, d, x; naive_solver].
    + intros [?|(tr & d & x & [->|Htr] & Hd & Hx)]; [by left; left| |right; exists tr, d, x; naive_solver].
      rewrite Hdir in Hd. injection Hd as <-. left. right. by exists x.
  - intros tr d x [->|Htr]%elem_of_cons Hd; [|by eapply Hl]. rewrite Hdir in Hd. injection Hd as <-. apply Hno.
Qed.

Lemma collectSourcePaths_spec t fuel config paths :
  collectSourcePaths collate t repositoryRoot cwd fuel config = Ok paths →
  NoDup paths ∧ (∀ p, p ∈ paths ↔ in_scope t config p) ∧ no_links t config.
Proof.
  unfold collectSourcePaths. intros (q & Hq & (r & Hr & [= <-])%bind_Ok)%bind_Ok.
  apply add_source_files_spec in Hq as [Hqn Hqp]. apply add_source_trees_spec in Hr as (Hrn & Hrp & Hl).
  split; [|split; [|exact Hl]].
  - rewrite merge_sort_Permutation. apply Hrn, Hqn. constructor.
  - intros p. rewrite merge_sort_Permutation, Hrp, Hqp. unfold in_scope. set_solver.
Qed.

(** ** The manifest *)

(** The files that a manifest lists, and whether it says that all of them are those
    of the commit. *)
Definition lists_files (manifest : value) (files : list audit_file) : Prop :=
  field manifest (js "files") = VArr (map file_value files).
Definition provenance (manifest : value) (k : string) : value := field (field manifest (js "provenance")) (js k).

(** The content of a path is that of the commit, as far as git reports it. *)
Definition committed (g : git_metadata) (p : jstr) : Prop := p ∈ trackedAtHead g ∧ p ∉ changedFromHead g.

Lemma exceptions_none g paths : collectCommitCoverageExceptions paths g = [] ↔ Forall (committed g) paths.
Proof.
  unfold collectCommitCoverageExceptions. induction paths as [|p paths IH]; [by split|].
  rewrite Forall_cons, <- IH. unfold committed, exception_state. cbn [omap list_omap].
  destruct (jmem p (trackedAtHead g)) eqn:E; cbn [negb].
  - apply jmem_spec in E. destruct (jmem p (changedFromHead g)) eqn:E'; cbn.
    + apply jmem_spec in E'. split; [done|]. by intros [[_ ?] _].
    + apply jmem_false in E'. naive_solver.
  - apply jmem_false in E. split; [done|]. by intros [[? _] _].
Qed.

Context (execGit : list jstr → result jstr) (environment : jstr → option jstr).
Abbreviation buildBundle := (buildBundle lib collate).

(** What a bundle is made of. *)
Lemma build_parts t fuel manifest manifestText checksumsText :
  buildBundle t execGit environment repositoryRoot cwd fuel = Ok (manifest, manifestText, checksumsText) →
  ∃ bytes config sourcePaths g entries,
    readFile t (configPath repositoryRoot) = Ok bytes ∧ json_parse (utf8_decode bytes) = Ok config ∧
    collectSourcePaths collate t repositoryRoot cwd fuel config = Ok sourcePaths ∧ sourcePaths ≠ [] ∧
    collectGitMetadata t execGit environment = Ok g ∧
    map_res (audit_entry lib t repositoryRoot) sourcePaths = Ok entries ∧
    let files := merge_sort (file_before collate) entries in
    lists_files manifest files ∧
    provenance manifest "scopeDigestSha256" = VStr (scopeDigest lib files) ∧
    provenance manifest "allRequiredSourceFilesMatchSourceCommit"
      = VBool (bool_decide (collectCommitCoverageExceptions sourcePaths g = [])).
Proof.
  unfold AuditBundle.buildBundle. intros H.
  apply bind_Ok in H as (bytes & Hb & H). apply bind_Ok in H as (config & Hc & H). apply seq_Ok in H as [_ H].
  apply seq_Ok in H as [_ H]. apply bind_Ok in H as (paths & Hp & H). apply seq_Ok in H as [Hne%assert_Ok H].
  apply bind_Ok in H as (coverage & _ & H). apply bind_Ok in H as (g & Hg & H). do 6 (apply bind_Ok in H as (? & _ & H)).
  apply bind_Ok in H as (version & _ & H). apply seq_Ok in H as [_ H]. apply bind_Ok in H as (entries & He & H). cbv zeta in H.
  apply bind_Ok in H as (m & Hm & [= <- _ _]).
  exists bytes, config, paths, g, entries. do 3 (split; [done|]). split; [by apply negb_true_iff, bool_decide_eq_false in Hne|].
  do 2 (split; [done|]). unfold manifest_record in Hm. cbv zeta. unfold lists_files, provenance.
  destruct (literal_member "files" _ _ _ Hm eq_refl) as (w & [= <-] & Hw). apply get_Ok in Hw as [_ <-].
  destruct (literal_member "provenance" _ _ _ Hm eq_refl) as (w & [= <-] & Hw). apply get_Ok in Hw as [_ <-].
  done.
Qed.

(** C39. The audit manifest is exact: it lists each path of the scope once and nothing
    else, that is the configured files and every regular file with a configured
    extension below a configured tree, however deep; each is a regular file inside
    the repository, listed with the size and digest of its bytes; no tree of the
    scope holds a symbolic link; and the manifest says that all files are those of
    the commit exactly when git has every path of the scope in the commit, unchanged. *)
Theorem audit_scope_exact t fuel manifest manifestText checksumsText :
  buildBundle t execGit environment repositoryRoot cwd fuel = Ok (manifest, manifestText, checksumsText) →
  ∃ bytes config files g,
    readFile t (configPath repositoryRoot) = Ok bytes ∧ json_parse (utf8_decode bytes) = Ok config ∧
    lists_files manifest files ∧ NoDup (map file_path files) ∧
    (∀ p, p ∈ map file_path files ↔ in_scope t config p) ∧ Forall (audited t) files ∧ no_links t config ∧
    collectGitMetadata t execGit environment = Ok g ∧
    ∃ b, provenance manifest "allRequiredSourceFilesMatchSourceCommit" = VBool b ∧
      (b = true ↔ ∀ p, in_scope t config p → committed g p).
Proof.
  intros (bytes & config & paths & g & entries & Hb & Hc & Hp & _ & Hg & He & Hl & _ & Hm)%build_parts.
  apply collectSourcePaths_spec in Hp as (Hn & Hp & Hno).
  exists bytes, config, (merge_sort (file_before collate) entries), g. do 3 (split; [done|]).
  apply map_res_Ok in He.
  assert (map file_path entries = paths ∧ Forall (audited t) entries) as [Hpath Haud].
  { clear - He. induction He as [|p f paths entries Hf _ [IH1 IH2]]; [done|]. apply audit_entry_Ok in Hf as [<- Hf].
    split; [cbn; by rewrite IH1|by constructor]. }
  pose proof (merge_sort_Permutation (file_before collate) entries) as Hperm.
  assert (map file_path (merge_sort (file_before collate) entries) ≡ₚ paths) as Hpp by (by rewrite <- Hpath, Hperm).
  split; [by rewrite Hpp|]. split; [intros p; by rewrite Hpp|]. split; [by rewrite Hperm|]. split; [done|]. split; [done|].
  eexists. split; [exact Hm|]. rewrite bool_decide_eq_true, exceptions_none, Forall_forall. by setoid_rewrite Hp.
Qed.

(** ** The scope digest *)

Lemma line_free_sha b : hex_digests lib → (10%N ∉ sha256 lib b) ∧ (32%N ∉ sha256 lib b).
Proof.
  intros Hh. specialize (Hh b). cbn [is_hash_text] in Hh. apply andb_true_iff in Hh as [_ Hh].
  rewrite forallb_forall in Hh. split; intros Hin%list_elem_of_In; by apply Hh in Hin.
Qed.

Lemma line_free_dec z : 0 ≤ z → (10%N ∉ dec_of_Z z) ∧ (32%N ∉ dec_of_Z z).
Proof.
  intros Hz. pose proof (canonical_digits _ (dec_of_Z_canonical z Hz)) as [Hd _]. rewrite Forall_forall in Hd.
  split; intros Hin; by apply Hd in Hin.
Qed.

(** Files as a bundle lists them, on one line each. *)
Definition lined (f : audit_file) : Prop :=
  0 ≤ file_bytes f ∧ (∃ b, file_sha256 f = sha256 lib b) ∧ 10%N ∉ file_path f.

Lemma scope_line_free f : hex_digests lib → lined f → 10%N ∉ scope_line f.
Proof.
  intros Hh (Hb & (b & Hs) & Hp). unfold scope_line. rewrite Hs. unfold jcat.
  pose proof (line_free_sha b Hh) as [H1 _]. pose proof (line_free_dec _ Hb) as [H2 _].
  change (js " ") with [32%N]. set_solver.
Qed.

Lemma scope_line_inj f f' : hex_digests lib → lined f → lined f' → scope_line f = scope_line f' → f = f'.
Proof.
  intros Hh (Hb & (b & Hs) & _) (Hb' & (b' & Hs') & _) H. unfold scope_line, jcat in H. rewrite Hs, Hs' in H.
  change (js " ") with [32%N] in H. rewrite <- ?app_assoc in H. cbn [app] in H.
  apply (f_equal (split_on 32)) in H. rewrite !split_on_app in H by (apply line_free_sha || apply line_free_dec; done).
  injection H as H1 H2 H3. apply (f_equal (join [32%N])) in H3. rewrite !join_split in H3.
  apply dec_of_Z_inj in H2; [|done..]. destruct f, f'. cbn in *. congruence.
Qed.

Lemma scope_text_inj l l' : hex_digests lib → l ≠ [] → l' ≠ [] → Forall lined l → Forall lined l' →
  scope_text l = scope_text l' → l = l'.
Proof.
  intros Hh Hn Hn' Hl Hl' H. unfold scope_text, jcat in H. apply app_inv_tail in H.
  apply (f_equal (split_on 10)) in H.
  assert (∀ l, l ≠ [] → Forall lined l → split_on 10 (join [10%N] (map scope_line l)) = map scope_line l) as Hs.
  { intros k Hk Hlk. apply split_join; [by destruct k|]. apply Forall_map. eapply Forall_impl; [exact Hlk|].
    intros f Hf. by apply scope_line_free. }
  rewrite !Hs in H by done. clear Hs Hn Hn'. revert l' Hl' H.
  induction Hl as [|f l Hf _ IH]; intros [|f' l'] Hl' H; try done. cbn [map] in H. injection H as H1 H2.
  apply Forall_cons in Hl' as [Hf' Hl']. apply scope_line_inj in H1 as ->; [|done..]. by rewrite (IH l').
Qed.

(** The paths of a manifest. *)
Definition listed_paths (manifest : value) : list jstr := map (λ v, v_str (field v (js "path"))) (v_list (field manifest (js "files"))).

Lemma listed_files manifest files : lists_files manifest files → listed_paths manifest = map file_path files.
Proof. unfold lists_files, listed_paths. intros ->. cbn [v_list]. rewrite map_map. by apply map_ext. Qed.

(** The files of a bundle are not empty and, if no path has a line feed, lined. *)
Lemma build_lined t fuel manifest manifestText checksumsText :
  buildBundle t execGit environment repositoryRoot cwd fuel = Ok (manifest, manifestText, checksumsText) →
  Forall (λ p, 10%N ∉ p) (listed_paths manifest) →
  ∃ files, lists_files manifest files ∧ files ≠ [] ∧ Forall lined files ∧
    provenance manifest "scopeDigestSha256" = VStr (scopeDigest lib files).
Proof.
  intros (bytes & config & paths & g & entries & _ & _ & _ & Hne & _ & He%map_res_Ok & Hl & Hd & _)%build_parts Hp.
  rewrite (listed_files _ _ Hl) in Hp. eexists. split; [exact Hl|].
  pose proof (merge_sort_Permutation (file_before collate) entries) as Hperm. split; [|split; [|exact Hd]].
  - intros E. rewrite E in Hperm. apply Permutation_nil in Hperm. subst. inversion He. congruence.
  - rewrite Hperm. rewrite Hperm, Forall_map in Hp. clear - He Hp. induction He as [|p f paths entries Hf _ IH]; [done|].
    apply Forall_cons in Hp as [Hp Hps]. constructor; [|by apply IH]. apply audit_entry_Ok in Hf as [_ (_ & _ & _ & b & _ & Hb & Hs)].
    split; [lia|]. split; [by exists b|done].
Qed.

End audit.

Lemma file_values_inj l l' : map file_value l = map file_value l' → l = l'.
Proof.
  revert l'. induction l as [|[p b s] l IH]; intros [|[p' b' s'] l'] H; try done. cbn [map] in H.
  injection H as H1 H2. unfold file_value in H1. cbn [file_path file_bytes file_sha256] in H1.
  assert (p = p' ∧ b = b' ∧ s = s') as (-> & -> & ->) by (unfold NInt in H1; split_and!; congruence). by rewrite (IH l').
Qed.

(** The digest of a manifest is that of the files that it lists. *)
Lemma scope_digest_listed lib collate root cwd t execGit environment fuel m text checksums l :
  buildBundle lib collate t execGit environment root cwd fuel = Ok (m, text, checksums) → lists_files m l →
  provenance m "scopeDigestSha256" = VStr (scopeDigest lib l).
Proof.
  intros (bytes & config & paths & g & entries & _ & _ & _ & _ & _ & _ & Hl & -> & _)%build_parts Hl'.
  unfold lists_files in Hl, Hl'. rewrite Hl in Hl'. apply (f_equal v_list) in Hl'. cbn [v_list] in Hl'.
  by apply file_values_inj in Hl' as ->.
Qed.

(** C40. The scope digest identifies what was audited: for digests that do not collide
    on the two scope texts, and paths without line feeds, two bundles have the same
    scope digest exactly when they list the same files with the same sizes and
    digests, whatever trees, commits, tools and settings they were made from. *)
Theorem scope_digest_identifies lib collate root cwd t execGit environment fuel m text checksums
    t' execGit' environment' fuel' m' text' checksums' :
  hex_digests lib →
  buildBundle lib collate t execGit environment root cwd fuel = Ok (m, text, checksums) →
  buildBundle lib collate t' execGit' environment' root cwd fuel' = Ok (m', text', checksums') →
  Forall (λ p, 10%N ∉ p) (listed_paths m ++ listed_paths m') →
  (∀ l l', lists_files m l → lists_files m' l' → scopeDigest lib l = scopeDigest lib l' → scope_text l = scope_text l') →
  provenance m "scopeDigestSha256" = provenance m' "scopeDigestSha256" ↔ field m (js "files") = field m' (js "files").
Proof.
  intros Hh H H' [Hp Hp']%Forall_app Hc. destruct (build_lined _ _ _ _ _ _ _ _ _ _ _ H Hp) as (l & Hl & Hn & Hlined & ->).
  destruct (build_lined _ _ _ _ _ _ _ _ _ _ _ H' Hp') as (l' & Hl' & Hn' & Hlined' & ->). split.
  - intros [= E]. apply (Hc l l' Hl Hl') in E. apply (scope_text_inj lib) in E as ->; try done. by rewrite Hl, Hl'.
  - rewrite Hl, Hl'. intros E. apply (f_equal v_list) in E. cbn [v_list] in E. by apply file_values_inj in E as ->.
Qed.

(** ** A small scope *)

Module AuditSamples.

Definition line_text (l : list string) : jstr := join [10%N] (map js l).

Definition sample_config : value := VObj [
  "schemaVersion" :=: vi 1; "bundleId" :=: vs "audit-v1"; "hashAlgorithm" :=: vs "sha256";
  "coverageSummary" :=: vs "contracts/coverage.txt";
  "testConfigurationOverrides" :=: VArr [VObj [
     "contract" :=: vs "LedgerTest"; "source" :=: vs "contracts/src/sub/Ledger.t.sol"; "invariantRuns" :=: vi 128;
     "invariantDepth" :=: vi 64; "reason" :=: vs "A bounded model keeps the gate below one minute here."]];
  "sourceFiles" :=: VArr [vs "contracts/foundry.toml"];
  "sourceTrees" :=: VArr [VObj ["path" :=: vs "contracts/src"; "extensions" :=: VArr [vs ".sol"]]];
  "directDependencies" :=: VArr [vs "solhint"; vs "ajv"];
  "exclusions" :=: VArr [VObj ["path" :=: vs "out"; "reason" :=: vs "generated"]]]%js.

Definition sample_toolchain : value := VObj [
  "runtimes" :=: VObj ["node" :=: VObj ["version" :=: vs "22.23.1"; "image" :=: vs "node"]];
  "contracts" :=: VObj ["solidity" :=: VObj ["version" :=: vs "0.8.30"]; "foundry" :=: VObj ["version" :=: vs "1.7.1"]]]%js.

Definition sample_lock : value := VObj ["packages" :=: VObj [
  "" :=: VObj ["dependencies" :=: VObj ["ajv" :=: vs "8.17.1"]; "devDependencies" :=: VObj ["solhint" :=: vs "5.0.5"]];
  "node_modules/ajv" :=: VObj ["version" :=: vs "8.17.1"]; "node_modules/solhint" :=: VObj ["version" :=: vs "5.0.5"]]]%js.

Definition foundry_toml : jstr := line_text ["[profile.default]"]%string +++ [10%N] +++ js "solc_version = " +++ dquote (js "0.8.30")
  +++ [10%N] +++ line_text ["optimizer = true"; "[fuzz]"; "runs = 256 # bounded"; ""; "[invariant]"; "depth = 500"]%string.

Definition sample_files (ledger : string) : list (jstr * jstr) := [
  (js "/r/contracts/scripts/audit-bundle.config.json", stringify 2 0 sample_config);
  (js "/r/chain/toolchain.json", stringify 2 0 sample_toolchain);
  (js "/r/contracts/package-lock.json", stringify 2 0 sample_lock);
  (js "/r/contracts/foundry.toml", foundry_toml);
  (js "/r/contracts/coverage.txt", line_text ["| File | Lines |"; "| Total | 95.5% (191/200) | 90% (9/10) | 80% (8/10) | 100% (4/4) |"]%string);
  (js "/r/contracts/src/Ledger.sol", js ledger);
  (js "/r/contracts/src/notes.md", js "notes");
  (js "/r/contracts/src/sub/Ledger.t.sol", line_text ["/// forge-config: default.invariant.runs = 128";
     "/// forge-config: default.invariant.depth = 64"; "contract LedgerTest {}"]%string)].

Definition sample_tree (ledger : string) : tree := Tree
  (λ p, match assoc p (sample_files ledger) with Some _ => Ok RegularFile | None => error (js "ENOENT") end)
  (λ d, if d =s? js "/r/contracts/src" then
          Ok [(js "sub", DirectoryKind); (js "Ledger.sol", RegularFile); (js "notes.md", RegularFile)]
        else if d =s? js "/r/contracts/src/sub" then Ok [(js "Ledger.t.sol", RegularFile)]
        else error (js "ENOENT"))
  (λ p, match assoc p (sample_files ledger) with Some s => Ok (utf8_encode s) | None => error (js "ENOENT") end).

(** The commit has the files; those in [changed] differ from it. *)
Definition sample_git (changed : string) (arguments : list jstr) : result jstr :=
  if jmem (js "ls-tree") arguments then
    Ok (line_text ["contracts/foundry.toml"; "contracts/src/Ledger.sol"; "contracts/src/sub/Ledger.t.sol"]%string)
  else if jmem (js "diff") arguments then Ok (js changed)
  else Ok (js "c0ffee").

Abbreviation sample_bundle ledger changed :=
  (buildBundle sample_lib jstr_leb (sample_tree ledger) (sample_git changed) (λ _, None) (js "/r") (js "/r") 3).

Definition built (r : result (value * jstr * jstr)) : value * jstr * jstr := match r with Ok x => x | Throw _ => (VUndef, [], []) end.

Lemma ok_built r : is_ok r = true → r = Ok (fst (fst (built r)), snd (fst (built r)), snd (built r)).
Proof. by destruct r as [[[m x] y]|]. Qed.

Abbreviation sample_manifest ledger changed := (fst (fst (built (sample_bundle ledger changed)))).

Lemma first_built : is_ok (sample_bundle "contract Ledger {}" "") = true.
Proof. vm_compute. reflexivity. Qed.

Lemma second_built : is_ok (sample_bundle "contract Ledger { uint256 total; }" "contracts/src/Ledger.sol") = true.
Proof. vm_compute. reflexivity. Qed.

Example sample_lists : listed_paths (sample_manifest "contract Ledger {}" "") =
  [js "contracts/foundry.toml"; js "contracts/src/Ledger.sol"; js "contracts/src/sub/Ledger.t.sol"].
Proof. vm_compute. reflexivity. Qed.

Example sample_differs : provenance (sample_manifest "contract Ledger {}" "contracts/src/Ledger.sol")
  "allRequiredSourceFilesMatchSourceCommit" = VBool false.
Proof. vm_compute. reflexivity. Qed.

Lemma audit_scope_exact_witness : ∃ config files,
  lists_files (sample_manifest "contract Ledger {}" "") files ∧
  (∀ p, p ∈ map file_path files ↔ in_scope (js "/r") (js "/r") (sample_tree "contract Ledger {}") config p) ∧
  Forall (audited sample_lib (js "/r") (sample_tree "contract Ledger {}")) files.
Proof.
  destruct (audit_scope_exact _ _ _ _ _ _ _ _ _ _ _ (ok_built _ first_built))
    as (bytes & config & files & g & _ & _ & Hl & _ & Hs & Ha & _). exists config, files. split; [exact Hl|]. split; [exact Hs|exact Ha].
Defined.

Lemma sample_no_line_feed : forallb (λ p, negb (existsb (N.eqb 10) p))
  (listed_paths (sample_manifest "contract Ledger {}" "")
   ++ listed_paths (sample_manifest "contract Ledger { uint256 total; }" "contracts/src/Ledger.sol")) = true.
Proof. vm_compute. reflexivity. Qed.

Lemma no_line_feed l : forallb (λ p, negb (existsb (N.eqb 10) p)) l = true → Forall (λ p, 10%N ∉ p) l.
Proof.
  intros H%forallb_spec. eapply Forall_impl; [exact H|]. intros p Hp Hin. apply negb_true_iff in Hp.
  assert (existsb (N.eqb 10) p = true) as E; [|by rewrite E in Hp].
  apply existsb_exists. exists 10%N. split; [by apply list_elem_of_In|done].
Qed.

Definition same_value_text (v w : value) : bool := v_str v =s? v_str w.

Lemma sample_digests_differ : same_value_text
  (provenance (sample_manifest "contract Ledger {}" "") "scopeDigestSha256")
  (provenance (sample_manifest "contract Ledger { uint256 total; }" "contracts/src/Ledger.sol") "scopeDigestSha256") = false.
Proof. vm_compute. reflexivity. Qed.

Lemma scope_digest_identifies_witness :
  provenance (sample_manifest "contract Ledger {}" "") "scopeDigestSha256"
    = provenance (sample_manifest "contract Ledger { uint256 total; }" "contracts/src/Ledger.sol") "scopeDigestSha256" ↔
  field (sample_manifest "contract Ledger {}" "") (js "files")
    = field (sample_manifest "contract Ledger { uint256 total; }" "contracts/src/Ledger.sol") (js "files").
Proof.
  apply (scope_digest_identifies _ _ _ _ _ _ _ _ _ _ _ _ _ _ _ _ _ _ sample_digests (ok_built _ first_built)
    (ok_built _ second_built) (no_line_feed _ sample_no_line_feed)).
  intros l l' Hl Hl' E. exfalso.
  pose proof (scope_digest_listed _ _ _ _ _ _ _ _ _ _ _ _ (ok_built _ first_built) Hl) as H.
  pose proof (scope_digest_listed _ _ _ _ _ _ _ _ _ _ _ _ (ok_built _ second_built) Hl') as H'.
  rewrite E in H. rewrite <- H' in H. pose proof sample_digests_differ as Hd. unfold same_value_text in Hd.
  rewrite H, jeq_refl in Hd. discriminate Hd.
Defined.

End AuditSamples.
